(* ===== verification/_CoqProject ===== *)
-Q . S2P
Prelude.v
CString.v
Json.v
Regex.v
Darray.v
RateLimiter.v
ShellBase.v
ShellLex.v
ShellPosix.v
ShellCmd.v
ShellPs.v
ShellParser.v
ShellFacts.v
Allowlist.v
PathNormalize.v
ProtectedFiles.v
PatternGenerator.v
ToolArgs.v
ApprovalGate.v
GateDecision.v
ApprovalErrors.v
GateTheorems.v
ApprovalPrompt.v
ToolOrchestration.v
ToolBatch.v
SubagentApproval.v
Streaming.v
StreamingFacts.v
Providers.v
ProviderFacts.v
StreamView.v
StreamRun.v
StreamTheorems.v
ChatTheorems.v
CodexTheorems.v
Conversation.v
ConversationFacts.v
TokenManager.v
TokenFacts.v
Compactor.v
CompactorFacts.v
ApiMessages.v
ApiFacts.v
ToolFormat.v
ToolFormatFacts.v
AgentLoop.v
LoopFacts.v
Answers.v
Session.v
SessionFacts.v
Plugins.v
Hooks.v
PluginFacts.v
Sql.v
TaskStore.v
TaskFacts.v
TodoTool.v
TodoFacts.v
WorkQueue.v
WorkQueueFacts.v
MessageStore.v
Subagents.v
SubagentFacts.v
MessageFacts.v
MessageTheorems.v
ChannelTheorems.v
Worker.v
GoapState.v
ActionStore.v
GoalStore.v
ParamExtract.v
GoapTools.v
GoapFacts.v
Supervisor.v
SupervisorFacts.v
Orchestrator.v
OrchestratorTool.v
OrchestratorFacts.v
SupervisionFacts.v
