(* ===== verification/Prelude.v ===== *)
(** * The policy, conversation and planning layers of Scaffold

    Scaffold is an agent written in C: a language model asks for tool calls
    (run a shell command, write a file, fetch a page) and the program runs
    them. The conversation layer ([lib/agent/], [lib/session/], [lib/network/],
    [lib/llm/], [lib/tools/tool_format*.c]) sends the conversation to a model
    within a token budget, reads what comes back, whole or as a stream, and
    loops while the model asks for calls. Before a call runs it passes the
    policy layer: [lib/policy/], [lib/agent/tool_orchestration.c] and the batch
    executor above them, [lib/agent/tool_batch_executor.c]. In autonomous mode
    the program works on goals: the planning layer ([lib/db/],
    [lib/workflow/], [lib/orchestrator/] and the tools over them) keeps goals,
    actions and work items in SQLite tables and starts the processes that
    advance them; the agents talk through the message store ([lib/ipc/]). This
    library models these layers, function by function: what a conversation
    keeps, sends and understands, what the policy lets through and refuses, and
    that the planning keeps its tables consistent, makes progress and knows its
    processes.

    ** The conversation layer

    [session_process_message] is the entry: it makes room in the conversation
    ([manage_conversation_tokens], over [token_manager.c] and
    [conversation_compactor.c]), builds a request ([api_common.c]), sends it
    buffered or streamed, and reads the answer: whole documents with
    [output_formatter.c] and the tool formats, streams with [streaming.c], which
    cuts chunks into lines and lines into events for the parser of the provider
    ([lib/llm/providers/]). An answer with tool calls goes to
    [tool_executor_run_workflow], which runs them as a batch through the policy
    layer and then enters [iterative_loop_run]: budget, request, answer, batch,
    until the model is done, with retries, nudges and a limit of iterations.
    Every message is appended to the conversation and stored
    ([conversation_tracker.c]).

    ** The policy layer

    [tool_orchestration_check_approval] is the door. For one tool call it
    - refuses file-writing tools whose path argument names a protected file
      ([protected_files.c], which uses [path_normalize.c] and a cache of the
      inodes of the protected files that exist);
    - asks the approval gate ([approval_gate.c]): a category action (allow,
      gate, deny), two allowlists (regular expressions for most tools, token
      prefixes of shell commands for the shell tool, read by the tokenizers of
      [shell_parser*.c]), a per-tool backoff after repeated denials
      ([rate_limiter.c]), and finally a question to the user, or to the parent
      process when the gate runs in a subagent;
    - on the answer "always", adds a pattern made from the call
      ([pattern_generator.c]) to the gate's allowlist.

    [tool_batch_execute] takes the calls of one answer of the model through the
    door one by one, then runs the approved ones, in parallel when all of them
    are thread safe. In a subagent, whose gate has no terminal, the question
    goes through a pipe to the parent ([subagent_approval.c]). The parent starts
    subagents, reads what they write and notices their end
    ([subagent_tool.c], [subagent_process.c]); what they answer comes back as a
    message.

    Plugins are child processes that see and change what the agent does: hooks
    send an event to every plugin that subscribes to it ([hook_dispatcher.c]),
    before a tool call among others, and tools that a plugin offers are called by
    a request over its pipes ([plugin_manager.c]).

    The gate's state is one configuration record, changed by the configuration
    file, the command line, the user's answers, and copied (the static part of
    it) into the subagents.

    ** The planning layer

    A goal has a goal state (the assertions to reach), a world state (those
    reached) and a plan of actions. The orchestrator ([orchestrator.c],
    [orchestrator_tool.c]) starts one supervisor process per goal and records
    its pid in the goal's row; the supervisor ([supervisor.c]) drives the
    session, first to a plan, then to completion, through the planning tool
    ([goap_tools.c]): create actions, dispatch a primitive action as an item of
    the goal's work queue ([workflow.c]) together with a worker process, assert
    what was verified. A worker ([agent.c], worker mode) claims items until its
    queue is empty. The processes share only the tables: what one of them owes
    to the others is an invariant of the tables, and what a dead one leaves
    behind is recovered by the next.

    ** Files

    - [Prelude]: tactics, hint databases, 32-bit integers, lists.
    - [CString]: C strings as lists of characters, and the string functions of
      the C library that the code calls.
    - [Json]: cJSON as the class [CJson], with the laws [CJsonSpec] (a printed
      document within the nesting limit of cJSON reads back; lookup, addition
      and deletion of members) and an executable instance (a printer and a
      parser of whole documents) that satisfies them.
    - [Regex]: regcomp/regexec as the class [Regex], their documented behaviour
      on the fragment the program generates as [RegexSpec], and an executable
      instance.
    - [Darray]: [lib/util/darray.h], the functions of DARRAY_DEFINE.
    - [RateLimiter]: [rate_limiter.c].
    - [ShellBase], [ShellLex], [ShellPosix], [ShellCmd], [ShellPs],
      [ShellParser], [ShellFacts]: [shell_parser.c], [shell_parser_cmd.c],
      [shell_parser_ps.c]. The three character loops are step functions
      [posix_step], [cmd_step], [ps_step] over one record of the loop's local
      variables ([LexState]), driven by [lex_loop]; the class [Lexer] states
      what a step function owes to the flag analysis, and each tokenizer is an
      instance.
    - [Allowlist]: [allowlist.c], two dynamic arrays.
    - [PathNormalize]: [path_normalize.c].
    - [ProtectedFiles]: [protected_files.c]; the static variables of the file
      are the record [ProtectedState].
    - [PatternGenerator]: [pattern_generator.c].
    - [ToolArgs]: [tool_args.c] and the [ToolCall] record of [types.h].
    - [ApprovalGate] (configuration, JSON loading, insertion, inheritance),
      [GateDecision] (categories, matching, decision, command line),
      [GateTheorems] (their properties), [ApprovalPrompt] (single and batch
      prompts, combined checks): [approval_gate.c] with the key reading of
      [gate_prompter.c].
    - [ApprovalErrors]: [approval_errors.c] and [json_escape.c], the texts of
      the refusals.
    - [ToolOrchestration]: [tool_orchestration.c] and the two functions of
      [pattern_generator.c] that need the gate.
    - [ToolBatch]: [tool_batch_executor.c]. [screen_loop] is the first phase of
      tool_batch_execute, [run_entries] the second; hooks, MCP servers, plugins
      and tools are the record [ToolRuntime].
    - [SubagentApproval]: [subagent_approval.c], both sides of the protocol over
      pipes given as streams of events.
    - [Streaming], [StreamingFacts]: [streaming.c], the buffers, the events and
      the reassembly of lines; a callback is a function on the caller's data.
    - [Providers], [ProviderFacts]: the stream parsers and headers of the four
      providers of [lib/llm/providers/] and [llm_provider.c].
    - [StreamView], [StreamRun], [StreamTheorems], [ChatTheorems],
      [CodexTheorems]: a stream seen as what it says, the run of a whole body,
      and the theorems on each format.
    - [Conversation], [ConversationFacts]: [conversation_tracker.c]; the class
      [Qsort] with the laws [QsortSpec] is qsort.
    - [TokenManager], [TokenFacts]: [token_manager.c].
    - [Compactor], [CompactorFacts]: [conversation_compactor.c],
      [rolling_summary.c] and manage_conversation_tokens of [session.c].
    - [ApiMessages], [ApiFacts]: [api_common.c], [model_capabilities.c] and
      [lib/llm/models/].
    - [ToolFormat], [ToolFormatFacts]: [tool_format_openai.c] and
      [tool_format_anthropic.c].
    - [AgentLoop], [LoopFacts]: [iterative_loop.c], [tool_executor.c] and
      [conversation_state.c], over the class [RoundTrip], one request to the
      model with the law the loop relies on.
    - [Answers]: the parsers of [output_formatter.c].
    - [Session], [SessionFacts]: [api_round_trip.c], [message_dispatcher.c],
      [message_processor.c], the conversation part of [streaming_handler.c] and
      the message functions of [session.c]; they make the instance
      [session_round_trip] of [RoundTrip].
    - [Plugins], [Hooks], [PluginFacts]: [lib/plugin/]; a child process, with
      what the reads of its pipe find, is the class [PluginProgram];
      [plugin_runtime] makes the hooks and the tools of plugins a
      [ToolRuntime] of [ToolBatch].
    - [Sql]: statements over a table given as the list of its rows, and the
      helpers of [sqlite_dal.c]; the class [Sqlite] is the order of the rows of
      a query.
    - [TaskStore], [TaskFacts]: [task_store.c] and uuid_is_valid of
      [uuid_utils.c]; the cascades of the foreign keys and the recursive queries
      are functions on the two tables.
    - [Subagents], [SubagentFacts]: [subagent_tool.c] and
      [subagent_process.c]; the array of subagents is a list, their log is what
      the system is asked to do to each child.
    - [TodoTool], [TodoFacts]: [todo_manager.c] and [todo_tool.c], the todo list
      of the agent over the task store.
    - [MessageStore], [MessageFacts], [MessageTheorems], [ChannelTheorems]:
      [message_store.c], direct messages and channels between processes.
    - [WorkQueue]: [workflow.c], each operation a statement or two over the
      table; [WorkQueueFacts]: the statements of any processes in any order;
      [Worker]: the worker loop of [agent.c].
    - [GoapState]: [goap_state.c]; [ActionStore]: [action_store.c];
      [GoalStore]: [goal_store.c].
    - [ParamExtract]: string parameters and [strip_ansi] of [common_utils.c].
    - [GoapTools]: [goap_tools.c] and the dispatch of [tool_param_dsl.c], in a
      state monad over the three tables ([World]); [GoapFacts]: their theorems.
    - [Supervisor], [SupervisorFacts]: [supervisor.c].
    - [Orchestrator], [OrchestratorTool], [OrchestratorFacts],
      [SupervisionFacts]: [orchestrator.c] and [orchestrator_tool.c], in a
      monad over the tables and the processes of the system; the class
      [Processes] stands for fork, kill and waitpid, [ProcessesSpec] for what
      the code relies on.

    ** What the theorems show

    - The loop: it makes a bounded number of requests, pauses and nudges and
      answers one of its codes ([loop_paced]); it runs no call identifier twice
      ([calls_run_once]); what its success means ([done_means_tested]), what
      counts for it ([refusals_count_as_work]) and what it hides
      ([later_abort_hidden]).
    - A session keeps its side of the interface ([session_calls_named]); an
      error in a stream is kept as an answer ([stream_error_kept]).
    - Streams: whatever chunks arrive, the lines are the same
      ([chunks_are_lines]) and the buffers stay sound ([stream_stays_sound]);
      any answer a server sends is read back, for each format
      ([anthropic_answer_read], [chat_answer_read], [codex_answer_read]).
    - Whole answers: calls are read back ([openai_calls_read]) without leaving
      the text ([openai_scan_inside]); where reading fails
      ([brace_loses_calls], [type_after_input_spins], [markup_filter_ends]).
    - The conversation: what is said is reloaded ([conversation_reloaded],
      [loaded_turns_exact]); trimming is exact, with the one case that leaves
      the array ([trim_exact]), which one large tool result reaches
      ([oversized_result_stops_loop]); compaction reaches its target
      ([compaction_reaches_target]), the summary is complete
      ([summary_text_complete]); what the budget, the pairs of call and result
      and the message buffer miss ([budget_ignores_trimming],
      [results_outlive_calls], [claude_calls_forgotten],
      [control_characters_block_requests]).
    - Messages between agents: the tables stay well formed
      ([message_tables_well_formed]), a channel is read in order and once
      ([channel_fifo]), and what is lost ([receive_direct_exact]).
    - The door: every call gets an answer; it passes only with the consent the
      configuration, the parent or the user gave ([tool_call_passes_only_if];
      a value outside the enumeration sent by the parent counts as consent),
      never when it writes a protected name
      ([protected_write_always_blocked]); "always" is remembered
      ([always_allow_is_remembered]); three denials close it for five seconds
      ([three_denials_block]); one subagent per batch and no call twice
      ([one_subagent_per_batch], [duplicates_exact]).
    - Batches: what is run is what the door let through, each consultation
      meeting what the one before left, once, into its own slot
      ([batch_runs_screened_calls]); parallel and serial execution agree
      ([parallel_batch_equals_serial]); what a stopped batch leaves
      ([stopped_batch_leaves_approved_slots]).
    - The proxy: the subagent gets the user's answer ([proxy_round_trip]) and
      nothing else passes ([proxy_fails_closed]).
    - Plugins: loaded names are valid and distinct ([loaded_plugins_unique]), a
      tool's name leads to its plugin ([registered_tools_routed]); the order of
      the hooks ([subscribers_in_order]) and their verdict on a call
      ([hook_verdict]); an answer is read whole ([answer_reassembled]), its
      reading ends ([reading_ends_bounded]), and what one late answer does
      ([late_answer_shifts]).
    - Subagents: each has one life that ends with its child waited for, or the
      wait failing, and then its parent told, or storing the message failing
      ([subagent_lives]); its output reaches the parent
      ([completion_delivered]); waiting for it ends ([wait_returns]) and its
      status is JSON ([status_reads_back]); the limit is one of starts
      ([subagent_slots_spent]).
    - Refusals are well-formed JSON ([error_texts_read_back]).
    - The gate: exact conditions for running without asking, for shell calls
      ([shell_auto_approval_exact], [unsafe_shell_always_asked]) and the others
      ([regex_decision_exact]); what a subagent's
      decisions inherit ([subagent_inherits_static_only]); insertion and the --allow argument
      ([gate_add_safe], [cli_allow_spec]).
    - The prompts: they terminate, and the result is a function of the first
      decisive key ([prompt_first_decisive_key], [batch_prompt_sound]); two
      theorems document defects of the batch prompt ([batch_abort_undefined],
      [batch_mixed_reported_allowed]).
    - The tokenizers: the safety verdict of each equals a character-level
      specification ([tokenizers_exact], [posix_safe_exact], [cmd_safe_exact],
      [ps_safe_exact]);
      the token buffer is never overrun ([token_buffer_in_bounds]); quoting
      round trip ([quoted_words_roundtrip]); dangerous text stays dangerous in
      any context ([danger_persists]); substitutions in double quotes are not
      seen ([quoted_substitution_unseen]).
    - Protected files and paths: the verdict is exact at a refresh
      ([is_protected_file_exact]), the cache is bounded
      ([inode_cache_bounded]), normalisation is canonical
      ([normalize_path_canonical], [normalize_path_equivalence]).
    - Patterns: what a generated expression matches ([file_pattern_meaning],
      [url_pattern_meaning]).
    - Data: the denial counters ([blocked_iff_in_backoff],
      [record_denial_alloc_safe]), the allowlist module
      ([add_shell_grants_exactly], [clear_session_rolls_back]), dynamic arrays
      against lists ([darray_refines_list]).
    - The queue: each statement of its operations is the step of an abstract
      queue for it ([work_queue_refines]); an item is claimed at most as often
      as allowed ([claims_within_max_attempts]) unless a report of its failure
      is overtaken between its two statements
      ([stale_report_exceeds_attempts]), by one worker at a time
      ([claim_is_exclusive]), the oldest first ([claim_takes_oldest]); a worker
      ends ([worker_terminates]) and drains its queue ([worker_drains_queue]).
    - The stores: tables stay well typed ([action_table_well_typed],
      [goap_tool_keeps_tables]), the plan is a forest
      ([action_hierarchy_acyclic]), what is written is read back
      ([goal_read_back], [status_text_roundtrip], [action_lists_exact],
      [skip_pending_exact], [string_param_roundtrip]).
    - The planning tool: what complete means ([goal_progress_exact],
      [preconditions_exact]); a dispatch happens completely or not at all
      ([dispatch_all_or_nothing]) and within the capacity
      ([dispatch_respects_capacity]); assertions take effect
      ([assertions_take_effect], [asserted_goal_is_complete]), except those of
      concurrent writers ([concurrent_assertions_lost]).
    - The tasks: whatever happens, parents and dependencies exist, and no task
      waits for itself while the check for it does not fail
      ([task_tables_sound], [cycle_after_failed_check]); which tasks are ready, and that
      there is always one ([ready_tasks_exact]); when the tasks below a task can
      be listed ([subtree_exact]). The todo list: what is written is shown, each
      content up to 256 bytes ([todo_write_read]), what is reported as written but lost
      ([todo_write_lost]), and the layout that makes the scanner leave the text
      ([blank_reads_past]).
    - Supervisors: their messages fit ([supervisor_messages_fit]), recovery is
      exact ([recovery_exact]), completion is only reported when reached
      ([completion_sound]), and they end ([supervisor_terminates]).
    - The orchestrator: a goal never has two supervisors as long as the read
      that asks for one succeeds ([supervisors_tracked],
      [second_supervisor_started]); stale records are cleared exactly
      ([check_stale_exact]); a respawn misses no goal ([respawn_restores]); a
      pause can be lost ([pause_of_dead_supervisor_lost]); the report of a goal
      is finite ([goal_status_returns]).

    ** Conventions

    - A C string is the list of its characters before the NUL; a [char*] that
      may be NULL is an [option]; pointers that are never NULL in a call are
      plain values, so the NULL guards of the code are settled by the types.
    - [int] counters and capacities are [Z]; where the code's arithmetic could
      overflow the guard or the wrap-around is written out ([wrap32],
      [grown_capacity], the allowlist stays below 2^29 entries).
    - Whether an allocation succeeds is an argument of the operation
      ([GateAlloc] for the gate, booleans elsewhere), except in the tokenizers
      and the pattern generator, whose small allocations are taken to succeed,
      and in the planning layer outside the work queue and the worker.
    - A table is the list of its rows in the order of insertion. Every
      statement has an outcome ([Stmt]: it cannot be prepared, it fails after
      some rows, it succeeds); in the monads the outcomes of the next statements
      are a list of the world, all fine when it is empty ([calm]). Ids, times and
      the answers of the system come from the world too.
    - The recursion over the tree of actions takes fuel, and
      [goal_status_returns] says how much is enough; the query for the tasks
      below a task takes a round per row, enough by [subtree_exact], and the
      scanner of the todos a turn per character ([read_items_enough]); the loops of the worker and
      the supervisor run over a stream of events per iteration, with the
      theorems on termination giving the bound.
    - The float arithmetic of the token budget is Stdlib's SpecFloat at the
      precisions of float and double, as evaluated when FLT_EVAL_METHOD is 0.
    - A read outside an array, a loop that does not end and a request that does
      not return are answers of their own: [None], [OutOfBounds], [Spinning];
      the theorems say when they occur. The iterations of the loop are counted
      by the limit of the code, the scans take the length of the text as fuel.
    - The loop logs its requests, pauses, nudges and batches as a list of
      events of the model, about which the theorems speak.
    - Waiting for a subagent runs over a list of turns, each with what the
      system answers in it; [wait_returns] says how many are enough. A read
      that nothing ends is [None].
    - The pipe of a plugin is the list of what its reads will find; a turn of
      the reading loop uses up an event or a byte, which is its fuel.
    - Loops are structural on the string they read. The prompts read a list of
      keyboard events, with fuel one more than its length: every iteration
      consumes an event or ends, which the theorems prove, and the end of the
      list is the end of the input.
    - The build is the POSIX one; branches for Windows are compiled out.
    - time, getenv, stat, getcwd, app_home_path, fnmatch, the regular
      expressions, cJSON, the callbacks of the Python tools and the answer of a
      parent process are parameters, constant during one call; each class of
      laws has an executable instance that the witnesses use.

    ** What is not modelled

    Freeing memory, logging and screen output; terminal settings and signal
    handlers; creating, closing and polling the approval pipes; what a tool does
    once it runs (a parameter; a thread of a parallel batch runs its call as one
    step); what the session of a supervisor or a worker does with a message (a
    parameter there: any computation over the tables); opening databases,
    schemas, locks and transactions (except that of the task store); the display
    of the todo list; the requests of the streamed providers and
    everything below HTTP (what a server answers is a parameter); prompt
    enhancement, the hooks and credentials as parameters of the session (file
    [Hooks] has the dispatcher); the sandbox and the environment a plugin is
    started with, and a write to a plugin that blocks; what a subagent's child
    does between fork and exec;
    starting and ending a session; file identity checks ([atomic_file.c],
    [verified_file_context.c]), which the modelled code never reaches because no
    approved path is ever filled in; and the rest of the agent (terminal, MCP,
    updater), which is listed part by part in the manifest. Extensions
    in order: the result cache, the vector index, the MCP protocol. *)

From stdpp Require Export base tactics list numbers strings gmap.
From Stdlib Require Export ZArith Lia Ascii.

(** ** The hint databases of the development *)

Create HintDb scaffold.
Create Rewrite HintDb scaffold.

(** ** Generic tactics *)

(** Split every boolean conjunction and disjunction of the context. *)
Ltac destr_bool :=
  repeat match goal with
  | H : _ && _ = true |- _ => apply andb_true_iff in H as [? ?]
  | H : _ || _ = false |- _ => apply orb_false_iff in H as [? ?]
  | H : negb _ = true |- _ => apply negb_true_iff in H
  | H : negb _ = false |- _ => apply negb_false_iff in H
  | H : bool_decide _ = true |- _ => apply bool_decide_eq_true_1 in H
  | H : bool_decide _ = false |- _ => apply bool_decide_eq_false_1 in H
  end.

(** Enumerate the 256 values of a character. *)
Ltac ascii_cases c := destruct c as [[] [] [] [] [] [] [] []].

(** ** Machine integers: the C [int] of the supported targets *)

(** Two's complement wrap-around of a mathematical integer to 32 bits. *)
Definition wrap32 (z : Z) : Z := ((z + 2 ^ 31) mod 2 ^ 32 - 2 ^ 31)%Z.

Lemma wrap32_range z : (- 2 ^ 31 <= wrap32 z < 2 ^ 31)%Z.
Proof.
  unfold wrap32. pose proof (Z.mod_pos_bound (z + 2 ^ 31) (2 ^ 32) eq_refl). lia.
Qed.

Lemma wrap32_small z : (- 2 ^ 31 <= z < 2 ^ 31)%Z -> wrap32 z = z.
Proof. intros H. unfold wrap32. rewrite Z.mod_small by lia. lia. Qed.

(** ** Lists *)

Lemma existsb_true_iff {A} (f : A -> bool) (l : list A) :
  existsb f l = true <-> exists x, x ∈ l /\ f x = true.
Proof.
  rewrite existsb_exists. split; intros (x & Hx & Hf); exists x; split; auto;
    by apply list_elem_of_In.
Qed.

Lemma existsb_mono {A} (f g : A -> bool) (l : list A) :
  (forall x, f x = true -> g x = true) -> existsb f l = true -> existsb g l = true.
Proof. rewrite !existsb_true_iff. naive_solver. Qed.

#[export] Hint Resolve existsb_mono : scaffold.
