(* ===== verification/CString.v ===== *)
(** * C strings

    A C string is the list of the characters before its terminating NUL; the
    functions of the C library that the policy layer calls are written out
    here, each with the characterisation the other files use. *)

From S2P Require Import Prelude.
Local Open Scope bool_scope.

Abbreviation cstr := (list ascii).

(** A literal of the source. *)
Definition cs (s : string) : cstr := String.list_ascii_of_string s.

Definition NUL : ascii := "000"%char.

(** [*p] for a pointer into a string: the next character, or the NUL. *)
Definition peek (p : cstr) : ascii := match p with [] => NUL | c :: _ => c end.

(** [(unsigned char)c] *)
Definition byte_of (c : ascii) : Z := Z.of_N (N_of_ascii c).

Definition non_ascii (c : ascii) : bool := (127 <? byte_of c)%Z.

(** [isspace] and [tolower] of the "C" locale. *)
Definition isspace (c : ascii) : bool :=
  ((9 <=? byte_of c) && (byte_of c <=? 13))%Z || (byte_of c =? 32)%Z.

Definition tolower (c : ascii) : ascii :=
  if ((65 <=? byte_of c) && (byte_of c <=? 90))%Z
  then ascii_of_N (Z.to_N (byte_of c + 32)) else c.

Definition lower (s : cstr) : cstr := map tolower s.

(** [strcmp(a, b) == 0] *)
Fixpoint streq (a b : cstr) : bool :=
  match a, b with
  | [], [] => true
  | x :: a', y :: b' => Ascii.eqb x y && streq a' b'
  | _, _ => false
  end.

(** [strcasecmp(a, b) == 0] *)
Definition strcaseeq (a b : cstr) : bool := streq (lower a) (lower b).

(** [strncmp(s, p, strlen(p)) == 0] *)
Fixpoint has_prefix (p s : cstr) : bool :=
  match p, s with
  | [], _ => true
  | _ :: _, [] => false
  | x :: p', y :: s' => Ascii.eqb x y && has_prefix p' s'
  end.

(** [strstr(hay, needle)]: the suffix of [hay] at the first occurrence. *)
Fixpoint strstr (hay needle : cstr) : option cstr :=
  if has_prefix needle hay then Some hay
  else match hay with [] => None | _ :: t => strstr t needle end.

Definition contains (hay needle : cstr) : bool :=
  match strstr hay needle with Some _ => true | None => false end.

(** [strchr(s, c)] for [c] other than NUL: the suffix at the first [c]. *)
Fixpoint strchr (s : cstr) (c : ascii) : option cstr :=
  match s with
  | [] => None
  | x :: t => if Ascii.eqb x c then Some s else strchr t c
  end.

(** [strrchr(s, c)]: the suffix at the last [c]. *)
Fixpoint strrchr (s : cstr) (c : ascii) : option cstr :=
  match s with
  | [] => None
  | x :: t => match strrchr t c with
              | Some r => Some r
              | None => if Ascii.eqb x c then Some s else None
              end
  end.

(** ** Facts about characters *)

Lemma ascii_eqb_true (a b : ascii) : Ascii.eqb a b = true <-> a = b.
Proof. apply Ascii.eqb_eq. Qed.

Lemma ascii_eqb_false (a b : ascii) : Ascii.eqb a b = false <-> a <> b.
Proof. apply Ascii.eqb_neq. Qed.

(** Case analysis on every character comparison of the goal and the context. *)
Ltac eqb_cases :=
  repeat match goal with
  | |- context [Ascii.eqb ?a ?b] => destruct (Ascii.eqb_spec a b); simplify_eq/=
  | H : context [Ascii.eqb ?a ?b] |- _ => destruct (Ascii.eqb_spec a b); simplify_eq/=
  end.

Lemma tolower_idem c : tolower (tolower c) = tolower c.
Proof. ascii_cases c; reflexivity. Qed.

Lemma lower_idem s : lower (lower s) = lower s.
Proof. unfold lower. rewrite map_map. apply map_ext. exact tolower_idem. Qed.

Lemma lower_length s : length (lower s) = length s.
Proof. apply length_map. Qed.

(** ** Comparison *)

Lemma streq_true a b : streq a b = true <-> a = b.
Proof.
  revert b; induction a as [|x a IH]; intros [|y b]; simpl; try naive_solver.
  rewrite andb_true_iff, IH, ascii_eqb_true. naive_solver.
Qed.

Lemma streq_refl a : streq a a = true.
Proof. by apply streq_true. Qed.

Lemma streq_false a b : streq a b = false <-> a <> b.
Proof. rewrite <- not_true_iff_false, streq_true. done. Qed.

Lemma streq_sym a b : streq a b = streq b a.
Proof. apply eq_true_iff_eq. rewrite !streq_true. naive_solver. Qed.

Lemma streq_spec a b : reflect (a = b) (streq a b).
Proof. apply iff_reflect. by rewrite streq_true. Qed.

Lemma strcaseeq_true a b : strcaseeq a b = true <-> lower a = lower b.
Proof. apply streq_true. Qed.

(** ** Searching *)

Lemma has_prefix_true p s : has_prefix p s = true <-> exists r, s = p ++ r.
Proof.
  revert s; induction p as [|x p IH]; intros s; simpl; [naive_solver|].
  destruct s as [|y s]; [naive_solver|].
  rewrite andb_true_iff, IH, ascii_eqb_true. naive_solver.
Qed.

Lemma has_prefix_app p r : has_prefix p (p ++ r) = true.
Proof. apply has_prefix_true. eauto. Qed.

Lemma strstr_Some hay needle r :
  strstr hay needle = Some r -> exists a b, hay = a ++ r /\ r = needle ++ b.
Proof.
  induction hay as [|x hay IH]; simpl; destruct (has_prefix _ _) eqn:E; intros H; simplify_eq.
  - apply has_prefix_true in E as [t ->]. by exists [], t.
  - apply has_prefix_true in E as [t Ht]. by exists [], t.
  - destruct (IH H) as (a & b & -> & ->). by exists (x :: a), b.
Qed.

Lemma contains_true hay needle :
  contains hay needle = true <-> exists a b, hay = a ++ needle ++ b.
Proof.
  unfold contains. split.
  - destruct (strstr hay needle) as [r|] eqn:E; [|done]. intros _.
    apply strstr_Some in E as (a & b & -> & ->). eauto.
  - intros (a & b & ->). induction a as [|x a IH]; simpl.
    + destruct (needle ++ b) eqn:E; simpl; rewrite <- E, has_prefix_app; done.
    + destruct (has_prefix needle (x :: a ++ needle ++ b)); done.
Qed.

(** Adding text around a string never loses an occurrence. *)
Lemma contains_context a s b needle :
  contains s needle = true -> contains (a ++ s ++ b) needle = true.
Proof.
  rewrite !contains_true. intros (u & v & ->). exists (a ++ u), (v ++ b).
  by rewrite <- !app_assoc.
Qed.

Lemma strchr_Some s c r : strchr s c = Some r <-> exists a b, s = a ++ c :: b /\ r = c :: b /\ c ∉ a.
Proof.
  induction s as [|x s IH]; simpl.
  { split; [done|]. intros (a & b & H & _). by destruct a. }
  destruct (Ascii.eqb_spec x c) as [->|Hne].
  - split.
    + intros [= <-]. exists [], s. split_and!; [done..|]. set_solver.
    + intros ([|y a] & b & H & -> & Hn); simplify_eq/=; [done|]. set_solver.
  - rewrite IH. split.
    + intros (a & b & -> & -> & Hn). exists (x :: a), b. split_and!; [done..|]. set_solver.
    + intros ([|y a] & b & H & -> & Hn); simplify_eq/=. exists a, b. split_and!; [done..|]. set_solver.
Qed.

Lemma strchr_None s c : strchr s c = None <-> c ∉ s.
Proof.
  induction s as [|x s IH]; simpl; [set_solver|].
  destruct (Ascii.eqb_spec x c); [set_solver|]. rewrite IH. set_solver.
Qed.

Lemma strrchr_None s c : strrchr s c = None <-> c ∉ s.
Proof.
  induction s as [|x s IH]; simpl; [set_solver|].
  destruct (strrchr s c) eqn:E.
  - split; [done|]. intros H. exfalso. assert (Some l = None) by (apply IH; set_solver). done.
  - destruct (Ascii.eqb_spec x c); [set_solver|]. rewrite not_elem_of_cons. naive_solver.
Qed.

Lemma strrchr_Some s c r :
  strrchr s c = Some r <-> exists a b, s = a ++ c :: b /\ r = c :: b /\ c ∉ b.
Proof.
  revert r; induction s as [|x s IH]; intros r; simpl.
  { split; [done|]. intros (a & b & H & _). by destruct a. }
  destruct (strrchr s c) as [r'|] eqn:E.
  - split.
    + intros [= <-]. destruct (proj1 (IH r') eq_refl) as (a & b & -> & -> & Hn).
      by exists (x :: a), b.
    + intros ([|y a] & b & H & -> & Hn); simplify_eq/=.
      * apply strrchr_None in Hn. congruence.
      * apply IH. by exists a, b.
  - apply strrchr_None in E. destruct (Ascii.eqb_spec x c) as [->|Hne].
    + split; [intros [= <-]; by exists [], s|].
      intros ([|y a] & b & H & -> & Hn); simplify_eq/=; [done|]. set_solver.
    + split; [done|]. intros ([|y a] & b & H & -> & Hn); simplify_eq/=. set_solver.
Qed.

Lemma cs_inj a b : cs a = cs b -> a = b.
Proof.
  intros H. apply (f_equal String.string_of_list_ascii) in H. unfold cs in H.
  by rewrite !String.string_of_list_ascii_of_string in H.
Qed.

#[export] Hint Resolve streq_refl has_prefix_app contains_context : scaffold.
#[export] Hint Rewrite streq_refl has_prefix_app : scaffold.
