(* ===== verification/Json.v ===== *)
(** * The JSON library as an interface

    cJSON is not part of the repository: its node type is the tree of the
    fields the code reads, and its functions are the fields of the class
    [CJson]. [CJsonSpec] states their documented behaviour on the messages the
    program itself writes (flat objects of strings and of 32-bit numbers).
    [RefJson] is an executable instance that satisfies it. *)

From S2P Require Import Prelude CString.
Local Open Scope char_scope.
Local Open Scope bool_scope.

(** A node: its type with [valuestring], or the number truncated towards zero;
    the children of an object carry their key ([string]). *)
Inductive cJSON :=
| JNull
| JBool (b : bool)
| JNumber (truncated : Z)
| JString (valuestring : cstr)
| JArray (items : list cJSON)
| JObject (members : list (cstr * cJSON)).

(** [cJSON_PrintUnformatted] answers NULL when memory runs out. *)
Class CJson := {
  cJSON_Parse : cstr -> option cJSON;
  cJSON_GetObjectItem : cJSON -> cstr -> option cJSON;
  cJSON_GetObjectItemCaseSensitive : cJSON -> cstr -> option cJSON;
  cJSON_PrintUnformatted : cJSON -> option cstr;
  cJSON_AddItemToObject : cJSON -> cstr -> cJSON -> cJSON;
  cJSON_DeleteItemFromObject : cJSON -> cstr -> cJSON
}.

(** The field valueint: saturated to the range of int. *)
Definition valueint (n : Z) : Z := Z.max (- 2 ^ 31) (Z.min (2 ^ 31 - 1) n).

(** The type tests accept the NULL pointer. *)
Definition cJSON_IsString (item : option cJSON) : option cstr :=
  match item with Some (JString s) => Some s | _ => None end.
Definition cJSON_IsNumber (item : option cJSON) : option Z :=
  match item with Some (JNumber n) => Some n | _ => None end.
Definition cJSON_IsBool (item : option cJSON) : option bool :=
  match item with Some (JBool b) => Some b | _ => None end.
Definition cJSON_IsArray (item : option cJSON) : option (list cJSON) :=
  match item with Some (JArray l) => Some l | _ => None end.
Definition cJSON_IsObject (item : option cJSON) : option (list (cstr * cJSON)) :=
  match item with Some (JObject l) => Some l | _ => None end.

Definition cJSON_IsTrue (item : option cJSON) : bool :=
  match item with Some (JBool b) => b | _ => false end.

(** [cJSON_GetStringValue], and the children visited by [cJSON_ArrayForEach]
    with their [string] field. *)
Definition cJSON_GetStringValue (item : option cJSON) : option cstr := cJSON_IsString item.
Definition children (j : cJSON) : list (option cstr * cJSON) :=
  match j with
  | JArray l => (fun v => (None, v)) <$> l
  | JObject l => (fun m => (Some m.1, m.2)) <$> l
  | _ => []
  end.
Definition cJSON_GetArraySize (j : cJSON) : Z := Z.of_nat (length (children j)).

(** ** Documented behaviour *)

Definition NUL : ascii := "000".
Definition JQ : ascii := "034".

(** The first member with the key, ASCII case ignored. *)
Fixpoint find_member (l : list (cstr * cJSON)) (k : cstr) : option cJSON :=
  match l with
  | [] => None
  | (k', v) :: l' => if strcaseeq k' k then Some v else find_member l' k
  end.

(** The same with the case respected. *)
Fixpoint find_member_cs (l : list (cstr * cJSON)) (k : cstr) : option cJSON :=
  match l with
  | [] => None
  | (k', v) :: l' => if streq k' k then Some v else find_member_cs l' k
  end.

(** Without the first member with the key, ASCII case ignored. *)
Fixpoint remove_member (l : list (cstr * cJSON)) (k : cstr) : list (cstr * cJSON) :=
  match l with
  | [] => []
  | (k', v) :: l' => if strcaseeq k' k then l' else (k', v) :: remove_member l' k
  end.

(** A string or an unsigned 32-bit number. *)
Definition flat (j : cJSON) : Prop :=
  match j with
  | JString _ => True
  | JNumber n => (0 <= n < 2 ^ 32)%Z
  | _ => False
  end.

(** [CJSON_NESTING_LIMIT] of the library, and the documents nested at most [n]
    deep whose numbers a double represents exactly. *)
Definition CJSON_NESTING_LIMIT : nat := 1000.

Fixpoint json_ok (n : nat) (j : cJSON) : Prop :=
  match j with
  | JNumber z => (- 2 ^ 53 < z < 2 ^ 53)%Z
  | JArray l => match n with O => False | S n' => Forall (json_ok n') l end
  | JObject l => match n with O => False | S n' => Forall (fun m => json_ok n' m.2) l end
  | _ => True
  end.

(** The inside of a printed string: no bare quote, every backslash escapes the
    next character. *)
Fixpoint closed_body (s : cstr) : Prop :=
  match s with
  | [] => True
  | c :: t =>
      if Ascii.eqb c JQ then False
      else if Ascii.eqb c "\" then match t with [] => False | _ :: t' => closed_body t' end
      else closed_body t
  end.

Class CJsonSpec (J : CJson) : Prop := {
  get_member l k : cJSON_GetObjectItem (JObject l) k = find_member l k;
  get_member_cs l k : cJSON_GetObjectItemCaseSensitive (JObject l) k = find_member_cs l k;
  add_member l k v : cJSON_AddItemToObject (JObject l) k v = JObject (l ++ [(k, v)]);
  delete_member l k : cJSON_DeleteItemFromObject (JObject l) k = JObject (remove_member l k);
  print_document j t :
    json_ok CJSON_NESTING_LIMIT j -> cJSON_PrintUnformatted j = Some t ->
    cJSON_Parse t = Some j /\ NUL ∉ t;
  print_string s t :
    cJSON_PrintUnformatted (JString s) = Some t ->
    exists body, t = JQ :: body ++ [JQ] /\ closed_body body
}.

(** ** A concrete instance *)

Definition hex_digit (n : N) : ascii :=
  ascii_of_N (if (n <? 10)%N then 48 + n else 87 + n).

Definition hex_value (c : ascii) : N :=
  let n := N_of_ascii c in if (n <? 58)%N then (n - 48)%N else (n - 87)%N.

Definition escape (c : ascii) : cstr :=
  if Ascii.eqb c JQ || Ascii.eqb c "\" then ["\"; c]
  else if (N_of_ascii c <? 32)%N
  then ["\"; "u"; "0"; "0"; hex_digit (N_of_ascii c / 16); hex_digit (N_of_ascii c mod 16)]
  else [c].

Definition ref_string (s : cstr) : cstr := JQ :: flat_map escape s ++ [JQ].

(** The characters up to the closing quote and what follows it. *)
Fixpoint scan_string (s : cstr) : option (cstr * cstr) :=
  match s with
  | [] => None
  | c :: t =>
      if Ascii.eqb c JQ then Some ([], t)
      else if Ascii.eqb c "\" then
        match t with
        | [] => None
        | e :: t' =>
            if Ascii.eqb e "u" then
              match t' with
              | _ :: _ :: h :: l :: t'' =>
                  match scan_string t'' with
                  | Some (a, r) => Some (ascii_of_N (16 * hex_value h + hex_value l) :: a, r)
                  | None => None
                  end
              | _ => None
              end
            else match scan_string t' with Some (a, r) => Some (e :: a, r) | None => None end
        end
      else match scan_string t with Some (a, r) => Some (c :: a, r) | None => None end
  end.

(** Decimal digits, least significant last. *)
Fixpoint digits (fuel : nat) (n : N) (acc : cstr) : cstr :=
  match fuel with
  | O => acc
  | S fuel' =>
      let acc := ascii_of_N (48 + n mod 10) :: acc in
      if (n <? 10)%N then acc else digits fuel' (n / 10) acc
  end.

(** The conversion %d of an int (at most ten digits). *)
Definition int_text (n : Z) : cstr :=
  if (n <? 0)%Z then "-" :: digits 10 (Z.to_N (- n)) [] else digits 10 (Z.to_N n) [].

Definition is_digit (c : ascii) : bool := (48 <=? N_of_ascii c)%N && (N_of_ascii c <? 58)%N.

Fixpoint scan_number (acc : N) (s : cstr) : N * cstr :=
  match s with
  | c :: t => if is_digit c then scan_number (10 * acc + (N_of_ascii c - 48)) t else (acc, s)
  | [] => (acc, [])
  end.

Definition ref_number (z : Z) : cstr :=
  if (z <? 0)%Z then "-" :: digits 16 (Z.to_N (- z)) [] else digits 16 (Z.to_N z) [].

Fixpoint commas (l : list cstr) : cstr :=
  match l with
  | [] => []
  | x :: l' => x ++ match l' with [] => [] | _ => "," :: commas l' end
  end.

(** Printing a document nested at most [n] deep. *)
Fixpoint ref_value (n : nat) (j : cJSON) : option cstr :=
  match j with
  | JNull => Some (cs "null")
  | JBool true => Some (cs "true")
  | JBool false => Some (cs "false")
  | JNumber z => Some (ref_number z)
  | JString s => Some (ref_string s)
  | JArray l =>
      match n with
      | O => None
      | S n' => items ← mapM (ref_value n') l; Some ("[" :: commas items ++ ["]"])
      end
  | JObject l =>
      match n with
      | O => None
      | S n' =>
          items ← mapM (fun m => v ← ref_value n' m.2; Some (ref_string m.1 ++ ":" :: v)) l;
          Some ("{" :: commas items ++ ["}"])
      end
  end.

Definition ref_print (j : cJSON) : cstr := default [] (ref_value CJSON_NESTING_LIMIT j).

Definition scan_literal (s : cstr) : option (cJSON * cstr) :=
  if has_prefix (cs "null") s then Some (JNull, drop 4 s)
  else if has_prefix (cs "true") s then Some (JBool true, drop 4 s)
  else if has_prefix (cs "false") s then Some (JBool false, drop 5 s)
  else None.

(** One unit of fuel per nested call. *)
Fixpoint scan_value (fuel : nat) (s : cstr) : option (cJSON * cstr) :=
  match fuel, s with
  | S fuel', c :: t =>
      if Ascii.eqb c JQ then
        match scan_string t with Some (a, r) => Some (JString a, r) | None => None end
      else if is_digit c then let '(n, r) := scan_number 0 s in Some (JNumber (Z.of_N n), r)
      else if Ascii.eqb c "-" then
        let '(n, r) := scan_number 0 t in Some (JNumber (- Z.of_N n), r)
      else if Ascii.eqb c "[" then
        if has_prefix ["]"] t then Some (JArray [], drop 1 t)
        else match scan_items fuel' t with Some (l, r) => Some (JArray l, r) | None => None end
      else if Ascii.eqb c "{" then
        if has_prefix ["}"] t then Some (JObject [], drop 1 t)
        else match scan_members fuel' t with Some (l, r) => Some (JObject l, r) | None => None end
      else scan_literal s
  | _, _ => None
  end
with scan_items (fuel : nat) (s : cstr) : option (list cJSON * cstr) :=
  match fuel with
  | S fuel' =>
      match scan_value fuel' s with
      | Some (v, sep :: r) =>
          if Ascii.eqb sep "]" then Some ([v], r)
          else if Ascii.eqb sep "," then
            match scan_items fuel' r with Some (l, r') => Some (v :: l, r') | None => None end
          else None
      | _ => None
      end
  | O => None
  end
with scan_members (fuel : nat) (s : cstr) : option (list (cstr * cJSON) * cstr) :=
  match fuel, s with
  | S fuel', c :: t =>
      if Ascii.eqb c JQ then
        match scan_string t with
        | Some (k, colon :: t') =>
            if Ascii.eqb colon ":" then
              match scan_value fuel' t' with
              | Some (v, sep :: r) =>
                  if Ascii.eqb sep "}" then Some ([(k, v)], r)
                  else if Ascii.eqb sep "," then
                    match scan_members fuel' r with
                    | Some (l, r') => Some ((k, v) :: l, r')
                    | None => None
                    end
                  else None
              | _ => None
              end
            else None
        | _ => None
        end
      else None
  | _, _ => None
  end.

Definition ref_parse (s : cstr) : option cJSON :=
  match scan_value (2 * length s) s with Some (j, []) => Some j | _ => None end.

(** The library with a given nesting limit. *)
Definition RefJsonN (n : nat) : CJson := {|
  cJSON_Parse := ref_parse;
  cJSON_GetObjectItem j k := match j with JObject l => find_member l k | _ => None end;
  cJSON_GetObjectItemCaseSensitive j k := match j with JObject l => find_member_cs l k | _ => None end;
  cJSON_PrintUnformatted := ref_value n;
  cJSON_AddItemToObject j k v := match j with JObject l => JObject (l ++ [(k, v)]) | _ => j end;
  cJSON_DeleteItemFromObject j k := match j with JObject l => JObject (remove_member l k) | _ => j end
|}.

#[export] Instance RefJson : CJson := RefJsonN CJSON_NESTING_LIMIT.

(** {"key":"value"} *)
Definition obj1 (k v : string) : cstr := ref_print (JObject [(cs k, JString (cs v))]).

(** ** The instance satisfies the laws *)

Lemma scan_escape c r :
  scan_string (escape c ++ r) =
  match scan_string r with Some (a, r') => Some (c :: a, r') | None => None end.
Proof. ascii_cases c; reflexivity. Qed.

Lemma scan_ref_string s r : scan_string (flat_map escape s ++ JQ :: r) = Some (s, r).
Proof.
  induction s as [|c s IH]; [reflexivity|]. cbn [flat_map]. rewrite <- app_assoc.
  by rewrite scan_escape, IH.
Qed.

Lemma escape_closed c s : closed_body s -> closed_body (escape c ++ s).
Proof. ascii_cases c; exact (fun H => H). Qed.

Lemma escapes_closed s : closed_body (flat_map escape s).
Proof. induction s as [|c s IH]; [done|]. cbn [flat_map]. by apply escape_closed. Qed.

Lemma escape_nul c : NUL ∉ escape c.
Proof. apply (bool_decide_eq_true_1 (NUL ∉ escape c)). ascii_cases c; reflexivity. Qed.

Lemma string_nul s : NUL ∉ ref_string s.
Proof.
  unfold ref_string. rewrite elem_of_cons, elem_of_app. intros [?|[H|H]]; [done| |set_solver].
  induction s as [|c s IH]; cbn [flat_map] in H; [set_solver|].
  apply elem_of_app in H as [H|H]; [by apply escape_nul in H|auto].
Qed.

Lemma digit_char n : (n < 10)%N ->
  N_of_ascii (ascii_of_N (48 + n)) = (48 + n)%N /\ is_digit (ascii_of_N (48 + n)) = true.
Proof.
  intros H. assert (N_of_ascii (ascii_of_N (48 + n)) = (48 + n)%N) as E
    by (apply N_ascii_embedding; lia).
  split; [done|]. unfold is_digit. rewrite E. apply andb_true_iff. split; [apply N.leb_le|apply N.ltb_lt]; lia.
Qed.

(** The digits of [n] before a text that does not start with a digit. *)
Definition digit_free (r : cstr) : Prop :=
  match r with c :: _ => is_digit c = false | [] => True end.

Lemma scan_number_stop a r : digit_free r -> scan_number a r = (a, r).
Proof. destruct r as [|c r]; [done|]. simpl. by intros ->. Qed.

(** Reading the digits written for [n] in front of [acc]: the value so far,
    [a], is shifted by their number. *)
Lemma scan_digits fuel n acc :
  (n < 10 ^ N.of_nat (S fuel))%N ->
  exists k, (k <= fuel)%nat /\
    (forall a r, scan_number a (digits (S fuel) n acc ++ r) =
                 scan_number (a * 10 ^ N.of_nat (S k) + n) (acc ++ r)) /\
    (exists c d, digits (S fuel) n acc = c :: d /\ is_digit c = true) .
Proof.
  revert n acc. induction fuel as [|fuel IH]; intros n acc Hn.
  - exists O. change (N.of_nat 1) with 1%N in *. split; [done|].
    cbn [digits]. assert (n < 10)%N as Hlt by lia.
    rewrite (proj2 (N.ltb_lt n 10) Hlt), (N.mod_small n 10) by lia.
    destruct (digit_char n Hlt) as [E1 E2]. split; [|eauto].
    intros a r. cbn [app scan_number]. rewrite E1, E2. f_equal. lia.
  - cbn [digits]. destruct (digit_char (n mod 10)) as [E1 E2]; [by apply N.mod_lt|].
    destruct (N.ltb_spec n 10) as [Hlt|Hge].
    + exists O. split; [lia|]. rewrite (N.mod_small n 10) in * by lia. split; [|eauto].
      intros a r. cbn [app scan_number]. rewrite E1, E2. f_equal. lia.
    + destruct (IH (n / 10)%N (ascii_of_N (48 + n mod 10) :: acc)) as (k & Hk & Hs & Hc).
      { apply N.Div0.div_lt_upper_bound. by rewrite Nat2N.inj_succ, N.pow_succ_r' in Hn. }
      exists (S k). split; [lia|]. split; [|exact Hc]. intros a r.
      rewrite Hs. cbn [app scan_number]. rewrite E1, E2. f_equal.
      rewrite (Nat2N.inj_succ (S k)), N.pow_succ_r'. pose proof (N.Div0.div_mod n 10) as Hdm.
      rewrite (N.add_comm 48 (n mod 10)), N.add_sub.
      rewrite Hdm at 3. generalize (10 ^ N.of_nat (S k))%N. intros p. ring.
Qed.

Lemma digit_not c d : is_digit c = true -> is_digit d = false -> Ascii.eqb c d = false.
Proof. intros H1 H2. apply Ascii.eqb_neq. intros ->. congruence. Qed.

Lemma scan_digits_number n r :
  (n < 10 ^ 16)%N -> digit_free r ->
  scan_number 0 (digits 16 n [] ++ r) = (n, r) /\
  exists c d, digits 16 n [] = c :: d /\ is_digit c = true.
Proof.
  intros Hn Hr. destruct (scan_digits 15 n []) as (k & _ & Hs & Hc).
  { change (N.of_nat 16) with 16%N. done. }
  split; [|done]. rewrite Hs. cbn [app]. by rewrite scan_number_stop.
Qed.

Lemma scan_ref_number z r fuel :
  (- 2 ^ 53 < z < 2 ^ 53)%Z -> digit_free r ->
  scan_value (S fuel) (ref_number z ++ r) = Some (JNumber z, r).
Proof.
  intros Hz Hr. assert (2 ^ 53 < 10 ^ 16)%Z as Hb by reflexivity. unfold ref_number.
  destruct (Z.ltb_spec z 0) as [Hneg|Hpos].
  - destruct (scan_digits_number (Z.to_N (- z)) r) as [E _]; [lia|done|].
    cbn [app scan_value]. change (Ascii.eqb "-" JQ) with false. change (is_digit "-") with false.
    cbv iota. rewrite (Ascii.eqb_refl "-"), E, Z2N.id by lia. by rewrite Z.opp_involutive.
  - destruct (scan_digits_number (Z.to_N z) r) as (E & c & d & Hd & Hc); [lia|done|].
    rewrite Hd in *. cbn [app] in *. cbn [scan_value].
    rewrite (digit_not c JQ), Hc, E, Z2N.id by (done || lia). done.
Qed.

Lemma ref_value_head n j t :
  ref_value n j = Some t -> json_ok n j -> exists c t', t = c :: t' /\ Ascii.eqb "]" c = false.
Proof.
  intros H Hok.
  assert (forall z, (- 2 ^ 53 < z < 2 ^ 53)%Z ->
    exists c t', ref_number z = c :: t' /\ Ascii.eqb "]" c = false) as Hnum.
  { intros z Hz. unfold ref_number. case_match; [eexists _, _; split; [reflexivity|done]|].
    destruct (scan_digits_number (Z.to_N z) []) as (_ & c & d & Hd & Hc); [|done|].
    { assert (2 ^ 53 < 10 ^ 16)%Z as Hb by reflexivity. lia. }
    rewrite Hd. eexists _, _. split; [done|]. apply Ascii.eqb_neq. intros <-. discriminate. }
  destruct n as [|n]; destruct j as [|[]|z|s|l|l]; cbn [ref_value] in H; try done;
    try (by simplify_eq; apply Hnum); simplify_option_eq; eexists _, _; split; (reflexivity || done).
Qed.

(** What is proved of a printed value by induction on its depth. *)
Definition reads_back (n : nat) : Prop := forall j t r fuel,
  json_ok n j -> ref_value n j = Some t -> digit_free r -> (2 * length (t ++ r) <= fuel)%nat ->
  scan_value fuel (t ++ r) = Some (j, r).

Lemma scan_ref_items n l ts r fuel :
  reads_back n -> Forall (json_ok n) l -> Forall2 (fun v t => ref_value n v = Some t) l ts -> l <> [] ->
  (2 * length (commas ts ++ "]" :: r) < fuel)%nat ->
  scan_items fuel (commas ts ++ "]" :: r) = Some (l, r).
Proof.
  intros Hn Hok Hl. revert fuel Hok. induction Hl as [|v t l ts Et Hl IH]; intros [|fuel] Hok Hne Hf; try done; try lia.
  inversion_clear Hok as [|?? Hv Hok']. cbn [commas scan_items] in *. rewrite <- app_assoc in *.
  rewrite (Hn v t _ fuel Hv Et); [|destruct ts; done|lia].
  destruct Hl as [|v' t' l ts Et' Hl]; [done|].
  cbn [app]. cbv iota. change (Ascii.eqb "," "]") with false. change (Ascii.eqb "," ",") with true. cbv iota.
  rewrite IH; [done..|]. rewrite length_app in Hf. cbn [app length] in *. lia.
Qed.

(** A member as it is printed. *)
Definition member_text (n : nat) (m : cstr * cJSON) (t : cstr) : Prop :=
  exists tv, ref_value n m.2 = Some tv /\ t = ref_string m.1 ++ ":" :: tv.

Lemma member_texts n l ts :
  mapM (fun m => v ← ref_value n m.2; Some (ref_string m.1 ++ ":" :: v)) l = Some ts ->
  Forall2 (member_text n) l ts.
Proof.
  intros H. apply mapM_Some in H. eapply Forall2_impl; [exact H|]. intros [k v] t Ht. unfold member_text.
  cbn [fst snd] in *. destruct (ref_value n v) as [tv|]; [|done]. exists tv. split; [done|]. by injection Ht.
Qed.

Lemma scan_ref_members n l ts r fuel :
  reads_back n -> Forall (fun m : cstr * cJSON => json_ok n m.2) l ->
  Forall2 (member_text n) l ts -> l <> [] ->
  (2 * length (commas ts ++ "}" :: r) < fuel)%nat ->
  scan_members fuel (commas ts ++ "}" :: r) = Some (l, r).
Proof.
  intros Hn Hok Hl. revert fuel Hok.
  induction Hl as [|[k v] t l ts Et Hl IH]; intros [|fuel] Hok Hne Hf; try done; try lia.
  inversion_clear Hok as [|?? Hv Hok']. destruct Et as (tv & Et & ->). cbn [fst snd] in *.
  unfold ref_string in *. cbn [commas] in *. rewrite <- !app_assoc in *.
  cbn [app length scan_members] in *. rewrite (Ascii.eqb_refl JQ), <- !app_assoc in *. cbn [app] in *.
  rewrite length_app in Hf. cbn [length] in Hf.
  rewrite scan_ref_string, (Ascii.eqb_refl ":").
  rewrite (Hn v tv _ fuel Hv Et); [|destruct ts; done|lia].
  destruct Hl as [|m t' l ts Et' Hl]; cbn [app]; cbv iota; [done|].
  change (Ascii.eqb "," "}") with false. change (Ascii.eqb "," ",") with true. cbv iota.
  rewrite IH; [done..|]. rewrite length_app in Hf. cbn [app length] in *. lia.
Qed.

Lemma no_bracket n l ts r :
  Forall (json_ok n) l -> Forall2 (fun v t => ref_value n v = Some t) l ts -> l <> [] ->
  has_prefix ["]"] (commas ts ++ r) = false.
Proof.
  intros Hok Hl Hne. destruct Hl as [|v t l ts Et _]; [done|]. inversion_clear Hok.
  destruct (ref_value_head _ _ _ Et) as (c & t' & -> & Hc); [done|]. cbn [commas app has_prefix]. by rewrite Hc.
Qed.

Lemma no_brace n l ts r :
  Forall2 (member_text n) l ts -> l <> [] -> has_prefix ["}"] (commas ts ++ r) = false.
Proof. intros Hl Hne. destruct Hl as [|m t l ts (tv & _ & ->) _]; done. Qed.

Lemma ref_reads_back n : reads_back n.
Proof.
  induction n as [|n IH]; intros j t r [|fuel] Hok Ht Hr Hf;
    try (destruct (ref_value_head _ _ _ Ht Hok) as (c & t' & -> & _); cbn in Hf; lia);
    destruct j as [|[]|z|s|l|l]; try done; cbn [ref_value] in Ht; try (injection Ht as <-);
    try reflexivity; try (by apply scan_ref_number);
    try (unfold ref_string; cbn [app scan_value]; rewrite <- app_assoc; cbn [app];
         rewrite (Ascii.eqb_refl JQ), scan_ref_string; reflexivity).
  - destruct (mapM _ l) as [ts|] eqn:Em; [|done]. injection Ht as <-. apply mapM_Some in Em.
    cbn [app scan_value length] in *. rewrite <- app_assoc in *.
    change (Ascii.eqb "[" JQ) with false. change (is_digit "[") with false.
    change (Ascii.eqb "[" "-") with false. change (Ascii.eqb "[" "[") with true. cbv iota.
    destruct l as [|v l]; [by inversion Em|].
    rewrite (no_bracket n (v :: l) ts) by done.
    cbn [app] in *. by rewrite (scan_ref_items n (v :: l) ts) by (done || lia).
  - destruct (mapM _ l) as [ts|] eqn:Em; [|done]. injection Ht as <-. apply member_texts in Em.
    cbn [app scan_value length] in *. rewrite <- app_assoc in *.
    change (Ascii.eqb "{" JQ) with false. change (is_digit "{") with false.
    change (Ascii.eqb "{" "-") with false. change (Ascii.eqb "{" "[") with false.
    change (Ascii.eqb "{" "{") with true. cbv iota.
    destruct l as [|m l]; [by inversion Em|].
    rewrite (no_brace n (m :: l) ts) by done.
    cbn [app] in *. by rewrite (scan_ref_members n (m :: l) ts) by (done || lia).
Qed.

Lemma digits_nul fuel n acc : NUL ∉ acc -> NUL ∉ digits fuel n acc.
Proof.
  revert n acc. induction fuel as [|fuel IH]; intros n acc H; simpl; [done|].
  destruct (digit_char (n mod 10)) as [E _]; [by apply N.mod_lt|].
  assert (NUL ∉ ascii_of_N (48 + n mod 10) :: acc) as H'.
  { rewrite elem_of_cons. intros [Hz|?]; [|done]. rewrite <- Hz in E. symmetry in E. by apply N.eq_add_0 in E as [? _]. }
  case_match; auto.
Qed.

Lemma commas_nul ts : Forall (fun t => NUL ∉ t) ts -> NUL ∉ commas ts.
Proof.
  induction 1 as [|t ts Ht _ IH]; cbn [commas]; [set_solver|].
  rewrite elem_of_app. destruct ts; [set_solver|]. rewrite elem_of_cons. naive_solver.
Qed.

Lemma number_nul z : NUL ∉ ref_number z.
Proof.
  assert (forall n, NUL ∉ digits 16 n []) as H by (intros n; apply digits_nul, not_elem_of_nil).
  unfold ref_number. case_match; [|apply H]. rewrite elem_of_cons. intros [?|Hn]; [done|]. by apply H in Hn.
Qed.

Lemma value_nul n j t : ref_value n j = Some t -> NUL ∉ t.
Proof.
  revert j t. induction n as [|n IH]; intros j t H; destruct j as [|[]|z|s|l|l];
    cbn [ref_value] in H; try done; try (injection H as <-);
    try apply string_nul; try apply number_nul;
    try (by apply (bool_decide_eq_true_1 (NUL ∉ _)); reflexivity).
  - destruct (mapM _ l) as [ts|] eqn:Em; [|done]. injection H as <-. apply mapM_Some in Em.
    rewrite elem_of_cons, elem_of_app, list_elem_of_singleton. intros [?|[Hn|?]]; [done| |done].
    revert Hn. apply commas_nul. induction Em; constructor; eauto.
  - destruct (mapM _ l) as [ts|] eqn:Em; [|done]. injection H as <-. apply member_texts in Em.
    rewrite elem_of_cons, elem_of_app, list_elem_of_singleton. intros [?|[Hn|?]]; [done| |done].
    revert Hn. apply commas_nul. induction Em as [|[k v] y l ts (tv & Et & ->) _ IHl]; constructor; [|done].
    rewrite elem_of_app, elem_of_cons. pose proof (string_nul k). apply IH in Et. naive_solver.
Qed.

Lemma ref_parse_print n j t : json_ok n j -> ref_value n j = Some t -> ref_parse t = Some j.
Proof.
  intros Hok Ht. unfold ref_parse.
  assert (scan_value (2 * length t) (t ++ []) = Some (j, [])) as E.
  { apply (ref_reads_back n j t [] _ Hok Ht I). by rewrite app_nil_r. }
  rewrite app_nil_r in E. by rewrite E.
Qed.

Lemma ref_value_string n s t : ref_value n (JString s) = Some t -> t = ref_string s.
Proof. destruct n; cbn [ref_value]; congruence. Qed.

Lemma RefJsonN_document n j t :
  json_ok n j -> @cJSON_PrintUnformatted (RefJsonN n) j = Some t ->
  @cJSON_Parse (RefJsonN n) t = Some j /\ NUL ∉ t.
Proof. intros Hok Ht. split; [by eapply (ref_parse_print n)|by apply (value_nul n j)]. Qed.

Lemma RefJsonN_string n s t :
  @cJSON_PrintUnformatted (RefJsonN n) (JString s) = Some t ->
  exists body, t = JQ :: body ++ [JQ] /\ closed_body body.
Proof.
  intros Ht. exists (flat_map escape s). split; [|apply escapes_closed]. by apply (ref_value_string n).
Qed.

#[export] Instance RefJsonSpec : CJsonSpec RefJson.
Proof.
  split; [done..| |].
  - exact (RefJsonN_document CJSON_NESTING_LIMIT).
  - exact (RefJsonN_string CJSON_NESTING_LIMIT).
Qed.

(** ** Facts about documents *)

Lemma flat_ok n j : flat j -> json_ok n j.
Proof. destruct n, j; simpl; try done; lia. Qed.

Lemma object_ok n l :
  (0 < n)%nat -> Forall (fun m : cstr * cJSON => json_ok (pred n) m.2) l -> json_ok n (JObject l).
Proof. by destruct n; [lia|]. Qed.

Lemma print_flat_object {J : CJson} {JS : CJsonSpec J} l t :
  Forall (fun m => flat m.2) l -> cJSON_PrintUnformatted (JObject l) = Some t ->
  cJSON_Parse t = Some (JObject l) /\ NUL ∉ t.
Proof.
  intros Hl. apply print_document, object_ok; [apply Nat.lt_0_succ|].
  eapply Forall_impl; [exact Hl|]. intros m. apply flat_ok.
Qed.

(** Every document within the nesting limit is printed by the instance. *)
Lemma ref_value_total n j : json_ok n j -> is_Some (ref_value n j).
Proof.
  revert j. induction n as [|n IH]; intros j; destruct j as [|[]|z|s|l|l]; cbn [json_ok ref_value]; try done.
  - intros H. assert (is_Some (mapM (ref_value n) l)) as [ts ->]; [|done].
    apply mapM_is_Some. eapply Forall_impl; [exact H|]. auto.
  - intros H. assert (is_Some (mapM (fun m => v ← ref_value n m.2; Some (ref_string m.1 ++ ":" :: v)) l)) as [ts ->]; [|done].
    apply mapM_is_Some. eapply Forall_impl; [exact H|]. intros [k v] Hv.
    change (is_Some (t ← ref_value n v; Some (ref_string k ++ ":" :: t))). by destruct (IH v Hv) as [t ->].
Qed.

Lemma ref_print_total j : json_ok CJSON_NESTING_LIMIT j -> is_Some (@cJSON_PrintUnformatted RefJson j).
Proof. exact (ref_value_total CJSON_NESTING_LIMIT j). Qed.
