(* ===== verification/Regex.v ===== *)
(** * The regular-expression library as an interface

    regcomp and regexec are not part of the repository: they are the fields of
    the class [Regex]. [RegexSpec] states their documented behaviour on the
    fragment of extended regular expressions that the policy layer generates
    itself (escaped literals, ".*", "(/|$)", anchors). [RefRegex] is a small
    executable instance that satisfies it. *)

From S2P Require Import Prelude CString.
Local Open Scope bool_scope.
Local Open Scope char_scope.

Class Regex := {
  regex_t : Type;
  regcomp : cstr -> option regex_t;
  regexec : regex_t -> cstr -> bool
}.

(** ** The fragment *)

Inductive ere_item :=
| Lit (c : ascii)
| AnySeq
| SlashOrEnd.

(** The characters that [regex_escape] escapes. *)
Definition ere_meta : cstr := cs "\^$.|?*+()[]{}".

Definition is_meta (c : ascii) : bool := existsb (Ascii.eqb c) ere_meta.

Definition render_item (i : ere_item) : cstr :=
  match i with
  | Lit c => if is_meta c then ["\"; c] else [c]
  | AnySeq => cs ".*"
  | SlashOrEnd => cs "(/|$)"
  end.

Definition render_items (its : list ere_item) : cstr := concat (map render_item its).

(** An expression anchored at its start, and at its end if [dollar]. *)
Definition render_ere (its : list ere_item) (dollar : bool) : cstr :=
  "^" :: render_items its ++ (if dollar then ["$"] else []).

(** The text matches the items from its start on. *)
Fixpoint ere_match (its : list ere_item) (dollar : bool) (s : cstr) : bool :=
  match its with
  | [] => if dollar then (match s with [] => true | _ => false end) else true
  | Lit c :: its' => match s with [] => false | x :: s' => Ascii.eqb x c && ere_match its' dollar s' end
  | AnySeq :: its' =>
      (fix any (t : cstr) : bool :=
         ere_match its' dollar t || match t with [] => false | _ :: t' => any t' end) s
  | SlashOrEnd :: its' =>
      match s with
      | [] => ere_match its' dollar []
      | x :: s' => Ascii.eqb x "/" && ere_match its' dollar s'
      end
  end.

Class RegexSpec (R : Regex) : Prop := {
  regex_fragment its dollar :
    exists r, regcomp (render_ere its dollar) = Some r /\
              forall s, regexec r s = ere_match its dollar s
}.

(** ** Facts about matching *)

Lemma ere_match_lits l its dollar s :
  ere_match (map Lit l ++ its) dollar s = true <->
  exists t, s = l ++ t /\ ere_match its dollar t = true.
Proof.
  revert s; induction l as [|c l IH]; intros s; simpl; [naive_solver|].
  destruct s as [|x s]; [split; [done|by intros (? & ? & ?)]|].
  rewrite andb_true_iff, IH, ascii_eqb_true. naive_solver.
Qed.

Lemma ere_match_any its dollar s :
  ere_match (AnySeq :: its) dollar s = true <->
  exists a t, s = a ++ t /\ ere_match its dollar t = true.
Proof.
  simpl. induction s as [|x s IH]; rewrite orb_true_iff.
  - split; [intros [H|H]; [by exists [], []|done]|].
    intros (a & t & Hs & Ht). symmetry in Hs. apply app_eq_nil in Hs as [-> ->]. by left.
  - rewrite IH. split.
    + intros [H|(a & t & -> & H)]; [by exists [], (x :: s)|by exists (x :: a), t].
    + intros ([|y a] & t & Hs & Ht); simplify_eq/=; [by left|right; eauto].
Qed.

Lemma ere_match_end s : ere_match [] true s = true <-> s = [].
Proof. by destruct s. Qed.

Lemma ere_match_slash_or_end s :
  ere_match [SlashOrEnd] false s = true <-> s = [] \/ exists t, s = "/" :: t.
Proof.
  destruct s as [|x s]; simpl; [naive_solver|].
  rewrite andb_true_r, ascii_eqb_true. naive_solver.
Qed.

(** ** Reading an expression of the fragment *)

(** The items of an expression body, and whether it ends in the end anchor;
    [None] outside the fragment. *)
Fixpoint ere_items (p : cstr) : option (list ere_item * bool) :=
  let cons_item i o := match o with Some (its, d) => Some (i :: its, d) | None => None end in
  match p with
  | [] => Some ([], false)
  | c :: p' =>
      if Ascii.eqb c "\" then
        match p' with [] => None | d :: q => cons_item (Lit d) (ere_items q) end
      else if Ascii.eqb c "$" then match p' with [] => Some ([], true) | _ => None end
      else if Ascii.eqb c "." then
        match p' with
        | d :: q => if Ascii.eqb d "*" then cons_item AnySeq (ere_items q) else None
        | [] => None
        end
      else if Ascii.eqb c "(" then
        match p' with
        | a :: b :: e :: f :: q =>
            if Ascii.eqb a "/" && Ascii.eqb b "|" && Ascii.eqb e "$" && Ascii.eqb f ")"
            then cons_item SlashOrEnd (ere_items q) else None
        | _ => None
        end
      else if is_meta c then None
      else cons_item (Lit c) (ere_items p')
  end.

Lemma ere_items_lit c p :
  ere_items (render_item (Lit c) ++ p) =
  match ere_items p with Some (its, d) => Some (Lit c :: its, d) | None => None end.
Proof.
  simpl. destruct (is_meta c) eqn:Hm; [done|]. simpl.
  assert (Ascii.eqb c "\" = false /\ Ascii.eqb c "$" = false /\
          Ascii.eqb c "." = false /\ Ascii.eqb c "(" = false) as (-> & -> & -> & ->).
  { revert Hm. unfold is_meta, ere_meta. simpl. rewrite !orb_false_iff. naive_solver. }
  by rewrite Hm.
Qed.

Lemma ere_items_render its (dollar : bool) :
  ere_items (render_items its ++ (if dollar then ["$"] else [] : cstr)) = Some (its, dollar).
Proof.
  induction its as [|i its IH]; [by destruct dollar|].
  unfold render_items. cbn [map concat]. rewrite <- app_assoc.
  destruct i as [c| |].
  - rewrite ere_items_lit. fold (render_items its). by rewrite IH.
  - simpl. fold (render_items its). by rewrite IH.
  - simpl. fold (render_items its). by rewrite IH.
Qed.

(** ** An executable instance *)

Definition ref_regcomp (p : cstr) : option (list ere_item * bool) :=
  match p with
  | [] => None
  | c :: p' => if Ascii.eqb c "^" then ere_items p' else None
  end.

#[export] Instance RefRegex : Regex := {
  regex_t := list ere_item * bool;
  regcomp := ref_regcomp;
  regexec r s := ere_match r.1 r.2 s
}.

#[export] Instance RefRegexSpec : RegexSpec RefRegex.
Proof.
  split. intros its dollar. exists (its, dollar). split; [|done].
  simpl. apply ere_items_render.
Qed.
