(* ===== verification/Darray.v ===== *)
(** * Dynamic arrays (lib/util/darray.h)

    The functions the DARRAY macros generate, on the list of the first
    [count] elements and the allocated capacity. [ok] is the answer of the
    allocator; the result code is the one of the code (0 or -1). *)

From S2P Require Import Prelude CString.
Local Open Scope Z_scope.

Definition DARRAY_DEFAULT_CAPACITY : Z := 8.
Definition DARRAY_GROWTH_FACTOR : Z := 2.

(** [size_t] arithmetic *)
Definition wrap64 (z : Z) : Z := z mod 2 ^ 64.

Record darray (A : Type) := mkDarray { data : list A; da_capacity : Z }.
Arguments mkDarray {A} data da_capacity.
Arguments data {A} d.
Arguments da_capacity {A} d.

Section Darray.
Context {A : Type}.
Implicit Types (arr : darray A) (item : A).

Definition da_count arr : Z := Z.of_nat (length (data arr)).

Definition da_init_capacity (ok : bool) (initial_capacity : Z) : option (darray A) :=
  let cap := if initial_capacity =? 0 then DARRAY_DEFAULT_CAPACITY else initial_capacity in
  if ok then Some (mkDarray [] cap) else None.

Definition da_init (ok : bool) : option (darray A) :=
  da_init_capacity ok DARRAY_DEFAULT_CAPACITY.

Definition da_destroy : darray A := mkDarray [] 0.

Definition da_grow (ok : bool) arr : option (darray A) :=
  let cap := wrap64 (da_capacity arr * DARRAY_GROWTH_FACTOR) in
  let cap := if cap =? 0 then DARRAY_DEFAULT_CAPACITY else cap in
  if ok then Some (mkDarray (data arr) cap) else None.

(** [if (count >= capacity) grow] *)
Definition da_room (ok : bool) arr : option (darray A) :=
  if da_capacity arr <=? da_count arr then da_grow ok arr else Some arr.

Definition da_push (ok : bool) arr item : darray A * Z :=
  match da_room ok arr with
  | None => (arr, -1)
  | Some arr' => (mkDarray (data arr' ++ [item]) (da_capacity arr'), 0)
  end.

Definition da_pop arr : darray A * option A :=
  match rev (data arr) with
  | [] => (arr, None)
  | x :: r => (mkDarray (rev r) (da_capacity arr), Some x)
  end.

Definition da_get arr (index : nat) : option A := data arr !! index.

Definition da_set arr (index : nat) item : darray A * Z :=
  if da_count arr <=? Z.of_nat index then (arr, -1)
  else (mkDarray (<[index := item]> (data arr)) (da_capacity arr), 0).

(** The elements from [index] on are moved up by one. *)
Definition da_insert (ok : bool) arr (index : nat) item : darray A * Z :=
  if da_count arr <? Z.of_nat index then (arr, -1)
  else match da_room ok arr with
       | None => (arr, -1)
       | Some arr' =>
           (mkDarray (take index (data arr') ++ item :: drop index (data arr'))
                     (da_capacity arr'), 0)
       end.

Definition da_remove arr (index : nat) : darray A * Z :=
  if da_count arr <=? Z.of_nat index then (arr, -1)
  else (mkDarray (take index (data arr) ++ drop (S index) (data arr)) (da_capacity arr), 0).

Definition da_clear arr : darray A := mkDarray [] (da_capacity arr).

Definition da_shrink (ok : bool) arr : darray A * Z :=
  if da_count arr =? 0 then (arr, -1)
  else if da_count arr =? da_capacity arr then (arr, 0)
  else if ok then (mkDarray (data arr) (da_count arr), 0) else (arr, -1).

Definition da_reserve (ok : bool) arr (min_capacity : Z) : darray A * Z :=
  if min_capacity <=? da_capacity arr then (arr, 0)
  else if ok then (mkDarray (data arr) min_capacity, 0) else (arr, -1).

(** The elements fit the allocation. *)
Definition da_ok arr : Prop := da_count arr <= da_capacity arr.

Lemma da_room_Some ok arr arr' :
  da_capacity arr < 2 ^ 63 -> da_ok arr -> da_room ok arr = Some arr' ->
  data arr' = data arr /\ da_count arr < da_capacity arr'.
Proof.
  unfold da_room, da_grow, da_ok, DARRAY_GROWTH_FACTOR, DARRAY_DEFAULT_CAPACITY, wrap64.
  intros Hcap Hok. destruct (Z.leb_spec (da_capacity arr) (da_count arr)).
  - assert (0 <= da_count arr) by (unfold da_count; lia).
    rewrite Z.mod_small by lia. destruct ok; [|done]. intros [= <-]. simpl.
    split; [done|]. destruct (Z.eqb_spec (da_capacity arr * 2) 0); lia.
  - intros [= <-]. done.
Qed.

Lemma da_push_ok ok arr item :
  da_capacity arr < 2 ^ 63 -> da_ok arr ->
  da_ok (da_push ok arr item).1 /\
  data (da_push ok arr item).1 =
    (if (da_push ok arr item).2 =? 0 then data arr ++ [item] else data arr).
Proof.
  intros Hcap Hok. unfold da_push.
  destruct (da_room ok arr) as [arr'|] eqn:E; [|by split].
  apply da_room_Some in E as [Hd Hlt]; [|done|done]. split.
  - unfold da_ok, da_count in *. simpl. rewrite Hd, length_app. simpl. lia.
  - simpl. by rewrite Hd.
Qed.
End Darray.

(** ** Properties *)

(** The list operation each array operation implements; the result says
    whether it is performed. *)
Inductive da_op (A : Type) :=
| OpPush (item : A) | OpPop | OpSet (i : nat) (item : A) | OpInsert (i : nat) (item : A)
| OpRemove (i : nat) | OpClear | OpShrink | OpReserve (n : Z).
Arguments OpPush {A} item. Arguments OpPop {A}. Arguments OpSet {A} i item.
Arguments OpInsert {A} i item. Arguments OpRemove {A} i. Arguments OpClear {A}.
Arguments OpShrink {A}. Arguments OpReserve {A} n.

Definition da_run {A} (ok : bool) (arr : darray A) (op : da_op A) : darray A :=
  match op with
  | OpPush x => (da_push ok arr x).1
  | OpPop => (da_pop arr).1
  | OpSet i x => (da_set arr i x).1
  | OpInsert i x => (da_insert ok arr i x).1
  | OpRemove i => (da_remove arr i).1
  | OpClear => da_clear arr
  | OpShrink => (da_shrink ok arr).1
  | OpReserve n => (da_reserve ok arr n).1
  end.

(** The operations on plain lists; out-of-range indices change nothing. *)
Definition list_run {A} (l : list A) (op : da_op A) : list A :=
  match op with
  | OpPush x => l ++ [x]
  | OpPop => take (pred (length l)) l
  | OpSet i x => <[i := x]> l
  | OpInsert i x => if decide (i <= length l)%nat then take i l ++ x :: drop i l else l
  | OpRemove i => delete i l
  | OpClear => []
  | OpShrink | OpReserve _ => l
  end.

Lemma rev_tail {A} (l : list A) x r : rev l = x :: r -> l = rev r ++ [x].
Proof. intros H. rewrite <- (rev_involutive l), H. done. Qed.

Lemma delete_take_drop' {A} (l : list A) i :
  (i < length l)%nat -> take i l ++ drop (S i) l = delete i l.
Proof. intros _. symmetry. apply delete_take_drop. Qed.

(** With a cooperating allocator the array operations compute the list
    operations exactly, out-of-range indices included; with a failing one an
    operation leaves the list as it is or performs it completely; and the
    elements always fit the allocated capacity. *)
Theorem darray_refines_list {A} (ok : bool) (arr : darray A) (op : da_op A) :
  da_capacity arr < 2 ^ 63 -> da_ok arr ->
  da_ok (da_run ok arr op) /\
  (ok = true -> data (da_run ok arr op) = list_run (data arr) op) /\
  (data (da_run ok arr op) = list_run (data arr) op \/ data (da_run ok arr op) = data arr).
Proof.
  intros Hcap Hok.
  enough (da_ok (da_run ok arr op) /\
    (data (da_run ok arr op) = list_run (data arr) op \/
     ok = false /\ data (da_run ok arr op) = data arr)) by naive_solver.
  destruct op as [x| |i x|i x|i| | |n]; simpl.
  - destruct (da_push_ok ok arr x Hcap Hok) as [Ho Hd]. split; [done|].
    rewrite Hd. unfold da_push, da_room, da_grow. destruct ok.
    + left. destruct (_ <=? _); done.
    + destruct (da_capacity arr <=? da_count arr); [right|left]; done.
  - unfold da_pop. destruct (rev (data arr)) as [|x r] eqn:E; simpl.
    + apply (f_equal (@rev A)) in E. rewrite rev_involutive in E. simpl in E.
      split; [done|]. left. by rewrite E.
    + apply rev_tail in E. unfold da_ok, da_count in *. simpl. rewrite E in *.
      rewrite length_app in *. simpl in *. split; [lia|]. left.
      replace (pred _) with (length (rev r)) by lia. by rewrite take_app_length.
  - unfold da_set, da_ok, da_count in *.
    destruct (Z.leb_spec (Z.of_nat (length (data arr))) (Z.of_nat i)); simpl.
    + split; [done|]. left. by rewrite list_insert_ge by lia.
    + rewrite length_insert. auto.
  - unfold da_insert. destruct (Z.ltb_spec (da_count arr) (Z.of_nat i)) as [Hi|Hi];
      unfold da_count in Hi; simpl.
    + split; [done|]. left. by case_decide; [lia|].
    + destruct (da_room ok arr) as [arr'|] eqn:E; simpl.
      * apply da_room_Some in E as [Hd Hlt]; [|done|done]. unfold da_ok, da_count in *. simpl.
        rewrite Hd in *. rewrite length_app, length_take, length_cons, length_drop.
        split; [lia|]. left. by case_decide; [|lia].
      * split; [done|]. right. split; [|done]. unfold da_room, da_grow in E.
        destruct ok; [|done]. by destruct (_ <=? _).
  - unfold da_remove, da_ok, da_count in *.
    destruct (Z.leb_spec (Z.of_nat (length (data arr))) (Z.of_nat i)); simpl.
    + split; [done|]. left. by rewrite delete_take_drop, take_ge, drop_ge, app_nil_r by lia.
    + rewrite length_app, length_take, length_drop. split; [lia|]. left.
      by apply delete_take_drop'; lia.
  - unfold da_ok, da_count in *. simpl. split; [lia|by left].
  - unfold da_shrink, da_ok, da_count in *.
    repeat case_match; simpl; auto with lia.
  - unfold da_reserve, da_ok, da_count in *.
    destruct (Z.leb_spec n (da_capacity arr)); simpl; [auto|]. destruct ok; simpl; auto with lia.
Qed.

Lemma darray_refines_list_witness :
  data (da_run true (mkDarray [1; 2; 3] 3) (OpInsert 1 9)) = [1; 9; 2; 3].
Proof.
  destruct (darray_refines_list true (mkDarray [1; 2; 3] 3) (OpInsert 1 9)) as (_ & H & _).
  - vm_compute. reflexivity.
  - vm_compute. discriminate.
  - exact (H eq_refl).
Defined.
