(* ===== verification/RateLimiter.v ===== *)
(** * Denial rate limiting (lib/policy/rate_limiter.c)

    The table of per-key denial counters with its doubling array, the backoff
    schedule, and the operations of the module. The outcome of each
    allocation is an argument of the operation that allocates. *)

From S2P Require Import Prelude CString.
Local Open Scope Z_scope.

(** ** State *)

Record RateLimitEntry := mkRateLimitEntry {
  key : cstr;
  denial_count : Z;
  last_denial : Z;
  backoff_until : Z
}.

(** [count] is the length of [entries]; [capacity] the allocated slots. *)
Record RateLimiter := mkRateLimiter {
  entries : list RateLimitEntry;
  capacity : Z
}.

Definition count (rl : RateLimiter) : Z := Z.of_nat (length (entries rl)).

Definition INITIAL_CAPACITY : Z := 8.

Definition BACKOFF_SCHEDULE : list Z := [0; 0; 5; 15; 60; 300].

(** ** Operations *)

Definition rate_limiter_create : RateLimiter :=
  {| entries := []; capacity := INITIAL_CAPACITY |}.

(** The index of the first entry with the key. *)
Fixpoint find_entry (es : list RateLimitEntry) (k : cstr) : option nat :=
  match es with
  | [] => None
  | e :: es' => if streq (key e) k then Some O else S <$> find_entry es' k
  end.

(** [realloc_ok] and [strdup_ok] say whether the two allocations succeed. The
    table may have grown although the entry could not be created. *)
Definition get_or_create_entry (realloc_ok strdup_ok : bool) (rl : RateLimiter)
    (k : cstr) : RateLimiter * option nat :=
  match find_entry (entries rl) k with
  | Some i => (rl, Some i)
  | None =>
      let full := capacity rl <=? count rl in
      if full && negb realloc_ok then (rl, None)
      else
        let rl1 := if full
                   then {| entries := entries rl; capacity := wrap32 (capacity rl * 2) |}
                   else rl in
        if strdup_ok
        then ({| entries := entries rl1 ++ [mkRateLimitEntry k 0 0 0];
                 capacity := capacity rl1 |}, Some (length (entries rl1)))
        else (rl1, None)
  end.

(** The clamped index into the schedule, with the [int] arithmetic of the code. *)
Definition schedule_index (denials : Z) : Z :=
  let i := wrap32 (denials - 1) in
  let i := if i <? 0 then 0 else i in
  if Z.of_nat (length BACKOFF_SCHEDULE) <=? i
  then Z.of_nat (length BACKOFF_SCHEDULE) - 1 else i.

Definition backoff_seconds (denials : Z) : Z :=
  nth (Z.to_nat (schedule_index denials)) BACKOFF_SCHEDULE 0.

Definition deny_entry (now : Z) (e : RateLimitEntry) : RateLimitEntry :=
  let n := wrap32 (denial_count e + 1) in
  {| key := key e; denial_count := n; last_denial := now;
     backoff_until := now + backoff_seconds n |}.

Definition rate_limiter_record_denial (realloc_ok strdup_ok : bool)
    (rl : RateLimiter) (k : cstr) (now : Z) : RateLimiter :=
  match get_or_create_entry realloc_ok strdup_ok rl k with
  | (rl', None) => rl'
  | (rl', Some i) =>
      {| entries := alter (deny_entry now) i (entries rl'); capacity := capacity rl' |}
  end.

Definition reset_entry (e : RateLimitEntry) : RateLimitEntry :=
  {| key := key e; denial_count := 0; last_denial := 0; backoff_until := 0 |}.

Definition rate_limiter_reset (rl : RateLimiter) (k : cstr) : RateLimiter :=
  match find_entry (entries rl) k with
  | None => rl
  | Some i => {| entries := alter reset_entry i (entries rl); capacity := capacity rl |}
  end.

Definition lookup_entry (rl : RateLimiter) (k : cstr) : option RateLimitEntry :=
  i ← find_entry (entries rl) k; entries rl !! i.

Definition rate_limiter_is_blocked (rl : RateLimiter) (k : cstr) (now : Z) : bool :=
  match lookup_entry rl k with
  | None => false
  | Some e => now <? backoff_until e
  end.

(** The remaining time is cast to [int]. *)
Definition rate_limiter_get_remaining (rl : RateLimiter) (k : cstr) (now : Z) : Z :=
  match lookup_entry rl k with
  | None => 0
  | Some e => if backoff_until e <=? now then 0 else wrap32 (backoff_until e - now)
  end.

(** ** Invariant *)

(** Keys are unique and the entries fit the allocated array. *)
Record rl_ok (rl : RateLimiter) : Prop := {
  rl_keys : NoDup (key <$> entries rl);
  rl_cap : INITIAL_CAPACITY <= capacity rl;
  rl_fits : count rl <= capacity rl
}.

(** ** Entry lemmas *)

Lemma find_entry_Some es k i :
  find_entry es k = Some i -> exists e, es !! i = Some e /\ key e = k.
Proof.
  revert i; induction es as [|e es IH]; intros i; simpl; [done|].
  destruct (streq_spec (key e) k) as [Hk|Hk]; [intros [= <-]; eauto|].
  destruct (find_entry es k); intros [= <-]. simpl. by apply IH.
Qed.

Lemma find_entry_None es k : find_entry es k = None <-> k ∉ (key <$> es).
Proof.
  induction es as [|e es IH]; simpl; [set_solver|].
  rewrite not_elem_of_cons.
  destruct (streq_spec (key e) k) as [Hk|Hk]; [naive_solver|].
  rewrite fmap_None. naive_solver.
Qed.

Lemma find_entry_alter f es k i :
  (forall e, key (f e) = key e) -> find_entry (alter f i es) k = find_entry es k.
Proof.
  intros Hf. revert i; induction es as [|e es IH]; intros [|i]; simpl; try done.
  - by rewrite Hf.
  - destruct (streq (key e) k); [done|]. f_equal. apply IH.
Qed.

Lemma keys_alter f (es : list RateLimitEntry) i :
  (forall e, key (f e) = key e) -> key <$> alter f i es = key <$> es.
Proof.
  intros Hf. revert i; induction es as [|e es IH]; intros [|i]; simpl; try done.
  - by rewrite Hf.
  - f_equal. apply IH.
Qed.

Lemma find_entry_snoc es k e :
  find_entry (es ++ [e]) k =
  match find_entry es k with
  | Some i => Some i
  | None => if streq (key e) k then Some (length es) else None
  end.
Proof.
  induction es as [|e' es IH]; simpl; [by destruct (streq _ _)|].
  destruct (streq (key e') k); [done|]. rewrite IH.
  destruct (find_entry es k); simpl; [done|]. by destruct (streq (key e) k).
Qed.

Lemma lookup_alter_entry f rl k k' i :
  (forall e, key (f e) = key e) -> find_entry (entries rl) k = Some i ->
  lookup_entry {| entries := alter f i (entries rl); capacity := capacity rl |} k' =
  (if streq k k' then f <$> lookup_entry rl k' else lookup_entry rl k').
Proof.
  intros Hf Hi. unfold lookup_entry. simpl. rewrite find_entry_alter by done.
  destruct (streq_spec k k') as [<-|Hne].
  - rewrite Hi. simpl. by rewrite list_lookup_alter_eq.
  - destruct (find_entry (entries rl) k') as [j|] eqn:Hj; simpl; [|done].
    apply list_lookup_alter_ne. intros ->.
    apply find_entry_Some in Hi as (e1 & H1 & K1).
    apply find_entry_Some in Hj as (e2 & H2 & K2). congruence.
Qed.

(** What the operations do to the entry of each key. *)
Lemma lookup_get_or_create rl k rl' i :
  get_or_create_entry true true rl k = (rl', Some i) ->
  find_entry (entries rl') k = Some i /\
  forall k', lookup_entry rl' k' =
    match lookup_entry rl k' with
    | Some e => Some e
    | None => if streq k k' then Some (mkRateLimitEntry k 0 0 0) else None
    end.
Proof.
  unfold get_or_create_entry. destruct (find_entry (entries rl) k) as [j|] eqn:Hk.
  - intros [= <- <-]. split; [done|]. intros k'.
    destruct (streq_spec k k') as [<-|_]; [|by destruct (lookup_entry rl k')].
    unfold lookup_entry. rewrite Hk. simpl.
    apply find_entry_Some in Hk as (e & -> & _). done.
  - rewrite andb_false_r. intros [= <- <-]. simpl.
    replace (entries (if capacity rl <=? count rl then _ else rl)) with (entries rl)
      by by destruct (capacity rl <=? count rl).
    split; [rewrite find_entry_snoc, Hk; simpl; by rewrite streq_refl|].
    intros k'. unfold lookup_entry. simpl. rewrite find_entry_snoc.
    destruct (find_entry (entries rl) k') as [j|] eqn:Hk'; simpl.
    + apply find_entry_Some in Hk' as (e & Hj & _). rewrite Hj.
      by apply lookup_app_l_Some.
    + destruct (streq k k'); simpl; [|done].
      rewrite lookup_app_r by lia. by rewrite Nat.sub_diag.
Qed.

(** ** Views of one key *)

Lemma record_denial_lookup rl k now k' :
  lookup_entry (rate_limiter_record_denial true true rl k now) k' =
  (if streq k k'
   then Some (deny_entry now (default (mkRateLimitEntry k 0 0 0) (lookup_entry rl k')))
   else lookup_entry rl k').
Proof.
  unfold rate_limiter_record_denial.
  destruct (get_or_create_entry true true rl k) as [rl' [i|]] eqn:E.
  - apply lookup_get_or_create in E as [Hi Hview].
    rewrite (lookup_alter_entry _ rl' k) by done. rewrite Hview.
    destruct (streq_spec k k') as [<-|_].
    + by destruct (lookup_entry rl k).
    + by destruct (lookup_entry rl k').
  - exfalso. unfold get_or_create_entry in E.
    destruct (find_entry _ _); [done|]. by rewrite andb_false_r in E.
Qed.

Lemma reset_lookup rl k k' :
  lookup_entry (rate_limiter_reset rl k) k' =
  (if streq k k' then reset_entry <$> lookup_entry rl k' else lookup_entry rl k').
Proof.
  unfold rate_limiter_reset. destruct (find_entry (entries rl) k) as [i|] eqn:E.
  - by apply lookup_alter_entry.
  - destruct (streq_spec k k') as [<-|_]; [|done].
    unfold lookup_entry. by rewrite E.
Qed.

Lemma create_lookup k : lookup_entry rate_limiter_create k = None.
Proof. done. Qed.

#[export] Hint Rewrite record_denial_lookup reset_lookup create_lookup : scaffold.

(** ** Histories *)

(** The two events the approval gate reports, newest first in a history. *)
Inductive rl_event :=
| Denied (k : cstr) (t : Z)
| Cleared (k : cstr).

Definition rl_step (rl : RateLimiter) (ev : rl_event) : RateLimiter :=
  match ev with
  | Denied k t => rate_limiter_record_denial true true rl k t
  | Cleared k => rate_limiter_reset rl k
  end.

Fixpoint rl_run (h : list rl_event) : RateLimiter :=
  match h with
  | [] => rate_limiter_create
  | ev :: h' => rl_step (rl_run h') ev
  end.

(** The consecutive denials of a key, and the time of the last one, read off
    the history alone. *)
Fixpoint streak (h : list rl_event) (k : cstr) : Z :=
  match h with
  | [] => 0
  | Denied k' _ :: h' => if streq k' k then streak h' k + 1 else streak h' k
  | Cleared k' :: h' => if streq k' k then 0 else streak h' k
  end.

Fixpoint last_denied (h : list rl_event) (k : cstr) : Z :=
  match h with
  | [] => 0
  | Denied k' t :: h' => if streq k' k then t else last_denied h' k
  | Cleared k' :: h' => last_denied h' k
  end.

(** The documented schedule: none for two denials, then 5, 15, 60 seconds,
    and five minutes from the sixth denial on. *)
Definition backoff_spec (n : Z) : Z :=
  if n <=? 2 then 0 else if n =? 3 then 5 else if n =? 4 then 15
  else if n =? 5 then 60 else 300.

Lemma backoff_seconds_spec n : 1 <= n < 2 ^ 31 -> backoff_seconds n = backoff_spec n.
Proof.
  intros Hn. unfold backoff_seconds, schedule_index, backoff_spec.
  rewrite wrap32_small by lia. change (Z.of_nat (length BACKOFF_SCHEDULE)) with 6.
  destruct (Z.ltb_spec (n - 1) 0); [lia|].
  destruct (Z.leb_spec 6 (n - 1)).
  - repeat match goal with |- context [if ?b then _ else _] => destruct b eqn:? end;
      first [lia | done].
  - assert (n = 1 \/ n = 2 \/ n = 3 \/ n = 4 \/ n = 5 \/ n = 6) as Hc by lia.
    destruct_or! Hc; subst; reflexivity.
Qed.

Lemma backoff_spec_range n : 0 <= backoff_spec n <= 300.
Proof. unfold backoff_spec. repeat case_match; lia. Qed.

Lemma streak_range h k : 0 <= streak h k <= Z.of_nat (length h).
Proof.
  induction h as [|[k' t|k'] h IH]; simpl length; simpl streak; [lia| |];
    destruct (streq k' k); lia.
Qed.

Lemma run_view h k :
  Z.of_nat (length h) < 2 ^ 31 - 1 ->
  match lookup_entry (rl_run h) k with
  | None => streak h k = 0
  | Some e =>
      denial_count e = streak h k /\
      backoff_until e = if streak h k =? 0 then 0
                        else last_denied h k + backoff_spec (streak h k)
  end.
Proof.
  induction h as [|ev h IH]; [done|].
  cbn [length rl_run]. intros Hlen. specialize (IH ltac:(lia)).
  pose proof (streak_range h k) as Hr.
  destruct ev as [k' t|k']; cbn [rl_step streak last_denied].
  - rewrite record_denial_lookup. destruct (streq_spec k' k) as [->|Hne]; [|done].
    assert (denial_count (default (mkRateLimitEntry k 0 0 0)
              (lookup_entry (rl_run h) k)) = streak h k) as Hc
      by (destruct (lookup_entry (rl_run h) k); simpl; [apply IH|by symmetry]).
    unfold deny_entry. cbn [denial_count backoff_until].
    rewrite Hc, wrap32_small, backoff_seconds_spec by lia. split; [done|].
    by destruct (Z.eqb_spec (streak h k + 1) 0); [lia|].
  - rewrite reset_lookup. destruct (streq_spec k' k) as [->|Hne]; [|done].
    by destruct (lookup_entry (rl_run h) k).
Qed.

(** ** Properties *)

(** After any sequence of denials and resets, a key is blocked exactly
    while its current streak of consecutive denials is inside the backoff
    period of the documented schedule; other keys play no role. *)
Theorem blocked_iff_in_backoff h k now :
  Z.of_nat (length h) < 2 ^ 31 - 1 -> 0 <= now ->
  rate_limiter_is_blocked (rl_run h) k now =
  (0 <? streak h k) && (now <? last_denied h k + backoff_spec (streak h k)).
Proof.
  intros Hlen Hnow. pose proof (run_view h k Hlen) as Hv.
  pose proof (streak_range h k). unfold rate_limiter_is_blocked.
  destruct (lookup_entry _ _) as [e|]; [destruct Hv as [_ ->]|by rewrite Hv].
  destruct (Z.eqb_spec (streak h k) 0) as [->|]; simpl.
  - by apply Z.ltb_ge.
  - by replace (0 <? streak h k) with true by lia.
Qed.

Definition shell_key : cstr := cs "shell".

Lemma blocked_iff_in_backoff_witness :
  Z.of_nat (length [Denied shell_key 20; Denied shell_key 10; Denied shell_key 5]) < 2 ^ 31 - 1 /\
  rate_limiter_is_blocked
    (rl_run [Denied shell_key 20; Denied shell_key 10; Denied shell_key 5]) shell_key 24 = true.
Proof.
  split; [vm_compute; done|].
  rewrite (blocked_iff_in_backoff _ shell_key 24) by (vm_compute; done).
  vm_compute; reflexivity.
Defined.

(** The reported waiting time never exceeds the longest backoff, is
    positive exactly while the key is blocked, and after it has elapsed the
    key is no longer blocked. *)
Theorem remaining_bounded h k now :
  Z.of_nat (length h) < 2 ^ 31 - 1 -> 0 <= last_denied h k <= now ->
  let r := rate_limiter_get_remaining (rl_run h) k now in
  0 <= r <= 300 /\
  (0 < r <-> rate_limiter_is_blocked (rl_run h) k now = true) /\
  rate_limiter_is_blocked (rl_run h) k (now + r) = false.
Proof.
  intros Hlen Hnow. pose proof (run_view h k Hlen) as Hv.
  pose proof (backoff_spec_range (streak h k)).
  unfold rate_limiter_get_remaining, rate_limiter_is_blocked.
  destruct (lookup_entry _ _) as [e|]; [destruct Hv as [_ Hb]|simpl; naive_solver lia].
  set (u := backoff_until e) in *.
  assert (u <= now + 300) by (destruct (streak h k =? 0); lia).
  destruct (Z.leb_spec u now); simpl.
  - split; [lia|]. rewrite Z.ltb_lt, Z.ltb_ge. lia.
  - rewrite wrap32_small by lia. split; [lia|]. rewrite Z.ltb_lt, Z.ltb_ge. lia.
Qed.

Lemma remaining_bounded_witness :
  rate_limiter_get_remaining
    (rl_run [Denied shell_key 20; Denied shell_key 10; Denied shell_key 5]) shell_key 21 <= 300.
Proof.
  pose proof (remaining_bounded [Denied shell_key 20; Denied shell_key 10; Denied shell_key 5]
                shell_key 21) as H.
  destruct H as [[_ H] _]; [vm_compute; done|vm_compute; done|exact H].
Defined.

Lemma keys_unique_snoc es k v :
  find_entry es k = None -> NoDup (key <$> es) -> key v = k -> NoDup (key <$> (es ++ [v])).
Proof.
  intros Hf Hnd <-. apply find_entry_None in Hf. rewrite fmap_app. apply NoDup_app.
  split_and!; [done| |by repeat constructor; set_solver].
  intros x Hx Hx'. simpl in Hx'. set_solver.
Qed.

Lemma get_or_create_ok ra sd rl k :
  capacity rl < 2 ^ 30 -> rl_ok rl -> rl_ok (get_or_create_entry ra sd rl k).1.
Proof.
  intros Hsmall [Hk Hc Hf]. unfold get_or_create_entry, INITIAL_CAPACITY in *.
  destruct (find_entry (entries rl) k) eqn:E; [by split|].
  destruct (Z.leb_spec (capacity rl) (count rl)) as [Hfull|Hfull]; simpl.
  - destruct ra; simpl; [|by split].
    assert (wrap32 (capacity rl * 2) = capacity rl * 2) as Hw by (apply wrap32_small; lia).
    destruct sd; simpl; (split; simpl; [try done| |]);
      [by apply keys_unique_snoc with k| | | |]; unfold count, INITIAL_CAPACITY in *; simpl;
      rewrite ?length_app; simpl; lia.
  - destruct sd; simpl; (split; simpl; [try done| |]);
      [by apply keys_unique_snoc with k| | | |]; unfold count, INITIAL_CAPACITY in *; simpl;
      rewrite ?length_app; simpl; lia.
Qed.

Lemma alter_ok f rl i :
  (forall e, key (f e) = key e) -> rl_ok rl ->
  rl_ok {| entries := alter f i (entries rl); capacity := capacity rl |}.
Proof.
  intros Hf [Hk Hc Hl]. split; simpl; [by rewrite keys_alter|done|].
  unfold count in *. simpl. by rewrite length_alter.
Qed.

(** Whatever the allocator answers, recording a denial keeps the keys
    unique and the entries inside the allocated array; and when the entry of a
    new key cannot be allocated, no key changes its blocked status. *)
Theorem record_denial_alloc_safe ra sd rl k now :
  capacity rl < 2 ^ 30 -> rl_ok rl ->
  rl_ok (rate_limiter_record_denial ra sd rl k now) /\
  (lookup_entry rl k = None -> sd = false ->
   forall k' t, rate_limiter_is_blocked (rate_limiter_record_denial ra sd rl k now) k' t =
                rate_limiter_is_blocked rl k' t).
Proof.
  intros Hsmall Hok. unfold rate_limiter_record_denial.
  pose proof (get_or_create_ok ra sd rl k Hsmall Hok) as Hok'. split.
  - destruct (get_or_create_entry ra sd rl k) as [rl' [i|]]; [|done]. by apply alter_ok.
  - intros Hnone -> k' t. unfold get_or_create_entry in *.
    destruct (find_entry (entries rl) k) as [i|] eqn:E.
    + exfalso. unfold lookup_entry in Hnone. rewrite E in Hnone. simpl in Hnone.
      apply find_entry_Some in E as (e & He & _). congruence.
    + destruct (_ && _); [done|]. by destruct (capacity rl <=? count rl).
Qed.

Lemma record_denial_alloc_safe_witness :
  rl_ok (rate_limiter_record_denial true true rate_limiter_create shell_key 7) /\
  rate_limiter_is_blocked
    (rate_limiter_record_denial true false rate_limiter_create shell_key 7) shell_key 8 = false.
Proof.
  assert (capacity rate_limiter_create < 2 ^ 30) as Hc by (vm_compute; done).
  assert (rl_ok rate_limiter_create) as Hok by (split; vm_compute; [constructor|done|done]).
  split.
  - exact (proj1 (record_denial_alloc_safe true true _ shell_key 7 Hc Hok)).
  - rewrite (proj2 (record_denial_alloc_safe true false _ shell_key 7 Hc Hok) eq_refl eq_refl).
    reflexivity.
Defined.
