(* ===== verification/ShellBase.v ===== *)
(** * Shell commands: common part (lib/policy/shell_parser.c and .h)

    The parsed-command record, the dangerous-pattern tables, the token list
    with its doubling array, the allowlist predicates on a parsed command, and
    the driver of the character loop that the three tokenizers share. *)

From S2P Require Import Prelude CString.
Local Open Scope bool_scope.

(** ** Data *)

Inductive ShellType :=
| SHELL_TYPE_POSIX
| SHELL_TYPE_CMD
| SHELL_TYPE_POWERSHELL
| SHELL_TYPE_UNKNOWN.

#[export] Instance ShellType_eq_dec : EqDecision ShellType.
Proof. solve_decision. Defined.

Record ParsedShellCommand := mkParsed {
  tokens : list cstr;
  has_chain : bool;
  has_pipe : bool;
  has_subshell : bool;
  has_redirect : bool;
  is_dangerous : bool;
  shell_type : ShellType
}.

Definition token_count (p : ParsedShellCommand) : nat := length (tokens p).

(** ** Dangerous patterns *)

Definition DANGEROUS_PATTERNS : list cstr :=
  [cs "rm -rf"; cs "rm -fr"; cs "rm -r -f"; cs "rm -f -r"; cs "chmod 777";
   cs "chmod -R"; cs ":(){ :|:& };:"].

Definition RCE_DOWNLOAD_CMDS : list cstr := [cs "curl"; cs "wget"].

Definition RCE_SHELL_CMDS : list cstr :=
  [cs "| sh"; cs "| bash"; cs "| zsh"; cs "|sh"; cs "|bash"; cs "|zsh"].

Definition DISK_WRITE_PATTERNS : list cstr :=
  [cs "of=/dev/sd"; cs "of=/dev/hd"; cs "of=/dev/nvme";
   cs "> /dev/sd"; cs "> /dev/hd"; cs "> /dev/nvme"].

(** Some pattern of a table occurs in the command. *)
Definition any_in (command : cstr) (table : list cstr) : bool :=
  existsb (contains command) table.

Definition shell_command_is_dangerous (command : cstr) : bool :=
  match command with
  | [] => false
  | _ =>
      any_in command DANGEROUS_PATTERNS
      || (any_in command RCE_DOWNLOAD_CMDS && any_in command RCE_SHELL_CMDS)
      || any_in command DISK_WRITE_PATTERNS
      || (contains command (cs "dd ") && contains command (cs "of=/dev/"))
  end.

Definition PS_DANGEROUS : list cstr :=
  [cs "invoke-expression"; cs "invoke-command"; cs "start-process";
   cs "invoke-webrequest"; cs "invoke-restmethod"; cs "iex"; cs "icm"; cs "iwr";
   cs "irm"; cs "-encodedcommand"; cs "-enc"; cs "downloadstring"; cs "downloadfile"].

Definition powershell_command_is_dangerous (command : cstr) : bool :=
  match command with
  | [] => false
  | _ => any_in (lower command) PS_DANGEROUS
  end.

(** ** Shell type names *)

Definition shell_type_name (t : ShellType) : cstr :=
  match t with
  | SHELL_TYPE_POSIX => cs "posix"
  | SHELL_TYPE_CMD => cs "cmd"
  | SHELL_TYPE_POWERSHELL => cs "powershell"
  | SHELL_TYPE_UNKNOWN => cs "unknown"
  end.

Definition parse_shell_type (name : cstr) : option ShellType :=
  if strcaseeq name (cs "posix") || strcaseeq name (cs "bash") ||
     strcaseeq name (cs "sh") || strcaseeq name (cs "zsh") || strcaseeq name (cs "dash")
  then Some SHELL_TYPE_POSIX
  else if strcaseeq name (cs "cmd") || strcaseeq name (cs "cmd.exe")
  then Some SHELL_TYPE_CMD
  else if strcaseeq name (cs "powershell") || strcaseeq name (cs "pwsh") ||
          strcaseeq name (cs "ps")
  then Some SHELL_TYPE_POWERSHELL
  else None.

(** [getenv("SHELL")] of the process, [None] when unset (POSIX build). *)
Definition detect_shell_type (env_SHELL : option cstr) : ShellType :=
  match env_SHELL with
  | Some shell =>
      if contains shell (cs "pwsh") || contains shell (cs "powershell")
      then SHELL_TYPE_POWERSHELL else SHELL_TYPE_POSIX
  | None => SHELL_TYPE_POSIX
  end.

(** ** Token list *)

Record TokenList := mkTokenList { tl_tokens : list cstr; tl_capacity : Z }.

Definition INITIAL_TOKEN_CAPACITY : Z := 16.

Definition token_list_init : TokenList :=
  {| tl_tokens := []; tl_capacity := INITIAL_TOKEN_CAPACITY |}.

(** [None] is the [-1] of the capacity overflow check. *)
Definition token_list_add (l : TokenList) (token : cstr) : option TokenList :=
  if (tl_capacity l <=? Z.of_nat (length (tl_tokens l)))%Z then
    let new_cap := wrap32 (tl_capacity l * 2) in
    if (new_cap <? tl_capacity l)%Z then None
    else Some {| tl_tokens := tl_tokens l ++ [token]; tl_capacity := new_cap |}
  else Some {| tl_tokens := tl_tokens l ++ [token]; tl_capacity := tl_capacity l |}.

(** ** Predicates on a parsed command *)

Fixpoint tokens_match (toks prefix : list cstr) {struct prefix} : bool :=
  match prefix, toks with
  | [], _ => true
  | p :: prefix', t :: toks' => streq t p && tokens_match toks' prefix'
  | _ :: _, [] => false
  end.

Definition shell_command_is_safe_for_matching (p : ParsedShellCommand) : bool :=
  negb (has_chain p || has_pipe p || has_subshell p || has_redirect p || is_dangerous p).

(** The token-count test of the code is the out-of-tokens case of
    [tokens_match]; an empty prefix is rejected. *)
Definition shell_command_matches_prefix (p : ParsedShellCommand) (prefix : list cstr) : bool :=
  match prefix with
  | [] => false
  | _ =>
      if has_chain p || has_pipe p || has_subshell p || has_redirect p then false
      else if is_dangerous p then false
      else if (token_count p <? length prefix)%nat then false
      else tokens_match (tokens p) prefix
  end.

Definition shell_command_get_base (p : ParsedShellCommand) : option cstr :=
  if (token_count p =? 0)%nat then None else head (tokens p).

Definition copy_parsed_shell_command (p : ParsedShellCommand) : ParsedShellCommand :=
  {| tokens := map id (tokens p); has_chain := has_chain p; has_pipe := has_pipe p;
     has_subshell := has_subshell p; has_redirect := has_redirect p;
     is_dangerous := is_dangerous p; shell_type := shell_type p |}.

(** ** Cross-platform equivalents *)

Definition equivalents : list (list cstr) :=
  [[cs "ls"; cs "dir"; cs "Get-ChildItem"; cs "gci"];
   [cs "cat"; cs "type"; cs "Get-Content"; cs "gc"];
   [cs "pwd"; cs "Get-Location"; cs "gl"];
   [cs "rm"; cs "del"; cs "erase"; cs "Remove-Item"; cs "ri"];
   [cs "cp"; cs "copy"; cs "Copy-Item"; cs "cpi"];
   [cs "mv"; cs "move"; cs "ren"; cs "Move-Item"; cs "mi"];
   [cs "echo"; cs "Write-Output"; cs "Write-Host"];
   [cs "clear"; cs "cls"; cs "Clear-Host"]].

Definition in_group (cmd : cstr) (group : list cstr) : bool :=
  existsb (strcaseeq cmd) group.

Definition commands_are_equivalent (allowed_cmd actual_cmd : cstr) : bool :=
  streq allowed_cmd actual_cmd ||
  existsb (fun g => in_group allowed_cmd g && in_group actual_cmd g) equivalents.

(** ** The character loop *)

(** The local variables of a tokenizer and the flags it sets. [buf] is
    [token_buf] up to [token_len]. PowerShell alone uses [expr_start]. *)
Record LexState := mkLex {
  buf : cstr;
  in_single_quote : bool;
  in_double_quote : bool;
  had_quotes : bool;
  expr_start : bool;
  f_chain : bool;
  f_pipe : bool;
  f_subshell : bool;
  f_redirect : bool
}.

Definition lex_init : LexState :=
  mkLex [] false false false true false false false false.

Definition push (c : ascii) (s : LexState) : LexState :=
  mkLex (buf s ++ [c]) (in_single_quote s) (in_double_quote s) (had_quotes s)
    (expr_start s) (f_chain s) (f_pipe s) (f_subshell s) (f_redirect s).
Definition clear_buf (s : LexState) : LexState :=
  mkLex [] (in_single_quote s) (in_double_quote s) (had_quotes s)
    (expr_start s) (f_chain s) (f_pipe s) (f_subshell s) (f_redirect s).
Definition toggle_single (s : LexState) : LexState :=
  mkLex (buf s) (negb (in_single_quote s)) (in_double_quote s) true
    (expr_start s) (f_chain s) (f_pipe s) (f_subshell s) (f_redirect s).
Definition toggle_double (s : LexState) : LexState :=
  mkLex (buf s) (in_single_quote s) (negb (in_double_quote s)) true
    (expr_start s) (f_chain s) (f_pipe s) (f_subshell s) (f_redirect s).
Definition clear_had_quotes (s : LexState) : LexState :=
  mkLex (buf s) (in_single_quote s) (in_double_quote s) false
    (expr_start s) (f_chain s) (f_pipe s) (f_subshell s) (f_redirect s).
Definition set_expr_start (b : bool) (s : LexState) : LexState :=
  mkLex (buf s) (in_single_quote s) (in_double_quote s) (had_quotes s)
    b (f_chain s) (f_pipe s) (f_subshell s) (f_redirect s).
(** [result->has_... |= b] *)
Definition or_chain (b : bool) (s : LexState) : LexState :=
  mkLex (buf s) (in_single_quote s) (in_double_quote s) (had_quotes s)
    (expr_start s) (f_chain s || b) (f_pipe s) (f_subshell s) (f_redirect s).
Definition or_pipe (b : bool) (s : LexState) : LexState :=
  mkLex (buf s) (in_single_quote s) (in_double_quote s) (had_quotes s)
    (expr_start s) (f_chain s) (f_pipe s || b) (f_subshell s) (f_redirect s).
Definition or_subshell (b : bool) (s : LexState) : LexState :=
  mkLex (buf s) (in_single_quote s) (in_double_quote s) (had_quotes s)
    (expr_start s) (f_chain s) (f_pipe s) (f_subshell s || b) (f_redirect s).
Definition or_redirect (b : bool) (s : LexState) : LexState :=
  mkLex (buf s) (in_single_quote s) (in_double_quote s) (had_quotes s)
    (expr_start s) (f_chain s) (f_pipe s) (f_subshell s) (f_redirect s || b).

(** [if (token_len > 0) { token_list_add(...); token_len = 0; }] *)
Definition flush (s : LexState) : LexState * option cstr :=
  match buf s with [] => (s, None) | _ => (clear_buf s, Some (buf s)) end.

(** [if (token_len > 0 || had_quotes) { token_list_add(...);
    token_len = 0; had_quotes = 0; }] *)
Definition flush_word (s : LexState) : LexState * option cstr :=
  match buf s, had_quotes s with
  | [], false => (s, None)
  | _, _ => (clear_had_quotes (clear_buf s), Some (buf s))
  end.

(** The longest command [parse_shell_command_for_type] accepts. *)
Definition MAX_COMMAND_LENGTH : Z := 65536.

(** One iteration: the new state, the token added to the list if any, and
    whether the iteration also consumed the character after [c]. *)
Definition StepFun := LexState -> ascii -> cstr -> (LexState * option cstr) * bool.

Definition add_opt (l : TokenList) (t : option cstr) : option TokenList :=
  match t with None => Some l | Some tok => token_list_add l tok end.

(** The loop over the characters of the command; a failed [token_list_add] ends the parse. *)
Fixpoint lex_loop (step : StepFun) (s : LexState) (l : TokenList) (p : cstr)
    : option (LexState * TokenList) :=
  match p with
  | [] => Some (s, l)
  | c :: p' =>
      let '((s', t), skip) := step s c p' in
      match add_opt l t with
      | None => None
      | Some l' =>
          match skip, p' with
          | true, _ :: p'' => lex_loop step s' l' p''
          | _, _ => lex_loop step s' l' p'
          end
      end
  end.

(** The code after the loop: unbalanced quotes, the last token, the result. *)
Definition lex_finish (dangerous : bool) (ty : ShellType) (r : LexState * TokenList)
    : option ParsedShellCommand :=
  let '(s, l) := r in
  let s := or_chain (in_single_quote s || in_double_quote s) s in
  match add_opt l (flush_word s).2 with
  | None => None
  | Some l' =>
      Some {| tokens := tl_tokens l'; has_chain := f_chain s; has_pipe := f_pipe s;
              has_subshell := f_subshell s; has_redirect := f_redirect s;
              is_dangerous := dangerous; shell_type := ty |}
  end.

Definition lex_parse (step : StepFun) (dangerous : bool) (ty : ShellType) (command : cstr)
    : option ParsedShellCommand :=
  r ← lex_loop step lex_init token_list_init command; lex_finish dangerous ty r.
