(* ===== verification/ShellLex.v ===== *)
(** * Theory of the tokenizer loop

    Facts about [lex_loop] that hold for every tokenizer: it never runs out of
    token-list capacity on accepted lengths, so it computes the same result as
    its version on plain lists; and the flags it raises are exactly those of a
    character-by-character specification, for any step function that obeys the
    laws of the class [Lexer]. *)

From S2P Require Import Prelude CString ShellBase.
Local Open Scope bool_scope.

(** ** The loop on plain lists *)

Definition opt_list {A} (o : option A) : list A := match o with None => [] | Some x => [x] end.

Fixpoint lex_pure (step : StepFun) (s : LexState) (ts : list cstr) (p : cstr)
    : LexState * list cstr :=
  match p with
  | [] => (s, ts)
  | c :: p' =>
      let '((s', t), skip) := step s c p' in
      match skip, p' with
      | true, _ :: p'' => lex_pure step s' (ts ++ opt_list t) p''
      | _, _ => lex_pure step s' (ts ++ opt_list t) p'
      end
  end.

(** Every flag that prevents allowlist matching. *)
Definition unsafe (s : LexState) : bool :=
  f_chain s || f_pipe s || f_subshell s || f_redirect s.

Definition pure_finish (dangerous : bool) (ty : ShellType) (r : LexState * list cstr)
    : ParsedShellCommand :=
  let '(s, ts) := r in
  {| tokens := ts ++ opt_list (flush_word s).2;
     has_chain := f_chain s || (in_single_quote s || in_double_quote s);
     has_pipe := f_pipe s; has_subshell := f_subshell s; has_redirect := f_redirect s;
     is_dangerous := dangerous; shell_type := ty |}.

Definition pure_parse (step : StepFun) (dangerous : bool) (ty : ShellType) (command : cstr)
    : ParsedShellCommand :=
  pure_finish dangerous ty (lex_pure step lex_init [] command).

(** ** Capacity of the token list *)

(** The capacity is at least the initial one and at most twice the count. *)
Definition tl_ok (l : TokenList) : Prop :=
  (INITIAL_TOKEN_CAPACITY <= tl_capacity l <=
   Z.max INITIAL_TOKEN_CAPACITY (2 * Z.of_nat (length (tl_tokens l))))%Z.

Lemma token_list_add_ok l t :
  tl_ok l -> (Z.of_nat (length (tl_tokens l)) < 2 ^ 29)%Z ->
  exists l', token_list_add l t = Some l' /\ tl_tokens l' = tl_tokens l ++ [t] /\ tl_ok l'.
Proof.
  unfold tl_ok, token_list_add, INITIAL_TOKEN_CAPACITY. intros Hok Hlen.
  destruct (Z.leb_spec (tl_capacity l) (Z.of_nat (length (tl_tokens l)))).
  - rewrite wrap32_small by lia. destruct (Z.ltb_spec (tl_capacity l * 2) (tl_capacity l)); [lia|].
    eexists; split; [done|]. simpl. rewrite length_app. simpl. split; [done|lia].
  - eexists; split; [done|]. simpl. rewrite length_app. simpl. split; [done|lia].
Qed.

Lemma add_opt_ok l t :
  tl_ok l -> (Z.of_nat (length (tl_tokens l)) < 2 ^ 29)%Z ->
  exists l', add_opt l t = Some l' /\ tl_tokens l' = tl_tokens l ++ opt_list t /\ tl_ok l'.
Proof.
  intros Hok Hlen. destruct t as [t|]; simpl.
  - by apply token_list_add_ok.
  - exists l. by rewrite app_nil_r.
Qed.

(** Two-step induction on the text, following the loop. *)
Lemma text_ind (P : cstr -> Prop) :
  P [] -> (forall c, P [c]) ->
  (forall c d p, P p -> P (d :: p) -> P (c :: d :: p)) -> forall p, P p.
Proof.
  intros H0 H1 H2 p. enough (P p /\ forall c, P (c :: p)) by naive_solver.
  induction p as [|d p [IH1 IH2]]; [by split|]. split; [apply IH2|].
  intros c. by apply H2; [|apply IH2].
Qed.

Lemma lex_loop_pure step p s l :
  tl_ok l -> (Z.of_nat (length (tl_tokens l) + length p) < 2 ^ 29)%Z ->
  exists l', lex_loop step s l p = Some ((lex_pure step s (tl_tokens l) p).1, l') /\
             tl_tokens l' = (lex_pure step s (tl_tokens l) p).2 /\
             tl_ok l' /\ (length (tl_tokens l') <= length (tl_tokens l) + length p)%nat.
Proof.
  revert s l. induction p as [|c|c d p IH IH2] using text_ind; intros s l Hok Hlen.
  - exists l. simpl. (split; [done|]; split; [done|]; split; [done|]). lia.
  - simpl in *. destruct (step s c []) as [[s' t] skip].
    destruct (add_opt_ok l t Hok ltac:(lia)) as (l' & -> & Hts & Hok').
    exists l'. assert (length (tl_tokens l') <= length (tl_tokens l) + 1)%nat
      by (rewrite Hts, length_app; destruct t; simpl; lia).
    rewrite <- Hts. by destruct skip.
  - remember (d :: p) as q eqn:Hq. simpl. destruct (step s c q) as [[s' t] skip].
    destruct (add_opt_ok l t Hok ltac:(lia)) as (l' & -> & Hts & Hok').
    assert (length (tl_tokens l') <= length (tl_tokens l) + 1)%nat
      by (rewrite Hts, length_app; destruct t; simpl; lia).
    rewrite <- Hts. subst q. simpl in Hlen.
    destruct skip; [destruct (IH s' l' Hok' ltac:(lia)) as (l2 & -> & ? & ? & ?)
                   |destruct (IH2 s' l' Hok' ltac:(simpl; lia)) as (l2 & -> & ? & ? & ?)];
      exists l2; (split; [done|]; split; [done|]; split; [done|]); simpl in *; lia.
Qed.

Lemma flush_word_or_chain b s : (flush_word (or_chain b s)).2 = (flush_word s).2.
Proof. unfold flush_word. simpl. by destruct (buf s), (had_quotes s). Qed.

(** The parser never fails for want of capacity below 2^29 characters. *)
Lemma lex_parse_pure step dangerous ty command :
  (Z.of_nat (length command) < 2 ^ 29 - 1)%Z ->
  lex_parse step dangerous ty command = Some (pure_parse step dangerous ty command).
Proof.
  intros Hlen. unfold lex_parse, pure_parse.
  assert (tl_ok token_list_init) as Hinit by (split; vm_compute; done).
  destruct (lex_loop_pure step command lex_init token_list_init Hinit ltac:(simpl; lia))
    as (l & -> & Hts & Hok & Hl).
  change (tl_tokens token_list_init) with (@nil cstr) in *.
  destruct (lex_pure step lex_init [] command) as [s ts]. simpl in *. subst ts.
  cbn -[flush_word or_chain add_opt].
  rewrite flush_word_or_chain.
  destruct (add_opt_ok l (flush_word s).2 Hok ltac:(lia)) as (l' & -> & -> & _). done.
Qed.

Lemma accepted_length (command : cstr) :
  (Z.of_nat (length command) <= MAX_COMMAND_LENGTH)%Z ->
  (Z.of_nat (length command) < 2 ^ 29 - 1)%Z.
Proof. unfold MAX_COMMAND_LENGTH. lia. Qed.

(** ** The flags *)

(** Each update of the state, seen through [unsafe]. *)
Lemma unsafe_or_chain b s : unsafe (or_chain b s) = unsafe s || b.
Proof. unfold unsafe; simpl. by destruct (f_chain s), (f_pipe s), (f_subshell s), (f_redirect s), b. Qed.
Lemma unsafe_or_pipe b s : unsafe (or_pipe b s) = unsafe s || b.
Proof. unfold unsafe; simpl. by destruct (f_chain s), (f_pipe s), (f_subshell s), (f_redirect s), b. Qed.
Lemma unsafe_or_subshell b s : unsafe (or_subshell b s) = unsafe s || b.
Proof. unfold unsafe; simpl. by destruct (f_chain s), (f_pipe s), (f_subshell s), (f_redirect s), b. Qed.
Lemma unsafe_or_redirect b s : unsafe (or_redirect b s) = unsafe s || b.
Proof. unfold unsafe; simpl. by destruct (f_chain s), (f_pipe s), (f_subshell s), (f_redirect s), b. Qed.
Lemma unsafe_push c s : unsafe (push c s) = unsafe s.
Proof. done. Qed.
Lemma unsafe_toggle_single s : unsafe (toggle_single s) = unsafe s.
Proof. done. Qed.
Lemma unsafe_toggle_double s : unsafe (toggle_double s) = unsafe s.
Proof. done. Qed.
Lemma unsafe_set_expr_start b s : unsafe (set_expr_start b s) = unsafe s.
Proof. done. Qed.
Lemma unsafe_flush s : unsafe (flush s).1 = unsafe s.
Proof. unfold flush. by destruct (buf s). Qed.
Lemma unsafe_flush_word s : unsafe (flush_word s).1 = unsafe s.
Proof. unfold flush_word. by destruct (buf s), (had_quotes s). Qed.

Create Rewrite HintDb lex.
#[export] Hint Rewrite unsafe_or_chain unsafe_or_pipe unsafe_or_subshell unsafe_or_redirect
  unsafe_push unsafe_toggle_single unsafe_toggle_double unsafe_set_expr_start
  unsafe_flush unsafe_flush_word : lex.

(** The quote fields survive flushing. *)
Lemma flush_quotes s :
  in_single_quote (flush s).1 = in_single_quote s /\
  in_double_quote (flush s).1 = in_double_quote s /\ expr_start (flush s).1 = expr_start s.
Proof. unfold flush. by destruct (buf s). Qed.
Lemma flush_word_quotes s :
  in_single_quote (flush_word s).1 = in_single_quote s /\
  in_double_quote (flush_word s).1 = in_double_quote s /\
  expr_start (flush_word s).1 = expr_start s.
Proof. unfold flush_word. by destruct (buf s), (had_quotes s). Qed.

(** A character-level specification of a tokenizer: the quoting context [Q],
    how a character changes it, and which characters it must refuse there,
    given the next one. The laws tie the step function to it. *)
Class Lexer (step : StepFun) {Q : Type} (ctx : LexState -> Q)
    (qstep : Q -> ascii -> ascii -> Q) (refused : Q -> ascii -> ascii -> bool) : Prop := {
  lexer_refused s c p :
    unsafe (step s c p).1.1 = unsafe s || refused (ctx s) c (peek p);
  lexer_ctx s c p :
    unsafe (step s c p).1.1 = false -> (step s c p).2 = false ->
    ctx (step s c p).1.1 = qstep (ctx s) c (peek p);
  lexer_skip s c d p :
    unsafe (step s c (d :: p)).1.1 = false -> (step s c (d :: p)).2 = true ->
    refused (qstep (ctx s) c d) d (peek p) = false /\
    ctx (step s c (d :: p)).1.1 = qstep (qstep (ctx s) c d) d (peek p);
  lexer_skip_end s c :
    unsafe (step s c []).1.1 = false -> (step s c []).2 = false
}.

Section Flags.
Context {step : StepFun} {Q : Type} {ctx : LexState -> Q}
  {qstep : Q -> ascii -> ascii -> Q} {refused : Q -> ascii -> ascii -> bool}
  {L : Lexer step ctx qstep refused}.

(** No character is refused in its context. *)
Fixpoint clean (q : Q) (p : cstr) : bool :=
  match p with
  | [] => true
  | c :: p' => negb (refused q c (peek p')) && clean (qstep q c (peek p')) p'
  end.

(** The context after [pre] in the text [pre ++ post]. *)
Fixpoint context_before (q : Q) (pre post : cstr) : Q :=
  match pre with
  | [] => q
  | c :: pre' => context_before (qstep q c (peek (pre' ++ post))) pre' post
  end.

Definition context_of (q : Q) (p : cstr) : Q := context_before q p [].

Lemma lex_pure_unsafe_mono p s ts : unsafe s = true -> unsafe (lex_pure step s ts p).1 = true.
Proof using L.
  revert s ts. induction p as [|c|c d p IH IH2] using text_ind; intros s ts Hs; [done| |].
  - simpl. pose proof (lexer_refused s c []) as H. rewrite Hs in H.
    destruct (step s c []) as [[s' t] skip]. simpl in *. by destruct skip.
  - remember (d :: p) as q eqn:Hq. simpl. pose proof (lexer_refused s c q) as H. rewrite Hs in H.
    destruct (step s c q) as [[s' t] skip]. simpl in *. subst q. destruct skip; auto.
Qed.

(** The flags at the end of the text are those of the specification, and
    when none is raised the final context is the specified one. *)
Lemma lex_pure_flags p s ts :
  unsafe (lex_pure step s ts p).1 = unsafe s || negb (clean (ctx s) p) /\
  (unsafe (lex_pure step s ts p).1 = false ->
   ctx (lex_pure step s ts p).1 = context_of (ctx s) p).
Proof using L.
  revert s ts. induction p as [|c|c d p IH IH2] using text_ind; intros s ts.
  - simpl. by rewrite orb_false_r.
  - simpl. pose proof (lexer_refused s c []) as H. pose proof (lexer_ctx s c []) as Hc.
    pose proof (lexer_skip_end s c) as He.
    destruct (step s c []) as [[s' t] skip]. simpl in *. rewrite H in *.
    rewrite andb_true_r, negb_involutive. destruct skip; simpl; rewrite ?H; split; auto;
      intros Hu; rewrite Hu in *; naive_solver.
  - remember (d :: p) as q eqn:Hq. simpl.
    pose proof (lexer_refused s c q) as H. pose proof (lexer_ctx s c q) as Hc.
    pose proof (lexer_skip s c d p) as Hsk. rewrite <- Hq in Hsk.
    destruct (step s c q) as [[s' t] skip] eqn:Est. simpl in *. subst q.
    destruct (unsafe s || refused (ctx s) c (peek (d :: p))) eqn:Hu.
    + assert (unsafe s || negb (negb (refused (ctx s) c (peek (d :: p))) &&
                clean (qstep (ctx s) c (peek (d :: p))) (d :: p)) = true) as ->
        by (apply orb_true_iff in Hu as [->| ->]; simpl; by rewrite ?orb_true_r).
      destruct skip.
      * pose proof (lex_pure_unsafe_mono p s' (ts ++ opt_list t) H). split; [done|congruence].
      * pose proof (lex_pure_unsafe_mono (d :: p) s' (ts ++ opt_list t) H).
        split; [done|congruence].
    + apply orb_false_iff in Hu as [Hus Hur]. rewrite Hus, Hur. cbn [orb negb andb]. destruct skip.
      * destruct (Hsk H eq_refl) as [Hr Hq]. destruct (IH s' (ts ++ opt_list t)) as [IHa IHb].
        rewrite Hq in IHa, IHb. rewrite H in IHa. unfold context_of in *.
        cbn [clean context_before peek orb app] in *. rewrite app_nil_r, Hr.
        cbn [negb andb]. auto.
      * specialize (Hc H eq_refl). destruct (IH2 s' (ts ++ opt_list t)) as [IHa IHb].
        rewrite Hc in IHa, IHb. rewrite H in IHa. unfold context_of in *.
        cbn [clean context_before peek orb app] in *. auto.
Qed.

Lemma clean_app q pre post :
  clean q (pre ++ post) = true -> clean (context_before q pre post) post = true.
Proof using Type.
  revert q. induction pre as [|x pre IH]; intros q; simpl; [done|].
  intros [_ H]%andb_true_iff. by apply IH.
Qed.

(** When a command is safe for matching, for a specification that knows
    whether a context is quoted. *)
Lemma pure_parse_safe (quoted : Q -> bool) dangerous ty command :
  (forall s, quoted (ctx s) = in_single_quote s || in_double_quote s) ->
  shell_command_is_safe_for_matching (pure_parse step dangerous ty command) =
  clean (ctx lex_init) command && negb (quoted (context_of (ctx lex_init) command)) &&
  negb dangerous.
Proof using L.
  intros Hq. destruct (lex_pure_flags command lex_init []) as [Hf Hc].
  unfold pure_parse, pure_finish, shell_command_is_safe_for_matching.
  destruct (lex_pure step lex_init [] command) as [s ts]. cbn [fst snd] in *. simpl.
  assert (unsafe lex_init = false) as Hinit by done. rewrite Hinit in Hf. simpl in Hf.
  rewrite <- Hq. destruct (clean (ctx lex_init) command); simpl in *.
  - rewrite (Hc Hf). unfold unsafe in Hf. rewrite !orb_false_iff in Hf.
    destruct Hf as [[[-> ->] ->] ->]. by destruct (quoted _), dangerous.
  - unfold unsafe in Hf.
    destruct (f_chain s), (f_pipe s), (f_subshell s), (f_redirect s), (quoted (ctx s)); done.
Qed.
End Flags.

Arguments clean {Q} qstep refused q p : assert.
Arguments context_before {Q} qstep q pre post : assert.
Arguments context_of {Q} qstep q p : assert.

(** ** Automation for step functions *)

Ltac split_ifs :=
  repeat match goal with |- context [if ?b then _ else _] => destruct b eqn:? end.

(** Decide each comparison of [c] with a literal, replacing [c] on a hit. *)
Ltac char_cases c :=
  repeat match goal with
  | H : context [Ascii.eqb c ?x] |- _ => destruct (Ascii.eqb_spec c x) as [->|]; cbn in *; try done
  | |- context [Ascii.eqb c ?x] => destruct (Ascii.eqb_spec c x) as [->|]; cbn in *; try done
  end.

(** Decide the remaining comparisons, those of the next character. *)
Ltac next_cases :=
  repeat match goal with
  | H : context [Ascii.eqb ?p ?x] |- _ => destruct (Ascii.eqb p x); cbn in *; try done
  | |- context [Ascii.eqb ?p ?x]  => destruct (Ascii.eqb p x); cbn in *; try done
  end.
