(* ===== verification/ShellPosix.v ===== *)
(** * The POSIX tokenizer (lib/policy/shell_parser.c, parse_posix_shell)

    One iteration of the character loop as a step function, the parser built
    from it, the character-level specification of what it refuses, and the
    proof that it refuses exactly that. *)

From S2P Require Import Prelude CString ShellBase ShellLex.
Local Open Scope bool_scope.
Local Open Scope char_scope.

Definition SQ : ascii := "039".
Definition DQ : ascii := "034".

Definition is_posix_metachar (c : ascii) : bool :=
  Ascii.eqb c ";" || Ascii.eqb c "|" || Ascii.eqb c "&" || Ascii.eqb c "(" ||
  Ascii.eqb c ")" || Ascii.eqb c "$" || Ascii.eqb c "`" || Ascii.eqb c ">" ||
  Ascii.eqb c "<".

(** The flags raised by an unquoted metacharacter [c] followed by [next]. *)
Definition posix_meta_flags (c next : ascii) (s : LexState) : LexState :=
  if Ascii.eqb c ";" then or_chain true s
  else if Ascii.eqb c "|" then
    if Ascii.eqb next "|" then or_chain true s else or_pipe true s
  else if Ascii.eqb c "&" then
    if Ascii.eqb next "&" then or_chain true s else or_chain true s
  else if Ascii.eqb c "$" then
    if Ascii.eqb next "(" then or_subshell true s else s
  else if Ascii.eqb c "`" then or_subshell true s
  else if Ascii.eqb c "(" || Ascii.eqb c ")" then or_subshell true s
  else if Ascii.eqb c ">" || Ascii.eqb c "<" then or_redirect true s
  else s.

Definition posix_step : StepFun := fun s c p =>
  let next := peek p in
  let s := or_chain (non_ascii c) s in
  if Ascii.eqb c "$" && Ascii.eqb next SQ then ((or_chain true s, None), false)
  else if Ascii.eqb c "\" && negb (in_single_quote s) then ((or_chain true s, None), true)
  else if Ascii.eqb c SQ && negb (in_double_quote s) then ((toggle_single s, None), false)
  else if Ascii.eqb c DQ && negb (in_single_quote s) then ((toggle_double s, None), false)
  else if in_single_quote s || in_double_quote s then ((push c s, None), false)
  else if isspace c then (flush_word s, false)
  else if is_posix_metachar c then
    (flush (posix_meta_flags c next s),
     (Ascii.eqb c "&" && Ascii.eqb next "&") || (Ascii.eqb c "|" && Ascii.eqb next "|") ||
     (Ascii.eqb c ">" && Ascii.eqb next ">") || (Ascii.eqb c "<" && Ascii.eqb next "<"))
  else ((push c s, None), false).

Definition parse_posix_shell (command : cstr) : option ParsedShellCommand :=
  lex_parse posix_step (shell_command_is_dangerous command) SHELL_TYPE_POSIX command.

(** ** What the tokenizer must refuse *)

(** Inside single quotes, inside double quotes. *)
Definition Quotes : Type := bool * bool.

Definition quotes_of (s : LexState) : Quotes := (in_single_quote s, in_double_quote s).

Definition posix_qstep (q : Quotes) (c next : ascii) : Quotes :=
  let '(sq, dq) := q in
  if Ascii.eqb c SQ && negb dq then (negb sq, dq)
  else if Ascii.eqb c DQ && negb sq then (sq, negb dq)
  else (sq, dq).

(** The command operators of a POSIX shell. *)
Definition posix_operator (c : ascii) : bool :=
  Ascii.eqb c ";" || Ascii.eqb c "|" || Ascii.eqb c "&" || Ascii.eqb c "`" ||
  Ascii.eqb c "(" || Ascii.eqb c ")" || Ascii.eqb c ">" || Ascii.eqb c "<".

Definition posix_refused (q : Quotes) (c next : ascii) : bool :=
  let '(sq, dq) := q in
  non_ascii c || (Ascii.eqb c "$" && Ascii.eqb next SQ) ||
  (Ascii.eqb c "\" && negb sq) ||
  (negb sq && negb dq &&
   (posix_operator c || (Ascii.eqb c "$" && Ascii.eqb next "("))).

(** The commands an allowlist entry may match. *)
Definition posix_matchable (command : cstr) : bool :=
  clean posix_qstep posix_refused (false, false) command &&
  (let '(sq, dq) := context_of posix_qstep (false, false) command in
   negb (sq || dq)) &&
  negb (shell_command_is_dangerous command).

(** ** The step function obeys the specification *)

Lemma posix_refused_law s c p :
  unsafe (posix_step s c p).1.1 = unsafe s || posix_refused (quotes_of s) c (peek p).
Proof.
  unfold posix_step, posix_refused, posix_meta_flags, quotes_of, posix_operator,
    is_posix_metachar.
  generalize (peek p); intros next.
  change (in_single_quote (or_chain (non_ascii c) s)) with (in_single_quote s).
  change (in_double_quote (or_chain (non_ascii c) s)) with (in_double_quote s).
  destruct (in_single_quote s), (in_double_quote s); cbn [orb andb negb];
    split_ifs; cbn [fst snd]; autorewrite with lex;
    destruct (unsafe s); cbn [orb]; try done;
    destruct (non_ascii c) eqn:?; cbn [orb]; try done;
    char_cases c; next_cases.
Qed.

Lemma posix_step_ctx s c p :
  posix_refused (quotes_of s) c (peek p) = false ->
  (posix_step s c p).2 = false /\
  quotes_of (posix_step s c p).1.1 = posix_qstep (quotes_of s) c (peek p).
Proof.
  unfold posix_step, posix_refused, posix_meta_flags, quotes_of, posix_operator,
    is_posix_metachar, posix_qstep.
  generalize (peek p); intros next.
  change (in_single_quote (or_chain (non_ascii c) s)) with (in_single_quote s).
  change (in_double_quote (or_chain (non_ascii c) s)) with (in_double_quote s).
  destruct s as [bu sq dq hq ex fc fp fs fr]; cbn [in_single_quote in_double_quote].
  unfold flush, flush_word.
  destruct sq, dq; cbn [orb andb negb fst snd];
    intros H; apply orb_false_iff in H as [H ?];
    split_ifs; cbn [fst snd in_single_quote in_double_quote]; char_cases c; next_cases.
Qed.

#[export] Instance posix_lexer : Lexer posix_step quotes_of posix_qstep posix_refused.
Proof.
  split.
  - exact posix_refused_law.
  - intros s c p Hu _. rewrite posix_refused_law in Hu.
    apply orb_false_iff in Hu as [_ Hr]. by apply posix_step_ctx.
  - intros s c d p Hu Hskip. rewrite posix_refused_law in Hu.
    apply orb_false_iff in Hu as [_ Hr]. apply posix_step_ctx in Hr as [? _]. congruence.
  - intros s c Hu. rewrite posix_refused_law in Hu.
    apply orb_false_iff in Hu as [_ Hr]. by apply posix_step_ctx in Hr as [? _].
Qed.

Lemma posix_safe_exact' command :
  (Z.of_nat (length command) <= MAX_COMMAND_LENGTH)%Z ->
  exists p, parse_posix_shell command = Some p /\
    shell_command_is_safe_for_matching p = posix_matchable command.
Proof.
  intros Hlen. unfold parse_posix_shell. rewrite lex_parse_pure by exact (accepted_length _ Hlen).
  eexists. split; [done|].
  rewrite (pure_parse_safe (L := posix_lexer) (fun q => q.1 || q.2)) by (intros; reflexivity).
  unfold posix_matchable. change (quotes_of lex_init) with (false, false).
  by destruct (context_of posix_qstep (false, false) command).
Qed.

(** ** Properties *)

(** On a command within the accepted length the POSIX parser always
    succeeds, and it declares the command safe for allowlist matching exactly
    when a character-by-character reading finds no operator and no command
    substitution outside quotes, no backslash outside single quotes, no ANSI-C
    quote and no non-ASCII character anywhere, the quotes balance, and no
    dangerous pattern occurs. *)
Theorem posix_safe_exact command :
  (Z.of_nat (length command) <= MAX_COMMAND_LENGTH)%Z ->
  exists p, parse_posix_shell command = Some p /\
    shell_command_is_safe_for_matching p = posix_matchable command.
Proof. apply posix_safe_exact'. Qed.

Lemma posix_safe_exact_witness :
  exists p, parse_posix_shell (cs "git log; id") = Some p /\
    shell_command_is_safe_for_matching p = false.
Proof.
  destruct (posix_safe_exact (cs "git log; id") ltac:(vm_compute; discriminate)) as (p & Hp & Hs).
  exists p. split; [exact Hp|]. rewrite Hs. vm_compute. reflexivity.
Defined.
