(* ===== verification/ShellCmd.v ===== *)
(** * The cmd.exe tokenizer (lib/policy/shell_parser_cmd.c) *)

From S2P Require Import Prelude CString ShellBase ShellLex ShellPosix.
Local Open Scope bool_scope.
Local Open Scope char_scope.

Definition is_cmd_metachar (c : ascii) : bool :=
  Ascii.eqb c "&" || Ascii.eqb c "|" || Ascii.eqb c "<" || Ascii.eqb c ">" ||
  Ascii.eqb c "^" || Ascii.eqb c "%".

Definition CMD_DANGEROUS_PATTERNS : list cstr :=
  [cs "format "; cs "del /s"; cs "del /q"; cs "rd /s"; cs "rmdir /s"; cs "diskpart";
   cs "bcdedit"; cs "reg delete"; cs "powershell"; cs "pwsh"].

Definition cmd_command_is_dangerous (command : cstr) : bool :=
  match command with
  | [] => false
  | _ => any_in (lower command) CMD_DANGEROUS_PATTERNS
  end.

Definition cmd_meta_flags (c next : ascii) (s : LexState) : LexState :=
  if Ascii.eqb c "&" then or_chain true s
  else if Ascii.eqb c "|" then
    if Ascii.eqb next "|" then or_chain true s else or_pipe true s
  else if Ascii.eqb c "<" || Ascii.eqb c ">" then or_redirect true s
  else if Ascii.eqb c "^" then or_chain true s
  else if Ascii.eqb c "%" then or_subshell true s
  else s.

Definition cmd_step : StepFun := fun s c p =>
  let next := peek p in
  let s := or_chain (non_ascii c) s in
  if Ascii.eqb c DQ then ((toggle_double s, None), false)
  else if in_double_quote s then
    ((push c (if Ascii.eqb c "%" then or_subshell true s else s), None), false)
  else if isspace c then (flush_word s, false)
  else if is_cmd_metachar c then
    (flush (cmd_meta_flags c next s),
     (Ascii.eqb c "&" && Ascii.eqb next "&") || (Ascii.eqb c "|" && Ascii.eqb next "|") ||
     (Ascii.eqb c ">" && Ascii.eqb next ">") || Ascii.eqb c "^")
  else ((push c s, None), false).

Definition parse_cmd_shell (command : cstr) : option ParsedShellCommand :=
  let dangerous := shell_command_is_dangerous command || cmd_command_is_dangerous command in
  match command with
  | [] => Some (mkParsed [] false false false false dangerous SHELL_TYPE_CMD)
  | _ => lex_parse cmd_step dangerous SHELL_TYPE_CMD command
  end.

(** ** What the tokenizer must refuse *)

(** cmd.exe has double quotes only: the first component never changes. *)
Definition cmd_qstep (q : Quotes) (c next : ascii) : Quotes :=
  let '(sq, dq) := q in (sq, if Ascii.eqb c DQ then negb dq else dq).

(** Percent expansion works inside quotes; the other operators do not. *)
Definition cmd_refused (q : Quotes) (c next : ascii) : bool :=
  non_ascii c || Ascii.eqb c "%" ||
  (negb q.2 && (Ascii.eqb c "&" || Ascii.eqb c "|" || Ascii.eqb c "<" ||
                Ascii.eqb c ">" || Ascii.eqb c "^")).

Definition cmd_dangerous (command : cstr) : bool :=
  shell_command_is_dangerous command || cmd_command_is_dangerous command.

Definition cmd_matchable (command : cstr) : bool :=
  clean cmd_qstep cmd_refused (false, false) command &&
  negb (context_of cmd_qstep (false, false) command).2 &&
  negb (cmd_dangerous command).

(** ** The step function obeys the specification *)

Lemma cmd_refused_law s c p :
  unsafe (cmd_step s c p).1.1 = unsafe s || cmd_refused (quotes_of s) c (peek p).
Proof.
  unfold cmd_step, cmd_refused, cmd_meta_flags, is_cmd_metachar, quotes_of.
  generalize (peek p); intros next. cbn [snd].
  change (in_double_quote (or_chain (non_ascii c) s)) with (in_double_quote s).
  destruct (in_double_quote s); cbn [orb andb negb];
    split_ifs; cbn [fst snd]; autorewrite with lex;
    destruct (unsafe s); cbn [orb]; try done;
    destruct (non_ascii c) eqn:?; cbn [orb]; try done;
    char_cases c; next_cases.
Qed.

Lemma cmd_step_ctx s c p :
  cmd_refused (quotes_of s) c (peek p) = false ->
  (cmd_step s c p).2 = false /\
  quotes_of (cmd_step s c p).1.1 = cmd_qstep (quotes_of s) c (peek p).
Proof.
  unfold cmd_step, cmd_refused, cmd_meta_flags, is_cmd_metachar, cmd_qstep, quotes_of.
  generalize (peek p); intros next.
  change (in_double_quote (or_chain (non_ascii c) s)) with (in_double_quote s).
  destruct s as [bu sq dq hq ex fc fp fs fr]; cbn [in_single_quote in_double_quote].
  unfold flush, flush_word.
  destruct dq; cbn [orb andb negb fst snd];
    intros H; apply orb_false_iff in H as [H ?];
    split_ifs; cbn [fst snd in_single_quote in_double_quote]; char_cases c; next_cases.
Qed.

#[export] Instance cmd_lexer : Lexer cmd_step quotes_of cmd_qstep cmd_refused.
Proof.
  split.
  - exact cmd_refused_law.
  - intros s c p Hu _. rewrite cmd_refused_law in Hu.
    apply orb_false_iff in Hu as [_ Hr]. by apply cmd_step_ctx.
  - intros s c d p Hu Hskip. rewrite cmd_refused_law in Hu.
    apply orb_false_iff in Hu as [_ Hr]. apply cmd_step_ctx in Hr as [? _]. congruence.
  - intros s c Hu. rewrite cmd_refused_law in Hu.
    apply orb_false_iff in Hu as [_ Hr]. by apply cmd_step_ctx in Hr as [? _].
Qed.

Lemma cmd_context_single q command : (context_of cmd_qstep q command).1 = q.1.
Proof.
  unfold context_of. revert q. induction command as [|c command IH]; intros [sq dq]; [done|].
  simpl. by rewrite IH.
Qed.

Lemma cmd_safe_exact' command :
  (Z.of_nat (length command) <= MAX_COMMAND_LENGTH)%Z ->
  exists p, parse_cmd_shell command = Some p /\
    shell_command_is_safe_for_matching p = cmd_matchable command.
Proof.
  intros Hlen. unfold parse_cmd_shell.
  destruct command as [|c command]; [by eexists|].
  rewrite lex_parse_pure by exact (accepted_length _ Hlen).
  eexists. split; [done|].
  rewrite (pure_parse_safe (L := cmd_lexer) (fun q => q.1 || q.2)) by (intros; reflexivity).
  unfold cmd_matchable, cmd_dangerous. change (quotes_of lex_init) with (false, false).
  by rewrite cmd_context_single.
Qed.

(** ** Properties *)

(** The cmd.exe parser succeeds on accepted lengths and declares a command
    safe exactly when it holds no percent sign and no non-ASCII character
    anywhere, no operator outside double quotes, balanced quotes, and no
    dangerous pattern. *)
Theorem cmd_safe_exact command :
  (Z.of_nat (length command) <= MAX_COMMAND_LENGTH)%Z ->
  exists p, parse_cmd_shell command = Some p /\
    shell_command_is_safe_for_matching p = cmd_matchable command.
Proof. apply cmd_safe_exact'. Qed.

Lemma cmd_safe_exact_witness :
  exists p, parse_cmd_shell (cs "echo %PATH%") = Some p /\
    shell_command_is_safe_for_matching p = false.
Proof.
  destruct (cmd_safe_exact (cs "echo %PATH%") ltac:(vm_compute; discriminate)) as (p & Hp & Hs).
  exists p. split; [exact Hp|]. rewrite Hs. vm_compute. reflexivity.
Defined.
