(* ===== verification/ShellPs.v ===== *)
(** * The PowerShell tokenizer (lib/policy/shell_parser_ps.c) *)

From S2P Require Import Prelude CString ShellBase ShellLex ShellPosix.
Local Open Scope bool_scope.
Local Open Scope char_scope.

Definition is_ps_metachar (c : ascii) : bool :=
  Ascii.eqb c ";" || Ascii.eqb c "|" || Ascii.eqb c "&" || Ascii.eqb c "(" ||
  Ascii.eqb c ")" || Ascii.eqb c "{" || Ascii.eqb c "}" || Ascii.eqb c "$" ||
  Ascii.eqb c "`" || Ascii.eqb c ">" || Ascii.eqb c "<".

Definition ps_meta_flags (c next : ascii) (s : LexState) : LexState :=
  if Ascii.eqb c ";" then or_chain true s
  else if Ascii.eqb c "|" then
    if Ascii.eqb next "|" then or_chain true s else or_pipe true s
  else if Ascii.eqb c "&" then or_chain true s
  else if Ascii.eqb c "$" then or_subshell true s
  else if Ascii.eqb c "{" || Ascii.eqb c "}" then or_subshell true s
  else if Ascii.eqb c "(" || Ascii.eqb c ")" then or_subshell true s
  else if Ascii.eqb c ">" || Ascii.eqb c "<" then or_redirect true s
  else s.

Definition TAB : ascii := "009".

Definition ps_step : StepFun := fun s c p =>
  let next := peek p in
  let s := or_chain (non_ascii c) s in
  if Ascii.eqb c SQ && negb (in_double_quote s) then
    ((set_expr_start false (toggle_single s), None), false)
  else if Ascii.eqb c DQ && negb (in_single_quote s) then
    ((set_expr_start false (toggle_double s), None), false)
  else if in_single_quote s then ((push c s, None), false)
  else if in_double_quote s then
    if Ascii.eqb c "`" && negb (Ascii.eqb next NUL) then ((push next s, None), true)
    else ((push c (if Ascii.eqb c "$" then or_subshell true s else s), None), false)
  else if isspace c then
    ((set_expr_start true (flush_word s).1, (flush_word s).2), false)
  else if Ascii.eqb c "`" then
    let s := or_chain true s in
    if negb (Ascii.eqb next NUL)
    then ((set_expr_start false (push next s), None), true)
    else ((set_expr_start false s, None), false)
  else if Ascii.eqb c "&" && Ascii.eqb next "&" then
    let r := flush (or_chain true s) in ((set_expr_start true r.1, r.2), true)
  else if Ascii.eqb c "&" && expr_start s then
    (flush (or_subshell true s), false)
  else if Ascii.eqb c "." && expr_start s && (Ascii.eqb next " " || Ascii.eqb next TAB) then
    (flush (or_subshell true s), false)
  else if is_ps_metachar c then
    (flush (ps_meta_flags c next (set_expr_start false s)),
     (Ascii.eqb c "&" && Ascii.eqb next "&") || (Ascii.eqb c "|" && Ascii.eqb next "|") ||
     (Ascii.eqb c ">" && Ascii.eqb next ">"))
  else ((set_expr_start false (push c s), None), false).

Definition parse_powershell (command : cstr) : option ParsedShellCommand :=
  let dangerous := shell_command_is_dangerous command ||
                   powershell_command_is_dangerous command in
  match command with
  | [] => Some (mkParsed [] false false false false dangerous SHELL_TYPE_POWERSHELL)
  | _ => lex_parse ps_step dangerous SHELL_TYPE_POWERSHELL command
  end.

(** ** What the tokenizer must refuse *)

(** Quotes, whether the character is escaped by a backtick inside double
    quotes, and whether an expression starts here. *)
Record PsContext := mkPs { ps_sq : bool; ps_dq : bool; ps_escaped : bool; ps_expr : bool }.

Definition ps_ctx (s : LexState) : PsContext :=
  mkPs (in_single_quote s) (in_double_quote s) false (expr_start s).

Definition ps_qstep (q : PsContext) (c next : ascii) : PsContext :=
  if ps_escaped q then mkPs (ps_sq q) (ps_dq q) false (ps_expr q)
  else if Ascii.eqb c SQ && negb (ps_dq q) then mkPs (negb (ps_sq q)) (ps_dq q) false false
  else if Ascii.eqb c DQ && negb (ps_sq q) then mkPs (ps_sq q) (negb (ps_dq q)) false false
  else if ps_sq q then q
  else if ps_dq q then
    mkPs (ps_sq q) (ps_dq q) (Ascii.eqb c "`" && negb (Ascii.eqb next NUL)) (ps_expr q)
  else mkPs (ps_sq q) (ps_dq q) false (isspace c).

(** Variable expansion is live inside double quotes unless escaped; a dot at
    the start of an expression is the source operator when a blank follows. *)
Definition ps_refused (q : PsContext) (c next : ascii) : bool :=
  if ps_escaped q then false
  else
    non_ascii c ||
    (negb (ps_sq q) && ps_dq q && Ascii.eqb c "$") ||
    (negb (ps_sq q) && negb (ps_dq q) &&
     (is_ps_metachar c ||
      (Ascii.eqb c "." && ps_expr q && (Ascii.eqb next " " || Ascii.eqb next TAB)))).

Definition ps_dangerous (command : cstr) : bool :=
  shell_command_is_dangerous command || powershell_command_is_dangerous command.

Definition ps_matchable (command : cstr) : bool :=
  clean ps_qstep ps_refused (mkPs false false false true) command &&
  (let q := context_of ps_qstep (mkPs false false false true) command in
   negb (ps_sq q || ps_dq q)) &&
  negb (ps_dangerous command).

(** ** The step function obeys the specification *)

Lemma ps_refused_law s c p :
  unsafe (ps_step s c p).1.1 = unsafe s || ps_refused (ps_ctx s) c (peek p).
Proof.
  unfold ps_step, ps_refused, ps_meta_flags, is_ps_metachar, ps_ctx.
  generalize (peek p); intros next. cbn [ps_sq ps_dq ps_escaped ps_expr].
  change (in_single_quote (or_chain (non_ascii c) s)) with (in_single_quote s).
  change (in_double_quote (or_chain (non_ascii c) s)) with (in_double_quote s).
  change (expr_start (or_chain (non_ascii c) s)) with (expr_start s).
  destruct (in_single_quote s), (in_double_quote s); cbn [orb andb negb];
    split_ifs; cbn [fst snd]; autorewrite with lex;
    destruct (unsafe s); cbn [orb]; try done;
    destruct (non_ascii c) eqn:?; cbn [orb]; try done;
    char_cases c; next_cases.
Qed.

Lemma ps_step_ctx s c p :
  ps_refused (ps_ctx s) c (peek p) = false ->
  if (ps_step s c p).2
  then c = "`" /\ in_double_quote s = true /\ in_single_quote s = false /\ peek p <> NUL /\
       ps_ctx (ps_step s c p).1.1 = ps_ctx s
  else ps_ctx (ps_step s c p).1.1 = ps_qstep (ps_ctx s) c (peek p).
Proof.
  unfold ps_step, ps_refused, ps_meta_flags, is_ps_metachar, ps_ctx, ps_qstep.
  generalize (peek p); intros next. cbn [ps_sq ps_dq ps_escaped ps_expr].
  change (in_single_quote (or_chain (non_ascii c) s)) with (in_single_quote s).
  change (in_double_quote (or_chain (non_ascii c) s)) with (in_double_quote s).
  change (expr_start (or_chain (non_ascii c) s)) with (expr_start s).
  destruct s as [bu sq dq hq ex fc fp fs fr]; cbn [in_single_quote in_double_quote expr_start].
  unfold flush, flush_word. destruct (Ascii.eqb_spec next NUL) as [->|Hnul];
  destruct sq, dq; cbn [orb andb negb fst snd];
    intros H; repeat (apply orb_false_iff in H as [H ?]);
    split_ifs; cbn [fst snd in_single_quote in_double_quote]; char_cases c; next_cases;
    by split_and!.
Qed.

#[export] Instance ps_lexer : Lexer ps_step ps_ctx ps_qstep ps_refused.
Proof.
  split.
  - exact ps_refused_law.
  - intros s c p Hu Hskip. rewrite ps_refused_law in Hu.
    apply orb_false_iff in Hu as [_ Hr]. apply ps_step_ctx in Hr. by rewrite Hskip in Hr.
  - intros s c d p Hu Hskip. rewrite ps_refused_law in Hu.
    apply orb_false_iff in Hu as [_ Hr]. apply ps_step_ctx in Hr. rewrite Hskip in Hr.
    destruct Hr as (-> & Hdq & Hsq & Hd & ->). simpl in Hd.
    apply ascii_eqb_false in Hd. unfold ps_qstep, ps_refused, ps_ctx.
    rewrite Hdq, Hsq. simpl. by rewrite Hd.
  - intros s c Hu. rewrite ps_refused_law in Hu.
    apply orb_false_iff in Hu as [_ Hr]. apply ps_step_ctx in Hr.
    destruct (ps_step s c []).2; naive_solver.
Qed.

Lemma ps_safe_exact' command :
  (Z.of_nat (length command) <= MAX_COMMAND_LENGTH)%Z ->
  exists p, parse_powershell command = Some p /\
    shell_command_is_safe_for_matching p = ps_matchable command.
Proof.
  intros Hlen. unfold parse_powershell.
  destruct command as [|c command]; [by eexists|].
  rewrite lex_parse_pure by exact (accepted_length _ Hlen).
  eexists. split; [done|].
  by rewrite (pure_parse_safe (L := ps_lexer) (fun q => ps_sq q || ps_dq q))
    by (intros; reflexivity).
Qed.

(** ** Properties *)

(** The PowerShell parser succeeds on accepted lengths and declares a
    command safe exactly when it holds no metacharacter, dot-source or
    non-ASCII character outside quotes, no unescaped variable expansion inside
    double quotes, balanced quotes, and no dangerous pattern. *)
Theorem ps_safe_exact command :
  (Z.of_nat (length command) <= MAX_COMMAND_LENGTH)%Z ->
  exists p, parse_powershell command = Some p /\
    shell_command_is_safe_for_matching p = ps_matchable command.
Proof. apply ps_safe_exact'. Qed.

Lemma ps_safe_exact_witness :
  exists p, parse_powershell (cs "ls ; & calc") = Some p /\
    shell_command_is_safe_for_matching p = false.
Proof.
  destruct (ps_safe_exact (cs "ls ; & calc") ltac:(vm_compute; discriminate)) as (p & Hp & Hs).
  exists p. split; [exact Hp|]. rewrite Hs. vm_compute. reflexivity.
Defined.
