(* ===== verification/ShellParser.v ===== *)
(** * Parsing a shell command (lib/policy/shell_parser.c, dispatch)

    The entry points that choose a tokenizer, and the properties of parsed
    commands that hold for all of them. *)

From S2P Require Import Prelude CString ShellBase ShellLex ShellPosix ShellCmd ShellPs.
Local Open Scope bool_scope.

Definition parse_shell_command_for_type (command : cstr) (type : ShellType)
    : option ParsedShellCommand :=
  if (MAX_COMMAND_LENGTH <? Z.of_nat (length command))%Z then None
  else match type with
       | SHELL_TYPE_CMD => parse_cmd_shell command
       | SHELL_TYPE_POWERSHELL => parse_powershell command
       | SHELL_TYPE_POSIX | SHELL_TYPE_UNKNOWN => parse_posix_shell command
       end.

Definition parse_shell_command (env_SHELL : option cstr) (command : cstr)
    : option ParsedShellCommand :=
  parse_shell_command_for_type command (detect_shell_type env_SHELL).

(** ** The specification of all three tokenizers *)

Definition matchable (type : ShellType) (command : cstr) : bool :=
  match type with
  | SHELL_TYPE_CMD => cmd_matchable command
  | SHELL_TYPE_POWERSHELL => ps_matchable command
  | SHELL_TYPE_POSIX | SHELL_TYPE_UNKNOWN => posix_matchable command
  end.

Lemma parse_for_type_safe command type p :
  parse_shell_command_for_type command type = Some p ->
  shell_command_is_safe_for_matching p = matchable type command.
Proof.
  unfold parse_shell_command_for_type, matchable.
  destruct (Z.ltb_spec MAX_COMMAND_LENGTH (Z.of_nat (length command))) as [|Hlen]; [done|].
  intros Hp. destruct type;
    [destruct (posix_safe_exact' command Hlen) as (p' & Hp' & Hs)
    |destruct (cmd_safe_exact' command Hlen) as (p' & Hp' & Hs)
    |destruct (ps_safe_exact' command Hlen) as (p' & Hp' & Hs)
    |destruct (posix_safe_exact' command Hlen) as (p' & Hp' & Hs)]; congruence.
Qed.

Lemma parse_for_type_total command type :
  (Z.of_nat (length command) <= MAX_COMMAND_LENGTH)%Z <->
  is_Some (parse_shell_command_for_type command type).
Proof.
  unfold parse_shell_command_for_type.
  destruct (Z.ltb_spec MAX_COMMAND_LENGTH (Z.of_nat (length command))) as [|Hlen].
  - split; [lia|by intros []].
  - split; [intros _|done].
    destruct type;
      [destruct (posix_safe_exact' command Hlen) as (p' & -> & _)
      |destruct (cmd_safe_exact' command Hlen) as (p' & -> & _)
      |destruct (ps_safe_exact' command Hlen) as (p' & -> & _)
      |destruct (posix_safe_exact' command Hlen) as (p' & -> & _)]; done.
Qed.

(** ** Prefix matching *)

Lemma tokens_match_true toks prefix :
  tokens_match toks prefix = true <-> exists rest, toks = prefix ++ rest.
Proof.
  revert toks; induction prefix as [|x prefix IH]; intros toks; simpl.
  - split; [by exists toks|done].
  - destruct toks as [|t toks]; [split; [done|by intros [? ?]]|].
    rewrite andb_true_iff, IH, streq_true. naive_solver.
Qed.

Lemma matches_prefix_true p prefix :
  shell_command_matches_prefix p prefix = true <->
  prefix <> [] /\ shell_command_is_safe_for_matching p = true /\
  exists rest, tokens p = prefix ++ rest.
Proof.
  unfold shell_command_matches_prefix, shell_command_is_safe_for_matching, token_count.
  destruct prefix as [|x prefix]; [naive_solver|].
  destruct (has_chain p || has_pipe p || has_subshell p || has_redirect p);
    cbn [orb negb]; [naive_solver|].
  destruct (is_dangerous p); cbn [negb]; [naive_solver|].
  rewrite <- tokens_match_true.
  destruct (Nat.ltb_spec (length (tokens p)) (length (x :: prefix))) as [Hlt|Hge].
  - split; [done|]. intros (_ & _ & (rest & Hr)%tokens_match_true).
    rewrite Hr in Hlt. rewrite length_app in Hlt. lia.
  - split; [by intros H|by intros (_ & _ & H)].
Qed.

(** ** Token sizes *)

(** Each iteration moves at most one character to the buffer or the tokens. *)
Lemma flush_size s : length (buf (flush s).1) + length (concat (opt_list (flush s).2)) = length (buf s).
Proof. unfold flush. destruct (buf s) eqn:E; simpl; rewrite ?E, ?app_nil_r; simpl; lia. Qed.

Lemma flush_word_size s :
  length (buf (flush_word s).1) + length (concat (opt_list (flush_word s).2)) = length (buf s).
Proof.
  unfold flush_word. destruct (buf s) eqn:E, (had_quotes s); simpl; rewrite ?E, ?app_nil_r; simpl; lia.
Qed.

Lemma buf_push c s : length (buf (push c s)) = S (length (buf s)).
Proof. simpl. rewrite length_app. simpl. lia. Qed.

Ltac step_size :=
  repeat match goal with
  | |- context [flush ?s] => pose proof (flush_size s); generalize dependent (flush s); intros
  | |- context [flush_word ?s] =>
      pose proof (flush_word_size s); generalize dependent (flush_word s); intros
  end; cbn -[push] in *; rewrite ?buf_push in *; cbn -[push] in *; lia.

Definition step_bounded (step : StepFun) : Prop := forall s c p,
  length (buf (step s c p).1.1) + length (concat (opt_list (step s c p).1.2)) <=
  S (length (buf s)).

Lemma posix_step_bounded : step_bounded posix_step.
Proof. intros s c p. unfold posix_step, posix_meta_flags. split_ifs; cbn [fst snd]; step_size. Qed.

Lemma cmd_step_bounded : step_bounded cmd_step.
Proof. intros s c p. unfold cmd_step, cmd_meta_flags. split_ifs; cbn [fst snd]; step_size. Qed.

Lemma ps_step_bounded : step_bounded ps_step.
Proof. intros s c p. unfold ps_step, ps_meta_flags. split_ifs; cbn [fst snd]; step_size. Qed.

(** The step function of each tokenizer. *)
Definition step_of (type : ShellType) : StepFun :=
  match type with
  | SHELL_TYPE_CMD => cmd_step
  | SHELL_TYPE_POWERSHELL => ps_step
  | SHELL_TYPE_POSIX | SHELL_TYPE_UNKNOWN => posix_step
  end.

Lemma step_of_bounded type : step_bounded (step_of type).
Proof.
  destruct type; [apply posix_step_bounded|apply cmd_step_bounded|apply ps_step_bounded|
                  apply posix_step_bounded].
Qed.

(** One iteration of the loop as a transition: state, tokens so far, text left. *)
Inductive lex_iter (step : StepFun) :
    LexState * list cstr * cstr -> LexState * list cstr * cstr -> Prop :=
| iter_one s ts c p s' t :
    step s c p = ((s', t), false) -> lex_iter step (s, ts, c :: p) (s', ts ++ opt_list t, p)
| iter_two s ts c d p s' t :
    step s c (d :: p) = ((s', t), true) ->
    lex_iter step (s, ts, c :: d :: p) (s', ts ++ opt_list t, p)
| iter_end s ts c s' t :
    step s c [] = ((s', t), true) -> lex_iter step (s, ts, [c]) (s', ts ++ opt_list t, []).

Definition lex_reachable (type : ShellType) (command : cstr) : LexState * list cstr * cstr -> Prop :=
  rtc (lex_iter (step_of type)) (lex_init, [], command).

(** The buffer, the finished tokens and the text left never exceed the command. *)
Definition within (n : nat) (x : LexState * list cstr * cstr) : Prop :=
  length (buf x.1.1) + length (concat x.1.2) + length x.2 <= n.

Lemma lex_iter_within step n x y :
  step_bounded step -> lex_iter step x y -> within n x -> within n y.
Proof.
  unfold within. intros Hb Hi; inversion Hi as [s ts c p s' t E|s ts c d p s' t E|s ts c s' t E];
    subst; cbn [fst snd length]; rewrite ?concat_app, ?length_app;
    [pose proof (Hb s c p) as H|pose proof (Hb s c (d :: p)) as H|pose proof (Hb s c []) as H];
    rewrite E in H; cbn [fst snd] in H; lia.
Qed.

Lemma lex_pure_reaches step p s ts :
  exists s' ts', lex_pure step s ts p = (s', ts') /\ rtc (lex_iter step) (s, ts, p) (s', ts', []).
Proof.
  revert s ts. induction p as [|c|c d p IH IH2] using text_ind; intros s ts.
  - by exists s, ts.
  - simpl. destruct (step s c []) as [[s' t] skip] eqn:E. exists s', (ts ++ opt_list t).
    destruct skip; (split; [done|]); apply rtc_once; by constructor.
  - remember (d :: p) as q eqn:Hq. simpl. destruct (step s c q) as [[s' t] skip] eqn:E. subst q.
    destruct skip.
    + destruct (IH s' (ts ++ opt_list t)) as (s2 & ts2 & -> & Hr). exists s2, ts2.
      split; [done|]. eapply rtc_l; [by apply iter_two|done].
    + destruct (IH2 s' (ts ++ opt_list t)) as (s2 & ts2 & -> & Hr). exists s2, ts2.
      split; [done|]. eapply rtc_l; [by apply iter_one|done].
Qed.

(** ** Properties *)

(** The token buffer of strlen(command) + 1 bytes is never overrun: in
    every state the loop reaches, the characters in the buffer, those in
    finished tokens and those still to read add up to at most the length of
    the command, for all three tokenizers; and the loop does reach the end. *)
Theorem token_buffer_in_bounds type command :
  (forall s ts rest, lex_reachable type command (s, ts, rest) ->
     length (buf s) + length (concat ts) + length rest <= length command) /\
  (exists s ts, lex_reachable type command (s, ts, []) /\
     lex_pure (step_of type) lex_init [] command = (s, ts)).
Proof.
  split.
  - intros s ts rest Hr. apply (rtc_ind_r (within (length command)) _) in Hr; [done|by unfold within|].
    intros y z _ Hi Hy. by apply (lex_iter_within (step_of type) _ y z (step_of_bounded type)).
  - destruct (lex_pure_reaches (step_of type) command lex_init []) as (s & ts & ? & ?). eauto.
Qed.

(** C19: The tokenizers accept exactly the commands within the length limit, and the
    verdict that decides whether an allowlist may speak is exact: for the shell chosen,
    the parsed command is safe for matching exactly when its text is [matchable], by a
    specification over characters for each of the three syntaxes. For POSIX this means:
    only ASCII, no ; | & ( ) < > ` and no $ with an opening parenthesis outside quotes,
    no backslash outside single quotes, no $ before a single quote, both quotes closed,
    no dangerous pattern. For cmd.exe: only ASCII, no percent sign, no & | < > ^ outside
    double quotes, which are closed, no dangerous pattern. For PowerShell, a backtick
    in double quotes escaping one character: only ASCII, none of ; | & ( ) { } $ ` > <
    and no dot that starts an expression and is followed by a blank outside quotes, no
    $ inside double quotes, quotes closed, no dangerous pattern. What this
    leaves out is safe for the code although a POSIX shell expands it: a substitution
    inside double quotes, a variable, a second line ([expansions_left_out]). *)
Theorem tokenizers_exact type command :
  ((Z.of_nat (length command) <= MAX_COMMAND_LENGTH)%Z <-> is_Some (parse_shell_command_for_type command type)) /\
  forall p, parse_shell_command_for_type command type = Some p ->
    shell_command_is_safe_for_matching p = matchable type command.
Proof. split; [apply parse_for_type_total|apply parse_for_type_safe]. Qed.

(** Three commands in which a POSIX shell expands something or runs a second command. *)
Example expansions_left_out :
  map (fun command => shell_command_is_safe_for_matching <$> parse_shell_command_for_type command SHELL_TYPE_POSIX)
    [cs "echo " ++ DQ :: cs "$(cmd)" ++ [DQ]; cs "ls $HOME"; cs "ls" ++ "010"%char :: cs "cmd"] =
  [Some true; Some true; Some true].
Proof. vm_compute. reflexivity. Qed.

(** An allowlist prefix matches a parsed command exactly when the prefix
    is not empty, the text of the command is matchable for its shell (no live
    operator, expansion, escape, unbalanced quote or dangerous pattern), and
    the prefix is an initial segment of the tokens. *)
Theorem matches_prefix_exact type command p prefix :
  parse_shell_command_for_type command type = Some p ->
  shell_command_matches_prefix p prefix = true <->
  prefix <> [] /\ matchable type command = true /\ exists rest, tokens p = prefix ++ rest.
Proof.
  intros Hp. rewrite matches_prefix_true. by rewrite (parse_for_type_safe command type p Hp).
Qed.

Definition sample_command : cstr := cs "git status -s".
Definition sample_parsed : ParsedShellCommand :=
  mkParsed [cs "git"; cs "status"; cs "-s"] false false false false false SHELL_TYPE_POSIX.

Lemma matches_prefix_exact_witness :
  parse_shell_command_for_type sample_command SHELL_TYPE_POSIX = Some sample_parsed /\
  shell_command_matches_prefix sample_parsed [cs "git"; cs "status"] = true.
Proof.
  assert (parse_shell_command_for_type sample_command SHELL_TYPE_POSIX = Some sample_parsed)
    as Hp by (vm_compute; reflexivity).
  split; [exact Hp|].
  apply (matches_prefix_exact SHELL_TYPE_POSIX sample_command sample_parsed _ Hp).
  split; [discriminate|]. split; [vm_compute; reflexivity|].
  exists [cs "-s"]. reflexivity.
Defined.
