(* ===== verification/Allowlist.v ===== *)
(** * The allowlist module (lib/policy/allowlist.c)

    Two dynamic arrays, one of compiled regular expressions and one of shell
    command prefixes, over the regular-expression interface. *)

From S2P Require Import Prelude CString Regex Darray ShellBase ShellParser.
Local Open Scope bool_scope.

Inductive AllowlistMatchResult := ALLOWLIST_NO_MATCH | ALLOWLIST_MATCHED.

Section Allowlist.
Context {R : Regex}.

Record RegexEntry := mkRegexEntry {
  re_tool : cstr;
  re_pattern : cstr;
  re_compiled : regex_t;
  re_valid : bool
}.

Record ShellEntry := mkShellEntry {
  se_prefix : list cstr;
  se_shell_type : ShellType
}.

Record Allowlist := mkAllowlist {
  regex_entries : darray RegexEntry;
  shell_entries : darray ShellEntry
}.

(** [ok1], [ok2]: the allocations of the two arrays. *)
Definition allowlist_create (ok1 ok2 : bool) : option Allowlist :=
  r ← da_init ok1; s ← da_init ok2; Some (mkAllowlist r s).

(** [dup_ok]: both string copies succeed; [grow_ok]: the array can grow. *)
Definition allowlist_add_regex (dup_ok grow_ok : bool) (al : Allowlist)
    (tool pattern : cstr) : Allowlist * Z :=
  if negb dup_ok then (al, -1)%Z
  else match regcomp pattern with
       | None => (al, -1)%Z
       | Some r =>
           let '(a, rc) := da_push grow_ok (regex_entries al) (mkRegexEntry tool pattern r true) in
           if negb (rc =? 0)%Z then (al, -1)%Z else (mkAllowlist a (shell_entries al), 0%Z)
       end.

Definition allowlist_add_shell (dup_ok grow_ok : bool) (al : Allowlist)
    (prefix : list cstr) (ty : ShellType) : Allowlist * Z :=
  match prefix with
  | [] => (al, -1)%Z
  | _ =>
      if negb dup_ok then (al, -1)%Z
      else
        let '(a, rc) := da_push grow_ok (shell_entries al) (mkShellEntry prefix ty) in
        if negb (rc =? 0)%Z then (al, -1)%Z else (mkAllowlist (regex_entries al) a, 0%Z)
  end.

Fixpoint check_regex_loop (es : list RegexEntry) (tool target : cstr) : AllowlistMatchResult :=
  match es with
  | [] => ALLOWLIST_NO_MATCH
  | e :: es' =>
      if negb (re_valid e) then check_regex_loop es' tool target
      else if negb (streq (re_tool e) tool) then check_regex_loop es' tool target
      else if regexec (re_compiled e) target then ALLOWLIST_MATCHED
      else check_regex_loop es' tool target
  end.

Definition allowlist_check_regex (al : Allowlist) (tool target : cstr) : AllowlistMatchResult :=
  check_regex_loop (data (regex_entries al)) tool target.

Fixpoint check_shell_loop (es : list ShellEntry) (toks : list cstr) (ty : ShellType)
    : AllowlistMatchResult :=
  match es with
  | [] => ALLOWLIST_NO_MATCH
  | e :: es' =>
      if negb (bool_decide (se_shell_type e = SHELL_TYPE_UNKNOWN)) &&
         negb (bool_decide (se_shell_type e = ty))
      then check_shell_loop es' toks ty
      else if (length toks <? length (se_prefix e))%nat then check_shell_loop es' toks ty
      else if tokens_match toks (se_prefix e) then ALLOWLIST_MATCHED
      else check_shell_loop es' toks ty
  end.

Definition allowlist_check_shell (al : Allowlist) (toks : list cstr) (ty : ShellType)
    : AllowlistMatchResult :=
  match toks with
  | [] => ALLOWLIST_NO_MATCH
  | _ => check_shell_loop (data (shell_entries al)) toks ty
  end.

(** The [int] casts of the counts. *)
Definition allowlist_regex_count (al : Allowlist) : Z := wrap32 (da_count (regex_entries al)).
Definition allowlist_shell_count (al : Allowlist) : Z := wrap32 (da_count (shell_entries al)).

(** [while ((int)count > keep) count--] on the reversed elements; [None] is
    the underflow of the count below zero. *)
Fixpoint truncate_loop {A} (keep : Z) (rev_elems : list A) : option (list A) :=
  if (keep <? wrap32 (Z.of_nat (length rev_elems)))%Z
  then match rev_elems with [] => None | _ :: r => truncate_loop keep r end
  else Some rev_elems.

Definition truncate_array {A} (keep : Z) (arr : darray A) : option (darray A) :=
  r ← truncate_loop keep (rev (data arr)); Some (mkDarray (rev r) (da_capacity arr)).

Definition allowlist_clear_session (al : Allowlist) (keep_regex keep_shell : Z)
    : option Allowlist :=
  r ← truncate_array keep_regex (regex_entries al);
  s ← truncate_array keep_shell (shell_entries al);
  Some (mkAllowlist r s).

(** ** Lemmas *)

(** A disjunct that the loop skips never matches. *)
Lemma skip_head {A} (P : A -> Prop) (e : A) (es : list A) :
  ~ P e -> (exists e', e' ∈ es /\ P e') <-> (exists e', e' ∈ e :: es /\ P e').
Proof using Type.
  intros He. split.
  - intros (e' & Hin & HP). exists e'. split; [by right|done].
  - intros (e' & Hin & HP). apply elem_of_cons in Hin as [->|Hin]; [done|eauto].
Qed.

Definition regex_hit (tool target : cstr) (e : RegexEntry) : Prop :=
  re_valid e = true /\ re_tool e = tool /\ regexec (re_compiled e) target = true.

Definition shell_hit (toks : list cstr) (ty : ShellType) (e : ShellEntry) : Prop :=
  (se_shell_type e = SHELL_TYPE_UNKNOWN \/ se_shell_type e = ty) /\
  exists rest, toks = se_prefix e ++ rest.

Lemma check_regex_matched es tool target :
  check_regex_loop es tool target = ALLOWLIST_MATCHED <->
  exists e, e ∈ es /\ regex_hit tool target e.
Proof using Type.
  unfold regex_hit. induction es as [|e es IH]; simpl.
  { split; [done|]. intros (e & He & _). by apply elem_of_nil in He. }
  destruct (re_valid e) eqn:Hv; simpl; [|rewrite IH; apply skip_head; intros (? & ? & ?); congruence].
  destruct (streq_spec (re_tool e) tool); simpl; [|rewrite IH; apply skip_head; intros (? & ? & ?); congruence].
  destruct (regexec (re_compiled e) target) eqn:Hr; [|rewrite IH; apply skip_head; intros (? & ? & ?); congruence].
  - split; [intros _; exists e; split_and!; [left|..]|]; done.
Qed.

Lemma check_shell_matched es toks ty :
  check_shell_loop es toks ty = ALLOWLIST_MATCHED <->
  exists e, e ∈ es /\ shell_hit toks ty e.
Proof using Type.
  unfold shell_hit. induction es as [|e es IH]; simpl.
  { split; [done|]. intros (e & He & _). by apply elem_of_nil in He. }
  destruct (negb _ && negb _) eqn:Ht.
  { destr_bool. rewrite IH. apply skip_head. by intros [[?|?] _]. }
  assert (se_shell_type e = SHELL_TYPE_UNKNOWN \/ se_shell_type e = ty) as Hty.
  { apply andb_false_iff in Ht as [Ht|Ht]; destr_bool; auto. }
  destruct (Nat.ltb_spec (length toks) (length (se_prefix e))) as [Hlt|Hge].
  - rewrite IH. apply skip_head. intros (_ & rest & Hr).
    rewrite Hr, length_app in Hlt. lia.
  - destruct (tokens_match toks (se_prefix e)) eqn:Hm.
    + apply tokens_match_true in Hm. split; [intros _|done].
      exists e. split_and!; [left|done..].
    + rewrite IH. apply skip_head. intros [_ Hr].
      apply tokens_match_true in Hr. congruence.
Qed.

Lemma truncate_loop_le {A} (keep : Z) (r : list A) :
  (Z.of_nat (length r) <= keep < 2 ^ 31)%Z -> truncate_loop keep r = Some r.
Proof using Type.
  intros H. assert ((keep <? wrap32 (Z.of_nat (length r)))%Z = false) as E.
  { rewrite wrap32_small by lia. apply Z.ltb_ge. lia. }
  destruct r; cbn [truncate_loop]; by rewrite E.
Qed.

Lemma truncate_loop_app {A} (kept extra : list A) :
  (Z.of_nat (length (kept ++ extra)) < 2 ^ 31)%Z ->
  truncate_loop (Z.of_nat (length kept)) (rev (kept ++ extra)) = Some (rev kept).
Proof using Type.
  intros Hlen. rewrite rev_app_distr. rewrite length_app in Hlen.
  rewrite <- (length_rev extra) in Hlen.
  induction (rev extra) as [|x r IH]; cbn [app length] in *.
  - apply truncate_loop_le. rewrite length_rev. lia.
  - simpl. rewrite length_app, length_rev. rewrite wrap32_small by lia.
    destruct (Z.ltb_spec (Z.of_nat (length kept)) (Z.of_nat (S (length r + length kept)))); [|lia].
    apply IH. lia.
Qed.

Lemma truncate_array_app {A} (kept extra : list A) cap :
  (Z.of_nat (length (kept ++ extra)) < 2 ^ 31)%Z ->
  truncate_array (Z.of_nat (length kept)) (mkDarray (kept ++ extra) cap) =
  Some (mkDarray kept cap).
Proof using Type.
  intros H. unfold truncate_array. simpl. rewrite truncate_loop_app by done.
  simpl. by rewrite rev_involutive.
Qed.
(** *** Adding *)

Lemma da_room_data {A} ok (arr arr' : darray A) : da_room ok arr = Some arr' -> data arr' = data arr.
Proof using Type.
  unfold da_room, da_grow. repeat case_match; intros; simplify_eq/=; done.
Qed.

Lemma da_push_data {A} ok (arr : darray A) x :
  (da_push ok arr x).2 = 0%Z /\ data (da_push ok arr x).1 = data arr ++ [x] \/
  (da_push ok arr x).2 = (-1)%Z /\ (da_push ok arr x).1 = arr.
Proof using Type.
  unfold da_push. destruct (da_room ok arr) as [arr'|] eqn:E; [left|by right].
  apply da_room_data in E. simpl. by rewrite E.
Qed.

(** What one insertion does to the entries. *)
Lemma add_shell_entries d g al prefix ty :
  let '(al', rc) := allowlist_add_shell d g al prefix ty in
  rc = 0%Z /\ prefix <> [] /\ regex_entries al' = regex_entries al /\
    data (shell_entries al') = data (shell_entries al) ++ [mkShellEntry prefix ty] \/
  rc = (-1)%Z /\ al' = al.
Proof using Type.
  unfold allowlist_add_shell. destruct prefix as [|w ws]; [by right|].
  destruct d; simpl; [|by right].
  pose proof (da_push_data g (shell_entries al) (mkShellEntry (w :: ws) ty)) as H.
  destruct (da_push _ _ _) as [a rc]. simpl in H.
  destruct H as [[-> Ha]|[-> ->]]; simpl; [left|by right]. done.
Qed.

Lemma add_regex_entries d g al tool pattern :
  let '(al', rc) := allowlist_add_regex d g al tool pattern in
  (exists r, rc = 0%Z /\ regcomp pattern = Some r /\ shell_entries al' = shell_entries al /\
    data (regex_entries al') = data (regex_entries al) ++ [mkRegexEntry tool pattern r true]) \/
  rc = (-1)%Z /\ al' = al.
Proof using Type.
  unfold allowlist_add_regex. destruct d; simpl; [|by right].
  destruct (regcomp pattern) as [r|] eqn:Er; [|by right].
  pose proof (da_push_data g (regex_entries al) (mkRegexEntry tool pattern r true)) as H.
  destruct (da_push _ _ _) as [a rc]. simpl in H.
  destruct H as [[-> Ha]|[-> ->]]; simpl; [left|by right]. exists r. done.
Qed.

Lemma check_shell_spec al toks ty :
  allowlist_check_shell al toks ty = ALLOWLIST_MATCHED <->
  toks <> [] /\ exists e, e ∈ data (shell_entries al) /\ shell_hit toks ty e.
Proof using Type.
  unfold allowlist_check_shell. destruct toks; [by split; [|intros [? _]]|].
  rewrite check_shell_matched. split; [|by intros [_ ?]]. intros ?. split; done.
Qed.

Lemma check_regex_spec al tool target :
  allowlist_check_regex al tool target = ALLOWLIST_MATCHED <->
  exists e, e ∈ data (regex_entries al) /\ regex_hit tool target e.
Proof using Type. apply check_regex_matched. Qed.

(** Two allowlists with the same entries give the same answers. *)
Definition same_entries (al al' : Allowlist) : Prop :=
  data (regex_entries al) = data (regex_entries al') /\
  data (shell_entries al) = data (shell_entries al').

#[export] Instance same_entries_equiv : Equivalence same_entries.
Proof using Type. unfold same_entries. split; red; intuition congruence. Qed.

#[export] Instance check_shell_proper :
  Proper (same_entries ==> eq ==> eq ==> eq) allowlist_check_shell.
Proof using Type.
  intros al al' [_ H] toks ? <- ty ? <-. unfold allowlist_check_shell. by rewrite H.
Qed.

#[export] Instance check_regex_proper :
  Proper (same_entries ==> eq ==> eq ==> eq) allowlist_check_regex.
Proof using Type.
  intros al al' [H _] tool ? <- target ? <-. unfold allowlist_check_regex. by rewrite H.
Qed.

(** *** Sessions: any sequence of insertions *)

Inductive al_add :=
| AddRegex (d g : bool) (tool pattern : cstr)
| AddShell (d g : bool) (prefix : list cstr) (ty : ShellType).

Definition al_run1 (al : Allowlist) (a : al_add) : Allowlist :=
  match a with
  | AddRegex d g tool pattern => (allowlist_add_regex d g al tool pattern).1
  | AddShell d g prefix ty => (allowlist_add_shell d g al prefix ty).1
  end.

Definition al_run (al : Allowlist) (l : list al_add) : Allowlist := foldl al_run1 al l.

Lemma al_run_extends al l :
  exists rs ss, data (regex_entries (al_run al l)) = data (regex_entries al) ++ rs /\
                data (shell_entries (al_run al l)) = data (shell_entries al) ++ ss /\
                Forall (fun e => se_prefix e <> []) ss /\
                Forall (fun e => re_valid e = true /\ regcomp (re_pattern e) = Some (re_compiled e)) rs.
Proof using Type.
  revert al. induction l as [|a l IH]; intros al; cbn [al_run foldl].
  { exists [], []. rewrite !app_nil_r. done. }
  destruct (IH (al_run1 al a)) as (rs & ss & Hr & Hs & Hp & Hv). fold (al_run (al_run1 al a) l).
  destruct a as [d g tool pattern|d g prefix ty]; cbn [al_run1] in *.
  - pose proof (add_regex_entries d g al tool pattern) as H.
    destruct (allowlist_add_regex _ _ _ _ _) as [al' rc]; simpl in *.
    destruct H as [(r & _ & Hc & Hsh & Hre)|[_ ->]]; [|by eauto 10].
    exists (mkRegexEntry tool pattern r true :: rs), ss.
    rewrite Hr, Hs, Hre, Hsh, <- app_assoc. split_and!; [done..|]. by constructor.
  - pose proof (add_shell_entries d g al prefix ty) as H.
    destruct (allowlist_add_shell _ _ _ _ _) as [al' rc]; simpl in *.
    destruct H as [(_ & Hne & Hre & Hsh)|[_ ->]]; [|by eauto 10].
    exists rs, (mkShellEntry prefix ty :: ss).
    rewrite Hr, Hs, Hre, Hsh, <- app_assoc. split_and!; [done..| |done]. by constructor.
Qed.
End Allowlist.



(** ** Properties *)

(** Adding a shell prefix grants exactly the commands whose tokens extend
    it and whose shell fits, and nothing else: when the insertion succeeds the
    check accepts what it accepted before plus those commands, the regular
    expression checks are untouched, and when it fails (empty prefix, no
    memory) the allowlist is the one before. *)
Theorem add_shell_grants_exactly {R : Regex} d g al prefix ty toks ty' :
  let '(al', rc) := allowlist_add_shell d g al prefix ty in
  (rc = 0%Z /\ prefix <> [] /\
   (forall tool target, allowlist_check_regex al' tool target = allowlist_check_regex al tool target) /\
   (allowlist_check_shell al' toks ty' = ALLOWLIST_MATCHED <->
      allowlist_check_shell al toks ty' = ALLOWLIST_MATCHED \/
      (ty = SHELL_TYPE_UNKNOWN \/ ty = ty') /\ exists rest, toks = prefix ++ rest)) \/
  (rc = (-1)%Z /\ al' = al).
Proof.
  pose proof (add_shell_entries d g al prefix ty) as H.
  destruct (allowlist_add_shell d g al prefix ty) as [al' rc].
  destruct H as [(-> & Hne & Hre & Hsh)|[-> ->]]; [left|by right].
  split_and!; [done..| |].
  - intros tool target. unfold allowlist_check_regex. by rewrite Hre.
  - rewrite !check_shell_spec, Hsh. setoid_rewrite elem_of_app.
    setoid_rewrite list_elem_of_singleton. split.
    + intros (Ht & e & [He| ->] & Hh); [left; eauto|right; exact Hh].
    + intros [(Ht & e & He & Hh)|(Hty & rest & ->)]; [by eauto 10|]. split.
      * destruct prefix; [done|by simpl].
      * exists (mkShellEntry prefix ty). split; [by right|]. split; [done|by exists rest].
Qed.

(** Whatever a session adds to the allowlist, clearing it with the counts
    taken before the session gives back an allowlist that answers every shell
    and every regular expression check as the one before, without ever
    decrementing a count below zero. *)
Theorem clear_session_rolls_back {R : Regex} (al : Allowlist) (l : list al_add) :
  (allowlist_regex_count al = da_count (regex_entries al)) ->
  (allowlist_shell_count al = da_count (shell_entries al)) ->
  (da_count (regex_entries (al_run al l)) < 2 ^ 31)%Z ->
  (da_count (shell_entries (al_run al l)) < 2 ^ 31)%Z ->
  exists al', allowlist_clear_session (al_run al l) (allowlist_regex_count al)
                (allowlist_shell_count al) = Some al' /\
    (forall tool target, allowlist_check_regex al' tool target = allowlist_check_regex al tool target) /\
    (forall toks ty, allowlist_check_shell al' toks ty = allowlist_check_shell al toks ty).
Proof.
  intros -> ->. destruct (al_run_extends al l) as (rs & ss & Hr & Hs & _).
  unfold allowlist_clear_session, da_count.
  destruct (regex_entries (al_run al l)) as [rd rcap], (shell_entries (al_run al l)) as [sd scap].
  simpl in *. subst. intros H1 H2.
  rewrite (truncate_array_app _ rs rcap H1), (truncate_array_app _ ss scap H2). simpl.
  eexists. split; [done|].
  assert (same_entries (mkAllowlist (mkDarray (data (regex_entries al)) rcap)
            (mkDarray (data (shell_entries al)) scap)) al) as He by done.
  split; intros; by rewrite He.
Qed.

Lemma clear_session_rolls_back_witness :
  exists al', allowlist_clear_session (R := RefRegex)
    (al_run (mkAllowlist (mkDarray [] 8) (mkDarray [mkShellEntry [cs "ls"] SHELL_TYPE_UNKNOWN] 8))
       [AddShell true true [cs "rm"] SHELL_TYPE_UNKNOWN;
        AddRegex true true (cs "t") (cs "^a")]) 0 1 = Some al' /\
    allowlist_check_shell al' [cs "rm"] SHELL_TYPE_POSIX = ALLOWLIST_NO_MATCH.
Proof.
  destruct (clear_session_rolls_back (R := RefRegex)
    (mkAllowlist (mkDarray [] 8) (mkDarray [mkShellEntry [cs "ls"] SHELL_TYPE_UNKNOWN] 8))
    [AddShell true true [cs "rm"] SHELL_TYPE_UNKNOWN;
     AddRegex true true (cs "t") (cs "^a")]) as (al' & H & _ & Hs).
  - vm_compute. reflexivity.
  - vm_compute. reflexivity.
  - vm_compute. reflexivity.
  - vm_compute. reflexivity.
  - exists al'. split; [exact H|]. rewrite Hs. vm_compute. reflexivity.
Defined.
