(* ===== verification/PathNormalize.v ===== *)
(** * Path normalisation (lib/policy/path_normalize.c)

    The POSIX build of normalize_path and the basename comparisons. *)

From S2P Require Import Prelude CString.
Local Open Scope char_scope.
Local Open Scope bool_scope.

(** [basename] is the tail of [normalized] that it points into. *)
Record NormalizedPath := mkNormalizedPath {
  normalized : cstr;
  np_basename : cstr;
  is_absolute : bool
}.

(** [while (len > 1 && work[len-1] == '/') work[--len] = NUL], on the reversed
    string. *)
Fixpoint strip_rev (r : cstr) : cstr :=
  match r with
  | c :: (_ :: _) as r' => if Ascii.eqb c "/" then strip_rev r' else r
  | _ => r
  end.

Definition strip_trailing (work : cstr) : cstr := rev (strip_rev (rev work)).

(** The in-place copy loop: a slash followed by a slash is skipped. *)
Fixpoint collapse (src : cstr) : cstr :=
  match src with
  | [] => []
  | c :: t => if Ascii.eqb c "/" && Ascii.eqb (peek t) "/" then collapse t else c :: collapse t
  end.

Definition normalize_path (path : cstr) : option NormalizedPath :=
  match path with
  | [] => None
  | _ =>
      let work := path in
      let absolute := Ascii.eqb (peek work) "/" in
      let work := collapse (strip_trailing work) in
      let base := match strrchr work "/" with
                  | Some last_slash => tail last_slash
                  | None => work
                  end in
      Some (mkNormalizedPath work base absolute)
  end.

(** Whether the comparison returns zero. *)
Definition path_basename_cmp (a b : option cstr) : bool :=
  match a, b with
  | Some a, Some b => streq a b
  | None, None => true
  | _, _ => false
  end.

Definition path_basename_has_prefix (basename prefix : option cstr) : bool :=
  match basename, prefix with
  | Some b, Some p => match p with [] => true | _ => has_prefix p b end
  | _, _ => false
  end.

(** ** Lemmas *)

(** The components: the maximal slash-free pieces, empty ones dropped.
    [acc] is the current piece, reversed. *)
Fixpoint comps_acc (acc p : cstr) : list cstr :=
  match p with
  | [] => if acc is [] then [] else [rev acc]
  | c :: t => if Ascii.eqb c "/"
              then (if acc is [] then [] else [rev acc]) ++ comps_acc [] t
              else comps_acc (c :: acc) t
  end.

Definition components (p : cstr) : list cstr := comps_acc [] p.

Definition double_slash : cstr := ["/"; "/"].

Lemma strip_trailing_spec w :
  w <> [] -> exists n, w = strip_trailing w ++ repeat "/" n /\ strip_trailing w <> [] /\
    (strip_trailing w = ["/"] \/ forall u, strip_trailing w <> u ++ ["/"]).
Proof.
  intros Hw. unfold strip_trailing.
  assert (rev w <> []) as Hr.
  { intros E. apply Hw. rewrite <- (rev_involutive w), E. done. }
  assert (w = rev (rev w)) as Ew by (by rewrite rev_involutive).
  revert Ew Hr. generalize (rev w). intros r -> Hr. clear Hw.
  induction r as [|c r IH]; [done|]. destruct r as [|d r].
  - exists 0%nat. simpl. split_and!; [done..|].
    destruct (Ascii.eqb_spec c "/") as [->|Hne]; [by left|right].
    intros u E. by apply (app_inj_tail [] u) in E as [_ ->].
  - destruct (IH ltac:(done)) as (n & Hn & Hne & Hend).
    change (strip_rev (c :: d :: r)) with
      (if Ascii.eqb c "/" then strip_rev (d :: r) else c :: d :: r).
    destruct (Ascii.eqb_spec c "/") as [->|Hc].
    + exists (S n). split_and!; [|done..].
      change (rev ("/" :: d :: r)) with (rev (d :: r) ++ ["/"]).
      rewrite Hn at 1. rewrite <- app_assoc. f_equal. rewrite <- repeat_cons. done.
    + exists 0%nat. simpl. rewrite app_nil_r. split_and!; [done| |right].
      * by destruct (rev r ++ [d]).
      * intros u E. apply app_inj_tail in E as [_ ->]. done.
Qed.

Lemma collapse_no_double p : contains (collapse p) double_slash = false.
Proof.
  induction p as [|c p IH]; [done|]. cbn [collapse].
  destruct (Ascii.eqb c "/" && Ascii.eqb (peek p) "/") eqn:E; [done|].
  destruct (contains (c :: collapse p) double_slash) eqn:Hc; [|done].
  apply contains_true in Hc as ([|x a] & b & Hc); simplify_eq/=.
  - exfalso. destruct p as [|d p]; [done|]. simpl in *.
    destruct (Ascii.eqb_spec d "/") as [->|Hd]; [done|]. simpl in *. congruence.
  - assert (contains (collapse p) double_slash = true); [|congruence].
    apply contains_true. by exists a, b.
Qed.

Lemma collapse_peek p : peek (collapse p) = peek p.
Proof.
  induction p as [|c p IH]; [done|]. cbn [collapse].
  destruct (Ascii.eqb_spec c "/") as [->|]; simpl; [|done].
  destruct (Ascii.eqb_spec (peek p) "/") as [E|]; [|done]. congruence.
Qed.

Lemma collapse_nil p : collapse p = [] -> p = [].
Proof.
  induction p as [|c p IH]; [done|]. cbn [collapse].
  destruct (Ascii.eqb c "/" && Ascii.eqb (peek p) "/") eqn:E; [|done].
  intros H. rewrite (IH H) in E. simpl in E. by rewrite andb_false_r in E.
Qed.

(** Strings without a doubled slash are fixed points. *)
Lemma collapse_fixed p : contains p double_slash = false -> collapse p = p.
Proof.
  induction p as [|c p IH]; [done|]. intros Hn. cbn [collapse].
  assert (contains p double_slash = false) as Hp.
  { destruct (contains p double_slash) eqn:E; [|done].
    rewrite <- Hn. apply contains_true in E as (a & b & ->). symmetry.
    apply contains_true. by exists (c :: a), b. }
  rewrite (IH Hp). destruct (Ascii.eqb_spec c "/") as [->|]; [|done]. simpl.
  destruct p as [|d p]; [done|]. simpl.
  destruct (Ascii.eqb_spec d "/") as [->|]; [|done].
  assert (contains ("/" :: "/" :: p) double_slash = true); [|congruence].
  apply contains_true. by exists [], p.
Qed.

Lemma collapse_comps acc p : comps_acc acc (collapse p) = comps_acc acc p.
Proof.
  revert acc. induction p as [|c p IH]; intros acc; [done|]. cbn [collapse].
  destruct (Ascii.eqb_spec c "/") as [->|Hc]; simpl.
  - destruct (Ascii.eqb_spec (peek p) "/") as [E|].
    + rewrite IH. destruct p as [|d p]; [done|]. simpl in *. subst d.
      change (Ascii.eqb "/" "/") with true. cbn iota. done.
    + simpl. by rewrite IH.
  - destruct (Ascii.eqb_spec c "/"); [done|]. by rewrite IH.
Qed.

Lemma comps_slashes acc n : comps_acc acc (repeat "/" n) = comps_acc acc [].
Proof.
  revert acc; induction n as [|n IH]; intros acc; [done|]. simpl. rewrite IH. simpl.
  by rewrite app_nil_r.
Qed.

Lemma comps_app_slashes acc p n : comps_acc acc (p ++ repeat "/" n) = comps_acc acc p.
Proof.
  revert acc; induction p as [|c p IH]; intros acc; [apply comps_slashes|]. simpl.
  by rewrite !IH.
Qed.

Lemma strip_fixed w :
  w = ["/"] \/ (forall u, w <> u ++ ["/"]) -> strip_trailing w = w.
Proof.
  intros H. unfold strip_trailing. rewrite <- (rev_involutive w) at 2. f_equal.
  destruct (rev w) as [|c [|d r]] eqn:E; [done..|].
  simpl. destruct (Ascii.eqb_spec c "/") as [->|]; [|done].
  apply (f_equal (@rev ascii)) in E. rewrite rev_involutive in E.
  destruct H as [->|H]; [|by destruct (H (rev (d :: r)))].
  simpl in E. destruct (rev r); [done|]. simplify_eq/=. by destruct l.
Qed.

Lemma collapse_last p u : collapse p = u ++ ["/"] -> exists v, p = v ++ ["/"].
Proof.
  revert u; induction p as [|c p IH]; intros u; [by destruct u|]. cbn [collapse].
  destruct (Ascii.eqb c "/" && Ascii.eqb (peek p) "/") eqn:E.
  - intros H. destruct (IH _ H) as [v ->]. by exists (c :: v).
  - destruct u as [|x u]; simpl; intros [= -> H].
    + apply collapse_nil in H as ->. by exists [].
    + destruct (IH _ H) as [v ->]. by exists (x :: v).
Qed.

(** *** The canonical form, as a function of the components *)

Fixpoint join (l : list cstr) : cstr :=
  match l with
  | [] => []
  | x :: l' => x ++ (if l' is [] then [] else "/" :: join l')
  end.

Definition canonical (absolute : bool) (comps : list cstr) : cstr :=
  (if absolute then ["/"] else []) ++ join comps.

Lemma contains_tail c p : contains (c :: p) double_slash = false -> contains p double_slash = false.
Proof.
  intros Hn. destruct (contains p double_slash) eqn:E; [|done].
  rewrite <- Hn. apply contains_true in E as (a & b & ->). symmetry.
  apply contains_true. by exists (c :: a), b.
Qed.

Lemma comps_nonempty acc p : (acc <> [] \/ exists c, c ∈ p /\ c <> "/") -> comps_acc acc p <> [].
Proof.
  revert acc; induction p as [|c p IH]; intros acc H; simpl.
  - destruct acc; [|done]. destruct H as [H|(c & Hc & _)]; [done|]. by apply elem_of_nil in Hc.
  - destruct (Ascii.eqb_spec c "/") as [->|Hc].
    + destruct acc; [|done]. simpl. apply IH. right.
      destruct H as [H|(d & Hd & Hne)]; [done|]. apply elem_of_cons in Hd as [->|Hd]; [done|eauto].
    + apply IH. by left.
Qed.

Lemma join_comps p acc :
  contains p double_slash = false -> (forall u, p <> u ++ ["/"]) ->
  (acc <> [] \/ peek p <> "/") -> join (comps_acc acc p) = rev acc ++ p.
Proof.
  revert acc; induction p as [|c p IH]; intros acc Hn Hend Hst; simpl.
  - destruct acc; simpl; by rewrite ?app_nil_r.
  - assert (forall u, p <> u ++ ["/"]) as Hend'. { intros u ->. by apply (Hend (c :: u)). }
    destruct (Ascii.eqb_spec c "/") as [->|Hc].
    + destruct Hst as [Hacc|Hst]; [|done]. destruct acc as [|x acc]; [done|].
      destruct p as [|d p]; [by destruct (Hend [])|].
      assert (d <> "/") as Hd.
      { intros ->. assert (contains ("/" :: "/" :: p) double_slash = true); [|congruence].
        apply contains_true. by exists [], p. }
      cbn [app join]. specialize (IH [] (contains_tail _ _ Hn) Hend' (or_intror Hd)).
      rewrite IH. destruct (comps_acc [] (d :: p)) eqn:E; [|done].
      destruct (comps_nonempty [] (d :: p)); [|done]. right. exists d. split; [by left|done].
    + rewrite IH; [|by eapply contains_tail|done|by left]. simpl. by rewrite <- app_assoc.
Qed.

(** Every normalised path is the canonical form of its own components. *)
Lemma canonical_fixed w :
  w <> [] -> contains w double_slash = false -> (w = ["/"] \/ forall u, w <> u ++ ["/"]) ->
  w = canonical (Ascii.eqb (peek w) "/") (components w).
Proof.
  intros Hne Hn [->|Hend]; [done|]. unfold canonical, components.
  destruct w as [|c w]; [done|]. simpl. destruct (Ascii.eqb_spec c "/") as [->|Hc].
  - simpl. f_equal. destruct w as [|d w]; [done|].
    symmetry. apply (join_comps (d :: w) []); [by eapply contains_tail| |right].
    + intros u E. apply (Hend ("/" :: u)). by rewrite E.
    + simpl. intros ->. assert (contains ("/" :: "/" :: w) double_slash = true); [|congruence].
      apply contains_true. by exists [], w.
  - simpl. symmetry. apply (join_comps w [c]); [by eapply contains_tail| |by left].
    intros u E. apply (Hend (c :: u)). by rewrite E.
Qed.

Lemma strip_peek w : w <> [] -> peek (strip_trailing w) = peek w.
Proof.
  intros Hw. destruct (strip_trailing_spec w Hw) as (n & E & Hne & _).
  rewrite E at 2. by destruct (strip_trailing w).
Qed.

(** The working string after the two loops. *)
Lemma work_canonical p :
  p <> [] ->
  let w := collapse (strip_trailing p) in
  w <> [] /\ contains w double_slash = false /\ (w = ["/"] \/ forall u, w <> u ++ ["/"]) /\
  peek w = peek p /\ components w = components p.
Proof.
  intros Hp w. destruct (strip_trailing_spec p Hp) as (n & E & Hne & Hend).
  split_and!.
  - intros H. by apply collapse_nil in H.
  - apply collapse_no_double.
  - destruct Hend as [Hend|Hend]; [left; unfold w; by rewrite Hend|right].
    intros u Hu. apply collapse_last in Hu as [v Hv]. by destruct (Hend v).
  - unfold w. by rewrite collapse_peek, strip_peek.
  - unfold w, components. rewrite collapse_comps. rewrite E at 2. by rewrite comps_app_slashes.
Qed.

Lemma normalize_path_inv p np :
  normalize_path p = Some np ->
  p <> [] /\ normalized np = collapse (strip_trailing p) /\
  is_absolute np = Ascii.eqb (peek p) "/" /\
  np_basename np = match strrchr (normalized np) "/" with
                   | Some last_slash => tail last_slash | None => normalized np end.
Proof. unfold normalize_path. destruct p; [done|]. intros [= <-]. done. Qed.

Lemma normalize_path_form p np :
  normalize_path p = Some np ->
  normalized np = canonical (is_absolute np) (components p).
Proof.
  intros (Hp & -> & -> & _)%normalize_path_inv.
  destruct (work_canonical p Hp) as (Hne & Hn & Hend & Hpk & Hc).
  rewrite (canonical_fixed _ Hne Hn Hend) at 1. by rewrite Hpk, Hc.
Qed.

Lemma basename_split w :
  exists dir, w = dir ++ match strrchr w "/" with Some l => tail l | None => w end /\
    "/" ∉ match strrchr w "/" with Some l => tail l | None => w end /\
    (dir = [] \/ exists d, dir = d ++ ["/"]).
Proof.
  destruct (strrchr w "/") as [l|] eqn:E.
  - apply strrchr_Some in E as (a & b & -> & -> & Hn). exists (a ++ ["/"]).
    simpl. rewrite <- app_assoc. split_and!; [done..|]. right. by exists a.
  - apply strrchr_None in E. exists []. auto.
Qed.

(** ** Properties *)

(** Normalisation computes the canonical form of a path: the slash
    of an absolute path, then the non-empty components separated by single
    slashes. *)
Theorem normalize_path_canonical p :
  p <> [] ->
  exists np, normalize_path p = Some np /\
    is_absolute np = Ascii.eqb (peek p) "/" /\
    normalized np = canonical (is_absolute np) (components p) /\
    components (normalized np) = components p /\
    (exists dir, normalized np = dir ++ np_basename np /\ "/" ∉ np_basename np /\
                 (dir = [] \/ exists d, dir = d ++ ["/"])) /\
    normalize_path (normalized np) = Some np.
Proof.
  intros Hp. destruct (normalize_path p) as [np|] eqn:E; [|by destruct p].
  exists np. split; [done|]. pose proof (normalize_path_form p np E) as Hf.
  apply normalize_path_inv in E as (_ & Hw & Ha & Hb).
  destruct (work_canonical p Hp) as (Hne & Hn & Hend & Hpk & Hc). rewrite <- Hw in *.
  split_and!; [done..| |].
  - rewrite Hb. apply basename_split.
  - destruct np as [w b ab]; simpl in *. destruct w as [|c w0] eqn:Ew; [done|].
    unfold normalize_path. rewrite <- Ew in *. rewrite (strip_fixed _ Hend), (collapse_fixed _ Hn).
    by rewrite Hpk, <- Ha, <- Hb.
Qed.

Lemma normalize_path_canonical_witness :
  exists np, normalize_path (cs "//etc///.env//") = Some np /\ normalized np = cs "/etc/.env".
Proof.
  destruct (normalize_path_canonical (cs "//etc///.env//")) as (np & H & _ & _ & Hc & _).
  - vm_compute. discriminate.
  - exists np. split; [exact H|]. vm_compute in H. injection H as <-. reflexivity.
Defined.

(** Two spellings have the same normal form exactly when they agree on
    being absolute and have the same non-empty components. *)
Theorem normalize_path_equivalence p q np nq :
  normalize_path p = Some np -> normalize_path q = Some nq ->
  (normalized np = normalized nq <->
   is_absolute np = is_absolute nq /\ components p = components q).
Proof.
  intros Hp Hq. pose proof (normalize_path_form _ _ Hp) as Fp.
  pose proof (normalize_path_form _ _ Hq) as Fq.
  apply normalize_path_inv in Hp as (Np & Wp & Ap & _).
  apply normalize_path_inv in Hq as (Nq & Wq & Aq & _).
  destruct (work_canonical p Np) as (_ & _ & _ & Kp & Cp).
  destruct (work_canonical q Nq) as (_ & _ & _ & Kq & Cq).
  rewrite <- Wp in Kp, Cp. rewrite <- Wq in Kq, Cq. split.
  - intros E. by rewrite Ap, Aq, <- Kp, <- Kq, <- Cp, <- Cq, E.
  - intros [Ea Ec]. by rewrite Fp, Fq, Ea, Ec.
Qed.

Lemma normalize_path_equivalence_witness :
  components (cs "a//b/") = components (cs "a/b").
Proof.
  eapply (normalize_path_equivalence (cs "a//b/") (cs "a/b"));
    [vm_compute; reflexivity|vm_compute; reflexivity|reflexivity].
Defined.
