(* ===== verification/ProtectedFiles.v ===== *)
(** * Protected files (lib/policy/protected_files.c)

    The tables of protected names, the inode cache as explicit state, the
    scan of the working directory and its parents, and the verdict
    is_protected_file. The system calls (time, stat, getcwd), the allocator
    and fnmatch are parameters; one environment is one instant, as seen by
    one call. *)

From S2P Require Import Prelude CString PathNormalize.
Local Open Scope char_scope.
Local Open Scope bool_scope.

Definition PROTECTED_INODE_REFRESH_INTERVAL : Z := 30.
Definition PROTECTED_INODE_SCAN_DEPTH : nat := 3.
Definition PROTECTED_INODE_INITIAL_CAPACITY : Z := 16.
Definition PROTECTED_PATH_BUFSIZE : Z := 4096.

Definition PROTECTED_BASENAME_PATTERNS : list cstr := [cs "scaffold.config.json"; cs ".env"].
Definition PROTECTED_PREFIX_PATTERNS : list cstr := [cs ".env."].
Definition PROTECTED_GLOB_PATTERNS : list cstr :=
  [cs "**/scaffold.config.json"; cs "**/.scaffold/config.json"; cs "**/.env"; cs "**/.env.*"].
Definition SCAN_FILENAMES : list cstr :=
  [cs "scaffold.config.json"; cs ".scaffold/config.json"; cs ".env"; cs ".env.local";
   cs ".env.development"; cs ".env.production"; cs ".env.test"].

(** fnmatch(pattern, string, flags) == 0; [true] for FNM_PATHNAME. *)
Class Fnmatch := fnmatch : bool -> cstr -> cstr -> bool.

(** POSIX: without flags, a trailing star matches any text, leading periods
    and slashes included, and ordinary characters match themselves. *)
Class FnmatchSpec (F : Fnmatch) : Prop :=
  fnmatch_literal_star pre s :
    (forall c, c ∈ pre -> c ∉ cs "*?[\") ->
    fnmatch false (pre ++ ["*"]) s = has_prefix pre s.

Record ProtectedInode := mkProtectedInode {
  device : Z;
  inode : Z;
  original_path : cstr;
  discovered_at : Z
}.

Record ProtectedState := mkProtectedState {
  inodes : list ProtectedInode;
  capacity : Z;
  last_refresh : Z;
  module_initialized : bool
}.

(** The static initialisers. *)
Definition protected_initial : ProtectedState := mkProtectedState [] 0 0 false.

(** What the system answers during one call. *)
Record SysEnv := mkSysEnv {
  sys_time : Z;
  sys_stat : cstr -> option (Z * Z);
  sys_getcwd : option cstr;
  sys_app_home_config : option cstr;
  realloc_ok : Z -> bool;
  strdup_ok : cstr -> bool
}.

Section ProtectedFiles.
Context {F : Fnmatch}.

Definition set_inodes (st : ProtectedState) (l : list ProtectedInode) : ProtectedState :=
  mkProtectedState l (capacity st) (last_refresh st) (module_initialized st).
Definition set_last_refresh (st : ProtectedState) (t : Z) : ProtectedState :=
  mkProtectedState (inodes st) (capacity st) t (module_initialized st).

(** [None]: the reallocation failed. *)
Definition ensure_cache_capacity (env : SysEnv) (st : ProtectedState) : option ProtectedState :=
  if (Z.of_nat (length (inodes st)) <? capacity st)%Z then Some st
  else
    let new_capacity := if (capacity st =? 0)%Z then PROTECTED_INODE_INITIAL_CAPACITY
                        else wrap32 (capacity st * 2) in
    if realloc_ok env new_capacity
    then Some (mkProtectedState (inodes st) new_capacity (last_refresh st) (module_initialized st))
    else None.

Definition same_inode (dev ino : Z) (pi : ProtectedInode) : bool :=
  (device pi =? dev)%Z && (inode pi =? ino)%Z.

Definition inode_in_cache (st : ProtectedState) (dev ino : Z) : bool :=
  existsb (same_inode dev ino) (inodes st).

Definition build_path (dir filename : cstr) (buffer_size : Z) : option cstr :=
  let dir_len := Z.of_nat (length dir) in
  let file_len := Z.of_nat (length filename) in
  let need_sep := (0 <? dir_len)%Z && negb (Ascii.eqb (List.last dir NUL) "/") in
  let total := (dir_len + (if need_sep then 1 else 0) + file_len + 1)%Z in
  if (buffer_size <? total)%Z then None
  else Some (dir ++ (if need_sep then ["/"] else []) ++ filename).

Definition add_protected_inode_if_exists (env : SysEnv) (path : cstr) (st : ProtectedState)
    : ProtectedState :=
  match path with
  | [] => st
  | _ =>
      match sys_stat env path with
      | None => st
      | Some (dev, ino) =>
          if inode_in_cache st dev ino then st
          else match ensure_cache_capacity env st with
               | None => st
               | Some st' =>
                   let pi := mkProtectedInode dev ino path (sys_time env) in
                   if strdup_ok env path then set_inodes st' (inodes st' ++ [pi]) else st'
               end
      end
  end.

Definition scan_protected_paths_in_dir (env : SysEnv) (base_dir : cstr) (st : ProtectedState)
    : ProtectedState :=
  foldl (fun st name =>
           match build_path base_dir name PROTECTED_PATH_BUFSIZE with
           | Some full_path => add_protected_inode_if_exists env full_path st
           | None => st
           end) st SCAN_FILENAMES.

Definition clear_protected_inode_cache (st : ProtectedState) : ProtectedState := set_inodes st [].

Definition cleanup_protected_inode_cache (st : ProtectedState) : ProtectedState :=
  mkProtectedState [] 0 0 (module_initialized st).

(** [*last_slash = NUL], unless there is none or it is the first character. *)
Definition parent_of (parent_dir : cstr) : option cstr :=
  match strrchr parent_dir "/" with
  | None => None
  | Some last_slash =>
      let p := take (length parent_dir - length last_slash) parent_dir in
      match p with [] => None | _ => Some p end
  end.

Fixpoint scan_parents (env : SysEnv) (depth : nat) (parent_dir : cstr) (st : ProtectedState)
    : ProtectedState :=
  match depth with
  | O => st
  | S depth' =>
      match parent_of parent_dir with
      | None => st
      | Some p => scan_parents env depth' p (scan_protected_paths_in_dir env p st)
      end
  end.

Definition refresh_protected_inodes (env : SysEnv) (st : ProtectedState) : ProtectedState :=
  let now := sys_time env in
  if (now - last_refresh st <? PROTECTED_INODE_REFRESH_INTERVAL)%Z then st
  else
    let st := clear_protected_inode_cache st in
    match sys_getcwd env with
    | None => set_last_refresh st now
    | Some cwd =>
        let st := scan_protected_paths_in_dir env cwd st in
        let parent_dir := take (Z.to_nat (PROTECTED_PATH_BUFSIZE - 1)) cwd in
        let st := scan_parents env PROTECTED_INODE_SCAN_DEPTH parent_dir st in
        let st := scan_protected_paths_in_dir env ["/"] st in
        let st := match sys_app_home_config env with
                  | Some ralph_config => add_protected_inode_if_exists env ralph_config st
                  | None => st
                  end in
        set_last_refresh st now
    end.

Definition force_protected_inode_refresh (env : SysEnv) (st : ProtectedState) : ProtectedState :=
  refresh_protected_inodes env (set_last_refresh st 0).

Definition protected_files_init (env : SysEnv) (st : ProtectedState) : ProtectedState :=
  if module_initialized st then st
  else force_protected_inode_refresh env
         (mkProtectedState (inodes st) (capacity st) (last_refresh st) true).

Definition protected_files_cleanup (st : ProtectedState) : ProtectedState :=
  let st := cleanup_protected_inode_cache st in
  mkProtectedState (inodes st) (capacity st) (last_refresh st) false.

Definition is_protected_basename (basename : cstr) : bool :=
  match basename with
  | [] => false
  | _ =>
      existsb (fun p => path_basename_cmp (Some basename) (Some p)) PROTECTED_BASENAME_PATTERNS ||
      existsb (fun p => path_basename_has_prefix (Some basename) (Some p)) PROTECTED_PREFIX_PATTERNS
  end.

Definition has_char (s : cstr) (c : ascii) : bool :=
  match strchr s c with Some _ => true | None => false end.

Definition suffix_matches (path_component suffix_pattern : cstr) : bool :=
  let has_wildcard := has_char suffix_pattern "*" || has_char suffix_pattern "?" ||
                      has_char suffix_pattern "[" in
  if has_wildcard then fnmatch false suffix_pattern path_component
  else streq path_component suffix_pattern.

Definition path_matches_recursive_pattern (path suffix : cstr) : bool :=
  let path_len := length path in
  match strchr suffix "/" with
  | Some _ =>
      let suffix_len := length suffix in
      if (path_len <? suffix_len)%nat then false
      else if (path_len =? suffix_len)%nat then suffix_matches path suffix
      else
        let preceding := nth (path_len - suffix_len - 1) path NUL in
        if Ascii.eqb preceding "/"
        then suffix_matches (drop (path_len - suffix_len) path) suffix
        else false
  | None =>
      let basename := match strrchr path "/" with Some l => tail l | None => path end in
      suffix_matches basename suffix
  end.

Definition matches_protected_glob (path : cstr) : bool :=
  match path with
  | [] => false
  | _ =>
      existsb (fun pattern =>
                 match pattern with
                 | a :: b :: c :: suffix =>
                     if Ascii.eqb a "*" && Ascii.eqb b "*" && Ascii.eqb c "/"
                     then path_matches_recursive_pattern path suffix
                     else fnmatch true pattern path
                 | _ => fnmatch true pattern path
                 end) PROTECTED_GLOB_PATTERNS
  end.

Definition is_protected_inode (env : SysEnv) (st : ProtectedState) (path : cstr) : bool :=
  match path with
  | [] => false
  | _ => match sys_stat env path with
         | None => false
         | Some (dev, ino) => existsb (same_inode dev ino) (inodes st)
         end
  end.

(** normalize_path fails on a non-empty path only when memory is exhausted
    ([np_ok] = false). *)
Definition is_protected_file (env : SysEnv) (np_ok : bool) (path : cstr) (st : ProtectedState)
    : ProtectedState * bool :=
  match path with
  | [] => (st, false)
  | _ =>
      let st := if negb (module_initialized st) then protected_files_init env st else st in
      let st := refresh_protected_inodes env st in
      match (if np_ok then normalize_path path else None) with
      | None =>
          let basename := match strrchr path "/" with Some l => tail l | None => path end in
          (st, is_protected_basename basename)
      | Some np =>
          if is_protected_basename (np_basename np) then (st, true)
          else if matches_protected_glob (normalized np) then (st, true)
          else (st, is_protected_inode env st path)
      end
  end.

End ProtectedFiles.

(** A concrete fnmatch for the witnesses: literal text with an optional
    trailing star. *)
#[export] Instance RefFnmatch : Fnmatch := fun _ pattern s =>
  match rev pattern with
  | c :: r => if Ascii.eqb c "*" then has_prefix (rev r) s else streq pattern s
  | [] => streq pattern s
  end.

#[export] Instance RefFnmatchSpec : FnmatchSpec RefFnmatch.
Proof.
  intros pre s _. unfold fnmatch, RefFnmatch. rewrite rev_app_distr. simpl.
  by rewrite rev_involutive.
Qed.

(** ** Protected names *)

Definition protected_component (c : cstr) : Prop :=
  c = cs "scaffold.config.json" \/ c = cs ".env" \/ exists r, c = cs ".env." ++ r.

(** The paths the tables protect, by their components. *)
Inductive protected_name : list cstr -> Prop :=
| protected_last init c : protected_component c -> protected_name (init ++ [c])
| protected_config init : protected_name (init ++ [cs ".scaffold"; cs "config.json"]).

Definition config_suffix : cstr := cs ".scaffold/config.json".

Definition base_of (w : cstr) : cstr :=
  match strrchr w "/" with Some l => tail l | None => w end.

Lemma is_protected_basename_true b :
  is_protected_basename b = true <-> protected_component b.
Proof.
  unfold protected_component. destruct b as [|x b].
  { split; [done|]. by intros [H|[H|[r H]]]. }
  change (is_protected_basename (x :: b)) with
    ((streq (x :: b) (cs "scaffold.config.json") || (streq (x :: b) (cs ".env") || false)) ||
     (has_prefix (cs ".env.") (x :: b) || false)).
  rewrite !orb_true_iff, !streq_true, has_prefix_true.
  assert (false = true <-> False) by done. tauto.
Qed.

(** *** Components of a concatenation *)

Lemma comps_acc_app u v acc :
  comps_acc acc (u ++ "/" :: v) = comps_acc acc u ++ components v.
Proof.
  revert acc; induction u as [|c u IH]; intros acc.
  - by destruct acc.
  - cbn [app comps_acc]. destruct (Ascii.eqb c "/"); rewrite !IH; [by rewrite app_assoc|done].
Qed.

Lemma components_app u v : components (u ++ "/" :: v) = components u ++ components v.
Proof. apply comps_acc_app. Qed.

Lemma comps_acc_piece acc b : "/" ∉ b -> acc <> [] -> comps_acc acc b = [rev acc ++ b].
Proof.
  revert acc; induction b as [|c b IH]; intros acc Hn Ha; simpl.
  - destruct acc; [done|]. by rewrite app_nil_r.
  - apply not_elem_of_cons in Hn as [Hc Hn].
    destruct (Ascii.eqb_spec c "/"); [congruence|]. rewrite IH by done. simpl.
    by rewrite <- app_assoc.
Qed.

Lemma components_piece b : "/" ∉ b -> b <> [] -> components b = [b].
Proof.
  intros Hn Hb. destruct b as [|c b]; [done|]. unfold components. simpl.
  apply not_elem_of_cons in Hn as [Hc Hn].
  destruct (Ascii.eqb_spec c "/"); [congruence|]. by rewrite comps_acc_piece.
Qed.

(** A non-root normal form ends in its last component, which is its basename. *)
Lemma base_of_component w init c :
  w <> [] -> (w = ["/"] \/ forall u, w <> u ++ ["/"]) ->
  components w = init ++ [c] -> base_of w = c.
Proof.
  intros Hne Hend Hc.
  destruct (basename_split w) as (dir & Hw & Hn & Hdir). fold (base_of w) in *.
  destruct (decide (base_of w = [])) as [Hb|Hb].
  - rewrite Hb, app_nil_r in Hw. destruct Hdir as [->|[d ->]]; [done|].
    destruct Hend as [Hend|Hend]; [|by destruct (Hend d)].
    rewrite Hend in Hc. by destruct init.
  - rewrite Hw in Hc. destruct Hdir as [->|[d ->]].
    + cbn [app] in Hc. rewrite (components_piece _ Hn Hb) in Hc.
      by apply (app_inj_tail [] init) in Hc as [_ ->].
    + rewrite <- app_assoc in Hc. cbn [app] in Hc. rewrite components_app in Hc.
      rewrite (components_piece _ Hn Hb) in Hc. by apply app_inj_tail in Hc as [_ ->].
Qed.

Lemma join_app l k : l <> [] -> k <> [] -> join (l ++ k) = join l ++ "/" :: join k.
Proof.
  intros Hl Hk. induction l as [|x l IH]; [done|]. destruct l as [|y l].
  - simpl. rewrite app_nil_r. by destruct k.
  - change (x ++ "/" :: join ((y :: l) ++ k) = (x ++ "/" :: join (y :: l)) ++ "/" :: join k).
    rewrite IH by done. by rewrite <- app_assoc.
Qed.

(** *** Glob patterns *)

Section Globs.
Context {F : Fnmatch} {FS : FnmatchSpec F}.

Lemma fnmatch_env s : fnmatch false (cs ".env.*") s = has_prefix (cs ".env.") s.
Proof using FS.
  apply (fnmatch_literal_star (cs ".env.") s). intros c Hc Hs.
  assert (Forall (fun c => Forall (fun d => c <> d) (cs "*?[\")) (cs ".env.")) as H
    by (repeat constructor; discriminate).
  rewrite Forall_forall in H. specialize (H c Hc). rewrite Forall_forall in H. by apply (H c).
Qed.

Lemma config_pattern_true w :
  path_matches_recursive_pattern w config_suffix = true <->
  w = config_suffix \/ exists u, w = u ++ "/" :: config_suffix.
Proof using Type.
  unfold path_matches_recursive_pattern.
  change (strchr config_suffix "/") with (Some (cs "/config.json")). cbn iota.
  change (suffix_matches ?p config_suffix) with (streq p config_suffix).
  destruct (Nat.ltb_spec (length w) (length config_suffix)) as [Hl|Hl].
  - split; [done|]. intros [->|[u ->]]; [lia|]. rewrite length_app in Hl. simpl in Hl. lia.
  - destruct (Nat.eqb_spec (length w) (length config_suffix)) as [He|He].
    + rewrite streq_true. split; [auto|]. intros [->|[u ->]]; [done|].
      rewrite length_app in He. simpl in He. lia.
    + set (k := (length w - length config_suffix - 1)%nat).
      assert (length w = k + S (length config_suffix))%nat as Hw by lia.
      assert (length w - length config_suffix = S k)%nat as -> by lia.
      pose proof (take_drop k w) as Htd.
      assert (length (take k w) = k) as Htk by (rewrite length_take; lia).
      destruct (drop k w) as [|c t] eqn:Ed.
      { apply (f_equal length) in Ed. rewrite length_drop in Ed. simpl in Ed. lia. }
      rewrite <- Htd. rewrite app_nth2 by lia. rewrite Htk, Nat.sub_diag. simpl nth.
      rewrite drop_app_ge, Htk by lia. replace (S k - k)%nat with 1%nat by lia. simpl drop.
      destruct (Ascii.eqb_spec c "/") as [->|Hc].
      * rewrite drop_0, streq_true. split; [intros ->; eauto|]. intros [E|[u E]].
        -- exfalso. rewrite Htd in E. congruence.
        -- apply app_inj_1 in E as [_ E]; [congruence|]. rewrite Htk.
           apply (f_equal length) in E. rewrite Htd, length_app in E. simpl in E, Hw. lia.
      * split; [done|]. intros [E|[u E]].
        -- exfalso. rewrite Htd in E. congruence.
        -- exfalso. apply app_inj_1 in E as [_ E]; [congruence|]. rewrite Htk.
           apply (f_equal length) in E. rewrite Htd, length_app in E. simpl in E, Hw. lia.
Qed.

Lemma matches_protected_glob_true w :
  w <> [] ->
  matches_protected_glob w = true <->
  protected_component (base_of w) \/ w = config_suffix \/ exists u, w = u ++ "/" :: config_suffix.
Proof using FS.
  intros Hw. rewrite <- config_pattern_true. unfold protected_component.
  destruct w as [|x w]; [done|].
  change (matches_protected_glob (x :: w)) with
    (streq (base_of (x :: w)) (cs "scaffold.config.json") ||
     (path_matches_recursive_pattern (x :: w) config_suffix ||
      (streq (base_of (x :: w)) (cs ".env") ||
       (fnmatch false (cs ".env.*") (base_of (x :: w)) || false)))).
  rewrite fnmatch_env, !orb_true_iff, !streq_true, has_prefix_true.
  assert (false = true <-> False) by done. tauto.
Qed.

(** The two name checks of is_protected_file, together. *)
Lemma name_checks_true p np :
  normalize_path p = Some np ->
  is_protected_basename (np_basename np) || matches_protected_glob (normalized np) = true <->
  protected_name (components p).
Proof using FS.
  intros Hnp. pose proof (normalize_path_form p np Hnp) as Hform.
  apply normalize_path_inv in Hnp as (Hp & Hw & _ & Hb).
  destruct (work_canonical p Hp) as (Hne & _ & Hend & _ & Hc). rewrite <- Hw in *.
  fold (base_of (normalized np)) in Hb.
  rewrite orb_true_iff, matches_protected_glob_true, Hb, is_protected_basename_true by done.
  rewrite <- Hc in *. split.
  - intros Hcase. assert (protected_component (base_of (normalized np)) \/
      normalized np = config_suffix \/ exists u, normalized np = u ++ "/" :: config_suffix)
      as [Hpc|[E|[u E]]] by tauto.
    + destruct (basename_split (normalized np)) as (dir & E & Hn & Hdir).
      fold (base_of (normalized np)) in *.
      assert (base_of (normalized np) <> []) as Hbne.
      { intros E0. rewrite E0 in Hpc. by destruct Hpc as [H|[H|[r H]]]. }
      destruct Hdir as [->|[d ->]].
      * rewrite E. cbn [app]. rewrite components_piece by done. by apply (protected_last []).
      * rewrite E, <- app_assoc. cbn [app]. rewrite components_app, (components_piece _ Hn Hbne).
        by apply protected_last.
    + rewrite E. apply (protected_config []).
    + rewrite E, components_app. apply (protected_config (components u)).
  - inversion 1 as [init c Hpc Hi|init Hi]; symmetry in Hi.
    + apply base_of_component in Hi as ->; auto.
    + right. right. rewrite Hform, Hi. unfold canonical.
      destruct init as [|x init].
      * destruct (is_absolute np); [right; by exists []|by left].
      * right. rewrite (join_app (x :: init)) by done.
        eexists ((if is_absolute np then ["/"] else []) ++ join (x :: init)).
        by rewrite <- app_assoc.
Qed.
End Globs.

(** ** The inode cache *)

(** Adding a list of paths in order. *)
Definition add_all (env : SysEnv) (l : list cstr) (st : ProtectedState) : ProtectedState :=
  foldl (fun st p => add_protected_inode_if_exists env p st) st l.

(** The paths one directory contributes, and the paths one refresh scans. *)
Definition dir_paths (base_dir : cstr) : list cstr :=
  omap (fun name => build_path base_dir name PROTECTED_PATH_BUFSIZE) SCAN_FILENAMES.

Fixpoint parent_paths (depth : nat) (parent_dir : cstr) : list cstr :=
  match depth with
  | O => []
  | S depth' => match parent_of parent_dir with
                | None => []
                | Some p => dir_paths p ++ parent_paths depth' p
                end
  end.

Definition scan_list (env : SysEnv) : list cstr :=
  match sys_getcwd env with
  | None => []
  | Some cwd =>
      dir_paths cwd ++
      parent_paths PROTECTED_INODE_SCAN_DEPTH (take (Z.to_nat (PROTECTED_PATH_BUFSIZE - 1)) cwd) ++
      dir_paths ["/"] ++
      match sys_app_home_config env with Some p => [p] | None => [] end
  end.

Lemma add_all_app env l k st : add_all env (l ++ k) st = add_all env k (add_all env l st).
Proof. apply foldl_app. Qed.

Lemma scan_dir_add_all env dir st :
  scan_protected_paths_in_dir env dir st = add_all env (dir_paths dir) st.
Proof.
  unfold scan_protected_paths_in_dir, dir_paths. generalize SCAN_FILENAMES. intros l.
  revert st; induction l as [|name l IH]; intros st; [done|]. cbn [foldl]. rewrite IH. simpl.
  by destruct (build_path dir name PROTECTED_PATH_BUFSIZE).
Qed.

Lemma scan_parents_add_all env n dir st :
  scan_parents env n dir st = add_all env (parent_paths n dir) st.
Proof.
  revert dir st; induction n as [|n IH]; intros dir st; [done|]. simpl.
  destruct (parent_of dir); [|done]. by rewrite IH, add_all_app, scan_dir_add_all.
Qed.

Lemma refresh_add_all env st :
  refresh_protected_inodes env st =
  if (sys_time env - last_refresh st <? PROTECTED_INODE_REFRESH_INTERVAL)%Z then st
  else set_last_refresh (add_all env (scan_list env) (clear_protected_inode_cache st)) (sys_time env).
Proof.
  unfold refresh_protected_inodes, scan_list. case_match; [done|].
  destruct (sys_getcwd env); [|done].
  rewrite !add_all_app, !scan_dir_add_all, scan_parents_add_all.
  by destruct (sys_app_home_config env).
Qed.

Lemma dir_paths_length dir : (length (dir_paths dir) <= 7)%nat.
Proof.
  unfold dir_paths. change 7%nat with (length SCAN_FILENAMES). generalize SCAN_FILENAMES.
  induction l as [|x l IH]; [simpl; lia|]. csimpl.
  destruct (build_path _ _ _); cbn [length]; lia.
Qed.

Lemma parent_paths_length n dir : (length (parent_paths n dir) <= 7 * n)%nat.
Proof.
  revert dir; induction n as [|n IH]; intros dir; simpl; [lia|].
  destruct (parent_of dir); simpl; [|lia]. rewrite length_app.
  pose proof (dir_paths_length l). specialize (IH l). lia.
Qed.

Lemma scan_list_length env : (length (scan_list env) <= 36)%nat.
Proof.
  unfold scan_list. destruct (sys_getcwd env) as [cwd|]; [|simpl; lia]. rewrite !length_app.
  pose proof (dir_paths_length cwd). pose proof (dir_paths_length ["/"]).
  pose proof (parent_paths_length PROTECTED_INODE_SCAN_DEPTH
    (take (Z.to_nat (PROTECTED_PATH_BUFSIZE - 1)) cwd)) as H'.
  unfold PROTECTED_INODE_SCAN_DEPTH in *. destruct (sys_app_home_config env); simpl in *; lia.
Qed.

Definition key (pi : ProtectedInode) : Z * Z := (device pi, inode pi).

Lemma in_cache_true st d i : inode_in_cache st d i = true <-> (d, i) ∈ map key (inodes st).
Proof.
  unfold inode_in_cache. rewrite existsb_true_iff, list_elem_of_fmap. unfold same_inode, key.
  setoid_rewrite andb_true_iff. setoid_rewrite Z.eqb_eq. split.
  - intros (x & Hx & <- & <-). by exists x.
  - intros (x & [= -> ->] & Hx). by exists x.
Qed.

(** The invariant, for a cache of at most [n] entries. *)
Record cache_ok (n : nat) (st : ProtectedState) : Prop := {
  cache_nodup : NoDup (map key (inodes st));
  cache_fits : (Z.of_nat (length (inodes st)) <= capacity st)%Z;
  cache_count : (length (inodes st) <= n)%nat;
  cache_capacity : capacity st ∈ [0; 16; 32; 64]%Z
}.

Lemma cache_ok_weaken n m st : (n <= m)%nat -> cache_ok n st -> cache_ok m st.
Proof. intros Hnm []. split; [done..|lia|done]. Qed.

Lemma ensure_capacity_ok env n st st' :
  (n < 36)%nat -> cache_ok n st -> ensure_cache_capacity env st = Some st' ->
  cache_ok n st' /\ inodes st' = inodes st /\ (Z.of_nat (length (inodes st)) < capacity st')%Z.
Proof.
  intros Hn [Hnd Hfit Hcnt Hcap]. unfold ensure_cache_capacity.
  destruct (Z.ltb_spec (Z.of_nat (length (inodes st))) (capacity st)); [intros [= <-]; done|].
  destruct (realloc_ok _ _); [|done]. intros [= <-]. simpl.
  rewrite !elem_of_cons, elem_of_nil in Hcap.
  destruct Hcap as [E|[E|[E|[E|[]]]]]; rewrite E in *; [| | |lia];
    simpl; unfold PROTECTED_INODE_INITIAL_CAPACITY; rewrite ?wrap32_small by lia;
    (split; [split; simpl; [done|lia|done|set_solver]|split; [done|lia]]).
Qed.

Lemma add_ok env n p st :
  (n < 36)%nat -> cache_ok n st -> cache_ok (S n) (add_protected_inode_if_exists env p st).
Proof.
  intros Hn Hok. assert (cache_ok (S n) st) by (eapply cache_ok_weaken; [|done]; lia).
  unfold add_protected_inode_if_exists. destruct p; [done|].
  destruct (sys_stat env _) as [[dev ino]|]; [|done].
  destruct (inode_in_cache st dev ino) eqn:Ein; [done|].
  destruct (ensure_cache_capacity env st) as [st'|] eqn:Ec; [|done].
  apply (ensure_capacity_ok _ n) in Ec as ([Hnd Hfit Hcnt Hcap] & Hi & Hlt); [|done..].
  destruct (strdup_ok _ _); [|by split; [..|lia|]].
  rewrite <- not_true_iff_false, in_cache_true, <- Hi in Ein. rewrite <- Hi in Hlt.
  split; simpl; rewrite ?map_app, ?length_app; simpl; [|lia|lia|done].
  apply NoDup_app. split; [done|]. split; [|apply NoDup_singleton].
  intros x Hx ->%list_elem_of_singleton. done.
Qed.

Lemma add_all_ok env l n st :
  (n + length l <= 36)%nat -> cache_ok n st -> cache_ok (n + length l) (add_all env l st).
Proof.
  revert n st; induction l as [|p l IH]; intros n st Hn Hok; simpl.
  - by rewrite Nat.add_0_r.
  - rewrite <- plus_n_Sm. apply (IH (S n)); simpl in *; [lia|]. apply add_ok; [lia|done].
Qed.

Lemma refresh_ok env st : cache_ok 36 st -> cache_ok 36 (refresh_protected_inodes env st).
Proof.
  intros Hok. rewrite refresh_add_all. case_match; [done|].
  pose proof (scan_list_length env).
  enough (cache_ok 36 (add_all env (scan_list env) (clear_protected_inode_cache st))) by (split; by destruct H1).
  eapply cache_ok_weaken; [|apply (add_all_ok env _ 0)]; [simpl; lia|simpl; lia|].
  destruct Hok as [_ Hfit _ Hcap]. split; simpl; [constructor|lia|lia|done].
Qed.

(** Every operation of the module, as the rest of the program calls it. *)
Inductive pf_op :=
| PfCheck (env : SysEnv) (np_ok : bool) (path : cstr)
| PfRefresh (env : SysEnv)
| PfForce (env : SysEnv)
| PfInit (env : SysEnv)
| PfClear
| PfCleanup.

Definition pf_run {F : Fnmatch} (st : ProtectedState) (op : pf_op) : ProtectedState :=
  match op with
  | PfCheck env np_ok path => (is_protected_file env np_ok path st).1
  | PfRefresh env => refresh_protected_inodes env st
  | PfForce env => force_protected_inode_refresh env st
  | PfInit env => protected_files_init env st
  | PfClear => clear_protected_inode_cache st
  | PfCleanup => protected_files_cleanup st
  end.

Lemma init_ok env st : cache_ok 36 st -> cache_ok 36 (protected_files_init env st).
Proof.
  intros Hok. unfold protected_files_init, force_protected_inode_refresh. case_match; [done|].
  apply refresh_ok. split; by destruct Hok.
Qed.

(** The state a check leaves: initialised and refreshed. *)
Definition ready (env : SysEnv) (st : ProtectedState) : ProtectedState :=
  refresh_protected_inodes env
    (if negb (module_initialized st) then protected_files_init env st else st).

Lemma is_protected_file_eq {F : Fnmatch} env path st :
  path <> [] ->
  is_protected_file env true path st =
  (ready env st,
   match normalize_path path with
   | None => is_protected_basename (base_of path)
   | Some np => (is_protected_basename (np_basename np) || matches_protected_glob (normalized np))
                || is_protected_inode env (ready env st) path
   end).
Proof.
  intros Hp. destruct path as [|x path]; [done|]. unfold is_protected_file, ready.
  destruct (normalize_path _); [|done].
  by destruct (is_protected_basename _), (matches_protected_glob _).
Qed.

Lemma ready_state {F : Fnmatch} env np_ok path st :
  (is_protected_file env np_ok path st).1 = match path with [] => st | _ => ready env st end.
Proof.
  destruct path as [|x path]; [done|]. unfold is_protected_file, ready.
  destruct (if np_ok then _ else _) as [np|]; [|done].
  by destruct (is_protected_basename (np_basename np)), (matches_protected_glob (normalized np)).
Qed.

Lemma pf_run_ok {F : Fnmatch} op st : cache_ok 36 st -> cache_ok 36 (pf_run st op).
Proof.
  intros Hok. destruct op as [env np_ok path|env|env|env| |]; simpl.
  - rewrite ready_state. destruct path; [done|]. unfold ready. apply refresh_ok.
    case_match; [by apply init_ok|done].
  - by apply refresh_ok.
  - apply refresh_ok. split; by destruct Hok.
  - by apply init_ok.
  - destruct Hok as [_ Hfit _ Hcap]. split; simpl; [constructor|lia|lia|done].
  - split; simpl; [constructor|lia|lia|set_solver].
Qed.

Lemma add_all_keys env l st d i :
  (forall n, realloc_ok env n = true) -> (forall p, strdup_ok env p = true) ->
  (d, i) ∈ map key (inodes (add_all env l st)) <->
  (d, i) ∈ map key (inodes st) \/ exists p, p ∈ l /\ p <> [] /\ sys_stat env p = Some (d, i).
Proof.
  intros Hre Hdup. revert st; induction l as [|p l IH]; intros st; cbn [add_all foldl].
  { split; [by left|]. intros [H|(p & Hp & _)]; [done|]. by apply elem_of_nil in Hp. }
  fold (add_all env l (add_protected_inode_if_exists env p st)). rewrite IH.
  setoid_rewrite elem_of_cons.
  assert ((d, i) ∈ map key (inodes (add_protected_inode_if_exists env p st)) <->
          (d, i) ∈ map key (inodes st) \/ p <> [] /\ sys_stat env p = Some (d, i)) as ->.
  { unfold add_protected_inode_if_exists. destruct p as [|x p]; [intuition|].
    destruct (sys_stat env (x :: p)) as [[dev ino]|] eqn:Es; [|intuition congruence].
    destruct (inode_in_cache st dev ino) eqn:Ein.
    - apply in_cache_true in Ein. split; [by left|]. intros [H|[_ [= -> ->]]]; done.
    - unfold ensure_cache_capacity. rewrite Hre, Hdup.
      destruct (_ <? _)%Z; simpl; rewrite map_app, elem_of_app; simpl;
        rewrite list_elem_of_singleton; unfold key at 2; simpl;
        (split; [intros [H'|[= -> ->]]; [by left|by right]|intros [H'|[_ [= -> ->]]]; [by left|by right]]). }
  split.
  - intros [[H|[Hp Hs]]|(q & Hq & Hr)]; [by left|right; exists p; auto|right; exists q; auto].
  - intros [H|(q & [->|Hq] & Hr)]; [auto|auto|right; eauto].
Qed.

(** *** Exactness of the verdict *)

Lemma in_cache_inode env st path :
  path <> [] ->
  is_protected_inode env st path = true <->
  exists id, sys_stat env path = Some id /\ id ∈ map key (inodes st).
Proof.
  intros Hp. unfold is_protected_inode. destruct path as [|x path]; [done|].
  destruct (sys_stat env (x :: path)) as [[d i]|]; [|naive_solver].
  fold (inode_in_cache st d i). rewrite in_cache_true. naive_solver.
Qed.

Definition refresh_due (env : SysEnv) (st : ProtectedState) : Prop :=
  (PROTECTED_INODE_REFRESH_INTERVAL <=
     sys_time env - (if module_initialized st then last_refresh st else 0))%Z.

Definition memory_ok (env : SysEnv) : Prop :=
  (forall n, realloc_ok env n = true) /\ (forall p, strdup_ok env p = true).

Lemma refreshed_keys env st id :
  memory_ok env ->
  (PROTECTED_INODE_REFRESH_INTERVAL <= sys_time env - last_refresh st)%Z ->
  id ∈ map key (inodes (refresh_protected_inodes env st)) <->
  exists p, p ∈ scan_list env /\ p <> [] /\ sys_stat env p = Some id.
Proof.
  intros [Hre Hdup] Hdue. rewrite refresh_add_all.
  destruct (Z.ltb_spec (sys_time env - last_refresh st) PROTECTED_INODE_REFRESH_INTERVAL); [lia|].
  destruct id as [d i]. simpl. rewrite add_all_keys by done. simpl. rewrite elem_of_nil. tauto.
Qed.

Lemma ready_keys env st id :
  memory_ok env -> refresh_due env st ->
  id ∈ map key (inodes (ready env st)) <->
  exists p, p ∈ scan_list env /\ p <> [] /\ sys_stat env p = Some id.
Proof.
  unfold refresh_due, ready. intros Hm. destruct (module_initialized st) eqn:Ei; simpl; intros Hdue.
  - by apply refreshed_keys.
  - unfold protected_files_init. rewrite Ei. unfold force_protected_inode_refresh.
    set (st0 := set_last_refresh _ 0). rewrite <- (refreshed_keys env st0) by done.
    rewrite (refresh_add_all env (refresh_protected_inodes env st0)).
    rewrite (refresh_add_all env st0).
    destruct (Z.ltb_spec (sys_time env - last_refresh st0) PROTECTED_INODE_REFRESH_INTERVAL) as [H|H];
      [simpl in H; lia|].
    cbn [last_refresh set_last_refresh]. by rewrite Z.sub_diag.
Qed.

(** A protected name is refused in every state, whatever the system answers. *)
Lemma protected_path_refused {F : Fnmatch} {FS : FnmatchSpec F} env path st :
  protected_name (components path) -> (is_protected_file env true path st).2 = true.
Proof.
  intros Hn. assert (path <> []) as Hp.
  { intros ->. inversion Hn as [i c _ Hi|i Hi]; by destruct i. }
  rewrite is_protected_file_eq by done. simpl.
  destruct (normalize_path path) as [np|] eqn:E; [|by destruct path].
  by rewrite (proj2 (name_checks_true path np E) Hn).
Qed.

(** ** Properties *)

(** An environment with one .env file in /w/p, hard-linked as /tmp/x. *)
Definition sample_env : SysEnv :=
  mkSysEnv 100 (fun p => if streq p (cs "/w/p/.env") || streq p (cs "/tmp/x") then Some (1, 42)%Z else None)
    (Some (cs "/w/p")) None (fun _ => true) (fun _ => true).

(** When the cache is due for a refresh and memory suffices, the verdict
    is exact: a path is protected if and only if it has a protected name or
    it is (by device and inode, so also through a hard link or a rename) one
    of the files of the scan list: the seven names in the working directory,
    in up to three parents and in the root, and the global configuration. *)
Theorem is_protected_file_exact {F : Fnmatch} {FS : FnmatchSpec F} env path st :
  path <> [] -> memory_ok env -> refresh_due env st ->
  (is_protected_file env true path st).2 = true <->
  protected_name (components path) \/
  exists p id, p ∈ scan_list env /\ p <> [] /\ sys_stat env p = Some id /\ sys_stat env path = Some id.
Proof.
  intros Hp Hm Hdue. rewrite is_protected_file_eq by done. simpl.
  destruct (normalize_path path) as [np|] eqn:E; [|by destruct path].
  rewrite orb_true_iff, (name_checks_true path np E), in_cache_inode by done.
  setoid_rewrite ready_keys; [|done..]. split.
  - intros [H|(id & Hs & q & Hq & Hq' & Hid)]; [by left|right; by exists q, id].
  - intros [H|(q & id & Hq & Hq' & Hid & Hs)]; [by left|right]. exists id. split; [done|by exists q].
Qed.

Lemma is_protected_file_exact_witness :
  (is_protected_file sample_env true (cs "/tmp/x") protected_initial).2 = true.
Proof.
  apply is_protected_file_exact.
  - vm_compute. discriminate.
  - split; reflexivity.
  - vm_compute. discriminate.
  - right. exists (cs "/w/p/.env"), (1, 42)%Z. split_and!; try (vm_compute; reflexivity).
    + apply list_elem_of_In. vm_compute. tauto.
    + vm_compute. discriminate.
Defined.

(** In every state the operations of the module can reach, whatever the
    system answers, the cache holds no inode twice, its entries fit the
    allocated array, and it never holds more than 36 entries nor grows beyond
    64 slots, so the doubling of the [int] capacity never overflows. *)
Theorem inode_cache_bounded {F : Fnmatch} (ops : list pf_op) :
  let st := foldl pf_run protected_initial ops in
  NoDup (map key (inodes st)) /\
  (Z.of_nat (length (inodes st)) <= capacity st)%Z /\
  (length (inodes st) <= 36)%nat /\ capacity st ∈ [0; 16; 32; 64]%Z.
Proof.
  enough (cache_ok 36 (foldl pf_run protected_initial ops)) as H by (cbv zeta; by destruct H).
  assert (cache_ok 36 protected_initial) as H0 by (split; simpl; [constructor|lia|lia|set_solver]).
  revert H0. generalize protected_initial. induction ops as [|op ops IH]; intros st Hst; [done|].
  simpl. apply IH. by apply pf_run_ok.
Qed.
