(* ===== verification/PatternGenerator.v ===== *)
(** * Allowlist pattern generation (lib/policy/pattern_generator.c)

    The regular expression or command prefix that "always allow" adds for a
    file path, a URL or a shell command, and what each pattern matches. The
    formatting allocations (asprintf, strdup) are taken to succeed. *)

From S2P Require Import Prelude CString Regex ShellBase ShellParser.
Local Open Scope char_scope.
Local Open Scope bool_scope.

(** [command_prefix] is [] for the NULL pointer. *)
Record GeneratedPattern := mkGeneratedPattern {
  pattern : option cstr;
  command_prefix : list cstr;
  is_exact_match : bool;
  needs_confirmation : bool;
  example_matches : list cstr
}.

(** After the memset. *)
Definition empty_pattern : GeneratedPattern := mkGeneratedPattern None [] false false [].

Definition exact_pattern (p : option cstr) (prefix : list cstr) : GeneratedPattern :=
  mkGeneratedPattern p prefix true false [].
Definition broad_pattern (p : option cstr) (prefix examples : list cstr) : GeneratedPattern :=
  mkGeneratedPattern p prefix false true examples.

Fixpoint regex_escape (str : cstr) : cstr :=
  match str with
  | [] => []
  | c :: t => match strchr ere_meta c with
              | Some _ => "\" :: c :: regex_escape t
              | None => c :: regex_escape t
              end
  end.

Definition is_root_path (path : cstr) : bool :=
  let path := match path with
              | a :: b :: t => if Ascii.eqb a "." && Ascii.eqb b "/" then t else path
              | _ => path
              end in
  match strchr path "/" with None => true | Some _ => false end.

Definition is_tmp_path (path : cstr) : bool :=
  has_prefix (cs "/tmp/") path || has_prefix (cs "/tmp") path.

Definition get_directory (path : cstr) : cstr :=
  match strrchr path "/" with
  | None => cs "."
  | Some last_slash =>
      match take (length path - length last_slash) path with
      | [] => cs "/"
      | dir => dir
      end
  end.

Definition get_basename_simple (path : cstr) : cstr :=
  match strrchr path "/" with Some last_slash => tail last_slash | None => path end.

(** The suffix of the path that the returned pointer denotes. *)
Definition get_extension (path : cstr) : option cstr :=
  let basename := get_basename_simple path in
  match strrchr basename "." with
  | None => None
  | Some last_dot => if (length last_dot =? length basename)%nat then None else Some last_dot
  end.

(** "^%s$" of an escaped string *)
Definition anchored (str : cstr) : cstr := "^" :: regex_escape str ++ ["$"].

Definition generate_file_path_pattern (path : cstr) : GeneratedPattern * Z :=
  if is_root_path path then (exact_pattern (Some (anchored path)) [], 0%Z)
  else if is_tmp_path path then (exact_pattern (Some (anchored path)) [], 0%Z)
  else
    let dir := get_directory path in
    let escaped_dir := regex_escape dir in
    let basename := get_basename_simple path in
    match get_extension path with
    | Some ext =>
        let escaped_ext := regex_escape ext in
        let pat :=
          match strchr basename "_" with
          | Some underscore =>
              if (length ext <? length underscore)%nat then
                let prefix := take (length basename - length underscore + 1) basename in
                "^" :: escaped_dir ++ "/" :: regex_escape prefix ++ cs ".*" ++ escaped_ext ++ ["$"]
              else "^" :: escaped_dir ++ cs "/.*" ++ escaped_ext ++ ["$"]
          | None => "^" :: escaped_dir ++ cs "/.*" ++ escaped_ext ++ ["$"]
          end in
        (broad_pattern (Some pat) []
           [dir ++ cs "/foo" ++ ext; dir ++ cs "/bar" ++ ext; dir ++ cs "/other" ++ ext], 0%Z)
    | None => (exact_pattern (Some (anchored path)) [], 0%Z)
    end.

Definition sp : cstr := cs " ".

Definition generate_shell_command_pattern (env_SHELL : option cstr) (command : cstr)
    : GeneratedPattern * Z :=
  match parse_shell_command env_SHELL command with
  | None => (empty_pattern, (-1)%Z)
  | Some parsed =>
      if negb (shell_command_is_safe_for_matching parsed) then (exact_pattern None [], 0%Z)
      else
        let token_count := length (tokens parsed) in
        let prefix_len := if (2 <=? token_count)%nat then 2%nat else token_count in
        if (prefix_len =? 0)%nat then (empty_pattern, (-1)%Z)
        else
          let prefix := take prefix_len (tokens parsed) in
          if (prefix_len <? token_count)%nat then
            let t0 := nth 0 (tokens parsed) [] in
            let t1 := nth 1 (tokens parsed) [] in
            let examples :=
              if (prefix_len =? 1)%nat
              then [t0 ++ cs " --help"; t0 ++ cs " -v"; t0 ++ cs " <any args>"]
              else [t0 ++ sp ++ t1 ++ cs " <any args>"; t0 ++ sp ++ t1 ++ cs " -v";
                    t0 ++ sp ++ t1 ++ cs " --all"] in
            (broad_pattern None prefix examples, 0%Z)
          else (exact_pattern None prefix, 0%Z)
  end.

(** The scan for the end of the host. *)
Fixpoint host_of (p : cstr) : cstr :=
  match p with
  | [] => []
  | c :: t => if Ascii.eqb c "/" || Ascii.eqb c ":" || Ascii.eqb c "?" then [] else c :: host_of t
  end.

Definition generate_network_url_pattern (url : cstr) : GeneratedPattern * Z :=
  match strstr url (cs "://") with
  | None => (exact_pattern (Some (anchored url)) [], 0%Z)
  | Some scheme_end =>
      let scheme := take (length url - length scheme_end) url in
      let hostname := host_of (drop 3 scheme_end) in
      if (length hostname =? 0)%nat then (empty_pattern, (-1)%Z)
      else
        let pat := "^" :: regex_escape scheme ++ cs "://" ++ regex_escape hostname ++ cs "(/|$)" in
        let base_url := take (length scheme + 3 + length hostname) url in
        (broad_pattern (Some pat) []
           [base_url ++ cs "/any/path"; base_url ++ cs "/api/v1"; base_url], 0%Z)
  end.

(** ** Lemmas *)

Lemma strchr_meta c : match strchr ere_meta c with Some _ => true | None => false end = is_meta c.
Proof.
  unfold is_meta. generalize ere_meta. intros l. induction l as [|x l IH]; [done|]. simpl.
  rewrite <- IH. destruct (Ascii.eqb_spec x c) as [->|Hne].
  - by rewrite Ascii.eqb_refl.
  - destruct (Ascii.eqb_spec c x); [congruence|done].
Qed.

(** Escaping renders each character as a literal item. *)
Lemma regex_escape_render s : regex_escape s = render_items (map Lit s).
Proof.
  induction s as [|c s IH]; [done|]. cbn [regex_escape map]. unfold render_items in *.
  cbn [map concat]. rewrite <- IH. cbn [render_item]. rewrite <- strchr_meta.
  by destruct (strchr ere_meta c).
Qed.

Lemma render_items_app l k : render_items (l ++ k) = render_items l ++ render_items k.
Proof. unfold render_items. by rewrite map_app, concat_app. Qed.

Lemma anchored_render s : anchored s = render_ere (map Lit s) true.
Proof. unfold anchored, render_ere. by rewrite regex_escape_render. Qed.

Lemma broad_render pre ext :
  "^" :: regex_escape pre ++ cs ".*" ++ regex_escape ext ++ ["$"] =
  render_ere (map Lit pre ++ AnySeq :: map Lit ext) true.
Proof.
  unfold render_ere. rewrite render_items_app, !regex_escape_render.
  unfold render_items at 4. cbn [map concat render_item]. by rewrite <- !app_assoc.
Qed.

Lemma regex_escape_app a b : regex_escape (a ++ b) = regex_escape a ++ regex_escape b.
Proof. by rewrite !regex_escape_render, map_app, render_items_app. Qed.

Lemma host_split p : exists rest, p = host_of p ++ rest /\
  (rest = [] \/ exists c t, rest = c :: t /\ (c = "/" \/ c = ":" \/ c = "?")).
Proof.
  induction p as [|c p (rest & Hp & Hr)]; simpl; [exists []; auto|].
  destruct (Ascii.eqb c "/" || Ascii.eqb c ":" || Ascii.eqb c "?") eqn:E.
  - exists (c :: p). split; [done|]. right. exists c, p. split; [done|].
    rewrite !orb_true_iff, !ascii_eqb_true in E. tauto.
  - exists rest. split; [simpl; by rewrite <- Hp|done].
Qed.

(** A path with a slash, split at its last one. *)
Lemma path_split path :
  strchr path "/" <> None ->
  exists pre base, path = pre ++ "/" :: base /\ "/" ∉ base /\
    get_directory path = (match pre with [] => ["/"] | _ => pre end) /\
    get_basename_simple path = base.
Proof.
  intros Hs. unfold get_directory, get_basename_simple.
  destruct (strrchr path "/") as [l|] eqn:E.
  - apply strrchr_Some in E as (pre & base & -> & -> & Hn). exists pre, base.
    split; [done|]. split; [done|]. split; [|done].
    rewrite length_app, Nat.add_sub, take_app_length. by destruct pre.
  - exfalso. apply Hs. apply strchr_None. by apply strrchr_None.
Qed.

Lemma not_root_slash path : is_root_path path = false -> strchr path "/" <> None.
Proof.
  unfold is_root_path. destruct path as [|a [|b t]]; [done|by destruct (strchr _ _)|].
  destruct (Ascii.eqb a "." && Ascii.eqb b "/") eqn:E.
  - intros _ H. apply strchr_None in H. apply andb_true_iff in E as [_ E].
    apply ascii_eqb_true in E as ->. set_solver.
  - by destruct (strchr _ _).
Qed.

(** The stem and the extension of a basename. *)
Lemma extension_split path ext :
  get_extension path = Some ext ->
  exists stem, get_basename_simple path = stem ++ ext /\ stem <> [] /\ exists t, ext = "." :: t.
Proof.
  unfold get_extension. destruct (strrchr (get_basename_simple path) ".") as [l|] eqn:E; [|done].
  apply strrchr_Some in E as (stem & t & Hb & -> & _). rewrite Hb.
  destruct (Nat.eqb_spec (length ("." :: t)) (length (stem ++ "." :: t))) as [Hl|Hl]; [done|].
  intros [= <-]. exists stem. split_and!; [done| |by exists t].
  intros ->. by apply Hl.
Qed.

(** The literal text before and after the wildcard of a broad file pattern. *)
Definition file_prefix (path ext : cstr) : cstr :=
  get_directory path ++ "/" ::
    match strchr (get_basename_simple path) "_" with
    | Some underscore =>
        if (length ext <? length underscore)%nat
        then take (length (get_basename_simple path) - length underscore + 1) (get_basename_simple path)
        else []
    | None => []
    end.

Lemma lit_slash : regex_escape ["/"] = ["/"].
Proof. reflexivity. Qed.

Lemma file_pattern_render path ext :
  is_root_path path = false -> is_tmp_path path = false -> get_extension path = Some ext ->
  exists ex, generate_file_path_pattern path =
    (broad_pattern (Some (render_ere (map Lit (file_prefix path ext) ++ AnySeq :: map Lit ext) true)) [] ex, 0%Z).
Proof.
  intros Hr Ht He. unfold generate_file_path_pattern. rewrite Hr, Ht, He.
  eexists. f_equal. f_equal. f_equal. rewrite <- broad_render. unfold file_prefix.
  change (get_directory path ++ "/" :: ?x) with (get_directory path ++ ["/"] ++ x).
  rewrite !regex_escape_app, lit_slash.
  destruct (strchr (get_basename_simple path) "_") as [u|]; [destruct (_ <? _)%nat|];
    cbn [regex_escape app]; by rewrite <- ?app_assoc.
Qed.

Section Meaning.
Context {R : Regex} {RS : RegexSpec R}.

Lemma exact_meaning s :
  exists r, regcomp (anchored s) = Some r /\ forall t, regexec r t = true <-> t = s.
Proof using RS.
  rewrite anchored_render. destruct (regex_fragment (map Lit s) true) as (r & Hr & He).
  exists r. split; [done|]. intros t. rewrite He. rewrite <- (app_nil_r (map Lit s)).
  rewrite ere_match_lits. split.
  - intros (u & -> & Hu). apply ere_match_end in Hu as ->. by rewrite app_nil_r.
  - intros ->. exists []. by rewrite app_nil_r.
Qed.

Lemma broad_meaning pre ext :
  exists r, regcomp (render_ere (map Lit pre ++ AnySeq :: map Lit ext) true) = Some r /\
    forall t, regexec r t = true <-> exists mid, t = pre ++ mid ++ ext.
Proof using RS.
  destruct (regex_fragment (map Lit pre ++ AnySeq :: map Lit ext) true) as (r & Hr & He).
  exists r. split; [done|]. intros t. rewrite He, ere_match_lits.
  setoid_rewrite ere_match_any. rewrite <- (app_nil_r (map Lit ext)).
  setoid_rewrite ere_match_lits. split.
  - intros (u & -> & a & v & -> & w & -> & Hw). apply ere_match_end in Hw as ->.
    exists a. by rewrite app_nil_r.
  - intros (mid & ->). exists (mid ++ ext). split; [done|]. exists mid, ext.
    split; [done|]. exists []. by rewrite app_nil_r.
Qed.
End Meaning.

(** The wildcard prefix of a broad pattern is a proper beginning of the name. *)
Lemma broad_covers path pre base ext :
  path = pre ++ "/" :: base -> get_basename_simple path = base -> pre <> [] ->
  get_directory path = pre -> get_extension path = Some ext ->
  exists mid, path = file_prefix path ext ++ mid ++ ext.
Proof.
  intros Hp Hb Hne Hd He. destruct (extension_split path ext He) as (stem & Hbase & _ & t & Ht).
  unfold file_prefix. rewrite Hd, Hb. rewrite Hb in Hbase.
  enough (exists mid, base = match strchr base "_" with
    | Some underscore => if (length ext <? length underscore)%nat
                         then take (length base - length underscore + 1) base else []
    | None => [] end ++ mid ++ ext) as [mid Hmid].
  { exists mid. rewrite Hp, <- app_assoc. simpl. f_equal. f_equal. exact Hmid. }
  destruct (strchr base "_") as [u|] eqn:Eu; [|by exists stem].
  destruct (Nat.ltb_spec (length ext) (length u)) as [Hl|Hl]; [|by exists stem].
  apply strchr_Some in Eu as (a & b & Hab & -> & _).
  assert (take (length base - length ("_" :: b) + 1) base = a ++ ["_"]) as ->.
  { rewrite Hab, length_app, Nat.add_sub, take_app_add. done. }
  assert (base = (a ++ ["_"]) ++ b) as Hab' by (rewrite <- app_assoc; done).
  rewrite Hab' in Hbase. apply app_eq_inv in Hbase as [(k & Hk & He')|(k & Hk & Hb')].
  - rewrite He', length_app in Hl. simpl in Hl. assert (k = []) as ->.
    { destruct k; [done|]. simpl in Hl. lia. }
    exists []. simpl in *. by rewrite He'.
  - exists k. by rewrite Hab', Hb'.
Qed.

(** ** Properties *)

(** The pattern generated for a file path always compiles, and means what
    it is labelled with. An exact pattern (always used in the current
    directory, under /tmp and for names without extension) matches the path
    and nothing else; a broad one asks for confirmation and matches exactly
    the strings that start with its literal prefix (directory, slash and, for
    names like test_x.c, the part up to the underscore) and end in the
    extension. It covers the path it was made from, except when that path is
    directly under the root directory. *)
Theorem file_pattern_meaning {R : Regex} {RS : RegexSpec R} path :
  exists gp pat r,
    generate_file_path_pattern path = (gp, 0%Z) /\ pattern gp = Some pat /\ command_prefix gp = [] /\
    regcomp pat = Some r /\ needs_confirmation gp = negb (is_exact_match gp) /\
    if is_exact_match gp then forall s, regexec r s = true <-> s = path
    else is_root_path path = false /\ is_tmp_path path = false /\
      exists ext, get_extension path = Some ext /\
        (forall s, regexec r s = true <-> exists mid, s = file_prefix path ext ++ mid ++ ext) /\
        (regexec r path = false <-> exists base, path = "/" :: base /\ "/" ∉ base).
Proof.
  destruct (exact_meaning path) as (re & Hre & Hexact).
  destruct (is_root_path path) eqn:Hr; [|destruct (is_tmp_path path) eqn:Ht;
    [|destruct (get_extension path) as [ext|] eqn:He]].
  - unfold generate_file_path_pattern. rewrite Hr. eauto 12.
  - unfold generate_file_path_pattern. rewrite Hr, Ht. eauto 12.
  - destruct (file_pattern_render path ext Hr Ht He) as [ex ->].
    destruct (broad_meaning (file_prefix path ext) ext) as (r & Hc & Hm).
    eexists _, _, r. split_and!; [done..|]. simpl. split_and!; [done..|].
    exists ext. split_and!; [done..|]. rewrite <- not_true_iff_false, Hm.
    destruct (path_split path (not_root_slash path Hr)) as (pre & base & Hp & Hn & Hd & Hb).
    destruct pre as [|x pre].
    + split; [intros _; by exists base|]. intros _ [mid E]. unfold file_prefix in E.
      rewrite Hd in E. rewrite Hp in E at 1. injection E as Eb. apply Hn. rewrite Eb. left.
    + split.
      * intros H. exfalso. apply H. by eapply broad_covers.
      * intros (b & E & Hnb). rewrite Hp in E. injection E as _ Eb. exfalso. apply Hnb.
        rewrite <- Eb. apply elem_of_app. right. left.
  - unfold generate_file_path_pattern. rewrite Hr, Ht, He. eauto 12.
Qed.

Lemma file_pattern_meaning_witness :
  exists gp pat r,
    generate_file_path_pattern (cs "/w/test_a.c") = (gp, 0%Z) /\ pattern gp = Some pat /\
    regcomp (Regex := RefRegex) pat = Some r /\ regexec r (cs "/w/test_b.c") = true.
Proof.
  destruct (file_pattern_meaning (R := RefRegex) (cs "/w/test_a.c"))
    as (gp & pat & r & H & Hp & _ & Hr & _ & Hm).
  exists gp, pat, r. split; [exact H|]. split; [exact Hp|]. split; [exact Hr|].
  vm_compute in H. injection H as <-. destruct Hm as (_ & _ & ext & He & Hm & _).
  apply Hm. vm_compute in He. injection He as <-. exists (cs "b"). vm_compute. reflexivity.
Defined.

(** The pattern generated for a URL with a scheme matches exactly
    scheme://host itself and the URLs that go on with a slash after the host,
    so no other host that merely starts with the approved one; it covers the
    URL it was made from exactly when that URL has no port and no query
    directly after the host. A URL without host is refused. *)
Theorem url_pattern_meaning {R : Regex} {RS : RegexSpec R} scheme rest :
  strstr (scheme ++ cs "://" ++ rest) (cs "://") = Some (cs "://" ++ rest) ->
  let url := scheme ++ cs "://" ++ rest in
  let base := scheme ++ cs "://" ++ host_of rest in
  if (length (host_of rest) =? 0)%nat then generate_network_url_pattern url = (empty_pattern, (-1)%Z)
  else exists gp pat r,
    generate_network_url_pattern url = (gp, 0%Z) /\ pattern gp = Some pat /\
    regcomp pat = Some r /\ needs_confirmation gp = true /\
    (forall s, regexec r s = true <-> s = base \/ exists t, s = base ++ "/" :: t) /\
    (regexec r url = true <-> rest = host_of rest \/ exists t, rest = host_of rest ++ "/" :: t).
Proof.
  intros Hs. cbv zeta. unfold generate_network_url_pattern. rewrite Hs.
  replace (length (scheme ++ cs "://" ++ rest) - length (cs "://" ++ rest))%nat
    with (length scheme) by (rewrite length_app; lia).
  rewrite take_app_length. change (drop 3 (cs "://" ++ rest)) with rest.
  destruct (length (host_of rest) =? 0)%nat eqn:Hh; [done|].
  set (lits := scheme ++ cs "://" ++ host_of rest).
  assert ("^" :: regex_escape scheme ++ cs "://" ++ regex_escape (host_of rest) ++ cs "(/|$)" =
          render_ere (map Lit lits ++ [SlashOrEnd]) false) as ->.
  { unfold render_ere, lits. rewrite !map_app, !render_items_app, <- !regex_escape_render.
    rewrite app_nil_r. by rewrite <- !app_assoc. }
  destruct (regex_fragment (map Lit lits ++ [SlashOrEnd]) false) as (r & Hr & He).
  assert (forall s, regexec r s = true <-> s = lits \/ exists t, s = lits ++ "/" :: t) as Hm.
  { intros s. rewrite He, ere_match_lits. setoid_rewrite ere_match_slash_or_end. split.
    - intros (t & -> & [->|[u ->]]); [left; by rewrite app_nil_r|eauto].
    - intros [->|[t ->]]; [exists []; rewrite app_nil_r; auto|eauto]. }
  eexists _, _, r. split_and!; [done..|]. rewrite Hm. unfold lits.
  split; (intros [H|[t H]]; [left|right; exists t]).
  - by apply app_inv_head, app_inv_head in H.
  - rewrite <- !app_assoc in H. by apply app_inv_head, app_inv_head in H.
  - by rewrite H at 1.
  - rewrite <- !app_assoc. by rewrite H at 1.
Qed.

Lemma url_pattern_meaning_witness :
  exists gp pat r,
    generate_network_url_pattern (cs "https://a.b/c") = (gp, 0%Z) /\ pattern gp = Some pat /\
    regcomp (Regex := RefRegex) pat = Some r /\ regexec r (cs "https://a.b.evil/c") = false.
Proof.
  destruct (url_pattern_meaning (R := RefRegex) (cs "https") (cs "a.b/c"))
    as (gp & pat & r & H & Hp & Hr & _ & Hm & _); [vm_compute; reflexivity|].
  exists gp, pat, r. split; [exact H|]. split; [exact Hp|]. split; [exact Hr|].
  apply not_true_iff_false. intros E. apply Hm in E as [E|[t E]]; discriminate E.
Defined.
