(* ===== verification/ToolArgs.v ===== *)
(** * Tool calls and their JSON arguments (lib/types.h, lib/policy/tool_args.c)

    Reading single arguments of a call, over the interface of file Json. *)

From S2P Require Import Prelude CString Json.
Local Open Scope char_scope.
Local Open Scope bool_scope.

(** [id] is only passed through; NULL pointers are [None]. *)
Record ToolCall := mkToolCall {
  tc_id : cstr;
  tc_name : option cstr;
  tc_arguments : option cstr
}.

Section ToolArgs.
Context {J : CJson}.

Definition parse_args (tool_call : ToolCall) : option cJSON :=
  args ← tc_arguments tool_call; cJSON_Parse args.

Definition tool_args_get_string (tool_call : ToolCall) (key : cstr) : option cstr :=
  args ← parse_args tool_call; cJSON_IsString (cJSON_GetObjectItem args key).

Definition tool_args_get_command (tool_call : ToolCall) : option cstr :=
  tool_args_get_string tool_call (cs "command").

Definition path_keys : list cstr := [cs "path"; cs "file_path"; cs "filepath"; cs "filename"].

Fixpoint first_string (args : cJSON) (keys : list cstr) : option cstr :=
  match keys with
  | [] => None
  | k :: keys' => match cJSON_IsString (cJSON_GetObjectItem args k) with
                  | Some v => Some v
                  | None => first_string args keys'
                  end
  end.

Definition tool_args_get_path (tool_call : ToolCall) : option cstr :=
  args ← parse_args tool_call; first_string args path_keys.

Definition tool_args_get_url (tool_call : ToolCall) : option cstr :=
  tool_args_get_string tool_call (cs "url").

Definition tool_args_get_int (tool_call : ToolCall) (key : cstr) : option Z :=
  args ← parse_args tool_call; valueint <$> cJSON_IsNumber (cJSON_GetObjectItem args key).

Definition tool_args_get_bool (tool_call : ToolCall) (key : cstr) : option bool :=
  args ← parse_args tool_call; cJSON_IsBool (cJSON_GetObjectItem args key).

Lemma tool_args_get_path_parsed tool_call p :
  tool_args_get_path tool_call = Some p ->
  exists args k, parse_args tool_call = Some args /\ k ∈ path_keys /\
                 cJSON_GetObjectItem args k = Some (JString p).
Proof using Type.
  unfold tool_args_get_path. destruct (parse_args tool_call) as [args|]; [|done].
  change (first_string args path_keys = Some p -> exists a k, Some args = Some a /\ k ∈ path_keys /\
    cJSON_GetObjectItem a k = Some (JString p)).
  generalize path_keys. intros ks H. exists args.
  enough (exists k, k ∈ ks /\ cJSON_GetObjectItem args k = Some (JString p)) by naive_solver.
  induction ks as [|k ks IH]; simpl in H; [done|].
  destruct (cJSON_GetObjectItem args k) as [[]|] eqn:E; simpl in H;
    try (destruct (IH H) as (k' & Hk' & Hp); exists k'; split; [by right|done]).
  simplify_eq. exists k. split; [left|done].
Qed.
End ToolArgs.
