(* ===== verification/ApprovalGate.v ===== *)
(** * The approval gate: configuration and decision (lib/policy/approval_gate.c)

    The gate configuration with its two allowlists, loading it from JSON,
    inheritance by subagents, tool categories, allowlist matching and the
    decision approval_gate_requires_check. Interaction with the user is in
    ApprovalPrompt. *)

From S2P Require Import Prelude CString Regex RateLimiter ShellBase ShellParser Json ToolArgs.
Local Open Scope char_scope.
Local Open Scope bool_scope.

(** ** Data *)

Inductive GateAction := GATE_ACTION_ALLOW | GATE_ACTION_GATE | GATE_ACTION_DENY.

Inductive GateCategory :=
| GATE_CATEGORY_FILE_WRITE | GATE_CATEGORY_FILE_READ | GATE_CATEGORY_SHELL
| GATE_CATEGORY_NETWORK | GATE_CATEGORY_MEMORY | GATE_CATEGORY_SUBAGENT
| GATE_CATEGORY_MCP | GATE_CATEGORY_PYTHON | GATE_CATEGORY_PLUGIN.

(** The enumeration; [APPROVAL_OTHER] is a value outside it, which the cast of
    an integer read from the approval pipe can produce. *)
Inductive ApprovalResult :=
| APPROVAL_ALLOWED | APPROVAL_DENIED | APPROVAL_ALLOWED_ALWAYS | APPROVAL_ABORTED
| APPROVAL_RATE_LIMITED | APPROVAL_NON_INTERACTIVE_DENIED | APPROVAL_OTHER (value : Z).

#[export] Instance GateAction_eq_dec : EqDecision GateAction.
Proof. solve_decision. Defined.
#[export] Instance GateCategory_eq_dec : EqDecision GateCategory.
Proof. solve_decision. Defined.
#[export] Instance ApprovalResult_eq_dec : EqDecision ApprovalResult.
Proof. solve_decision. Defined.

Definition DEFAULT_CATEGORY_ACTIONS (c : GateCategory) : GateAction :=
  match c with
  | GATE_CATEGORY_FILE_WRITE => GATE_ACTION_GATE
  | GATE_CATEGORY_FILE_READ => GATE_ACTION_ALLOW
  | GATE_CATEGORY_SHELL => GATE_ACTION_GATE
  | GATE_CATEGORY_NETWORK => GATE_ACTION_GATE
  | GATE_CATEGORY_MEMORY => GATE_ACTION_ALLOW
  | GATE_CATEGORY_SUBAGENT => GATE_ACTION_GATE
  | GATE_CATEGORY_MCP => GATE_ACTION_GATE
  | GATE_CATEGORY_PYTHON => GATE_ACTION_ALLOW
  | GATE_CATEGORY_PLUGIN => GATE_ACTION_GATE
  end.

(** CATEGORY_NAMES, ACTION_NAMES and RESULT_NAMES behind their accessors. *)
Definition gate_category_name (c : GateCategory) : cstr :=
  match c with
  | GATE_CATEGORY_FILE_WRITE => cs "file_write"
  | GATE_CATEGORY_FILE_READ => cs "file_read"
  | GATE_CATEGORY_SHELL => cs "shell"
  | GATE_CATEGORY_NETWORK => cs "network"
  | GATE_CATEGORY_MEMORY => cs "memory"
  | GATE_CATEGORY_SUBAGENT => cs "subagent"
  | GATE_CATEGORY_MCP => cs "mcp"
  | GATE_CATEGORY_PYTHON => cs "python"
  | GATE_CATEGORY_PLUGIN => cs "plugin"
  end.

Definition gate_action_name (a : GateAction) : cstr :=
  match a with
  | GATE_ACTION_ALLOW => cs "allow"
  | GATE_ACTION_GATE => cs "gate"
  | GATE_ACTION_DENY => cs "deny"
  end.

Definition approval_result_name (r : ApprovalResult) : cstr :=
  match r with
  | APPROVAL_ALLOWED => cs "allowed"
  | APPROVAL_DENIED => cs "denied"
  | APPROVAL_NON_INTERACTIVE_DENIED => cs "non_interactive_denied"
  | APPROVAL_ALLOWED_ALWAYS => cs "allowed_always"
  | APPROVAL_ABORTED => cs "aborted"
  | APPROVAL_RATE_LIMITED => cs "rate_limited"
  | APPROVAL_OTHER _ => cs "unknown"
  end.

Definition all_categories : list GateCategory :=
  [GATE_CATEGORY_FILE_WRITE; GATE_CATEGORY_FILE_READ; GATE_CATEGORY_SHELL;
   GATE_CATEGORY_NETWORK; GATE_CATEGORY_MEMORY; GATE_CATEGORY_SUBAGENT;
   GATE_CATEGORY_MCP; GATE_CATEGORY_PYTHON; GATE_CATEGORY_PLUGIN].

Definition parse_gate_action (str : cstr) : option GateAction :=
  if streq str (cs "allow") then Some GATE_ACTION_ALLOW
  else if streq str (cs "gate") then Some GATE_ACTION_GATE
  else if streq str (cs "deny") then Some GATE_ACTION_DENY
  else None.

(** The search through CATEGORY_NAMES in index order. *)
Definition parse_gate_category (str : cstr) : option GateCategory :=
  find (fun c => streq str (gate_category_name c)) all_categories.

Definition INITIAL_ALLOWLIST_CAPACITY : Z := 16.
Definition INITIAL_SHELL_ALLOWLIST_CAPACITY : Z := 16.

Record ShellAllowEntry := mkShellAllowEntry {
  sa_prefix : list cstr;
  sa_shell_type : ShellType
}.

(** NULL function pointers are [None]; the results of the string callbacks
    may be NULL too. *)
Record ApprovalGateCallbacks := mkCallbacks {
  cb_is_extension_tool : option (cstr -> bool);
  cb_get_gate_category : option (cstr -> option cstr);
  cb_get_match_arg : option (cstr -> option cstr)
}.

(** The zero-initialised callbacks. *)
Definition no_callbacks : ApprovalGateCallbacks := mkCallbacks None None None.

(** The answers of the allocator: growing an array to a capacity, and
    copying strings. *)
Record GateAlloc := mkGateAlloc {
  ga_realloc : Z -> bool;
  ga_dup : list cstr -> bool
}.

Definition memory_available : GateAlloc := mkGateAlloc (fun _ => true) (fun _ => true).

Section Gate.
Context {R : Regex} {J : CJson}.

(** [ae_compiled] is the compiled expression when [valid] is set. *)
Record AllowlistEntry := mkAllowlistEntry {
  ae_tool : cstr;
  ae_pattern : cstr;
  ae_compiled : option regex_t
}.

(** The counts are the lengths of the lists; [rate_limiter] is [None] after
    cleanup. The field approval_channel is always NULL. *)
Record ApprovalGateConfig := mkConfig {
  enabled : bool;
  is_interactive : bool;
  categories : GateCategory -> GateAction;
  allowlist : list AllowlistEntry;
  allowlist_capacity : Z;
  static_allowlist_count : Z;
  shell_allowlist : list ShellAllowEntry;
  shell_allowlist_capacity : Z;
  static_shell_allowlist_count : Z;
  rate_limiter : option RateLimiter
}.

Definition with_enabled (b : bool) (c : ApprovalGateConfig) : ApprovalGateConfig :=
  mkConfig b (is_interactive c) (categories c) (allowlist c) (allowlist_capacity c)
    (static_allowlist_count c) (shell_allowlist c) (shell_allowlist_capacity c)
    (static_shell_allowlist_count c) (rate_limiter c).
Definition with_interactive (b : bool) (c : ApprovalGateConfig) : ApprovalGateConfig :=
  mkConfig (enabled c) b (categories c) (allowlist c) (allowlist_capacity c)
    (static_allowlist_count c) (shell_allowlist c) (shell_allowlist_capacity c)
    (static_shell_allowlist_count c) (rate_limiter c).
Definition with_category (cat : GateCategory) (a : GateAction) (c : ApprovalGateConfig)
    : ApprovalGateConfig :=
  mkConfig (enabled c) (is_interactive c)
    (fun k => if decide (k = cat) then a else categories c k) (allowlist c) (allowlist_capacity c)
    (static_allowlist_count c) (shell_allowlist c) (shell_allowlist_capacity c)
    (static_shell_allowlist_count c) (rate_limiter c).
Definition with_allowlist (l : list AllowlistEntry) (cap : Z) (c : ApprovalGateConfig)
    : ApprovalGateConfig :=
  mkConfig (enabled c) (is_interactive c) (categories c) l cap
    (static_allowlist_count c) (shell_allowlist c) (shell_allowlist_capacity c)
    (static_shell_allowlist_count c) (rate_limiter c).
Definition with_shell_allowlist (l : list ShellAllowEntry) (cap : Z) (c : ApprovalGateConfig)
    : ApprovalGateConfig :=
  mkConfig (enabled c) (is_interactive c) (categories c) (allowlist c) (allowlist_capacity c)
    (static_allowlist_count c) l cap (static_shell_allowlist_count c) (rate_limiter c).
Definition with_statics (n m : Z) (c : ApprovalGateConfig) : ApprovalGateConfig :=
  mkConfig (enabled c) (is_interactive c) (categories c) (allowlist c) (allowlist_capacity c)
    n (shell_allowlist c) (shell_allowlist_capacity c) m (rate_limiter c).
Definition with_rate_limiter (rl : option RateLimiter) (c : ApprovalGateConfig)
    : ApprovalGateConfig :=
  mkConfig (enabled c) (is_interactive c) (categories c) (allowlist c) (allowlist_capacity c)
    (static_allowlist_count c) (shell_allowlist c) (shell_allowlist_capacity c)
    (static_shell_allowlist_count c) rl.

(** ** Adding entries *)

(** [if (count >= capacity) { realloc to capacity * 2 }]: the capacity
    afterwards, or [None] when the reallocation fails. *)
Definition grown_capacity (ga : GateAlloc) (count cap : Z) : option Z :=
  if (cap <=? count)%Z then
    let new_capacity := wrap32 (cap * 2) in
    if ga_realloc ga new_capacity then Some new_capacity else None
  else Some cap.

(** A pattern that does not compile is kept, marked invalid. *)
Definition approval_gate_add_allowlist (ga : GateAlloc) (config : ApprovalGateConfig)
    (tool pattern : cstr) : ApprovalGateConfig * Z :=
  match grown_capacity ga (Z.of_nat (length (allowlist config))) (allowlist_capacity config) with
  | None => (config, (-1)%Z)
  | Some cap =>
      if negb (ga_dup ga [tool; pattern]) then (with_allowlist (allowlist config) cap config, (-1)%Z)
      else
        let entry := mkAllowlistEntry tool pattern (regcomp pattern) in
        (with_allowlist (allowlist config ++ [entry]) cap config, 0%Z)
  end.

Definition approval_gate_add_shell_allowlist (ga : GateAlloc) (config : ApprovalGateConfig)
    (prefix : list cstr) (shell_type : ShellType) : ApprovalGateConfig * Z :=
  match prefix with
  | [] => (config, (-1)%Z)
  | _ =>
      match grown_capacity ga (Z.of_nat (length (shell_allowlist config)))
              (shell_allowlist_capacity config) with
      | None => (config, (-1)%Z)
      | Some cap =>
          if negb (ga_dup ga prefix)
          then (with_shell_allowlist (shell_allowlist config) cap config, (-1)%Z)
          else (with_shell_allowlist (shell_allowlist config ++ [mkShellAllowEntry prefix shell_type])
                  cap config, 0%Z)
      end
  end.

(** ** Loading the configuration file *)

Definition load_category (config : ApprovalGateConfig) (cat_item : cstr * cJSON)
    : ApprovalGateConfig :=
  match cat_item.2 with
  | JString valuestring =>
      match parse_gate_category cat_item.1 with
      | None => config
      | Some category =>
          match parse_gate_action valuestring with
          | None => config
          | Some action => with_category category action config
          end
      end
  | _ => config
  end.

(** The strings of a command array; [None] when an item is not a string. *)
Fixpoint command_strings (items : list cJSON) : option (list cstr) :=
  match items with
  | [] => Some []
  | JString s :: items' => match command_strings items' with Some l => Some (s :: l) | None => None end
  | _ :: _ => None
  end.

Definition load_allowlist_entry (ga : GateAlloc) (config : ApprovalGateConfig) (entry : cJSON)
    : ApprovalGateConfig :=
  match cJSON_IsObject (Some entry) with
  | None => config
  | Some _ =>
      match cJSON_IsString (cJSON_GetObjectItem entry (cs "tool")) with
      | None => config
      | Some tool_name =>
          match cJSON_IsArray (cJSON_GetObjectItem entry (cs "command")) with
          | Some command =>
              match command with
              | [] => config
              | _ =>
                  match command_strings command with
                  | None => config
                  | Some command_prefix =>
                      let shell_type :=
                        match cJSON_IsString (cJSON_GetObjectItem entry (cs "shell")) with
                        | Some name => match parse_shell_type name with
                                       | Some t => t
                                       | None => SHELL_TYPE_UNKNOWN
                                       end
                        | None => SHELL_TYPE_UNKNOWN
                        end in
                      (approval_gate_add_shell_allowlist ga config command_prefix shell_type).1
                  end
              end
          | None =>
              match cJSON_IsString (cJSON_GetObjectItem entry (cs "pattern")) with
              | Some pattern => (approval_gate_add_allowlist ga config tool_name pattern).1
              | None => config
              end
          end
      end
  end.

Definition approval_gate_load_from_json (ga : GateAlloc) (config : ApprovalGateConfig) (json : cJSON)
    : ApprovalGateConfig :=
  match cJSON_GetObjectItem json (cs "approval_gates") with
  | Some (JObject m as approval_gates) =>
      let config :=
        match cJSON_IsBool (cJSON_GetObjectItem approval_gates (cs "enabled")) with
        | Some b => with_enabled b config
        | None => config
        end in
      let config :=
        match cJSON_IsObject (cJSON_GetObjectItem approval_gates (cs "categories")) with
        | Some members => foldl load_category config members
        | None => config
        end in
      match cJSON_IsArray (cJSON_GetObjectItem approval_gates (cs "allowlist")) with
      | Some items => foldl (load_allowlist_entry ga) config items
      | None => config
      end
  | _ => config
  end.

(** [content] is the text of the file, [None] when it cannot be opened. *)
Definition approval_gate_load_from_file (ga : GateAlloc) (config : ApprovalGateConfig)
    (content : option cstr) : ApprovalGateConfig * Z :=
  match content with
  | None => (config, (-1)%Z)
  | Some [] => (config, (-1)%Z)
  | Some json_content =>
      match cJSON_Parse json_content with
      | None => (config, (-1)%Z)
      | Some json => (approval_gate_load_from_json ga config json, 0%Z)
      end
  end.

(** [lists_ok], [limiter_ok]: the allocations of the two arrays and of the
    rate limiter; [None] is the error return. *)
Definition approval_gate_init (ga : GateAlloc) (lists_ok limiter_ok : bool)
    (content : option cstr) : option ApprovalGateConfig :=
  if negb lists_ok then None
  else if negb limiter_ok then None
  else
    let config := mkConfig true false DEFAULT_CATEGORY_ACTIONS
                    [] INITIAL_ALLOWLIST_CAPACITY 0 [] INITIAL_SHELL_ALLOWLIST_CAPACITY 0
                    (Some rate_limiter_create) in
    let config := (approval_gate_load_from_file ga config content).1 in
    Some (with_statics (Z.of_nat (length (allowlist config)))
            (Z.of_nat (length (shell_allowlist config))) config).

(** ** Inheritance *)

Definition copy_allowlist_entry (src : AllowlistEntry) : AllowlistEntry :=
  mkAllowlistEntry (ae_tool src) (ae_pattern src) (regcomp (ae_pattern src)).

(** [copies_ok]: every allocation of the copy succeeds. *)
Definition approval_gate_init_from_parent (copies_ok : bool) (parent : ApprovalGateConfig)
    : option ApprovalGateConfig :=
  let static_count := Z.max 0 (static_allowlist_count parent) in
  let static_shell_count := Z.max 0 (static_shell_allowlist_count parent) in
  if negb copies_ok then None
  else
    let l := map copy_allowlist_entry (take (Z.to_nat static_count) (allowlist parent)) in
    let cap := if (0 <? static_count)%Z then static_count else INITIAL_ALLOWLIST_CAPACITY in
    let sl := take (Z.to_nat static_shell_count) (shell_allowlist parent) in
    let scap := if (0 <? static_shell_count)%Z then static_shell_count
                else INITIAL_SHELL_ALLOWLIST_CAPACITY in
    Some (mkConfig (enabled parent) false (categories parent)
            l cap (Z.of_nat (length l)) sl scap (Z.of_nat (length sl)) (Some rate_limiter_create)).

Definition approval_gate_cleanup (config : ApprovalGateConfig) : ApprovalGateConfig :=
  mkConfig (enabled config) (is_interactive config) (categories config)
    [] 0 (static_allowlist_count config) [] 0 (static_shell_allowlist_count config) None.

End Gate.
Arguments AllowlistEntry R : clear implicits.
Arguments ApprovalGateConfig R : clear implicits.
