(* ===== verification/GateDecision.v ===== *)
(** * The approval gate: deciding about a tool call (lib/policy/approval_gate.c)

    Tool categories, allowlist matching, approval_gate_requires_check and the
    command-line changes to a configuration. The theorems are in GateTheorems. *)

From S2P Require Import Prelude CString Regex RateLimiter ShellBase ShellParser Json ToolArgs ApprovalGate.
Local Open Scope char_scope.
Local Open Scope bool_scope.

Definition any_of (name : cstr) (l : list cstr) : bool := existsb (streq name) l.

Section Decision.
Context {R : Regex} {J : CJson} (cb : ApprovalGateCallbacks).
Implicit Types (config : ApprovalGateConfig R) (tool_call : ToolCall).

Definition extension_tool (name : cstr) : bool :=
  match cb_is_extension_tool cb with Some f => f name | None => false end.

Definition get_tool_category (tool_name : option cstr) : GateCategory :=
  match tool_name with
  | None => GATE_CATEGORY_PYTHON
  | Some name =>
      if any_of name [cs "remember"; cs "recall_memories"; cs "forget_memory"; cs "switch_mode";
                      cs "todo"] then GATE_CATEGORY_MEMORY
      else if any_of name [cs "vector_db"; cs "messaging"; cs "goap"; cs "orchestrator"]
      then GATE_CATEGORY_MEMORY
      else if has_prefix (cs "mcp_") name then GATE_CATEGORY_MCP
      else if has_prefix (cs "plugin_") name then GATE_CATEGORY_PLUGIN
      else if streq name (cs "process_pdf_document") then GATE_CATEGORY_FILE_READ
      else if streq name (cs "python") then GATE_CATEGORY_PYTHON
      else if any_of name [cs "subagent"; cs "subagent_status"] then GATE_CATEGORY_SUBAGENT
      else if streq name (cs "shell") then GATE_CATEGORY_SHELL
      else if any_of name [cs "read_file"; cs "list_dir"; cs "search_files"]
      then GATE_CATEGORY_FILE_READ
      else if any_of name [cs "write_file"; cs "apply_patch"] then GATE_CATEGORY_FILE_WRITE
      else if streq name (cs "web_fetch") then GATE_CATEGORY_NETWORK
      else if extension_tool name then
        match (match cb_get_gate_category cb with Some f => f name | None => None end) with
        | Some gate_cat => match parse_gate_category gate_cat with
                           | Some category => category
                           | None => GATE_CATEGORY_PYTHON
                           end
        | None => GATE_CATEGORY_PYTHON
        end
      else GATE_CATEGORY_PYTHON
  end.

Definition approval_gate_get_category_action config (category : GateCategory) : GateAction :=
  categories config category.

(** ** Rate limiting *)

Definition is_rate_limited (now : Z) config tool_call : bool :=
  match tc_name tool_call, rate_limiter config with
  | Some name, Some rl => rate_limiter_is_blocked rl name now
  | _, _ => false
  end.

Definition track_denial (realloc_ok strdup_ok : bool) (now : Z) config tool_call
    : ApprovalGateConfig R :=
  match tc_name tool_call, rate_limiter config with
  | Some name, Some rl =>
      with_rate_limiter (Some (rate_limiter_record_denial realloc_ok strdup_ok rl name now)) config
  | _, _ => config
  end.

Definition reset_denial_tracker config (tool : option cstr) : ApprovalGateConfig R :=
  match tool, rate_limiter config with
  | Some name, Some rl => with_rate_limiter (Some (rate_limiter_reset rl name)) config
  | _, _ => config
  end.

Definition get_rate_limit_remaining (now : Z) config (tool : option cstr) : Z :=
  match tool, rate_limiter config with
  | Some name, Some rl => rate_limiter_get_remaining rl name now
  | _, _ => 0%Z
  end.

(** ** Allowlist matching *)

Definition extract_match_target (tool_name arguments_json : cstr) : option cstr :=
  let match_arg :=
    if extension_tool tool_name
    then match cb_get_match_arg cb with Some f => f tool_name | None => None end
    else None in
  match match_arg with
  | Some arg =>
      match cJSON_Parse arguments_json with
      | Some args => cJSON_IsString (cJSON_GetObjectItem args arg)
      | None => Some arguments_json
      end
  | None => Some arguments_json
  end.

Fixpoint match_regex_loop (es : list (AllowlistEntry R)) (tool_name match_target : cstr) : bool :=
  match es with
  | [] => false
  | e :: es' =>
      match ae_compiled e with
      | None => match_regex_loop es' tool_name match_target
      | Some compiled =>
          if negb (streq (ae_tool e) tool_name) then match_regex_loop es' tool_name match_target
          else if regexec compiled match_target then true
          else match_regex_loop es' tool_name match_target
      end
  end.

Definition match_regex_allowlist config (tool_name match_target : cstr) : bool :=
  match_regex_loop (allowlist config) tool_name match_target.

(** The body of the entry loop; [matched = 1] ends the loop. *)
Definition shell_entry_matches (parsed : ParsedShellCommand) (base_cmd : cstr)
    (e : ShellAllowEntry) : bool :=
  match sa_prefix e with
  | [] => false
  | first :: more =>
      if negb (bool_decide (sa_shell_type e = SHELL_TYPE_UNKNOWN)) &&
         negb (bool_decide (sa_shell_type e = shell_type parsed)) then false
      else if shell_command_matches_prefix parsed (sa_prefix e) then true
      else if bool_decide (sa_shell_type e = SHELL_TYPE_UNKNOWN) then
        if commands_are_equivalent first base_cmd then
          match more with
          | [] => true
          | _ => if (length (sa_prefix e) <=? token_count parsed)%nat
                 then tokens_match (tail (tokens parsed)) more
                 else false
          end
        else false
      else false
  end.

Fixpoint match_shell_loop (es : list ShellAllowEntry) (parsed : ParsedShellCommand)
    (base_cmd : cstr) : bool :=
  match es with
  | [] => false
  | e :: es' => if shell_entry_matches parsed base_cmd e then true
                else match_shell_loop es' parsed base_cmd
  end.

Definition match_shell_command_allowlist (env_SHELL : option cstr) config tool_call : bool :=
  match shell_allowlist config with
  | [] => false
  | _ =>
      match tool_args_get_command tool_call with
      | None => false
      | Some command_str =>
          match parse_shell_command env_SHELL command_str with
          | None => false
          | Some parsed =>
              if negb (shell_command_is_safe_for_matching parsed) then false
              else match shell_command_get_base parsed with
                   | None => false
                   | Some base_cmd => match_shell_loop (shell_allowlist config) parsed base_cmd
                   end
          end
      end
  end.

Definition approval_gate_matches_allowlist (env_SHELL : option cstr) config tool_call : bool :=
  match tc_name tool_call with
  | None => false
  | Some name =>
      if decide (get_tool_category (Some name) = GATE_CATEGORY_SHELL)
      then match_shell_command_allowlist env_SHELL config tool_call
      else match tc_arguments tool_call with
           | None => false
           | Some arguments =>
               match extract_match_target name arguments with
               | Some match_target => match_regex_allowlist config name match_target
               | None => false
               end
           end
  end.

Definition approval_gate_requires_check (env_SHELL : option cstr) config tool_call : Z :=
  if negb (enabled config) then 0%Z
  else match approval_gate_get_category_action config (get_tool_category (tc_name tool_call)) with
       | GATE_ACTION_ALLOW => 0%Z
       | GATE_ACTION_DENY => (-1)%Z
       | GATE_ACTION_GATE =>
           if approval_gate_matches_allowlist env_SHELL config tool_call then 0%Z else 1%Z
       end.

(** ** Command line and modes *)

Definition approval_gate_enable_yolo config : ApprovalGateConfig R := with_enabled false config.

Definition approval_gate_set_category_action config (category_name : cstr) (action : GateAction)
    : ApprovalGateConfig R * Z :=
  match parse_gate_category category_name with
  | None => (config, (-1)%Z)
  | Some category => (with_category category action config, 0%Z)
  end.

Definition approval_gate_detect_interactive (isatty : bool) config : ApprovalGateConfig R :=
  with_interactive isatty config.

Definition approval_gate_is_interactive config : bool := is_interactive config.

(** [1 + ] the number of commas *)
Fixpoint comma_count (args : cstr) : nat :=
  match args with
  | [] => 1
  | c :: t => if Ascii.eqb c "," then S (comma_count t) else comma_count t
  end.

(** The successive results of strtok_r with the delimiter ",": maximal
    comma-free pieces, empty ones skipped; [acc] is the current piece,
    reversed. *)
Fixpoint strtok_commas (acc s : cstr) : list cstr :=
  match s with
  | [] => match acc with [] => [] | _ => [rev acc] end
  | c :: t =>
      if Ascii.eqb c "," then
        match acc with [] => strtok_commas [] t | _ => rev acc :: strtok_commas [] t end
      else strtok_commas (c :: acc) t
  end.

(** [copies_ok]: the buffers of the function itself. *)
Definition approval_gate_add_cli_allow (ga : GateAlloc) (copies_ok : bool) config
    (allow_spec : cstr) : ApprovalGateConfig R * Z :=
  match strchr allow_spec ":" with
  | None => (config, (-1)%Z)
  | Some colon =>
      let tool_name := take (length allow_spec - length colon) allow_spec in
      match tool_name with
      | [] => (config, (-1)%Z)
      | _ =>
          if negb copies_ok then (config, (-1)%Z)
          else
            match tail colon with
            | [] => (config, (-1)%Z)
            | args =>
                if streq tool_name (cs "shell") then
                  let token_count := comma_count args in
                  let toks := take token_count (strtok_commas [] args) in
                  approval_gate_add_shell_allowlist ga config toks SHELL_TYPE_UNKNOWN
                else approval_gate_add_allowlist ga config tool_name args
            end
      end
  end.
End Decision.
