(* ===== verification/ApprovalErrors.v ===== *)
(** * Error texts of refused calls (lib/policy/approval_errors.c, lib/util/json_escape.c)

    The JSON texts that a refused tool call returns to the model, and the
    proof that each of them is one JSON object with exactly its members,
    whatever the name of the tool or the path is. *)

From S2P Require Import Prelude CString Regex RateLimiter Json ToolArgs ApprovalGate GateDecision.
Local Open Scope char_scope.
Local Open Scope bool_scope.

(** A quoted literal. *)
Definition q (s : string) : cstr := JQ :: cs s ++ [JQ].

Section Errors.
Context {R : Regex} {J : CJson} (cb : ApprovalGateCallbacks).

(** The quotes around the printed value are dropped. *)
Definition strip_quotes (json : cstr) : cstr :=
  let len := length json in
  if (2 <=? len)%nat && bool_decide (head json = Some JQ) && bool_decide (last json = Some JQ)
  then take (len - 2) (tail json)
  else json.

Definition json_escape_string (str : option cstr) : option cstr :=
  match str with
  | None => Some []
  | Some s => strip_quotes <$> cJSON_PrintUnformatted (JString s)
  end.

Definition tool_name_or_unknown (tool_call : ToolCall) : cstr :=
  default (cs "unknown") (tc_name tool_call).

(** [asprintf_ok] is the outcome of the formatting allocation. *)
Definition format_rate_limit_error (asprintf_ok : bool) (now : Z) (config : ApprovalGateConfig R)
    (tool_call : ToolCall) : option cstr :=
  let remaining := get_rate_limit_remaining now config (tc_name tool_call) in
  match json_escape_string (Some (tool_name_or_unknown tool_call)) with
  | None => None
  | Some escaped_tool =>
      if negb asprintf_ok then None
      else Some (
        cs "{" ++ q "error" ++ cs ": " ++ q "rate_limited" ++ cs ", " ++
        q "message" ++ cs ": " ++
          JQ :: cs "Too many denied requests for " ++ escaped_tool ++
          cs " tool. Wait " ++ int_text remaining ++ cs " seconds before retrying." ++ [JQ] ++ cs ", " ++
        q "retry_after" ++ cs ": " ++ int_text remaining ++ cs ", " ++
        q "tool" ++ cs ": " ++ JQ :: escaped_tool ++ [JQ] ++ cs "}")
  end.

Definition format_denial_error (asprintf_ok : bool) (tool_call : ToolCall) : option cstr :=
  match json_escape_string (Some (tool_name_or_unknown tool_call)) with
  | None => None
  | Some escaped_tool =>
      if negb asprintf_ok then None
      else Some (
        cs "{" ++ q "error" ++ cs ": " ++ q "operation_denied" ++ cs ", " ++
        q "message" ++ cs ": " ++
          JQ :: cs "User denied permission to execute " ++ escaped_tool ++ [JQ] ++ cs ", " ++
        q "tool" ++ cs ": " ++ JQ :: escaped_tool ++ [JQ] ++ cs ", " ++
        q "suggestion" ++ cs ": " ++
          q "Ask the user to perform this operation manually, or request permission with explanation" ++
        cs "}")
  end.

Definition format_protected_file_error (asprintf_ok : bool) (path : option cstr) : option cstr :=
  match json_escape_string (Some (default (cs "unknown") path)) with
  | None => None
  | Some escaped_path =>
      if negb asprintf_ok then None
      else Some (
        cs "{" ++ q "error" ++ cs ": " ++ q "protected_file" ++ cs ", " ++
        q "message" ++ cs ": " ++ q "Cannot modify protected configuration file" ++ cs ", " ++
        q "path" ++ cs ": " ++ JQ :: escaped_path ++ [JQ] ++ cs "}")
  end.

Definition format_non_interactive_error (asprintf_ok : bool) (tool_call : ToolCall) : option cstr :=
  let tool_name := tool_name_or_unknown tool_call in
  let category_name := gate_category_name (get_tool_category cb (Some tool_name)) in
  match json_escape_string (Some tool_name), json_escape_string (Some category_name) with
  | Some escaped_tool, Some escaped_category =>
      if negb asprintf_ok then None
      else Some (
        cs "{" ++ q "error" ++ cs ": " ++ q "non_interactive_gate" ++ cs ", " ++
        q "message" ++ cs ": " ++
          JQ :: cs "Cannot execute " ++ escaped_category ++
          cs " operation without TTY for approval" ++ [JQ] ++ cs ", " ++
        q "tool" ++ cs ": " ++ JQ :: escaped_tool ++ [JQ] ++ cs ", " ++
        q "category" ++ cs ": " ++ JQ :: escaped_category ++ [JQ] ++ cs ", " ++
        q "suggestion" ++ cs ": " ++
          JQ :: cs "Use --yolo to bypass gates, or --allow-category=" ++ escaped_category ++
          cs " to allow this category in non-interactive mode" ++ [JQ] ++
        cs "}")
  | _, _ => None
  end.
End Errors.

(** ** Reading such a text: an object of raw strings and numbers *)

Inductive RawValue := RawString (body : cstr) | RawNumber (text : cstr).

(** Up to the closing quote, escapes kept. *)
Fixpoint raw_string (s : cstr) : option (cstr * cstr) :=
  match s with
  | [] => None
  | c :: t =>
      if Ascii.eqb c JQ then Some ([], t)
      else if Ascii.eqb c "\" then
        match t with
        | [] => None
        | e :: t' => match raw_string t' with Some (a, r) => Some (c :: e :: a, r) | None => None end
        end
      else match raw_string t with Some (a, r) => Some (c :: a, r) | None => None end
  end.

(** A number: everything up to a comma or a brace. *)
Fixpoint raw_number (s : cstr) : cstr * cstr :=
  match s with
  | [] => ([], [])
  | c :: t => if Ascii.eqb c "," || Ascii.eqb c "}" then ([], s)
              else let '(a, r) := raw_number t in (c :: a, r)
  end.

Definition raw_value (s : cstr) : option (RawValue * cstr) :=
  match s with
  | [] => None
  | c :: t =>
      if Ascii.eqb c JQ then
        match raw_string t with Some (a, r) => Some (RawString a, r) | None => None end
      else let '(a, r) := raw_number s in Some (RawNumber a, r)
  end.

(** [n] members, then the closing brace. *)
Fixpoint raw_members (n : nat) (s : cstr) : option (list (cstr * RawValue)) :=
  match n, s with
  | S n', c :: t =>
      if negb (Ascii.eqb c JQ) then None
      else match raw_string t with
      | Some (k, colon :: space :: r) =>
          if negb (Ascii.eqb colon ":" && Ascii.eqb space " ") then None
          else match raw_value r with
          | Some (v, sep :: r') =>
              if Ascii.eqb sep "}" then match r' with [] => Some [(k, v)] | _ => None end
              else match r' with
                   | space' :: r'' =>
                       if Ascii.eqb sep "," && Ascii.eqb space' " "
                       then match raw_members n' r'' with
                            | Some l => Some ((k, v) :: l)
                            | None => None
                            end
                       else None
                   | [] => None
                   end
          | _ => None
          end
      | _ => None
      end
  | _, _ => None
  end.

Definition read_object (s : cstr) : option (list (cstr * RawValue)) :=
  match s with
  | c :: t => if Ascii.eqb c "{" then raw_members (length t) t else None
  | [] => None
  end.

(** ** Writing one *)

Definition raw_text (v : RawValue) : cstr :=
  match v with RawString b => JQ :: b ++ [JQ] | RawNumber t => t end.

Definition raw_ok (v : RawValue) : Prop :=
  match v with
  | RawString b => closed_body b
  | RawNumber t => t <> [] /\ Forall (fun c => is_digit c || Ascii.eqb c "-" = true) t
  end.

Definition member_text (m : cstr * RawValue) : cstr := JQ :: m.1 ++ [JQ; ":"; " "] ++ raw_text m.2.

Fixpoint members_text (l : list (cstr * RawValue)) : cstr :=
  match l with
  | [] => ["}"]
  | m :: l' => member_text m ++ match l' with [] => ["}"] | _ => "," :: " " :: members_text l' end
  end.

(** ** Reading back *)

Lemma closed_body_ind (P : cstr -> Prop) :
  P [] ->
  (forall c s, c <> JQ -> c <> "\" -> closed_body s -> P s -> P (c :: s)) ->
  (forall e s, closed_body s -> P s -> P ("\" :: e :: s)) ->
  forall s, closed_body s -> P s.
Proof.
  intros Hnil Hc Hesc s. remember (length s) as n eqn:Hn. revert s Hn.
  induction (lt_wf n) as [n _ IH]. intros [|c s] -> Hs; [done|]. cbn [closed_body] in Hs.
  destruct (Ascii.eqb_spec c JQ) as [|Hq]; [done|].
  destruct (Ascii.eqb_spec c "\") as [->|Hb].
  - destruct s as [|e s]; [done|]. apply Hesc; [done|]. eapply IH; [|done|done]. simpl. lia.
  - apply Hc; try done. eapply IH; [|done|done]. simpl. lia.
Qed.

Lemma closed_body_app a b : closed_body a -> closed_body b -> closed_body (a ++ b).
Proof.
  intros Ha Hb. revert a Ha. apply closed_body_ind; [done|..].
  - intros c s Hq Hs _ IH. cbn [app closed_body].
    by rewrite (proj2 (Ascii.eqb_neq c JQ) Hq), (proj2 (Ascii.eqb_neq c "\") Hs).
  - intros e s _ IH. done.
Qed.

Lemma raw_string_closed b r : closed_body b -> raw_string (b ++ JQ :: r) = Some (b, r).
Proof.
  revert b. apply closed_body_ind; [done|..].
  - intros c s Hq Hs _ IH. cbn [app raw_string].
    by rewrite (proj2 (Ascii.eqb_neq c JQ) Hq), (proj2 (Ascii.eqb_neq c "\") Hs), IH.
  - intros e s _ IH. cbn [app raw_string]. by rewrite IH.
Qed.

Lemma raw_number_text t sep r :
  Forall (fun c => is_digit c || Ascii.eqb c "-" = true) t -> sep = "," \/ sep = "}" ->
  raw_number (t ++ sep :: r) = (t, sep :: r).
Proof.
  intros Ht Hsep. induction Ht as [|c t Hc Ht IH]; cbn [app raw_number].
  - by destruct Hsep as [->| ->].
  - assert (Ascii.eqb c "," || Ascii.eqb c "}" = false) as ->; [|by rewrite IH].
    apply orb_false_iff. split; apply Ascii.eqb_neq; intros ->; discriminate.
Qed.

Lemma raw_value_text v sep r :
  raw_ok v -> sep = "," \/ sep = "}" -> raw_value (raw_text v ++ sep :: r) = Some (v, sep :: r).
Proof.
  intros Hv Hsep. destruct v as [b|t]; cbn [raw_text].
  - unfold raw_value. cbn [app]. rewrite <- app_assoc. cbn [app]. by rewrite raw_string_closed.
  - destruct Hv as [Hne Ht]. pose proof (raw_number_text t sep r Ht Hsep) as Hr.
    destruct t as [|c t]; [done|]. apply Forall_inv in Ht. unfold raw_value.
    cbn [app] in *. rewrite Hr. replace (Ascii.eqb c JQ) with false; [done|].
    symmetry. apply Ascii.eqb_neq. intros ->. discriminate.
Qed.

Lemma raw_members_text l n :
  l <> [] -> Forall (fun m => closed_body m.1 /\ raw_ok m.2) l -> (length l <= n)%nat ->
  raw_members n (members_text l) = Some l.
Proof.
  intros Hne Hl. revert n Hne. induction Hl as [|[k v] l [Hk Hv] Hl IH]; intros [|n] Hne Hn;
    cbn [length fst snd] in *; try done; try lia.
  cbn [members_text]. unfold member_text. cbn [fst snd app raw_members].
  change (Ascii.eqb JQ JQ) with true. cbn [negb]. rewrite <- !app_assoc. cbn [app].
  rewrite raw_string_closed by done. change (negb (Ascii.eqb ":" ":" && Ascii.eqb " " " ")) with false.
  cbv iota. destruct l as [|m l]; rewrite raw_value_text by auto; [done|].
  change (Ascii.eqb "," "}") with false. change (Ascii.eqb "," "," && Ascii.eqb " " " ") with true.
  cbv iota. by rewrite IH by (done || lia).
Qed.

Lemma members_text_length l : (length l <= length (members_text l))%nat.
Proof.
  induction l as [|m l IH]; cbn [members_text length]; [lia|].
  rewrite length_app. destruct l; simpl in *; lia.
Qed.

Lemma read_members_text l :
  l <> [] -> Forall (fun m => closed_body m.1 /\ raw_ok m.2) l ->
  read_object ("{" :: members_text l) = Some l.
Proof. intros Hne Hl. apply raw_members_text; [done|done|apply members_text_length]. Qed.

(** ** Escaped strings *)

Lemma json_escape_closed {J : CJson} {JS : CJsonSpec J} s b :
  json_escape_string (Some s) = Some b -> closed_body b.
Proof.
  unfold json_escape_string. destruct (cJSON_PrintUnformatted _) as [t|] eqn:E; [|done].
  apply print_string in E as (body & -> & Hb). intros [= <-].
  unfold strip_quotes. cbn [length head tail].
  rewrite (bool_decide_eq_true_2 (Some JQ = Some JQ)) by done.
  rewrite app_comm_cons, last_snoc, (bool_decide_eq_true_2 (Some JQ = Some JQ)) by done.
  rewrite length_app. cbn [length]. replace (2 <=? S (length body + 1))%nat with true.
  2: { symmetry. apply Nat.leb_le. lia. }
  cbn [andb]. replace (S (length body + 1) - 2)%nat with (length body) by lia. by rewrite take_app_length.
Qed.

Lemma digits_number fuel n acc :
  Forall (fun c => is_digit c || Ascii.eqb c "-" = true) acc ->
  Forall (fun c => is_digit c || Ascii.eqb c "-" = true) (digits fuel n acc).
Proof.
  revert n acc. induction fuel as [|fuel IH]; intros n acc H; cbn [digits]; [done|].
  destruct (digit_char (n mod 10)) as [_ E]; [by apply N.mod_lt|].
  assert (Forall (fun c => is_digit c || Ascii.eqb c "-" = true) (ascii_of_N (48 + n mod 10) :: acc))
    by (constructor; [by rewrite E|done]).
  case_match; auto.
Qed.

Lemma digits_nonempty fuel n acc : digits (S fuel) n acc <> [].
Proof.
  revert n acc. induction fuel as [|fuel IH]; intros n acc; cbn [digits]; [by case_match|].
  case_match; [done|]. apply IH.
Qed.

Lemma int_text_ok n : raw_ok (RawNumber (int_text n)).
Proof.
  unfold int_text. split; destruct (n <? 0)%Z; try done; [apply digits_nonempty|..].
  - constructor; [done|]. by apply digits_number.
  - by apply digits_number.
Qed.

(** Digits and a minus sign need no escape. *)
Lemma number_closed t : Forall (fun c => is_digit c || Ascii.eqb c "-" = true) t -> closed_body t.
Proof.
  induction 1 as [|c t Hc Ht IH]; [done|]. cbn [closed_body].
  destruct (Ascii.eqb_spec c JQ) as [->|]; [discriminate|].
  by destruct (Ascii.eqb_spec c "\") as [->|]; [discriminate|].
Qed.

(** Equality of two concatenations, up to their association. *)
Ltac same_text :=
  unfold members_text, member_text, raw_text, q; cbn [fst snd negb];
  repeat first [rewrite <- app_comm_cons|rewrite <- app_assoc]; reflexivity.

(** Bodies made of literals, escaped strings and numbers. *)
Ltac closed_solve :=
  repeat match goal with
  | |- closed_body (_ ++ _) => apply closed_body_app
  | |- closed_body (int_text ?n) => apply number_closed, (int_text_ok n)
  | |- closed_body (_, _).1 => cbn [fst]
  | |- raw_ok (_, _).2 => cbn [snd]
  | |- raw_ok (RawString _) => cbn [raw_ok]
  | |- raw_ok (RawNumber _) => apply int_text_ok
  | |- Forall _ _ => constructor
  | |- _ /\ _ => split
  end; try done.

(** [t] reads back as [members]. *)
Definition reads_as (t : option cstr) (members : list (cstr * RawValue)) : Prop :=
  exists text, t = Some text /\ read_object text = Some members.

Lemma reads_as_text text members :
  members <> [] -> Forall (fun m => closed_body m.1 /\ raw_ok m.2) members ->
  text = "{" :: members_text members -> reads_as (Some text) members.
Proof. intros Hne Hok ->. eexists. split; [done|]. by apply read_members_text. Qed.

(** ** Properties *)

(** Every refusal the model is told about is one JSON object whose members
    are exactly the documented ones. Whatever the tool name or the path
    contains (quotes, backslashes, braces), it stays inside its own string and
    cannot add or change a member. (The hypotheses say that the library could
    print the three strings, which fails only for lack of memory.) *)
Theorem error_texts_read_back {R : Regex} {J : CJson} {JS : CJsonSpec J} cb now
    (config : ApprovalGateConfig R) tc path name_b path_b category_b :
  let name := tool_name_or_unknown tc in
  let category := gate_category_name (get_tool_category cb (Some name)) in
  let remaining := int_text (get_rate_limit_remaining now config (tc_name tc)) in
  json_escape_string (Some name) = Some name_b ->
  json_escape_string (Some path) = Some path_b ->
  json_escape_string (Some category) = Some category_b ->
  reads_as (format_denial_error true tc)
    [(cs "error", RawString (cs "operation_denied"));
     (cs "message", RawString (cs "User denied permission to execute " ++ name_b));
     (cs "tool", RawString name_b);
     (cs "suggestion", RawString (cs
       "Ask the user to perform this operation manually, or request permission with explanation"))] /\
  reads_as (format_rate_limit_error true now config tc)
    [(cs "error", RawString (cs "rate_limited"));
     (cs "message", RawString (cs "Too many denied requests for " ++ name_b ++ cs " tool. Wait " ++
                               remaining ++ cs " seconds before retrying."));
     (cs "retry_after", RawNumber remaining);
     (cs "tool", RawString name_b)] /\
  reads_as (format_protected_file_error true (Some path))
    [(cs "error", RawString (cs "protected_file"));
     (cs "message", RawString (cs "Cannot modify protected configuration file"));
     (cs "path", RawString path_b)] /\
  reads_as (format_non_interactive_error cb true tc)
    [(cs "error", RawString (cs "non_interactive_gate"));
     (cs "message", RawString (cs "Cannot execute " ++ category_b ++
                               cs " operation without TTY for approval"));
     (cs "tool", RawString name_b);
     (cs "category", RawString category_b);
     (cs "suggestion", RawString (cs "Use --yolo to bypass gates, or --allow-category=" ++ category_b ++
                                  cs " to allow this category in non-interactive mode"))].
Proof.
  intros name category remaining En Ep Ec. subst remaining.
  unfold format_denial_error, format_rate_limit_error, format_protected_file_error,
    format_non_interactive_error. fold name. fold category. cbn [default from_option id].
  rewrite En, Ep, Ec. apply json_escape_closed in En, Ep, Ec.
  split_and!; (apply reads_as_text; [done|closed_solve|same_text]).
Qed.

Definition empty_config : ApprovalGateConfig RefRegex :=
  mkConfig true true DEFAULT_CATEGORY_ACTIONS [] 16 0 [] 16 0 (Some rate_limiter_create).

Lemma error_texts_read_back_witness :
  exists text members, format_protected_file_error true (Some ["a"; JQ; "}"]) = Some text /\
    read_object text = Some members /\ length members = 3%nat.
Proof.
  destruct (error_texts_read_back no_callbacks 0 empty_config
    (mkToolCall (cs "1") (Some (cs "shell")) None) ["a"; JQ; "}"]
    (cs "shell") ["a"; "\"; JQ; "}"] (cs "shell"))
    as (_ & _ & (text & Ht & Hr) & _); [reflexivity..|].
  exists text. eexists. split; [exact Ht|]. split; [exact Hr|reflexivity].
Defined.
