(* ===== verification/GateTheorems.v ===== *)
(** * The approval gate: which calls run without asking

    The theorems about the gate's decision: exact characterisations for shell
    and for other tools, the calls no allowlist can let through, what a
    subagent inherits, and the well-formedness of the configuration. *)

From S2P Require Import Prelude CString Regex RateLimiter ShellBase ShellParser Json ToolArgs ApprovalGate GateDecision.
Local Open Scope char_scope.
Local Open Scope bool_scope.

(** ** Names *)

Lemma parse_gate_category_name c : parse_gate_category (gate_category_name c) = Some c.
Proof. by destruct c. Qed.

Lemma parse_gate_category_Some s c : parse_gate_category s = Some c -> s = gate_category_name c.
Proof. unfold parse_gate_category. intros [_ H%streq_true]%find_some. done. Qed.

Lemma parse_gate_action_Some s a : parse_gate_action s = Some a <-> s = gate_action_name a.
Proof.
  unfold parse_gate_action.
  destruct (streq_spec s (cs "allow")) as [->|H1]; [by destruct a; split|].
  destruct (streq_spec s (cs "gate")) as [->|H2]; [by destruct a; split|].
  destruct (streq_spec s (cs "deny")) as [->|H3]; [by destruct a; split|].
  split; [done|]. by destruct a.
Qed.

(** ** What the loops compute *)

Section Matching.
Context {R : Regex} {J : CJson}.

Definition regex_allows (tool target : cstr) (e : AllowlistEntry R) : Prop :=
  ae_tool e = tool /\ exists r, ae_compiled e = Some r /\ regexec r target = true.

Definition shell_allows (ty : ShellType) (toks : list cstr) (e : ShellAllowEntry) : Prop :=
  exists first more, sa_prefix e = first :: more /\
    ((sa_shell_type e = ty /\ exists rest, toks = first :: more ++ rest) \/
     (sa_shell_type e = SHELL_TYPE_UNKNOWN /\
      exists t rest, toks = t :: more ++ rest /\ commands_are_equivalent first t = true)).

Lemma match_regex_true es tool target :
  match_regex_loop es tool target = true <-> exists e, e ∈ es /\ regex_allows tool target e.
Proof using Type.
  unfold regex_allows. induction es as [|e es IH]; simpl.
  { split; [done|]. intros (e & He & _). by apply elem_of_nil in He. }
  setoid_rewrite elem_of_cons.
  destruct (ae_compiled e) as [r|] eqn:Er.
  - destruct (streq_spec (ae_tool e) tool) as [Ht|Ht]; simpl.
    + destruct (regexec r target) eqn:Ex; [split; [intros _|done]; exists e; eauto 6|].
      rewrite IH. split; [intros (e' & He' & H); eauto|].
      intros (e' & [->|He'] & H & r' & Hr' & Hx'); [congruence|eauto 6].
    + rewrite IH. split; [intros (e' & He' & H); eauto|].
      intros (e' & [->|He'] & H & Hx'); [congruence|eauto].
  - rewrite IH. split; [intros (e' & He' & H); eauto|].
    intros (e' & [->|He'] & H & r' & Hr' & Hx'); [congruence|eauto 6].
Qed.

Lemma commands_equivalent_refl c : commands_are_equivalent c c = true.
Proof using Type. unfold commands_are_equivalent. by rewrite streq_refl. Qed.

Lemma safe_prefix_true p first more :
  shell_command_is_safe_for_matching p = true ->
  shell_command_matches_prefix p (first :: more) = true <->
  exists rest, tokens p = first :: more ++ rest.
Proof using Type.
  unfold shell_command_matches_prefix, shell_command_is_safe_for_matching. intros Hsafe.
  destr_bool. rewrite !H, !H0, !H1, !H2, !H3. cbn [orb]. unfold token_count.
  destruct (Nat.ltb_spec (length (tokens p)) (length (first :: more))) as [Hl|Hl].
  - split; [done|]. intros (rest & E). rewrite E in Hl. simpl in Hl. rewrite length_app in Hl. lia.
  - rewrite tokens_match_true. done.
Qed.

(** The cross-platform branch of the entry loop. *)
Definition equivalent_branch (p : ParsedShellCommand) (t first : cstr) (more : list cstr) : bool :=
  if commands_are_equivalent first t then
    match more with
    | [] => true
    | _ => if (length (first :: more) <=? token_count p)%nat
           then tokens_match (tail (tokens p)) more else false
    end
  else false.

Lemma equivalent_branch_true p t toks first more :
  tokens p = t :: toks ->
  equivalent_branch p t first more = true <->
  exists t' rest, t :: toks = t' :: more ++ rest /\ commands_are_equivalent first t' = true.
Proof using Type.
  intros Ht. transitivity (commands_are_equivalent first t = true /\ exists rest, toks = more ++ rest).
  - unfold equivalent_branch, token_count. rewrite Ht.
    destruct (commands_are_equivalent first t); [|split; [done|by intros [? _]]].
    destruct more as [|m more]; [split; [intros _; split; eauto|done]|]. simpl tail.
    destruct (Nat.leb_spec (length (first :: m :: more)) (length (t :: toks))) as [Hl|Hl].
    + rewrite tokens_match_true. naive_solver.
    + split; [done|]. intros [_ (rest & ->)]. simpl in Hl. rewrite length_app in Hl. lia.
  - split; [intros (? & rest & ->); by exists t, rest|].
    intros (t' & rest & [= <- ->] & ?). eauto.
Qed.

Lemma shell_entry_matches_true p t toks e :
  shell_command_is_safe_for_matching p = true -> tokens p = t :: toks ->
  shell_entry_matches p t e = true <-> shell_allows (shell_type p) (t :: toks) e.
Proof using Type.
  intros Hsafe Ht. unfold shell_entry_matches, shell_allows.
  destruct (sa_prefix e) as [|first more] eqn:Ep; [split; [done|naive_solver]|].
  fold (equivalent_branch p t first more).
  pose proof (safe_prefix_true p first more Hsafe) as Hm. rewrite Ht in Hm.
  pose proof (equivalent_branch_true p t toks first more Ht) as He.
  destruct (shell_command_matches_prefix p (first :: more));
    [pose proof (proj1 Hm eq_refl) as Hpre|pose proof (fun H => diff_false_true (proj2 Hm H)) as Hpre].
  - destruct (decide (sa_shell_type e = SHELL_TYPE_UNKNOWN)) as [Hu|Hu];
      [|destruct (decide (sa_shell_type e = shell_type p)) as [Hty|Hty]];
      rewrite ?(bool_decide_eq_true_2 _ Hu), ?(bool_decide_eq_false_2 _ Hu),
        ?(bool_decide_eq_true_2 _ Hty), ?(bool_decide_eq_false_2 _ Hty); cbn [negb andb].
    + split; [intros _|done]. exists first, more. split; [done|]. right. split; [done|].
      destruct Hpre as (rest & [= -> ->]). exists first, rest.
      split; [done|apply commands_equivalent_refl].
    + split; [intros _|done]. exists first, more. auto.
    + split; [done|]. intros (f' & m' & [= <- <-] & [[? _]|[? _]]); done.
  - destruct (decide (sa_shell_type e = SHELL_TYPE_UNKNOWN)) as [Hu|Hu];
      [|destruct (decide (sa_shell_type e = shell_type p)) as [Hty|Hty]];
      rewrite ?(bool_decide_eq_true_2 _ Hu), ?(bool_decide_eq_false_2 _ Hu),
        ?(bool_decide_eq_true_2 _ Hty), ?(bool_decide_eq_false_2 _ Hty); cbn [negb andb].
    + rewrite He. split; [intros ?; exists first, more; auto|].
      intros (f' & m' & [= <- <-] & [[_ H]|[_ H]]); [by destruct (Hpre H)|done].
    + split; [done|]. intros (f' & m' & [= <- <-] & [[_ H]|[? _]]); [by destruct (Hpre H)|done].
    + split; [done|]. intros (f' & m' & [= <- <-] & [[? _]|[? _]]); done.
Qed.

Lemma match_shell_true es p t toks :
  shell_command_is_safe_for_matching p = true -> tokens p = t :: toks ->
  match_shell_loop es p t = true <->
  exists e, e ∈ es /\ shell_allows (shell_type p) (tokens p) e.
Proof using Type.
  intros Hsafe Ht. rewrite Ht. induction es as [|e es IH]; simpl.
  { split; [done|]. intros (e & He & _). by apply elem_of_nil in He. }
  setoid_rewrite elem_of_cons. pose proof (shell_entry_matches_true p t toks e Hsafe Ht) as He.
  destruct (shell_entry_matches p t e).
  - split; [intros _|done]. exists e. split; [by left|]. by apply He.
  - rewrite IH. split; [intros (e' & ? & ?); eauto|].
    intros (e' & [->|He'] & Ha); [by apply He in Ha|eauto].
Qed.

(** The shell matcher, on the command text. *)
Lemma match_shell_command_true sh (config : ApprovalGateConfig R) tc :
  match_shell_command_allowlist sh config tc = true <->
  exists cmd p, tool_args_get_command tc = Some cmd /\ parse_shell_command sh cmd = Some p /\
    matchable (detect_shell_type sh) cmd = true /\
    exists e, e ∈ shell_allowlist config /\ shell_allows (shell_type p) (tokens p) e.
Proof using Type.
  unfold match_shell_command_allowlist. split.
  - destruct (shell_allowlist config) as [|e0 es] eqn:El; [done|].
    destruct (tool_args_get_command tc) as [cmd|]; [|done].
    destruct (parse_shell_command sh cmd) as [p|] eqn:Ep; [|done].
    destruct (shell_command_is_safe_for_matching p) eqn:Es; [|done]. cbn [negb].
    unfold shell_command_get_base, token_count. destruct (tokens p) as [|t toks] eqn:Et; [done|].
    change ((length (t :: toks) =? 0)%nat) with false. cbn [head]. intros Hm.
    rewrite (match_shell_true _ p t toks Es Et) in Hm. exists cmd, p. split_and!; [done..| |].
    + by rewrite <- (parse_for_type_safe _ _ _ Ep).
    + exact Hm.
  - intros (cmd & p & -> & Ep & Hm & e & He & Ha). rewrite Ep.
    rewrite (parse_for_type_safe _ _ _ Ep), Hm. cbn [negb].
    destruct (shell_allowlist config) as [|e0 es] eqn:El; [by apply elem_of_nil in He|].
    destruct Ha as (first & more & Hp & Ha).
    unfold shell_command_get_base, token_count. destruct (tokens p) as [|t toks] eqn:Et.
    { destruct Ha as [(_ & ? & ?)|(_ & ? & ? & ? & _)]; done. }
    change ((length (t :: toks) =? 0)%nat) with false. cbn [head].
    rewrite (match_shell_true _ p t toks) by (rewrite ?(parse_for_type_safe _ _ _ Ep); done).
    exists e. split; [done|]. rewrite Et. exists first, more. done.
Qed.
End Matching.

Section Sample.
(** A configuration for the witnesses: shell gated, "git status" allowed. *)
Definition sample_config : ApprovalGateConfig RefRegex :=
  mkConfig true true DEFAULT_CATEGORY_ACTIONS
    [mkAllowlistEntry (cs "web_fetch") (cs "^a") (regcomp (cs "^a"))] 16 1
    [mkShellAllowEntry [cs "git"; cs "status"] SHELL_TYPE_UNKNOWN;
     mkShellAllowEntry [cs "ls"] SHELL_TYPE_UNKNOWN] 16 1
    (Some rate_limiter_create).

Definition shell_call (cmd : string) : ToolCall :=
  mkToolCall (cs "1") (Some (cs "shell")) (Some (obj1 "command" cmd)).
End Sample.

Section Facts.
Context {R : Regex} {J : CJson} (cb : ApprovalGateCallbacks).
Implicit Types (config : ApprovalGateConfig R) (tc : ToolCall).

Lemma shell_category : get_tool_category cb (Some (cs "shell")) = GATE_CATEGORY_SHELL.
Proof using Type. reflexivity. Qed.

(** The decision on a gated shell call is the answer of the shell matcher. *)
Lemma requires_check_shell sh config tc :
  enabled config = true -> tc_name tc = Some (cs "shell") ->
  categories config GATE_CATEGORY_SHELL = GATE_ACTION_GATE ->
  approval_gate_requires_check cb sh config tc =
  if match_shell_command_allowlist sh config tc then 0%Z else 1%Z.
Proof using Type.
  intros He Hn Hc. unfold approval_gate_requires_check, approval_gate_get_category_action,
    approval_gate_matches_allowlist.
  rewrite He, Hn, shell_category, Hc. cbn [negb]. by rewrite decide_True by done.
Qed.

(** ** Well-formed configurations *)

Record gate_ok config : Prop := {
  ok_compiled : Forall (fun e => ae_compiled e = regcomp (ae_pattern e)) (allowlist config);
  ok_prefixes : Forall (fun e => sa_prefix e <> []) (shell_allowlist config);
  ok_static : (0 <= static_allowlist_count config <= Z.of_nat (length (allowlist config)))%Z;
  ok_static_shell :
    (0 <= static_shell_allowlist_count config <= Z.of_nat (length (shell_allowlist config)))%Z;
  ok_fits : (Z.of_nat (length (allowlist config)) <= allowlist_capacity config)%Z;
  ok_fits_shell : (Z.of_nat (length (shell_allowlist config)) <= shell_allowlist_capacity config)%Z;
  ok_cap : (0 < allowlist_capacity config < 2 ^ 30)%Z;
  ok_cap_shell : (0 < shell_allowlist_capacity config < 2 ^ 30)%Z
}.

(** Adding, by the user, by the command line or by the configuration file. *)
Inductive gate_add :=
| AddPattern (ga : GateAlloc) (tool pattern : cstr)
| AddPrefix (ga : GateAlloc) (prefix : list cstr) (ty : ShellType)
| AddCli (ga : GateAlloc) (copies_ok : bool) (spec : cstr).

Definition gate_add1 config (a : gate_add) : ApprovalGateConfig R * Z :=
  match a with
  | AddPattern ga tool pattern => approval_gate_add_allowlist ga config tool pattern
  | AddPrefix ga prefix ty => approval_gate_add_shell_allowlist ga config prefix ty
  | AddCli ga ok spec => approval_gate_add_cli_allow ga ok config spec
  end.

(** What one successful or failed insertion can have done. *)
Inductive added config : ApprovalGateConfig R -> Z -> Prop :=
| added_none config' :
    allowlist config' = allowlist config -> shell_allowlist config' = shell_allowlist config ->
    added config config' (-1)
| added_regex config' tool pattern :
    allowlist config' = allowlist config ++ [mkAllowlistEntry tool pattern (regcomp pattern)] ->
    shell_allowlist config' = shell_allowlist config ->
    (Z.of_nat (length (allowlist config)) < allowlist_capacity config')%Z ->
    added config config' 0
| added_shell config' prefix ty :
    prefix <> [] ->
    allowlist config' = allowlist config ->
    shell_allowlist config' = shell_allowlist config ++ [mkShellAllowEntry prefix ty] ->
    (Z.of_nat (length (shell_allowlist config)) < shell_allowlist_capacity config')%Z ->
    added config config' 0.

(** The parts of a configuration that insertions never touch. *)
Definition same_frame config config' : Prop :=
  enabled config' = enabled config /\ is_interactive config' = is_interactive config /\
  categories config' = categories config /\
  static_allowlist_count config' = static_allowlist_count config /\
  static_shell_allowlist_count config' = static_shell_allowlist_count config /\
  rate_limiter config' = rate_limiter config.

Lemma grown_capacity_Some ga n cap cap' :
  (0 < cap < 2 ^ 30)%Z -> (0 <= n <= cap)%Z -> grown_capacity ga n cap = Some cap' ->
  (n < cap' /\ 0 < cap' < 2 ^ 31 /\ (cap' = cap \/ (cap' = cap * 2 /\ n = cap)))%Z.
Proof using Type.
  intros Hcap Hn. unfold grown_capacity. destruct (Z.leb_spec cap n).
  - rewrite wrap32_small by lia. destruct (ga_realloc ga _); [|done]. intros [= <-]. lia.
  - intros [= <-]. lia.
Qed.

(** Fewer than 2^29 entries in each list. *)
Definition room config : Prop :=
  (Z.of_nat (length (allowlist config)) < 2 ^ 29)%Z /\
  (Z.of_nat (length (shell_allowlist config)) < 2 ^ 29)%Z.

(** The outcome every insertion has. *)
Definition safe_outcome config (r : ApprovalGateConfig R * Z) : Prop :=
  gate_ok r.1 /\ same_frame config r.1 /\ added config r.1 r.2.

Lemma refused_outcome config : gate_ok config -> safe_outcome config (config, (-1)%Z).
Proof using Type. intros Hok. split_and!; [done..|]. by apply added_none. Qed.

Lemma add_allowlist_safe ga config tool pattern :
  gate_ok config -> room config ->
  safe_outcome config (approval_gate_add_allowlist ga config tool pattern).
Proof using Type.
  intros Hok [Hr _]. unfold approval_gate_add_allowlist.
  destruct (grown_capacity _ _ _) as [cap|] eqn:Eg; [|by apply refused_outcome].
  apply grown_capacity_Some in Eg; [|apply Hok|split; [lia|apply Hok]].
  destruct Hok as [H1 H2 H3 H4 H5 H6 H7 H8].
  destruct (ga_dup _ _); cbn [negb]; split_and!; try done.
  - split; simpl; try done; rewrite ?length_app; simpl; try lia.
    apply Forall_app. split; [done|]. by constructor.
  - eapply added_regex; simpl; [done..|lia].
  - split; simpl; try done; lia.
  - by apply added_none.
Qed.

Lemma add_shell_allowlist_safe ga config prefix ty :
  gate_ok config -> room config ->
  safe_outcome config (approval_gate_add_shell_allowlist ga config prefix ty).
Proof using Type.
  intros Hok [_ Hr]. unfold approval_gate_add_shell_allowlist.
  destruct prefix as [|w ws]; [by apply refused_outcome|].
  destruct (grown_capacity _ _ _) as [cap|] eqn:Eg; [|by apply refused_outcome].
  apply grown_capacity_Some in Eg; [|apply Hok|split; [lia|apply Hok]].
  destruct Hok as [H1 H2 H3 H4 H5 H6 H7 H8].
  destruct (ga_dup _ _); cbn [negb]; split_and!; try done.
  - split; simpl; try done; rewrite ?length_app; simpl; try lia.
    apply Forall_app. split; [done|]. by constructor.
  - eapply (added_shell _ _ (w :: ws) ty); simpl; [done..|lia].
  - split; simpl; try done; lia.
  - by apply added_none.
Qed.

Lemma gate_add1_safe config a :
  gate_ok config -> room config -> safe_outcome config (gate_add1 config a).
Proof using Type.
  intros Hok Hr. destruct a as [ga tool pattern|ga prefix ty|ga ok spec]; simpl.
  - by apply add_allowlist_safe.
  - by apply add_shell_allowlist_safe.
  - unfold approval_gate_add_cli_allow.
    pose proof (refused_outcome config Hok) as Hno.
    destruct (strchr spec ":") as [colon|]; [|done].
    destruct (take _ spec) as [|x t]; [done|]. destruct ok; [|done]. cbn [negb].
    destruct (tail colon) as [|y args]; [done|].
    destruct (streq _ _); [by apply add_shell_allowlist_safe|by apply add_allowlist_safe].
Qed.

(** ** Subagents *)

Definition gate_run config (l : list gate_add) : ApprovalGateConfig R :=
  foldl (fun c a => (gate_add1 c a).1) config l.

(** No insertion removes or reorders an entry, whatever the allocator does. *)
Lemma gate_add1_extends config a :
  let config' := (gate_add1 config a).1 in
  same_frame config config' /\
  exists rs ss, allowlist config' = allowlist config ++ rs /\
                shell_allowlist config' = shell_allowlist config ++ ss.
Proof using Type.
  assert (same_frame config config /\ exists rs ss, allowlist config = allowlist config ++ rs /\
    shell_allowlist config = shell_allowlist config ++ ss) as Hid.
  { split; [done|]. exists [], []. by rewrite !app_nil_r. }
  assert (forall ga tool pattern, let c' := (approval_gate_add_allowlist ga config tool pattern).1 in
    same_frame config c' /\ exists rs ss, allowlist c' = allowlist config ++ rs /\
      shell_allowlist c' = shell_allowlist config ++ ss) as Hre.
  { intros ga tool pattern. unfold approval_gate_add_allowlist.
    destruct (grown_capacity _ _ _); [|done]. destruct (ga_dup _ _); simpl; split; try done.
    - exists [mkAllowlistEntry tool pattern (regcomp pattern)], []. by rewrite app_nil_r.
    - exists [], []. by rewrite !app_nil_r. }
  assert (forall ga prefix ty, let c' := (approval_gate_add_shell_allowlist ga config prefix ty).1 in
    same_frame config c' /\ exists rs ss, allowlist c' = allowlist config ++ rs /\
      shell_allowlist c' = shell_allowlist config ++ ss) as Hsh.
  { intros ga prefix ty. unfold approval_gate_add_shell_allowlist.
    destruct prefix as [|w ws]; [done|].
    destruct (grown_capacity _ _ _); [|done]. destruct (ga_dup _ _); simpl; split; try done.
    - exists [], [mkShellAllowEntry (w :: ws) ty]. by rewrite app_nil_r.
    - exists [], []. by rewrite !app_nil_r. }
  destruct a as [ga tool pattern|ga prefix ty|ga ok spec]; simpl; [apply Hre|apply Hsh|].
  unfold approval_gate_add_cli_allow. destruct (strchr spec ":"); [|done].
  destruct (take _ spec); [done|]. destruct ok; [|done]. cbn [negb].
  destruct (tail _); [done|]. destruct (streq _ _); [apply Hsh|apply Hre].
Qed.

Lemma gate_run_extends config l :
  same_frame config (gate_run config l) /\
  exists rs ss, allowlist (gate_run config l) = allowlist config ++ rs /\
                shell_allowlist (gate_run config l) = shell_allowlist config ++ ss.
Proof using Type.
  revert config. induction l as [|a l IH]; intros config.
  { split; [done|]. exists [], []. by rewrite !app_nil_r. }
  cbn [gate_run foldl]. fold (gate_run (gate_add1 config a).1 l).
  destruct (gate_add1_extends config a) as [Hf (rs & ss & H1 & H2)].
  destruct (IH (gate_add1 config a).1) as [Hf' (rs' & ss' & H1' & H2')].
  split.
  - unfold same_frame in *. destruct Hf as (?&?&?&?&?&?), Hf' as (?&?&?&?&?&?).
    split_and!; congruence.
  - exists (rs ++ rs'), (ss ++ ss'). by rewrite H1', H2', H1, H2, <- !app_assoc.
Qed.

(** The decision depends only on these fields. *)
Lemma requires_check_ext sh c1 c2 tc :
  enabled c1 = enabled c2 -> categories c1 = categories c2 ->
  allowlist c1 = allowlist c2 -> shell_allowlist c1 = shell_allowlist c2 ->
  approval_gate_requires_check cb sh c1 tc = approval_gate_requires_check cb sh c2 tc.
Proof using Type.
  intros He Hc Ha Hs. unfold approval_gate_requires_check, approval_gate_get_category_action,
    approval_gate_matches_allowlist, match_shell_command_allowlist, match_regex_allowlist.
  by rewrite He, Hc, Ha, Hs.
Qed.

(** Larger allowlists let through at least as much. *)
Lemma requires_check_mono sh c1 c2 tc :
  enabled c1 = enabled c2 -> categories c1 = categories c2 ->
  (forall e, e ∈ allowlist c1 -> e ∈ allowlist c2) ->
  (forall e, e ∈ shell_allowlist c1 -> e ∈ shell_allowlist c2) ->
  approval_gate_requires_check cb sh c1 tc = 0%Z ->
  approval_gate_requires_check cb sh c2 tc = 0%Z.
Proof using Type.
  intros He Hc Ha Hs. unfold approval_gate_requires_check, approval_gate_get_category_action.
  rewrite He, Hc. destruct (negb (enabled c2)); [done|].
  destruct (categories c2 _); [done| |done].
  destruct (approval_gate_matches_allowlist cb sh c1 tc) eqn:Em; [|done]. intros _.
  enough (approval_gate_matches_allowlist cb sh c2 tc = true) as -> by done.
  unfold approval_gate_matches_allowlist in *. destruct (tc_name tc) as [name|]; [|done].
  destruct (decide _) as [Hsh|Hsh].
  - apply match_shell_command_true in Em as (cmd & p & H1 & H2 & H3 & e & H4 & H5).
    apply match_shell_command_true. exists cmd, p. split_and!; [done..|]. exists e. auto.
  - destruct (tc_arguments tc); [|done]. destruct (extract_match_target _ _ _); [|done].
    unfold match_regex_allowlist in *. apply match_regex_true in Em as (e & H1 & H2).
    apply match_regex_true. exists e. auto.
Qed.

Lemma copy_entries l :
  Forall (fun e : AllowlistEntry R => ae_compiled e = regcomp (ae_pattern e)) l ->
  map copy_allowlist_entry l = l.
Proof using Type.
  induction 1 as [|[t p c] l Hc _ IH]; [done|]. simpl in *. rewrite IH. unfold copy_allowlist_entry.
  simpl. by rewrite Hc.
Qed.

(** A child decides like its parent with the session entries cut off. *)
Definition static_part config : ApprovalGateConfig R :=
  with_allowlist (take (Z.to_nat (static_allowlist_count config)) (allowlist config))
    (allowlist_capacity config)
    (with_shell_allowlist (take (Z.to_nat (static_shell_allowlist_count config)) (shell_allowlist config))
       (shell_allowlist_capacity config) config).

Lemma child_decides sh parent child tc :
  gate_ok parent -> approval_gate_init_from_parent true parent = Some child ->
  approval_gate_requires_check cb sh child tc =
  approval_gate_requires_check cb sh (static_part parent) tc.
Proof using Type.
  intros Hok [= <-]. apply requires_check_ext; simpl; [done..| |].
  - rewrite Z.max_r by apply Hok. apply copy_entries, Forall_take, Hok.
  - rewrite Z.max_r by apply Hok. done.
Qed.
End Facts.

(** ** Properties *)

(** C27: a gated shell command runs without asking exactly when its text is at
    most 65536 characters, has no construct the tokenizer refuses (chains,
    pipes, substitutions, redirections, dangerous text) and some entry of the
    shell allowlist covers it: an entry for this shell whose words begin the
    command, or an entry for any shell whose words do so up to a cross-platform
    equivalent of the first one. *)
Theorem shell_auto_approval_exact {R : Regex} {J : CJson} cb sh (config : ApprovalGateConfig R) tc cmd :
  enabled config = true -> tc_name tc = Some (cs "shell") ->
  categories config GATE_CATEGORY_SHELL = GATE_ACTION_GATE ->
  tool_args_get_command tc = Some cmd ->
  (approval_gate_requires_check cb sh config tc = 0%Z \/
   approval_gate_requires_check cb sh config tc = 1%Z) /\
  (approval_gate_requires_check cb sh config tc = 0%Z <->
   (Z.of_nat (length cmd) <= MAX_COMMAND_LENGTH)%Z /\
   matchable (detect_shell_type sh) cmd = true /\
   exists p e, parse_shell_command sh cmd = Some p /\ e ∈ shell_allowlist config /\
               shell_allows (shell_type p) (tokens p) e).
Proof.
  intros He Hn Hc Hcmd. rewrite requires_check_shell by done.
  pose proof (match_shell_command_true sh config tc) as Hm.
  destruct (match_shell_command_allowlist sh config tc).
  - split; [by left|]. split; [intros _|done].
    destruct (proj1 Hm eq_refl) as (cmd' & p & Hcmd' & Hp & Hs & e & He' & Ha).
    simplify_eq. split_and!; [|done|eauto 6].
    apply (parse_for_type_total cmd (detect_shell_type sh)). by exists p.
  - split; [by right|]. split; [done|]. intros (_ & Hs & p & e & Hp & He' & Ha).
    assert (false = true); [|done]. apply Hm. exists cmd, p. eauto 8.
Qed.

Lemma shell_auto_approval_exact_witness :
  approval_gate_requires_check no_callbacks None sample_config (shell_call "dir -l") = 0%Z.
Proof.
  apply (shell_auto_approval_exact no_callbacks None sample_config (shell_call "dir -l") (cs "dir -l"));
    try reflexivity.
  split; [vm_compute; discriminate|]. split; [vm_compute; reflexivity|].
  eexists _, (mkShellAllowEntry [cs "ls"] SHELL_TYPE_UNKNOWN).
  split; [vm_compute; reflexivity|]. split; [right; left|].
  exists (cs "ls"), []. split; [reflexivity|]. right. split; [reflexivity|].
  exists (cs "dir"), [cs "-l"]. split; vm_compute; reflexivity.
Defined.

(** A command no shell allowlist entry can cover: refused by the tokenizer of
    the current shell, or too long to be parsed. *)
Definition unmatchable (sh : option cstr) (cmd : cstr) : Prop :=
  matchable (detect_shell_type sh) cmd = false \/
  (MAX_COMMAND_LENGTH < Z.of_nat (length cmd))%Z.

(** C2: no allowlist, whatever its entries, lets a shell command through that
    the tokenizer of the current shell refuses (a chain, pipe, substitution
    or redirection outside quotes, unbalanced quotes, dangerous text), that
    is longer than 65536 characters, or that has no command argument: with
    the gate enabled and shell commands gated the user is always asked. *)
Theorem unsafe_shell_always_asked {R : Regex} {J : CJson} cb sh (config : ApprovalGateConfig R) tc :
  enabled config = true -> tc_name tc = Some (cs "shell") ->
  categories config GATE_CATEGORY_SHELL = GATE_ACTION_GATE ->
  (forall cmd, tool_args_get_command tc = Some cmd -> unmatchable sh cmd) ->
  approval_gate_requires_check cb sh config tc = 1%Z.
Proof.
  intros He Hn Hc Hun. rewrite requires_check_shell by done.
  destruct (match_shell_command_allowlist sh config tc) eqn:Em; [|done].
  apply match_shell_command_true in Em as (cmd & p & Hcmd & Hp & Hs & _).
  exfalso. destruct (Hun cmd Hcmd) as [Hf|Hl]; [congruence|].
  assert (Z.of_nat (length cmd) <= MAX_COMMAND_LENGTH)%Z; [|lia].
  apply (parse_for_type_total cmd (detect_shell_type sh)). by exists p.
Qed.

Lemma unsafe_shell_always_asked_witness :
  approval_gate_requires_check no_callbacks None sample_config (shell_call "ls; rm x") = 1%Z.
Proof.
  apply unsafe_shell_always_asked; try reflexivity.
  intros cmd H. left. injection H as <-. vm_compute. reflexivity.
Defined.

(** For every tool outside the shell category the decision is: allowed
    without asking when gating is off, when the category is set to allow, or
    when the category is gated and a compiled allowlist expression for exactly
    this tool matches the call's match target; refused when the category is
    set to deny, which no allowlist entry overrides; asked otherwise. *)
Theorem regex_decision_exact {R : Regex} {J : CJson} cb sh (config : ApprovalGateConfig R) tc name :
  tc_name tc = Some name -> get_tool_category cb (Some name) <> GATE_CATEGORY_SHELL ->
  let action := categories config (get_tool_category cb (Some name)) in
  let covered := exists args target e, tc_arguments tc = Some args /\
      extract_match_target cb name args = Some target /\ e ∈ allowlist config /\
      regex_allows name target e in
  (approval_gate_requires_check cb sh config tc = 0%Z <->
     enabled config = false \/ action = GATE_ACTION_ALLOW \/ (action = GATE_ACTION_GATE /\ covered)) /\
  (approval_gate_requires_check cb sh config tc = (-1)%Z <->
     enabled config = true /\ action = GATE_ACTION_DENY) /\
  (approval_gate_requires_check cb sh config tc = 1%Z <->
     enabled config = true /\ action = GATE_ACTION_GATE /\ ~ covered).
Proof.
  intros Hn Hcat action covered.
  assert (approval_gate_matches_allowlist cb sh config tc = true <-> covered) as Hm.
  { unfold approval_gate_matches_allowlist, covered. rewrite Hn, decide_False by done.
    destruct (tc_arguments tc) as [args|]; [|split; [done|by intros (?&?&?&?&_)]].
    destruct (extract_match_target cb name args) as [target|] eqn:Et.
    - unfold match_regex_allowlist. rewrite match_regex_true. split.
      + intros (e & He & Ha). by exists args, target, e.
      + intros (args' & target' & e & [= <-] & Ht & He & Ha). simplify_eq. eauto.
    - split; [done|]. intros (args' & target' & e & [= <-] & Ht & _). congruence. }
  unfold approval_gate_requires_check, approval_gate_get_category_action. rewrite Hn.
  fold action. destruct (enabled config); cbn [negb]; [|intuition congruence].
  destruct action; [intuition congruence| |intuition congruence].
  destruct (approval_gate_matches_allowlist cb sh config tc); intuition congruence.
Qed.

Lemma regex_decision_exact_witness :
  approval_gate_requires_check no_callbacks None sample_config
    (mkToolCall (cs "1") (Some (cs "web_fetch")) (Some (cs "bc"))) = 1%Z.
Proof.
  apply (regex_decision_exact no_callbacks None sample_config
    (mkToolCall (cs "1") (Some (cs "web_fetch")) (Some (cs "bc"))) (cs "web_fetch"));
    [reflexivity|vm_compute; discriminate|].
  split; [reflexivity|]. split; [reflexivity|].
  intros (args & target & e & [= <-] & [= <-] & He & Hr).
  apply list_elem_of_singleton in He as ->. destruct Hr as (_ & r & [= <-] & Hx). discriminate Hx.
Defined.

(** C40: the decision of a subagent's gate (allow, ask, deny) is never more generous
    than its parent's. Whatever entries the session adds, the gate a child inherits
    decides every call exactly as the parent restricted to the entries of its
    configuration file, it keeps the parent's switch and category actions, and what it
    decides to let through without asking the parent decides to let through without
    asking. This is about the decision alone: the child starts with an empty rate
    limiter, so it refuses no call for earlier denials, although its parent may be
    refusing every call of that tool for them. *)
Theorem subagent_inherits_static_only {R : Regex} {J : CJson} cb sh
    (config : ApprovalGateConfig R) (session : list gate_add) child tc :
  gate_ok config -> gate_ok (gate_run config session) ->
  static_allowlist_count config = Z.of_nat (length (allowlist config)) ->
  static_shell_allowlist_count config = Z.of_nat (length (shell_allowlist config)) ->
  approval_gate_init_from_parent true (gate_run config session) = Some child ->
  approval_gate_requires_check cb sh child tc = approval_gate_requires_check cb sh config tc /\
  enabled child = enabled config /\ categories child = categories config /\
  is_interactive child = false /\
  (approval_gate_requires_check cb sh child tc = 0%Z ->
   approval_gate_requires_check cb sh (gate_run config session) tc = 0%Z) /\
  (forall now, is_rate_limited now child tc = false).
Proof.
  intros Hok Hok' Hs1 Hs2 Hchild. pose proof (child_decides cb sh _ child tc Hok' Hchild) as Hd.
  destruct (gate_run_extends config session) as [(Fe & _ & Fc & F1 & F2 & _) (rs & ss & Hr & Hs)].
  assert (approval_gate_requires_check cb sh child tc = approval_gate_requires_check cb sh config tc) as Heq.
  { rewrite Hd. apply requires_check_ext; simpl; [done..| |].
    - by rewrite F1, Hs1, Nat2Z.id, Hr, take_app_length.
    - by rewrite F2, Hs2, Nat2Z.id, Hs, take_app_length. }
  injection Hchild as <-. split; [done|]. split; [exact Fe|]. split; [exact Fc|]. split; [done|].
  split.
  - rewrite Heq. apply requires_check_mono; [done..| |].
    + intros e He. rewrite Hr. apply elem_of_app. by left.
    + intros e He. rewrite Hs. apply elem_of_app. by left.
  - intros now. unfold is_rate_limited. cbn [rate_limiter]. destruct (tc_name tc) as [name|]; [|done].
    unfold rate_limiter_is_blocked. by rewrite create_lookup.
Qed.

Definition static_config : ApprovalGateConfig RefRegex :=
  mkConfig true true DEFAULT_CATEGORY_ACTIONS [] 16 0
    [mkShellAllowEntry [cs "ls"] SHELL_TYPE_UNKNOWN] 16 1 (Some rate_limiter_create).

Lemma subagent_inherits_static_only_witness :
  exists child,
    approval_gate_init_from_parent true
      (gate_run static_config [AddCli memory_available true (cs "shell:make")]) = Some child /\
    approval_gate_requires_check no_callbacks None child (shell_call "make") = 1%Z.
Proof.
  eexists. split; [reflexivity|].
  refine (eq_trans (proj1 (subagent_inherits_static_only no_callbacks None static_config
    [AddCli memory_available true (cs "shell:make")] _ (shell_call "make") _ _ _ _ eq_refl)) _).
  - split; simpl; try lia; repeat constructor; discriminate.
  - split; vm_compute; try (split; discriminate || reflexivity); try discriminate; try reflexivity;
      repeat constructor; discriminate.
  - reflexivity.
  - reflexivity.
  - vm_compute. reflexivity.
Defined.

(** Every insertion, from the prompt, the configuration file or the
    command line, keeps the configuration well formed, changes nothing but
    the allowlists, writes its new entry inside the allocated array, and on
    any failure leaves both lists as they were. *)
Theorem gate_add_safe {R : Regex} (config : ApprovalGateConfig R) (a : gate_add) :
  gate_ok config -> room config ->
  let '(config', rc) := gate_add1 config a in
  gate_ok config' /\ same_frame config config' /\ added config config' rc.
Proof.
  intros Hok Hr. pose proof (gate_add1_safe config a Hok Hr) as H.
  by destruct (gate_add1 config a).
Qed.

Lemma gate_add_safe_witness :
  added static_config (gate_add1 static_config (AddPrefix memory_available [cs "make"] SHELL_TYPE_CMD)).1 0.
Proof.
  pose proof (gate_add_safe static_config (AddPrefix memory_available [cs "make"] SHELL_TYPE_CMD)) as H.
  destruct H as (_ & _ & H).
  - split; simpl; try lia; repeat constructor; discriminate.
  - split; vm_compute; reflexivity.
  - exact H.
Defined.

(** *** The command line *)

(** The argument of --allow for a tool and its words. *)
Fixpoint comma_join (ws : list cstr) : cstr :=
  match ws with
  | [] => []
  | w :: ws' => match ws' with [] => w | _ => w ++ "," :: comma_join ws' end
  end.

Lemma strtok_count acc s : (length (strtok_commas acc s) <= comma_count s)%nat.
Proof.
  revert acc; induction s as [|c s IH]; intros acc; simpl.
  - destruct acc; simpl; lia.
  - destruct (Ascii.eqb c ","); [|apply IH].
    destruct acc; simpl; [pose proof (IH [])|pose proof (IH [])]; lia.
Qed.

Lemma strtok_word acc w s :
  "," ∉ w -> (w <> [] \/ acc <> []) ->
  strtok_commas acc (w ++ "," :: s) = (rev acc ++ w) :: strtok_commas [] s.
Proof.
  revert acc; induction w as [|c w IH]; intros acc Hn Hne; simpl.
  - destruct acc; [by destruct Hne|]. by rewrite app_nil_r.
  - apply not_elem_of_cons in Hn as [Hc Hn]. destruct (Ascii.eqb_spec c ","); [congruence|].
    rewrite IH; [|done|by right]. simpl. by rewrite <- app_assoc.
Qed.

Lemma strtok_last acc w :
  "," ∉ w -> (w <> [] \/ acc <> []) -> strtok_commas acc w = [rev acc ++ w].
Proof.
  revert acc; induction w as [|c w IH]; intros acc Hn Hne; simpl.
  - destruct acc; [by destruct Hne|]. by rewrite app_nil_r.
  - apply not_elem_of_cons in Hn as [Hc Hn]. destruct (Ascii.eqb_spec c ","); [congruence|].
    rewrite IH; [|done|by right]. simpl. by rewrite <- app_assoc.
Qed.

Lemma strtok_join ws :
  Forall (fun w => w <> [] /\ "," ∉ w) ws -> strtok_commas [] (comma_join ws) = ws.
Proof.
  induction 1 as [|w ws [Hne Hn] Hws IH]; [done|]. cbn [comma_join].
  destruct ws as [|w' ws']; [rewrite strtok_last; auto|].
  rewrite strtok_word by auto. by rewrite IH.
Qed.

(** --allow "shell:w1,...,wn" adds exactly the prefix [w1; ...; wn] (the
    words are never cut off by the token array), --allow "tool:regex" adds
    the expression for that tool, and a specification without colon, without
    tool or without argument is refused and changes nothing. *)
Theorem cli_allow_spec {R : Regex} ga (config : ApprovalGateConfig R) :
  (forall ws, ws <> [] -> Forall (fun w => w <> [] /\ "," ∉ w) ws ->
     approval_gate_add_cli_allow ga true config (cs "shell:" ++ comma_join ws) =
     approval_gate_add_shell_allowlist ga config ws SHELL_TYPE_UNKNOWN) /\
  (forall tool args, tool <> [] -> ":" ∉ tool -> tool <> cs "shell" -> args <> [] ->
     approval_gate_add_cli_allow ga true config (tool ++ ":" :: args) =
     approval_gate_add_allowlist ga config tool args) /\
  (forall ok spec, ":" ∉ spec \/ (exists args, spec = ":" :: args) \/
       (exists tool, ":" ∉ tool /\ spec = tool ++ [":"]) ->
     approval_gate_add_cli_allow ga ok config spec = (config, (-1)%Z)).
Proof.
  assert (forall tool args, ":" ∉ tool ->
    strchr (tool ++ ":" :: args) ":" = Some (":" :: args) /\
    take (length (tool ++ ":" :: args) - length (":" :: args)) (tool ++ ":" :: args) = tool) as Hsplit.
  { intros tool args Hn. split; [apply strchr_Some; eauto|].
    rewrite length_app, Nat.add_sub. apply take_app_length. }
  split_and!.
  - intros ws Hne Hws. change (cs "shell:" ++ comma_join ws) with (cs "shell" ++ ":" :: comma_join ws).
    destruct (Hsplit (cs "shell") (comma_join ws)) as [E1 E2]; [by apply (bool_decide_unpack _)|].
    unfold approval_gate_add_cli_allow. rewrite E1, E2. change (tail (":" :: ?x)) with x.
    pose proof (strtok_count [] (comma_join ws)) as Hc.
    destruct (comma_join ws) as [|c l] eqn:Ej.
    { destruct Hws as [|w ws' [Hw _] _]; [done|]. simpl in Ej. destruct ws'; [done|]. by destruct w. }
    cbn [negb]. rewrite streq_refl, take_ge by done. by rewrite <- Ej, strtok_join.
  - intros tool args Hne Hn Hsh Ha. destruct (Hsplit tool args Hn) as [E1 E2].
    unfold approval_gate_add_cli_allow. rewrite E1, E2. cbn [tail negb].
    destruct tool; [done|]. destruct args; [done|]. by rewrite (proj2 (streq_false _ _) Hsh).
  - intros ok spec [Hn|[[args ->]|(tool & Hn & ->)]]; unfold approval_gate_add_cli_allow.
    + by rewrite (proj2 (strchr_None spec ":") Hn).
    + destruct (Hsplit [] args) as [E1 E2]; [apply not_elem_of_nil|].
      simpl app in *. by rewrite E1, E2.
    + destruct (Hsplit tool [] Hn) as [-> ->]. destruct tool; [done|]. by destruct ok.
Qed.
