(* ===== verification/ApprovalPrompt.v ===== *)
(** * The approval gate: prompting (lib/policy/approval_gate.c)

    The keyboard as a stream of events, the single and the batch prompt as
    loops over it, and the combined checks. The terminal is gate_prompter.c:
    a blocking read of one key, and one with a timeout. *)

From S2P Require Import Prelude CString Regex RateLimiter Json ToolArgs ApprovalGate GateDecision.
Local Open Scope char_scope.
Local Open Scope bool_scope.

(** What happens at the terminal: a key, half a second without input, or
    SIGINT. The end of the list is the end of the input. *)
Inductive KeyEvent := Key (c : ascii) | Pause | Interrupt.

(** gate_prompter_read_key: the key code, or -1. *)
Fixpoint read_key (input : list KeyEvent) : Z * list KeyEvent :=
  match input with
  | [] => ((-1)%Z, [])
  | Key c :: rest => (byte_of c, rest)
  | Pause :: rest => read_key rest
  | Interrupt :: rest => ((-1)%Z, rest)
  end.

(** gate_prompter_read_key_timeout *)
Definition read_key_timeout (input : list KeyEvent) : option ascii * list KeyEvent :=
  match input with
  | [] => (None, [])
  | Key c :: rest => (Some c, rest)
  | Pause :: rest | Interrupt :: rest => (None, rest)
  end.

(** [tolower(response)] for a response that is not negative *)
Definition lower_code (response : Z) : Z :=
  byte_of (tolower (ascii_of_N (Z.to_N response))).

Definition code (c : ascii) : Z := byte_of c.

Section Prompt.
Context {R : Regex} {J : CJson} (cb : ApprovalGateCallbacks).
Implicit Types (config : ApprovalGateConfig R) (tool_call : ToolCall).

(** The prompt loop; [None] when the fuel runs out. *)
Fixpoint prompt_loop (fuel : nat) config tool_call (input : list KeyEvent)
    : option (ApprovalGateConfig R * ApprovalResult * list KeyEvent) :=
  match fuel with
  | O => None
  | S fuel' =>
      let '(response, input) := read_key input in
      if (response <? 0)%Z then Some (config, APPROVAL_ABORTED, input)
      else
        let k := lower_code response in
        if (k =? code "y")%Z
        then Some (reset_denial_tracker config (tc_name tool_call), APPROVAL_ALLOWED, input)
        else if (k =? code "n")%Z then Some (config, APPROVAL_DENIED, input)
        else if (k =? code "a")%Z
        then Some (reset_denial_tracker config (tc_name tool_call), APPROVAL_ALLOWED_ALWAYS, input)
        else if (k =? code "?")%Z then
          let '(_, input) := read_key input in prompt_loop fuel' config tool_call input
        else if (k =? 3)%Z || (k =? 4)%Z then Some (config, APPROVAL_ABORTED, input)
        else prompt_loop fuel' config tool_call input
  end.

(** Every iteration consumes an event or ends the loop. *)
Definition prompt_fuel (input : list KeyEvent) : nat := S (length input).

(** [tty]: the prompter could be created. *)
Definition approval_gate_prompt (tty : bool) config tool_call (input : list KeyEvent)
    : option (ApprovalGateConfig R * ApprovalResult * list KeyEvent) :=
  if negb tty then Some (config, APPROVAL_NON_INTERACTIVE_DENIED, input)
  else prompt_loop (prompt_fuel input) config tool_call input.

(** The surroundings of one check: the time, $SHELL, the terminal, and the
    answer of the parent process when there is an approval channel. *)
Record PromptEnv := mkPromptEnv {
  pe_now : Z;
  pe_SHELL : option cstr;
  pe_tty : bool;
  pe_channel : option (ToolCall -> ApprovalResult)
}.

Definition check_approval_gate (env : PromptEnv) config tool_call (input : list KeyEvent)
    : option (ApprovalGateConfig R * ApprovalResult * list KeyEvent) :=
  if is_rate_limited (pe_now env) config tool_call then Some (config, APPROVAL_RATE_LIMITED, input)
  else
    let check_result := approval_gate_requires_check cb (pe_SHELL env) config tool_call in
    if (check_result =? 0)%Z then Some (config, APPROVAL_ALLOWED, input)
    else if (check_result =? -1)%Z then Some (config, APPROVAL_DENIED, input)
    else if (check_result =? 1)%Z then
      match pe_channel env with
      | Some subagent_request_approval => Some (config, subagent_request_approval tool_call, input)
      | None =>
          if negb (is_interactive config) then Some (config, APPROVAL_NON_INTERACTIVE_DENIED, input)
          else approval_gate_prompt (pe_tty env) config tool_call input
      end
    else Some (config, APPROVAL_DENIED, input).

(** ** Batches *)

(** The memory of an ApprovalBatchResult: as the caller left it, freed
    (its pointers are NULL), or one result per call. *)
Inductive BatchBuffer := Untouched | Freed | Filled (results : list ApprovalResult).

Definition init_batch_result (alloc_ok : bool) (count : nat) : BatchBuffer * Z :=
  if (count =? 0)%nat then (Untouched, (-1)%Z)
  else if negb alloc_ok then (Freed, (-1)%Z)
  else (Filled (repeat APPROVAL_DENIED count), 0%Z).

Definition free_batch_result (b : BatchBuffer) : BatchBuffer := Freed.

(** [if (pending[i]) results[i] = r] *)
Fixpoint fill_pending (r : ApprovalResult) (pending : list bool) (results : list ApprovalResult)
    : list ApprovalResult :=
  match pending, results with
  | p :: pending', x :: results' => (if p then r else x) :: fill_pending r pending' results'
  | _, _ => results
  end.

Fixpoint reset_pending config (pending : list bool) (calls : list ToolCall) : ApprovalGateConfig R :=
  match pending, calls with
  | p :: pending', tc :: calls' =>
      reset_pending (if p then reset_denial_tracker config (tc_name tc) else config) pending' calls'
  | _, _ => config
  end.

Definition is_denied (r : ApprovalResult) : bool := bool_decide (r = APPROVAL_DENIED).
Definition is_always (r : ApprovalResult) : bool := bool_decide (r = APPROVAL_ALLOWED_ALWAYS).

Definition reviewed_result (results : list ApprovalResult) : ApprovalResult :=
  let any_denied := existsb is_denied results in
  let all_always := forallb is_always results in
  if any_denied then APPROVAL_DENIED
  else if all_always then APPROVAL_ALLOWED_ALWAYS
  else APPROVAL_ALLOWED.

(** The operation number a digit starts, with the optional second digit. *)
Definition read_op_num (response : Z) (count : nat) (input : list KeyEvent)
    : Z * list KeyEvent :=
  let op_num := (response - code "0")%Z in
  if (9 <? Z.of_nat count)%Z then
    let '(next_key, input) := read_key_timeout input in
    match next_key with
    | Some c => if ((code "0" <=? byte_of c) && (byte_of c <=? code "9"))%Z
                then ((op_num * 10 + (byte_of c - code "0"))%Z, input) else (op_num, input)
    | None => (op_num, input)
    end
  else (op_num, input).

Definition pending_count (pending : list bool) : nat := length (filter (fun b => b = true) pending).

(** [tool_calls] is not empty; the results are those of the batch. *)
Fixpoint batch_loop (fuel : nat) config (calls : list ToolCall) (pending : list bool)
    (results : list ApprovalResult) (input : list KeyEvent)
    : option (ApprovalGateConfig R * ApprovalResult * BatchBuffer * list KeyEvent) :=
  match fuel with
  | O => None
  | S fuel' =>
      let count := length calls in
      let '(response, input) := read_key input in
      if (response <? 0)%Z
      then Some (config, APPROVAL_ABORTED, free_batch_result (Filled results), input)
      else
        let k := lower_code response in
        if (k =? code "y")%Z
        then Some (reset_pending config pending calls, APPROVAL_ALLOWED,
                   Filled (fill_pending APPROVAL_ALLOWED pending results), input)
        else if (k =? code "n")%Z
        then Some (config, APPROVAL_DENIED,
                   Filled (fill_pending APPROVAL_DENIED pending results), input)
        else if (code "1" <=? k)%Z && (k <=? code "9")%Z then
          let '(op_num, input) := read_op_num response count input in
          if (op_num <? 1)%Z || (Z.of_nat count <? op_num)%Z
          then batch_loop fuel' config calls pending results input
          else
            let idx := Z.to_nat (op_num - 1) in
            match pending !! idx, calls !! idx with
            | Some true, Some call =>
                match approval_gate_prompt true config call input with
                | None => None
                | Some (config, single_result, input) =>
                    if decide (single_result = APPROVAL_ABORTED)
                    then Some (config, APPROVAL_ABORTED, free_batch_result (Filled results), input)
                    else
                      let results := <[idx := single_result]> results in
                      let pending := <[idx := false]> pending in
                      if (pending_count pending =? 0)%nat
                      then Some (config, reviewed_result results, Filled results, input)
                      else batch_loop fuel' config calls pending results input
                end
            | _, _ => batch_loop fuel' config calls pending results input
            end
        else if (k =? 3)%Z || (k =? 4)%Z
        then Some (config, APPROVAL_ABORTED, free_batch_result (Filled results), input)
        else batch_loop fuel' config calls pending results input
  end.

Definition approval_gate_prompt_batch (tty alloc_ok : bool) config (calls : list ToolCall)
    (input : list KeyEvent)
    : option (ApprovalGateConfig R * ApprovalResult * BatchBuffer * list KeyEvent) :=
  match calls with
  | [] => Some (config, APPROVAL_DENIED, Untouched, input)
  | _ =>
      if negb tty then Some (config, APPROVAL_NON_INTERACTIVE_DENIED, Untouched, input)
      else
        match init_batch_result alloc_ok (length calls) with
        | (Filled results, 0%Z) =>
            batch_loop (prompt_fuel input) config calls (repeat true (length calls)) results input
        | (b, _) => Some (config, APPROVAL_DENIED, b, input)
        end
  end.

(** The first pass over the batch: the results known without asking, and
    the indices of the calls that need approval, in order. *)
Fixpoint triage (env : PromptEnv) config (i : nat) (calls : list ToolCall)
    : list ApprovalResult * list nat * bool * bool :=
  match calls with
  | [] => ([], [], false, false)
  | tc :: calls' =>
      let '(rs, idxs, any_rl, any_den) := triage env config (S i) calls' in
      if is_rate_limited (pe_now env) config tc
      then (APPROVAL_RATE_LIMITED :: rs, idxs, true, any_den)
      else
        let check_result := approval_gate_requires_check cb (pe_SHELL env) config tc in
        if (check_result =? 0)%Z then (APPROVAL_ALLOWED :: rs, idxs, any_rl, any_den)
        else if (check_result =? -1)%Z then (APPROVAL_DENIED :: rs, idxs, any_rl, true)
        else if (check_result =? 1)%Z then (APPROVAL_DENIED :: rs, i :: idxs, any_rl, any_den)
        else (APPROVAL_DENIED :: rs, idxs, any_rl, true)
  end.

(** [results[indices[j]] = values[j]] *)
Fixpoint scatter (idxs : list nat) (values results : list ApprovalResult) : list ApprovalResult :=
  match idxs, values with
  | i :: idxs', v :: values' => scatter idxs' values' (<[i := v]> results)
  | _, _ => results
  end.

Inductive BatchOutcome :=
| BatchReturns (config : ApprovalGateConfig R) (result : ApprovalResult) (b : BatchBuffer)
    (input : list KeyEvent)
| BatchUndefined.

(** [alloc_ok]: every allocation succeeds. [BatchUndefined] is the read
    through the pointers of a temporary batch that was freed or never
    initialised. *)
Definition check_approval_gate_batch (env : PromptEnv) (alloc_ok : bool) config
    (calls : list ToolCall) (input : list KeyEvent) : option BatchOutcome :=
  match init_batch_result alloc_ok (length calls) with
  | (Filled _, 0%Z) =>
      let '(results, idxs, any_rate_limited, any_denied) := triage env config 0 calls in
      match idxs with
      | [] =>
          let result := if any_rate_limited : bool then APPROVAL_RATE_LIMITED
                        else if any_denied : bool then APPROVAL_DENIED else APPROVAL_ALLOWED in
          Some (BatchReturns config result (Filled results) input)
      | _ =>
          if negb (is_interactive config) then
            let results := scatter idxs (repeat APPROVAL_NON_INTERACTIVE_DENIED (length idxs)) results in
            Some (BatchReturns config APPROVAL_NON_INTERACTIVE_DENIED (Filled results) input)
          else
            match idxs with
            | [idx] =>
                match calls !! idx with
                | None => None
                | Some tc =>
                    match approval_gate_prompt (pe_tty env) config tc input with
                    | None => None
                    | Some (config, result, input) =>
                        let overall :=
                          if decide (result = APPROVAL_ABORTED) then APPROVAL_ABORTED
                          else if is_denied result || any_denied then APPROVAL_DENIED
                          else if any_rate_limited then APPROVAL_RATE_LIMITED else result in
                        Some (BatchReturns config overall (Filled (<[idx := result]> results)) input)
                    end
                end
            | _ =>
                let approval_calls := omap (fun i => calls !! i) idxs in
                match approval_gate_prompt_batch (pe_tty env) alloc_ok config approval_calls input with
                | None => None
                | Some (config, batch_result, temp_batch, input) =>
                    match temp_batch with
                    | Filled values =>
                        let overall :=
                          if decide (batch_result = APPROVAL_ABORTED) then APPROVAL_ABORTED
                          else if any_rate_limited then APPROVAL_RATE_LIMITED
                          else if any_denied || is_denied batch_result then APPROVAL_DENIED
                          else batch_result in
                        Some (BatchReturns config overall (Filled (scatter idxs values results)) input)
                    | _ => Some BatchUndefined
                    end
                end
            end
      end
  | (b, _) => Some (BatchReturns config APPROVAL_DENIED b input)
  end.
End Prompt.

(** ** The keyboard *)

Lemma read_key_cases input :
  exists ps, Forall (fun e => e = Pause) ps /\
    ((input = ps /\ read_key input = ((-1)%Z, [])) \/
     (exists rest, input = ps ++ Interrupt :: rest /\ read_key input = ((-1)%Z, rest)) \/
     (exists c rest, input = ps ++ Key c :: rest /\ read_key input = (byte_of c, rest))).
Proof.
  induction input as [|[c| |] input IH]; simpl.
  - exists []. eauto.
  - exists []. split; [done|]. right. right. by exists c, input.
  - destruct IH as (ps & Hps & IH). exists (Pause :: ps). split; [by constructor|].
    destruct IH as [[-> E]|[(rest & -> & E)|(c & rest & -> & E)]];
      [left|right; left; exists rest|right; right; exists c, rest]; done.
  - exists []. split; [done|]. right. left. by exists input.
Qed.

Lemma read_key_length input : (length (read_key input).2 <= length input)%nat.
Proof. induction input as [|[c| |] input IH]; simpl; lia. Qed.

Lemma byte_of_inj a b : byte_of a = byte_of b -> a = b.
Proof.
  unfold byte_of. intros H%N2Z.inj. rewrite <- (ascii_N_embedding a), <- (ascii_N_embedding b).
  by rewrite H.
Qed.

Lemma byte_of_nonneg c : (byte_of c <? 0)%Z = false.
Proof. unfold byte_of. apply Z.ltb_ge. lia. Qed.

Lemma lower_code_byte c : lower_code (byte_of c) = byte_of (tolower c).
Proof. unfold lower_code, byte_of. by rewrite N2Z.id, ascii_N_embedding. Qed.

Lemma code_eqb a b : (byte_of a =? code b)%Z = Ascii.eqb a b.
Proof.
  destruct (Ascii.eqb_spec a b) as [->|Hne]; [apply Z.eqb_refl|].
  apply Z.eqb_neq. intros H. apply Hne. by apply byte_of_inj.
Qed.

Definition ETX : ascii := "003".
Definition EOT : ascii := "004".

Lemma code_3_4 a : (byte_of a =? 3)%Z || (byte_of a =? 4)%Z = Ascii.eqb a ETX || Ascii.eqb a EOT.
Proof. change 3%Z with (code ETX). change 4%Z with (code EOT). by rewrite !code_eqb. Qed.

(** Keys that end a prompt. *)
Definition decisive (c : ascii) : bool :=
  existsb (Ascii.eqb (tolower c)) ["y"; "n"; "a"; ETX; EOT].

(** Input that leaves the prompt waiting: pauses, other keys, and a question
    mark with the key that dismisses the details. *)
Inductive harmless : list KeyEvent -> Prop :=
| harmless_nil : harmless []
| harmless_pause l : harmless l -> harmless (Pause :: l)
| harmless_key c l : decisive c = false -> c <> "?" -> harmless l -> harmless (Key c :: l)
| harmless_details ps e l :
    Forall (fun e => e = Pause) ps -> e <> Pause -> harmless l ->
    harmless (Key "?" :: ps ++ e :: l).

Lemma harmless_pauses ps l : Forall (fun e => e = Pause) ps -> harmless l -> harmless (ps ++ l).
Proof. induction 1 as [|e ps -> _ IH]; [done|]. intros H. apply harmless_pause. auto. Qed.

Lemma tolower_question c : tolower c = "?" <-> c = "?".
Proof. ascii_cases c; vm_compute; split; intros H; (discriminate H || reflexivity). Qed.

Section PromptFacts.
Context {R : Regex}.
Implicit Types (config : ApprovalGateConfig R) (tc : ToolCall).

(** What one decisive key makes of a prompt. *)
Definition key_outcome config tc (c : ascii) (config' : ApprovalGateConfig R) (r : ApprovalResult) : Prop :=
  (tolower c = "y" /\ r = APPROVAL_ALLOWED /\ config' = reset_denial_tracker config (tc_name tc)) \/
  (tolower c = "n" /\ r = APPROVAL_DENIED /\ config' = config) \/
  (tolower c = "a" /\ r = APPROVAL_ALLOWED_ALWAYS /\ config' = reset_denial_tracker config (tc_name tc)) \/
  ((tolower c = ETX \/ tolower c = EOT) /\ r = APPROVAL_ABORTED /\ config' = config).

(** The whole behaviour of a prompt on an input. *)
Definition prompt_outcome config tc input config' r rest : Prop :=
  (exists pre c, input = pre ++ Key c :: rest /\ harmless pre /\ key_outcome config tc c config' r) \/
  (exists pre, input = pre ++ Interrupt :: rest /\ harmless pre /\ r = APPROVAL_ABORTED /\ config' = config) \/
  (rest = [] /\ r = APPROVAL_ABORTED /\ config' = config).

(** Input that may stand in front of any harmless input. *)
Definition skips (pre : list KeyEvent) : Prop := forall l, harmless l -> harmless (pre ++ l).

Lemma skips_key ps c :
  Forall (fun e => e = Pause) ps -> decisive c = false -> c <> "?" -> skips (ps ++ [Key c]).
Proof using Type.
  intros Hps Hd Hc l Hl. rewrite <- app_assoc. apply harmless_pauses; [done|]. by apply harmless_key.
Qed.

Lemma skips_details ps ps' e :
  Forall (fun e => e = Pause) ps -> Forall (fun e => e = Pause) ps' -> e <> Pause ->
  skips (ps ++ Key "?" :: ps' ++ [e]).
Proof using Type.
  intros Hps Hps' He l Hl. rewrite <- app_assoc. apply harmless_pauses; [done|]. simpl.
  rewrite <- app_assoc. by apply harmless_details.
Qed.

Lemma prompt_outcome_prefix config tc pre input config' r rest :
  skips pre -> prompt_outcome config tc input config' r rest ->
  prompt_outcome config tc (pre ++ input) config' r rest.
Proof using Type.
  intros Happ [(q & c & -> & Hq & H)|[(q & -> & Hq & H)|H]].
  - left. exists (pre ++ q), c. rewrite <- app_assoc. auto.
  - right. left. exists (pre ++ q). rewrite <- app_assoc. auto.
  - right. by right.
Qed.

(** The dismissal of the details: the next event that is not a pause. *)
Lemma read_key_dismiss input :
  (read_key input).2 = [] \/
  exists ps e rest, Forall (fun e => e = Pause) ps /\ e <> Pause /\
    input = ps ++ e :: rest /\ (read_key input).2 = rest.
Proof using Type.
  destruct (read_key_cases input) as (ps & Hps & [[-> E]|[(rest & -> & E)|(c & rest & -> & E)]]);
    rewrite E; [by left|right; exists ps, Interrupt, rest|right; exists ps, (Key c), rest]; done.
Qed.

Lemma prompt_after_details config tc ps rest config' r rest' :
  Forall (fun e => e = Pause) ps ->
  prompt_outcome config tc (read_key rest).2 config' r rest' ->
  prompt_outcome config tc (ps ++ Key "?" :: rest) config' r rest'.
Proof using Type.
  intros Hps Ho. destruct (read_key_dismiss rest) as [E|(ps' & e & l & Hps' & He & -> & E)];
    rewrite E in Ho.
  - destruct Ho as [(q & ? & Hq & _)|[(q & Hq & _)|Ho]]; [by destruct q|by destruct q|].
    right. by right.
  - replace (ps ++ Key "?" :: ps' ++ e :: l) with ((ps ++ Key "?" :: ps' ++ [e]) ++ l)
      by (rewrite <- !app_assoc; simpl; by rewrite <- app_assoc).
    apply prompt_outcome_prefix; [by apply skips_details|done].
Qed.

Lemma prompt_loop_exact fuel config tc input :
  (length input < fuel)%nat ->
  exists config' r rest, prompt_loop fuel config tc input = Some (config', r, rest) /\
    prompt_outcome config tc input config' r rest.
Proof using Type.
  revert input. induction fuel as [|fuel IH]; intros input Hf; [lia|]. cbn [prompt_loop].
  destruct (read_key_cases input) as (ps & Hps & Hcase).
  assert (harmless ps) as Hh.
  { rewrite <- (app_nil_r ps). apply harmless_pauses; [done|constructor]. }
  destruct Hcase as [[-> E]|[(rest & -> & E)|(c & rest & -> & E)]]; rewrite E.
  - eexists _, _, _. split; [done|]. right. by right.
  - eexists _, _, _. split; [done|]. right. left. by exists ps.
  - rewrite byte_of_nonneg, lower_code_byte, !code_eqb, code_3_4.
    rewrite length_app in Hf. simpl in Hf.
    assert (forall config' r, key_outcome config tc c config' r ->
      exists config'' r' rest', Some (config', r, rest) = Some (config'', r', rest') /\
        prompt_outcome config tc (ps ++ Key c :: rest) config'' r' rest') as Hdone.
    { intros config' r H. eexists _, _, _. split; [done|]. left. exists ps, c. auto. }
    destruct (Ascii.eqb_spec (tolower c) "y") as [Ey|Ey]; [apply Hdone; left; auto|].
    destruct (Ascii.eqb_spec (tolower c) "n") as [En|En]; [apply Hdone; right; left; auto|].
    destruct (Ascii.eqb_spec (tolower c) "a") as [Ea|Ea]; [apply Hdone; right; right; left; auto|].
    destruct (Ascii.eqb_spec (tolower c) "?") as [Eq|Eq].
    + apply tolower_question in Eq as ->. destruct (read_key rest) as [x rest'] eqn:E'.
      destruct (IH rest') as (config' & r & rest'' & H & Ho).
      { pose proof (read_key_length rest) as Hl. rewrite E' in Hl. simpl in Hl. lia. }
      exists config', r, rest''. split; [done|]. apply prompt_after_details; [done|]. by rewrite E'.
    + destruct (Ascii.eqb (tolower c) ETX || Ascii.eqb (tolower c) EOT) eqn:E34.
      * apply Hdone. right. right. right. rewrite orb_true_iff, !ascii_eqb_true in E34. auto.
      * destruct (IH rest) as (config' & r & rest'' & H & Ho); [lia|].
        exists config', r, rest''. split; [done|].
        replace (ps ++ Key c :: rest) with ((ps ++ [Key c]) ++ rest) by (by rewrite <- app_assoc).
        apply prompt_outcome_prefix; [apply skips_key; [done| |intros ->; by apply Eq]|done].
        unfold decisive. simpl. apply orb_false_iff in E34 as [-> ->].
        by rewrite (proj2 (ascii_eqb_false _ _) Ey), (proj2 (ascii_eqb_false _ _) En),
          (proj2 (ascii_eqb_false _ _) Ea).
Qed.

Lemma approval_gate_prompt_exact config tc input :
  exists config' r rest, approval_gate_prompt true config tc input = Some (config', r, rest) /\
    prompt_outcome config tc input config' r rest.
Proof using Type. apply prompt_loop_exact. unfold prompt_fuel. lia. Qed.

(** ** Batches *)

Definition approved (r : ApprovalResult) : Prop :=
  r = APPROVAL_ALLOWED \/ r = APPROVAL_ALLOWED_ALWAYS.

(** The answers that let a call through: the code runs a call on an answer
    outside the enumeration too. *)
Definition lets_through (r : ApprovalResult) : Prop :=
  approved r \/ exists value, r = APPROVAL_OTHER value.

(** What a prompt that was not aborted answers. *)
Definition answered (r : ApprovalResult) : Prop := r = APPROVAL_DENIED \/ approved r.

(** The user pressed an approving key. *)
Definition said_yes (input : list KeyEvent) : Prop :=
  exists c, Key c ∈ input /\ (tolower c = "y" \/ tolower c = "a").

Lemma said_yes_mono l k : (forall e, e ∈ l -> e ∈ k) -> said_yes l -> said_yes k.
Proof using Type. intros H (c & Hc & Hy). exists c. auto. Qed.

Lemma prompt_outcome_facts config tc input config' r rest :
  prompt_outcome config tc input config' r rest ->
  (length rest <= length input)%nat /\ (forall e, e ∈ rest -> e ∈ input) /\
  (approved r -> said_yes input) /\ (r = APPROVAL_ABORTED \/ answered r).
Proof using Type.
  unfold answered, approved.
  intros [(pre & c & -> & _ & Hk)|[(pre & -> & _ & -> & _)|(-> & -> & _)]].
  - rewrite length_app. simpl. split; [lia|]. split; [set_solver|].
    assert (Key c ∈ pre ++ Key c :: rest) as Hin by set_solver.
    destruct Hk as [(Hc & -> & _)|[(Hc & -> & _)|[(Hc & -> & _)|(Hc & -> & _)]]].
    + split; [intros _; exists c; auto|auto].
    + split; [by intros [?|?]|auto].
    + split; [intros _; exists c; auto|auto].
    + split; [by intros [?|?]|auto].
  - rewrite length_app. simpl. split; [lia|]. split; [set_solver|]. split; [by intros [?|?]|auto].
  - split; [simpl; lia|]. split; [set_solver|]. split; [by intros [?|?]|auto].
Qed.

Lemma fill_pending_length r pending results :
  length (fill_pending r pending results) = length results.
Proof using Type.
  revert results; induction pending as [|p pending IH]; intros [|x results]; simpl; [done..|].
  by rewrite IH.
Qed.

Lemma fill_pending_elem r pending results x :
  x ∈ fill_pending r pending results -> x = r \/ x ∈ results.
Proof using Type.
  revert results; induction pending as [|p pending IH]; intros [|y results]; simpl; auto.
  rewrite !elem_of_cons. intros [->|H]; [destruct p; auto|]. destruct (IH results H); auto.
Qed.

Lemma fill_pending_true r pending results :
  length pending = length results -> true ∈ pending -> r ∈ fill_pending r pending results.
Proof using Type.
  revert results; induction pending as [|p pending IH]; intros [|y results]; simpl; intros Hl Hin;
    [by apply elem_of_nil in Hin|by apply elem_of_nil in Hin|done|].
  apply elem_of_cons in Hin as [<-|Hin]; [left|]. right. apply IH; [lia|done].
Qed.

Lemma pending_count_pos pending : pending_count pending <> 0%nat -> true ∈ pending.
Proof using Type.
  unfold pending_count. intros H. destruct (filter _ pending) as [|b l] eqn:E; [done|].
  assert (b ∈ filter (fun b => b = true) pending) as Hb by (rewrite E; left).
  apply list_elem_of_filter in Hb as [-> Hb]. done.
Qed.

(** The results of a finished batch agree with its overall status. *)
Definition batch_status (r : ApprovalResult) (rs : list ApprovalResult) : Prop :=
  (r = APPROVAL_DENIED /\ APPROVAL_DENIED ∈ rs) \/
  (r = APPROVAL_ALLOWED_ALWAYS /\ Forall (fun x => x = APPROVAL_ALLOWED_ALWAYS) rs) \/
  (r = APPROVAL_ALLOWED /\ exists x, x ∈ rs /\ approved x).

Lemma reviewed_status rs :
  rs <> [] -> Forall answered rs -> batch_status (reviewed_result rs) rs.
Proof using Type.
  intros Hne Hall. unfold reviewed_result, batch_status. destruct (existsb is_denied rs) eqn:Ed.
  - left. split; [done|]. apply existsb_true_iff in Ed as (x & Hx & Hd).
    unfold is_denied in Hd. apply bool_decide_eq_true_1 in Hd as ->. done.
  - destruct (forallb is_always rs) eqn:Ea.
    + right. left. split; [done|]. apply Forall_forall. intros x Hx.
      rewrite forallb_forall in Ea. apply list_elem_of_In, Ea in Hx.
      unfold is_always in Hx. by apply bool_decide_eq_true_1 in Hx.
    + right. right. split; [done|]. destruct rs as [|x rs]; [done|]. exists x. split; [left|].
      apply Forall_cons in Hall as [[->|H] _]; [|done]. simpl in Ed. done.
Qed.

Definition batch_outcome (calls : list ToolCall) (results0 : list ApprovalResult)
    (input : list KeyEvent) (r : ApprovalResult) (b : BatchBuffer) : Prop :=
  (r = APPROVAL_ABORTED /\ b = Freed) \/
  exists rs, b = Filled rs /\ length rs = length calls /\ Forall answered rs /\
    batch_status r rs /\
    (forall x, x ∈ rs -> approved x -> said_yes input \/ x ∈ results0).

Lemma batch_outcome_later calls res0 res1 l k r b :
  (forall e, e ∈ l -> e ∈ k) ->
  (forall x, x ∈ res1 -> approved x -> said_yes k \/ x ∈ res0) ->
  batch_outcome calls res1 l r b -> batch_outcome calls res0 k r b.
Proof using Type.
  intros Hlk Hres [H|(rs & H1 & H2 & H3 & H4 & H5)]; [by left|right].
  exists rs. split_and!; [done..|]. intros x Hx Ha.
  destruct (H5 x Hx Ha) as [Hy|Hin]; [left; by eapply said_yes_mono|auto].
Qed.

Lemma read_op_num_rest response n input :
  (length (read_op_num response n input).2 <= length input)%nat /\
  (forall e, e ∈ (read_op_num response n input).2 -> e ∈ input).
Proof using Type.
  unfold read_op_num. destruct (9 <? Z.of_nat n)%Z; [|simpl; auto].
  destruct input as [|[c| |] input]; cbn [read_key_timeout]; [simpl; auto| | |].
  - destruct (_ && _); simpl; (split; [lia|intros; by right]).
  - simpl. split; [lia|intros; by right].
  - simpl. split; [lia|intros; by right].
Qed.

(** The state of the loop between two keys. *)
Definition batch_inv (calls : list ToolCall) (pending : list bool) (results : list ApprovalResult) : Prop :=
  length pending = length calls /\ length results = length calls /\
  Forall answered results /\ true ∈ pending.

Lemma filled_outcome calls pending results input r :
  batch_inv calls pending results ->
  (r = APPROVAL_DENIED \/ (r = APPROVAL_ALLOWED /\ said_yes input)) ->
  batch_outcome calls results input r (Filled (fill_pending r pending results)).
Proof using Type.
  intros (Hlp & Hlr & Hans & Hp) Hr. right. eexists. split; [done|].
  rewrite fill_pending_length. split; [done|].
  assert (answered r) as Hra by (unfold answered, approved; destruct Hr as [->|[-> _]]; auto).
  assert (r ∈ fill_pending r pending results) as Hin by (apply fill_pending_true; [lia|done]).
  split_and!.
  - apply Forall_forall. intros x [->|Hx]%fill_pending_elem; [done|].
    rewrite Forall_forall in Hans. auto.
  - destruct Hr as [->|[-> _]]; [by left|right; right]. split; [done|].
    eexists. split; [done|]. by left.
  - intros x [->|Hx]%fill_pending_elem Ha; [|by right].
    destruct Hr as [->|[-> Hy]]; [by destruct Ha|by left].
Qed.

(** One reviewed call. *)
Lemma batch_inv_review calls pending results idx r :
  batch_inv calls pending results -> answered r ->
  pending_count (<[idx := false]> pending) <> 0%nat ->
  batch_inv calls (<[idx := false]> pending) (<[idx := r]> results).
Proof using Type.
  intros (Hlp & Hlr & Hans & Hp) Hr Hpc. unfold batch_inv. rewrite !length_insert.
  split_and!; [done..| |by apply pending_count_pos].
  apply Forall_insert; [done|]. done.
Qed.

Lemma insert_result_elem (results : list ApprovalResult) idx r x :
  x ∈ <[idx := r]> results -> x = r \/ x ∈ results.
Proof using Type.
  intros H. apply list_elem_of_lookup in H as [j Hj].
  destruct (decide (idx = j)) as [->|Hne].
  - destruct (decide (j < length results)%nat).
    + rewrite list_lookup_insert_eq in Hj by done. left. congruence.
    + rewrite list_insert_ge in Hj by lia. right. apply list_elem_of_lookup. eauto.
  - rewrite list_lookup_insert_ne in Hj by done. right. apply list_elem_of_lookup. eauto.
Qed.

Lemma batch_loop_exact fuel config calls pending results input :
  (length input < fuel)%nat -> batch_inv calls pending results ->
  exists config' r b rest, batch_loop fuel config calls pending results input = Some (config', r, b, rest) /\
    batch_outcome calls results input r b.
Proof using Type.
  revert config pending results input.
  induction fuel as [|fuel IH]; intros config pending results input Hf Hinv; [lia|].
  cbn [batch_loop]. destruct (read_key_cases input) as (ps & Hps & Hcase).
  destruct Hcase as [[-> E]|[(rest & -> & E)|(c & rest & -> & E)]]; rewrite E;
    [eexists _, _, _, _; split; [done|]; by left..|].
  rewrite byte_of_nonneg, lower_code_byte, !code_eqb, code_3_4.
  rewrite length_app in Hf. simpl in Hf. set (whole := ps ++ Key c :: rest).
  assert (forall e, e ∈ rest -> e ∈ whole) as Hsub by (unfold whole; set_solver).
  assert (Key c ∈ whole) as Hin by (unfold whole; set_solver).
  (* going on with a later part of the input *)
  assert (forall config1 pending1 results1 l, (length l <= length rest)%nat ->
    (forall e, e ∈ l -> e ∈ rest) -> batch_inv calls pending1 results1 ->
    (forall x, x ∈ results1 -> approved x -> said_yes whole \/ x ∈ results) ->
    exists config' r b rest', batch_loop fuel config1 calls pending1 results1 l = Some (config', r, b, rest') /\
      batch_outcome calls results whole r b) as Hgo.
  { intros config1 pending1 results1 l Hl Hs Hi Hx.
    destruct (IH config1 pending1 results1 l) as (config' & r & b & rest' & H & Ho); [lia|done|].
    exists config', r, b, rest'. split; [done|]. eapply batch_outcome_later; [|done|done]. auto. }
  destruct (Ascii.eqb_spec (tolower c) "y") as [Ey|Ey].
  { eexists _, _, _, _. split; [done|]. apply filled_outcome; [done|].
    right. split; [done|]. exists c. auto. }
  destruct (Ascii.eqb_spec (tolower c) "n") as [En|En].
  { eexists _, _, _, _. split; [done|]. apply filled_outcome; [done|]. by left. }
  destruct (_ && _).
  - destruct (read_op_num_rest (byte_of c) (length calls) rest) as [Hol Hos].
    destruct (read_op_num (byte_of c) (length calls) rest) as [op input1]. simpl in Hol, Hos.
    destruct (_ || _); [by apply Hgo; auto|].
    destruct (pending !! _) as [[]|]; [|by apply Hgo; auto..].
    destruct (calls !! _) as [call|]; [|by apply Hgo; auto].
    destruct (approval_gate_prompt_exact config call input1) as (config1 & r1 & rest1 & -> & Ho1).
    apply prompt_outcome_facts in Ho1 as (Hl1 & Hs1 & Hy1 & Hr1).
    destruct (decide (r1 = APPROVAL_ABORTED)) as [->|Hna].
    { eexists _, _, _, _. split; [done|]. by left. }
    destruct Hr1 as [?|Hr1]; [done|]. set (idx := Z.to_nat (op - 1)).
    assert (forall x, x ∈ <[idx := r1]> results -> approved x -> said_yes whole \/ x ∈ results) as Hx.
    { intros x [->|Hx]%insert_result_elem Ha; [left|by right].
      eapply said_yes_mono; [|by apply Hy1]. auto. }
    destruct (Nat.eqb_spec (pending_count (<[idx := false]> pending)) 0) as [Hz|Hz].
    + eexists _, _, _, _. split; [done|]. right. eexists. split; [done|].
      destruct Hinv as (Hlp & Hlr & Hans & Hp). rewrite length_insert.
      assert (Forall answered (<[idx := r1]> results)) as Hall by (apply Forall_insert; done).
      split_and!; [done..| |done]. apply reviewed_status; [|done].
      intros Hnil. apply (f_equal length) in Hnil. rewrite length_insert in Hnil.
      destruct pending; [by apply elem_of_nil in Hp|]. simpl in *. lia.
    + apply Hgo; [lia|auto| |done]. by apply batch_inv_review.
  - destruct (_ || _); [eexists _, _, _, _; split; [done|]; by left|]. by apply Hgo; auto.
Qed.

Lemma batch_inv_init (calls : list ToolCall) :
  calls <> [] -> batch_inv calls (repeat true (length calls)) (repeat APPROVAL_DENIED (length calls)).
Proof using Type.
  intros Hne. unfold batch_inv. rewrite !repeat_length. split_and!; [done..| |].
  - apply Forall_forall. intros x Hx%list_elem_of_In%repeat_spec. by left.
  - destruct calls; [done|]. left.
Qed.
End PromptFacts.

(** Where an approval can come from. *)
Lemma check_approval_gate_consent {R : Regex} {J : CJson} cb env (config : ApprovalGateConfig R) tc input :
  exists config' r rest,
    check_approval_gate cb env config tc input = Some (config', r, rest) /\
    (lets_through r ->
     is_rate_limited (pe_now env) config tc = false /\
     (approval_gate_requires_check cb (pe_SHELL env) config tc = 0%Z \/
      approval_gate_requires_check cb (pe_SHELL env) config tc = 1%Z /\
      ((exists ask, pe_channel env = Some ask /\ r = ask tc) \/
       (pe_channel env = None /\ is_interactive config = true /\ pe_tty env = true /\ said_yes input)))).
Proof.
  unfold lets_through, approved, check_approval_gate. destruct (is_rate_limited _ _ _).
  { eexists _, _, _. split; [done|]. naive_solver. }
  destruct (Z.eqb_spec (approval_gate_requires_check cb (pe_SHELL env) config tc) 0).
  { eexists _, _, _. split; [done|]. auto. }
  destruct (_ =? -1)%Z; [eexists _, _, _; split; [done|]; naive_solver|].
  destruct (Z.eqb_spec (approval_gate_requires_check cb (pe_SHELL env) config tc) 1);
    [|eexists _, _, _; split; [done|]; naive_solver].
  destruct (pe_channel env) as [ask|].
  { eexists _, _, _. split; [done|]. intros _. split; [done|]. right. split; [done|]. left. eauto. }
  destruct (is_interactive config) eqn:Ei; cbn [negb];
    [|eexists _, _, _; split; [done|]; naive_solver].
  destruct (pe_tty env) eqn:Et; [|eexists _, _, _; split; [done|]; naive_solver].
  destruct (approval_gate_prompt_exact config tc input) as (config' & r & rest & -> & Ho).
  apply prompt_outcome_facts in Ho as (_ & _ & Hy & Ha). eexists _, _, _. split; [done|].
  intros Hr. split; [done|]. right. split; [done|]. right. split_and!; try done. apply Hy.
  unfold answered, approved in *. naive_solver.
Qed.

(** ** Properties *)

(** The prompt always ends, with the fuel of one iteration per event, and
    the first decisive event decides: y allows, a allows always (both reset
    the denial counter of the tool), n denies, Ctrl-C, Ctrl-D, an interrupt or
    the end of the input abort; everything before it (other keys, pauses, a
    question mark with the key that dismisses the details) is skipped, and
    nothing after it is consumed. *)
Theorem prompt_first_decisive_key {R : Regex} (config : ApprovalGateConfig R) tc input :
  exists config' r rest,
    approval_gate_prompt true config tc input = Some (config', r, rest) /\
    prompt_outcome config tc input config' r rest.
Proof. apply approval_gate_prompt_exact. Qed.

(** The batch prompt always ends. Aborted, it leaves no results; otherwise
    it leaves one answer per call, a call is approved only if the user pressed
    y or a, a denied batch has a denied call, an always-approved batch is
    approved always call by call, and an approved batch has an approved call. *)
Theorem batch_prompt_sound {R : Regex} (config : ApprovalGateConfig R) calls input :
  calls <> [] ->
  exists config' r b rest,
    approval_gate_prompt_batch true true config calls input = Some (config', r, b, rest) /\
    ((r = APPROVAL_ABORTED /\ b = Freed) \/
     exists rs, b = Filled rs /\ length rs = length calls /\ Forall answered rs /\
       batch_status r rs /\ (forall x, x ∈ rs -> approved x -> said_yes input)).
Proof.
  intros Hne.
  destruct (batch_loop_exact (prompt_fuel input) config calls (repeat true (length calls))
    (repeat APPROVAL_DENIED (length calls)) input) as (config' & r & b & rest & H & Ho);
    [unfold prompt_fuel; lia|by apply batch_inv_init|].
  exists config', r, b, rest. split; [destruct calls; [done|exact H]|].
  destruct Ho as [Ho|(rs & H1 & H2 & H3 & H4 & H5)]; [by left|right].
  exists rs. split_and!; [done..|]. intros x Hx Ha.
  destruct (H5 x Hx Ha) as [Hy|Hin]; [done|].
  apply list_elem_of_In, repeat_spec in Hin as ->. by destruct Ha.
Qed.

Definition two_calls : list ToolCall :=
  [mkToolCall (cs "1") (Some (cs "shell")) None; mkToolCall (cs "2") (Some (cs "web_fetch")) None].

Definition prompt_config : ApprovalGateConfig RefRegex :=
  mkConfig true true DEFAULT_CATEGORY_ACTIONS [] 16 0 [] 16 0 (Some rate_limiter_create).

Lemma batch_prompt_sound_witness :
  exists config' r b rest,
    approval_gate_prompt_batch true true prompt_config two_calls [Key "2"; Key "y"; Key "x"; Key "N"] =
      Some (config', r, b, rest) /\ r <> APPROVAL_ABORTED.
Proof.
  destruct (batch_prompt_sound prompt_config two_calls [Key "2"; Key "y"; Key "x"; Key "N"])
    as (config' & r & b & rest & H & _); [discriminate|].
  exists config', r, b, rest. split; [exact H|]. vm_compute in H. injection H as _ <- _ _. discriminate.
Defined.

(** Reviewing the first of two to nine calls with n and then allowing the
    rest with y ends the batch as allowed although its first call is denied. *)
Theorem batch_mixed_reported_allowed {R : Regex} (config : ApprovalGateConfig R) tc1 tc2 calls rest :
  (length calls <= 7)%nat ->
  exists config',
    approval_gate_prompt_batch true true config (tc1 :: tc2 :: calls)
      (Key "1" :: Key "n" :: Key "y" :: rest) =
    Some (config', APPROVAL_ALLOWED,
          Filled (APPROVAL_DENIED :: repeat APPROVAL_ALLOWED (S (length calls))), rest).
Proof.
  intros Hl. unfold approval_gate_prompt_batch, init_batch_result, prompt_fuel.
  set (calls2 := tc1 :: tc2 :: calls). change (length calls2 =? 0)%nat with false.
  cbn [negb length]. cbn [batch_loop read_key].
  rewrite byte_of_nonneg, lower_code_byte, !code_eqb. change (tolower "1") with "1".
  change ((code "1" <=? byte_of "1")%Z && (byte_of "1" <=? code "9")%Z) with true.
  change (Ascii.eqb "1" "y") with false. change (Ascii.eqb "1" "n") with false.
  cbn iota. unfold read_op_num.
  assert ((9 <? Z.of_nat (length calls2))%Z = false) as -> by (apply Z.ltb_ge; simpl; lia).
  change (byte_of "1" - code "0")%Z with 1%Z.
  assert ((1 <? 1)%Z || (Z.of_nat (length calls2) <? 1)%Z = false) as ->
    by (apply orb_false_iff; split; apply Z.ltb_ge; simpl; lia).
  change (Z.to_nat (1 - 1)) with 0%nat. change (length calls2) with (S (S (length calls))).
  cbn [repeat]. change (calls2 !! 0%nat) with (Some tc1).
  change ((true :: true :: repeat true (length calls)) !! 0%nat) with (Some true). cbn iota.
  change (approval_gate_prompt true config tc1 (Key "n" :: Key "y" :: rest))
    with (Some (config, APPROVAL_DENIED, Key "y" :: rest)). cbn iota.
  rewrite decide_False by done.
  match goal with |- context [(pending_count ?p =? 0)%nat] =>
    change (pending_count p) with (S (pending_count (repeat true (length calls)))) end.
  cbn [Nat.eqb read_key]. rewrite byte_of_nonneg, lower_code_byte, code_eqb.
  change (Ascii.eqb (tolower "y") "y") with true. cbn iota.
  assert (forall n, fill_pending APPROVAL_ALLOWED (repeat true n) (repeat APPROVAL_DENIED n) =
                    repeat APPROVAL_ALLOWED n) as Hfill.
  { induction n as [|n IH]; [done|]. cbn. by rewrite IH. }
  eexists. cbn [fill_pending insert list_insert]. by rewrite Hfill.
Qed.

Lemma batch_mixed_reported_allowed_witness :
  exists config',
    approval_gate_prompt_batch true true prompt_config two_calls [Key "1"; Key "n"; Key "y"] =
    Some (config', APPROVAL_ALLOWED, Filled [APPROVAL_DENIED; APPROVAL_ALLOWED], []).
Proof.
  apply (batch_mixed_reported_allowed prompt_config _ _ []). simpl. lia.
Defined.

(** When two or more calls of a batch need approval and the user
    interrupts the batch prompt, or the prompt cannot be opened, the combined
    batch check reads its results through a freed or uninitialised buffer. *)
Theorem batch_abort_undefined {R : Regex} {J : CJson} cb env (config : ApprovalGateConfig R)
    calls results i j idxs any_rl any_den input :
  triage cb env config 0 calls = (results, i :: j :: idxs, any_rl, any_den) ->
  (i < length calls)%nat -> (j < length calls)%nat -> is_interactive config = true ->
  (pe_tty env = false \/ exists rest, input = Interrupt :: rest) ->
  check_approval_gate_batch cb env true config calls input = Some BatchUndefined.
Proof.
  intros Ht Hi Hj Hint Habort. unfold check_approval_gate_batch, init_batch_result.
  destruct (Nat.eqb_spec (length calls) 0) as [|_]; [lia|]. cbn [negb]. rewrite Ht, Hint. cbn [negb].
  apply lookup_lt_is_Some in Hi as [ci Hci]. cbn [omap list_omap]. csimpl. rewrite Hci.
  unfold approval_gate_prompt_batch, init_batch_result, prompt_fuel.
  destruct (pe_tty env); cbn [negb]; [|done].
  destruct Habort as [?|[rest ->]]; [done|]. done.
Qed.

Lemma batch_abort_undefined_witness :
  check_approval_gate_batch no_callbacks (mkPromptEnv 0 None true None) true prompt_config two_calls
    [Interrupt] = Some BatchUndefined.
Proof.
  eapply (batch_abort_undefined no_callbacks (mkPromptEnv 0 None true None) prompt_config two_calls);
    [vm_compute; reflexivity|simpl; lia|simpl; lia|reflexivity|right; by exists []].
Defined.
