(* ===== verification/ToolOrchestration.v ===== *)
(** * Tool orchestration (lib/agent/tool_orchestration.c)

    What every tool call passes through before it runs: the protected-file
    check, the approval gate, the "always allow" rule (with the pattern
    functions of lib/policy/pattern_generator.c that need the gate), duplicate
    detection and the limit of one subagent per batch. *)

From S2P Require Import Prelude CString Regex Darray RateLimiter ShellBase ShellLex ShellParser PathNormalize ProtectedFiles PatternGenerator Json ToolArgs ApprovalGate GateDecision GateTheorems ApprovalPrompt.
Local Open Scope char_scope.
Local Open Scope bool_scope.

(** ** Patterns for tool calls *)

Section Patterns.
Context {R : Regex} {J : CJson} (cb : ApprovalGateCallbacks).

Definition generate_allowlist_pattern (env_SHELL : option cstr) (tool_call : ToolCall)
    : GeneratedPattern * Z :=
  match tc_name tool_call with
  | None => (empty_pattern, (-1)%Z)
  | Some _ =>
      match get_tool_category cb (tc_name tool_call) with
      | GATE_CATEGORY_SHELL =>
          match tool_args_get_command tool_call with
          | None => (empty_pattern, (-1)%Z)
          | Some command => generate_shell_command_pattern env_SHELL command
          end
      | GATE_CATEGORY_NETWORK =>
          match tool_args_get_url tool_call with
          | None => (empty_pattern, (-1)%Z)
          | Some url => generate_network_url_pattern url
          end
      | GATE_CATEGORY_FILE_WRITE | GATE_CATEGORY_FILE_READ =>
          match tool_args_get_path tool_call with
          | None => (empty_pattern, (-1)%Z)
          | Some path => generate_file_path_pattern path
          end
      | _ =>
          (exact_pattern (match tc_arguments tool_call with
                          | Some arguments => Some (anchored arguments)
                          | None => None
                          end) [], 0%Z)
      end
  end.

Definition apply_generated_pattern (ga : GateAlloc) (config : ApprovalGateConfig R)
    (tool_name : cstr) (p : GeneratedPattern) : ApprovalGateConfig R * Z :=
  match command_prefix p with
  | _ :: _ => approval_gate_add_shell_allowlist ga config (command_prefix p) SHELL_TYPE_UNKNOWN
  | [] => match pattern p with
          | Some pat => approval_gate_add_allowlist ga config tool_name pat
          | None => (config, (-1)%Z)
          end
  end.
End Patterns.

(** ** The context *)

Definition is_file_write_tool (tool_name : option cstr) : bool :=
  match tool_name with
  | None => false
  | Some name => streq name (cs "write_file") || streq name (cs "apply_patch")
  end.

Definition is_file_tool (tool_name : option cstr) : bool :=
  match tool_name with
  | None => false
  | Some name => streq name (cs "write_file") || streq name (cs "apply_patch") ||
                 streq name (cs "read_file")
  end.

(** The error a refused call reports; the texts are those of approval_errors.c. *)
Inductive ToolError :=
| ErrProtectedFile (path : cstr)
| ErrVerify (path : cstr)
| ErrDenied
| ErrRateLimited (remaining : Z)
| ErrNonInteractive.

Section Orchestration.
Context {R : Regex} {J : CJson} {F : Fnmatch} (cb : ApprovalGateCallbacks).

Record ToolOrchestrationContext := mkOrch {
  gate_config : option (ApprovalGateConfig R);
  executed_tracker : darray cstr;
  subagent_spawned : bool
}.

Definition tool_orchestration_init (alloc_ok : bool) (config : option (ApprovalGateConfig R))
    : option ToolOrchestrationContext :=
  tracker ← da_init alloc_ok; Some (mkOrch config tracker false).

Definition tool_orchestration_cleanup (ctx : ToolOrchestrationContext) : ToolOrchestrationContext :=
  mkOrch None da_destroy false.

Definition with_gate (config : ApprovalGateConfig R) (ctx : ToolOrchestrationContext)
    : ToolOrchestrationContext :=
  mkOrch (Some config) (executed_tracker ctx) (subagent_spawned ctx).

(** Everything around the context: the file system as protected_files sees
    it and its module state, the prompt, the terminal input, the allocator,
    and the verification of an approved path. *)
Record World := mkWorld {
  w_sys : SysEnv;
  w_protected : ProtectedState;
  w_prompt : PromptEnv;
  w_input : list KeyEvent;
  w_alloc : GateAlloc;
  w_limiter_ok : bool;
  w_verify : cstr -> bool
}.

Definition set_protected (st : ProtectedState) (w : World) : World :=
  mkWorld (w_sys w) st (w_prompt w) (w_input w) (w_alloc w) (w_limiter_ok w) (w_verify w).
Definition set_input (i : list KeyEvent) (w : World) : World :=
  mkWorld (w_sys w) (w_protected w) (w_prompt w) i (w_alloc w) (w_limiter_ok w) (w_verify w).

(** The approved path: check_approval_gate, the prompt and the channel all
    reset it and none of them fills it in. *)
Definition approved_path : option cstr := None.

(** The return code, the context and the world afterwards, and the error of
    a refused call. *)
Definition check_answer : Type := Z * ToolOrchestrationContext * World * option ToolError.

(** The cases ALLOWED_ALWAYS and ALLOWED, after the pattern was added. *)
Definition accept (tool_call : ToolCall) (out_path : bool) (ctx : ToolOrchestrationContext)
    (w : World) : check_answer :=
  match approved_path with
  | Some resolved =>
      if is_file_tool (tc_name tool_call) then
        if out_path then (0%Z, ctx, w, None)
        else if w_verify w resolved then (0%Z, ctx, w, None)
        else ((-1)%Z, ctx, w, Some (ErrVerify resolved))
      else (0%Z, ctx, w, None)
  | None => (0%Z, ctx, w, None)
  end.

(** [None]: the prompt ran out of fuel. *)
Definition gate_tool_call (config : ApprovalGateConfig R) (tool_call : ToolCall) (out_path : bool)
    (ctx : ToolOrchestrationContext) (w : World) : option check_answer :=
  match check_approval_gate cb (w_prompt w) config tool_call (w_input w) with
  | None => None
  | Some (config, approval, input) =>
      let w := set_input input w in
      let ctx := with_gate config ctx in
      Some match approval with
      | APPROVAL_ALLOWED_ALWAYS =>
          let '(gen_pattern, rc) := generate_allowlist_pattern cb (pe_SHELL (w_prompt w)) tool_call in
          let config :=
            match tc_name tool_call with
            | Some name => if (rc =? 0)%Z
                           then (apply_generated_pattern (w_alloc w) config name gen_pattern).1
                           else config
            | None => config
            end in
          accept tool_call out_path (with_gate config ctx) w
      | APPROVAL_ALLOWED => accept tool_call out_path ctx w
      | APPROVAL_DENIED =>
          let config := track_denial (w_limiter_ok w) (w_limiter_ok w) (pe_now (w_prompt w))
                          config tool_call in
          ((-1)%Z, with_gate config ctx, w, Some ErrDenied)
      | APPROVAL_RATE_LIMITED =>
          ((-1)%Z, ctx, w,
           Some (ErrRateLimited (get_rate_limit_remaining (pe_now (w_prompt w)) config (tc_name tool_call))))
      | APPROVAL_NON_INTERACTIVE_DENIED => ((-1)%Z, ctx, w, Some ErrNonInteractive)
      | APPROVAL_ABORTED => ((-2)%Z, ctx, w, None)
      | APPROVAL_OTHER _ => (0%Z, ctx, w, None)
      end
  end.

Definition tool_orchestration_check_approval (ctx : ToolOrchestrationContext) (tool_call : ToolCall)
    (out_path : bool) (w : World) : option check_answer :=
  let '(w, blocked) :=
    if is_file_write_tool (tc_name tool_call) then
      match tool_args_get_path tool_call with
      | Some path =>
          let '(st, protected) := is_protected_file (w_sys w) true path (w_protected w) in
          (set_protected st w, if protected then Some path else None)
      | None => (w, None)
      end
    else (w, None) in
  match blocked with
  | Some path => Some ((-1)%Z, ctx, w, Some (ErrProtectedFile path))
  | None =>
      match gate_config ctx with
      | None => Some (0%Z, ctx, w, None)
      | Some config =>
          if negb (enabled config) then Some (0%Z, ctx, w, None)
          else gate_tool_call config tool_call out_path ctx w
      end
  end.

(** ** Duplicates and subagents *)

Definition tool_orchestration_is_duplicate (ctx : ToolOrchestrationContext)
    (tool_call_id : option cstr) : bool :=
  match tool_call_id with
  | None => false
  | Some id => existsb (fun x => streq x id) (data (executed_tracker ctx))
  end.

Definition tool_orchestration_mark_executed (dup_ok grow_ok : bool) (ctx : ToolOrchestrationContext)
    (tool_call_id : option cstr) : ToolOrchestrationContext * Z :=
  match tool_call_id with
  | None => (ctx, (-1)%Z)
  | Some id =>
      if negb dup_ok then (ctx, (-1)%Z)
      else
        let '(arr, rc) := da_push grow_ok (executed_tracker ctx) id in
        if negb (rc =? 0)%Z then (ctx, (-1)%Z)
        else (mkOrch (gate_config ctx) arr (subagent_spawned ctx), 0%Z)
  end.

Definition tool_orchestration_can_spawn_subagent (ctx : ToolOrchestrationContext)
    (tool_name : option cstr) : ToolOrchestrationContext * bool :=
  match tool_name with
  | None => (ctx, true)
  | Some name =>
      if negb (streq name (cs "subagent")) then (ctx, true)
      else if subagent_spawned ctx then (ctx, false)
      else (mkOrch (gate_config ctx) (executed_tracker ctx) true, true)
  end.

Definition tool_orchestration_reset_batch (ctx : ToolOrchestrationContext) : ToolOrchestrationContext :=
  mkOrch (gate_config ctx) (executed_tracker ctx) false.
End Orchestration.
Arguments ToolOrchestrationContext R : clear implicits.

(** ** Lemmas *)

Section OrchFacts.
Context {R : Regex} {J : CJson} {F : Fnmatch} (cb : ApprovalGateCallbacks).
Implicit Types (ctx : ToolOrchestrationContext R) (config : ApprovalGateConfig R) (tc : ToolCall) (w : World).

(** The protected-file stage: the world after it and the path it blocks. *)
Definition protected_stage tc w : World * option cstr :=
  if is_file_write_tool (tc_name tc) then
    match tool_args_get_path tc with
    | Some path =>
        let '(st, protected) := is_protected_file (w_sys w) true path (w_protected w) in
        (set_protected st w, if protected then Some path else None)
    | None => (w, None)
    end
  else (w, None).

Lemma check_approval_unfold ctx tc out_path w :
  tool_orchestration_check_approval cb ctx tc out_path w =
  match protected_stage tc w with
  | (w', Some path) => Some ((-1)%Z, ctx, w', Some (ErrProtectedFile path))
  | (w', None) =>
      match gate_config ctx with
      | None => Some (0%Z, ctx, w', None)
      | Some config => if negb (enabled config) then Some (0%Z, ctx, w', None)
                       else gate_tool_call cb config tc out_path ctx w'
      end
  end.
Proof using Type.
  unfold tool_orchestration_check_approval. fold (protected_stage tc w).
  by destruct (protected_stage tc w) as [w' [path|]].
Qed.

Lemma protected_stage_frame tc w :
  w_input (protected_stage tc w).1 = w_input w /\ w_prompt (protected_stage tc w).1 = w_prompt w.
Proof using Type.
  unfold protected_stage. destruct (is_file_write_tool _); [|done].
  destruct (tool_args_get_path tc); [|done]. by destruct (is_protected_file _ _ _ _).
Qed.

Lemma shell_not_write tc : tc_name tc = Some (cs "shell") -> is_file_write_tool (tc_name tc) = false.
Proof using Type. intros ->. reflexivity. Qed.

Lemma accept_code tc out_path ctx w : accept tc out_path ctx w = (0%Z, ctx, w, None).
Proof using Type. reflexivity. Qed.

(** The gate stage answers 0 only for an approval. *)
Lemma gate_tool_call_approved config tc out_path ctx w :
  exists config' r input', check_approval_gate cb (w_prompt w) config tc (w_input w) = Some (config', r, input') /\
    exists code ctx' w' err, gate_tool_call cb config tc out_path ctx w = Some (code, ctx', w', err) /\
      (code = 0%Z -> lets_through r) /\ (code = 0%Z \/ code = (-1)%Z \/ code = (-2)%Z) /\
      (err = None -> code <> (-1)%Z).
Proof using Type.
  destruct (check_approval_gate_consent cb (w_prompt w) config tc (w_input w))
    as (config' & r & input' & E & _).
  exists config', r, input'. split; [done|]. unfold gate_tool_call. rewrite E.
  destruct r; try (eexists _, _, _, _; split; [done|]; unfold lets_through, approved; naive_solver).
  destruct (generate_allowlist_pattern _ _ _) as [gp rc]. rewrite accept_code.
  eexists _, _, _, _. split; [done|]. unfold lets_through, approved. naive_solver.
Qed.

(** ** Always *)

Lemma reset_tracker_unlimited now config tc :
  (0 <= now)%Z -> is_rate_limited now (reset_denial_tracker config (tc_name tc)) tc = false.
Proof using Type.
  intros Hnow. unfold is_rate_limited, reset_denial_tracker.
  destruct (tc_name tc) as [name|]; [|done]. destruct (rate_limiter config) as [rl|] eqn:Er; [|by rewrite Er].
  simpl. unfold rate_limiter_is_blocked. autorewrite with scaffold.
  destruct (lookup_entry rl name); simpl; [|done]. apply Z.ltb_ge. lia.
Qed.

Lemma add_shell_frame ga config prefix ty :
  same_frame config (approval_gate_add_shell_allowlist ga config prefix ty).1.
Proof using Type.
  destruct (gate_add1_extends config (AddPrefix ga prefix ty)) as [H _]. exact H.
Qed.

(** The prefix generated for a safe command covers that command. *)
Lemma shell_pattern_covers sh cmd p t toks :
  parse_shell_command sh cmd = Some p -> shell_command_is_safe_for_matching p = true ->
  tokens p = t :: toks ->
  exists gp first more, generate_shell_command_pattern sh cmd = (gp, 0%Z) /\
    command_prefix gp = first :: more /\ (length (first :: more) <= 2)%nat /\
    shell_allows (shell_type p) (tokens p) (mkShellAllowEntry (first :: more) SHELL_TYPE_UNKNOWN).
Proof using Type.
  intros Hp Hs Ht. unfold generate_shell_command_pattern. rewrite Hp, Hs, Ht. cbn [negb].
  unfold shell_allows. simpl sa_prefix. simpl sa_shell_type.
  destruct toks as [|t2 toks]; [|destruct toks as [|t3 toks]]; cbn.
  - exists (exact_pattern None [t]), t, []. split; [done|]. split; [done|]. split; [simpl; lia|].
    exists t, []. split; [done|]. right. split; [done|]. exists t, [].
    split; [done|apply commands_equivalent_refl].
  - exists (exact_pattern None [t; t2]), t, [t2]. split; [done|]. split; [done|]. split; [simpl; lia|].
    exists t, [t2]. split; [done|]. right. split; [done|]. exists t, [].
    split; [done|apply commands_equivalent_refl].
  - eexists _, t, [t2]. split; [done|]. split; [done|]. split; [simpl; lia|].
    exists t, [t2]. split; [done|]. right. split; [done|]. exists t, (t3 :: toks).
    split; [done|apply commands_equivalent_refl].
Qed.

(** Adding that prefix makes the gate let the command through. *)
Lemma shell_always_matches ga config tc cmd sh p t toks :
  ga_dup ga = (fun _ => true) -> ga_realloc ga = (fun _ => true) ->
  tool_args_get_command tc = Some cmd -> parse_shell_command sh cmd = Some p ->
  shell_command_is_safe_for_matching p = true -> tokens p = t :: toks ->
  let gp := (generate_shell_command_pattern sh cmd).1 in
  match_shell_command_allowlist sh (apply_generated_pattern ga config (cs "shell") gp).1 tc = true /\
  same_frame config (apply_generated_pattern ga config (cs "shell") gp).1.
Proof using Type.
  intros Hd Hr Hcmd Hp Hs Ht.
  destruct (shell_pattern_covers sh cmd p t toks Hp Hs Ht) as (gp & first & more & -> & Hpre & _ & Ha).
  simpl. unfold apply_generated_pattern. rewrite Hpre. split; [|apply add_shell_frame].
  apply match_shell_command_true. exists cmd, p. split_and!; [done..| |].
  { by rewrite <- (parse_for_type_safe _ _ _ Hp). }
  exists (mkShellAllowEntry (first :: more) SHELL_TYPE_UNKNOWN). split; [|done].
  unfold approval_gate_add_shell_allowlist, grown_capacity. rewrite Hd, Hr.
  destruct (_ <=? _)%Z; simpl; apply elem_of_app; right; left.
Qed.

(** ** Denials *)

(** A prompt answered with n. *)
Lemma deny_step ctx config tc out_path w rest :
  is_file_write_tool (tc_name tc) = false -> gate_config ctx = Some config -> enabled config = true ->
  is_rate_limited (pe_now (w_prompt w)) config tc = false ->
  approval_gate_requires_check cb (pe_SHELL (w_prompt w)) config tc = 1%Z ->
  pe_channel (w_prompt w) = None -> is_interactive config = true -> pe_tty (w_prompt w) = true ->
  w_input w = Key "n" :: rest ->
  tool_orchestration_check_approval cb ctx tc out_path w =
  Some ((-1)%Z,
        with_gate (track_denial (w_limiter_ok w) (w_limiter_ok w) (pe_now (w_prompt w)) config tc) ctx,
        set_input rest w, Some ErrDenied).
Proof using Type.
  intros Hw Hg He Hl Hc Hch Hi Ht Hin. rewrite check_approval_unfold.
  unfold protected_stage. rewrite Hw, Hg, He. cbn [negb]. unfold gate_tool_call, check_approval_gate.
  rewrite Hl, Hc. cbn [Z.eqb]. rewrite Hch, Hi, Ht, Hin. reflexivity.
Qed.
End OrchFacts.

(** ** Sample worlds, for the witnesses *)

Definition sample_world (input : list KeyEvent) : World :=
  mkWorld sample_env protected_initial (mkPromptEnv 100 None true None) input memory_available true (fun _ => true).

Definition open_context : ToolOrchestrationContext RefRegex :=
  mkOrch (Some (approval_gate_enable_yolo sample_config)) (mkDarray [] 8) false.

Definition gated_context : ToolOrchestrationContext RefRegex :=
  mkOrch (Some sample_config) (mkDarray [] 8) false.

(** Where the admission of a call comes from; also used for batches. *)
Lemma check_approval_consent {R : Regex} {J : CJson} {F : Fnmatch} {FS : FnmatchSpec F} cb
    (ctx : ToolOrchestrationContext R) tc out_path w :
  exists code ctx' w' err,
    tool_orchestration_check_approval cb ctx tc out_path w = Some (code, ctx', w', err) /\
    (code = 0%Z \/ code = (-1)%Z \/ code = (-2)%Z) /\
    (code = 0%Z ->
     (is_file_write_tool (tc_name tc) = true ->
      forall path, tool_args_get_path tc = Some path -> ~ protected_name (components path)) /\
     (gate_config ctx = None \/ exists config, gate_config ctx = Some config /\
       (enabled config = false \/
        is_rate_limited (pe_now (w_prompt w)) config tc = false /\
        (approval_gate_requires_check cb (pe_SHELL (w_prompt w)) config tc = 0%Z \/
         approval_gate_requires_check cb (pe_SHELL (w_prompt w)) config tc = 1%Z /\
         ((exists ask, pe_channel (w_prompt w) = Some ask /\ lets_through (ask tc)) \/
          (pe_channel (w_prompt w) = None /\ is_interactive config = true /\
           pe_tty (w_prompt w) = true /\ said_yes (w_input w))))))).
Proof.
  rewrite check_approval_unfold. destruct (protected_stage_frame tc w) as [Hin Hpr].
  destruct (protected_stage tc w) as [w1 [path|]] eqn:Es; simpl in Hin, Hpr.
  { eexists _, _, _, _. split; [done|]. split; [auto|]. lia. }
  assert (is_file_write_tool (tc_name tc) = true ->
    forall path, tool_args_get_path tc = Some path -> ~ protected_name (components path)) as Hnp.
  { intros Hw path Hp Hn. unfold protected_stage in Es. rewrite Hw, Hp in Es.
    rewrite (surjective_pairing (is_protected_file _ _ _ _)) in Es.
    assert ((is_protected_file (w_sys w) true path (w_protected w)).2 = true) as Ht; [|by rewrite Ht in Es].
    by apply protected_path_refused. }
  destruct (gate_config ctx) as [config|] eqn:Eg; [|eexists _, _, _, _; split; [done|]; eauto].
  destruct (enabled config) eqn:Een; cbn [negb]; [|eexists _, _, _, _; split; [done|]; eauto 10].
  destruct (gate_tool_call_approved cb config tc out_path ctx w1)
    as (config' & r & input' & Ec & code & ctx' & w' & err & -> & Ha & Hc & _).
  exists code, ctx', w', err. split; [done|]. split; [done|]. intros H0. split; [done|]. right.
  exists config. split; [done|]. right.
  destruct (check_approval_gate_consent cb (w_prompt w1) config tc (w_input w1))
    as (c2 & r2 & i2 & Ec2 & Hcons).
  rewrite Ec2 in Ec. injection Ec as <- <- <-. rewrite Hpr, Hin in Hcons.
  destruct (Hcons (Ha H0)) as [Hl [Hz|[H1 [(ask & Hask & ->)|Hy]]]]; [auto|..].
  - split; [done|]. right. split; [done|]. left. exists ask. split; [done|]. by apply Ha.
  - split; [done|]. right. split; [done|]. by right.
Qed.

(** A check leaves the tracker and the subagent flag alone, and only a refused
    call has an error. *)
Lemma gate_tool_call_frame {R : Regex} {J : CJson} cb (config : ApprovalGateConfig R) tc out_path
    (ctx : ToolOrchestrationContext R) w code ctx' w' err :
  gate_tool_call cb config tc out_path ctx w = Some (code, ctx', w', err) ->
  executed_tracker ctx' = executed_tracker ctx /\ subagent_spawned ctx' = subagent_spawned ctx /\
  (code <> (-1)%Z -> err = None).
Proof.
  unfold gate_tool_call. destruct (check_approval_gate _ _ _ _ _) as [[[config' r] input']|]; [|done].
  destruct r; try (intros [= <- <- _ <-]; done).
  destruct (generate_allowlist_pattern _ _ _) as [gp rc]. rewrite accept_code. by intros [= <- <- _ <-].
Qed.

Lemma check_approval_frame {R : Regex} {J : CJson} {F : Fnmatch} cb (ctx : ToolOrchestrationContext R)
    tc out_path w code ctx' w' err :
  tool_orchestration_check_approval cb ctx tc out_path w = Some (code, ctx', w', err) ->
  executed_tracker ctx' = executed_tracker ctx /\ subagent_spawned ctx' = subagent_spawned ctx /\
  (code <> (-1)%Z -> err = None).
Proof.
  rewrite check_approval_unfold. destruct (protected_stage tc w) as [w1 [path|]]; [by intros [= <- <- _ <-]|].
  destruct (gate_config ctx) as [config|]; [|by intros [= <- <- _ <-]].
  destruct (enabled config); cbn [negb]; [apply gate_tool_call_frame|by intros [= <- <- _ <-]].
Qed.

(** Refused calls carry an error. *)
Lemma check_approval_error {R : Regex} {J : CJson} {F : Fnmatch} cb (ctx : ToolOrchestrationContext R)
    tc out_path w ctx' w' err :
  tool_orchestration_check_approval cb ctx tc out_path w = Some ((-1)%Z, ctx', w', err) -> is_Some err.
Proof.
  rewrite check_approval_unfold. destruct (protected_stage tc w) as [w1 [path|]]; [by intros [= _ _ <-]|].
  destruct (gate_config ctx) as [config|]; [|done].
  destruct (enabled config); cbn [negb]; [|done]. intros E.
  destruct (gate_tool_call_approved cb config tc out_path ctx w1)
    as (_ & _ & _ & _ & code & c' & w2 & err' & E' & _ & _ & Hn).
  rewrite E in E'. injection E' as <- <- <- <-. destruct err; [by eexists|]. by destruct (Hn eq_refl).
Qed.

(** ** Properties *)

(** C1: every tool call gets an answer, and it is let through only if it does
    not write to a path with a protected name and either gating is absent or
    switched off, or the tool is not rate limited and the gate's policy allows
    the call, the parent process approved it (or sent a value outside the
    enumeration, which counts as an approval), or the user approved it at the
    terminal. *)
Theorem tool_call_passes_only_if {R : Regex} {J : CJson} {F : Fnmatch} {FS : FnmatchSpec F} cb
    (ctx : ToolOrchestrationContext R) tc out_path w :
  exists code ctx' w' err,
    tool_orchestration_check_approval cb ctx tc out_path w = Some (code, ctx', w', err) /\
    (code = 0%Z \/ code = (-1)%Z \/ code = (-2)%Z) /\
    (code = 0%Z ->
     (is_file_write_tool (tc_name tc) = true ->
      forall path, tool_args_get_path tc = Some path -> ~ protected_name (components path)) /\
     (gate_config ctx = None \/ exists config, gate_config ctx = Some config /\
       (enabled config = false \/
        is_rate_limited (pe_now (w_prompt w)) config tc = false /\
        (approval_gate_requires_check cb (pe_SHELL (w_prompt w)) config tc = 0%Z \/
         approval_gate_requires_check cb (pe_SHELL (w_prompt w)) config tc = 1%Z /\
         ((exists ask, pe_channel (w_prompt w) = Some ask /\ lets_through (ask tc)) \/
          (pe_channel (w_prompt w) = None /\ is_interactive config = true /\
           pe_tty (w_prompt w) = true /\ said_yes (w_input w))))))).
Proof. apply check_approval_consent. Qed.

Lemma tool_call_passes_only_if_witness :
  exists ctx' w', tool_orchestration_check_approval no_callbacks gated_context (shell_call "ls -l") false
                    (sample_world []) = Some (0%Z, ctx', w', None).
Proof.
  destruct (tool_call_passes_only_if no_callbacks gated_context (shell_call "ls -l") false (sample_world []))
    as (code & ctx' & w' & err & H & _ & _).
  exists ctx', w'. rewrite H. vm_compute in H. injection H as <- _ _ <-. reflexivity.
Defined.

(** C6: a write to a protected name is refused whatever the gate says: with
    gating absent, switched off or set to allow, with any allowlist, the call
    is answered with the protected-file error and the gate is left untouched. *)
Theorem protected_write_always_blocked {R : Regex} {J : CJson} {F : Fnmatch} {FS : FnmatchSpec F} cb
    (ctx : ToolOrchestrationContext R) tc out_path w path :
  is_file_write_tool (tc_name tc) = true -> tool_args_get_path tc = Some path ->
  protected_name (components path) ->
  exists w', tool_orchestration_check_approval cb ctx tc out_path w =
             Some ((-1)%Z, ctx, w', Some (ErrProtectedFile path)) /\ w_input w' = w_input w.
Proof.
  intros Hw Hp Hn. rewrite check_approval_unfold. destruct (protected_stage_frame tc w) as [Hin _].
  unfold protected_stage in *. rewrite Hw, Hp in *.
  pose proof (protected_path_refused (w_sys w) path (w_protected w) Hn) as Ht.
  destruct (is_protected_file (w_sys w) true path (w_protected w)) as [st b]. simpl in Ht. subst b.
  eexists. split; [done|]. exact Hin.
Qed.

Lemma protected_write_always_blocked_witness :
  exists w', tool_orchestration_check_approval no_callbacks open_context
    (mkToolCall (cs "1") (Some (cs "write_file")) (Some (obj1 "path" "a/.env"))) false (sample_world []) =
    Some ((-1)%Z, open_context, w', Some (ErrProtectedFile (cs "a/.env"))) /\ w_input w' = [].
Proof.
  apply (protected_write_always_blocked no_callbacks open_context _ false (sample_world []) (cs "a/.env"));
    [reflexivity|reflexivity|].
  apply (protected_last [cs "a"] (cs ".env")). right. left. reflexivity.
Defined.

(** Answering a at the prompt for a safe shell command is remembered:
    the call passes, and every later call with the same command in the same
    shell passes without consuming any input, while the rest of the
    configuration is unchanged. *)
Theorem always_allow_is_remembered {R : Regex} {J : CJson} {F : Fnmatch} cb
    (ctx : ToolOrchestrationContext R) config tc cmd p out_path w rest :
  tc_name tc = Some (cs "shell") -> tool_args_get_command tc = Some cmd ->
  parse_shell_command (pe_SHELL (w_prompt w)) cmd = Some p ->
  shell_command_is_safe_for_matching p = true -> tokens p <> [] ->
  gate_config ctx = Some config -> enabled config = true -> is_interactive config = true ->
  is_rate_limited (pe_now (w_prompt w)) config tc = false ->
  approval_gate_requires_check cb (pe_SHELL (w_prompt w)) config tc = 1%Z ->
  pe_channel (w_prompt w) = None -> pe_tty (w_prompt w) = true -> w_alloc w = memory_available ->
  w_input w = Key "a" :: rest ->
  exists config',
    tool_orchestration_check_approval cb ctx tc out_path w =
      Some (0%Z, with_gate config' ctx, set_input rest w, None) /\
    same_frame (reset_denial_tracker config (tc_name tc)) config' /\
    forall w2, pe_SHELL (w_prompt w2) = pe_SHELL (w_prompt w) -> (0 <= pe_now (w_prompt w2))%Z ->
      tool_orchestration_check_approval cb (with_gate config' ctx) tc out_path w2 =
      Some (0%Z, with_gate config' ctx, w2, None).
Proof.
  intros Hn Hcmd Hp Hs Hne Hg He Hi Hl Hc Hch Ht Hga Hin.
  destruct (tokens p) as [|t toks] eqn:Etok; [done|].
  set (config0 := reset_denial_tracker config (tc_name tc)).
  set (config' := (apply_generated_pattern memory_available config0 (cs "shell")
                     (generate_shell_command_pattern (pe_SHELL (w_prompt w)) cmd).1).1).
  destruct (shell_always_matches memory_available config0 tc cmd _ p t toks eq_refl eq_refl Hcmd Hp Hs Etok)
    as [Hm Hframe]. fold config' in Hm, Hframe.
  destruct (shell_pattern_covers _ cmd p t toks Hp Hs Etok) as (gp & f & m & Hgp & _).
  assert (enabled config0 = enabled config /\ categories config0 = categories config) as [E1 E2].
  { unfold config0, reset_denial_tracker. destruct (tc_name tc); [|done]. by destruct (rate_limiter config). }
  assert (categories config GATE_CATEGORY_SHELL = GATE_ACTION_GATE) as Hcat.
  { revert Hc. unfold approval_gate_requires_check, approval_gate_get_category_action.
    rewrite He, Hn, shell_category. cbn [negb]. by destruct (categories config GATE_CATEGORY_SHELL). }
  destruct Hframe as (F1 & F2 & F3 & F4 & F5 & F6).
  exists config'. split; [|split; [done|]].
  - rewrite check_approval_unfold. unfold protected_stage. rewrite (shell_not_write tc Hn), Hg, He.
    cbn [negb]. unfold gate_tool_call.
    assert (check_approval_gate cb (w_prompt w) config tc (w_input w) =
            Some (config0, APPROVAL_ALLOWED_ALWAYS, rest)) as ->.
    { unfold check_approval_gate. rewrite Hl, Hc, Hch, Hi, Ht, Hin. reflexivity. }
    change (w_prompt (set_input rest w)) with (w_prompt w).
    unfold generate_allowlist_pattern. rewrite Hn, shell_category, Hcmd. unfold config'.
    rewrite Hgp. cbn [fst]. change (w_alloc (set_input rest w)) with (w_alloc w). by rewrite Hga.
  - intros w2 Hsh Hnow. rewrite check_approval_unfold. unfold protected_stage.
    rewrite (shell_not_write tc Hn). cbn [gate_config with_gate]. rewrite F1, E1, He. cbn [negb].
    unfold gate_tool_call, check_approval_gate.
    assert (is_rate_limited (pe_now (w_prompt w2)) config' tc = false) as ->.
    { unfold is_rate_limited. rewrite F6. apply (reset_tracker_unlimited _ config tc Hnow). }
    rewrite requires_check_shell; [|by rewrite F1, E1|done|by rewrite F3, E2].
    rewrite Hsh, Hm. cbn [Z.eqb]. by destruct w2.
Qed.

Lemma always_allow_is_remembered_witness :
  exists config',
    tool_orchestration_check_approval no_callbacks gated_context (shell_call "make all") false
      (sample_world [Key "a"]) =
      Some (0%Z, with_gate config' gated_context, sample_world [], None) /\
    tool_orchestration_check_approval no_callbacks (with_gate config' gated_context)
      (shell_call "make all") false (sample_world []) =
      Some (0%Z, with_gate config' gated_context, sample_world [], None).
Proof.
  destruct (always_allow_is_remembered no_callbacks gated_context sample_config (shell_call "make all")
    (cs "make all") (mkParsed [cs "make"; cs "all"] false false false false false SHELL_TYPE_POSIX)
    false (sample_world [Key "a"]) []) as (config' & H1 & _ & H2).
  1,2,4,6,7,8,11,12,13,14: reflexivity.
  1,3,4: vm_compute; reflexivity.
  - discriminate.
  - exists config'. split; [exact H1|]. apply H2; [reflexivity|vm_compute; discriminate].
Defined.

(** *** Repeated denials *)

Lemma limiter_only {R : Regex} {J : CJson} cb sh (config : ApprovalGateConfig R) rl tc :
  approval_gate_requires_check cb sh (with_rate_limiter (Some rl) config) tc =
  approval_gate_requires_check cb sh config tc.
Proof. by apply requires_check_ext. Qed.

Lemma with_gate_idem {R : Regex} (c1 c2 : ApprovalGateConfig R) ctx :
  with_gate c1 (with_gate c2 ctx) = with_gate c1 ctx.
Proof. reflexivity. Qed.

(** The prompt refuses at a terminal. *)
Definition says_no (w : World) (sh : option cstr) (now : Z) : Prop :=
  pe_SHELL (w_prompt w) = sh /\ pe_now (w_prompt w) = now /\ pe_channel (w_prompt w) = None /\
  pe_tty (w_prompt w) = true /\ w_limiter_ok w = true /\ exists rest, w_input w = Key "n" :: rest.

(** One denial, seen through the limiter. *)
Lemma denied_once {R : Regex} {J : CJson} {F : Fnmatch} cb ctx (config : ApprovalGateConfig R) rl tc name
    out_path w sh now :
  says_no w sh now -> tc_name tc = Some name -> is_file_write_tool (Some name) = false ->
  enabled config = true -> is_interactive config = true ->
  approval_gate_requires_check cb sh config tc = 1%Z ->
  rate_limiter_is_blocked rl name now = false ->
  exists w', tool_orchestration_check_approval cb (with_gate (with_rate_limiter (Some rl) config) ctx) tc out_path w =
    Some ((-1)%Z, with_gate (with_rate_limiter (Some (rate_limiter_record_denial true true rl name now)) config) ctx,
          w', Some ErrDenied).
Proof.
  intros (Hsh & Hnow & Hch & Ht & Hlim & rest & Hin) Hn Hw He Hi Hc Hb. exists (set_input rest w).
  erewrite (deny_step cb _ (with_rate_limiter (Some rl) config) tc out_path w rest);
    rewrite ?Hn, ?Hsh, ?Hnow, ?Hlim, ?limiter_only; try done.
  - unfold track_denial. by rewrite Hn.
  - unfold is_rate_limited. by rewrite Hn.
Qed.

(** The third denial in a row of a tool puts it in backoff: for five
    seconds every further call of it is refused without prompting and without
    consuming input, and the error reports the remaining time. *)
Theorem three_denials_block {R : Regex} {J : CJson} {F : Fnmatch} cb ctx (config : ApprovalGateConfig R)
    rl tc name out_path w1 w2 w3 w4 sh t1 t2 t3 :
  tc_name tc = Some name -> is_file_write_tool (Some name) = false ->
  enabled config = true -> is_interactive config = true ->
  approval_gate_requires_check cb sh config tc = 1%Z ->
  lookup_entry rl name = None ->
  says_no w1 sh t1 -> says_no w2 sh t2 -> says_no w3 sh t3 -> (t1 <= t2 <= t3)%Z ->
  (t3 <= pe_now (w_prompt w4) < t3 + 5)%Z ->
  let run ctx w := tool_orchestration_check_approval cb ctx tc out_path w in
  exists ctx1 ctx2 ctx3 w1' w2' w3',
    run (with_gate (with_rate_limiter (Some rl) config) ctx) w1 = Some ((-1)%Z, ctx1, w1', Some ErrDenied) /\
    run ctx1 w2 = Some ((-1)%Z, ctx2, w2', Some ErrDenied) /\
    run ctx2 w3 = Some ((-1)%Z, ctx3, w3', Some ErrDenied) /\
    run ctx3 w4 = Some ((-1)%Z, ctx3, set_input (w_input w4) w4,
                        Some (ErrRateLimited (t3 + 5 - pe_now (w_prompt w4))%Z)).
Proof.
  intros Hn Hw He Hi Hc Hl H1 H2 H3 Ht H4 run. unfold run.
  set (rl1 := rate_limiter_record_denial true true rl name t1).
  set (rl2 := rate_limiter_record_denial true true rl1 name t2).
  set (rl3 := rate_limiter_record_denial true true rl2 name t3).
  assert (lookup_entry rl1 name = Some (mkRateLimitEntry name 1 t1 (t1 + 0))) as L1.
  { unfold rl1. autorewrite with scaffold. by rewrite Hl. }
  assert (lookup_entry rl2 name = Some (mkRateLimitEntry name 2 t2 (t2 + 0))) as L2.
  { unfold rl2. autorewrite with scaffold. by rewrite L1. }
  assert (lookup_entry rl3 name = Some (mkRateLimitEntry name 3 t3 (t3 + 5))) as L3.
  { unfold rl3. autorewrite with scaffold. by rewrite L2. }
  destruct (denied_once cb ctx config rl tc name out_path w1 sh t1) as [w1' E1]; try done.
  { unfold rate_limiter_is_blocked. by rewrite Hl. }
  destruct (denied_once cb ctx config rl1 tc name out_path w2 sh t2) as [w2' E2]; try done.
  { unfold rate_limiter_is_blocked. rewrite L1. apply Z.ltb_ge. simpl. lia. }
  destruct (denied_once cb ctx config rl2 tc name out_path w3 sh t3) as [w3' E3]; try done.
  { unfold rate_limiter_is_blocked. rewrite L2. apply Z.ltb_ge. simpl. lia. }
  eexists _, _, _, w1', w2', w3'. split; [exact E1|]. split; [exact E2|]. split; [exact E3|].
  fold rl1. fold rl2. fold rl3. rewrite check_approval_unfold. unfold protected_stage.
  rewrite Hn, Hw. cbn [gate_config with_gate enabled with_rate_limiter]. rewrite He. cbn [negb].
  unfold gate_tool_call, check_approval_gate, is_rate_limited. rewrite Hn. cbn [rate_limiter with_rate_limiter].
  unfold rate_limiter_is_blocked. rewrite L3. cbn [backoff_until].
  destruct (Z.ltb_spec (pe_now (w_prompt w4)) (t3 + 5)); [|lia].
  unfold get_rate_limit_remaining. cbn [rate_limiter with_rate_limiter].
  change (w_prompt (set_input (w_input w4) w4)) with (w_prompt w4).
  unfold rate_limiter_get_remaining. rewrite L3. cbn [backoff_until].
  destruct (Z.leb_spec (t3 + 5) (pe_now (w_prompt w4))); [lia|].
  rewrite wrap32_small by lia. reflexivity.
Qed.

Definition clock_world (now : Z) (input : list KeyEvent) : World :=
  mkWorld sample_env protected_initial (mkPromptEnv now None true None) input memory_available true (fun _ => true).

Lemma three_denials_block_witness :
  exists ctx3 w,
    tool_orchestration_check_approval no_callbacks ctx3 (shell_call "make") false (clock_world 13 []) =
    Some ((-1)%Z, ctx3, w, Some (ErrRateLimited 4)).
Proof.
  destruct (three_denials_block no_callbacks gated_context sample_config rate_limiter_create
    (shell_call "make") (cs "shell") false (clock_world 10 [Key "n"]) (clock_world 11 [Key "n"])
    (clock_world 12 [Key "n"]) (clock_world 13 []) None 10 11 12)
    as (c1 & c2 & c3 & w1 & w2 & w3 & _ & _ & _ & H); try reflexivity;
    try (repeat split; eexists; reflexivity); try (simpl; lia).
  exists c3. eexists. exact H.
Defined.

(** *** Admission of a batch *)

(** The answers to a sequence of spawn requests. *)
Fixpoint spawn_run {R : Regex} (ctx : ToolOrchestrationContext R) (names : list cstr)
    : ToolOrchestrationContext R * list bool :=
  match names with
  | [] => (ctx, [])
  | n :: names' =>
      let '(ctx, b) := tool_orchestration_can_spawn_subagent ctx (Some n) in
      let '(ctx, bs) := spawn_run ctx names' in (ctx, b :: bs)
  end.

Definition subagent_requests (names : list cstr) : list cstr :=
  filter (fun n => n = cs "subagent") names.

(** The requests that were granted. *)
Fixpoint granted (names : list cstr) (bs : list bool) : list cstr :=
  match names, bs with
  | n :: names', b :: bs' => if b : bool then n :: granted names' bs' else granted names' bs'
  | _, _ => []
  end.

Lemma spawn_run_granted {R : Regex} (ctx : ToolOrchestrationContext R) names :
  let '(ctx', bs) := spawn_run ctx names in
  length bs = length names /\
  filter (fun n => n <> cs "subagent") (granted names bs) = filter (fun n => n <> cs "subagent") names /\
  subagent_requests (granted names bs) =
    (if subagent_spawned ctx then [] else take 1 (subagent_requests names)) /\
  executed_tracker ctx' = executed_tracker ctx /\ gate_config ctx' = gate_config ctx.
Proof.
  unfold subagent_requests. revert ctx; induction names as [|n names IH]; intros ctx.
  { simpl. by destruct (subagent_spawned ctx). }
  cbn [spawn_run]. unfold tool_orchestration_can_spawn_subagent.
  destruct (streq_spec n (cs "subagent")) as [->|Hne]; cbn [negb].
  - destruct (subagent_spawned ctx) eqn:Es.
    + specialize (IH ctx). destruct (spawn_run ctx names) as [ctx' bs]. rewrite Es in IH.
      destruct IH as (H1 & H2 & H3 & H4 & H5). cbn [granted length].
      rewrite (filter_cons_False _ _ names) by (by intros H). auto 6.
    + set (ctx1 := mkOrch _ _ true). specialize (IH ctx1).
      destruct (spawn_run ctx1 names) as [ctx' bs]. destruct IH as (H1 & H2 & H3 & H4 & H5).
      cbn [granted length]. rewrite !(filter_cons_False (fun n => n <> _)) by (by intros H).
      rewrite !(filter_cons_True (fun n => n = _)) by done. rewrite H3. auto 6.
  - specialize (IH ctx). destruct (spawn_run ctx names) as [ctx' bs].
    destruct IH as (H1 & H2 & H3 & H4 & H5). cbn [granted length].
    rewrite !(filter_cons_True (fun n => n <> _)) by done.
    rewrite !(filter_cons_False (fun n => n = _)) by done. rewrite H2. auto 6.
Qed.

(** Within one batch the first request to spawn a subagent is granted and
    all others are refused, and every other tool is let through, in order;
    the reset at the next batch grants one again. *)
Theorem one_subagent_per_batch {R : Regex} (ctx : ToolOrchestrationContext R) names :
  let '(_, bs) := spawn_run (tool_orchestration_reset_batch ctx) names in
  length bs = length names /\
  filter (fun n => n <> cs "subagent") (granted names bs) = filter (fun n => n <> cs "subagent") names /\
  subagent_requests (granted names bs) = take 1 (subagent_requests names).
Proof.
  pose proof (spawn_run_granted (tool_orchestration_reset_batch ctx) names) as H.
  destruct (spawn_run _ names) as [ctx' bs]. destruct H as (H1 & H2 & H3 & _). done.
Qed.

(** Marking a sequence of calls, each with the answers of the allocator. *)
Fixpoint mark_run {R : Regex} (ctx : ToolOrchestrationContext R) (l : list (bool * bool * cstr))
    : ToolOrchestrationContext R * list Z :=
  match l with
  | [] => (ctx, [])
  | (d, g, id) :: l' =>
      let '(ctx, rc) := tool_orchestration_mark_executed d g ctx (Some id) in
      let '(ctx, rcs) := mark_run ctx l' in (ctx, rc :: rcs)
  end.

(** The identifiers whose marking succeeded. *)
Fixpoint marked (l : list (bool * bool * cstr)) (rcs : list Z) : list cstr :=
  match l, rcs with
  | (_, _, id) :: l', rc :: rcs' => if (rc =? 0)%Z then id :: marked l' rcs' else marked l' rcs'
  | _, _ => []
  end.

Lemma is_duplicate_true {R : Regex} (ctx : ToolOrchestrationContext R) id :
  tool_orchestration_is_duplicate ctx (Some id) = true <-> id ∈ data (executed_tracker ctx).
Proof.
  simpl. rewrite existsb_true_iff. setoid_rewrite streq_true.
  split; [by intros (x & Hx & ->)|eauto].
Qed.

Lemma mark_executed_gate {R : Regex} d g (ctx : ToolOrchestrationContext R) id :
  gate_config (tool_orchestration_mark_executed d g ctx (Some id)).1 = gate_config ctx.
Proof. simpl. destruct d; cbn [negb]; [|done]. by destruct (da_push _ _ _) as [arr []]. Qed.

Lemma mark_executed_data {R : Regex} d g (ctx : ToolOrchestrationContext R) id :
  let '(ctx', rc) := tool_orchestration_mark_executed d g ctx (Some id) in
  (rc = 0%Z /\ data (executed_tracker ctx') = data (executed_tracker ctx) ++ [id] /\
   subagent_spawned ctx' = subagent_spawned ctx) \/
  (rc = (-1)%Z /\ ctx' = ctx).
Proof.
  simpl. destruct d; cbn [negb]; [|by right]. unfold da_push.
  destruct (da_room g (executed_tracker ctx)) as [arr|] eqn:E; [|by right]. left. simpl.
  unfold da_room, da_grow in E. repeat case_match; simplify_eq/=; done.
Qed.

(** Whatever the allocator answers, a call identifier counts as a
    duplicate exactly when it was recorded before or its marking in this run
    reported success, so no call whose marking succeeded is admitted twice. *)
Theorem duplicates_exact {R : Regex} (ctx : ToolOrchestrationContext R) l id :
  let '(ctx', rcs) := mark_run ctx l in
  tool_orchestration_is_duplicate ctx' (Some id) = true <->
  tool_orchestration_is_duplicate ctx (Some id) = true \/ id ∈ marked l rcs.
Proof.
  pose proof (fun c : ToolOrchestrationContext R => is_duplicate_true c id) as Hd.
  revert ctx; induction l as [|[[d g] i] l IH]; intros ctx; cbn [mark_run marked].
  { split; [auto|]. intros [H|H]; [done|]. by apply elem_of_nil in H. }
  pose proof (mark_executed_data d g ctx i) as Hm.
  destruct (tool_orchestration_mark_executed d g ctx (Some i)) as [ctx1 rc]. specialize (IH ctx1).
  destruct (mark_run ctx1 l) as [ctx' rcs]. rewrite IH, !Hd.
  destruct Hm as [(-> & Hm & _)|[-> ->]]; cbn [Z.eqb]; [|done].
  rewrite Hm, elem_of_app, list_elem_of_singleton, elem_of_cons. tauto.
Qed.
