(* ===== verification/ToolBatch.v ===== *)
(** * Batches of tool calls (lib/agent/tool_batch_executor.c)

    tool_batch_execute: the serial screening of a batch (duplicates, subagent
    limit, approval), the execution of what was approved, serially or by one
    thread per call, and the two ways of numbering the results. Display, the
    spinner and the thread-local context of an approved path (which is never
    filled in) are not modelled. *)

From S2P Require Import Prelude CString Regex Darray RateLimiter Json ToolArgs ApprovalGate GateDecision ApprovalErrors GateTheorems ApprovalPrompt ProtectedFiles PathNormalize ToolOrchestration.
Local Open Scope char_scope.
Local Open Scope bool_scope.

(** NULL pointers are [None]; a fresh array of results holds [empty_result]. *)
Record ToolResult := mkToolResult {
  tr_call_id : option cstr;
  tr_result : option cstr;
  tr_success : bool;
  tr_clear_history : bool
}.

Definition empty_result : ToolResult := mkToolResult None None false false.

Record PreScreenEntry := mkEntry {
  call_index : nat;
  slot : nat;
  is_mcp : bool;
  is_plugin : bool;
  entry_approved : bool;
  thread_safe : bool;
  has_approved_path : bool
}.

(** An error object with a code and a message. *)
Definition error_json (error message : string) : cstr :=
  cs "{" ++ q "error" ++ cs ": " ++ q error ++ cs ", " ++ q "message" ++ cs ": " ++ q message ++ cs "}".

Definition INTERRUPTED_JSON : cstr := error_json "interrupted" "Cancelled by user".
Definition ABORTED_JSON : cstr := error_json "aborted" "Operation aborted by user".
Definition DUPLICATE_SUBAGENT_JSON : cstr :=
  error_json "duplicate_subagent"
    "Only one subagent can be spawned per turn. A subagent was already spawned in this batch.".

Definition fill_error_result (result : ToolResult) (call_id error : cstr) : ToolResult :=
  mkToolResult (Some call_id) (Some error) false (tr_clear_history result).

Definition PLUGIN_TOOL_PREFIX : cstr := cs "plugin_".

(** The answers of the surroundings during one batch: the interrupt flag at
    iteration [i] and after the execution, the allocations, the registered
    tools with their thread_safe flag, and the text for a failed path
    verification. *)
Record BatchEnv := mkBatchEnv {
  be_pending : nat -> bool;
  be_pending_end : bool;
  be_calloc_ok : bool;
  be_dup_ok : nat -> bool;
  be_grow_ok : nat -> bool;
  be_asprintf_ok : bool;
  be_functions : list (cstr * bool);
  be_verify_error : cstr -> option cstr
}.

(** The thread_safe flag of the first tool with the name. *)
Fixpoint lookup_thread_safe (functions : list (cstr * bool)) (name : cstr) : bool :=
  match functions with
  | [] => false
  | (f, safe) :: functions' => if streq f name then safe else lookup_thread_safe functions' name
  end.

Section Batch.
Context {R : Regex} {J : CJson} {F : Fnmatch} (cb : ApprovalGateCallbacks) (env : BatchEnv).
(** [compact]: call_indices is not NULL. *)
Context (compact : bool).

Record Screen := mkScreen {
  sc_orch : ToolOrchestrationContext R;
  sc_world : World;
  sc_results : list ToolResult;
  sc_indices : list nat;
  sc_count : nat;
  sc_approved : list PreScreenEntry
}.

Definition set_results (rs : list ToolResult) (st : Screen) : Screen :=
  mkScreen (sc_orch st) (sc_world st) rs (sc_indices st) (sc_count st) (sc_approved st).
Definition set_orch (o : ToolOrchestrationContext R) (st : Screen) : Screen :=
  mkScreen o (sc_world st) (sc_results st) (sc_indices st) (sc_count st) (sc_approved st).
Definition set_world (w : World) (st : Screen) : Screen :=
  mkScreen (sc_orch st) w (sc_results st) (sc_indices st) (sc_count st) (sc_approved st).
Definition set_indices (l : list nat) (st : Screen) : Screen :=
  mkScreen (sc_orch st) (sc_world st) (sc_results st) l (sc_count st) (sc_approved st).
Definition set_count (n : nat) (st : Screen) : Screen :=
  mkScreen (sc_orch st) (sc_world st) (sc_results st) (sc_indices st) n (sc_approved st).
Definition add_approved (e : PreScreenEntry) (st : Screen) : Screen :=
  mkScreen (sc_orch st) (sc_world st) (sc_results st) (sc_indices st) (sc_count st)
    (sc_approved st ++ [e]).

(** fill_error_result on the slot [s]. *)
Definition fill_slot (s : nat) (call : ToolCall) (error : cstr) (st : Screen) : Screen :=
  set_results (alter (fun r => fill_error_result r (tc_id call) error) s (sc_results st)) st.

(** [j] is the index of the first of [calls]. *)
Fixpoint fill_remaining_interrupted (j : nat) (calls : list ToolCall) (st : Screen) : Screen :=
  match calls with
  | [] => st
  | call :: calls' =>
      if compact && tool_orchestration_is_duplicate (sc_orch st) (Some (tc_id call))
      then fill_remaining_interrupted (S j) calls' st
      else
        let s := if compact then sc_count st else j in
        let st := if compact then set_indices (<[sc_count st := j]> (sc_indices st)) st else st in
        let st := fill_slot s call INTERRUPTED_JSON st in
        fill_remaining_interrupted (S j) calls' (set_count (S (sc_count st)) st)
  end.

Fixpoint fill_remaining_aborted (j : nat) (calls : list ToolCall) (st : Screen) : Screen :=
  match calls with
  | [] => st
  | call :: calls' => fill_remaining_aborted (S j) calls' (fill_slot j call ABORTED_JSON st)
  end.

(** The text tool_orchestration_check_approval stores for a refusal. *)
Definition refusal_text (err : ToolError) (call : ToolCall) (orch : ToolOrchestrationContext R)
    (w : World) : option cstr :=
  match err with
  | ErrProtectedFile path => format_protected_file_error (be_asprintf_ok env) (Some path)
  | ErrVerify path => be_verify_error env path
  | ErrDenied => format_denial_error (be_asprintf_ok env) call
  | ErrRateLimited _ =>
      match gate_config orch with
      | Some config => format_rate_limit_error (be_asprintf_ok env) (pe_now (w_prompt w)) config call
      | None => None
      end
  | ErrNonInteractive => format_non_interactive_error cb (be_asprintf_ok env) call
  end.

Definition store_refusal (s : nat) (call : ToolCall) (err : option ToolError) (st : Screen) : Screen :=
  match err with
  | None => st
  | Some err =>
      let text := refusal_text err call (sc_orch st) (sc_world st) in
      set_results (alter (fun r => mkToolResult (Some (tc_id call)) text false (tr_clear_history r)) s
                     (sc_results st)) st
  end.

Definition make_entry (i s : nat) (name : cstr) : PreScreenEntry :=
  mkEntry i s (has_prefix (cs "mcp_") name) (has_prefix PLUGIN_TOOL_PREFIX name) true
    (lookup_thread_safe (be_functions env) name)
    (match approved_path with Some _ => true | None => false end).

(** What the loop does next. *)
Inductive LoopStep := Continue (st : Screen) | Break (st : Screen) (status : Z).

(** The body of the loop from the subagent check on; [rest] are the calls
    after this one. [None]: a NULL name is dereferenced. *)
Definition screen_call (i : nat) (call : ToolCall) (rest : list ToolCall) (call_count : nat)
    (st : Screen) : option LoopStep :=
  match tc_name call with
  | None => None
  | Some name =>
      let s := if compact then sc_count st else i in
      let '(orch, can_spawn) := tool_orchestration_can_spawn_subagent (sc_orch st) (Some name) in
      let st := set_orch orch st in
      if negb can_spawn then
        let st := fill_slot s call DUPLICATE_SUBAGENT_JSON st in
        Some (Continue (set_count (S (sc_count st)) st))
      else
        match tool_orchestration_check_approval cb (sc_orch st) call true (sc_world st) with
        | None => None
        | Some (approval, orch, w, err) =>
            let st := set_world w (set_orch orch st) in
            let st := store_refusal s call err st in
            if (approval =? -2)%Z then
              let st := fill_slot s call ABORTED_JSON st in
              let st := set_count (S (sc_count st)) st in
              let st := if compact then st
                        else set_count call_count (fill_remaining_aborted (S i) rest st) in
              Some (Break st (-1))
            else if (approval =? -1)%Z then Some (Continue (set_count (S (sc_count st)) st))
            else
              let st := add_approved (make_entry i s name) st in
              Some (Continue (set_count (S (sc_count st)) st))
        end
  end.

Fixpoint screen_loop (i : nat) (calls : list ToolCall) (call_count : nat) (st : Screen)
    : option (Screen * Z) :=
  match calls with
  | [] => Some (st, 0%Z)
  | call :: rest =>
      let next st := screen_loop (S i) rest call_count st in
      let screen st :=
        match screen_call i call rest call_count st with
        | None => None
        | Some (Continue st) => next st
        | Some (Break st status) => Some (st, status)
        end in
      if be_pending env i then Some (fill_remaining_interrupted i calls st, (-2)%Z)
      else if compact then
        if tool_orchestration_is_duplicate (sc_orch st) (Some (tc_id call)) then next st
        else
          let '(orch, rc) := tool_orchestration_mark_executed (be_dup_ok env i) (be_grow_ok env i)
                               (sc_orch st) (Some (tc_id call)) in
          let st := set_orch orch st in
          if negb (rc =? 0)%Z then next st
          else screen (set_indices (<[sc_count st := i]> (sc_indices st)) st)
      else screen st
  end.

(** ** Execution *)

(** Plugin hooks, MCP servers, plugins and built-in tools act on a shared
    state [T] and on the result of the call. *)
Record ToolRuntime (T : Type) := mkRuntime {
  rt_pre_hook : ToolCall -> ToolResult -> T -> bool * ToolResult * T;
  rt_mcp : ToolCall -> ToolResult -> T -> Z * ToolResult * T;
  rt_plugin : ToolCall -> ToolResult -> T -> Z * ToolResult * T;
  rt_tool : ToolCall -> ToolResult -> T -> Z * ToolResult * T;
  rt_post_hook : ToolCall -> ToolResult -> T -> ToolResult * T
}.

Definition execute_single_tool {T} (rt : ToolRuntime T) (call : ToolCall) (e : PreScreenEntry)
    (result : ToolResult) (s : T) : ToolResult * T :=
  let '(stop, result, s) := rt_pre_hook T rt call result s in
  if stop then (result, s)
  else
    let '(result, s) :=
      if is_mcp e then let '(_, result, s) := rt_mcp T rt call result s in (result, s)
      else if is_plugin e then let '(_, result, s) := rt_plugin T rt call result s in (result, s)
      else
        let '(rc, result, s) := rt_tool T rt call result s in
        if negb (rc =? 0)%Z
        then (fill_error_result result (tc_id call) (cs "Tool execution failed"), s)
        else (result, s) in
    rt_post_hook T rt call result s.

(** One worker: it reads its call and writes its slot. *)
Definition run_entry {T} (rt : ToolRuntime T) (calls : list ToolCall) (m : list ToolResult * T)
    (e : PreScreenEntry) : list ToolResult * T :=
  match calls !! call_index e, m.1 !! slot e with
  | Some call, Some r => let '(r', s) := execute_single_tool rt call e r m.2 in (<[slot e := r']> m.1, s)
  | _, _ => m
  end.

Definition run_entries {T} (rt : ToolRuntime T) (calls : list ToolCall) (m : list ToolResult * T)
    (order : list PreScreenEntry) : list ToolResult * T :=
  foldl (run_entry rt calls) m order.

Definition use_parallel (approved : list PreScreenEntry) : bool :=
  (2 <=? length approved)%nat && forallb thread_safe approved.

Record BatchAnswer T := mkBatchAnswer {
  ba_status : Z;
  ba_orch : ToolOrchestrationContext R;
  ba_world : World;
  ba_results : list ToolResult;
  ba_indices : list nat;
  ba_count : nat;
  ba_state : T
}.

(** [schedule]: the order in which the threads of a parallel batch run. *)
Definition tool_batch_execute {T} (rt : ToolRuntime T)
    (schedule : list PreScreenEntry -> list PreScreenEntry)
    (orch : ToolOrchestrationContext R) (w : World) (calls : list ToolCall)
    (results : list ToolResult) (indices : list nat) (s : T) : option (BatchAnswer T) :=
  let w := set_protected (force_protected_inode_refresh (w_sys w) (w_protected w)) w in
  if negb (be_calloc_ok env)
  then Some (mkBatchAnswer T (-1) orch w results indices 0 s)
  else
    match screen_loop 0 calls (length calls) (mkScreen orch w results indices 0 []) with
    | None => None
    | Some (st, status) =>
        let approved := sc_approved st in
        if negb (status =? 0)%Z || (length approved =? 0)%nat
        then Some (mkBatchAnswer T status (sc_orch st) (sc_world st) (sc_results st)
                     (sc_indices st) (sc_count st) s)
        else
          let order := if use_parallel approved then schedule approved else approved in
          let '(results, s) := run_entries rt calls (sc_results st, s) order in
          let status := if be_pending_end env then (-2)%Z else status in
          Some (mkBatchAnswer T status (sc_orch st) (sc_world st) results
                  (sc_indices st) (sc_count st) s)
    end.
End Batch.
Arguments Screen R : clear implicits.

(** ** One iteration of the screening *)

Section ScreenFacts.
Context {R : Regex} {J : CJson} {F : Fnmatch} {FS : FnmatchSpec F} (cb : ApprovalGateCallbacks)
  (env : BatchEnv) (compact : bool).
Implicit Types (st : Screen R) (call : ToolCall) (calls rest : list ToolCall).

Definition tracked st : list cstr := data (executed_tracker (sc_orch st)).
Definition spawned st : bool := subagent_spawned (sc_orch st).

(** The check let the call through, in some state of the batch. *)
Definition admitted call : Prop :=
  exists orch w orch' w' err,
    tool_orchestration_check_approval (R := R) cb orch call true w = Some (0%Z, orch', w', err).

(** The result of a call that is not run. *)
Definition error_result call (r r' : ToolResult) : Prop :=
  tr_call_id r' = Some (tc_id call) /\ tr_success r' = false /\
  tr_clear_history r' = tr_clear_history r.

(** Only slot [s] changed, to an error of [call]. *)
Definition error_stored (s : nat) call (rs rs' : list ToolResult) : Prop :=
  exists f, rs' = alter f s rs /\ forall r, error_result call r (f r).

(** The parts that the screening of one call keeps or extends. *)
Record kept st st' : Prop := {
  kept_indices : sc_indices st' = sc_indices st;
  kept_tracked : tracked st' = tracked st;
  kept_spawned : spawned st = true -> spawned st' = true
}.

Lemma can_spawn_cases st name orch ok :
  tool_orchestration_can_spawn_subagent (sc_orch st) (Some name) = (orch, ok) ->
  data (executed_tracker orch) = tracked st /\
  (spawned st = true -> subagent_spawned orch = true) /\
  (ok = true -> name = cs "subagent" -> spawned st = false /\ subagent_spawned orch = true).
Proof using Type.
  unfold tool_orchestration_can_spawn_subagent, tracked, spawned.
  destruct (streq_spec name (cs "subagent")) as [Hs|Hs]; cbn [negb]; [|by intros [= <- <-]].
  destruct (subagent_spawned (sc_orch st)) eqn:E; intros [= <- <-]; by rewrite ?E.
Qed.

(** What one screened call does: it is refused and only its slot is written,
    admitted and only an entry is added, or it ends the batch. *)
Inductive call_outcome (i : nat) call rest (n : nat) st : LoopStep (R := R) -> Prop :=
| Refused st' :
    kept st st' -> sc_count st' = S (sc_count st) -> sc_approved st' = sc_approved st ->
    error_stored (if compact then sc_count st else i) call (sc_results st) (sc_results st') ->
    call_outcome i call rest n st (Continue st')
| LetThrough st' name :
    kept st st' -> sc_count st' = S (sc_count st) ->
    tc_name call = Some name ->
    sc_approved st' = sc_approved st ++ [make_entry env i (if compact then sc_count st else i) name] ->
    sc_results st' = sc_results st -> admitted call ->
    (name = cs "subagent" -> spawned st = false /\ spawned st' = true) ->
    call_outcome i call rest n st (Continue st')
| Aborted st1 st' :
    kept st st1 -> sc_count st1 = S (sc_count st) -> sc_approved st1 = sc_approved st ->
    error_stored (if compact then sc_count st else i) call (sc_results st) (sc_results st1) ->
    st' = (if compact then st1 else set_count n (fill_remaining_aborted (S i) rest st1)) ->
    call_outcome i call rest n st (Break st' (-1)).

Lemma screen_call_outcome i call rest n st :
  is_Some (tc_name call) ->
  exists step, screen_call cb env compact i call rest n st = Some step /\
    call_outcome i call rest n st step.
Proof using FS.
  intros [name Hname]. unfold screen_call. rewrite Hname.
  destruct (tool_orchestration_can_spawn_subagent _ _) as [orch ok] eqn:Es.
  apply can_spawn_cases in Es as (Htr & Hsp & Hsub).
  destruct ok; cbn [negb].
  2: { eexists. split; [done|]. apply Refused; [by split|done|done|]. eexists. split; [done|]. done. }
  cbn [sc_orch set_orch sc_world].
  destruct (check_approval_consent cb orch call true (sc_world st))
    as (code & orch' & w' & err & E & Hcode & _).
  rewrite E. destruct (check_approval_frame _ _ _ _ _ _ _ _ _ E) as (Ft & Fs & Fe).
  assert (forall st', sc_orch st' = orch' -> sc_indices st' = sc_indices st -> kept st st') as Hk.
  { intros st' Ho Hi. split; [done|unfold tracked; by rewrite Ho, Ft|].
    intros H. unfold spawned. rewrite Ho, Fs. auto. }
  destruct Hcode as [->|[->| ->]]; cbn [Z.eqb Pos.eqb].
  - rewrite Fe by done. eexists. split; [done|]. eapply LetThrough; try done; [by apply Hk| |].
    + exists orch, (sc_world st), orch', w', err. done.
    + intros Hn. destruct (Hsub eq_refl Hn) as [H1 H2]. split; [done|]. unfold spawned. simpl. congruence.
  - destruct (check_approval_error _ _ _ _ _ _ _ _ E) as [e ->].
    eexists. split; [done|]. apply Refused; [by apply Hk|done|done|]. eexists. split; [done|]. done.
  - rewrite Fe by done. eexists. split; [done|]. eapply Aborted; [..|reflexivity]; [by apply Hk|done|done|].
    eexists. split; [done|]. done.
Qed.
End ScreenFacts.

(** ** The invariant of the screening loop *)

Section Safety.
Context {R : Regex} {J : CJson} {F : Fnmatch} {FS : FnmatchSpec F} (cb : ApprovalGateCallbacks)
  (env : BatchEnv) (compact : bool) (calls : list ToolCall) (st0 : Screen R).
Implicit Types (st : Screen R) (e : PreScreenEntry).

Definition entry_id e : option cstr := tc_id <$> calls !! call_index e.
Definition entry_name e : option cstr := calls !! call_index e ≫= tc_name.

(** The entry points to a call before [i], and its slot to that call. *)
Definition entry_ok (i : nat) st e : Prop :=
  (call_index e < i)%nat /\ (slot e < sc_count st)%nat /\
  (if compact then sc_indices st !! slot e = Some (call_index e) else slot e = call_index e) /\
  exists call, calls !! call_index e = Some call /\ admitted (R := R) cb call.

(** After the screening of the first [i] calls. *)
Record screened (i : nat) st : Prop := {
  sd_count : (sc_count st <= i)%nat;
  sd_direct : compact = false -> sc_count st = i;
  sd_results : length (sc_results st) = length (sc_results st0);
  sd_indices : length (sc_indices st) = length (sc_indices st0);
  sd_entries : forall e, e ∈ sc_approved st -> entry_ok i st e;
  sd_slots : NoDup (map slot (sc_approved st));
  sd_calls : NoDup (map call_index (sc_approved st));
  sd_subagent : forall e e', e ∈ sc_approved st -> e' ∈ sc_approved st ->
    entry_name e = Some (cs "subagent") -> entry_name e' = Some (cs "subagent") -> e = e';
  sd_spawned : forall e, e ∈ sc_approved st -> entry_name e = Some (cs "subagent") ->
    spawned st0 = false /\ spawned st = true;
  sd_spawn_mono : spawned st0 = true -> spawned st = true;
  sd_tracked : forall id, id ∈ tracked st0 -> id ∈ tracked st;
  sd_ids : compact = true -> NoDup (map entry_id (sc_approved st)) /\
    forall e, e ∈ sc_approved st ->
      exists id, entry_id e = Some id /\ id ∈ tracked st /\ id ∉ tracked st0
}.

(** Steps that add no entry. *)
Lemma screened_mono i j st st' :
  screened i st -> (i <= j)%nat -> sc_approved st' = sc_approved st ->
  (forall id, id ∈ tracked st -> id ∈ tracked st') -> (spawned st = true -> spawned st' = true) ->
  length (sc_results st') = length (sc_results st) ->
  length (sc_indices st') = length (sc_indices st) ->
  (sc_count st <= sc_count st' <= j)%nat -> (compact = false -> sc_count st' = j) ->
  (forall k, (k < sc_count st)%nat -> sc_indices st' !! k = sc_indices st !! k) ->
  screened j st'.
Proof using Type.
  intros Hs Hij Ha Ht Hsp Hr Hi [Hc1 Hc2] Hd Hk. split; rewrite ?Ha; try apply Hs; try lia; auto.
  - by rewrite Hr, (sd_results _ _ Hs).
  - by rewrite Hi, (sd_indices _ _ Hs).
  - intros e He. destruct (sd_entries _ _ Hs e He) as (H1 & H2 & H3 & H4).
    split_and!; [lia|lia| |done]. destruct compact; [|done]. by rewrite Hk.
  - intros e He Hn. destruct (sd_spawned _ _ Hs e He Hn). auto.
  - intros H. apply Hsp, (sd_spawn_mono _ _ Hs H).
  - intros id H. apply Ht, (sd_tracked _ _ Hs id H).
  - intros Hcomp. destruct (sd_ids _ _ Hs Hcomp) as [Hn He]. split; [done|].
    intros e H. destruct (He e H) as (id & H1 & H2 & H3). eauto.
Qed.

(** The entry of an admitted call. *)
Lemma screened_admit i st st' call name :
  screened i st -> calls !! i = Some call -> tc_name call = Some name ->
  admitted (R := R) cb call -> kept st st' -> sc_count st' = S (sc_count st) ->
  sc_approved st' = sc_approved st ++ [make_entry env i (if compact then sc_count st else i) name] ->
  sc_results st' = sc_results st ->
  (name = cs "subagent" -> spawned st = false /\ spawned st' = true) ->
  (compact = true -> sc_indices st !! sc_count st = Some i /\ tc_id call ∈ tracked st /\
     tc_id call ∉ tracked st0 /\ forall e, e ∈ sc_approved st -> entry_id e <> Some (tc_id call)) ->
  screened (S i) st'.
Proof using Type.
  intros Hs Hcall Hname Hadm [Hki Hkt Hks] Hc Ha Hr Hsub Hcomp.
  set (e0 := make_entry env i (if compact then sc_count st else i) name) in *.
  assert (slot e0 = sc_count st) as Hslot.
  { unfold e0. destruct compact eqn:E; [done|]. symmetry. by apply (sd_direct _ _ Hs). }
  assert (entry_id e0 = Some (tc_id call)) as Hid by (unfold entry_id; simpl; by rewrite Hcall).
  assert (entry_name e0 = Some name) as Hnm by (unfold entry_name; simpl; by rewrite Hcall).
  assert (forall e, e ∈ sc_approved st' -> e ∈ sc_approved st \/ e = e0) as Hin.
  { intros e. rewrite Ha, elem_of_app, list_elem_of_singleton. done. }
  split.
  - rewrite Hc. pose proof (sd_count _ _ Hs). lia.
  - intros H. rewrite Hc. f_equal. by apply (sd_direct _ _ Hs).
  - by rewrite Hr, (sd_results _ _ Hs).
  - by rewrite Hki, (sd_indices _ _ Hs).
  - intros e [He| ->]%Hin.
    + destruct (sd_entries _ _ Hs e He) as (H1 & H2 & H3 & H4).
      unfold entry_ok. rewrite Hc, Hki. split_and!; [lia|lia|done|done].
    + unfold entry_ok. rewrite Hc, Hki, Hslot. split_and!; [simpl; lia|lia| |eauto].
      destruct compact eqn:E; [by apply Hcomp|]. by apply (sd_direct _ _ Hs).
  - rewrite Ha, map_app. apply NoDup_app. split_and!; [apply Hs| |apply NoDup_singleton].
    intros k Hk ->%list_elem_of_singleton. apply list_elem_of_fmap in Hk as (e & He1 & He2).
    destruct (sd_entries _ _ Hs e He2) as (_ & H & _). lia.
  - rewrite Ha, map_app. apply NoDup_app. split_and!; [apply Hs| |apply NoDup_singleton].
    intros k Hk ->%list_elem_of_singleton. apply list_elem_of_fmap in Hk as (e & He1 & He2).
    destruct (sd_entries _ _ Hs e He2) as (H & _). simpl in He1. lia.
  - intros e e' [He| ->]%Hin [He'| ->]%Hin Hn Hn'; [by eapply sd_subagent| | |done];
      exfalso; [destruct (sd_spawned _ _ Hs e He Hn)|destruct (sd_spawned _ _ Hs e' He' Hn')];
      destruct Hsub; congruence.
  - intros e [He| ->]%Hin Hn.
    + destruct (sd_spawned _ _ Hs e He Hn). auto.
    + destruct Hsub as [H1 H2]; [congruence|]. split; [|done].
      destruct (spawned st0) eqn:E; [|done]. by rewrite (sd_spawn_mono _ _ Hs E) in H1.
  - intros H. apply Hks, (sd_spawn_mono _ _ Hs H).
  - intros id H. rewrite Hkt. apply (sd_tracked _ _ Hs id H).
  - intros Hcm. destruct (Hcomp Hcm) as (_ & Hin0 & Hnew & Hne), (sd_ids _ _ Hs Hcm) as [Hn He].
    rewrite Hkt. split.
    + rewrite Ha, map_app. apply NoDup_app. split_and!; [done| |apply NoDup_singleton].
      intros k Hk ->%list_elem_of_singleton. apply list_elem_of_fmap in Hk as (e & He1 & He2).
      apply (Hne e He2). by rewrite <- Hid.
    + intros e [H| ->]%Hin; [auto|eauto].
Qed.

Lemma fill_interrupted_frame j rest st :
  let st' := fill_remaining_interrupted compact j rest st in
  sc_approved st' = sc_approved st /\ sc_orch st' = sc_orch st /\
  length (sc_results st') = length (sc_results st) /\
  length (sc_indices st') = length (sc_indices st) /\
  (sc_count st <= sc_count st' <= sc_count st + length rest)%nat /\
  (compact = false -> sc_count st' = (sc_count st + length rest)%nat) /\
  (forall k, (k < sc_count st)%nat -> sc_indices st' !! k = sc_indices st !! k).
Proof using Type.
  revert j st. induction rest as [|call rest IH]; intros j st; cbn [fill_remaining_interrupted length].
  { split_and!; try done; intros; lia. }
  destruct compact eqn:Ec; cbn [andb].
  - destruct (tool_orchestration_is_duplicate _ _).
    + destruct (IH (S j) st) as (H1 & H2 & H3 & H4 & H5 & H6 & H7). split_and!; try done; lia.
    + set (st1 := set_count _ _). destruct (IH (S j) st1) as (H1 & H2 & H3 & H4 & H5 & H6 & H7).
      split_and!; try done.
      * rewrite H3. apply length_alter.
      * rewrite H4. apply length_insert.
      * simpl in H5. lia.
      * simpl in H5. lia.
      * intros k Hk. rewrite H7 by (simpl; lia). apply list_lookup_insert_ne. lia.
  - set (st1 := set_count _ _). destruct (IH (S j) st1) as (H1 & H2 & H3 & H4 & H5 & H6 & H7).
    specialize (H6 eq_refl). simpl in H5, H6. split_and!; try done; try lia.
    + rewrite H3. apply length_alter.
    + intros k Hk. rewrite H7 by (simpl; lia). done.
Qed.

Lemma fill_aborted_frame j rest st :
  let st' := fill_remaining_aborted j rest st in
  sc_approved st' = sc_approved st /\ sc_orch st' = sc_orch st /\
  length (sc_results st') = length (sc_results st) /\
  sc_indices st' = sc_indices st /\ sc_count st' = sc_count st.
Proof using Type.
  revert j st. induction rest as [|call rest IH]; intros j st; cbn [fill_remaining_aborted]; [done|].
  destruct (IH (S j) (fill_slot j call ABORTED_JSON st)) as (H1 & H2 & H3 & H4 & H5).
  split_and!; try done. rewrite H3. apply length_alter.
Qed.

Lemma error_stored_length s call rs rs' : error_stored s call rs rs' -> length rs' = length rs.
Proof using Type. intros (f & -> & _). apply length_alter. Qed.

(** A screened call in a state prepared for it. *)
Lemma screened_call i call rest st :
  screened i st -> drop i calls = call :: rest -> is_Some (tc_name call) ->
  (compact = true -> sc_indices st !! sc_count st = Some i /\ tc_id call ∈ tracked st /\
     tc_id call ∉ tracked st0 /\ forall e, e ∈ sc_approved st -> entry_id e <> Some (tc_id call)) ->
  exists step, screen_call cb env compact i call rest (length calls) st = Some step /\
    match step with
    | Continue st' => screened (S i) st'
    | Break st' status => screened (length calls) st' /\ status <> 0%Z
    end.
Proof using FS.
  intros Hs Hdrop Hname Hcomp.
  assert (calls !! i = Some call) as Hcall by (by rewrite <- (Nat.add_0_r i), <- lookup_drop, Hdrop).
  assert (i < length calls)%nat as Hi by (by apply lookup_lt_Some in Hcall).
  destruct (screen_call_outcome cb env compact i call rest (length calls) st Hname) as (step & -> & Ho).
  exists step. split; [done|]. pose proof (sd_count _ _ Hs). pose proof (sd_direct _ _ Hs).
  destruct Ho as [st' Hk Hc Ha Hst|st' name Hk Hc Hn Ha Hr Had Hsub|st1 st' Hk Hc Ha Hst ->].
  - apply error_stored_length in Hst. destruct Hk as [Hki Hkt Hks].
    apply (screened_mono i _ st); rewrite ?Hki, ?Hkt, ?Hc; auto with lia.
  - eapply screened_admit; eauto.
  - apply error_stored_length in Hst. destruct Hk as [Hki Hkt Hks]. split; [|done].
    assert (screened (S i) st1) as Hs1
      by (apply (screened_mono i _ st); rewrite ?Hki, ?Hkt, ?Hc; auto with lia).
    destruct (fill_aborted_frame (S i) rest st1) as (H1 & H2 & H3 & H4 & H5).
    apply (screened_mono (S i) _ st1); destruct compact; try done; unfold tracked, spawned; simpl;
      rewrite ?H2, ?H4, ?Hc; auto with lia.
Qed.

Lemma screened_interrupted i rest st :
  screened i st -> drop i calls = rest -> (i <= length calls)%nat ->
  screened (length calls) (fill_remaining_interrupted compact i rest st).
Proof using Type.
  intros Hs Hdrop Hi. assert (length rest = (length calls - i)%nat) as Hl by (by rewrite <- Hdrop, length_drop).
  destruct (fill_interrupted_frame i rest st) as (H1 & H2 & H3 & H4 & H5 & H6 & H7).
  pose proof (sd_count _ _ Hs). pose proof (sd_direct _ _ Hs).
  apply (screened_mono i _ st); unfold tracked, spawned; rewrite ?H2; auto with lia.
  intros Hd. rewrite H6, H0 by done. lia.
Qed.

(** The compact mode's preparation: the identifier is recorded and the index
    stored. *)
Lemma screened_marked i call rest st orch :
  screened i st -> compact = true -> drop i calls = call :: rest ->
  (length calls <= length (sc_indices st0))%nat ->
  tool_orchestration_is_duplicate (sc_orch st) (Some (tc_id call)) = false ->
  data (executed_tracker orch) = data (executed_tracker (sc_orch st)) ++ [tc_id call] ->
  subagent_spawned orch = subagent_spawned (sc_orch st) ->
  let st' := set_indices (<[sc_count st := i]> (sc_indices st)) (set_orch orch st) in
  screened i st' /\ sc_indices st' !! sc_count st' = Some i /\ tc_id call ∈ tracked st' /\
  tc_id call ∉ tracked st0 /\ forall e, e ∈ sc_approved st' -> entry_id e <> Some (tc_id call).
Proof using Type.
  intros Hs Hc Hdrop Hidx Hdup Hdata Hsp st'.
  assert (tc_id call ∉ tracked st) as Hnew.
  { intros H. apply is_duplicate_true in H. by rewrite H in Hdup. }
  assert (i < length calls)%nat by (apply lookup_lt_is_Some; exists call;
    by rewrite <- (Nat.add_0_r i), <- lookup_drop, Hdrop).
  pose proof (sd_count _ _ Hs). pose proof (sd_indices _ _ Hs).
  assert (forall id, id ∈ tracked st -> id ∈ tracked st') as Ht.
  { intros id. unfold tracked, st'. simpl. rewrite Hdata, elem_of_app. auto. }
  split; [|split; [|split; [|split]]].
  - apply (screened_mono i _ st); auto with lia.
    + unfold spawned, st'. simpl. by rewrite Hsp.
    + simpl. apply length_insert.
    + congruence.
    + intros k Hk. simpl. apply list_lookup_insert_ne. lia.
  - simpl. apply list_lookup_insert_eq. lia.
  - unfold tracked, st'. simpl. rewrite Hdata, elem_of_app, list_elem_of_singleton. auto.
  - intros Hin. apply Hnew, (sd_tracked _ _ Hs _ Hin).
  - intros e He Hid. destruct (sd_ids _ _ Hs Hc) as [_ Hids].
    destruct (Hids e He) as (id & Hid' & Hin & _). congruence.
Qed.

Lemma screened_skip i st call :
  screened i st -> compact = true -> calls !! i = Some call -> screened (S i) st.
Proof using Type.
  intros Hs Hc Hcall. pose proof (sd_count _ _ Hs).
  apply (screened_mono i _ st); auto with lia. congruence.
Qed.

Lemma screen_loop_screened rest i st :
  screened i st -> drop i calls = rest -> (i <= length calls)%nat ->
  Forall (fun call => is_Some (tc_name call)) rest ->
  (compact = true -> length calls <= length (sc_indices st0))%nat ->
  exists st' status, screen_loop cb env compact i rest (length calls) st = Some (st', status) /\
    screened (length calls) st'.
Proof using FS.
  intros Hs Hdrop Hi Hnames Hidx. revert i st Hs Hdrop Hi.
  induction Hnames as [|call rest Hname Hnames IH]; intros i st Hs Hdrop Hi; cbn [screen_loop].
  { exists st, 0%Z. split; [done|]. apply (f_equal length) in Hdrop.
    rewrite length_drop in Hdrop. simpl in Hdrop. by replace (length calls) with i by lia. }
  assert (calls !! i = Some call) as Hcall by (by rewrite <- (Nat.add_0_r i), <- lookup_drop, Hdrop).
  apply lookup_lt_Some in Hcall as Hlt.
  assert (drop (S i) calls = rest) as Hdrop'.
  { rewrite <- Nat.add_1_r, <- drop_drop, Hdrop. done. }
  destruct (be_pending env i).
  { eexists _, _. split; [done|]. by apply screened_interrupted. }
  assert (forall st1, screened i st1 ->
    (compact = true -> sc_indices st1 !! sc_count st1 = Some i /\ tc_id call ∈ tracked st1 /\
       tc_id call ∉ tracked st0 /\ forall e, e ∈ sc_approved st1 -> entry_id e <> Some (tc_id call)) ->
    exists st' status,
      match screen_call cb env compact i call rest (length calls) st1 with
      | None => None
      | Some (Continue st) => screen_loop cb env compact (S i) rest (length calls) st
      | Some (Break st status) => Some (st, status)
      end = Some (st', status) /\ screened (length calls) st') as Hscreen.
  { intros st1 Hs1 Hprep. destruct (screened_call i call rest st1 Hs1 Hdrop Hname Hprep) as (step & -> & Hstep).
    destruct step as [st'|st' status]; [apply IH; auto with lia|eexists _, _; split; [done|apply Hstep]]. }
  destruct compact eqn:Ec; [|apply Hscreen; [done|congruence]].
  destruct (tool_orchestration_is_duplicate (sc_orch st) (Some (tc_id call))) eqn:Ed.
  { apply IH; auto with lia. eapply screened_skip; eauto. }
  pose proof (mark_executed_data (be_dup_ok env i) (be_grow_ok env i) (sc_orch st) (tc_id call)) as Hm.
  destruct (tool_orchestration_mark_executed _ _ _ _) as [orch rc].
  destruct Hm as [(-> & Hdata & Hsp)|[-> ->]]; cbn [Z.eqb negb].
  - edestruct (screened_marked i call rest st orch) as [H1 H2]; eauto.
  - apply IH; auto with lia. eapply (screened_skip i) in Hs; [|eauto..]. by destruct st.
Qed.
End Safety.

(** ** Direct mode: what the screening writes *)

Section Direct.
Context {R : Regex} {J : CJson} {F : Fnmatch} {FS : FnmatchSpec F} (cb : ApprovalGateCallbacks)
  (env : BatchEnv) (calls : list ToolCall) (st0 : Screen R).
Implicit Types (st : Screen R).

(** The slots from [j] on hold errors of the calls [rest], the others are
    unchanged. *)
Definition filled_from (j : nat) (rest : list ToolCall) (rs rs' : list ToolResult) : Prop :=
  (forall k, (k < j)%nat -> rs' !! k = rs !! k) /\
  forall k call r, rest !! k = Some call -> rs !! (j + k)%nat = Some r ->
    exists r', rs' !! (j + k)%nat = Some r' /\ error_result call r r'.

Lemma filled_from_cons j call rest rs rs' f :
  (forall r, error_result call r (f r)) -> filled_from (S j) rest (alter f j rs) rs' ->
  filled_from j (call :: rest) rs rs'.
Proof using Type.
  intros Hf [H1 H2]. split.
  - intros k Hk. rewrite H1 by lia. apply list_lookup_alter_ne. lia.
  - intros [|k] c r Hc Hr; simpl in Hc.
    + rewrite Nat.add_0_r in *. simplify_eq. exists (f r). split; [|done].
      rewrite H1 by lia. by rewrite list_lookup_alter_eq, Hr.
    + rewrite Nat.add_succ_r in *. apply (H2 k); [done|]. rewrite list_lookup_alter_ne by lia. done.
Qed.

Lemma filled_from_nil j rs : filled_from j [] rs rs.
Proof using Type. split; [done|]. intros k c r Hc. by rewrite lookup_nil in Hc. Qed.

Lemma fill_aborted_from j rest st :
  filled_from j rest (sc_results st) (sc_results (fill_remaining_aborted j rest st)).
Proof using Type.
  revert j st. induction rest as [|call rest IH]; intros j st; cbn [fill_remaining_aborted];
    [apply filled_from_nil|].
  eapply (filled_from_cons _ _ _ _ _ (fun r => fill_error_result r (tc_id call) ABORTED_JSON));
    [done|apply (IH (S j) (fill_slot j call ABORTED_JSON st))].
Qed.

Lemma fill_interrupted_from j rest st :
  filled_from j rest (sc_results st) (sc_results (fill_remaining_interrupted false j rest st)).
Proof using Type.
  revert j st. induction rest as [|call rest IH]; intros j st; cbn [fill_remaining_interrupted andb];
    [apply filled_from_nil|].
  eapply (filled_from_cons _ _ _ _ _ (fun r => fill_error_result r (tc_id call) INTERRUPTED_JSON)); [done|].
  apply (IH (S j) (set_count (S (sc_count st)) (fill_slot j call INTERRUPTED_JSON st))).
Qed.

(** After the screening of the first [i] calls: an approved call's slot is as
    it was, every other screened call has its error. *)
Definition direct_results (i : nat) st : Prop :=
  forall j call, calls !! j = Some call ->
    ((j < i)%nat -> j ∉ map slot (sc_approved st) ->
      exists r r', sc_results st0 !! j = Some r /\ sc_results st !! j = Some r' /\ error_result call r r') /\
    ((i <= j)%nat \/ j ∈ map slot (sc_approved st) -> sc_results st !! j = sc_results st0 !! j).

Lemma direct_fill i rest st st' :
  direct_results i st -> drop i calls = rest -> (length calls <= length (sc_results st0))%nat ->
  (forall k, k ∈ map slot (sc_approved st) -> (k < i)%nat) -> sc_approved st' = sc_approved st ->
  filled_from i rest (sc_results st) (sc_results st') -> direct_results (length calls) st'.
Proof using Type.
  intros Hd Hdrop Hlen Hlt Ha [H1 H2] j call Hcall. destruct (Hd j call Hcall) as [D1 D2].
  rewrite Ha. destruct (decide (j < i)%nat) as [Hj|Hj].
  - rewrite H1 by done. split; [intros _ Hn; by apply D1|].
    intros [?|Hin]; [apply lookup_lt_Some in Hcall; lia|by apply D2; right].
  - split.
    + intros _ _. destruct (lookup_lt_is_Some_2 (sc_results st0) j) as [r Hr].
      { apply lookup_lt_Some in Hcall. lia. }
      destruct (H2 (j - i)%nat call r) as (r' & Hr' & He).
      { by rewrite <- Hdrop, lookup_drop, Nat.add_sub_assoc, Nat.add_sub_swap, Nat.sub_diag by lia. }
      { replace (i + (j - i))%nat with j by lia. rewrite D2 by (left; lia). done. }
      replace (i + (j - i))%nat with j in Hr' by lia. eauto.
    + intros [?|Hin]; [apply lookup_lt_Some in Hcall; lia|]. apply Hlt in Hin. lia.
Qed.

Lemma screened_slots i st :
  screened cb false calls st0 i st -> forall k, k ∈ map slot (sc_approved st) -> (k < i)%nat.
Proof using Type.
  intros Hs k (e & -> & He)%list_elem_of_fmap. destruct (sd_entries _ _ _ _ _ _ Hs e He) as (_ & H & _).
  pose proof (sd_count _ _ _ _ _ _ Hs). lia.
Qed.

Lemma direct_refused i call st st' :
  direct_results i st -> calls !! i = Some call -> (length calls <= length (sc_results st0))%nat ->
  (forall k, k ∈ map slot (sc_approved st) -> (k < i)%nat) ->
  sc_approved st' = sc_approved st -> error_stored i call (sc_results st) (sc_results st') ->
  direct_results (S i) st'.
Proof using Type.
  intros Hd Hi Hlen Hlt Ha (f & Hr & Hf) j c Hc. destruct (Hd j c Hc) as [D1 D2].
  rewrite Ha, Hr. destruct (decide (j = i)) as [->|Hji].
  - simplify_eq. split.
    + intros _ _. destruct (lookup_lt_is_Some_2 (sc_results st0) i) as [r Hr0].
      { apply lookup_lt_Some in Hi. lia. }
      exists r, (f r). split; [done|]. split; [|done]. by rewrite list_lookup_alter_eq, D2, Hr0 by auto.
    + intros [?|Hin]; [lia|]. apply Hlt in Hin. lia.
  - rewrite list_lookup_alter_ne by done. split; [intros H; apply D1; lia|].
    intros [?|Hin]; apply D2; [left; lia|by right].
Qed.

Lemma direct_admitted i st st' call name :
  direct_results i st -> calls !! i = Some call ->
  sc_approved st' = sc_approved st ++ [make_entry env i i name] ->
  sc_results st' = sc_results st -> direct_results (S i) st'.
Proof using Type.
  intros Hd Hi Ha Hr j c Hc. destruct (Hd j c Hc) as [D1 D2]. rewrite Ha, Hr, map_app.
  setoid_rewrite elem_of_app. setoid_rewrite list_elem_of_singleton. simpl. split.
  - intros Hj Hn. apply D1; [|tauto]. assert (j <> i) by tauto. lia.
  - intros [?|[?| ->]]; apply D2; auto with lia.
Qed.

Lemma screen_loop_direct rest i st st' status :
  screened cb false calls st0 i st -> direct_results i st -> drop i calls = rest ->
  (i <= length calls)%nat -> Forall (fun call => is_Some (tc_name call)) rest ->
  (length calls <= length (sc_results st0))%nat ->
  screen_loop cb env false i rest (length calls) st = Some (st', status) ->
  direct_results (length calls) st'.
Proof using FS.
  intros Hs Hd Hdrop Hi Hnames Hlen. revert i st Hs Hd Hdrop Hi.
  induction Hnames as [|call rest Hname Hnames IH]; intros i st Hs Hd Hdrop Hi; cbn [screen_loop].
  { intros [= <- _]. apply (f_equal length) in Hdrop.
    rewrite length_drop in Hdrop. simpl in Hdrop. by replace (length calls) with i by lia. }
  assert (calls !! i = Some call) as Hcall by (by rewrite <- (Nat.add_0_r i), <- lookup_drop, Hdrop).
  apply lookup_lt_Some in Hcall as Hlt.
  assert (drop (S i) calls = rest) as Hdrop' by (by rewrite <- Nat.add_1_r, <- drop_drop, Hdrop).
  pose proof (screened_slots i st Hs) as Hsl.
  destruct (be_pending env i).
  { intros E. assert (st' = fill_remaining_interrupted false i (call :: rest) st) as -> by (by injection E).
    eapply (direct_fill i (call :: rest) st); try done.
    - apply (fill_interrupted_frame false i (call :: rest) st).
    - apply fill_interrupted_from. }
  destruct (screened_call cb env false calls st0 i call rest st) as (step & E & Hstep); try done.
  rewrite E. destruct (screen_call_outcome cb env false i call rest (length calls) st Hname) as (step' & E' & Ho).
  rewrite E in E'. injection E' as <-.
  destruct Ho as [st1 _ Hc Ha Hst|st1 name _ Hc _ Ha Hr _ _|st1 st2 _ Hc Ha Hst ->].
  - apply IH; try done. by eapply direct_refused.
  - apply IH; try done. by eapply direct_admitted.
  - intros [= <- _].
    assert (direct_results (S i) st1) as Hd1 by (by eapply direct_refused).
    eapply (direct_fill (S i) rest st1); try done.
    + rewrite Ha. intros k Hk. apply Hsl in Hk. lia.
    + apply (fill_aborted_frame (S i) rest st1).
    + apply fill_aborted_from.
Qed.
End Direct.

(** ** Execution in any order *)

(** Thread-safe tools do not observe each other: two executions give the same
    results and the same state in both orders. *)
Definition independent {T} (rt : ToolRuntime T) : Prop :=
  forall e1 e2 c1 c2 r1 r2 s, thread_safe e1 = true -> thread_safe e2 = true ->
    let '(a1, s1) := execute_single_tool rt c1 e1 r1 s in
    let '(a2, s2) := execute_single_tool rt c2 e2 r2 s1 in
    let '(b2, t1) := execute_single_tool rt c2 e2 r2 s in
    let '(b1, t2) := execute_single_tool rt c1 e1 r1 t1 in
    a1 = b1 /\ a2 = b2 /\ s2 = t2.

Lemma run_entry_swap {T} (rt : ToolRuntime T) calls m e1 e2 :
  independent rt -> thread_safe e1 = true -> thread_safe e2 = true -> slot e1 <> slot e2 ->
  run_entry rt calls (run_entry rt calls m e1) e2 = run_entry rt calls (run_entry rt calls m e2) e1.
Proof.
  intros Hind H1 H2 Hne. destruct m as [rs s]. unfold run_entry. cbn [fst snd].
  destruct (calls !! call_index e1) as [c1|] eqn:C1; [|by destruct (calls !! call_index e2)].
  destruct (rs !! slot e1) as [r1|] eqn:R1.
  2: { destruct (calls !! call_index e2) as [c2|]; cbn [fst snd]; [|by rewrite ?R1].
       destruct (rs !! slot e2) as [r2|]; cbn [fst snd]; [|by rewrite ?R1].
       destruct (execute_single_tool rt c2 e2 r2 s). cbn [fst snd].
       by rewrite list_lookup_insert_ne, R1 by done. }
  destruct (calls !! call_index e2) as [c2|] eqn:C2.
  2: { destruct (execute_single_tool rt c1 e1 r1 s) eqn:X1. cbn [fst snd]. by rewrite R1, X1. }
  destruct (rs !! slot e2) as [r2|] eqn:R2.
  - pose proof (Hind e1 e2 c1 c2 r1 r2 s H1 H2) as Hx.
    destruct (execute_single_tool rt c1 e1 r1 s) as [a1 s1].
    destruct (execute_single_tool rt c2 e2 r2 s) as [b2 t1]. cbn [fst snd].
    rewrite !list_lookup_insert_ne, R1, R2 by done.
    destruct (execute_single_tool rt c2 e2 r2 s1) as [a2 s2].
    destruct (execute_single_tool rt c1 e1 r1 t1) as [b1 t2].
    destruct Hx as (-> & -> & ->). by rewrite list_insert_insert_ne by done.
  - destruct (execute_single_tool rt c1 e1 r1 s) eqn:X1. cbn [fst snd].
    by rewrite list_lookup_insert_ne, R2, R1, X1 by done.
Qed.

Lemma run_entries_perm {T} (rt : ToolRuntime T) calls l k m :
  independent rt -> l ≡ₚ k -> NoDup (map slot l) -> Forall (fun e => thread_safe e = true) l ->
  run_entries rt calls m l = run_entries rt calls m k.
Proof.
  intros Hind Hp. revert m. induction Hp as [|e l k Hp IH|e1 e2 l|l1 l2 l3 Hp1 IH1 Hp2 IH2];
    intros m Hn Hs; unfold run_entries in *; cbn [foldl map] in *.
  - done.
  - apply NoDup_cons in Hn as [_ Hn]. apply Forall_cons in Hs as [_ Hs]. by apply IH.
  - apply NoDup_cons in Hn as [Hn _]. apply Forall_cons in Hs as [S1 Hs].
    apply Forall_cons in Hs as [S2 _]. rewrite run_entry_swap; try done.
    intros E. apply Hn. rewrite E. by left.
  - rewrite IH1 by done. apply IH2.
    + by rewrite <- Hp1.
    + by rewrite <- Hp1.
Qed.

(** The start of a batch. *)
Lemma screened_start {R : Regex} {J : CJson} {F : Fnmatch} cb compact calls
    (orch : ToolOrchestrationContext R) w results indices :
  let st := mkScreen orch w results indices 0 [] in screened cb compact calls st 0 st.
Proof.
  assert (forall e : PreScreenEntry, e ∉ []) as Hnil by apply not_elem_of_nil.
  split; simpl; try done; try (by constructor); try (intros e; set_solver).
  intros _. split; [constructor|set_solver].
Qed.

(** ** The consultations of the door

    The approval check is asked about calls of the batch, in their order and
    about each at most once. The first consultation meets the gate and the
    world the batch starts with, each later one those the consultation before
    it left; between two of them only the identifiers recorded and the
    subagent flag change. The log has the index of each call asked about and
    the answer. *)

Section Consultations.
Context {R : Regex} {J : CJson} {F : Fnmatch} (cb : ApprovalGateCallbacks) (calls : list ToolCall).

Inductive consulted : nat -> ToolOrchestrationContext R -> World -> list (nat * Z) ->
    ToolOrchestrationContext R -> World -> Prop :=
| ConsultedEnd i orch w orch' : gate_config orch' = gate_config orch -> consulted i orch w [] orch' w
| ConsultedCall i j orch orch1 w call answer orch2 w2 err log orch' w' :
    (i <= j)%nat -> calls !! j = Some call -> gate_config orch1 = gate_config orch ->
    tool_orchestration_check_approval cb orch1 call true w = Some (answer, orch2, w2, err) ->
    consulted (S j) orch2 w2 log orch' w' ->
    consulted i orch w ((j, answer) :: log) orch' w'.

(** The indices of the calls the check let through. *)
Definition let_through (log : list (nat * Z)) : list nat :=
  (filter (fun entry => entry.2 = 0%Z) log).*1.

Lemma consulted_earlier i k orch0 orch w log orch' w' :
  consulted k orch w log orch' w' -> (i <= k)%nat -> gate_config orch0 = gate_config orch ->
  consulted i orch0 w log orch' w'.
Proof using Type.
  intros [i' o w0 o' Hg|i' j o o1 w0 call answer o2 w2 err l o' w0' Hj Hcall Hg Hc Hl] Hi Ho.
  - apply ConsultedEnd. congruence.
  - eapply ConsultedCall; [|done| |done|done]; [lia|congruence].
Qed.

Lemma consulted_keeps_gate i orch w log orch' w' orch'' :
  consulted i orch w log orch' w' -> gate_config orch'' = gate_config orch' ->
  consulted i orch w log orch'' w'.
Proof using Type.
  induction 1 as [i o w0 o' Hg|i j o o1 w0 call answer o2 w2 err l o' w0' Hj Hcall Hg Hc Hl IH]; intros H.
  - apply ConsultedEnd. congruence.
  - eapply ConsultedCall; [done..|]. by apply IH.
Qed.

End Consultations.

Section Screening.
Context {R : Regex} {J : CJson} {F : Fnmatch} {FS : FnmatchSpec F} (cb : ApprovalGateCallbacks)
  (env : BatchEnv) (compact : bool) (calls : list ToolCall).
Implicit Types (st : Screen R).

(** The part of the screening from call [i] on: the consultations it makes,
    the entries it adds, and, when it is not cut short, the calls it asks
    about. *)
Definition screened_by_door (i : nat) st st' (status : Z) : Prop :=
  exists log new,
    consulted cb calls i (sc_orch st) (sc_world st) log (sc_orch st') (sc_world st') /\
    sc_approved st' = sc_approved st ++ new /\ map call_index new = let_through log /\
    (status = 0%Z -> compact = false -> forall j call, (i <= j)%nat -> calls !! j = Some call ->
       tc_name call <> Some (cs "subagent") -> j ∈ log.*1).

(** A call that is not asked about. *)
Lemma door_skip i call st1 st st' status :
  calls !! i = Some call -> (compact = false -> tc_name call = Some (cs "subagent")) ->
  gate_config (sc_orch st) = gate_config (sc_orch st1) -> sc_world st = sc_world st1 ->
  sc_approved st = sc_approved st1 ->
  screened_by_door (S i) st st' status -> screened_by_door i st1 st' status.
Proof using Type.
  intros Hcall Hname Hg Hw Ha (log & new & Hc & Hn & Hm & Hall). exists log, new. rewrite <- Hw, <- Ha.
  split; [eapply consulted_earlier; [exact Hc|lia|done]|]. split; [done|]. split; [done|].
  intros Hs Hd j c Hj Hcj Hnc. destruct (decide (j = i)) as [->|Hne]; [|apply (Hall Hs Hd j c); [lia|done..]].
  rewrite Hcall in Hcj. injection Hcj as <-. by destruct (Hnc (Hname Hd)).
Qed.

(** A call that is asked about, and what the rest of the screening does. *)
Lemma door_asked i call st1 st st' orch1 w1 answer orch2 err status extra :
  calls !! i = Some call -> gate_config orch1 = gate_config (sc_orch st1) -> w1 = sc_world st1 ->
  tool_orchestration_check_approval cb orch1 call true w1 = Some (answer, orch2, sc_world st, err) ->
  sc_orch st = orch2 -> sc_approved st = sc_approved st1 ++ extra ->
  map call_index extra = (if bool_decide (answer = 0%Z) then [i] else []) ->
  screened_by_door (S i) st st' status -> screened_by_door i st1 st' status.
Proof using Type.
  intros Hcall Hg -> E Ho Ha Hx (log & new & Hc & Hn & Hm & Hall).
  exists ((i, answer) :: log), (extra ++ new). split.
  { eapply ConsultedCall; [reflexivity|exact Hcall|exact Hg|exact E|]. by rewrite <- Ho. }
  split; [by rewrite Hn, Ha, (assoc_L (++))|]. split.
  - rewrite map_app, Hx, Hm. unfold let_through. rewrite filter_cons. cbn [snd].
    case_bool_decide; case_decide; by try done.
  - intros Hs Hd j c Hj Hcj Hnc. cbn [fmap list_fmap fst].
    destruct (decide (j = i)) as [->|Hne]; [by left|]. right. apply (Hall Hs Hd j c); [lia|done..].
Qed.

(** Nothing more is asked. *)
Lemma door_stop i st st' status :
  sc_orch st' = sc_orch st -> sc_world st' = sc_world st -> sc_approved st' = sc_approved st ->
  status <> 0%Z \/ (length calls <= i)%nat -> screened_by_door i st st' status.
Proof using Type.
  intros Ho Hw Ha Hs. exists [], []. rewrite app_nil_r, Ho, Hw. split; [by apply ConsultedEnd|].
  split; [done|]. split; [done|]. intros -> _ j c Hj Hcj. apply lookup_lt_Some in Hcj.
  destruct Hs; [done|lia].
Qed.

Lemma fill_aborted_door j rest st :
  sc_orch (fill_remaining_aborted j rest st) = sc_orch st /\
  sc_world (fill_remaining_aborted j rest st) = sc_world st /\
  sc_approved (fill_remaining_aborted j rest st) = sc_approved st.
Proof using Type.
  revert j st. induction rest as [|c rest IH]; intros j st; cbn [fill_remaining_aborted]; [done|].
  apply (IH (S j) (fill_slot j c ABORTED_JSON st)).
Qed.

Lemma fill_interrupted_door j rest st :
  sc_orch (fill_remaining_interrupted compact j rest st) = sc_orch st /\
  sc_world (fill_remaining_interrupted compact j rest st) = sc_world st /\
  sc_approved (fill_remaining_interrupted compact j rest st) = sc_approved st.
Proof using Type.
  revert j st. induction rest as [|c rest IH]; intros j st; cbn [fill_remaining_interrupted]; [done|].
  destruct (compact && _); [apply IH|].
  match goal with |- context [fill_remaining_interrupted _ _ _ ?s] => destruct (IH (S j) s) as (H1 & H2 & H3) end.
  rewrite H1, H2, H3. by destruct compact.
Qed.

Lemma can_spawn_gate (orch orch' : ToolOrchestrationContext R) name ok :
  tool_orchestration_can_spawn_subagent orch (Some name) = (orch', ok) ->
  gate_config orch' = gate_config orch /\ (ok = false -> name = cs "subagent").
Proof using Type.
  unfold tool_orchestration_can_spawn_subagent.
  destruct (streq_spec name (cs "subagent")) as [Hs|Hs]; cbn [negb]; [|by intros [= <- <-]].
  by destruct (subagent_spawned orch); intros [= <- <-].
Qed.

Lemma screen_call_door i call rest st1 st status step :
  calls !! i = Some call -> gate_config (sc_orch st) = gate_config (sc_orch st1) ->
  sc_world st = sc_world st1 -> sc_approved st = sc_approved st1 ->
  screen_call cb env compact i call rest (length calls) st = Some step ->
  forall st', match step with
              | Continue st2 => screened_by_door (S i) st2 st' status
              | Break st2 s => st2 = st' /\ s = status
              end -> screened_by_door i st1 st' status.
Proof using FS.
  intros Hcall Hg Hw Ha. unfold screen_call. destruct (tc_name call) as [name|] eqn:Hname; [|done].
  destruct (tool_orchestration_can_spawn_subagent _ _) as [orch ok] eqn:Es.
  apply can_spawn_gate in Es as [Hg1 Hsub]. destruct ok; cbn [negb].
  2: { intros [= <-] st'. eapply door_skip; [exact Hcall| |simpl; congruence|simpl; congruence|done].
       intros _. rewrite Hname. f_equal. by apply Hsub. }
  cbn [sc_orch set_orch sc_world].
  destruct (check_approval_consent cb orch call true (sc_world st))
    as (code & orch' & w' & err & E & Hcode & _).
  rewrite E. set (s2 := store_refusal cb env _ call err _).
  assert (sc_orch s2 = orch' /\ sc_world s2 = w' /\ sc_approved s2 = sc_approved st1) as (Ho2 & Hw2 & Ha2).
  { unfold s2, store_refusal. by destruct err. }
  assert (forall st2 st' extra, sc_orch st2 = orch' -> sc_world st2 = w' ->
    sc_approved st2 = sc_approved st1 ++ extra ->
    map call_index extra = (if bool_decide (code = 0%Z) then [i] else []) ->
    screened_by_door (S i) st2 st' status -> screened_by_door i st1 st' status) as Hask.
  { intros st2 st' extra Ho Hw3 Ha3 Hx. eapply (door_asked i call st1 st2 st' orch (sc_world st) code orch' err);
      [done|congruence|done|by rewrite Hw3|done|done|done]. }
  destruct Hcode as [->|[->| ->]]; cbn [Z.eqb Pos.eqb]; intros [= <-] st'.
  - eapply (Hask _ _ [make_entry env i _ name]); [done|done|cbn; by rewrite Ha2|done].
  - apply (Hask _ _ []); [done|done|by rewrite app_nil_r|done].
  - intros [<- <-]. set (st2 := set_count (S (sc_count s2)) (fill_slot _ call ABORTED_JSON s2)).
    apply (Hask st2 _ []); [done|done|by rewrite app_nil_r|done|].
    destruct (fill_aborted_door (S i) rest st2) as (F1 & F2 & F3).
    destruct compact; apply door_stop; try done; by left.
Qed.

Lemma screen_loop_door rest i st st' status :
  drop i calls = rest -> screen_loop cb env compact i rest (length calls) st = Some (st', status) ->
  screened_by_door i st st' status.
Proof using FS.
  revert i st. induction rest as [|call rest IH]; intros i st Hdrop; cbn [screen_loop].
  { intros [= <- <-]. apply door_stop; try done. right.
    apply (f_equal length) in Hdrop. rewrite length_drop in Hdrop. simpl in Hdrop. lia. }
  assert (calls !! i = Some call) as Hcall by (by rewrite <- (Nat.add_0_r i), <- lookup_drop, Hdrop).
  assert (drop (S i) calls = rest) as Hdrop' by (by rewrite <- Nat.add_1_r, <- drop_drop, Hdrop).
  destruct (be_pending env i).
  { intros [= <- <-]. destruct (fill_interrupted_door i (call :: rest) st) as (H1 & H2 & H3).
    apply door_stop; try done. by left. }
  assert (forall st1, gate_config (sc_orch st1) = gate_config (sc_orch st) ->
    sc_world st1 = sc_world st -> sc_approved st1 = sc_approved st ->
    match screen_call cb env compact i call rest (length calls) st1 with
    | None => None
    | Some (Continue s) => screen_loop cb env compact (S i) rest (length calls) s
    | Some (Break s e) => Some (s, e)
    end = Some (st', status) -> screened_by_door i st st' status) as Hscreen.
  { intros st1 Hg Hw Ha. destruct (screen_call _ _ _ _ _ _ _ st1) as [step|] eqn:E; [|done]. intros Hr.
    eapply (screen_call_door i call rest st st1); try done.
    destruct step as [s|s e]; [by apply IH|by injection Hr as -> ->]. }
  destruct compact eqn:Ec; [|by apply Hscreen].
  destruct (tool_orchestration_is_duplicate (sc_orch st) (Some (tc_id call))).
  { intros Hr. apply (door_skip i call st st st'); try done; [by rewrite Ec|by apply IH]. }
  pose proof (mark_executed_gate (be_dup_ok env i) (be_grow_ok env i) (sc_orch st) (tc_id call)) as Hm.
  destruct (tool_orchestration_mark_executed _ _ _ _) as [orch rc]. cbn [fst] in Hm.
  destruct (negb (rc =? 0)%Z); [|by apply Hscreen].
  intros Hr. apply (door_skip i call st (set_orch orch st) st'); try done; [by rewrite Ec|by apply IH].
Qed.
End Screening.

(** What the entries [order] run by a batch satisfy, with the identifiers
    recorded before it and the count and the call_indices it reports. *)
Record well_run {J : CJson} (compact : bool) (calls : list ToolCall) (before : list cstr) (count : nat)
    (indices : list nat) (order : list PreScreenEntry) : Prop := {
  wr_calls : NoDup (map call_index order);
  wr_slots : NoDup (map slot order);
  wr_ids : compact = true -> NoDup (map (entry_id calls) order);
  wr_subagent : forall e e', e ∈ order -> e' ∈ order -> entry_name calls e = Some (cs "subagent") ->
    entry_name calls e' = Some (cs "subagent") -> e = e';
  wr_entry : forall e, e ∈ order -> exists call,
    calls !! call_index e = Some call /\ (slot e < count)%nat /\
    (if compact then indices !! slot e = Some (call_index e) else slot e = call_index e) /\
    (is_file_write_tool (tc_name call) = true ->
     forall path, tool_args_get_path call = Some path -> ~ protected_name (components path)) /\
    (compact = true -> tc_id call ∉ before)
}.

Lemma well_run_nothing {J : CJson} compact calls before count indices : well_run compact calls before count indices [].
Proof. split; simpl; try (by constructor); intros e; set_solver. Qed.

(** What the door has to say: the calls run are those it let through, unless
    the batch is cut short, and then none. *)
Record door_kept {R : Regex} {J : CJson} {F : Fnmatch} cb (compact : bool) (calls : list ToolCall)
    (orch : ToolOrchestrationContext R) (w : World) (status : Z) (orch' : ToolOrchestrationContext R)
    (w' : World) (order : list PreScreenEntry) (log : list (nat * Z)) : Prop := {
  dk_consulted : consulted cb calls 0 orch w log orch' w';
  dk_order : order = [] \/ map call_index order ≡ₚ let_through log;
  dk_all : status = 0%Z -> map call_index order ≡ₚ let_through log;
  dk_asked : status = 0%Z -> compact = false -> forall i call, calls !! i = Some call ->
    tc_name call <> Some (cs "subagent") -> i ∈ log.*1
}.

Lemma screened_well_run {R : Regex} {J : CJson} {F : Fnmatch} {FS : FnmatchSpec F} cb compact calls
    (st0 st : Screen R) order :
  screened cb compact calls st0 (length calls) st -> order ≡ₚ sc_approved st ->
  well_run compact calls (data (executed_tracker (sc_orch st0))) (sc_count st) (sc_indices st) order.
Proof.
  intros Hs Hp. split; rewrite ?Hp; try apply Hs.
  - intros e e'. rewrite Hp. apply Hs.
  - intros e. rewrite Hp. intros He.
    destruct (sd_entries _ _ _ _ _ _ Hs e He) as (H1 & H2 & H3 & call & Hcall & Hadm).
    exists call. split; [done|split; [done|split; [done|split]]].
    + destruct Hadm as (o & w & o' & w' & err & E).
      destruct (check_approval_consent cb o call true w) as (code & o2 & w2 & err2 & E2 & _ & Hz).
      rewrite E in E2. injection E2 as <- _ _ _. exact (proj1 (Hz eq_refl)).
    + intros Hc. destruct (sd_ids _ _ _ _ _ _ Hs Hc) as [_ Hids].
      destruct (Hids e He) as (id & Hid & _ & Hn). unfold entry_id in Hid. rewrite Hcall in Hid.
      simpl in Hid. injection Hid as ->. done.
Qed.

(** The world a batch starts its screening with: the protected inodes are
    scanned afresh. *)
Definition refreshed (w : World) : World :=
  set_protected (force_protected_inode_refresh (w_sys w) (w_protected w)) w.

(** A batch screens its calls and runs what was approved, or nothing. *)
Lemma batch_screened {R : Regex} {J : CJson} {F : Fnmatch} {FS : FnmatchSpec F} cb env
    compact {T} (rt : ToolRuntime T) schedule (orch : ToolOrchestrationContext R) w calls results indices s :
  Forall (fun call => is_Some (tc_name call)) calls ->
  (compact = true -> length calls <= length indices)%nat ->
  (forall l, schedule l ≡ₚ l) ->
  exists answer st0 st k order log,
    tool_batch_execute cb env compact rt schedule orch w calls results indices s = Some answer /\
    (ba_results T answer, ba_state T answer) = run_entries rt calls (sc_results st, s) order /\
    sc_orch st0 = orch /\ sc_results st0 = results /\ screened cb compact calls st0 k st /\ (k <= length calls)%nat /\
    ba_orch T answer = sc_orch st /\ ba_count T answer = sc_count st /\ ba_indices T answer = sc_indices st /\
    (order = [] \/ k = length calls /\ order ≡ₚ sc_approved st) /\
    door_kept cb compact calls orch (refreshed w) (ba_status T answer) (ba_orch T answer)
      (ba_world T answer) order log.
Proof.
  intros Hnames Hidx Hsched. unfold tool_batch_execute. fold (refreshed w).
  set (st0 := mkScreen orch (refreshed w) results indices 0 []).
  assert (screened cb compact calls st0 0 st0) as H0 by apply screened_start.
  destruct (be_calloc_ok env); cbn [negb].
  2: { eexists _, st0, st0, 0%nat, [], []. split; [done|]. split_and!; try done; [lia|by left|].
       split; cbn; try done; [by apply ConsultedEnd|by left]. }
  destruct (screen_loop_screened cb env compact calls st0 calls 0 st0) as (st & status & E & Hs); try done; [lia|].
  rewrite E. apply screen_loop_door in E as (log & new & Hc & Hn & Hm & Hall); [|done].
  cbn [sc_orch sc_world sc_approved app st0] in Hc, Hn.
  destruct (negb (status =? 0)%Z || (length (sc_approved st) =? 0)%nat) eqn:Hcut.
  { eexists _, st0, st, (length calls), [], log. split; [done|]. split_and!; try done; [by left|].
    split; cbn; [done|by left| |intros Hz Hd i call; apply (Hall Hz Hd); lia].
    intros ->. cbn in Hcut. apply Nat.eqb_eq, length_zero_iff_nil in Hcut. by rewrite <- Hm, <- Hn, Hcut. }
  set (order := if use_parallel (sc_approved st) then schedule (sc_approved st) else sc_approved st).
  assert (order ≡ₚ sc_approved st) as Hp by (unfold order; by destruct (use_parallel _)).
  destruct (run_entries rt calls (sc_results st, s) order) as [rs' s'] eqn:Er.
  apply orb_false_iff in Hcut as [Hz _]. apply negb_false_iff, Z.eqb_eq in Hz.
  assert (map call_index order ≡ₚ let_through log) as Hl by (by rewrite Hp, Hn, Hm).
  eexists _, st0, st, (length calls), order, log. split; [done|]. split_and!; try done; [by right|].
  split; cbn; [done|by right|done|]. intros _ Hd i call. apply (Hall Hz Hd). lia.
Qed.

(** ** Sample batches, for the witnesses *)

(** A quiet environment, and a runtime that counts the executions. *)
Definition quiet_batch : BatchEnv :=
  mkBatchEnv (fun _ => false) false true (fun _ => true) (fun _ => true) true
    [(cs "read_file", true)] (fun _ => None).

Definition counting_runtime : ToolRuntime nat :=
  mkRuntime nat (fun _ r s => (false, r, s)) (fun _ r s => (0%Z, r, S s)) (fun _ r s => (0%Z, r, S s))
    (fun c r s => (0%Z, mkToolResult (Some (tc_id c)) (tc_arguments c) true false, S s))
    (fun _ r s => (r, s)).

Definition read_call (id : string) : ToolCall :=
  mkToolCall (cs id) (Some (cs "read_file")) (Some (obj1 "path" "a")).

Lemma counting_independent : independent counting_runtime.
Proof.
  intros e1 e2 c1 c2 r1 r2 s _ _. unfold execute_single_tool. simpl.
  by destruct (is_mcp e1), (is_mcp e2), (is_plugin e1), (is_plugin e2).
Qed.

(** ** Properties *)

(** C7: a batch always ends, whatever is interrupted, refused or aborted. It
    consults the approval check about calls of the batch, in order and about
    each at most once, starting with the gate it was given and the world with
    the protected files scanned afresh, each consultation meeting the gate and
    the world the one before left and the batch ending with those the last one
    left. The calls it runs are exactly those this check answered 0 for, or
    none when the batch is cut short (it does not return 0 then); when it
    returns 0 in direct mode every call that is not for a subagent was asked
    about. Each call is run at most once, into a result slot of its own that
    belongs to it (the slot of the same index, or the slot whose entry in
    call_indices names the call), never a write to a protected name, at most
    one subagent, and in compact mode no identifier twice nor one that was
    already recorded. *)
Theorem batch_runs_screened_calls {R : Regex} {J : CJson} {F : Fnmatch} {FS : FnmatchSpec F} cb env
    compact {T} (rt : ToolRuntime T) schedule (orch : ToolOrchestrationContext R) w calls results indices s :
  Forall (fun call => is_Some (tc_name call)) calls ->
  (compact = true -> length calls <= length indices)%nat ->
  (forall l, schedule l ≡ₚ l) ->
  exists answer rs order log,
    tool_batch_execute cb env compact rt schedule orch w calls results indices s = Some answer /\
    (ba_results T answer, ba_state T answer) = run_entries rt calls (rs, s) order /\
    (ba_count T answer <= length calls)%nat /\ length rs = length results /\
    door_kept cb compact calls orch (refreshed w) (ba_status T answer) (ba_orch T answer)
      (ba_world T answer) order log /\
    well_run compact calls (data (executed_tracker orch)) (ba_count T answer) (ba_indices T answer) order.
Proof.
  intros Hnames Hidx Hsched.
  destruct (batch_screened cb env compact rt schedule orch w calls results indices s Hnames Hidx Hsched)
    as (answer & st0 & st & k & order & log & E & Hrun & Ho & Hr & Hs & Hk & _ & Hc & Hi & Horder & Hd).
  exists answer, (sc_results st), order, log. split; [exact E|]. split; [exact Hrun|]. rewrite Hc, Hi.
  split; [pose proof (sd_count _ _ _ _ _ _ Hs); lia|]. split; [by rewrite (sd_results _ _ _ _ _ _ Hs), Hr|].
  split; [exact Hd|].
  destruct Horder as [->|[-> Hp]]; [apply well_run_nothing|]. rewrite <- Ho.
  by apply (screened_well_run cb compact calls st0).
Qed.

Lemma batch_runs_screened_calls_witness :
  exists answer,
    tool_batch_execute no_callbacks quiet_batch true counting_runtime (fun l => l) gated_context
      (sample_world []) [read_call "1"; read_call "1"; read_call "2"] (repeat empty_result 3)
      [9; 9; 9]%nat 0%nat = Some answer /\
    ba_state nat answer = 2%nat /\ ba_count nat answer = 2%nat.
Proof.
  destruct (batch_runs_screened_calls no_callbacks quiet_batch true counting_runtime (fun l => l)
    gated_context (sample_world []) [read_call "1"; read_call "1"; read_call "2"]
    (repeat empty_result 3) [9; 9; 9]%nat 0%nat) as (answer & rs & order & log & H & _).
  - repeat constructor; eexists; reflexivity.
  - intros _. simpl. lia.
  - reflexivity.
  - exists answer. split; [exact H|]. vm_compute in H. injection H as <-. split; reflexivity.
Defined.

(** When the approved tools are thread safe, running a batch with one
    thread per call gives the same results and the same final state as running
    it serially, for every order in which the threads run: the slots are
    distinct, so no result is lost or overwritten. *)
Theorem parallel_batch_equals_serial {R : Regex} {J : CJson} {F : Fnmatch} {FS : FnmatchSpec F} cb env
    compact {T} (rt : ToolRuntime T) schedule (orch : ToolOrchestrationContext R) w calls results indices s :
  Forall (fun call => is_Some (tc_name call)) calls ->
  (compact = true -> length calls <= length indices)%nat ->
  (forall l, schedule l ≡ₚ l) -> independent rt ->
  tool_batch_execute cb env compact rt schedule orch w calls results indices s =
  tool_batch_execute cb env compact rt (fun l => l) orch w calls results indices s.
Proof.
  intros Hnames Hidx Hsched Hind. unfold tool_batch_execute.
  set (w1 := set_protected _ w). set (st0 := mkScreen orch w1 results indices 0 []).
  destruct (negb (be_calloc_ok env)); [done|].
  destruct (screen_loop_screened cb env compact calls st0 calls 0 st0) as (st & status & -> & Hs);
    [apply screened_start|done|lia|done|done|].
  destruct (negb (status =? 0)%Z || (length (sc_approved st) =? 0)%nat); [done|].
  destruct (use_parallel (sc_approved st)) eqn:Eu; [|done].
  apply andb_true_iff in Eu as [_ Hsafe].
  rewrite (run_entries_perm rt calls (schedule (sc_approved st)) (sc_approved st)); try done.
  - rewrite (Hsched (sc_approved st)). apply Hs.
  - rewrite (Hsched (sc_approved st)). apply Forall_forall. intros e He.
    rewrite forallb_forall in Hsafe. by apply Hsafe, list_elem_of_In.
Qed.

Lemma parallel_batch_equals_serial_witness :
  tool_batch_execute no_callbacks quiet_batch false counting_runtime (@rev _) gated_context
    (sample_world []) [read_call "1"; read_call "2"] (repeat empty_result 2) [] 0%nat =
  tool_batch_execute no_callbacks quiet_batch false counting_runtime (fun l => l) gated_context
    (sample_world []) [read_call "1"; read_call "2"] (repeat empty_result 2) [] 0%nat.
Proof.
  apply (parallel_batch_equals_serial no_callbacks quiet_batch false counting_runtime (@rev _)).
  - repeat constructor; eexists; reflexivity.
  - discriminate.
  - intros l. symmetry. apply Permutation_rev.
  - apply counting_independent.
Defined.

(** In direct mode a batch that is aborted or interrupted while it is
    screened runs nothing and reports every slot as executed, but only the
    slots of the calls that were not approved hold an error of their call: the
    slot of every call approved earlier in the batch is left as the caller
    passed it, empty. *)
Theorem stopped_batch_leaves_approved_slots {R : Regex} {J : CJson} {F : Fnmatch} {FS : FnmatchSpec F}
    cb env {T} (rt : ToolRuntime T) schedule (orch : ToolOrchestrationContext R) w calls results indices s st status :
  Forall (fun call => is_Some (tc_name call)) calls -> (length calls <= length results)%nat ->
  be_calloc_ok env = true ->
  screen_loop cb env false 0 calls (length calls)
    (mkScreen orch (set_protected (force_protected_inode_refresh (w_sys w) (w_protected w)) w)
       results indices 0 []) = Some (st, status) -> status <> 0%Z ->
  exists answer,
    tool_batch_execute cb env false rt schedule orch w calls results indices s = Some answer /\
    ba_status T answer = status /\ ba_state T answer = s /\ ba_count T answer = length calls /\
    forall j call, calls !! j = Some call ->
      (j ∈ map call_index (sc_approved st) -> ba_results T answer !! j = results !! j) /\
      (j ∉ map call_index (sc_approved st) -> exists r r',
         results !! j = Some r /\ ba_results T answer !! j = Some r' /\ error_result call r r').
Proof.
  set (w1 := set_protected _ w). set (st0 := mkScreen orch w1 results indices 0 []).
  intros Hnames Hlen Hcalloc Hloop Hst. unfold tool_batch_execute.
  fold w1. fold st0. rewrite Hcalloc, Hloop. cbn [negb].
  rewrite (proj2 (Z.eqb_neq status 0) Hst). cbn [negb orb].
  eexists. split; [done|]. split; [done|]. split; [done|]. cbn [ba_count ba_results].
  pose proof (screened_start cb false calls orch w1 results indices) as H0. fold st0 in H0.
  destruct (screen_loop_screened cb env false calls st0 calls 0 st0) as (st' & status' & E & Hs);
    [done|done|lia|done|done|].
  rewrite Hloop in E. injection E as <- <-. split; [by apply (sd_direct _ _ _ _ _ _ Hs)|].
  intros j call Hcall.
  destruct (screen_loop_direct cb env calls st0 calls 0 st0 st status) with (j := j) (call := call)
    as [D1 D2]; try done; [|lia|].
  { intros k c Hk. split; [lia|done]. }
  replace (map call_index (sc_approved st)) with (map slot (sc_approved st)).
  - split; [auto|]. intros Hn. apply D1; [by apply lookup_lt_Some in Hcall|done].
  - apply map_ext_in. intros e He%list_elem_of_In. by destruct (sd_entries _ _ _ _ _ _ Hs e He) as (_ & _ & -> & _).
Qed.

Lemma stopped_batch_leaves_approved_slots_witness :
  exists answer,
    tool_batch_execute no_callbacks quiet_batch false counting_runtime (fun l => l) gated_context
      (sample_world [Interrupt]) [read_call "1"; shell_call "make"] (repeat empty_result 2) [] 0%nat =
      Some answer /\
    ba_status nat answer = (-1)%Z /\ ba_count nat answer = 2%nat /\
    ba_results nat answer !! 0%nat = Some empty_result.
Proof.
  edestruct (stopped_batch_leaves_approved_slots no_callbacks quiet_batch counting_runtime (fun l => l)
    gated_context (sample_world [Interrupt]) [read_call "1"; shell_call "make"] (repeat empty_result 2)
    [] 0%nat) as (answer & H & Hs & _ & Hc & Hr).
  - repeat constructor; eexists; reflexivity.
  - simpl. lia.
  - reflexivity.
  - vm_compute. reflexivity.
  - discriminate.
  - exists answer. split; [exact H|]. split; [exact Hs|]. split; [exact Hc|].
    apply (Hr 0%nat (read_call "1") eq_refl). left.
Defined.
