(* ===== verification/SubagentApproval.v ===== *)
(** * Approval by proxy (lib/policy/subagent_approval.c)

    A subagent has no terminal: its gate sends a request through a pipe and
    the parent asks the user. The messages, their serialisation, the reading
    and writing of a pipe as streams of events, and the two sides of the
    protocol. Creating and closing the pipes is not modelled. *)

From S2P Require Import Prelude CString Regex RateLimiter Json ToolArgs ShellBase ShellParser PatternGenerator ApprovalGate GateDecision GateTheorems ApprovalPrompt ToolOrchestration.
Local Open Scope char_scope.
Local Open Scope bool_scope.

Definition APPROVAL_MSG_MAX_SIZE : nat := Z.to_nat 65536.

Record ApprovalRequest := mkRequest {
  rq_tool_name : option cstr;
  rq_arguments_json : option cstr;
  rq_display_summary : cstr;
  rq_request_id : Z
}.

Record ApprovalResponse := mkResponse {
  rs_request_id : Z;
  rs_result : ApprovalResult;
  rs_pattern : option cstr
}.

(** The values of the enumeration. *)
Definition result_code (r : ApprovalResult) : Z :=
  match r with
  | APPROVAL_ALLOWED => 0
  | APPROVAL_DENIED => 1
  | APPROVAL_ALLOWED_ALWAYS => 2
  | APPROVAL_ABORTED => 3
  | APPROVAL_RATE_LIMITED => 4
  | APPROVAL_NON_INTERACTIVE_DENIED => 5
  | APPROVAL_OTHER value => value
  end.

Definition result_of_code (z : Z) : ApprovalResult :=
  if (z =? 0)%Z then APPROVAL_ALLOWED
  else if (z =? 1)%Z then APPROVAL_DENIED
  else if (z =? 2)%Z then APPROVAL_ALLOWED_ALWAYS
  else if (z =? 3)%Z then APPROVAL_ABORTED
  else if (z =? 4)%Z then APPROVAL_RATE_LIMITED
  else if (z =? 5)%Z then APPROVAL_NON_INTERACTIVE_DENIED
  else APPROVAL_OTHER z.

(** ** Pipes *)

(** Bytes that one read can return, half a second (or the whole timeout)
    without any, or the end of the pipe. The end of the list is silence. *)
Inductive ReadEvent := Data (bytes : cstr) | Quiet | ReadEnd.

(** [Wrote n]: [n + 1] bytes were written. *)
Inductive WriteEvent := Wrote (n : nat) | WriteFailed (eintr : bool).

Fixpoint before_nul (b : cstr) : option cstr :=
  match b with
  | [] => None
  | c :: t => if Ascii.eqb c NUL then Some []
              else match before_nul t with Some a => Some (c :: a) | None => None end
  end.

(** The loop of read_message_with_timeout; [buffer] holds the bytes read so
    far. When the buffer is full the loop ends. *)
Fixpoint read_loop (buffer : cstr) (events : list ReadEvent) : option cstr * list ReadEvent :=
  if (APPROVAL_MSG_MAX_SIZE - 1 <=? length buffer)%nat then (Some buffer, events)
  else
    match events with
    | [] => (Some buffer, [])
    | Quiet :: events' => (Some buffer, events')
    | ReadEnd :: events' | Data [] :: events' =>
        match buffer with [] => (None, events') | _ => (Some buffer, events') end
    | Data bytes :: events' =>
        let room := (APPROVAL_MSG_MAX_SIZE - 1 - length buffer)%nat in
        let got := take room bytes in
        match before_nul got, drop room bytes with
        | Some a, [] => (Some (buffer ++ a), events')
        | Some a, unread => (Some (buffer ++ a), Data unread :: events')
        | None, [] => read_loop (buffer ++ got) events'
        | None, unread => (Some (buffer ++ got), Data unread :: events')
        end
    end.

(** [None]: a timeout, the end of the pipe, or no memory. *)
Definition read_message_with_timeout (malloc_ok : bool) (events : list ReadEvent)
    : option cstr * list ReadEvent :=
  match events with
  | [] => (None, [])
  | Quiet :: events' => (None, events')
  | _ => if negb malloc_ok then (None, events) else read_loop [] events
  end.

(** The return code and the bytes written; [None] when the pipe stays full. *)
Fixpoint write_loop (remaining sent : cstr) (events : list WriteEvent) : option (Z * cstr) :=
  match remaining with
  | [] => Some (0%Z, sent)
  | _ =>
      match events with
      | [] => None
      | Wrote n :: events' =>
          write_loop (drop (S n) remaining) (sent ++ take (S n) remaining) events'
      | WriteFailed true :: events' => write_loop remaining sent events'
      | WriteFailed false :: _ => Some ((-1)%Z, sent)
      end
  end.

Definition write_message (msg : cstr) (events : list WriteEvent) : option (Z * cstr) :=
  write_loop (msg ++ [NUL]) [] events.

Section Proxy.
Context {R : Regex} {J : CJson} (cb : ApprovalGateCallbacks).
(** What the conversion of a number outside the range of the target type
    gives: C leaves it undefined. *)
Context (out_of_range : Z -> Z).

Definition to_uint32 (z : Z) : Z := if (0 <=? z)%Z && (z <? 2 ^ 32)%Z then z else out_of_range z.
Definition to_int (z : Z) : Z := if (- 2 ^ 31 <=? z)%Z && (z <? 2 ^ 31)%Z then z else out_of_range z.

(** The counter is unsigned: the identifier used and the next one. *)
Definition next_request_id (g_next_request_id : Z) : Z * Z :=
  (g_next_request_id, ((g_next_request_id + 1) mod 2 ^ 32)%Z).

(** ** Messages *)

(** The argument shown for a tool, when the arguments parse and have it. *)
Definition summary_of (tool_call : ToolCall) (name key : cstr) : option cstr :=
  args ← parse_args tool_call;
  (fun v => name ++ cs ": " ++ v) <$> cJSON_IsString (cJSON_GetObjectItem args key).

Definition format_tool_summary (tool_call : ToolCall) : cstr :=
  match tc_name tool_call with
  | None => cs "[unknown tool]"
  | Some name =>
      let summary :=
        if streq name (cs "shell") then summary_of tool_call name (cs "command")
        else if streq name (cs "write_file") || streq name (cs "read_file")
        then summary_of tool_call name (cs "path")
        else if streq name (cs "web_fetch") then summary_of tool_call name (cs "url")
        else None in
      default name summary
  end.

Definition request_json (req : ApprovalRequest) : cJSON :=
  JObject [(cs "tool_name", JString (default [] (rq_tool_name req)));
           (cs "arguments_json", JString (default [] (rq_arguments_json req)));
           (cs "display_summary", JString (rq_display_summary req));
           (cs "request_id", JNumber (rq_request_id req))].

Definition serialize_approval_request (req : ApprovalRequest) : option cstr :=
  cJSON_PrintUnformatted (request_json req).

Definition deserialize_approval_request (json_str : cstr) : option ApprovalRequest :=
  json ← cJSON_Parse json_str;
  match cJSON_IsString (cJSON_GetObjectItem json (cs "tool_name")),
        cJSON_IsNumber (cJSON_GetObjectItem json (cs "request_id")) with
  | Some tool_name, Some request_id =>
      Some (mkRequest (Some tool_name)
        (Some (default [] (cJSON_IsString (cJSON_GetObjectItem json (cs "arguments_json")))))
        (default [] (cJSON_IsString (cJSON_GetObjectItem json (cs "display_summary"))))
        (to_uint32 request_id))
  | _, _ => None
  end.

Definition response_json (resp : ApprovalResponse) : cJSON :=
  JObject [(cs "request_id", JNumber (rs_request_id resp));
           (cs "result", JNumber (result_code (rs_result resp)));
           (cs "pattern", JString (default [] (rs_pattern resp)))].

Definition serialize_approval_response (resp : ApprovalResponse) : option cstr :=
  cJSON_PrintUnformatted (response_json resp).

Definition deserialize_approval_response (json_str : cstr) : option ApprovalResponse :=
  json ← cJSON_Parse json_str;
  match cJSON_IsNumber (cJSON_GetObjectItem json (cs "request_id")),
        cJSON_IsNumber (cJSON_GetObjectItem json (cs "result")) with
  | Some request_id, Some result =>
      Some (mkResponse (to_uint32 request_id) (result_of_code (to_int result))
        match cJSON_IsString (cJSON_GetObjectItem json (cs "pattern")) with
        | Some (c :: p) => Some (c :: p)
        | _ => None
        end)
  | _, _ => None
  end.

(** ** The subagent's side *)

(** The answer, the next identifier and the bytes sent; [None]: the write
    blocks. *)
Definition subagent_request_approval (malloc_ok : bool) (g_next_request_id : Z) (tool_call : ToolCall)
    (writes : list WriteEvent) (reads : list ReadEvent) : option (ApprovalResult * Z * cstr) :=
  let '(request_id, next) := next_request_id g_next_request_id in
  let req := mkRequest (tc_name tool_call) (tc_arguments tool_call)
               (format_tool_summary tool_call) request_id in
  match serialize_approval_request req with
  | None => Some (APPROVAL_DENIED, next, [])
  | Some serialized =>
      match write_message serialized writes with
      | None => None
      | Some (rc, sent) =>
          if (rc <? 0)%Z then Some (APPROVAL_DENIED, next, sent)
          else
            match (read_message_with_timeout malloc_ok reads).1 with
            | None => Some (APPROVAL_DENIED, next, sent)
            | Some response_str =>
                match deserialize_approval_response response_str with
                | None => Some (APPROVAL_DENIED, next, sent)
                | Some resp =>
                    if negb (rs_request_id resp =? request_id)%Z
                    then Some (APPROVAL_DENIED, next, sent)
                    else Some (rs_result resp, next, sent)
                end
            end
      end
  end.

(** ** The parent's side *)

(** [pv_channel]: the channel to the grandparent of a nested subagent. *)
Record ParentEnv := mkParentEnv {
  pv_SHELL : option cstr;
  pv_tty : bool;
  pv_channel : option (ToolCall -> ApprovalResult);
  pv_alloc : GateAlloc;
  pv_malloc_ok : bool
}.

Definition synthetic_call (req : ApprovalRequest) : ToolCall :=
  mkToolCall (cs "subagent-synthetic") (rq_tool_name req) (rq_arguments_json req).

(** The pattern of an "always" answer, added to the parent's allowlist. *)
Definition remember (env : ParentEnv) (config : ApprovalGateConfig R) (call : ToolCall)
    (result : ApprovalResult) : ApprovalGateConfig R * option cstr :=
  match result with
  | APPROVAL_ALLOWED_ALWAYS =>
      let '(gen_pattern, rc) := generate_allowlist_pattern cb (pv_SHELL env) call in
      if (rc =? 0)%Z then
        ((apply_generated_pattern (pv_alloc env) config (default [] (tc_name call)) gen_pattern).1,
         pattern gen_pattern)
      else (config, None)
  | _ => (config, None)
  end.

(** The return code, the configuration, the bytes sent, the keyboard input
    left. *)
Definition handle_subagent_approval_request (env : ParentEnv) (config : ApprovalGateConfig R)
    (reads : list ReadEvent) (writes : list WriteEvent) (input : list KeyEvent)
    : option (Z * ApprovalGateConfig R * cstr * list KeyEvent) :=
  match (read_message_with_timeout (pv_malloc_ok env) reads).1 with
  | None => Some ((-1)%Z, config, [], input)
  | Some request_str =>
      match deserialize_approval_request request_str with
      | None => Some ((-1)%Z, config, [], input)
      | Some req =>
          let call := synthetic_call req in
          let answer :=
            match pv_channel env with
            | Some ask => Some (config, ask call, input)
            | None => approval_gate_prompt (pv_tty env) config call input
            end in
          match answer with
          | None => None
          | Some (config, result, input) =>
              let '(config, resp_pattern) := remember env config call result in
              match serialize_approval_response (mkResponse (rq_request_id req) result resp_pattern) with
              | None => Some ((-1)%Z, config, [], input)
              | Some response_str =>
                  match write_message response_str writes with
                  | None => None
                  | Some (rc, sent) =>
                      if (rc <? 0)%Z then Some ((-1)%Z, config, sent, input)
                      else Some (0%Z, config, sent, input)
                  end
              end
          end
      end
  end.
End Proxy.

(** ** Transport *)

#[local] Opaque APPROVAL_MSG_MAX_SIZE.

(** The pipe hands over exactly [bytes], in pieces, without a pause. *)
Definition delivers (events : list ReadEvent) (bytes : cstr) : Prop :=
  exists pieces, Forall (fun p => p <> []) pieces /\ concat pieces = bytes /\
    events = map Data pieces.

Lemma write_loop_sent remaining sent events sent' :
  write_loop remaining sent events = Some (0%Z, sent') -> sent' = sent ++ remaining.
Proof.
  revert remaining sent. induction events as [|[n|[]] events IH]; intros remaining sent; simpl.
  - destruct remaining; [|done]. intros [= <-]. by rewrite app_nil_r.
  - destruct remaining as [|c r]; [intros [= <-]; by rewrite app_nil_r|].
    intros ->%IH. rewrite <- app_assoc. cbn [app]. by rewrite take_drop.
  - destruct remaining; [intros [= <-]; by rewrite app_nil_r|apply IH].
  - destruct remaining; [intros [= <-]; by rewrite app_nil_r|done].
Qed.

Lemma write_message_sent msg events sent :
  write_message msg events = Some (0%Z, sent) -> sent = msg ++ [NUL].
Proof. intros H%write_loop_sent. done. Qed.

Lemma write_loop_code l k events rc sent :
  write_loop l k events = Some (rc, sent) -> rc = 0%Z \/ rc = (-1)%Z.
Proof.
  revert l k. induction events as [|[n|[]] ev IH]; intros [|c l] k; simpl; try done;
    try (intros [= <- _]; tauto); apply IH.
Qed.

Lemma before_nul_app a b : NUL ∉ a -> before_nul (a ++ NUL :: b) = Some a.
Proof.
  induction a as [|c a IH]; [done|]. rewrite elem_of_cons. intros H. cbn [app before_nul].
  destruct (Ascii.eqb_spec c NUL) as [->|_]; [tauto|]. by rewrite IH by tauto.
Qed.

Lemma before_nul_none a : NUL ∉ a -> before_nul a = None.
Proof.
  induction a as [|c a IH]; [done|]. rewrite elem_of_cons. intros H. cbn [before_nul].
  destruct (Ascii.eqb_spec c NUL) as [->|_]; [tauto|]. by rewrite IH by tauto.
Qed.

Lemma exists_last_or_nil {A} (l : list A) : l = [] \/ exists k x, l = k ++ [x].
Proof. destruct (decide (l = [])); [by left|]. right. destruct (exists_last n) as (k & x & ->). eauto. Qed.

(** The loop puts the pieces of a message together again. *)
Lemma read_loop_delivered pieces buffer msg :
  Forall (fun p => p <> []) pieces -> NUL ∉ msg -> concat pieces = msg ++ [NUL] ->
  (length buffer + length msg + 1 <= APPROVAL_MSG_MAX_SIZE - 1)%nat ->
  (read_loop buffer (map Data pieces)).1 = Some (buffer ++ msg).
Proof.
  intros Hp Hnul. revert buffer msg Hnul. induction Hp as [|p ps Hne Hp IH]; intros buffer msg Hnul Hc Hlen.
  { by destruct msg. }
  cbn [concat map] in *.
  assert (length p + length (concat ps) = length msg + 1)%nat as Hl.
  { apply (f_equal length) in Hc. rewrite !length_app in Hc. simpl in Hc. done. }
  destruct p as [|c p]; [done|]. cbn [read_loop].
  destruct (Nat.leb_spec (APPROVAL_MSG_MAX_SIZE - 1) (length buffer)); [lia|].
  rewrite take_ge, drop_ge by lia.
  destruct (exists_last_or_nil (concat ps)) as [Hnil|(k & x & Hk)].
  - rewrite Hnil, app_nil_r in Hc. rewrite Hc, before_nul_app by done. done.
  - rewrite Hk, app_assoc in Hc. apply app_inj_tail in Hc as [<- ->].
    rewrite elem_of_app in Hnul. rewrite before_nul_none by tauto.
    rewrite (IH _ k); [by rewrite <- app_assoc|tauto|done|].
    rewrite length_app in Hlen |- *. lia.
Qed.

Lemma read_delivered ok events msg :
  ok = true -> delivers events (msg ++ [NUL]) -> NUL ∉ msg ->
  (length msg + 1 <= APPROVAL_MSG_MAX_SIZE - 1)%nat ->
  (read_message_with_timeout ok events).1 = Some msg.
Proof.
  intros -> (pieces & Hp & Hc & ->) Hnul Hlen.
  transitivity (read_loop [] (map Data pieces)).1; [|by apply (read_loop_delivered pieces [] msg)].
  destruct pieces as [|p ps]; [destruct msg; discriminate Hc|].
  cbn [map read_message_with_timeout negb]. reflexivity.
Qed.

(** ** Messages *)

Section Messages.
Context {J : CJson} {JS : CJsonSpec J} (out_of_range : Z -> Z).

Lemma request_roundtrip req t :
  serialize_approval_request req = Some t -> (0 <= rq_request_id req < 2 ^ 32)%Z ->
  NUL ∉ t /\ deserialize_approval_request out_of_range t =
    Some (mkRequest (Some (default [] (rq_tool_name req))) (Some (default [] (rq_arguments_json req)))
            (rq_display_summary req) (rq_request_id req)).
Proof using JS.
  intros Ht Hid. apply print_flat_object in Ht as [Hp Hn]; [|repeat constructor; simpl; lia].
  split; [done|]. unfold deserialize_approval_request. rewrite Hp.
  cbn [mbind option_bind]. rewrite !get_member.
  match goal with |- context [find_member ?l (cs "tool_name")] =>
    assert (find_member l (cs "tool_name") = Some (JString (default [] (rq_tool_name req)))) as ->
      by reflexivity;
    assert (find_member l (cs "arguments_json") = Some (JString (default [] (rq_arguments_json req)))) as ->
      by reflexivity;
    assert (find_member l (cs "display_summary") = Some (JString (rq_display_summary req))) as ->
      by reflexivity;
    assert (find_member l (cs "request_id") = Some (JNumber (rq_request_id req))) as -> by reflexivity
  end.
  cbn [cJSON_IsString cJSON_IsNumber default from_option id]. unfold to_uint32.
  rewrite (proj2 (Z.leb_le _ _)), (proj2 (Z.ltb_lt _ _)) by lia. done.
Qed.

Lemma result_of_code_roundtrip r :
  (forall value, r <> APPROVAL_OTHER value) ->
  result_of_code (result_code r) = r /\ (0 <= result_code r <= 5)%Z.
Proof using Type. intros H. destruct r; try (split; [done|simpl; lia]). by destruct (H value). Qed.

Lemma response_roundtrip resp t :
  serialize_approval_response resp = Some t ->
  (0 <= rs_request_id resp < 2 ^ 32)%Z -> (forall value, rs_result resp <> APPROVAL_OTHER value) ->
  NUL ∉ t /\ exists p, deserialize_approval_response out_of_range t =
    Some (mkResponse (rs_request_id resp) (rs_result resp) p).
Proof using JS.
  intros Ht Hid Hr. apply result_of_code_roundtrip in Hr as [Hr Hc].
  apply print_flat_object in Ht as [Hp Hn]; [|repeat constructor; simpl; lia].
  split; [done|]. unfold deserialize_approval_response. rewrite Hp.
  cbn [mbind option_bind]. rewrite !get_member.
  match goal with |- context [find_member ?l (cs "result")] =>
    assert (find_member l (cs "request_id") = Some (JNumber (rs_request_id resp))) as -> by reflexivity;
    assert (find_member l (cs "result") = Some (JNumber (result_code (rs_result resp)))) as ->
      by reflexivity
  end.
  cbn [cJSON_IsNumber].
  unfold to_uint32, to_int.
  rewrite !(proj2 (Z.leb_le _ _)), !(proj2 (Z.ltb_lt _ _)) by lia. cbn [andb]. rewrite Hr. eauto.
Qed.
End Messages.

(** The answers of a prompt are values of the enumeration. *)
Lemma prompt_known {R : Regex} tty (config : ApprovalGateConfig R) tc input :
  exists config' r rest, approval_gate_prompt tty config tc input = Some (config', r, rest) /\
    forall value, r <> APPROVAL_OTHER value.
Proof.
  destruct tty; [|eexists _, _, _; split; [reflexivity|done]].
  destruct (approval_gate_prompt_exact config tc input) as (config' & r & rest & E & Ho).
  exists config', r, rest. split; [done|].
  apply prompt_outcome_facts in Ho as (_ & _ & _ & Hr). unfold answered, approved in Hr.
  destruct Hr as [->|[->|[->| ->]]]; done.
Qed.

(** ** Properties *)

(** When the pipes deliver both messages whole and each fits the 64 KiB
    buffer, the subagent receives exactly the answer the user gave the parent
    for its call, matched by its request identifier; an "always" answer is
    added to the parent's configuration. The parent asks whatever its own
    allowlist contains: it never answers a request by itself. *)
Theorem proxy_round_trip {R : Regex} {J : CJson} {JS : CJsonSpec J} cb out_of_range env
    (config : ApprovalGateConfig R) tc id text writes1 sent1 reads1 writes2 config' sent2 reads2 input input' :
  (0 <= id < 2 ^ 32)%Z -> pv_channel env = None -> pv_malloc_ok env = true ->
  serialize_approval_request
    (mkRequest (tc_name tc) (tc_arguments tc) (format_tool_summary tc) id) = Some text ->
  write_message text writes1 = Some (0%Z, sent1) ->
  delivers reads1 sent1 -> (length sent1 <= APPROVAL_MSG_MAX_SIZE - 1)%nat ->
  handle_subagent_approval_request cb out_of_range env config reads1 writes2 input =
    Some (0%Z, config', sent2, input') ->
  delivers reads2 sent2 -> (length sent2 <= APPROVAL_MSG_MAX_SIZE - 1)%nat ->
  let call := mkToolCall (cs "subagent-synthetic") (Some (default [] (tc_name tc)))
                (Some (default [] (tc_arguments tc))) in
  exists config1 r,
    approval_gate_prompt (pv_tty env) config call input = Some (config1, r, input') /\
    config' = (remember cb env config1 call r).1 /\
    subagent_request_approval out_of_range true id tc writes1 reads2 =
      Some (r, ((id + 1) mod 2 ^ 32)%Z, sent1).
Proof.
  intros Hid Hch Hmal Hser Hw1 Hd1 Hl1 Hh Hd2 Hl2 call.
  pose proof (write_message_sent _ _ _ Hw1) as ->.
  destruct (request_roundtrip out_of_range _ _ Hser Hid) as [Hn1 Hreq].
  rewrite length_app in Hl1. simpl length in Hl1.
  unfold handle_subagent_approval_request in Hh.
  rewrite (read_delivered _ _ text) in Hh by (done || lia). rewrite Hreq, Hch in Hh.
  unfold synthetic_call in Hh. cbn [rq_tool_name rq_arguments_json rq_request_id] in Hh. fold call in Hh.
  destruct (prompt_known (pv_tty env) config call input) as (config1 & r & rest & Hp & Hr).
  rewrite Hp in Hh. destruct (remember cb env config1 call r) as [config2 pat] eqn:Erem.
  destruct (serialize_approval_response _) as [text2|] eqn:Hser2; [|done].
  destruct (write_message text2 writes2) as [[rc sent]|] eqn:Hw2; [|done].
  destruct (rc <? 0)%Z eqn:Erc; [done|]. injection Hh as <- <- <-.
  apply Z.ltb_ge in Erc. destruct (write_loop_code _ _ _ _ _ Hw2) as [-> | ->]; [|lia].
  pose proof (write_message_sent _ _ _ Hw2) as ->.
  destruct (response_roundtrip out_of_range _ _ Hser2 Hid Hr) as [Hn2 [p Hresp]].
  rewrite length_app in Hl2. simpl length in Hl2.
  exists config1, r. rewrite Erem. split; [done|]. split; [done|].
  unfold subagent_request_approval, next_request_id. rewrite Hser, Hw1. cbn [Z.ltb Z.compare].
  rewrite (read_delivered _ _ text2) by (done || lia). rewrite Hresp.
  cbn [rs_request_id rs_result]. by rewrite ?Z.eqb_refl.
Qed.

(** A subagent asks for "make"; the user of the parent presses y. *)
Definition sample_parent : ParentEnv := mkParentEnv None true None memory_available true.

Definition sample_request : cstr :=
  ref_print (request_json (mkRequest (Some (cs "shell")) (Some (obj1 "command" "make"))
    (cs "shell: make") 1)).

Definition sample_response : cstr :=
  ref_print (response_json (mkResponse 1 APPROVAL_ALLOWED None)).

#[local] Transparent APPROVAL_MSG_MAX_SIZE.

Lemma proxy_round_trip_witness :
  subagent_request_approval (fun z => z) true 1 (shell_call "make") [Wrote 10; Wrote 200]
    [Data (take 5 (sample_response ++ [NUL])); Data (drop 5 (sample_response ++ [NUL]))] =
  Some (APPROVAL_ALLOWED, 2%Z, sample_request ++ [NUL]).
Proof.
  destruct (proxy_round_trip no_callbacks (fun z => z) sample_parent sample_config (shell_call "make") 1
    sample_request [Wrote 10; Wrote 200] (sample_request ++ [NUL]) [Data (sample_request ++ [NUL])]
    [Wrote 200] (reset_denial_tracker sample_config (Some (cs "shell"))) (sample_response ++ [NUL])
    [Data (take 5 (sample_response ++ [NUL])); Data (drop 5 (sample_response ++ [NUL]))]
    [Key "y"] []) as (config1 & r & Hp & _ & H).
  - lia.
  - reflexivity.
  - reflexivity.
  - vm_compute. reflexivity.
  - vm_compute. reflexivity.
  - exists [sample_request ++ [NUL]]. split; [repeat constructor; discriminate|]. split; reflexivity.
  - apply Nat.leb_le. vm_compute. reflexivity.
  - vm_compute. reflexivity.
  - exists [take 5 (sample_response ++ [NUL]); drop 5 (sample_response ++ [NUL])].
    split; [repeat constructor; discriminate|]. split; [vm_compute; reflexivity|reflexivity].
  - apply Nat.leb_le. vm_compute. reflexivity.
  - vm_compute in Hp. injection Hp as _ <-. exact H.
Defined.

(** Both sides fail closed. The subagent takes anything but a refusal
    only from a response that parses and carries the identifier of its
    request, whatever arrives on the pipe, and in whatever pieces; the parent
    answers, changes its configuration or reads the keyboard only for a
    request that parses with a tool name and an identifier. *)
Theorem proxy_fails_closed {R : Regex} {J : CJson} cb out_of_range env
    (config : ApprovalGateConfig R) ok tc id writes reads input :
  (forall r next sent,
     subagent_request_approval out_of_range ok id tc writes reads = Some (r, next, sent) ->
     r <> APPROVAL_DENIED ->
     exists text json n z,
       (read_message_with_timeout ok reads).1 = Some text /\ cJSON_Parse text = Some json /\
       cJSON_GetObjectItem json (cs "request_id") = Some (JNumber n) /\ to_uint32 out_of_range n = id /\
       cJSON_GetObjectItem json (cs "result") = Some (JNumber z) /\
       r = result_of_code (to_int out_of_range z)) /\
  (forall rc config' sent input',
     handle_subagent_approval_request cb out_of_range env config reads writes input =
       Some (rc, config', sent, input') ->
     (rc = (-1)%Z /\ config' = config /\ sent = [] /\ input' = input) \/
     exists text json name n,
       (read_message_with_timeout (pv_malloc_ok env) reads).1 = Some text /\
       cJSON_Parse text = Some json /\
       cJSON_GetObjectItem json (cs "tool_name") = Some (JString name) /\
       cJSON_GetObjectItem json (cs "request_id") = Some (JNumber n)).
Proof.
  assert (forall item n, cJSON_IsNumber item = Some n -> item = Some (JNumber n)) as HN
    by (intros [[]|] n; simpl; congruence).
  assert (forall item s, cJSON_IsString item = Some s -> item = Some (JString s)) as HS
    by (intros [[]|] s; simpl; congruence).
  split.
  - intros r next sent. unfold subagent_request_approval, next_request_id.
    destruct (serialize_approval_request _) as [t|]; [|by intros [= <- _ _]].
    destruct (write_message t writes) as [[rc s]|]; [|done].
    destruct (rc <? 0)%Z; [by intros [= <- _ _]|].
    destruct (read_message_with_timeout ok reads) as [[text|] rest]; cbn [fst]; [|by intros [= <- _ _]].
    unfold deserialize_approval_response.
    destruct (cJSON_Parse text) as [json|] eqn:Ej; cbn [mbind option_bind]; [|by intros [= <- _ _]].
    destruct (cJSON_IsNumber (cJSON_GetObjectItem json (cs "request_id"))) as [n|] eqn:En;
      [|by intros [= <- _ _]].
    destruct (cJSON_IsNumber (cJSON_GetObjectItem json (cs "result"))) as [z|] eqn:Ez;
      [|by intros [= <- _ _]].
    cbn [rs_request_id rs_result]. destruct (Z.eqb_spec (to_uint32 out_of_range n) id); cbn [negb];
      [|by intros [= <- _ _]].
    intros [= <- _ _] _. exists text, json, n, z. split_and!; auto.
  - intros rc config' sent input'. unfold handle_subagent_approval_request.
    destruct (read_message_with_timeout _ reads) as [[text|] rest]; cbn [fst]; [|intros [= <- <- <- <-]; auto].
    unfold deserialize_approval_request.
    destruct (cJSON_Parse text) as [json|] eqn:Ej; cbn [mbind option_bind]; [|intros [= <- <- <- <-]; auto].
    destruct (cJSON_IsString (cJSON_GetObjectItem json (cs "tool_name"))) as [name|] eqn:En;
      [|intros [= <- <- <- <-]; auto].
    destruct (cJSON_IsNumber (cJSON_GetObjectItem json (cs "request_id"))) as [n|] eqn:Ei;
      [|intros [= <- <- <- <-]; auto].
    intros _. right. exists text, json, name, n. split_and!; auto.
Qed.

Lemma proxy_fails_closed_witness :
  handle_subagent_approval_request no_callbacks (fun z => z) sample_parent sample_config
    [Data (cs "{}" ++ [NUL])] [Wrote 9] [Key "y"] = Some ((-1)%Z, sample_config, [], [Key "y"]).
Proof.
  destruct (proxy_fails_closed no_callbacks (fun z => z) sample_parent sample_config true (shell_call "make") 1
    [Wrote 9] [Data (cs "{}" ++ [NUL])] [Key "y"]) as [_ H].
  assert (handle_subagent_approval_request no_callbacks (fun z => z) sample_parent sample_config
    [Data (cs "{}" ++ [NUL])] [Wrote 9] [Key "y"] = Some ((-1)%Z, sample_config, [], [Key "y"])) as E
    by (vm_compute; reflexivity).
  destruct (H _ _ _ _ E) as [_|(text & json & name & n & Ht & Hj & Hn & _)]; [exact E|].
  vm_compute in Ht. injection Ht as <-. vm_compute in Hj. injection Hj as <-. discriminate Hn.
Defined.
