(* ===== verification/Streaming.v ===== *)
(** * Streamed answers (lib/network/streaming.c)

    The parser of server-sent events: raw bytes are buffered into lines, data
    lines go to the parser of the provider ([on_sse_data]), which reports text,
    thinking and tool calls back through the emit functions. What the display
    callbacks are told is the trace [emitted]; the answers of the allocator are a
    list, all fine when it is empty. *)

From S2P Require Import Prelude CString Darray.
Local Open Scope bool_scope.
Local Open Scope Z_scope.

(** ** Buffers *)

Definition INITIAL_LINE_BUFFER_CAPACITY : Z := 1024.
Definition INITIAL_TEXT_CAPACITY : Z := 4096.
Definition INITIAL_THINKING_CAPACITY : Z := 2048.
Definition INITIAL_TOOL_CAPACITY : Z := 4.
Definition INITIAL_TOOL_ARGS_CAPACITY : Z := 1024.
Definition BUFFER_GROWTH_FACTOR : Z := 2.
Definition SIZE_MAX : Z := 2 ^ 64 - 1.

(** The largest object an allocator gives. *)
Definition PTRDIFF_MAX : Z := 2 ^ 63 - 1.

Record Buffer := mkBuffer { content : cstr; capacity : Z }.

Definition len (s : cstr) : Z := Z.of_nat (length s).

(** The doubling loop; [None] on overflow. The fuel covers the doublings of any
    positive capacity. *)
Fixpoint doubled (fuel : nat) (new_capacity needed : Z) : option Z :=
  if needed <=? new_capacity then Some new_capacity
  else match fuel with
       | O => None
       | S fuel' =>
           if SIZE_MAX / BUFFER_GROWTH_FACTOR <? new_capacity then None
           else doubled fuel' (new_capacity * BUFFER_GROWTH_FACTOR) needed
       end.

(** [realloc] to a size. *)
Definition reallocated (ok : bool) (size : Z) : option Z :=
  if ok && (size <=? PTRDIFF_MAX) then Some size else None.

(** The capacity after [ensure_capacity]; [None] for its error. *)
Definition ensure_capacity (ok : bool) (b : Buffer) (additional_len : Z) : option Z :=
  let current_len := len (content b) in
  if SIZE_MAX - current_len - 1 <? additional_len then None
  else
    let needed := current_len + additional_len + 1 in
    if needed <=? capacity b then Some (capacity b)
    else c ← doubled 64 (capacity b) needed; reallocated ok c.

(** ** The context *)

Inductive StreamState :=
| STREAM_STATE_IDLE | STREAM_STATE_READING_EVENT | STREAM_STATE_READING_DATA
| STREAM_STATE_COMPLETE | STREAM_STATE_ERROR.

Record StreamingToolUse := mkToolUse {
  tu_id : cstr;
  tu_name : cstr;
  tu_arguments : Buffer
}.

(** Three pointers and a size. *)
Definition sizeof_StreamingToolUse : Z := 32.

Inductive Emission :=
| EmitText (s : cstr)
| EmitThinking (s : cstr)
| EmitToolStart (id name : cstr)
| EmitToolDelta (id s : cstr)
| EmitEnd (stop_reason : option cstr)
| EmitError (error : option cstr).

(** [user_data] is what the parser of the provider keeps between two events. *)
Record StreamingContext (U : Type) := mkContext {
  state : StreamState;
  line_buffer : Buffer;
  current_event_type : option cstr;
  text : Buffer;
  thinking : Buffer;
  tool_uses : darray StreamingToolUse;
  current_tool_index : Z;
  input_tokens : Z;
  output_tokens : Z;
  stop_reason : option cstr;
  error_message : option cstr;
  user_data : U;
  emitted : list Emission;
  allocs : list bool;
  undefined : bool
}.
Arguments mkContext {U}.
Arguments state {U} _. Arguments line_buffer {U} _. Arguments current_event_type {U} _. Arguments text {U} _. Arguments thinking {U} _. Arguments tool_uses {U} _. Arguments current_tool_index {U} _. Arguments input_tokens {U} _.
Arguments output_tokens {U} _. Arguments stop_reason {U} _. Arguments error_message {U} _. Arguments user_data {U} _. Arguments emitted {U} _. Arguments allocs {U} _. Arguments undefined {U} _.

(** What freed memory reads as: nothing is known of it. *)
Class Freed := freed : cstr -> cstr.

Section Setters.
Context {U : Type}.
Implicit Types (ctx : StreamingContext U).

Definition with_state (s : StreamState) ctx : StreamingContext U :=
  mkContext s (line_buffer ctx) (current_event_type ctx) (text ctx) (thinking ctx) (tool_uses ctx)
    (current_tool_index ctx) (input_tokens ctx) (output_tokens ctx) (stop_reason ctx) (error_message ctx)
    (user_data ctx) (emitted ctx) (allocs ctx) (undefined ctx).
Definition with_line (b : Buffer) ctx : StreamingContext U :=
  mkContext (state ctx) b (current_event_type ctx) (text ctx) (thinking ctx) (tool_uses ctx) (current_tool_index
    ctx) (input_tokens ctx) (output_tokens ctx) (stop_reason ctx) (error_message ctx) (user_data ctx) (emitted
    ctx) (allocs ctx) (undefined ctx).
Definition with_event_type (t : option cstr) ctx : StreamingContext U :=
  mkContext (state ctx) (line_buffer ctx) t (text ctx) (thinking ctx) (tool_uses ctx) (current_tool_index ctx)
    (input_tokens ctx) (output_tokens ctx) (stop_reason ctx) (error_message ctx) (user_data ctx) (emitted ctx)
    (allocs ctx) (undefined ctx).
Definition with_text (b : Buffer) ctx : StreamingContext U :=
  mkContext (state ctx) (line_buffer ctx) (current_event_type ctx) b (thinking ctx) (tool_uses ctx)
    (current_tool_index ctx) (input_tokens ctx) (output_tokens ctx) (stop_reason ctx) (error_message ctx)
    (user_data ctx) (emitted ctx) (allocs ctx) (undefined ctx).
Definition with_thinking (b : Buffer) ctx : StreamingContext U :=
  mkContext (state ctx) (line_buffer ctx) (current_event_type ctx) (text ctx) b (tool_uses ctx)
    (current_tool_index ctx) (input_tokens ctx) (output_tokens ctx) (stop_reason ctx) (error_message ctx)
    (user_data ctx) (emitted ctx) (allocs ctx) (undefined ctx).
Definition with_tools (l : darray StreamingToolUse) (index : Z) ctx : StreamingContext U :=
  mkContext (state ctx) (line_buffer ctx) (current_event_type ctx) (text ctx) (thinking ctx) l index
    (input_tokens ctx) (output_tokens ctx) (stop_reason ctx) (error_message ctx) (user_data ctx) (emitted ctx)
    (allocs ctx) (undefined ctx).
Definition with_tokens (input output : Z) ctx : StreamingContext U :=
  mkContext (state ctx) (line_buffer ctx) (current_event_type ctx) (text ctx) (thinking ctx) (tool_uses ctx)
    (current_tool_index ctx) input output (stop_reason ctx) (error_message ctx) (user_data ctx) (emitted ctx)
    (allocs ctx) (undefined ctx).
Definition with_stop_reason (r : option cstr) ctx : StreamingContext U :=
  mkContext (state ctx) (line_buffer ctx) (current_event_type ctx) (text ctx) (thinking ctx) (tool_uses ctx)
    (current_tool_index ctx) (input_tokens ctx) (output_tokens ctx) r (error_message ctx) (user_data ctx) (emitted
    ctx) (allocs ctx) (undefined ctx).
Definition with_error_message (e : option cstr) ctx : StreamingContext U :=
  mkContext (state ctx) (line_buffer ctx) (current_event_type ctx) (text ctx) (thinking ctx) (tool_uses ctx)
    (current_tool_index ctx) (input_tokens ctx) (output_tokens ctx) (stop_reason ctx) e (user_data ctx) (emitted
    ctx) (allocs ctx) (undefined ctx).
Definition with_user (u : U) ctx : StreamingContext U :=
  mkContext (state ctx) (line_buffer ctx) (current_event_type ctx) (text ctx) (thinking ctx) (tool_uses ctx)
    (current_tool_index ctx) (input_tokens ctx) (output_tokens ctx) (stop_reason ctx) (error_message ctx) u
    (emitted ctx) (allocs ctx) (undefined ctx).
Definition with_allocs (l : list bool) ctx : StreamingContext U :=
  mkContext (state ctx) (line_buffer ctx) (current_event_type ctx) (text ctx) (thinking ctx) (tool_uses ctx)
    (current_tool_index ctx) (input_tokens ctx) (output_tokens ctx) (stop_reason ctx) (error_message ctx)
    (user_data ctx) (emitted ctx) l (undefined ctx).
(** A freed string is read. *)
Definition with_undefined  ctx : StreamingContext U :=
  mkContext (state ctx) (line_buffer ctx) (current_event_type ctx) (text ctx) (thinking ctx) (tool_uses ctx)
    (current_tool_index ctx) (input_tokens ctx) (output_tokens ctx) (stop_reason ctx) (error_message ctx)
    (user_data ctx) (emitted ctx) (allocs ctx) true.
(** A display callback. *)
Definition emit (e : Emission) ctx : StreamingContext U :=
  mkContext (state ctx) (line_buffer ctx) (current_event_type ctx) (text ctx) (thinking ctx) (tool_uses ctx)
    (current_tool_index ctx) (input_tokens ctx) (output_tokens ctx) (stop_reason ctx) (error_message ctx)
    (user_data ctx) (emitted ctx ++ [e]) (allocs ctx) (undefined ctx).

(** What the allocator answers to the next request, if there is one. *)
Definition next_alloc ctx : bool * StreamingContext U :=
  (match allocs ctx with ok :: _ => ok | [] => true end, with_allocs (tail (allocs ctx)) ctx).

(** [strdup] and [strndup]: the copy, NULL when it cannot be allocated. *)
Definition strdup (s : cstr) ctx : option cstr * StreamingContext U :=
  let '(ok, ctx) := next_alloc ctx in (if ok : bool then Some s else None, ctx).
End Setters.

(** [calloc] gives zeroes; the buffers follow. *)
Definition streaming_context_create {U} (u : U) (allocs : list bool) : option (StreamingContext U) :=
  match allocs with
  | [] | true :: true :: true :: true :: true :: _ =>
      array ← da_init_capacity true INITIAL_TOOL_CAPACITY;
      Some (mkContext STREAM_STATE_IDLE (mkBuffer [] INITIAL_LINE_BUFFER_CAPACITY) None
              (mkBuffer [] INITIAL_TEXT_CAPACITY) (mkBuffer [] INITIAL_THINKING_CAPACITY) array (-1) 0 0 None None
              u [] (drop 5 allocs) false)
  | _ => None
  end.

(** ** Emitting events *)

Section Emit.
Context {F : Freed} {U : Type}.
Implicit Types (ctx : StreamingContext U).

Definition streaming_emit_text ctx (s : cstr) : StreamingContext U :=
  match s with
  | [] => ctx
  | _ =>
      let '(ok, ctx) := next_alloc ctx in
      match ensure_capacity ok (text ctx) (len s) with
      | None => with_state STREAM_STATE_ERROR ctx
      | Some c => emit (EmitText s) (with_text (mkBuffer (content (text ctx) ++ s) c) ctx)
      end
  end.

Definition streaming_emit_thinking ctx (s : cstr) : StreamingContext U :=
  match s with
  | [] => ctx
  | _ =>
      let '(ok, ctx) := next_alloc ctx in
      match ensure_capacity ok (thinking ctx) (len s) with
      | None => with_state STREAM_STATE_ERROR ctx
      | Some c => emit (EmitThinking s) (with_thinking (mkBuffer (content (thinking ctx) ++ s) c) ctx)
      end
  end.

Definition streaming_emit_tool_start ctx (id name : cstr) : StreamingContext U :=
  let '(id', ctx) := strdup id ctx in
  let '(name', ctx) := strdup name ctx in
  let '(args, ctx) := next_alloc ctx in
  match id', name', args with
  | Some id', Some name', true =>
      let new_tool := mkToolUse id' name' (mkBuffer [] INITIAL_TOOL_ARGS_CAPACITY) in
      let '(ok, ctx) := next_alloc ctx in
      match da_push (ok && (da_capacity (tool_uses ctx) * 2 * sizeof_StreamingToolUse <=? PTRDIFF_MAX))
              (tool_uses ctx) new_tool with
      | (arr, 0) => emit (EmitToolStart id name) (with_tools arr (da_count arr - 1) ctx)
      | (arr, _) => ctx
      end
  | _, _, _ => ctx
  end.

(** The index of the first tool with an id. *)
Fixpoint find_tool (tools : list StreamingToolUse) (id : cstr) : option nat :=
  match tools with
  | [] => None
  | t :: tools' => if streq (tu_id t) id then Some O else S <$> find_tool tools' id
  end.

Definition in_range (idx count : Z) : bool := (0 <=? idx) && (idx <? count).

(** The cached index, or a search when it is out of range. *)
Definition delta_index ctx (id : cstr) : Z :=
  let idx := current_tool_index ctx in
  if in_range idx (da_count (tool_uses ctx)) then idx
  else match find_tool (data (tool_uses ctx)) id with Some i => Z.of_nat i | None => idx end.

(** The buffer of the arguments after the delta; [None] for an error. *)
Definition append_arguments (ok : bool) (b : Buffer) (json_delta : cstr) : option Buffer :=
  let needed := wrap64 (len (content b) + len json_delta + 1) in
  if needed <=? capacity b then Some (mkBuffer (content b ++ json_delta) (capacity b))
  else
    c ← doubled 64 (capacity b) needed;
    c ← reallocated ok c;
    Some (mkBuffer (content b ++ json_delta) c).

Definition streaming_emit_tool_delta ctx (id json_delta : cstr) : StreamingContext U :=
  match json_delta with
  | [] => ctx
  | _ =>
      let idx := delta_index ctx id in
      let ctx := with_tools (tool_uses ctx) idx ctx in
      if in_range idx (da_count (tool_uses ctx)) then
        match data (tool_uses ctx) !! Z.to_nat idx with
        | Some tool =>
            if negb (streq (tu_id tool) id) then ctx
            else
              let '(ok, ctx) := next_alloc ctx in
              match append_arguments ok (tu_arguments tool) json_delta with
              | None => with_state STREAM_STATE_ERROR ctx
              | Some b =>
                  let tool := mkToolUse (tu_id tool) (tu_name tool) b in
                  emit (EmitToolDelta id json_delta)
                    (with_tools (mkDarray (<[Z.to_nat idx := tool]> (data (tool_uses ctx))) (da_capacity (tool_uses ctx)))
                       (current_tool_index ctx) ctx)
              end
        | None => ctx
        end
      else ctx
  end.

Definition streaming_replace_tool_arguments ctx (id arguments : cstr) : StreamingContext U :=
  match find_tool (data (tool_uses ctx)) id with
  | None => ctx
  | Some i =>
      match data (tool_uses ctx) !! i with
      | None => ctx
      | Some tool =>
          let needed := len arguments + 1 in
          let '(ok, ctx) := next_alloc ctx in
          match (if capacity (tu_arguments tool) <? needed then reallocated ok needed
                 else Some (capacity (tu_arguments tool))) with
          | None => ctx
          | Some c =>
              let tool := mkToolUse (tu_id tool) (tu_name tool) (mkBuffer arguments c) in
              with_tools (mkDarray (<[i := tool]> (data (tool_uses ctx))) (da_capacity (tool_uses ctx)))
                (current_tool_index ctx) ctx
          end
      end
  end.

(** The argument of [streaming_emit_complete]: a string of its own, or the
    field [stop_reason] itself, which the function frees before it copies it. *)
Inductive Reason := NoReason | Literal (s : cstr) | StopReasonField.

Definition set_stop_reason ctx (s : cstr) : StreamingContext U :=
  let '(s', ctx) := strdup s ctx in with_stop_reason s' ctx.

Definition streaming_emit_complete ctx (reason : Reason) : StreamingContext U :=
  let ctx := with_state STREAM_STATE_COMPLETE ctx in
  match reason with
  | NoReason => emit (EmitEnd None) ctx
  | Literal s => emit (EmitEnd (Some s)) (set_stop_reason ctx s)
  | StopReasonField =>
      match stop_reason ctx with
      | None => emit (EmitEnd None) ctx
      | Some s => emit (EmitEnd (Some (freed s))) (with_undefined (set_stop_reason ctx (freed s)))
      end
  end.

(** [ctx->stop_reason ? ctx->stop_reason : literal] *)
Definition stop_reason_or ctx (literal : cstr) : Reason :=
  match stop_reason ctx with Some _ => StopReasonField | None => Literal literal end.

Definition streaming_emit_error ctx (error : option cstr) : StreamingContext U :=
  let ctx := with_state STREAM_STATE_ERROR ctx in
  let ctx := match error with
             | Some e => let '(e', ctx) := strdup e ctx in with_error_message e' ctx
             | None => ctx
             end in
  emit (EmitError error) ctx.
End Emit.

(** ** Lines *)

Section Parser.
Context {F : Freed} {U : Type}.
Context (on_sse_data : option (cstr -> StreamingContext U -> StreamingContext U)).
Implicit Types (ctx : StreamingContext U).

Definition LF : ascii := "010"%char.
Definition CR : ascii := "013"%char.

(** Trailing blanks and tabs removed. *)
Fixpoint rstrip (s : cstr) : cstr :=
  match s with
  | [] => []
  | c :: t =>
      match rstrip t with
      | [] => if Ascii.eqb c " " || Ascii.eqb c "009" then [] else [c]
      | t' => c :: t'
      end
  end.

(** The text before the first NUL, which [strndup] copies. *)
Fixpoint until_nul (s : cstr) : cstr :=
  match s with
  | [] => []
  | c :: t => if Ascii.eqb c NUL then [] else c :: until_nul t
  end.

Definition streaming_process_sse_line ctx (line : cstr) : StreamingContext U :=
  if has_prefix (cs "data: ") line then
    let payload := drop 6 line in
    if streq payload (cs "[DONE]") then
      streaming_emit_complete ctx (stop_reason_or ctx (cs "complete"))
    else
      let ctx := with_state STREAM_STATE_READING_DATA ctx in
      match on_sse_data, payload with
      | Some f, _ :: _ => f payload ctx
      | _, _ => ctx
      end
  else if has_prefix (cs "event: ") line then
    let ctx := with_state STREAM_STATE_READING_EVENT ctx in
    let '(t, ctx) := strdup (until_nul (rstrip (drop 7 line))) ctx in
    with_event_type t ctx
  else ctx.

Definition streaming_append_char ctx (c : ascii) : option (StreamingContext U) :=
  let '(ok, ctx) := next_alloc ctx in
  cap ← ensure_capacity ok (line_buffer ctx) 1;
  Some (with_line (mkBuffer (content (line_buffer ctx) ++ [c]) cap) ctx).

(** The end of a line: an empty line is skipped. *)
Definition end_of_line ctx : StreamingContext U :=
  let ctx := match content (line_buffer ctx) with
             | [] => ctx
             | line => streaming_process_sse_line ctx line
             end in
  with_line (mkBuffer [] (capacity (line_buffer ctx))) ctx.

(** The result 0 or -1 and the context. *)
Fixpoint streaming_process_chunk ctx (data : cstr) : Z * StreamingContext U :=
  match data with
  | [] => (0, ctx)
  | c :: data' =>
      if Ascii.eqb c LF then streaming_process_chunk (end_of_line ctx) data'
      else if Ascii.eqb c CR then streaming_process_chunk ctx data'
      else match streaming_append_char ctx c with
           | None => (-1, ctx)
           | Some ctx => streaming_process_chunk ctx data'
           end
  end.

(** The chunks of an HTTP body: the transfer stops at the first error
    ([stream_http_callback] of lib/agent/streaming_handler.c). *)
Fixpoint process_chunks ctx (chunks : list cstr) : Z * StreamingContext U :=
  match chunks with
  | [] => (0, ctx)
  | chunk :: chunks' =>
      match streaming_process_chunk ctx chunk with
      | (0, ctx) => process_chunks ctx chunks'
      | r => r
      end
  end.
End Parser.
