(* ===== verification/StreamingFacts.v ===== *)
(** * The streamed answers stay in their buffers

    The invariant of the context, the trace of what is displayed, the interface
    [SseHandler] between the line parser and the parser of a provider, and the
    theorems on the line parser proved against it. *)

From S2P Require Import Prelude CString Darray Streaming.
Local Open Scope bool_scope.
Local Open Scope Z_scope.

(** ** Buffers *)

(** The text and its terminator fit the allocation. *)
Definition fits (b : Buffer) : Prop := len (content b) < capacity b <= PTRDIFF_MAX.

Lemma len_nonneg (s : cstr) : 0 <= len s.
Proof. unfold len. lia. Qed.

Lemma len_app (a b : cstr) : len (a ++ b) = len a + len b.
Proof. unfold len. rewrite length_app. lia. Qed.

Lemma len_cons c (s : cstr) : len (c :: s) = 1 + len s.
Proof. unfold len. cbn [length]. lia. Qed.

Lemma doubled_Some fuel c needed c' :
  0 < c -> doubled fuel c needed = Some c' -> needed <= c' /\ 0 < c'.
Proof.
  revert c. induction fuel as [|fuel IH]; intros c Hc; cbn [doubled]; destruct (Z.leb_spec needed c); try done.
  - intros E. injection E as <-. lia.
  - intros E. injection E as <-. lia.
  - destruct (_ <? _); [done|]. apply IH. unfold BUFFER_GROWTH_FACTOR. lia.
Qed.

Lemma doubled_total fuel c needed :
  0 < c -> needed <= 2 ^ 62 -> needed <= c * 2 ^ Z.of_nat fuel ->
  exists c', doubled fuel c needed = Some c' /\ needed <= c' /\ (c' = c \/ c' < 2 * needed).
Proof.
  intros Hc Hn. revert c Hc. induction fuel as [|fuel IH]; intros c Hc Hf; cbn [doubled];
    destruct (Z.leb_spec needed c) as [Hle|Hlt].
  - exists c. split; [done|]. lia.
  - change (2 ^ Z.of_nat 0) with 1 in Hf. lia.
  - exists c. split; [done|]. lia.
  - unfold SIZE_MAX, BUFFER_GROWTH_FACTOR in *.
    destruct (Z.ltb_spec ((2 ^ 64 - 1) / 2) c) as [Hov|_].
    { assert (2 ^ 62 <= (2 ^ 64 - 1) / 2) by (vm_compute; discriminate). lia. }
    rewrite Nat2Z.inj_succ, Z.pow_succ_r in Hf by lia.
    destruct (IH (c * 2)) as (c' & -> & ? & Hor); [lia|lia|].
    exists c'. split; [done|]. split; [done|]. right. lia.
Qed.

#[local] Arguments doubled : simpl never.

Lemma ensure_capacity_fits ok b n c s :
  fits b -> n = len s -> ensure_capacity ok b n = Some c -> fits (mkBuffer (content b ++ s) c).
Proof.
  intros [Hlen Hcap] ->. pose proof (len_nonneg (content b)) as Hb. pose proof (len_nonneg s) as Hs.
  unfold ensure_capacity, fits. cbn. rewrite len_app.
  destruct (_ <? _); [done|]. destruct (Z.leb_spec (len (content b) + len s + 1) (capacity b)) as [|Hneed].
  - intros [= <-]. lia.
  - destruct (doubled _ _ _) as [c1|] eqn:E; cbn; [|done]. apply doubled_Some in E as [? ?]; [|lia].
    unfold reallocated. destruct (ok && _) eqn:Eok; [|done]. intros [= <-].
    apply andb_true_iff in Eok as [_ Eok%Z.leb_le]. lia.
Qed.

(** With memory to give, a buffer of less than 2^62 bytes grows. *)
Lemma ensure_capacity_total b n :
  fits b -> 0 <= n -> len (content b) + n + 1 <= 2 ^ 62 -> is_Some (ensure_capacity true b n).
Proof.
  intros [Hlen Hcap] Hn Hsize. pose proof (len_nonneg (content b)) as Hb.
  unfold ensure_capacity. destruct (Z.ltb_spec (SIZE_MAX - len (content b) - 1) n) as [Hov|_].
  { unfold SIZE_MAX in Hov. lia. }
  destruct (Z.leb_spec (len (content b) + n + 1) (capacity b)); [done|].
  destruct (doubled_total 64 (capacity b) (len (content b) + n + 1)) as (c & -> & Hle & Hor); [lia..|].
  cbn. unfold reallocated, PTRDIFF_MAX. cbn. destruct (Z.leb_spec c (2 ^ 63 - 1)); [done|]. lia.
Qed.

Lemma append_arguments_fits ok b s b' :
  fits b -> len s < PTRDIFF_MAX -> append_arguments ok b s = Some b' -> fits b' /\ content b' = content b ++ s.
Proof.
  intros [Hlen Hcap] Hs. pose proof (len_nonneg (content b)) as Hb. pose proof (len_nonneg s) as Hs0.
  unfold append_arguments, fits, wrap64, PTRDIFF_MAX in *. rewrite Z.mod_small by lia.
  destruct (Z.leb_spec (len (content b) + len s + 1) (capacity b)) as [|Hneed].
  - intros [= <-]. cbn. rewrite len_app. split; [lia|done].
  - destruct (doubled _ _ _) as [c1|] eqn:E; cbn; [|done]. apply doubled_Some in E as [? ?]; [|lia].
    unfold reallocated, PTRDIFF_MAX. destruct (ok && _) eqn:Eok; [|done]. intros [= <-].
    apply andb_true_iff in Eok as [_ Eok%Z.leb_le]. cbn. rewrite len_app. split; [lia|done].
Qed.

Lemma append_arguments_total b s :
  fits b -> len (content b) + len s + 1 <= 2 ^ 62 -> is_Some (append_arguments true b s).
Proof.
  intros [Hlen Hcap] Hsize. pose proof (len_nonneg (content b)) as Hb. pose proof (len_nonneg s) as Hs0.
  unfold append_arguments, wrap64. rewrite Z.mod_small by lia.
  destruct (Z.leb_spec (len (content b) + len s + 1) (capacity b)); [done|].
  destruct (doubled_total 64 (capacity b) (len (content b) + len s + 1)) as (c & -> & Hle & Hor); [lia..|].
  cbn. unfold reallocated, PTRDIFF_MAX. cbn. destruct (Z.leb_spec c (2 ^ 63 - 1)); [done|]. lia.
Qed.

(** ** The invariant of the context *)

Definition tools_ok (arr : darray StreamingToolUse) : Prop :=
  0 < da_capacity arr <= 2 ^ 58 /\ da_ok arr /\ Forall (fun t => fits (tu_arguments t)) (data arr).

Record streaming_ok {U} (ctx : StreamingContext U) : Prop := mkStreamingOk {
  line_fits : fits (line_buffer ctx);
  text_fits : fits (text ctx);
  thinking_fits : fits (thinking ctx);
  tools_fit : tools_ok (tool_uses ctx);
  index_fits : -1 <= current_tool_index ctx < da_count (tool_uses ctx)
}.

Lemma streaming_create_ok {U} (u : U) allocs ctx :
  streaming_context_create u allocs = Some ctx -> streaming_ok ctx.
Proof.
  assert (forall l, streaming_ok (mkContext STREAM_STATE_IDLE (mkBuffer [] INITIAL_LINE_BUFFER_CAPACITY) None
              (mkBuffer [] INITIAL_TEXT_CAPACITY) (mkBuffer [] INITIAL_THINKING_CAPACITY)
              (mkDarray [] INITIAL_TOOL_CAPACITY) (-1) 0 0 None None u [] l false)) as Hok.
  { intros l. split; unfold fits, tools_ok, da_ok, da_count, len, PTRDIFF_MAX; cbn.
    1-3: unfold INITIAL_LINE_BUFFER_CAPACITY, INITIAL_TEXT_CAPACITY, INITIAL_THINKING_CAPACITY; lia.
    - unfold INITIAL_TOOL_CAPACITY. split; [lia|]. split; [lia|constructor].
    - lia. }
  unfold streaming_context_create. intros H.
  assert (exists l, ctx = mkContext STREAM_STATE_IDLE (mkBuffer [] INITIAL_LINE_BUFFER_CAPACITY) None
              (mkBuffer [] INITIAL_TEXT_CAPACITY) (mkBuffer [] INITIAL_THINKING_CAPACITY)
              (mkDarray [] INITIAL_TOOL_CAPACITY) (-1) 0 0 None None u [] l false) as [l ->]; [|done].
  repeat case_match; cbn in H; try discriminate; injection H as <-; eexists; reflexivity.
Qed.

(** ** What is displayed *)

Definition shown_text (l : list Emission) : cstr :=
  flat_map (fun e => match e with EmitText s => s | _ => [] end) l.
Definition shown_thinking (l : list Emission) : cstr :=
  flat_map (fun e => match e with EmitThinking s => s | _ => [] end) l.
Definition shown_tools (l : list Emission) : list (cstr * cstr) :=
  flat_map (fun e => match e with EmitToolStart i n => [(i, n)] | _ => [] end) l.

(** What is stored is what was displayed. *)
Record told {U} (ctx : StreamingContext U) : Prop := mkTold {
  told_text : content (text ctx) = shown_text (emitted ctx);
  told_thinking : content (thinking ctx) = shown_thinking (emitted ctx);
  told_tools : (fun t => (tu_id t, tu_name t)) <$> data (tool_uses ctx) = shown_tools (emitted ctx)
}.

Lemma streaming_create_told {U} (u : U) allocs ctx :
  streaming_context_create u allocs = Some ctx -> told ctx.
Proof.
  unfold streaming_context_create. intros H.
  repeat case_match; cbn in H; try discriminate; injection H as <-; split; reflexivity.
Qed.

(** The two facts the operations preserve. *)
Definition sound {U} (ctx : StreamingContext U) : Prop := streaming_ok ctx /\ told ctx.

(** ** Each operation preserves them *)

(** Name the answers of the allocator. *)
Ltac answers :=
  repeat match goal with
  | |- context [match ?l with [] => true | x :: _ => x end] =>
      let o := fresh "ok" in generalize (match l with [] => true | x :: _ => x end); intros o
  end.

Section Preserved.
Context {F : Freed} {U : Type}.
Implicit Types (ctx : StreamingContext U).

(** A change that touches neither buffers nor trace. *)
Lemma sound_ext ctx ctx' :
  line_buffer ctx' = line_buffer ctx -> text ctx' = text ctx -> thinking ctx' = thinking ctx ->
  tool_uses ctx' = tool_uses ctx -> current_tool_index ctx' = current_tool_index ctx ->
  shown_text (emitted ctx') = shown_text (emitted ctx) ->
  shown_thinking (emitted ctx') = shown_thinking (emitted ctx) ->
  shown_tools (emitted ctx') = shown_tools (emitted ctx) ->
  sound ctx -> sound ctx'.
Proof.
  intros El Et Eh Eu Ei Es Esh Est [[] []].
  split; split; rewrite ?El, ?Et, ?Eh, ?Eu, ?Ei, ?Es, ?Esh, ?Est; done.
Qed.

Lemma sound_line ctx b : fits b -> sound ctx -> sound (with_line b ctx).
Proof. intros Hb [[] []]. by split; split. Qed.

Lemma shown_text_snoc l e :
  shown_text (l ++ [e]) = shown_text l ++ match e with EmitText s => s | _ => [] end.
Proof. unfold shown_text. rewrite flat_map_app. cbn. by rewrite app_nil_r. Qed.

Lemma shown_thinking_snoc l e :
  shown_thinking (l ++ [e]) = shown_thinking l ++ match e with EmitThinking s => s | _ => [] end.
Proof. unfold shown_thinking. rewrite flat_map_app. cbn. by rewrite app_nil_r. Qed.

Lemma shown_tools_snoc l e :
  shown_tools (l ++ [e]) = shown_tools l ++ match e with EmitToolStart i n => [(i, n)] | _ => [] end.
Proof. unfold shown_tools. rewrite flat_map_app. cbn. by rewrite app_nil_r. Qed.

(** The three projections of an extended trace. *)
Ltac snoc := cbn; rewrite ?shown_text_snoc, ?shown_thinking_snoc, ?shown_tools_snoc, ?app_nil_r.

Lemma emit_text_sound ctx s : sound ctx -> sound (streaming_emit_text ctx s).
Proof.
  intros Hs. unfold streaming_emit_text. destruct s as [|c s]; [done|].
  generalize (c :: s). clear c s. intros s. cbn -[ensure_capacity].
  destruct (ensure_capacity _ _ _) as [cap|] eqn:E; [|by apply (sound_ext ctx)].
  destruct Hs as [[] []]. apply (ensure_capacity_fits _ _ _ _ s) in E; [|done..].
  split; split; snoc; by f_equal.
Qed.

Lemma emit_thinking_sound ctx s : sound ctx -> sound (streaming_emit_thinking ctx s).
Proof.
  intros Hs. unfold streaming_emit_thinking. destruct s as [|c s]; [done|].
  generalize (c :: s). clear c s. intros s. cbn -[ensure_capacity].
  destruct (ensure_capacity _ _ _) as [cap|] eqn:E; [|by apply (sound_ext ctx)].
  destruct Hs as [[] []]. apply (ensure_capacity_fits _ _ _ _ s) in E; [|done..].
  split; split; snoc; by f_equal.
Qed.

(** The array of tools stays allocated under a push. *)
Lemma push_tool_ok ok arr t arr' r :
  tools_ok arr -> fits (tu_arguments t) ->
  da_push (ok && (da_capacity arr * 2 * sizeof_StreamingToolUse <=? PTRDIFF_MAX)) arr t = (arr', r) ->
  tools_ok arr' /\ (r = 0 /\ data arr' = data arr ++ [t] \/ r <> 0 /\ arr' = arr).
Proof.
  intros ([Hpos Hcap] & Hok & Hfits) Ht Hp.
  assert (0 <= da_count arr) as Hcount by (unfold da_count; lia).
  unfold da_push in Hp. destruct (da_room _ arr) as [arr1|] eqn:E; injection Hp as <- <-.
  2: { split; [done|]. right. by split. }
  assert (data arr1 = data arr /\ 0 < da_capacity arr1 <= 2 ^ 58 /\ da_count arr < da_capacity arr1) as (Ed & Hc1 & Hlt).
  { unfold da_room, da_grow, da_ok, wrap64, DARRAY_GROWTH_FACTOR in *.
    destruct (Z.leb_spec (da_capacity arr) (da_count arr)).
    - rewrite Z.mod_small in E by lia. destruct (Z.eqb_spec (da_capacity arr * 2) 0) as [|_]; [lia|].
      destruct (ok && _) eqn:Eok; [|done]. injection E as <-.
      apply andb_true_iff in Eok as [_ Eok%Z.leb_le].
      unfold sizeof_StreamingToolUse, PTRDIFF_MAX in Eok. cbn. split; [done|]. lia.
    - injection E as <-. split; [done|]. lia. }
  split.
  - unfold tools_ok, da_ok, da_count in *. cbn. rewrite Ed, length_app. cbn.
    split; [done|]. split; [lia|]. apply Forall_app. auto.
  - left. cbn. by rewrite Ed.
Qed.

Lemma emit_tool_start_sound ctx id name : sound ctx -> sound (streaming_emit_tool_start ctx id name).
Proof.
  intros Hs. unfold streaming_emit_tool_start, strdup. cbn -[da_push].
  answers. destruct ok0; [|by apply (sound_ext ctx)]. destruct ok1; [|by apply (sound_ext ctx)].
  destruct ok2; [|by apply (sound_ext ctx)]. cbn -[da_push].
  destruct (da_push _ _ _) as [arr r] eqn:Ep.
  destruct Hs as [[] []]. pose proof Ep as Hp. apply push_tool_ok in Hp as [Hok Hor]; [|done|].
  2: { unfold fits, len, INITIAL_TOOL_ARGS_CAPACITY, PTRDIFF_MAX. cbn. lia. }
  destruct Hor as [[-> Hd]|[Hr ->]].
  - split; split; snoc; try done.
    + unfold da_count. rewrite Hd, length_app. cbn. lia.
    + rewrite Hd, fmap_app. cbn. by f_equal.
  - destruct r; [done|..]; by split; split.
Qed.

Lemma find_tool_Some tools id i :
  find_tool tools id = Some i -> exists t, tools !! i = Some t /\ tu_id t = id.
Proof.
  revert i. induction tools as [|t tools IH]; intros i; cbn; [done|].
  destruct (streq_spec (tu_id t) id) as [E|_].
  - intros [= <-]. by exists t.
  - destruct (find_tool tools id) as [j|]; cbn; [|done]. intros [= <-]. cbn. by apply IH.
Qed.

(** The arguments of a tool replaced by others that fit. *)
Lemma insert_tool_sound ctx ctx' i tool b :
  data (tool_uses ctx) !! i = Some tool -> fits b ->
  line_buffer ctx' = line_buffer ctx -> text ctx' = text ctx -> thinking ctx' = thinking ctx ->
  tool_uses ctx' = mkDarray (<[i := mkToolUse (tu_id tool) (tu_name tool) b]> (data (tool_uses ctx)))
                     (da_capacity (tool_uses ctx)) ->
  -1 <= current_tool_index ctx' < da_count (tool_uses ctx) ->
  shown_text (emitted ctx') = shown_text (emitted ctx) ->
  shown_thinking (emitted ctx') = shown_thinking (emitted ctx) ->
  shown_tools (emitted ctx') = shown_tools (emitted ctx) ->
  sound ctx -> sound ctx'.
Proof.
  intros Hi Hb El Et Eh Eu Hidx Es Esh Est [[? ? ? (Hc & Hok & Hfits) ?] []].
  assert (length (data (tool_uses ctx')) = length (data (tool_uses ctx))) as Hlen.
  { rewrite Eu. cbn. by rewrite length_insert. }
  split; split; rewrite ?El, ?Et, ?Eh, ?Es, ?Esh, ?Est; try done.
  - rewrite Eu. split; [done|]. split.
    + unfold da_ok, da_count in *. cbn. by rewrite length_insert.
    + cbn. by apply Forall_insert.
  - unfold da_count in *. by rewrite Hlen.
  - rewrite Eu. cbn. rewrite list_fmap_insert. rewrite list_insert_id; [done|].
    by rewrite list_lookup_fmap, Hi.
Qed.

Lemma in_range_true i n : in_range i n = true <-> 0 <= i < n.
Proof. unfold in_range. rewrite andb_true_iff, Z.leb_le, Z.ltb_lt. done. Qed.

Lemma delta_index_range ctx id :
  -1 <= current_tool_index ctx < da_count (tool_uses ctx) ->
  -1 <= delta_index ctx id < da_count (tool_uses ctx).
Proof.
  intros H. unfold delta_index. destruct (in_range _ _); [done|].
  destruct (find_tool _ _) as [i|] eqn:E; [|done].
  apply find_tool_Some in E as (t & Ht%lookup_lt_Some & _). unfold da_count. lia.
Qed.

Lemma emit_tool_delta_sound ctx id s :
  len s < PTRDIFF_MAX -> sound ctx -> sound (streaming_emit_tool_delta ctx id s).
Proof.
  intros Hlen Hs. pose proof (delta_index_range ctx id (index_fits _ (proj1 Hs))) as Hidx.
  unfold streaming_emit_tool_delta. destruct s as [|c s]; [done|].
  revert Hlen. generalize (c :: s). clear c s. intros s Hlen.
  cbn -[delta_index append_arguments]. set (i := delta_index ctx id) in *. clearbody i.
  assert (sound (with_tools (tool_uses ctx) i ctx)) as Hs'.
  { destruct Hs as [[] []]. by split; split. }
  destruct (in_range i _); [|done].
  destruct (data (tool_uses ctx) !! Z.to_nat i) as [tool|] eqn:Hi; [|done].
  destruct (negb _); [done|]. answers.
  destruct (append_arguments _ _ _) as [b|] eqn:E; [|by apply (sound_ext (with_tools (tool_uses ctx) i ctx))].
  apply append_arguments_fits in E as [Hb _]; [| |done].
  - apply (insert_tool_sound ctx _ (Z.to_nat i) tool b); snoc; done.
  - destruct (tools_fit _ (proj1 Hs)) as (_ & _ & Hf).
    rewrite Forall_lookup in Hf. by eapply Hf.
Qed.

Lemma replace_tool_arguments_sound ctx id s :
  sound ctx -> sound (streaming_replace_tool_arguments ctx id s).
Proof.
  intros Hs. unfold streaming_replace_tool_arguments.
  destruct (find_tool _ _) as [i|] eqn:E; [|done].
  apply find_tool_Some in E as (tool & Hi & _). rewrite Hi. cbn.
  answers. destruct (if _ : bool then _ else _) as [c|] eqn:Ec; [|by apply (sound_ext ctx)].
  apply (insert_tool_sound ctx _ i tool (mkBuffer s c)); cbn; try done.
  2: by destruct Hs as [[] _].
  destruct (tools_fit _ (proj1 Hs)) as (_ & _ & Hf). rewrite Forall_lookup in Hf.
  apply Hf in Hi as [Hlt Hcap]. unfold fits. cbn.
  destruct (Z.ltb_spec (capacity (tu_arguments tool)) (len s + 1)).
  - unfold reallocated in Ec. destruct (_ && _) eqn:Eok; [|done]. injection Ec as <-.
    apply andb_true_iff in Eok as [_ Eok%Z.leb_le]. lia.
  - injection Ec as <-. lia.
Qed.

Lemma emit_complete_sound ctx r : sound ctx -> sound (streaming_emit_complete ctx r).
Proof.
  intros Hs. unfold streaming_emit_complete, set_stop_reason, strdup. cbn.
  repeat case_match; apply (sound_ext ctx); snoc; done.
Qed.

Lemma emit_error_sound ctx e : sound ctx -> sound (streaming_emit_error ctx e).
Proof.
  intros Hs. unfold streaming_emit_error, strdup. cbn.
  repeat case_match; apply (sound_ext ctx); snoc; done.
Qed.
End Preserved.

(** ** The interface of a provider's parser *)

(** What the line parser relies on: a data line keeps the context sound, never
    touches the line buffer, and finds memory when there is memory. *)
Class SseHandler {U} (f : cstr -> StreamingContext U -> StreamingContext U) : Prop := {
  handler_sound p ctx : len p < PTRDIFF_MAX -> sound ctx -> sound (f p ctx);
  handler_line p ctx b : f p (with_line b ctx) = with_line b (f p ctx);
  handler_allocs p ctx : allocs ctx = [] -> allocs (f p ctx) = []
}.

(** ** The lines of a text *)

Definition no_cr (s : cstr) : cstr := List.filter (fun c => negb (Ascii.eqb c CR)) s.

(** The text cut at each line feed. *)
Fixpoint pieces (s : cstr) : list cstr :=
  match s with
  | [] => [[]]
  | c :: s' =>
      if Ascii.eqb c LF then [] :: pieces s'
      else match pieces s' with [] => [[c]] | p :: ps => (c :: p) :: ps end
  end.

(** A line begun before the text. *)
Definition continued (l : cstr) (ps : list cstr) : list cstr :=
  match ps with [] => [l] | p :: ps => (l ++ p) :: ps end.

Definition nonempty (l : cstr) : bool := match l with [] => false | _ => true end.

(** The complete lines that are not empty, and the line not yet ended. *)
Definition full_lines (ps : list cstr) : list cstr := List.filter nonempty (removelast ps).
Definition open_line (ps : list cstr) : cstr := List.last ps [].

Lemma pieces_cons s : exists p ps, pieces s = p :: ps.
Proof.
  destruct s as [|c s]; cbn; [by eauto|]. destruct (Ascii.eqb c LF); [by eauto|].
  destruct (pieces s); by eauto.
Qed.

Lemma pieces_char l c s :
  Ascii.eqb c LF = false -> continued l (pieces (c :: s)) = continued (l ++ [c]) (pieces s).
Proof.
  intros Hc. cbn [pieces]. rewrite Hc. destruct (pieces_cons s) as (p & ps & ->). cbn. by rewrite <- app_assoc.
Qed.

Lemma full_lines_lf l s :
  full_lines (continued l (pieces (LF :: s))) = (if nonempty l then [l] else []) ++ full_lines (pieces s).
Proof.
  unfold full_lines. cbn. destruct (pieces_cons s) as (p & ps & ->). rewrite app_nil_r. cbn.
  by destruct (nonempty l).
Qed.

Lemma open_line_lf l s : open_line (continued l (pieces (LF :: s))) = open_line (pieces s).
Proof. unfold open_line. cbn. by destruct (pieces_cons s) as (p & ps & ->). Qed.

Lemma continued_nil s : continued [] (pieces s) = pieces s.
Proof. by destruct (pieces_cons s) as (p & ps & ->). Qed.

(** ** The line parser *)

Section Lines.
Context {F : Freed} {U : Type} (h : cstr -> StreamingContext U -> StreamingContext U) {H : SseHandler h}.
Implicit Types (ctx : StreamingContext U).

Lemma sse_line_sound ctx line :
  len line < PTRDIFF_MAX -> sound ctx -> sound (streaming_process_sse_line (Some h) ctx line).
Proof.
  intros Hlen Hs. unfold streaming_process_sse_line. destruct (has_prefix (cs "data: ") line).
  - destruct (streq _ _); [by apply emit_complete_sound|].
    assert (len (drop 6 line) < PTRDIFF_MAX) as Hd by (unfold len in *; rewrite length_drop; lia).
    destruct (drop 6 line) as [|c p]; [|apply handler_sound; [done|]]; by apply (sound_ext ctx).
  - destruct (has_prefix (cs "event: ") line); [|done]. unfold strdup. cbn.
    by apply (sound_ext ctx).
Qed.

Lemma sse_line_line ctx line b :
  streaming_process_sse_line (Some h) (with_line b ctx) line =
  with_line b (streaming_process_sse_line (Some h) ctx line).
Proof.
  unfold streaming_process_sse_line. destruct (has_prefix (cs "data: ") line).
  - destruct (streq _ _).
    + unfold stop_reason_or, streaming_emit_complete. cbn. by destruct (stop_reason ctx).
    + destruct (drop 6 line) as [|c p]; [done|]. apply (handler_line (c :: p) (with_state STREAM_STATE_READING_DATA ctx)).
  - by destruct (has_prefix (cs "event: ") line).
Qed.

Lemma sse_line_allocs ctx line :
  allocs ctx = [] -> allocs (streaming_process_sse_line (Some h) ctx line) = [].
Proof.
  intros Ha. unfold streaming_process_sse_line. destruct (has_prefix (cs "data: ") line).
  - destruct (streq _ _).
    + unfold stop_reason_or, streaming_emit_complete, set_stop_reason, strdup. cbn.
      destruct (stop_reason ctx) eqn:E; cbn; rewrite ?E; cbn; by rewrite Ha.
    + destruct (drop 6 line); [done|]. by apply handler_allocs.
  - destruct (has_prefix (cs "event: ") line); cbn; by rewrite Ha.
Qed.

(** A provider cannot move the line buffer. *)
Lemma sse_line_same ctx line : line_buffer (streaming_process_sse_line (Some h) ctx line) = line_buffer ctx.
Proof.
  pose proof (sse_line_line ctx line (line_buffer ctx)) as E.
  assert (with_line (line_buffer ctx) ctx = ctx) as Eta by (by destruct ctx). rewrite Eta in E. by rewrite E.
Qed.

Lemma end_of_line_sound ctx : sound ctx -> sound (end_of_line (Some h) ctx).
Proof.
  intros Hs. unfold end_of_line. pose proof (line_fits _ (proj1 Hs)) as Hl.
  assert (forall ctx', sound ctx' -> sound (with_line (mkBuffer [] (capacity (line_buffer ctx'))) ctx')) as Hw.
  { intros ctx' Hs'. apply sound_line; [|done]. destruct (line_fits _ (proj1 Hs')) as [Hlt ?].
    pose proof (len_nonneg (content (line_buffer ctx'))). unfold fits, len at 1. cbn. lia. }
  apply Hw. destruct (content (line_buffer ctx)) as [|c l] eqn:E; [done|]. rewrite <- E.
  apply sse_line_sound; [|done]. destruct Hl. lia.
Qed.

Lemma append_char_sound ctx c ctx' : sound ctx -> streaming_append_char ctx c = Some ctx' -> sound ctx'.
Proof.
  intros Hs. unfold streaming_append_char. cbn -[ensure_capacity]. answers.
  destruct (ensure_capacity _ _ _) as [cap|] eqn:E; cbn; [|done]. intros [= <-].
  apply (ensure_capacity_fits _ _ _ _ [c]) in E; [|by destruct Hs as [[] _]|done].
  apply (sound_line (with_allocs _ ctx)); [done|]. by apply (sound_ext ctx).
Qed.

Lemma process_chunk_sound ctx s : sound ctx -> sound (streaming_process_chunk (Some h) ctx s).2.
Proof.
  revert ctx. induction s as [|c s IH]; intros ctx Hs; cbn -[streaming_append_char]; [done|].
  destruct (Ascii.eqb c LF); [by apply IH, end_of_line_sound|].
  destruct (Ascii.eqb c CR); [by apply IH|].
  destruct (streaming_append_char ctx c) as [ctx'|] eqn:E; [|done].
  eapply IH, append_char_sound; done.
Qed.

(** Two chunks are one. *)
Lemma process_chunk_app ctx a b :
  streaming_process_chunk (Some h) ctx (a ++ b) =
  match streaming_process_chunk (Some h) ctx a with
  | (0, ctx) => streaming_process_chunk (Some h) ctx b
  | r => r
  end.
Proof.
  revert ctx. induction a as [|c a IH]; intros ctx; cbn -[streaming_append_char]; [done|].
  destruct (Ascii.eqb c LF); [apply IH|]. destruct (Ascii.eqb c CR); [apply IH|].
  destruct (streaming_append_char ctx c); [apply IH|done].
Qed.

Lemma process_chunks_concat ctx chunks :
  process_chunks (Some h) ctx chunks = streaming_process_chunk (Some h) ctx (concat chunks).
Proof.
  revert ctx. induction chunks as [|a chunks IH]; intros ctx; cbn [process_chunks concat]; [done|].
  rewrite process_chunk_app. destruct (streaming_process_chunk (Some h) ctx a) as [[] ctx'];
    [apply IH|done|done].
Qed.

Lemma append_char_line ctx c :
  sound ctx -> allocs ctx = [] -> len (content (line_buffer ctx)) + 2 <= 2 ^ 62 ->
  exists cap, streaming_append_char ctx c =
    Some (with_line (mkBuffer (content (line_buffer ctx) ++ [c]) cap) ctx).
Proof.
  intros Hs Ha Hlen. unfold streaming_append_char. cbn -[ensure_capacity]. rewrite Ha.
  destruct (ensure_capacity_total (line_buffer ctx) 1) as [cap ->]; [by destruct Hs as [[] _]|lia|lia|].
  exists cap. cbn. destruct ctx. cbn in Ha. by subst.
Qed.

Definition run_lines ctx (lines : list cstr) : StreamingContext U :=
  fold_left (streaming_process_sse_line (Some h)) lines ctx.

Lemma run_lines_line ctx lines b : run_lines (with_line b ctx) lines = with_line b (run_lines ctx lines).
Proof.
  revert ctx. induction lines as [|l lines IH]; intros ctx; [done|].
  unfold run_lines in *. cbn. by rewrite sse_line_line.
Qed.

(** A chunk runs its complete lines and keeps the open one. *)
Lemma process_chunk_lines ctx s :
  sound ctx -> allocs ctx = [] -> len (content (line_buffer ctx)) + len s + 1 <= 2 ^ 62 ->
  let ps := continued (content (line_buffer ctx)) (pieces (no_cr s)) in
  exists cap, streaming_process_chunk (Some h) ctx s =
    (0, with_line (mkBuffer (open_line ps) cap) (run_lines ctx (full_lines ps))).
Proof.
  revert ctx. induction s as [|c s IH]; intros ctx Hs Ha Hlen; cbn zeta.
  - exists (capacity (line_buffer ctx)). cbn. rewrite app_nil_r. destruct ctx as [? []]. reflexivity.
  - rewrite len_cons in Hlen. pose proof (len_nonneg s). pose proof (len_nonneg (content (line_buffer ctx))).
    cbn [streaming_process_chunk no_cr List.filter].
    destruct (Ascii.eqb_spec c LF) as [->|Hlf]; [|destruct (Ascii.eqb_spec c CR) as [->|Hcr]].
    + change (Ascii.eqb LF CR) with false. cbn [negb].
      set (ctx1 := end_of_line (Some h) ctx).
      assert (content (line_buffer ctx1) = []) as Hnil by done.
      assert (allocs ctx1 = []) as Ha1.
      { unfold ctx1, end_of_line. destruct (content (line_buffer ctx)); [done|]. by apply sse_line_allocs. }
      destruct (IH ctx1) as (cap & E); [by apply end_of_line_sound|done|rewrite Hnil; unfold len in *; cbn; lia|].
      exists cap. rewrite E. cbn zeta. rewrite full_lines_lf, open_line_lf, Hnil, continued_nil. fold (no_cr s).
      f_equal. unfold ctx1, end_of_line. destruct (content (line_buffer ctx)) as [|c l] eqn:El; cbn [nonempty app].
      * rewrite run_lines_line. done.
      * rewrite run_lines_line. done.
    + change (Ascii.eqb CR CR) with true. cbn [negb]. apply IH; [done|done|lia].
    + apply Ascii.eqb_neq in Hlf, Hcr. rewrite ?Hcr. cbn [negb].
      destruct (append_char_line ctx c) as (cap1 & E); [done|done|lia|].
      pose proof (append_char_sound _ _ _ Hs E) as Hs1. rewrite E.
      destruct (IH _ Hs1) as (cap & E2); [done| |].
      { cbn. rewrite len_app, len_cons. change (len []) with 0. lia. }
      exists cap. rewrite E2. cbn zeta. cbn [with_line line_buffer content]. rewrite (pieces_char _ c _ Hlf).
      f_equal. by rewrite run_lines_line.
Qed.
End Lines.
