(* ===== verification/Providers.v ===== *)
(** * The parsers of the providers (lib/llm/providers)

    The [parse_stream_event] function of each provider, which a data line of the
    stream is given to, and the choice of the provider for a URL
    (lib/llm/llm_provider.c). [cJSON_ParseWithLength] is a function of the JSON
    library. *)

From S2P Require Import Prelude CString Json Darray Streaming.
Local Open Scope bool_scope.
Local Open Scope Z_scope.

Class ParseWithLength := cJSON_ParseWithLength : cstr -> option cJSON.

Section Providers.
Context {F : Freed} {J : CJson} {P : ParseWithLength}.

(** [cJSON_GetObjectItem] of a node that may be NULL, and two levels down. *)
Definition item (j : option cJSON) (k : string) : option cJSON := j ≫= fun j => cJSON_GetObjectItem j (cs k).
Definition string_item (j : option cJSON) (k : string) : option cstr := cJSON_IsString (item j k).
Definition int_item (j : option cJSON) (k : string) : option Z := valueint <$> cJSON_IsNumber (item j k).

(** A token count of the message replaces the one of the context. *)
Definition set_input_tokens {U} (n : option Z) (ctx : StreamingContext U) : StreamingContext U :=
  match n with Some n => with_tokens n (output_tokens ctx) ctx | None => ctx end.
Definition set_output_tokens {U} (n : option Z) (ctx : StreamingContext U) : StreamingContext U :=
  match n with Some n => with_tokens (input_tokens ctx) n ctx | None => ctx end.

(** ** Anthropic *)

(** The thread-local variables. *)
Record AnthropicState := mkAnthropic {
  current_block_type : option cstr;
  current_tool_id : option cstr
}.

Section Anthropic.
Implicit Types (ctx : StreamingContext AnthropicState) (root : cJSON).

Definition set_block_type (t : option cstr) ctx :=
  with_user (mkAnthropic t (current_tool_id (user_data ctx))) ctx.
Definition set_tool_id (i : option cstr) ctx :=
  with_user (mkAnthropic (current_block_type (user_data ctx)) i) ctx.

Definition anthropic_cleanup_stream_state_internal ctx := with_user (mkAnthropic None None) ctx.

Definition anthropic_message_start root ctx :=
  let ctx := anthropic_cleanup_stream_state_internal ctx in
  set_input_tokens (int_item (item (item (Some root) "message") "usage") "input_tokens") ctx.

Definition anthropic_block_start root ctx :=
  let content_block := item (Some root) "content_block" in
  match string_item content_block "type" with
  | None => ctx
  | Some block_type =>
      let '(t, ctx) := strdup block_type ctx in
      let ctx := set_block_type t ctx in
      if streq block_type (cs "tool_use") then
        match string_item content_block "id", string_item content_block "name" with
        | Some id, Some name =>
            let '(id', ctx) := strdup id ctx in
            streaming_emit_tool_start (set_tool_id id' ctx) id name
        | _, _ => ctx
        end
      else ctx
  end.

Definition anthropic_block_delta root ctx :=
  let delta := item (Some root) "delta" in
  match string_item delta "type" with
  | None => ctx
  | Some delta_type =>
      if streq delta_type (cs "text_delta") then
        match string_item delta "text" with Some s => streaming_emit_text ctx s | None => ctx end
      else if streq delta_type (cs "thinking_delta") then
        match string_item delta "thinking" with Some s => streaming_emit_thinking ctx s | None => ctx end
      else if streq delta_type (cs "input_json_delta") then
        match string_item delta "partial_json", current_tool_id (user_data ctx) with
        | Some s, Some id => streaming_emit_tool_delta ctx id s
        | _, _ => ctx
        end
      else ctx
  end.

Definition anthropic_message_delta root ctx :=
  let ctx := match string_item (item (Some root) "delta") "stop_reason" with
             | Some r => set_stop_reason ctx r
             | None => ctx
             end in
  set_output_tokens (int_item (item (Some root) "usage") "output_tokens") ctx.

Definition anthropic_error root ctx :=
  let ctx := match string_item (item (Some root) "error") "message" with
             | Some m => streaming_emit_error ctx (Some m)
             | None => ctx
             end in
  anthropic_cleanup_stream_state_internal ctx.

Definition anthropic_event (type_str : cstr) root ctx :=
  if streq type_str (cs "message_start") then anthropic_message_start root ctx
  else if streq type_str (cs "content_block_start") then anthropic_block_start root ctx
  else if streq type_str (cs "content_block_delta") then anthropic_block_delta root ctx
  else if streq type_str (cs "content_block_stop") then set_block_type None ctx
  else if streq type_str (cs "message_delta") then anthropic_message_delta root ctx
  else if streq type_str (cs "message_stop") then
    anthropic_cleanup_stream_state_internal
      (streaming_emit_complete ctx (stop_reason_or ctx (cs "end_turn")))
  else if streq type_str (cs "error") then anthropic_error root ctx
  else ctx.

Definition anthropic_parse_stream_event (json_data : cstr) ctx : Z * StreamingContext AnthropicState :=
  match json_data with
  | [] => (-1, ctx)
  | _ =>
      match cJSON_ParseWithLength json_data with
      | None => (-1, ctx)
      | Some root =>
          match string_item (Some root) "type" with
          | None => (-1, ctx)
          | Some type_str => (0, anthropic_event type_str root ctx)
          end
      end
  end.
End Anthropic.

(** ** OpenAI and the local servers *)

Section OpenAI.
Context {U : Type}.
Implicit Types (ctx : StreamingContext U) (root : cJSON).

(** The tool an argument delta belongs to: by its index, or the current one. *)
Definition delta_tool_id ctx (index : Z) : option cstr :=
  let tools := data (tool_uses ctx) in
  if wrap64 index <? da_count (tool_uses ctx) then tu_id <$> tools !! Z.to_nat (wrap64 index)
  else if in_range (current_tool_index ctx) (da_count (tool_uses ctx)) then
    tu_id <$> tools !! Z.to_nat (current_tool_index ctx)
  else None.

Definition openai_tool_call ctx (tool_call : cJSON) : StreamingContext U :=
  let index := default 0 (int_item (Some tool_call) "index") in
  match item (Some tool_call) "function" with
  | None => ctx
  | Some function =>
      let ctx := match string_item (Some tool_call) "id", string_item (Some function) "name" with
                 | Some id, Some name => streaming_emit_tool_start ctx id name
                 | _, _ => ctx
                 end in
      match string_item (Some function) "arguments" with
      | Some ((_ :: _) as arguments) =>
          match delta_tool_id ctx index with
          | Some tool_id => streaming_emit_tool_delta ctx tool_id arguments
          | None => ctx
          end
      | _ => ctx
      end
  end.

Definition openai_parse_tool_call_delta ctx (tool_calls : option cJSON) : StreamingContext U :=
  match cJSON_IsArray tool_calls with
  | Some calls => fold_left openai_tool_call calls ctx
  | None => ctx
  end.

(** Text and tool calls of the first choice. *)
Definition choice_delta (choice : cJSON) ctx : StreamingContext U :=
  let delta := item (Some choice) "delta" in
  let ctx := match string_item delta "content" with Some s => streaming_emit_text ctx s | None => ctx end in
  openai_parse_tool_call_delta ctx (item delta "tool_calls").

(** The usage of the message. *)
Definition usage_tokens root ctx : StreamingContext U :=
  let usage := item (Some root) "usage" in
  set_output_tokens (int_item usage "completion_tokens")
    (set_input_tokens (int_item usage "prompt_tokens") ctx).

Definition first_choice root : option cJSON :=
  match cJSON_IsArray (item (Some root) "choices") with Some (choice :: _) => Some choice | _ => None end.

Definition openai_event root ctx : StreamingContext U :=
  let ctx := match first_choice root with
             | None => ctx
             | Some choice =>
                 let ctx := choice_delta choice ctx in
                 match string_item (Some choice) "finish_reason" with
                 | Some r => set_stop_reason ctx r
                 | None => ctx
                 end
             end in
  usage_tokens root ctx.

Definition openai_parse_stream_event (json_data : cstr) ctx : Z * StreamingContext U :=
  match json_data with
  | [] => (-1, ctx)
  | _ =>
      if streq json_data (cs "[DONE]") then (0, ctx)
      else match cJSON_ParseWithLength json_data with
           | None => (-1, ctx)
           | Some root => (0, openai_event root ctx)
           end
  end.

(** The local servers: a stop reason that cannot be copied is not lost. *)
Definition local_ai_event root ctx : StreamingContext U :=
  let ctx := match first_choice root with
             | None => ctx
             | Some choice =>
                 let ctx := choice_delta choice ctx in
                 match string_item (Some choice) "finish_reason" with
                 | Some r =>
                     let '(new_reason, ctx) := strdup r ctx in
                     match new_reason with Some _ => with_stop_reason new_reason ctx | None => ctx end
                 | None => ctx
                 end
             end in
  usage_tokens root ctx.

Definition local_ai_parse_stream_event (json_data : cstr) ctx : Z * StreamingContext U :=
  match json_data with
  | [] => (-1, ctx)
  | _ =>
      if streq json_data (cs "[DONE]") then (0, ctx)
      else match cJSON_ParseWithLength json_data with
           | None => (-1, ctx)
           | Some root => (0, local_ai_event root ctx)
           end
  end.

(** ** Codex: the Responses API *)

(** The call a streamed item describes, when it is one. *)
Definition function_call (item' : option cJSON) : option (cstr * cstr) :=
  type ← string_item item' "type";
  if streq type (cs "function_call") then
    call_id ← string_item item' "call_id"; name ← string_item item' "name"; Some (call_id, name)
  else None.

(** The id of the tool whose arguments are streamed. *)
Definition streamed_tool_id ctx : option cstr :=
  if in_range (current_tool_index ctx) (da_count (tool_uses ctx)) then
    tu_id <$> data (tool_uses ctx) !! Z.to_nat (current_tool_index ctx)
  else None.

Definition codex_item_done root ctx : StreamingContext U :=
  let item' := item (Some root) "item" in
  match function_call item' with
  | None => ctx
  | Some (call_id, name) =>
      let ctx := match find_tool (data (tool_uses ctx)) call_id with
                 | Some _ => ctx
                 | None => streaming_emit_tool_start ctx call_id name
                 end in
      streaming_replace_tool_arguments ctx call_id (default (cs "{}") (string_item item' "arguments"))
  end.

(** Why a response failed, or the name of the event. *)
Definition failure_reason root (event_type : cstr) : cstr :=
  let response := item (Some root) "response" in
  let detail := match item response "status_details" with
                | Some d => Some d
                | None => item response "incomplete_details"
                end in
  default event_type (string_item detail "reason").

Definition codex_event (event_type : cstr) root ctx : StreamingContext U :=
  if streq event_type (cs "response.output_text.delta") then
    match string_item (Some root) "delta" with Some s => streaming_emit_text ctx s | None => ctx end
  else if streq event_type (cs "response.output_item.added") then
    match function_call (item (Some root) "item") with
    | Some (call_id, name) => streaming_emit_tool_start ctx call_id name
    | None => ctx
    end
  else if streq event_type (cs "response.function_call_arguments.delta") then
    match string_item (Some root) "delta", streamed_tool_id ctx with
    | Some s, Some tool_id => streaming_emit_tool_delta ctx tool_id s
    | _, _ => ctx
    end
  else if streq event_type (cs "response.function_call_arguments.done") then
    match string_item (Some root) "arguments", streamed_tool_id ctx with
    | Some s, Some tool_id => streaming_replace_tool_arguments ctx tool_id s
    | _, _ => ctx
    end
  else if streq event_type (cs "response.output_item.done") then codex_item_done root ctx
  else if streq event_type (cs "response.completed") then
    let usage := item (item (Some root) "response") "usage" in
    let ctx := set_output_tokens (int_item usage "output_tokens")
                 (set_input_tokens (int_item usage "input_tokens") ctx) in
    streaming_emit_complete ctx (Literal (cs "stop"))
  else if streq event_type (cs "response.failed") || streq event_type (cs "response.incomplete") then
    streaming_emit_error ctx (Some (failure_reason root event_type))
  else if streq event_type (cs "error") then
    streaming_emit_error ctx
      (Some (default (cs "unknown error") (string_item (item (Some root) "error") "message")))
  else ctx.

Definition codex_parse_stream_event (json_data : cstr) ctx : Z * StreamingContext U :=
  match json_data with
  | [] => (-1, ctx)
  | _ =>
      if streq json_data (cs "[DONE]") then (0, ctx)
      else match cJSON_ParseWithLength json_data with
           | None => (-1, ctx)
           | Some root =>
               match string_item (Some root) "type" with
               | None => (-1, ctx)
               | Some event_type => (0, codex_event event_type root ctx)
               end
           end
  end.
End OpenAI.

(** What the line parser calls: the result code is not looked at
    ([streaming_sse_data_callback] of lib/agent/streaming_handler.c with no
    interrupt pending). *)
Definition streaming_sse_data_callback {U} (parse : cstr -> StreamingContext U -> Z * StreamingContext U)
    (json_data : cstr) (ctx : StreamingContext U) : StreamingContext U := (parse json_data ctx).2.
End Providers.

(** ** The provider of a URL *)

Inductive LLMProvider := CodexProvider | OpenAIProvider | AnthropicProvider | LocalAIProvider.

Definition CODEX_URL_PATTERN : cstr := cs "chatgpt.com/backend-api/codex".

Definition codex_detect_provider (api_url : cstr) : bool := contains api_url CODEX_URL_PATTERN.
Definition openai_detect_provider (api_url : cstr) : bool :=
  contains api_url (cs "api.openai.com") || contains api_url (cs "openai.azure.com")
  || contains api_url (cs "api.groq.com").
Definition anthropic_detect_provider (api_url : cstr) : bool := contains api_url (cs "api.anthropic.com").
Definition local_ai_detect_provider (api_url : cstr) : bool :=
  negb (contains api_url (cs "api.anthropic.com") || contains api_url (cs "api.openai.com")
        || contains api_url (cs "openai.azure.com") || contains api_url (cs "api.groq.com")
        || contains api_url (cs "chatgpt.com")).

Definition detect_provider (provider : LLMProvider) : cstr -> bool :=
  match provider with
  | CodexProvider => codex_detect_provider
  | OpenAIProvider => openai_detect_provider
  | AnthropicProvider => anthropic_detect_provider
  | LocalAIProvider => local_ai_detect_provider
  end.

(** The order of registration. *)
Definition get_provider_registry : list LLMProvider :=
  [CodexProvider; OpenAIProvider; AnthropicProvider; LocalAIProvider].

Fixpoint detect_provider_for_url (registry : list LLMProvider) (api_url : cstr) : option LLMProvider :=
  match registry with
  | [] => None
  | provider :: registry' =>
      if detect_provider provider api_url then Some provider else detect_provider_for_url registry' api_url
  end.

(** ** Request headers *)

Definition MAX_AUTH_HEADER_SIZE : nat := 2200.

(** [snprintf] of a prefix and a string into a buffer. *)
Definition header_text (size : nat) (prefix : string) (s : cstr) : cstr := take (pred size) (cs prefix ++ s).

(** [if (condition && count < max_headers - 1) headers[count++] = h] *)
Definition add_header (max_headers : Z) (condition : bool) (h : cstr) (headers : list cstr) : list cstr :=
  if condition && (Z.of_nat (length headers) <? max_headers - 1) then headers ++ [h] else headers.

Definition has_key (api_key : option cstr) : bool :=
  match api_key with Some (_ :: _) => true | _ => false end.

Definition anthropic_build_headers (api_key : option cstr) (max_headers : Z) : list cstr :=
  if max_headers <? 4 then []
  else
    let hs := add_header max_headers (has_key api_key)
                (header_text MAX_AUTH_HEADER_SIZE "x-api-key: " (default [] api_key)) [] in
    let hs := add_header max_headers true (cs "anthropic-version: 2023-06-01") hs in
    add_header max_headers true (cs "anthropic-beta: prompt-caching-2024-07-31") hs.

Definition openai_build_headers (api_key : option cstr) (max_headers : Z) : list cstr :=
  if max_headers <? 2 then []
  else add_header max_headers (has_key api_key)
         (header_text MAX_AUTH_HEADER_SIZE "Authorization: Bearer " (default [] api_key)) [].

Definition local_ai_build_headers (api_key : option cstr) (max_headers : Z) : list cstr :=
  if max_headers <? 2 then []
  else add_header max_headers (has_key api_key)
         (header_text MAX_AUTH_HEADER_SIZE "Authorization: Bearer " (default [] api_key)) [].

(** The thread-local account id: empty when it is not set. *)
Definition CODEX_MAX_ACCOUNT_ID_LEN : nat := 128.
Definition codex_set_account_id (account_id : option cstr) : cstr :=
  match account_id with Some a => take (pred CODEX_MAX_ACCOUNT_ID_LEN) a | None => [] end.
Definition codex_get_account_id (tl_account_id : cstr) : option cstr :=
  match tl_account_id with [] => None | _ => Some tl_account_id end.

Definition codex_build_headers (tl_account_id : cstr) (api_key : option cstr) (max_headers : Z) : list cstr :=
  let hs := add_header max_headers (has_key api_key)
              (header_text MAX_AUTH_HEADER_SIZE "Authorization: Bearer " (default [] api_key)) [] in
  let acct := codex_get_account_id tl_account_id in
  add_header max_headers (bool_decide (is_Some acct))
    (header_text 256 "chatgpt-account-id: " (default [] acct)) hs.
