(* ===== verification/ProviderFacts.v ===== *)
(** * The parsers of the providers satisfy the interface of the line parser

    The laws of the JSON library a stream relies on ([StreamJson]), an
    executable instance, and the proofs that each provider is an [SseHandler];
    then what each provider makes of a well-formed stream. *)

From S2P Require Import Prelude CString Json Darray Streaming StreamingFacts Providers.
Local Open Scope bool_scope.
Local Open Scope Z_scope.

Create HintDb stream discriminated.
#[export] Hint Constants Opaque : stream.
Create Rewrite HintDb stream.

(** ** The JSON library *)

(** Every string of the document is an object of the memory. *)
Fixpoint strings_fit (j : cJSON) : bool :=
  match j with
  | JString s => len s <? PTRDIFF_MAX
  | JArray l => forallb strings_fit l
  | JObject l => forallb (fun m => strings_fit m.2) l
  | _ => true
  end.

Class StreamJson (J : CJson) (P : ParseWithLength) : Prop := {
  get_child j k v : cJSON_GetObjectItem j k = Some v -> v ∈ (children j).*2;
  parse_strings t j : cJSON_ParseWithLength t = Some j -> strings_fit j = true
}.

(** The reference parser, for documents in memory. *)
#[export] Instance RefParse : ParseWithLength := fun t =>
  match ref_parse t with
  | Some j => if strings_fit j then Some j else None
  | None => None
  end.

Lemma find_member_child l k v : find_member l k = Some v -> v ∈ l.*2.
Proof.
  induction l as [|[k' v'] l IH]; cbn; [done|]. destruct (strcaseeq k' k).
  - intros [= <-]. by left.
  - intros E. right. by apply IH.
Qed.

#[export] Instance RefStreamJson : StreamJson RefJson RefParse.
Proof.
  split.
  - intros [| | | | |l] k v; cbn; try done. intros Hv%find_member_child.
    rewrite <- list_fmap_compose. done.
  - intros t j. cbv [cJSON_ParseWithLength RefParse]. destruct (ref_parse t); [|done].
    destruct (strings_fit _) eqn:E; [|done]. by intros [= <-].
Qed.

(** ** Operations and the interface *)

Section Emits.
Context {F : Freed} {U : Type}.
Implicit Types (ctx : StreamingContext U).

Lemma emit_text_line ctx b s :
  streaming_emit_text (with_line b ctx) s = with_line b (streaming_emit_text ctx s).
Proof. destruct s; [done|]. unfold streaming_emit_text. cbn -[ensure_capacity]. by destruct (ensure_capacity _ _ _). Qed.

Lemma emit_thinking_line ctx b s :
  streaming_emit_thinking (with_line b ctx) s = with_line b (streaming_emit_thinking ctx s).
Proof. destruct s; [done|]. unfold streaming_emit_thinking. cbn -[ensure_capacity]. by destruct (ensure_capacity _ _ _). Qed.

Lemma emit_tool_start_line ctx b id name :
  streaming_emit_tool_start (with_line b ctx) id name = with_line b (streaming_emit_tool_start ctx id name).
Proof. unfold streaming_emit_tool_start, strdup. cbn -[da_push]. by repeat case_match. Qed.

Lemma emit_tool_delta_line ctx b id s :
  streaming_emit_tool_delta (with_line b ctx) id s = with_line b (streaming_emit_tool_delta ctx id s).
Proof.
  destruct s; [done|]. unfold streaming_emit_tool_delta, delta_index. cbn -[append_arguments].
  by repeat case_match.
Qed.

Lemma replace_tool_arguments_line ctx b id s :
  streaming_replace_tool_arguments (with_line b ctx) id s =
  with_line b (streaming_replace_tool_arguments ctx id s).
Proof. unfold streaming_replace_tool_arguments. cbn -[reallocated]. by repeat case_match. Qed.

Lemma emit_complete_line ctx b r :
  streaming_emit_complete (with_line b ctx) r = with_line b (streaming_emit_complete ctx r).
Proof. destruct r; try done. unfold streaming_emit_complete. cbn. by destruct (stop_reason ctx). Qed.

Lemma emit_text_allocs ctx s : allocs ctx = [] -> allocs (streaming_emit_text ctx s) = [].
Proof.
  intros Ha. destruct s; [done|]. unfold streaming_emit_text. cbn -[ensure_capacity]. rewrite Ha.
  by destruct (ensure_capacity _ _ _).
Qed.

Lemma emit_thinking_allocs ctx s : allocs ctx = [] -> allocs (streaming_emit_thinking ctx s) = [].
Proof.
  intros Ha. destruct s; [done|]. unfold streaming_emit_thinking. cbn -[ensure_capacity]. rewrite Ha.
  by destruct (ensure_capacity _ _ _).
Qed.

Lemma emit_tool_start_allocs ctx id name :
  allocs ctx = [] -> allocs (streaming_emit_tool_start ctx id name) = [].
Proof.
  intros Ha. unfold streaming_emit_tool_start, strdup. cbn -[da_push]. rewrite Ha. cbn -[da_push].
  by repeat case_match.
Qed.

Lemma emit_tool_delta_allocs ctx id s : allocs ctx = [] -> allocs (streaming_emit_tool_delta ctx id s) = [].
Proof.
  intros Ha. destruct s; [done|]. unfold streaming_emit_tool_delta. cbn -[append_arguments delta_index].
  rewrite Ha. by repeat case_match.
Qed.

Lemma replace_tool_arguments_allocs ctx id s :
  allocs ctx = [] -> allocs (streaming_replace_tool_arguments ctx id s) = [].
Proof.
  intros Ha. unfold streaming_replace_tool_arguments. cbn -[reallocated]. rewrite Ha. by repeat case_match.
Qed.

Lemma emit_complete_allocs ctx r : allocs ctx = [] -> allocs (streaming_emit_complete ctx r) = [].
Proof.
  intros Ha. unfold streaming_emit_complete, set_stop_reason, strdup. cbn. rewrite Ha. by repeat case_match.
Qed.

Lemma emit_error_allocs ctx e : allocs ctx = [] -> allocs (streaming_emit_error ctx e) = [].
Proof. intros Ha. unfold streaming_emit_error, strdup. destruct e; cbn; by rewrite Ha. Qed.

Lemma set_stop_reason_allocs ctx r : allocs ctx = [] -> allocs (set_stop_reason ctx r) = [].
Proof. intros Ha. unfold set_stop_reason, strdup. cbn. by rewrite Ha. Qed.

Lemma set_stop_reason_sound ctx r : sound ctx -> sound (set_stop_reason ctx r).
Proof. intros Hs. by apply (sound_ext ctx). Qed.

Lemma set_input_tokens_sound ctx n : sound ctx -> sound (set_input_tokens n ctx).
Proof. intros Hs. by destruct n; [apply (sound_ext ctx)|]. Qed.

Lemma set_output_tokens_sound ctx n : sound ctx -> sound (set_output_tokens n ctx).
Proof. intros Hs. by destruct n; [apply (sound_ext ctx)|]. Qed.

Lemma with_user_sound ctx u : sound ctx -> sound (with_user u ctx).
Proof. intros Hs. by apply (sound_ext ctx). Qed.

Lemma set_input_tokens_allocs ctx n : allocs (set_input_tokens n ctx) = allocs ctx.
Proof. by destruct n. Qed.

Lemma set_output_tokens_allocs ctx n : allocs (set_output_tokens n ctx) = allocs ctx.
Proof. by destruct n. Qed.

Lemma set_input_tokens_line ctx b n : set_input_tokens n (with_line b ctx) = with_line b (set_input_tokens n ctx).
Proof. by destruct n. Qed.

Lemma set_output_tokens_line ctx b n : set_output_tokens n (with_line b ctx) = with_line b (set_output_tokens n ctx).
Proof. by destruct n. Qed.
End Emits.

#[export] Hint Resolve emit_text_sound emit_thinking_sound emit_tool_start_sound emit_tool_delta_sound
  replace_tool_arguments_sound emit_complete_sound emit_error_sound set_stop_reason_sound
  set_input_tokens_sound set_output_tokens_sound with_user_sound : stream.
#[export] Hint Resolve emit_text_allocs emit_thinking_allocs emit_tool_start_allocs emit_tool_delta_allocs
  replace_tool_arguments_allocs emit_complete_allocs emit_error_allocs set_stop_reason_allocs : stream.
#[export] Hint Rewrite @emit_text_line @emit_thinking_line @emit_tool_start_line @emit_tool_delta_line
  @replace_tool_arguments_line @emit_complete_line @set_input_tokens_line @set_output_tokens_line : stream.
#[export] Hint Rewrite @set_input_tokens_allocs @set_output_tokens_allocs : stream.

(** ** The providers *)

Section Handlers.
Context {F : Freed} {J : CJson} {P : ParseWithLength} {SJ : StreamJson J P}.

Definition fit (j : option cJSON) : Prop := from_option strings_fit true j = true.

Lemma children_fit j v : strings_fit j = true -> v ∈ (children j).*2 -> strings_fit v = true.
Proof.
  intros Hj Hv. destruct j as [| | | |l|l]; cbn in Hv; try by inversion Hv.
  - rewrite <- list_fmap_compose in Hv. cbn in Hv. apply list_elem_of_fmap in Hv as (w & -> & Hw).
    cbn in Hj. rewrite forallb_forall in Hj. by apply Hj, list_elem_of_In.
  - rewrite <- list_fmap_compose in Hv. cbn in Hv. apply list_elem_of_fmap in Hv as (w & -> & Hw).
    cbn in Hj. rewrite forallb_forall in Hj. cbn. by apply (Hj w), list_elem_of_In.
Qed.

Lemma item_fit j k : fit j -> fit (item j k).
Proof.
  destruct j as [j|]; cbn; [|done]. intros Hj. unfold fit.
  destruct (cJSON_GetObjectItem j (cs k)) as [v|] eqn:E; cbn; [|done].
  by eapply children_fit, get_child.
Qed.

Lemma string_item_fit j k s : fit j -> string_item j k = Some s -> len s < PTRDIFF_MAX.
Proof.
  intros Hj. unfold string_item. pose proof (item_fit j k Hj) as Hv.
  destruct (item j k) as [[]|]; cbn; try done. intros [= <-]. by apply Z.ltb_lt.
Qed.

Lemma array_fit j l : fit j -> cJSON_IsArray j = Some l -> Forall (fun v => fit (Some v)) l.
Proof.
  intros Hj. destruct j as [[| | | |l'|]|]; cbn; try done. intros [= ->].
  apply Forall_forall. intros v Hv. cbn in Hj. unfold fit in *. cbn in *. rewrite forallb_forall in Hj.
  by apply Hj, list_elem_of_In.
Qed.

Hint Resolve item_fit string_item_fit : stream.

Lemma callback_handler {U} (parse : cstr -> StreamingContext U -> Z * StreamingContext U)
    (event : cJSON -> StreamingContext U -> StreamingContext U) :
  (forall root ctx, fit (Some root) -> sound ctx -> sound (event root ctx)) ->
  (forall root ctx b, event root (with_line b ctx) = with_line b (event root ctx)) ->
  (forall root ctx, allocs ctx = [] -> allocs (event root ctx) = []) ->
  (forall p ctx, (parse p ctx).2 = ctx \/ exists root, cJSON_ParseWithLength p = Some root /\
     (parse p ctx).2 = event root ctx) ->
  (forall p ctx b, (parse p (with_line b ctx)).2 = with_line b (parse p ctx).2) ->
  SseHandler (streaming_sse_data_callback parse).
Proof.
  intros Hs Hl Ha Hp Hpl. unfold streaming_sse_data_callback. split.
  - intros p ctx _ Hctx. destruct (Hp p ctx) as [->|(root & Er & ->)]; [done|].
    apply Hs; [|done]. by eapply parse_strings.
  - done.
  - intros p ctx Hctx. destruct (Hp p ctx) as [->|(root & Er & ->)]; [done|]. by apply Ha.
Qed.

(** Case analysis over a parser, closing the leaves. *)
Ltac leaves := repeat case_match; eauto 6 with stream.

Lemma block_start_sound root ctx : sound ctx -> sound (anthropic_block_start root ctx).
Proof.
  intros Hs. unfold anthropic_block_start, strdup. cbn -[streaming_emit_tool_start string_item item].
  destruct (string_item (item (Some root) "content_block") "type"); [|done].
  destruct (streq _ _); [|by apply (sound_ext ctx)].
  destruct (string_item _ "id"); [|by apply (sound_ext ctx)].
  destruct (string_item _ "name"); [|by apply (sound_ext ctx)].
  apply emit_tool_start_sound. by apply (sound_ext ctx).
Qed.

Lemma anthropic_event_sound t root ctx : fit (Some root) -> sound ctx -> sound (anthropic_event t root ctx).
Proof.
  intros Hr Hs. unfold anthropic_event.
  destruct (streq _ _). { unfold anthropic_message_start, anthropic_cleanup_stream_state_internal. eauto with stream. }
  destruct (streq _ _). { by apply block_start_sound. }
  destruct (streq _ _). { unfold anthropic_block_delta. leaves. }
  destruct (streq _ _). { by apply with_user_sound. }
  destruct (streq _ _). { unfold anthropic_message_delta. leaves. }
  destruct (streq _ _). { unfold anthropic_cleanup_stream_state_internal. eauto with stream. }
  destruct (streq _ _); [|done].
  unfold anthropic_error, anthropic_cleanup_stream_state_internal. leaves.
Qed.

Lemma anthropic_event_line t root ctx b :
  anthropic_event t root (with_line b ctx) = with_line b (anthropic_event t root ctx).
Proof.
  unfold anthropic_event.
  destruct (streq _ _). { unfold anthropic_message_start. by rewrite <- set_input_tokens_line. }
  destruct (streq _ _).
  { unfold anthropic_block_start, strdup. cbn -[streaming_emit_tool_start string_item item].
    repeat case_match; try done; by rewrite <- emit_tool_start_line. }
  destruct (streq _ _).
  { unfold anthropic_block_delta. cbn [with_line user_data]. repeat case_match; autorewrite with stream; done. }
  destruct (streq _ _). { done. }
  destruct (streq _ _).
  { unfold anthropic_message_delta. repeat case_match; by rewrite <- set_output_tokens_line. }
  destruct (streq _ _).
  { unfold anthropic_cleanup_stream_state_internal. cbn [stop_reason_or with_line stop_reason].
    change (stop_reason_or (with_line b ctx)) with (stop_reason_or ctx). by rewrite emit_complete_line. }
  destruct (streq _ _); [|done]. unfold anthropic_error. by repeat case_match.
Qed.

Lemma anthropic_event_allocs t root ctx : allocs ctx = [] -> allocs (anthropic_event t root ctx) = [].
Proof.
  intros Ha. unfold anthropic_event.
  destruct (streq _ _). { unfold anthropic_message_start. by autorewrite with stream. }
  destruct (streq _ _).
  { unfold anthropic_block_start, strdup. cbn -[streaming_emit_tool_start string_item item].
    rewrite Ha. cbn -[streaming_emit_tool_start string_item item].
    repeat case_match; try done. apply emit_tool_start_allocs. done. }
  destruct (streq _ _). { unfold anthropic_block_delta. leaves. }
  destruct (streq _ _). { done. }
  destruct (streq _ _). { unfold anthropic_message_delta. rewrite set_output_tokens_allocs. leaves. }
  destruct (streq _ _). { by apply (emit_complete_allocs ctx). }
  destruct (streq _ _); [|done]. unfold anthropic_error. cbn. case_match; [|done]. by apply (emit_error_allocs ctx).
Qed.

#[export] Instance anthropic_handler : SseHandler (streaming_sse_data_callback anthropic_parse_stream_event).
Proof.
  apply (callback_handler _ (fun root ctx =>
    match string_item (Some root) "type" with Some t => anthropic_event t root ctx | None => ctx end)).
  - intros root ctx Hr Hs. case_match; [by apply anthropic_event_sound|done].
  - intros root ctx b. case_match; [apply anthropic_event_line|done].
  - intros root ctx Ha. case_match; [by apply anthropic_event_allocs|done].
  - intros p ctx. unfold anthropic_parse_stream_event. destruct p; [by left|].
    destruct (cJSON_ParseWithLength _) as [root|]; [|by left]. right. exists root. split; [done|].
    by case_match.
  - intros p ctx b. unfold anthropic_parse_stream_event. destruct p; [done|].
    destruct (cJSON_ParseWithLength _) as [root|]; [|done]. case_match; [apply anthropic_event_line|done].
Qed.

Section OpenAI.
Context {U : Type}.
Implicit Types (ctx : StreamingContext U).

Lemma tool_call_sound ctx c : fit (Some c) -> sound ctx -> sound (openai_tool_call ctx c).
Proof.
  intros Hc Hs. unfold openai_tool_call. pose proof (item_fit _ "function" Hc).
  destruct (item (Some c) "function") as [f|]; [|done]. leaves.
Qed.

Lemma tool_call_line ctx b c : openai_tool_call (with_line b ctx) c = with_line b (openai_tool_call ctx c).
Proof.
  unfold openai_tool_call. destruct (item (Some c) "function") as [f|]; [|done].
  destruct (string_item (Some c) "id") as [i|]; [destruct (string_item (Some f) "name") as [n|]|];
    rewrite ?emit_tool_start_line; destruct (string_item (Some f) "arguments") as [[|a args]|]; try done;
    match goal with |- context [delta_tool_id (with_line b ?x)] =>
      change (delta_tool_id (with_line b x)) with (delta_tool_id x); destruct (delta_tool_id x _) end;
    rewrite ?emit_tool_delta_line; done.
Qed.

Lemma tool_call_allocs ctx c : allocs ctx = [] -> allocs (openai_tool_call ctx c) = [].
Proof.
  intros Ha. unfold openai_tool_call. destruct (item (Some c) "function") as [f|]; [|done]. leaves.
Qed.

(** The tool calls of a message, by induction on the array. *)
Lemma tool_calls_fold calls ctx :
  (Forall (fun c => fit (Some c)) calls -> sound ctx -> sound (fold_left openai_tool_call calls ctx)) /\
  (forall b, fold_left openai_tool_call calls (with_line b ctx) = with_line b (fold_left openai_tool_call calls ctx)) /\
  (allocs ctx = [] -> allocs (fold_left openai_tool_call calls ctx) = []).
Proof.
  revert ctx. induction calls as [|c calls IH]; intros ctx; cbn [fold_left]; [done|]. split; [|split].
  - intros [Hc Hcs]%Forall_cons Hs. apply IH; [done|]. by apply tool_call_sound.
  - intros b. rewrite tool_call_line. apply IH.
  - intros Ha. by apply IH, tool_call_allocs.
Qed.

Lemma choice_delta_sound c ctx : fit (Some c) -> sound ctx -> sound (choice_delta c ctx).
Proof.
  intros Hc Hs. unfold choice_delta, openai_parse_tool_call_delta.
  pose proof (item_fit _ "tool_calls" (item_fit _ "delta" Hc)) as Hl.
  destruct (cJSON_IsArray _) as [l|] eqn:E; [|leaves].
  apply tool_calls_fold; [by eapply array_fit|leaves].
Qed.

Lemma choice_delta_line c ctx b : choice_delta c (with_line b ctx) = with_line b (choice_delta c ctx).
Proof.
  unfold choice_delta, openai_parse_tool_call_delta.
  destruct (string_item _ _) as [s|]; rewrite ?emit_text_line; destruct (cJSON_IsArray _) as [l|]; try done;
    apply tool_calls_fold.
Qed.

Lemma choice_delta_allocs c ctx : allocs ctx = [] -> allocs (choice_delta c ctx) = [].
Proof.
  intros Ha. unfold choice_delta, openai_parse_tool_call_delta.
  destruct (cJSON_IsArray _) as [l|]; [apply tool_calls_fold|]; leaves.
Qed.

Lemma first_choice_fit root c : fit (Some root) -> first_choice root = Some c -> fit (Some c).
Proof.
  intros Hr. unfold first_choice. destruct (cJSON_IsArray _) as [[|c' l]|] eqn:E; [done| |done].
  intros [= ->]. apply array_fit in E; [by apply Forall_cons in E as [? _]|]. by apply item_fit.
Qed.

(** The two parsers of the chat-completions format. *)
Lemma openai_like_handler (reason : cstr -> StreamingContext U -> StreamingContext U)
    (parse : cstr -> StreamingContext U -> Z * StreamingContext U) :
  (forall r ctx, sound ctx -> sound (reason r ctx)) ->
  (forall r ctx b, reason r (with_line b ctx) = with_line b (reason r ctx)) ->
  (forall r ctx, allocs ctx = [] -> allocs (reason r ctx) = []) ->
  (forall p ctx, parse p ctx =
     match p with
     | [] => (-1, ctx)
     | _ =>
         if streq p (cs "[DONE]") then (0, ctx)
         else match cJSON_ParseWithLength p with
              | None => (-1, ctx)
              | Some root =>
                  (0, usage_tokens root
                        match first_choice root with
                        | None => ctx
                        | Some c => match string_item (Some c) "finish_reason" with
                                    | Some r => reason r (choice_delta c ctx)
                                    | None => choice_delta c ctx
                                    end
                        end)
              end
     end) ->
  SseHandler (streaming_sse_data_callback parse).
Proof.
  intros Rs Rl Ra Hp.
  set (event := fun root ctx => usage_tokens root
                        match first_choice root with
                        | None => ctx
                        | Some c => match string_item (Some c) "finish_reason" with
                                    | Some r => reason r (choice_delta c ctx)
                                    | None => choice_delta c ctx
                                    end
                        end).
  assert (forall root ctx b, event root (with_line b ctx) = with_line b (event root ctx)) as El.
  { intros root ctx b. unfold event, usage_tokens.
    destruct (first_choice root) as [c|]; [destruct (string_item _ "finish_reason")|];
      rewrite ?choice_delta_line, ?Rl, ?set_input_tokens_line, ?set_output_tokens_line; done. }
  apply (callback_handler _ event).
  - intros root ctx Hr Hs. unfold event, usage_tokens. apply set_output_tokens_sound, set_input_tokens_sound.
    destruct (first_choice root) as [c|] eqn:E; [|done]. apply first_choice_fit in E; [|done].
    destruct (string_item _ _); [apply Rs|]; by apply choice_delta_sound.
  - done.
  - intros root ctx Ha. unfold event, usage_tokens. rewrite set_output_tokens_allocs, set_input_tokens_allocs.
    destruct (first_choice root) as [c|]; [|done]. destruct (string_item _ _); [apply Ra|]; by apply choice_delta_allocs.
  - intros p ctx. rewrite Hp. destruct p; [by left|]. destruct (streq _ _); [by left|].
    destruct (cJSON_ParseWithLength _) as [root|]; [|by left]. right. by exists root.
  - intros p ctx b. rewrite !Hp. destruct p; [done|]. destruct (streq _ _); [done|].
    destruct (cJSON_ParseWithLength _) as [root|]; [|done]. apply El.
Qed.

#[export] Instance openai_handler : SseHandler (streaming_sse_data_callback (openai_parse_stream_event (U:=U))).
Proof.
  apply (openai_like_handler (fun r ctx => set_stop_reason ctx r)); try done.
  - intros r ctx. apply set_stop_reason_sound.
  - intros r ctx. apply set_stop_reason_allocs.
Qed.

Definition local_reason (r : cstr) ctx : StreamingContext U :=
  let '(new_reason, ctx) := strdup r ctx in
  match new_reason with Some _ => with_stop_reason new_reason ctx | None => ctx end.

#[export] Instance local_ai_handler : SseHandler (streaming_sse_data_callback (local_ai_parse_stream_event (U:=U))).
Proof.
  apply (openai_like_handler local_reason); unfold local_reason, strdup; cbn.
  - intros r ctx Hs. repeat case_match; by apply (sound_ext ctx).
  - intros r ctx b. by repeat case_match.
  - intros r ctx Ha. rewrite Ha. done.
  - done.
Qed.

Lemma codex_event_sound t root ctx : fit (Some root) -> sound ctx -> sound (codex_event t root ctx).
Proof.
  intros Hr Hs. unfold codex_event.
  destruct (streq _ _); [leaves|]. destruct (streq _ _); [leaves|]. destruct (streq _ _); [leaves|].
  destruct (streq _ _); [leaves|]. destruct (streq _ _); [unfold codex_item_done; leaves|].
  destruct (streq _ _); [eauto with stream|]. destruct (_ || _); [eauto with stream|].
  destruct (streq _ _); eauto with stream.
Qed.

Lemma codex_event_line t root ctx b : codex_event t root (with_line b ctx) = with_line b (codex_event t root ctx).
Proof.
  unfold codex_event.
  change (streamed_tool_id (with_line b ctx)) with (streamed_tool_id ctx).
  destruct (streq _ _). { repeat case_match; autorewrite with stream; done. }
  destruct (streq _ _). { repeat case_match; autorewrite with stream; done. }
  destruct (streq _ _). { repeat case_match; autorewrite with stream; done. }
  destruct (streq _ _). { repeat case_match; autorewrite with stream; done. }
  destruct (streq _ _).
  { unfold codex_item_done. cbn [with_line tool_uses].
    destruct (function_call _) as [[i n]|]; [|done]. destruct (find_tool _ _); autorewrite with stream; done. }
  destruct (streq _ _). { autorewrite with stream. done. }
  destruct (_ || _). { done. }
  by destruct (streq _ _).
Qed.

Lemma codex_event_allocs t root ctx : allocs ctx = [] -> allocs (codex_event t root ctx) = [].
Proof.
  intros Ha. unfold codex_event.
  destruct (streq _ _); [leaves|]. destruct (streq _ _); [leaves|]. destruct (streq _ _); [leaves|].
  destruct (streq _ _); [leaves|]. destruct (streq _ _); [unfold codex_item_done; leaves|].
  destruct (streq _ _). { apply emit_complete_allocs. by autorewrite with stream. }
  destruct (_ || _); [eauto with stream|].
  destruct (streq _ _); eauto with stream.
Qed.

#[export] Instance codex_handler : SseHandler (streaming_sse_data_callback (codex_parse_stream_event (U:=U))).
Proof.
  apply (callback_handler _ (fun root ctx =>
    match string_item (Some root) "type" with Some t => codex_event t root ctx | None => ctx end)).
  - intros root ctx Hr Hs. case_match; [by apply codex_event_sound|done].
  - intros root ctx b. case_match; [apply codex_event_line|done].
  - intros root ctx Ha. case_match; [by apply codex_event_allocs|done].
  - intros p ctx. unfold codex_parse_stream_event. destruct p; [by left|]. destruct (streq _ _); [by left|].
    destruct (cJSON_ParseWithLength _) as [root|]; [|by left]. right. exists root. split; [done|].
    by case_match.
  - intros p ctx b. unfold codex_parse_stream_event. destruct p; [done|]. destruct (streq _ _); [done|].
    destruct (cJSON_ParseWithLength _) as [root|]; [|done]. case_match; [apply codex_event_line|done].
Qed.
End OpenAI.
End Handlers.
