(* ===== verification/StreamView.v ===== *)
(** * What an answer is, and what each operation adds to it

    The view of a context that the rest of the program reads after the stream:
    text, thinking, tool calls, tokens, stop reason. When the allocator answers
    and the answer is smaller than [WEIGHT], every emit function adds exactly
    its argument to the view. *)

From S2P Require Import Prelude CString Json Darray Streaming StreamingFacts Providers ProviderFacts.
Local Open Scope bool_scope.
Local Open Scope Z_scope.

(** A tool call: identifier, name, arguments. *)
Record Call := mkCall { call_id : cstr; call_name : cstr; call_arguments : cstr }.

Record View := mkView {
  v_text : cstr;
  v_thinking : cstr;
  v_calls : list Call;
  v_current : Z;
  v_input : Z;
  v_output : Z;
  v_stop : option cstr
}.

Definition call_of (t : StreamingToolUse) : Call := mkCall (tu_id t) (tu_name t) (content (tu_arguments t)).

Definition view {U} (ctx : StreamingContext U) : View :=
  mkView (content (text ctx)) (content (thinking ctx)) (call_of <$> data (tool_uses ctx)) (current_tool_index ctx)
    (input_tokens ctx) (output_tokens ctx) (stop_reason ctx).

Definition add_text (s : cstr) (v : View) : View :=
  mkView (v_text v ++ s) (v_thinking v) (v_calls v) (v_current v) (v_input v) (v_output v) (v_stop v).
Definition add_thinking (s : cstr) (v : View) : View :=
  mkView (v_text v) (v_thinking v ++ s) (v_calls v) (v_current v) (v_input v) (v_output v) (v_stop v).
Definition add_call (c : Call) (v : View) : View :=
  mkView (v_text v) (v_thinking v) (v_calls v ++ [c]) (Z.of_nat (length (v_calls v))) (v_input v) (v_output v) (v_stop v).
Definition set_tokens (i o : Z) (v : View) : View :=
  mkView (v_text v) (v_thinking v) (v_calls v) (v_current v) i o (v_stop v).
Definition set_stop (r : option cstr) (v : View) : View :=
  mkView (v_text v) (v_thinking v) (v_calls v) (v_current v) (v_input v) (v_output v) r.

(** The bytes of an answer, each call counting one more. *)
Fixpoint calls_weight (l : list Call) : Z :=
  match l with [] => 0 | c :: l' => 1 + len (call_arguments c) + calls_weight l' end.
Definition weight (v : View) : Z := len (v_text v) + len (v_thinking v) + calls_weight (v_calls v).
Definition WEIGHT : Z := 2 ^ 57.

Lemma calls_weight_app l l' : calls_weight (l ++ l') = calls_weight l + calls_weight l'.
Proof. induction l as [|c l IH]; cbn; [done|]. rewrite IH. lia. Qed.

Lemma calls_weight_length l : Z.of_nat (length l) <= calls_weight l.
Proof. induction l as [|c l IH]; cbn; [done|]. pose proof (len_nonneg (call_arguments c)). lia. Qed.

Lemma weight_add_text s v : weight (add_text s v) = weight v + len s.
Proof. unfold weight. cbn. rewrite len_app. lia. Qed.

Lemma weight_add_thinking s v : weight (add_thinking s v) = weight v + len s.
Proof. unfold weight. cbn. rewrite len_app. lia. Qed.

Lemma weight_add_call c v : weight (add_call c v) = weight v + 1 + len (call_arguments c).
Proof. unfold weight. cbn. rewrite calls_weight_app. cbn. lia. Qed.

(** Sound, and the allocator answers. *)
Definition ready {U} (ctx : StreamingContext U) : Prop := sound ctx /\ allocs ctx = [].

Section Emits.
Context {F : Freed} {U : Type}.
Implicit Types (ctx : StreamingContext U).

Lemma no_allocs ctx : allocs ctx = [] -> with_allocs [] ctx = ctx.
Proof. destruct ctx. cbn. by intros ->. Qed.

Lemma emit_text_view ctx s :
  ready ctx -> weight (view ctx) + len s < WEIGHT ->
  view (streaming_emit_text ctx s) = add_text s (view ctx) /\ user_data (streaming_emit_text ctx s) = user_data ctx.
Proof.
  intros [Hs Ha] Hw. unfold streaming_emit_text. destruct s as [|c s].
  { split; [|done]. unfold view, add_text. cbn. by rewrite app_nil_r. }
  revert Hw. generalize (c :: s). clear c s. intros s Hw.
  cbn -[ensure_capacity]. rewrite Ha.
  destruct (ensure_capacity_total (text ctx) (len s)) as [cap ->]; [by destruct Hs as [[] _]|apply len_nonneg| |done].
  unfold weight, WEIGHT in Hw. cbn in Hw. pose proof (len_nonneg (content (thinking ctx))).
  pose proof (calls_weight_length (call_of <$> data (tool_uses ctx))). lia.
Qed.

Lemma emit_thinking_view ctx s :
  ready ctx -> weight (view ctx) + len s < WEIGHT ->
  view (streaming_emit_thinking ctx s) = add_thinking s (view ctx)
  /\ user_data (streaming_emit_thinking ctx s) = user_data ctx.
Proof.
  intros [Hs Ha] Hw. unfold streaming_emit_thinking. destruct s as [|c s].
  { split; [|done]. unfold view, add_thinking. cbn. by rewrite app_nil_r. }
  revert Hw. generalize (c :: s). clear c s. intros s Hw.
  cbn -[ensure_capacity]. rewrite Ha.
  destruct (ensure_capacity_total (thinking ctx) (len s)) as [cap ->]; [by destruct Hs as [[] _]|apply len_nonneg| |done].
  unfold weight, WEIGHT in Hw. cbn in Hw. pose proof (len_nonneg (content (text ctx))).
  pose proof (calls_weight_length (call_of <$> data (tool_uses ctx))). lia.
Qed.

Lemma emit_tool_start_view ctx id name :
  ready ctx -> weight (view ctx) < WEIGHT - 1 ->
  view (streaming_emit_tool_start ctx id name) = add_call (mkCall id name []) (view ctx)
  /\ user_data (streaming_emit_tool_start ctx id name) = user_data ctx.
Proof.
  intros [Hs Ha] Hw. unfold streaming_emit_tool_start, strdup. cbn -[da_push]. rewrite Ha. cbn -[da_push].
  set (t := mkToolUse _ _ _).
  assert (exists cap, da_push (da_capacity (tool_uses ctx) * 2 * sizeof_StreamingToolUse <=? PTRDIFF_MAX)
            (tool_uses ctx) t = (mkDarray (data (tool_uses ctx) ++ [t]) cap, 0)) as [cap ->].
  { destruct (tools_fit _ (proj1 Hs)) as ([Hpos Hcap] & Hok & _).
    assert (da_count (tool_uses ctx) < WEIGHT) as Hc.
    { unfold weight in Hw. cbn in Hw. pose proof (calls_weight_length (call_of <$> data (tool_uses ctx))) as Hl.
      rewrite length_fmap in Hl. fold (da_count (tool_uses ctx)) in Hl.
      pose proof (len_nonneg (content (text ctx))). pose proof (len_nonneg (content (thinking ctx))). lia. }
    unfold da_push, da_room, da_grow, DARRAY_GROWTH_FACTOR, wrap64, WEIGHT, sizeof_StreamingToolUse, PTRDIFF_MAX in *.
    destruct (Z.leb_spec (da_capacity (tool_uses ctx)) (da_count (tool_uses ctx))).
    - destruct (Z.leb_spec (da_capacity (tool_uses ctx) * 2 * 32) (2 ^ 63 - 1)); [|lia].
      rewrite Z.mod_small by lia. by eexists.
    - by eexists. }
  cbn. split; [|done]. unfold view, add_call. cbn. rewrite fmap_app, length_fmap. f_equal.
  unfold da_count. cbn. rewrite length_app. cbn. lia.
Qed.

(** The delta of the current call, the last one. *)
Lemma emit_tool_delta_view ctx l id name args s :
  ready ctx -> weight (view ctx) + len s < WEIGHT ->
  v_calls (view ctx) = l ++ [mkCall id name args] -> v_current (view ctx) = Z.of_nat (length l) ->
  view (streaming_emit_tool_delta ctx id s) =
    mkView (v_text (view ctx)) (v_thinking (view ctx)) (l ++ [mkCall id name (args ++ s)]) (v_current (view ctx))
      (v_input (view ctx)) (v_output (view ctx)) (v_stop (view ctx))
  /\ user_data (streaming_emit_tool_delta ctx id s) = user_data ctx.
Proof.
  intros [Hs Ha] Hw Hl Hc. unfold streaming_emit_tool_delta. destruct s as [|c s].
  { split; [|done]. rewrite app_nil_r, <- Hl. done. }
  revert Hw. generalize (c :: s). clear c s. intros s Hw.
  cbn in Hl, Hc.
  assert (length (data (tool_uses ctx)) = S (length l)) as Hlen.
  { rewrite <- (length_fmap call_of), Hl, length_app. cbn. lia. }
  unfold delta_index. cbn -[append_arguments in_range].
  assert (in_range (current_tool_index ctx) (da_count (tool_uses ctx)) = true) as ->.
  { apply in_range_true. unfold da_count. lia. }
  assert (in_range (current_tool_index ctx) (da_count (tool_uses ctx)) = true) as ->.
  { apply in_range_true. unfold da_count. lia. }
  rewrite Hc, Nat2Z.id.
  assert (exists t, data (tool_uses ctx) !! length l = Some t /\ call_of t = mkCall id name args) as (t & Ht & Et).
  { assert ((call_of <$> data (tool_uses ctx)) !! length l = Some (mkCall id name args)) as E.
    { rewrite Hl. apply list_lookup_middle. done. }
    rewrite list_lookup_fmap in E. destruct (data (tool_uses ctx) !! length l) as [t|]; [|done].
    exists t. split; [done|]. apply (inj Some). exact E. }
  rewrite Ht. injection Et as Ei En Eargs. rewrite Ei, streq_refl. cbn -[append_arguments]. rewrite Ha.
  destruct (tools_fit _ (proj1 Hs)) as (_ & _ & Hf). rewrite Forall_lookup in Hf. specialize (Hf _ _ Ht).
  destruct (append_arguments_total (tu_arguments t) s) as [b Eb]; [done| |].
  { rewrite Eargs. unfold weight, WEIGHT in Hw. cbn in Hw. rewrite Hl, calls_weight_app in Hw. cbn in Hw.
    pose proof (calls_weight_length l). pose proof (len_nonneg (content (text ctx))).
    pose proof (len_nonneg (content (thinking ctx))). lia. }
  rewrite Eb. apply append_arguments_fits in Eb as [_ Eb]; [|done|].
  2: { unfold weight, WEIGHT, PTRDIFF_MAX in *. cbn in Hw.
       pose proof (calls_weight_length (call_of <$> data (tool_uses ctx))).
       pose proof (len_nonneg (content (text ctx))). pose proof (len_nonneg (content (thinking ctx))). lia. }
  split; [|done]. unfold view. cbn. rewrite list_fmap_insert, Hl. unfold call_of at 1. cbn. rewrite Eb, Eargs, En.
  rewrite ?Hc. by rewrite insert_app_r_alt, Nat.sub_diag by done.
Qed.

Lemma find_tool_last (tools : list StreamingToolUse) l c :
  call_of <$> tools = l ++ [c] -> Forall (fun c' => call_id c' <> call_id c) l ->
  find_tool tools (call_id c) = Some (length l).
Proof.
  revert tools. induction l as [|c' l IH]; intros tools E Hl; destruct tools as [|t tools]; try done.
  - injection E as <- E. cbn. by rewrite streq_refl.
  - cbn in E. injection E as <- E. apply Forall_cons in Hl as [Hne Hl]. cbn in *.
    apply streq_false in Hne. rewrite Hne. by rewrite IH.
Qed.

Lemma find_tool_None (tools : list StreamingToolUse) id :
  Forall (fun c => call_id c <> id) (call_of <$> tools) -> find_tool tools id = None.
Proof.
  induction tools as [|t tools IH]; [done|]. cbn. intros [Hne Hl]%Forall_cons. cbn in Hne.
  apply streq_false in Hne. by rewrite Hne, IH.
Qed.

(** The arguments of the last call replaced, its identifier being new. *)
Lemma replace_arguments_view ctx l c s :
  ready ctx -> len s + 1 <= PTRDIFF_MAX ->
  v_calls (view ctx) = l ++ [c] -> Forall (fun c' => call_id c' <> call_id c) l ->
  view (streaming_replace_tool_arguments ctx (call_id c) s) =
    mkView (v_text (view ctx)) (v_thinking (view ctx)) (l ++ [mkCall (call_id c) (call_name c) s]) (v_current (view ctx))
      (v_input (view ctx)) (v_output (view ctx)) (v_stop (view ctx))
  /\ user_data (streaming_replace_tool_arguments ctx (call_id c) s) = user_data ctx.
Proof.
  intros [Hs Ha] Hlen Hl Hne. cbn in Hl. unfold streaming_replace_tool_arguments.
  rewrite (find_tool_last _ _ _ Hl Hne).
  assert (exists t, data (tool_uses ctx) !! length l = Some t /\ call_of t = c) as (t & Ht & Et).
  { assert ((call_of <$> data (tool_uses ctx)) !! length l = Some c) as E by (rewrite Hl; by apply list_lookup_middle).
    rewrite list_lookup_fmap in E. destruct (data (tool_uses ctx) !! length l) as [t|]; [|done].
    exists t. split; [done|]. apply (inj Some). exact E. }
  rewrite Ht. cbn -[reallocated]. rewrite Ha.
  assert (exists cap, (if capacity (tu_arguments t) <? len s + 1 then reallocated true (len s + 1)
            else Some (capacity (tu_arguments t))) = Some cap) as [cap ->].
  { unfold reallocated. destruct (_ <? _); [|by eexists]. apply Z.leb_le in Hlen. rewrite Hlen. by eexists. }
  split; [|done]. unfold view. cbn. rewrite list_fmap_insert, Hl, insert_app_r_alt, Nat.sub_diag by done.
  by subst c.
Qed.
End Emits.
