(* ===== verification/StreamRun.v ===== *)
(** * Running a stream of events

    The body of a stream as lines, its events as JSON documents, the relation
    [steps] between what is seen before and after some events, and the tactics
    that compute the handling of an event. *)

From S2P Require Import Prelude CString Json Darray Streaming StreamingFacts Providers ProviderFacts StreamView.
Local Open Scope bool_scope.
Local Open Scope Z_scope.

(** ** The body of a stream *)

Definition sse_text (lines : list cstr) : cstr := flat_map (fun l => l ++ [LF]) lines.

(** A line without line ends. *)
Definition plain (l : cstr) : bool := forallb (fun c => negb (Ascii.eqb c LF || Ascii.eqb c CR)) l.

Lemma plain_pieces l s : plain l = true -> pieces (no_cr (l ++ LF :: s)) = l :: pieces (no_cr s).
Proof.
  induction l as [|c l IH]; intros Hl; [done|].
  cbn [plain forallb] in Hl. apply andb_true_iff in Hl as [Hc Hl]. apply negb_true_iff, orb_false_iff in Hc as [Hlf Hcr].
  cbn [app no_cr List.filter]. rewrite Hcr. cbn [negb pieces]. rewrite Hlf. fold (no_cr (l ++ LF :: s)).
  by rewrite IH.
Qed.

Lemma sse_text_pieces lines :
  Forall (fun l => plain l = true) lines -> pieces (no_cr (sse_text lines)) = lines ++ [[]].
Proof.
  induction 1 as [|l lines Hl _ IH]; [done|]. cbn [sse_text flat_map].
  rewrite <- app_assoc. cbn [app]. rewrite plain_pieces by done. by rewrite <- IH.
Qed.

Lemma sse_text_lines lines :
  Forall (fun l => plain l = true) lines ->
  full_lines (pieces (no_cr (sse_text lines))) = List.filter nonempty lines /\
  open_line (pieces (no_cr (sse_text lines))) = [].
Proof.
  intros Hl. rewrite sse_text_pieces by done. unfold full_lines, open_line.
  rewrite removelast_last, last_last. done.
Qed.

(** ** Events *)

(** An event: its name, when the provider names it, and its data. *)
Definition event : Type := option cstr * cJSON.

Definition event_lines (e : event) (payload : cstr) : list cstr :=
  match e.1 with Some t => [cs "event: " ++ t] | None => [] end ++ [cs "data: " ++ payload; []].

Definition stream_lines (es : list event) (payloads : list cstr) : list cstr :=
  concat (zip_with event_lines es payloads).

(** A payload is one line of JSON text for the event. *)
Definition carries {P : ParseWithLength} (e : event) (payload : cstr) : Prop :=
  cJSON_ParseWithLength payload = Some e.2 /\ plain payload = true /\ len payload < PTRDIFF_MAX /\
  (payload <> [] /\ payload <> cs "[DONE]") /\
  match e.1 with Some t => plain t = true | None => True end.

Lemma plain_app a b : plain (a ++ b) = plain a && plain b.
Proof. unfold plain. by rewrite forallb_app. Qed.

Lemma stream_lines_plain {P : ParseWithLength} es ps :
  Forall2 carries es ps -> Forall (fun l => plain l = true) (stream_lines es ps).
Proof.
  unfold stream_lines. induction 1 as [|[t j] p es ps (_ & Hp & _ & _ & Ht) _ IH]; cbn; [done|].
  apply Forall_app. split; [|done]. unfold event_lines. cbn [fst] in *.
  apply Forall_app. split; [destruct t as [t|]; [|done]|]; repeat (apply Forall_cons; split); try done;
    rewrite plain_app; by apply andb_true_iff.
Qed.

Lemma stream_lines_app {P : ParseWithLength} (es es' : list event) ps ps' :
  Forall2 carries es ps -> stream_lines (es ++ es') (ps ++ ps') = stream_lines es ps ++ stream_lines es' ps'.
Proof.
  intros Hps. unfold stream_lines. rewrite zip_with_app by (by eapply Forall2_length). by rewrite concat_app.
Qed.

Section Run.
Context {F : Freed} {P : ParseWithLength} {U : Type}.
Context (h : cstr -> StreamingContext U -> StreamingContext U) {H : SseHandler h}.
Context (handle : cJSON -> StreamingContext U -> StreamingContext U).
Hypothesis h_handle : forall (e : event) p ctx, carries e p -> h p ctx = handle e.2 ctx.
Implicit Types (ctx : StreamingContext U) (v : View) (u : U).

(** The context shows a view. *)
Definition at_view ctx v u : Prop := ready ctx /\ view ctx = v /\ user_data ctx = u.

(** The events take every context from one view to another. *)
Definition steps (es : list event) v u v' u' : Prop :=
  forall ctx ps, at_view ctx v u -> Forall2 carries es ps ->
    at_view (run_lines h ctx (List.filter nonempty (stream_lines es ps))) v' u'.

Lemma run_lines_app ctx a b : run_lines h ctx (a ++ b) = run_lines h (run_lines h ctx a) b.
Proof. unfold run_lines. by rewrite fold_left_app. Qed.

Lemma steps_nil v u : steps [] v u v u.
Proof. intros ctx ps Hat Hps. inversion Hps. done. Qed.

Lemma steps_app es es' v u v1 u1 v2 u2 :
  steps es v u v1 u1 -> steps es' v1 u1 v2 u2 -> steps (es ++ es') v u v2 u2.
Proof.
  intros H1 H2 ctx ps Hat Hps. apply Forall2_app_inv_l in Hps as (ps1 & ps2 & Hp1 & Hp2 & ->).
  rewrite stream_lines_app by done. rewrite List.filter_app, run_lines_app. by apply H2; [apply H1|].
Qed.

Lemma steps_run es v u v' u' ctx ps :
  steps es v u v' u' -> at_view ctx v u -> Forall2 carries es ps ->
  at_view (run_lines h ctx (List.filter nonempty (stream_lines es ps))) v' u'.
Proof. intros Hst. apply Hst. Qed.

(** One event: the lines before the data change nothing that is seen. *)
Lemma event_run ctx (e : event) p :
  carries e p -> ready ctx -> exists ctx1,
    run_lines h ctx (List.filter nonempty (stream_lines [e] [p])) = handle e.2 ctx1 /\
    at_view ctx1 (view ctx) (user_data ctx) /\ undefined ctx1 = undefined ctx.
Proof.
  intros Hc [Hs Ha]. pose proof Hc as (_ & _ & _ & (Hne & Hdone) & _).
  assert (forall ctx, run_lines h ctx [cs "data: " ++ p] = handle e.2 (with_state STREAM_STATE_READING_DATA ctx)) as Hd.
  { intros ctx0. unfold run_lines. cbn [fold_left]. unfold streaming_process_sse_line.
    rewrite has_prefix_app. change (drop 6 (cs "data: " ++ p)) with p.
    destruct (streq_spec p (cs "[DONE]")) as [|_]; [done|]. destruct p; [done|]. by apply h_handle. }
  unfold stream_lines, event_lines. cbn [zip_with concat]. rewrite app_nil_r, List.filter_app.
  change (List.filter nonempty [cs "data: " ++ p; []]) with [cs "data: " ++ p]. rewrite run_lines_app, Hd.
  eexists. split; [reflexivity|]. destruct e as [[t|] j]; cbn [fst].
  - change (List.filter nonempty [cs "event: " ++ t]) with [cs "event: " ++ t].
    unfold run_lines. cbn [fold_left]. unfold streaming_process_sse_line.
    change (has_prefix (cs "data: ") (cs "event: " ++ t)) with false. rewrite has_prefix_app.
    unfold strdup. cbn -[rstrip until_nul drop]. rewrite Ha. split; [|done].
    split; [|done]. split; [by apply (sound_ext ctx)|done].
  - split; [|done]. split; [|done]. split; [by apply (sound_ext ctx)|done].
Qed.

Lemma steps_one (e : event) v u v' u' :
  (forall ctx, at_view ctx v u -> view (handle e.2 ctx) = v' /\ user_data (handle e.2 ctx) = u') ->
  steps [e] v u v' u'.
Proof.
  intros He ctx ps (Hr & Hv & Hu) Hps.
  apply Forall2_cons_inv_l in Hps as (p & ps' & Hc & Hnil & ->). apply Forall2_nil_inv_l in Hnil as ->.
  destruct (event_run ctx e p Hc Hr) as (ctx1 & E & Hat & _). rewrite E.
  rewrite Hv, Hu in Hat. destruct (He ctx1 Hat) as [Hv1 Hu1]. split; [|done].
  destruct Hat as ([Hs Ha] & _ & _). rewrite <- (h_handle e p) by done.
  split; [|by apply handler_allocs]. apply handler_sound; [|done]. apply Hc.
Qed.

(** The whole body, however it is cut. *)
Lemma stream_run ctx lines chunks :
  ready ctx -> content (line_buffer ctx) = [] -> Forall (fun l => plain l = true) lines ->
  concat chunks = sse_text lines -> len (concat chunks) < 2 ^ 61 ->
  exists cap, process_chunks (Some h) ctx chunks =
    (0, with_line (mkBuffer [] cap) (run_lines h ctx (List.filter nonempty lines))).
Proof.
  intros [Hs Ha] Hl Hp Ec Hlen. rewrite (process_chunks_concat h).
  destruct (process_chunk_lines h ctx (concat chunks)) as [cap E]; [done|done| |].
  { rewrite Hl. change (len []) with 0. lia. }
  exists cap. rewrite E, Hl, continued_nil, Ec.
  destruct (sse_text_lines lines) as [-> ->]; done.
Qed.
End Run.

(** ** Reading a JSON object *)

Section Json.
Context {J : CJson} {JS : CJsonSpec J}.

Lemma item_object l k : item (Some (JObject l)) k = find_member l (cs k).
Proof. apply get_member. Qed.

Lemma item_none k : item None k = None.
Proof. done. Qed.
End Json.

(** Decide the comparisons of literals, and find the members. *)
Ltac json :=
  unfold string_item, int_item;
  repeat first
    [ rewrite item_object
    | rewrite item_none
    | progress cbn [find_member cJSON_IsString cJSON_IsNumber cJSON_IsArray fmap option_fmap option_map default fst snd]
    | match goal with
      | |- context [strcaseeq ?a ?b] =>
          let r := eval vm_compute in (strcaseeq a b) in
          match r with true => idtac | false => idtac end; change (strcaseeq a b) with r; cbv iota
      | |- context [streq ?a ?b] =>
          let r := eval vm_compute in (streq a b) in
          match r with true => idtac | false => idtac end; change (streq a b) with r; cbv iota
      end ].

(** ** Events as JSON *)

Definition js (s : string) : cJSON := JString (cs s).
Definition obj (l : list (string * cJSON)) : cJSON := JObject ((fun m => (cs m.1, m.2)) <$> l).
Definition typed (t : string) (l : list (string * cJSON)) : event :=
  (Some (cs t), obj (("type"%string, js t) :: l)).

(** A fresh context shows nothing. *)
Lemma create_at_view {U} (u : U) ctx :
  streaming_context_create u [] = Some ctx ->
  at_view ctx (mkView [] [] [] (-1) 0 0 None) u /\ content (line_buffer ctx) = [] /\ undefined ctx = false.
Proof.
  intros E. pose proof (streaming_create_ok _ _ _ E). pose proof (streaming_create_told _ _ _ E).
  cbn in E. injection E as <-. done.
Qed.

(** A context just created, for the witnesses. *)
Definition fresh {U} (u : U) : StreamingContext U :=
  mkContext STREAM_STATE_IDLE (mkBuffer [] INITIAL_LINE_BUFFER_CAPACITY) None
    (mkBuffer [] INITIAL_TEXT_CAPACITY) (mkBuffer [] INITIAL_THINKING_CAPACITY)
    (mkDarray [] INITIAL_TOOL_CAPACITY) (-1) 0 0 None None u [] [] false.

Lemma fresh_created {U} (u : U) : streaming_context_create u [] = Some (fresh u).
Proof. reflexivity. Qed.

(** Freed memory that still holds the string. *)
#[export] Instance StaleFreed : Freed := fun s => s.

(** A text cut every [n] characters. *)
Fixpoint cut (fuel n : nat) (s : cstr) : list cstr :=
  match fuel, s with
  | O, _ | _, [] => [s]
  | S fuel', _ => take n s :: cut fuel' n (drop n s)
  end.

Lemma concat_cut fuel n s : concat (cut fuel n s) = s.
Proof.
  revert s. induction fuel as [|fuel IH]; intros s; cbn; [by rewrite app_nil_r|].
  destruct s; [done|]. cbn [concat]. by rewrite IH, take_drop.
Qed.

Definition printed (es : list event) : list cstr := (fun e => ref_print e.2) <$> es.

(** Decide that printed events are carried by their texts. *)
Ltac carried :=
  repeat (apply Forall2_cons; split); try apply Forall2_nil; try done;
  (split; [vm_compute; reflexivity|split; [vm_compute; reflexivity|split; [vm_compute; reflexivity|
     split; [split; intros E; vm_compute in E; discriminate E|vm_compute; reflexivity]]]]).
