(* ===== verification/StreamTheorems.v ===== *)
(** * The streamed answers: theorems

    What the line parser does with any cut of the body into chunks, what the
    Anthropic parser makes of a well-formed stream (the answer that was sent),
    the freed stop reason and the cached tool index. *)

From S2P Require Import Prelude CString Json Darray Streaming StreamingFacts Providers ProviderFacts StreamView StreamRun.
Local Open Scope bool_scope.
Local Open Scope Z_scope.

(** ** The messages of Anthropic *)

Inductive Block :=
| TextBlock (deltas : list cstr)
| ThinkingBlock (deltas : list cstr)
| ToolBlock (id name : cstr) (deltas : list cstr).

Record Message := mkMessage {
  m_input : Z;
  m_blocks : list Block;
  m_stop : cstr;
  m_output : Z
}.

Definition block_body (b : Block) : cJSON :=
  match b with
  | TextBlock _ => obj [("type", js "text"); ("text", js "")]
  | ThinkingBlock _ => obj [("type", js "thinking"); ("thinking", js "")]
  | ToolBlock id name _ => obj [("type", js "tool_use"); ("id", JString id); ("name", JString name); ("input", obj [])]
  end%string.

Definition delta_body (b : Block) (s : cstr) : cJSON :=
  match b with
  | TextBlock _ => obj [("type", js "text_delta"); ("text", JString s)]
  | ThinkingBlock _ => obj [("type", js "thinking_delta"); ("thinking", JString s)]
  | ToolBlock _ _ _ => obj [("type", js "input_json_delta"); ("partial_json", JString s)]
  end%string.

Definition deltas (b : Block) : list cstr :=
  match b with TextBlock l | ThinkingBlock l | ToolBlock _ _ l => l end.

Definition block_events (index : Z) (b : Block) : list event :=
  [typed "content_block_start" [("index"%string, JNumber index); ("content_block"%string, block_body b)]]
  ++ ((fun s => typed "content_block_delta" [("index"%string, JNumber index); ("delta"%string, delta_body b s)]) <$> deltas b)
  ++ [typed "content_block_stop" [("index"%string, JNumber index)]].

Fixpoint blocks_events (index : Z) (bs : list Block) : list event :=
  match bs with [] => [] | b :: bs' => block_events index b ++ blocks_events (index + 1) bs' end.

Definition message_end (m : Message) : event :=
  typed "message_delta" [("delta", obj [("stop_reason", JString (m_stop m))]); ("usage", obj [("output_tokens", JNumber (m_output m))])]%string.

Definition anthropic_stream (m : Message) : list event :=
  [typed "message_start" [("message", obj [("usage", obj [("input_tokens", JNumber (m_input m))])])]]%string
  ++ blocks_events 0 (m_blocks m) ++ [message_end m] ++ [typed "message_stop" []].

(** What the message says. *)
Definition block_text (b : Block) : cstr := match b with TextBlock l => concat l | _ => [] end.
Definition block_thinking (b : Block) : cstr := match b with ThinkingBlock l => concat l | _ => [] end.
Definition block_call (b : Block) : list Call :=
  match b with ToolBlock id name l => [mkCall id name (concat l)] | _ => [] end.
Definition block_weight (b : Block) : Z := 1 + len (concat (deltas b)).

Section AnthropicRun.
Context {F : Freed} {J : CJson} {JS : CJsonSpec J} {P : ParseWithLength} {SJ : StreamJson J P}.

Definition anthropic_handle (root : cJSON) (ctx : StreamingContext AnthropicState) : StreamingContext AnthropicState :=
  match string_item (Some root) "type" with Some t => anthropic_event t root ctx | None => ctx end.

Notation ahandler := (streaming_sse_data_callback anthropic_parse_stream_event).

Lemma anthropic_handler_handle (e : event) p (ctx : StreamingContext AnthropicState) :
  carries e p -> ahandler p ctx = anthropic_handle e.2 ctx.
Proof.
  intros (Hp & _ & _ & (Hne & _) & _). unfold streaming_sse_data_callback, anthropic_parse_stream_event.
  destruct p; [done|]. rewrite Hp. unfold anthropic_handle. by destruct (string_item _ _).
Qed.

Notation asteps := (steps ahandler).
#[local] Opaque steps.

Definition delta_event (i : Z) (b : Block) (s : cstr) : event :=
  typed "content_block_delta" [("index"%string, JNumber i); ("delta"%string, delta_body b s)].

(** Compute the handling of one event of the stream. *)
Ltac handle := unfold anthropic_handle, delta_event, delta_body, block_body, message_end, typed, obj, js; cbn [fmap list_fmap fst snd]; json;
  unfold anthropic_event; json.

Lemma text_delta_steps i l s v u :
  weight v + len s < WEIGHT -> asteps [delta_event i (TextBlock l) s] v u (add_text s v) u.
Proof.
  intros Hw. apply (steps_one _ anthropic_handle anthropic_handler_handle). intros ctx (Hr & <- & <-).
  handle. unfold anthropic_block_delta. json. by apply emit_text_view.
Qed.

Lemma thinking_delta_steps i l s v u :
  weight v + len s < WEIGHT -> asteps [delta_event i (ThinkingBlock l) s] v u (add_thinking s v) u.
Proof.
  intros Hw. apply (steps_one _ anthropic_handle anthropic_handler_handle). intros ctx (Hr & <- & <-).
  handle. unfold anthropic_block_delta. json. by apply emit_thinking_view.
Qed.

(** The view whose last call has some arguments. *)
Definition with_call (id name args : cstr) (v : View) : View := add_call (mkCall id name args) v.

Lemma tool_delta_steps i i0 n0 l0 id name args s v t :
  weight v + 1 + len args + len s < WEIGHT ->
  asteps [delta_event i (ToolBlock i0 n0 l0) s]
    (with_call id name args v) (mkAnthropic t (Some id)) (with_call id name (args ++ s) v) (mkAnthropic t (Some id)).
Proof.
  intros Hw. apply (steps_one _ anthropic_handle anthropic_handler_handle). intros ctx (Hr & Hv & Hu).
  handle. unfold anthropic_block_delta. json. rewrite Hu. cbn [current_tool_id].
  destruct (emit_tool_delta_view ctx (v_calls v) id name args s) as [E1 E2]; [done| | | |].
  - rewrite Hv. unfold with_call. rewrite weight_add_call. cbn. lia.
  - by rewrite Hv.
  - by rewrite Hv.
  - rewrite E1, E2, Hv. split; [|done]. done.
Qed.

Lemma text_deltas_steps i l ds v u :
  weight v + len (concat ds) < WEIGHT ->
  asteps (delta_event i (TextBlock l) <$> ds) v u (add_text (concat ds) v) u.
Proof.
  revert v. induction ds as [|d ds IH]; intros v; cbn [concat]; rewrite ?len_app; intros Hw.
  - unfold add_text. rewrite app_nil_r. destruct v. apply steps_nil.
  - pose proof (len_nonneg (concat ds)).
    change (delta_event i (TextBlock l) <$> d :: ds) with ([delta_event i (TextBlock l) d] ++ (delta_event i (TextBlock l) <$> ds)).
    eapply steps_app.
    + apply text_delta_steps. lia.
    + replace (add_text (d ++ concat ds) v) with (add_text (concat ds) (add_text d v))
        by (unfold add_text; cbn; by rewrite app_assoc).
      apply IH. rewrite weight_add_text. lia.
Qed.

Lemma thinking_deltas_steps i l ds v u :
  weight v + len (concat ds) < WEIGHT ->
  asteps (delta_event i (ThinkingBlock l) <$> ds) v u (add_thinking (concat ds) v) u.
Proof.
  revert v. induction ds as [|d ds IH]; intros v; cbn [concat]; rewrite ?len_app; intros Hw.
  - unfold add_thinking. rewrite app_nil_r. destruct v. apply steps_nil.
  - pose proof (len_nonneg (concat ds)).
    change (delta_event i (ThinkingBlock l) <$> d :: ds) with ([delta_event i (ThinkingBlock l) d] ++ (delta_event i (ThinkingBlock l) <$> ds)).
    eapply steps_app.
    + apply thinking_delta_steps. lia.
    + replace (add_thinking (d ++ concat ds) v) with (add_thinking (concat ds) (add_thinking d v))
        by (unfold add_thinking; cbn; by rewrite app_assoc).
      apply IH. rewrite weight_add_thinking. lia.
Qed.

Lemma tool_deltas_steps i i0 n0 l0 id name args ds v t :
  weight v + 1 + len args + len (concat ds) < WEIGHT ->
  asteps (delta_event i (ToolBlock i0 n0 l0) <$> ds)
    (with_call id name args v) (mkAnthropic t (Some id)) (with_call id name (args ++ concat ds) v) (mkAnthropic t (Some id)).
Proof.
  revert args. induction ds as [|d ds IH]; intros args; cbn [concat]; rewrite ?len_app; intros Hw.
  - rewrite app_nil_r. apply steps_nil.
  - pose proof (len_nonneg (concat ds)).
    change (delta_event i (ToolBlock i0 n0 l0) <$> d :: ds) with ([delta_event i (ToolBlock i0 n0 l0) d] ++ (delta_event i (ToolBlock i0 n0 l0) <$> ds)).
    eapply steps_app.
    + apply tool_delta_steps. lia.
    + rewrite app_assoc. apply IH. rewrite len_app. lia.
Qed.

(** What a block adds, and the tool that is current after it. *)
Definition add_block (b : Block) (v : View) : View :=
  match b with
  | TextBlock l => add_text (concat l) v
  | ThinkingBlock l => add_thinking (concat l) v
  | ToolBlock id name l => with_call id name (concat l) v
  end.
Definition block_tool (b : Block) (tool : option cstr) : option cstr :=
  match b with ToolBlock id _ _ => Some id | _ => tool end.

Lemma weight_add_block b v : weight (add_block b v) <= weight v + block_weight b.
Proof.
  unfold block_weight. destruct b; cbn [add_block deltas].
  - rewrite weight_add_text. lia.
  - rewrite weight_add_thinking. lia.
  - unfold with_call. rewrite weight_add_call. cbn. lia.
Qed.

Definition block_type (b : Block) : cstr :=
  match b with TextBlock _ => cs "text" | ThinkingBlock _ => cs "thinking" | ToolBlock _ _ _ => cs "tool_use" end.

Lemma block_start_steps i b v u :
  weight v < WEIGHT - 1 ->
  asteps [typed "content_block_start" [("index"%string, JNumber i); ("content_block"%string, block_body b)]] v u
    (match b with ToolBlock id name _ => with_call id name [] v | _ => v end)
    (mkAnthropic (Some (block_type b)) (block_tool b (current_tool_id u))).
Proof.
  intros Hw. apply (steps_one _ anthropic_handle anthropic_handler_handle). intros ctx (Hr & <- & <-).
  destruct b; handle; unfold anthropic_block_start; json; unfold strdup; cbn -[streaming_emit_tool_start];
    destruct Hr as [Hs Ha]; rewrite Ha; cbn -[streaming_emit_tool_start]; [done|done|].
  set (ctx1 := set_tool_id _ _).
  destruct (emit_tool_start_view ctx1 id name) as [E1 E2]; [split; [by apply (sound_ext ctx)|done]|done|].
  rewrite E1, E2. done.
Qed.

Lemma block_stop_steps i v t tool :
  asteps [typed "content_block_stop" [("index"%string, JNumber i)]] v (mkAnthropic t tool) v (mkAnthropic None tool).
Proof.
  apply (steps_one _ anthropic_handle anthropic_handler_handle). intros ctx (Hr & <- & Hu). handle.
  unfold set_block_type. cbn. by rewrite Hu.
Qed.

Lemma block_steps i b v u :
  weight v + block_weight b < WEIGHT ->
  asteps (block_events i b) v u (add_block b v) (mkAnthropic None (block_tool b (current_tool_id u))).
Proof.
  unfold block_weight. intros Hw. pose proof (len_nonneg (concat (deltas b))). unfold block_events.
  eapply steps_app; [apply block_start_steps; lia|]. eapply steps_app; [|apply (block_stop_steps i (add_block b v) (Some (block_type b)))].
  destruct b as [l|l|id name l]; cbn [deltas block_type block_tool add_block] in *.
  - apply text_deltas_steps. lia.
  - apply thinking_deltas_steps. lia.
  - apply (tool_deltas_steps i id name l id name []). change (len []) with 0. lia.
Qed.

Definition blocks_weight (bs : list Block) : Z := foldr (fun b n => block_weight b + n) 0 bs.

Lemma blocks_weight_nonneg bs : 0 <= blocks_weight bs.
Proof.
  induction bs as [|b bs IH]; [done|]. cbn. unfold block_weight at 1. pose proof (len_nonneg (concat (deltas b))).
  unfold blocks_weight in IH. lia.
Qed.

Lemma blocks_steps i bs v u :
  weight v + blocks_weight bs < WEIGHT ->
  exists u', asteps (blocks_events i bs) v u (fold_left (fun v b => add_block b v) bs v) u'.
Proof.
  revert i v u. induction bs as [|b bs IH]; intros i v u Hw; cbn [blocks_events fold_left].
  - exists u. apply steps_nil.
  - pose proof (blocks_weight_nonneg bs). pose proof (weight_add_block b v).
    cbn in Hw. fold (blocks_weight bs) in Hw.
    destruct (IH (i + 1) (add_block b v) (mkAnthropic None (block_tool b (current_tool_id u)))) as [u' Hu]; [lia|].
    exists u'. eapply steps_app; [|exact Hu]. apply block_steps. lia.
Qed.

(** The blocks, seen from outside. *)
Lemma add_blocks_view bs v :
  let v' := fold_left (fun v b => add_block b v) bs v in
  v_text v' = v_text v ++ flat_map block_text bs /\
  v_thinking v' = v_thinking v ++ flat_map block_thinking bs /\
  v_calls v' = v_calls v ++ flat_map block_call bs /\
  (v_input v' = v_input v /\ v_output v' = v_output v /\ v_stop v' = v_stop v).
Proof.
  revert v. induction bs as [|b bs IH]; intros v; cbn [fold_left flat_map]; cbn zeta.
  - by rewrite !app_nil_r.
  - destruct (IH (add_block b v)) as (-> & -> & -> & -> & -> & ->).
    destruct b; cbn; by rewrite ?app_nil_r, <- ?app_assoc.
Qed.

Lemma message_start_steps n v u :
  asteps [typed "message_start" [("message", obj [("usage", obj [("input_tokens", JNumber n)])])]]%string
    v u (set_tokens (valueint n) (v_output v) v) (mkAnthropic None None).
Proof.
  apply (steps_one _ anthropic_handle anthropic_handler_handle). intros ctx (Hr & <- & Hu). handle.
  unfold anthropic_message_start. json. done.
Qed.

Lemma message_end_steps m v u :
  asteps [message_end m] v u (set_tokens (v_input v) (valueint (m_output m)) (set_stop (Some (m_stop m)) v)) u.
Proof.
  apply (steps_one _ anthropic_handle anthropic_handler_handle). intros ctx ([Hs Ha] & <- & Hu). handle.
  unfold anthropic_message_delta. json. unfold set_stop_reason, strdup. cbn. by rewrite Ha.
Qed.

Lemma anthropic_body_steps m u :
  blocks_weight (m_blocks m) < WEIGHT ->
  let v1 := set_tokens (valueint (m_input m)) 0 (mkView [] [] [] (-1) 0 0 None) in
  exists u', asteps (([typed "message_start" [("message", obj [("usage", obj [("input_tokens", JNumber (m_input m))])])]]%string
      ++ blocks_events 0 (m_blocks m)) ++ [message_end m])
    (mkView [] [] [] (-1) 0 0 None) u
    (let v := fold_left (fun v b => add_block b v) (m_blocks m) v1 in
     set_tokens (v_input v) (valueint (m_output m)) (set_stop (Some (m_stop m)) v)) u'.
Proof.
  intros Hw v1. destruct (blocks_steps 0 (m_blocks m) v1 (mkAnthropic None None)) as [u' Hblocks]; [done|].
  exists u'. eapply steps_app; [|apply message_end_steps].
  eapply steps_app; [apply message_start_steps|exact Hblocks].
Qed.

(** The end of the stream: complete, the freed reason copied. *)
Lemma message_stop_run (ctx : StreamingContext AnthropicState) root r :
  allocs ctx = [] -> stop_reason ctx = Some r ->
  let ctx' := anthropic_event (cs "message_stop") root ctx in
  view ctx' = set_stop (Some (freed r)) (view ctx) /\ state ctx' = STREAM_STATE_COMPLETE /\
  user_data ctx' = mkAnthropic None None /\ undefined ctx' = true /\
  emitted ctx' = emitted ctx ++ [EmitEnd (Some (freed r))].
Proof.
  intros Ha Hr. unfold anthropic_event. json. unfold stop_reason_or. rewrite Hr.
  unfold streaming_emit_complete, set_stop_reason, strdup. cbn. rewrite Hr. cbn. rewrite Ha. done.
Qed.
End AnthropicRun.

(** ** Properties: the line parser *)

(** C30: Whatever the chunks the transport cuts a body into, and whatever provider
    reads its data lines, the parser runs the complete lines of the body in
    order, each once, skipping the empty ones, and keeps the open line. *)
Theorem chunks_are_lines {F : Freed} {U : Type} (h : cstr -> StreamingContext U -> StreamingContext U)
    {H : SseHandler h} (ctx : StreamingContext U) (chunks : list cstr) :
  sound ctx -> allocs ctx = [] -> content (line_buffer ctx) = [] -> len (concat chunks) < 2 ^ 61 ->
  let ps := pieces (no_cr (concat chunks)) in
  exists cap, process_chunks (Some h) ctx chunks =
    (0, with_line (mkBuffer (open_line ps) cap)
          (fold_left (streaming_process_sse_line (Some h)) (full_lines ps) ctx)).
Proof.
  intros Hs Ha Hl Hlen. rewrite (process_chunks_concat h).
  destruct (process_chunk_lines h ctx (concat chunks)) as [cap E]; [done|done| |].
  { rewrite Hl. change (len []) with 0. lia. }
  exists cap. by rewrite E, Hl, continued_nil.
Qed.

Definition sample_chunks : list cstr :=
  [cs "data: {"; JQ :: cs "choices" ++ [JQ] ++ cs ":[]}"; [CR; LF; LF]; cs "event: pi"; cs "ng" ++ [LF]; cs "dat"].

Lemma chunks_are_lines_witness :
  let ctx := fresh tt in
  let ps := pieces (no_cr (concat sample_chunks)) in
  full_lines ps = [cs "data: {" ++ JQ :: cs "choices" ++ [JQ] ++ cs ":[]}"; cs "event: ping"] /\
  open_line ps = cs "dat" /\
  exists cap, process_chunks (Some (streaming_sse_data_callback openai_parse_stream_event)) ctx sample_chunks =
    (0, with_line (mkBuffer (open_line ps) cap)
          (fold_left (streaming_process_sse_line (Some (streaming_sse_data_callback openai_parse_stream_event)))
             (full_lines ps) ctx)).
Proof.
  split; [vm_compute; reflexivity|]. split; [vm_compute; reflexivity|].
  apply (chunks_are_lines (streaming_sse_data_callback openai_parse_stream_event)).
  - split; [apply (streaming_create_ok tt []), fresh_created|apply (streaming_create_told tt []), fresh_created].
  - reflexivity.
  - reflexivity.
  - vm_compute. reflexivity.
Defined.

(** C15: Whatever the allocator answers, the text and its terminator stay inside
    every buffer, the current tool index inside the array, and what is stored
    is what was displayed, from the creation of the context on. *)
Theorem stream_stays_sound {F : Freed} {U : Type} (h : cstr -> StreamingContext U -> StreamingContext U)
    {H : SseHandler h} (u : U) (answers : list bool) (ctx : StreamingContext U) (chunks : list cstr) :
  streaming_context_create u answers = Some ctx ->
  let ctx' := (process_chunks (Some h) ctx chunks).2 in streaming_ok ctx' /\ told ctx'.
Proof.
  intros E. cbn zeta. rewrite (process_chunks_concat h). apply (process_chunk_sound h).
  split; [by eapply streaming_create_ok|by eapply streaming_create_told].
Qed.

Lemma stream_stays_sound_witness :
  let ctx := fresh tt in
  let ctx' := (process_chunks (Some (streaming_sse_data_callback openai_parse_stream_event)) ctx sample_chunks).2 in
  streaming_ok ctx' /\ told ctx'.
Proof.
  cbn zeta.
  apply (stream_stays_sound (streaming_sse_data_callback openai_parse_stream_event) tt [] (fresh tt) sample_chunks).
  apply fresh_created.
Defined.

(** ** Properties: Anthropic *)

(** C13: Any message, sent as any sequence of text, thinking and tool blocks, each
    in any number of deltas, and cut into any chunks, is read back: the text,
    the thinking, the tool calls in order with their whole arguments, and the
    tokens; the thread-local state is clean whatever an earlier stream left,
    and the context is complete. The stop reason is what the freed string
    reads as. *)
Theorem anthropic_answer_read {F : Freed} {J : CJson} {JS : CJsonSpec J} {P : ParseWithLength} {SJ : StreamJson J P}
    (m : Message) (left_over : AnthropicState) (ctx0 : StreamingContext AnthropicState)
    (payloads chunks : list cstr) :
  streaming_context_create left_over [] = Some ctx0 ->
  Forall2 carries (anthropic_stream m) payloads ->
  concat chunks = sse_text (stream_lines (anthropic_stream m) payloads) ->
  len (concat chunks) < 2 ^ 61 -> blocks_weight (m_blocks m) < WEIGHT ->
  exists ctx, process_chunks (Some (streaming_sse_data_callback anthropic_parse_stream_event)) ctx0 chunks = (0, ctx) /\
    content (text ctx) = flat_map block_text (m_blocks m) /\
    content (thinking ctx) = flat_map block_thinking (m_blocks m) /\
    call_of <$> data (tool_uses ctx) = flat_map block_call (m_blocks m) /\
    input_tokens ctx = valueint (m_input m) /\ output_tokens ctx = valueint (m_output m) /\
    state ctx = STREAM_STATE_COMPLETE /\ user_data ctx = mkAnthropic None None /\
    stop_reason ctx = Some (freed (m_stop m)) /\ undefined ctx = true.
Proof.
  intros E Hps Ec Hlen Hw. apply create_at_view in E as (Hat & Hl & _).
  destruct (stream_run (streaming_sse_data_callback anthropic_parse_stream_event) ctx0 (stream_lines (anthropic_stream m) payloads) chunks) as [cap Er];
    [apply Hat|done|by eapply stream_lines_plain|done|done|].
  rewrite Er. clear Er Ec Hlen Hl. eexists. split; [reflexivity|].
  unfold anthropic_stream in *. revert Hps. rewrite !app_assoc. intros Hps.
  apply Forall2_app_inv_l in Hps as (ps1 & ps2 & Hp1 & Hp2 & ->).
  apply Forall2_cons_inv_l in Hp2 as (p & ps' & Hp & Hnil & ->). apply Forall2_nil_inv_l in Hnil as ->.
  rewrite stream_lines_app by done. rewrite List.filter_app, run_lines_app.
  destruct (anthropic_body_steps m left_over Hw) as [u' Hbody].
  apply (steps_run _ _ _ _ _ _ _ _ Hbody Hat) in Hp1.
  destruct Hp1 as (Hr & Hv & Hu).
  destruct (event_run (streaming_sse_data_callback anthropic_parse_stream_event) anthropic_handle anthropic_handler_handle _ _ _ Hp Hr) as (ctx1 & -> & (Hr1 & Hv1 & Hu1) & _).
  unfold anthropic_handle, typed, obj, js. cbn [fmap list_fmap fst snd]. json.
  destruct (message_stop_run ctx1 (JObject [(cs "type", JString (cs "message_stop"))]) (m_stop m)) as (Ev & Es & Eu & Ed & _).
  { apply Hr1. }
  { change (v_stop (view ctx1) = Some (m_stop m)). by rewrite Hv1, Hv. }
  destruct (add_blocks_view (m_blocks m) (set_tokens (valueint (m_input m)) 0 (mkView [] [] [] (-1) 0 0 None)))
    as (Bt & Bh & Bc & Bi & _).
  rewrite Hv1, Hv in Ev. apply (f_equal (fun v => (v_text v, v_thinking v, v_calls v, v_input v, v_output v, v_stop v))) in Ev.
  cbn in Ev, Bt, Bh, Bc, Bi. rewrite Bt, Bh, Bc, Bi in Ev. injection Ev as E1 E2 E3 E4 E5 E6.
  repeat split; done.
Qed.

Definition sample_message : Message :=
  mkMessage 12
    [ThinkingBlock [cs "hm"]; TextBlock [cs "Hi"; cs " there"];
     ToolBlock (cs "t1") (cs "ls") [[]; cs "{" ++ [JQ] ++ cs "p"; [JQ] ++ cs ":1}"];
     ToolBlock (cs "t2") (cs "pwd") [cs "{}"]] (cs "tool_use") 7.

Lemma sample_message_carried : Forall2 carries (anthropic_stream sample_message) (printed (anthropic_stream sample_message)).
Proof. unfold printed, anthropic_stream. cbn [fmap list_fmap app blocks_events block_events m_blocks sample_message deltas]. carried. Qed.

Lemma anthropic_answer_read_witness :
  let body := sse_text (stream_lines (anthropic_stream sample_message) (printed (anthropic_stream sample_message))) in
  let chunks := cut 400 7 body in
  exists ctx, process_chunks (Some (streaming_sse_data_callback anthropic_parse_stream_event))
                (fresh (mkAnthropic None (Some (cs "old")))) chunks = (0, ctx) /\
    content (text ctx) = flat_map block_text (m_blocks sample_message) /\
    content (thinking ctx) = flat_map block_thinking (m_blocks sample_message) /\
    call_of <$> data (tool_uses ctx) = flat_map block_call (m_blocks sample_message) /\
    input_tokens ctx = valueint 12 /\ output_tokens ctx = valueint 7 /\
    state ctx = STREAM_STATE_COMPLETE /\ user_data ctx = mkAnthropic None None /\
    stop_reason ctx = Some (freed (cs "tool_use")) /\ undefined ctx = true.
Proof.
  cbn zeta.
  apply (anthropic_answer_read sample_message (mkAnthropic None (Some (cs "old")))
           (fresh (mkAnthropic None (Some (cs "old")))) (printed (anthropic_stream sample_message))).
  - apply fresh_created.
  - apply sample_message_carried.
  - apply concat_cut.
  - rewrite concat_cut. vm_compute. reflexivity.
  - vm_compute. reflexivity.
Defined.

(** ** The freed stop reason *)

(** Whenever a stop reason is stored, as it is at the end of every complete
    answer, the end of the stream ("[DONE]" for the servers that speak the
    completions format, message_stop for Anthropic) frees it before it copies
    it: the context reads freed memory. Without a stored reason the end of the
    stream stores a literal and reads nothing freed. *)
Theorem stop_reason_read_after_free {F : Freed} {J : CJson} {U : Type} (ctx : StreamingContext U)
    (actx : StreamingContext AnthropicState) (root : cJSON)
    (h : option (cstr -> StreamingContext U -> StreamingContext U)) :
  let done_line := streaming_process_sse_line h ctx (cs "data: [DONE]") in
  let stopped := anthropic_event (cs "message_stop") root actx in
  undefined done_line = undefined ctx || bool_decide (is_Some (stop_reason ctx)) /\
  undefined stopped = undefined actx || bool_decide (is_Some (stop_reason actx)) /\
  (stop_reason ctx = None -> allocs ctx = [] -> stop_reason done_line = Some (cs "complete")) /\
  (stop_reason actx = None -> allocs actx = [] -> stop_reason stopped = Some (cs "end_turn")).
Proof.
  cbn zeta. unfold streaming_process_sse_line.
  change (has_prefix (cs "data: ") (cs "data: [DONE]")) with true.
  change (streq (drop 6 (cs "data: [DONE]")) (cs "[DONE]")) with true. cbv iota.
  unfold anthropic_event. json.
  unfold stop_reason_or, streaming_emit_complete, anthropic_cleanup_stream_state_internal, set_stop_reason, strdup.
  split; [|split; [|split]].
  - destruct (stop_reason ctx) as [r|] eqn:E; cbn; rewrite ?E; cbn; by destruct (undefined ctx).
  - destruct (stop_reason actx) as [r|] eqn:E; cbn; rewrite ?E; cbn; by destruct (undefined actx).
  - intros -> Ha. cbn. by rewrite Ha.
  - intros -> Ha. cbn. by rewrite Ha.
Qed.

Lemma stop_reason_read_after_free_witness :
  let ctx := with_stop_reason (Some (cs "stop")) (fresh tt) in
  undefined (streaming_process_sse_line None ctx (cs "data: [DONE]")) = true /\
  stop_reason (streaming_process_sse_line None (fresh tt) (cs "data: [DONE]")) = Some (cs "complete").
Proof.
  cbn zeta.
  destruct (stop_reason_read_after_free (with_stop_reason (Some (cs "stop")) (fresh tt)) (fresh (mkAnthropic None None))
              JNull None) as (E & _).
  destruct (stop_reason_read_after_free (fresh tt) (fresh (mkAnthropic None None)) JNull None) as (_ & _ & E' & _).
  split; [exact E|]. apply E'; reflexivity.
Defined.

(** ** The cached tool index *)

(** An argument delta for a tool other than the cached current one is dropped:
    the context does not change. The search the comment announces for this
    case runs only when there is no current tool. *)
Theorem delta_of_other_tool_dropped {F : Freed} {U : Type} (ctx : StreamingContext U) (id s : cstr) (tool : StreamingToolUse) :
  0 <= current_tool_index ctx ->
  data (tool_uses ctx) !! Z.to_nat (current_tool_index ctx) = Some tool -> tu_id tool <> id ->
  streaming_emit_tool_delta ctx id s = ctx.
Proof.
  intros Hidx Ht Hne. unfold streaming_emit_tool_delta. destruct s as [|c s]; [done|].
  assert (in_range (current_tool_index ctx) (da_count (tool_uses ctx)) = true) as Hin.
  { apply in_range_true. apply lookup_lt_Some in Ht. unfold da_count. lia. }
  unfold delta_index. rewrite Hin. cbn -[append_arguments in_range]. rewrite Hin, Ht.
  apply streq_false in Hne. rewrite Hne. cbn. by destruct ctx.
Qed.

Definition two_tools : StreamingContext unit :=
  streaming_emit_tool_start (streaming_emit_tool_start (fresh tt) (cs "a") (cs "ls")) (cs "b") (cs "pwd").

Lemma delta_of_other_tool_dropped_witness :
  streaming_emit_tool_delta two_tools (cs "a") (cs "{}") = two_tools /\
  call_of <$> data (tool_uses two_tools) = [mkCall (cs "a") (cs "ls") []; mkCall (cs "b") (cs "pwd") []].
Proof.
  split; [|vm_compute; reflexivity].
  apply (delta_of_other_tool_dropped two_tools (cs "a") (cs "{}")
           (mkToolUse (cs "b") (cs "pwd") (mkBuffer [] INITIAL_TOOL_ARGS_CAPACITY))).
  - vm_compute. discriminate.
  - vm_compute. reflexivity.
  - vm_compute. discriminate.
Defined.
