(* ===== verification/ChatTheorems.v ===== *)
(** * Answers in the chat-completions format

    What the OpenAI parser makes of a well-formed stream of chunks, and that the
    parser of the local servers is the same function when memory lasts. *)

From S2P Require Import Prelude CString Json Darray Streaming StreamingFacts Providers ProviderFacts StreamView StreamRun.
Local Open Scope bool_scope.
Local Open Scope Z_scope.

(** ** The chunks of a completion *)

Record Completion := mkCompletion {
  c_text : list cstr;
  c_calls : list (cstr * cstr * list cstr);
  c_finish : cstr;
  c_prompt : Z;
  c_completion : Z
}.

Definition chunk (l : list (string * cJSON)) : event :=
  (None, obj [("object"%string, js "chat.completion.chunk"); ("choices"%string, JArray [obj l])]).

Definition text_chunk (s : cstr) : event :=
  chunk [("index"%string, JNumber 0); ("delta"%string, obj [("content"%string, JString s)])].

Definition call_chunk (l : list (string * cJSON)) : event :=
  chunk [("index"%string, JNumber 0); ("delta"%string, obj [("tool_calls"%string, JArray [obj l])])].

(** The first chunk of a call has its names, the others have arguments. *)
Definition call_start (index : Z) (id name : cstr) : event :=
  call_chunk [("index"%string, JNumber index); ("id"%string, JString id); ("type"%string, js "function");
              ("function"%string, obj [("name"%string, JString name); ("arguments"%string, js "")])].

Definition call_delta (index : Z) (s : cstr) : event :=
  call_chunk [("index"%string, JNumber index); ("function"%string, obj [("arguments"%string, JString s)])].

Definition call_events (index : Z) (c : cstr * cstr * list cstr) : list event :=
  [call_start index c.1.1 c.1.2] ++ (call_delta index <$> c.2).

Fixpoint calls_events (index : Z) (cs : list (cstr * cstr * list cstr)) : list event :=
  match cs with [] => [] | c :: cs' => call_events index c ++ calls_events (index + 1) cs' end.

Definition finish_chunk (r : cstr) : event :=
  chunk [("index"%string, JNumber 0); ("delta"%string, obj []); ("finish_reason"%string, JString r)].

Definition usage_chunk (prompt completion : Z) : event :=
  (None, obj [("choices", JArray []);
              ("usage", obj [("prompt_tokens", JNumber prompt); ("completion_tokens", JNumber completion)])]%string).

Definition chat_stream (c : Completion) : list event :=
  (text_chunk <$> c_text c) ++ calls_events 0 (c_calls c) ++ [finish_chunk (c_finish c)]
  ++ [usage_chunk (c_prompt c) (c_completion c)].

Definition call_value (c : cstr * cstr * list cstr) : Call := mkCall c.1.1 c.1.2 (concat c.2).

(** The lines after the last chunk. *)
Definition done_lines : list cstr := [cs "data: [DONE]"; []].

Section Chat.
Context {F : Freed} {J : CJson} {JS : CJsonSpec J} {P : ParseWithLength} {SJ : StreamJson J P} {U : Type}.
Implicit Types (v : View) (u : U) (ctx : StreamingContext U).

Notation chat_handler := (streaming_sse_data_callback (openai_parse_stream_event (U:=U))).
Notation csteps := (steps chat_handler).

Lemma chat_handler_handle (e : event) p ctx : carries e p -> chat_handler p ctx = openai_event e.2 ctx.
Proof.
  intros (Hp & _ & _ & (Hne & Hd) & _). unfold streaming_sse_data_callback, openai_parse_stream_event.
  destruct (streq_spec p (cs "[DONE]")) as [|_]; [done|]. rewrite Hp. by destruct p.
Qed.

Ltac chat := unfold text_chunk, call_start, call_delta, finish_chunk, usage_chunk, call_chunk, chunk, obj, js;
  cbn [fmap list_fmap fst snd];
  unfold openai_event, usage_tokens, first_choice, choice_delta, openai_parse_tool_call_delta; json;
  unfold set_input_tokens, set_output_tokens; cbv iota.

Lemma text_chunk_steps s v u :
  weight v + len s < WEIGHT -> csteps [text_chunk s] v u (add_text s v) u.
Proof.
  intros Hw. apply (steps_one _ openai_event chat_handler_handle). intros ctx (Hr & <- & <-).
  chat. by apply emit_text_view.
Qed.

Lemma texts_steps ds v u :
  weight v + len (concat ds) < WEIGHT -> csteps (text_chunk <$> ds) v u (add_text (concat ds) v) u.
Proof.
  revert v. induction ds as [|d ds IH]; intros v; cbn [concat]; rewrite ?len_app; intros Hw.
  - unfold add_text. rewrite app_nil_r. destruct v. apply steps_nil.
  - pose proof (len_nonneg (concat ds)).
    change (text_chunk <$> d :: ds) with ([text_chunk d] ++ (text_chunk <$> ds)).
    eapply steps_app.
    + apply text_chunk_steps. lia.
    + replace (add_text (d ++ concat ds) v) with (add_text (concat ds) (add_text d v))
        by (unfold add_text; cbn; by rewrite app_assoc).
      apply IH. rewrite weight_add_text. lia.
Qed.

Lemma call_start_steps i id name v u :
  weight v < WEIGHT - 1 -> csteps [call_start i id name] v u (add_call (mkCall id name []) v) u.
Proof.
  intros Hw. apply (steps_one _ openai_event chat_handler_handle). intros ctx (Hr & <- & <-).
  chat. cbn [fold_left]. unfold openai_tool_call. json.
  change (cs "") with (@nil ascii). by apply emit_tool_start_view.
Qed.

(** The index of the last call of a view names it. *)
Lemma delta_tool_id_last ctx (l : list Call) c :
  v_calls (view ctx) = l ++ [c] -> Z.of_nat (length l) < 2 ^ 31 ->
  delta_tool_id ctx (valueint (Z.of_nat (length l))) = Some (call_id c).
Proof.
  intros Hl Hlt. cbn in Hl. unfold delta_tool_id, valueint, wrap64.
  rewrite Z.max_r, Z.min_r, Z.mod_small by lia.
  assert (length (data (tool_uses ctx)) = S (length l)) as Hlen.
  { rewrite <- (length_fmap call_of), Hl, length_app. cbn. lia. }
  destruct (Z.ltb_spec (Z.of_nat (length l)) (da_count (tool_uses ctx))) as [|Hge]; [|unfold da_count in Hge; lia].
  rewrite Nat2Z.id. assert ((call_of <$> data (tool_uses ctx)) !! length l = Some c) as E.
  { rewrite Hl. by apply list_lookup_middle. }
  rewrite list_lookup_fmap in E. destruct (data (tool_uses ctx) !! length l) as [t|]; [|done].
  apply (inj Some) in E. cbn. by rewrite <- E.
Qed.

Lemma call_delta_steps id name args s v u :
  weight v + 1 + len args + len s < WEIGHT -> Z.of_nat (length (v_calls v)) < 2 ^ 31 ->
  csteps [call_delta (Z.of_nat (length (v_calls v))) s] (add_call (mkCall id name args) v) u
    (add_call (mkCall id name (args ++ s)) v) u.
Proof.
  intros Hw Hlen. apply (steps_one _ openai_event chat_handler_handle). intros ctx (Hr & Hv & Hu).
  chat. cbn [fold_left]. unfold openai_tool_call. json.
  destruct s as [|a s].
  { rewrite app_nil_r. done. }
  unfold Datatypes.id. rewrite (delta_tool_id_last ctx (v_calls v) (mkCall id name args)); [|by rewrite Hv|done].
  destruct (emit_tool_delta_view ctx (v_calls v) id name args (a :: s)) as [E1 E2]; [done| | | |].
  - rewrite Hv, weight_add_call. cbn [call_arguments]. lia.
  - by rewrite Hv.
  - by rewrite Hv.
  - cbn [call_id]. rewrite E1, E2, Hv. split; [|done]. done.
Qed.

Lemma call_deltas_steps id name args ds v u :
  weight v + 1 + len args + len (concat ds) < WEIGHT -> Z.of_nat (length (v_calls v)) < 2 ^ 31 ->
  csteps (call_delta (Z.of_nat (length (v_calls v))) <$> ds) (add_call (mkCall id name args) v) u
    (add_call (mkCall id name (args ++ concat ds)) v) u.
Proof.
  intros Hw Hlen. revert args Hw. induction ds as [|d ds IH]; intros args; cbn [concat]; rewrite ?len_app; intros Hw.
  - rewrite app_nil_r. apply steps_nil.
  - pose proof (len_nonneg (concat ds)).
    change (call_delta ?i <$> d :: ds) with ([call_delta i d] ++ (call_delta i <$> ds)).
    eapply steps_app.
    + apply call_delta_steps; [lia|done].
    + rewrite app_assoc. apply IH. rewrite len_app. lia.
Qed.

Definition add_calls (cs : list (cstr * cstr * list cstr)) v : View :=
  fold_left (fun v c => add_call (call_value c) v) cs v.

Lemma add_calls_view cs v :
  v_text (add_calls cs v) = v_text v /\ v_thinking (add_calls cs v) = v_thinking v /\
  v_calls (add_calls cs v) = v_calls v ++ (call_value <$> cs) /\
  v_input (add_calls cs v) = v_input v /\ v_output (add_calls cs v) = v_output v.
Proof.
  revert v. unfold add_calls. induction cs as [|c cs IH]; intros v; cbn [fold_left fmap list_fmap]; [by rewrite app_nil_r|].
  destruct (IH (add_call (call_value c) v)) as (-> & -> & -> & -> & ->). cbn. by rewrite <- app_assoc.
Qed.

Lemma calls_steps cs v u :
  weight v + calls_weight (call_value <$> cs) < WEIGHT ->
  Z.of_nat (length (v_calls v)) + Z.of_nat (length cs) < 2 ^ 31 ->
  csteps (calls_events (Z.of_nat (length (v_calls v))) cs) v u (add_calls cs v) u.
Proof.
  revert v. induction cs as [|[[id name] ds] cs IH]; intros v Hw Hlen; [apply steps_nil|].
  cbn [calls_events].
  assert (weight v + (1 + len (concat ds) + calls_weight (call_value <$> cs)) < WEIGHT) as Hw' by exact Hw.
  cbn [length] in Hlen.
  pose proof (calls_weight_length (call_value <$> cs)). pose proof (len_nonneg (concat ds)).
  eapply steps_app.
  - unfold call_events. cbn [fst snd]. eapply steps_app; [apply call_start_steps; lia|].
    apply call_deltas_steps; [change (len []) with 0; lia|lia].
  - cbn [app].
    replace (Z.of_nat (length (v_calls v)) + 1) with (Z.of_nat (length (v_calls (add_call (mkCall id name (concat ds)) v))))
      by (cbn; rewrite length_app; cbn; lia).
    apply IH; [rewrite weight_add_call; cbn; lia|cbn; rewrite length_app; cbn; lia].
Qed.

Lemma finish_steps r v u : csteps [finish_chunk r] v u (set_stop (Some r) v) u.
Proof.
  apply (steps_one _ openai_event chat_handler_handle). intros ctx ([Hs Ha] & <- & <-).
  chat. unfold set_stop_reason, strdup. cbn. by rewrite Ha.
Qed.

Lemma usage_steps i o v u : csteps [usage_chunk i o] v u (set_tokens (valueint i) (valueint o) v) u.
Proof.
  apply (steps_one _ openai_event chat_handler_handle). intros ctx (Hr & <- & <-). chat. done.
Qed.

(** The chunks of a completion, from a fresh context. *)
Lemma chat_steps c u :
  len (concat (c_text c)) + calls_weight (call_value <$> c_calls c) < WEIGHT ->
  Z.of_nat (length (c_calls c)) < 2 ^ 31 ->
  csteps (chat_stream c) (mkView [] [] [] (-1) 0 0 None) u
    (set_tokens (valueint (c_prompt c)) (valueint (c_completion c)) (set_stop (Some (c_finish c))
      (add_calls (c_calls c) (add_text (concat (c_text c)) (mkView [] [] [] (-1) 0 0 None))))) u.
Proof.
  intros Hw Hlen. pose proof (calls_weight_length (call_value <$> c_calls c)).
  unfold chat_stream. eapply steps_app; [apply texts_steps; unfold weight; cbn; change (len []) with 0; lia|].
  eapply steps_app; [|eapply steps_app; [apply finish_steps|apply usage_steps]].
  apply (calls_steps (c_calls c) (add_text (concat (c_text c)) (mkView [] [] [] (-1) 0 0 None))); [|cbn; lia].
  rewrite weight_add_text. unfold weight. cbn. change (len []) with 0. lia.
Qed.

(** The end of the stream. *)
Lemma done_run ctx r :
  ready ctx -> stop_reason ctx = Some r ->
  let ctx' := run_lines chat_handler ctx [cs "data: [DONE]"] in
  view ctx' = set_stop (Some (freed r)) (view ctx) /\ state ctx' = STREAM_STATE_COMPLETE /\ undefined ctx' = true.
Proof.
  intros [_ Ha] Hr. unfold run_lines. cbn [fold_left]. unfold streaming_process_sse_line.
  change (has_prefix (cs "data: ") (cs "data: [DONE]")) with true.
  change (streq (drop 6 (cs "data: [DONE]")) (cs "[DONE]")) with true. cbv iota.
  unfold stop_reason_or. rewrite Hr. unfold streaming_emit_complete, set_stop_reason, strdup. cbn. rewrite Hr. cbn.
  by rewrite Ha.
Qed.
End Chat.

(** ** Properties *)

(** Any completion, sent as any number of text chunks, each call started and
    its arguments continued in any number of chunks, the finish reason, the
    usage and [DONE], and cut anywhere by the transport, is read back: text,
    calls in order with their whole arguments, tokens, completion. *)
Theorem chat_answer_read {F : Freed} {J : CJson} {JS : CJsonSpec J} {P : ParseWithLength} {SJ : StreamJson J P}
    {U : Type} (c : Completion) (u : U) (ctx0 : StreamingContext U) (payloads chunks : list cstr) :
  streaming_context_create u [] = Some ctx0 ->
  Forall2 carries (chat_stream c) payloads ->
  concat chunks = sse_text (stream_lines (chat_stream c) payloads ++ done_lines) ->
  len (concat chunks) < 2 ^ 61 ->
  len (concat (c_text c)) + calls_weight (call_value <$> c_calls c) < WEIGHT ->
  Z.of_nat (length (c_calls c)) < 2 ^ 31 ->
  exists ctx, process_chunks (Some (streaming_sse_data_callback (openai_parse_stream_event (U:=U)))) ctx0 chunks = (0, ctx) /\
    content (text ctx) = concat (c_text c) /\ content (thinking ctx) = [] /\
    call_of <$> data (tool_uses ctx) = call_value <$> c_calls c /\
    input_tokens ctx = valueint (c_prompt c) /\ output_tokens ctx = valueint (c_completion c) /\
    state ctx = STREAM_STATE_COMPLETE /\
    stop_reason ctx = Some (freed (c_finish c)) /\ undefined ctx = true.
Proof.
  intros E Hps Ec Hlen Hw Hn. apply create_at_view in E as (Hat & Hl & _).
  destruct (stream_run (streaming_sse_data_callback (openai_parse_stream_event (U:=U))) ctx0
              (stream_lines (chat_stream c) payloads ++ done_lines) chunks) as [cap Er]; [apply Hat|done| |done|done|].
  { apply Forall_app. split; [by eapply stream_lines_plain|]. repeat constructor. }
  rewrite Er. clear Er Ec Hlen Hl. eexists. split; [reflexivity|].
  rewrite List.filter_app, run_lines_app. change (List.filter nonempty done_lines) with [cs "data: [DONE]"].
  apply (steps_run _ _ _ _ _ _ _ _ (chat_steps c u Hw Hn) Hat) in Hps as (Hr & Hv & _).
  destruct (done_run _ (c_finish c) Hr) as (Ev & Es & Eu).
  { match type of Hv with view ?x = _ => change (v_stop (view x) = Some (c_finish c)) end. by rewrite Hv. }
  rewrite Hv in Ev.
  destruct (add_calls_view (c_calls c) (add_text (concat (c_text c)) (mkView [] [] [] (-1) 0 0 None)))
    as (Bt & Bh & Bc & Bi & Bo).
  apply (f_equal (fun v => (v_text v, v_thinking v, v_calls v, v_input v, v_output v, v_stop v))) in Ev.
  cbn -[add_calls run_lines] in Ev, Bt, Bh, Bc. rewrite Bt, Bh, Bc in Ev.
  injection Ev as E1 E2 E3 E4 E5 E6. repeat split; done.
Qed.

Definition sample_completion : Completion :=
  mkCompletion [cs "Hel"; cs "lo"]
    [(cs "a", cs "ls", [cs "{"; cs "}"]); (cs "b", cs "pwd", [])] (cs "stop") 3 4.

Lemma sample_completion_carried :
  Forall2 carries (chat_stream sample_completion) (printed (chat_stream sample_completion)).
Proof.
  unfold printed, chat_stream, call_events. cbn [fmap list_fmap app calls_events call_events c_calls c_text sample_completion fst snd].
  carried.
Qed.

Lemma chat_answer_read_witness :
  let body := sse_text (stream_lines (chat_stream sample_completion) (printed (chat_stream sample_completion)) ++ done_lines) in
  exists ctx, process_chunks (Some (streaming_sse_data_callback openai_parse_stream_event)) (fresh tt) (cut 900 3 body) = (0, ctx) /\
    content (text ctx) = concat (c_text sample_completion) /\ content (thinking ctx) = [] /\
    call_of <$> data (tool_uses ctx) = call_value <$> c_calls sample_completion /\
    input_tokens ctx = valueint 3 /\ output_tokens ctx = valueint 4 /\
    state ctx = STREAM_STATE_COMPLETE /\
    stop_reason ctx = Some (freed (cs "stop")) /\ undefined ctx = true.
Proof.
  cbn zeta.
  apply (chat_answer_read sample_completion tt (fresh tt) (printed (chat_stream sample_completion))).
  - apply fresh_created.
  - apply sample_completion_carried.
  - apply concat_cut.
  - rewrite concat_cut. vm_compute. reflexivity.
  - vm_compute. reflexivity.
  - vm_compute. reflexivity.
Defined.

(** ** The local servers *)

Section Local.
Context {F : Freed} {J : CJson} {P : ParseWithLength} {SJ : StreamJson J P} {U : Type}.
Implicit Types (ctx : StreamingContext U).

Lemma local_event_eq root ctx : allocs ctx = [] -> local_ai_event root ctx = openai_event root ctx.
Proof.
  intros Ha. unfold local_ai_event, openai_event.
  destruct (first_choice root) as [c|]; [|done]. destruct (string_item _ "finish_reason"); [|done].
  unfold set_stop_reason, strdup. cbn -[choice_delta].
  by rewrite (choice_delta_allocs c ctx Ha).
Qed.

Lemma local_parse_eq p ctx :
  allocs ctx = [] -> local_ai_parse_stream_event p ctx = openai_parse_stream_event p ctx.
Proof.
  intros Ha. unfold local_ai_parse_stream_event, openai_parse_stream_event.
  destruct p; [done|]. destruct (streq _ _); [done|]. destruct (cJSON_ParseWithLength _); [|done].
  by rewrite local_event_eq.
Qed.

Lemma local_line_eq ctx line :
  allocs ctx = [] ->
  streaming_process_sse_line (Some (streaming_sse_data_callback local_ai_parse_stream_event)) ctx line =
  streaming_process_sse_line (Some (streaming_sse_data_callback openai_parse_stream_event)) ctx line.
Proof.
  intros Ha. unfold streaming_process_sse_line, streaming_sse_data_callback.
  destruct (has_prefix (cs "data: ") line); [|done]. destruct (streq _ _); [done|].
  destruct (drop 6 line); [done|]. by rewrite local_parse_eq.
Qed.

(** The parser of the local servers and the one of OpenAI read every body the
    same way, however it is cut, as long as there is memory: only a copy of the
    finish reason that fails tells them apart. *)
Theorem local_ai_reads_as_openai ctx (chunks : list cstr) :
  allocs ctx = [] ->
  process_chunks (Some (streaming_sse_data_callback local_ai_parse_stream_event)) ctx chunks =
  process_chunks (Some (streaming_sse_data_callback openai_parse_stream_event)) ctx chunks.
Proof.
  rewrite !(process_chunks_concat _). generalize (concat chunks). clear chunks. intros s.
  revert ctx. induction s as [|c s IH]; intros ctx Ha; cbn -[streaming_append_char]; [done|].
  destruct (Ascii.eqb c LF).
  - assert (end_of_line (Some (streaming_sse_data_callback local_ai_parse_stream_event)) ctx =
            end_of_line (Some (streaming_sse_data_callback openai_parse_stream_event)) ctx) as ->.
    { unfold end_of_line. destruct (content (line_buffer ctx)); [done|]. by rewrite local_line_eq. }
    apply IH. unfold end_of_line. destruct (content (line_buffer ctx)); [done|].
    by apply (sse_line_allocs (streaming_sse_data_callback openai_parse_stream_event)).
  - destruct (Ascii.eqb c CR); [by apply IH|].
    destruct (streaming_append_char ctx c) as [ctx'|] eqn:E; [|done]. apply IH.
    unfold streaming_append_char in E. cbn -[ensure_capacity] in E. rewrite Ha in E.
    destruct (ensure_capacity _ _ _); cbn in E; [|done]. by injection E as <-.
Qed.
End Local.

Lemma local_ai_reads_as_openai_witness :
  let body := sse_text (stream_lines (chat_stream sample_completion) (printed (chat_stream sample_completion)) ++ done_lines) in
  process_chunks (Some (streaming_sse_data_callback local_ai_parse_stream_event)) (fresh tt) (cut 900 5 body) =
  process_chunks (Some (streaming_sse_data_callback openai_parse_stream_event)) (fresh tt) (cut 900 5 body).
Proof. cbn zeta. apply local_ai_reads_as_openai. reflexivity. Defined.

(** ** The choice of the provider *)

(** The registered providers are tried in order and no URL is claimed by two of
    them in a way that matters: the one chosen is Codex for the Codex path,
    else OpenAI, else Anthropic for their hosts, else a local server, unless
    the URL names another path of chatgpt.com: then there is no provider. *)
Theorem detect_provider_exact (api_url : cstr) :
  let has s := contains api_url (cs s) in
  detect_provider_for_url get_provider_registry api_url =
    if has "chatgpt.com/backend-api/codex"%string then Some CodexProvider
    else if has "api.openai.com"%string || has "openai.azure.com"%string || has "api.groq.com"%string then Some OpenAIProvider
    else if has "api.anthropic.com"%string then Some AnthropicProvider
    else if has "chatgpt.com"%string then None
    else Some LocalAIProvider.
Proof.
  cbn zeta. unfold get_provider_registry, detect_provider_for_url, detect_provider, codex_detect_provider,
    openai_detect_provider, anthropic_detect_provider, local_ai_detect_provider, CODEX_URL_PATTERN.
  destruct (contains api_url (cs "chatgpt.com/backend-api/codex")); [done|].
  destruct (contains api_url (cs "api.openai.com")), (contains api_url (cs "openai.azure.com")),
    (contains api_url (cs "api.groq.com")), (contains api_url (cs "api.anthropic.com")),
    (contains api_url (cs "chatgpt.com")); reflexivity.
Qed.

(** No provider writes beyond the array of headers it is given: the last slot
    is left for the terminator, and every header is one of its buffers. *)
Lemma add_header_length max_headers b h hs :
  Z.of_nat (length hs) <= Z.max 0 (max_headers - 1) ->
  Z.of_nat (length (add_header max_headers b h hs)) <= Z.max 0 (max_headers - 1).
Proof.
  intros Hl. unfold add_header. destruct b; cbn; [|done].
  destruct (Z.ltb_spec (Z.of_nat (length hs)) (max_headers - 1)); [|done]. rewrite length_app. cbn. lia.
Qed.
