(* ===== verification/CodexTheorems.v ===== *)
(** * Answers of the Responses API

    What the Codex parser makes of a well-formed stream: the arguments of a call
    are the ones of its last event, whatever deltas came before. *)

From S2P Require Import Prelude CString Json Darray Streaming StreamingFacts Providers ProviderFacts StreamView StreamRun.
Local Open Scope bool_scope.
Local Open Scope Z_scope.

(** An output item: text, or a call with the deltas streamed for it and its
    arguments; [added] when the stream announces the call first. *)
Inductive Output :=
| TextOutput (deltas : list cstr)
| CallOutput (added : bool) (id name : cstr) (deltas : list cstr) (arguments : cstr).

Record Response := mkResponse { r_outputs : list Output; r_input : Z; r_output : Z }.

Definition resp (t : string) (l : list (string * cJSON)) : event := (None, obj (("type"%string, js t) :: l)).

Definition call_item (id name : cstr) (l : list (string * cJSON)) : cJSON :=
  obj ([("type"%string, js "function_call"); ("call_id"%string, JString id); ("name"%string, JString name)] ++ l).

Definition text_event (s : cstr) : event := resp "response.output_text.delta" [("delta"%string, JString s)].
Definition added_event (id name : cstr) : event :=
  resp "response.output_item.added" [("item"%string, call_item id name [])].
Definition args_event (s : cstr) : event :=
  resp "response.function_call_arguments.delta" [("delta"%string, JString s)].
Definition args_done_event (s : cstr) : event :=
  resp "response.function_call_arguments.done" [("arguments"%string, JString s)].
Definition item_done_event (id name s : cstr) : event :=
  resp "response.output_item.done" [("item"%string, call_item id name [("arguments"%string, JString s)])].
Definition completed_event (i o : Z) : event :=
  resp "response.completed"
    [("response", obj [("usage", obj [("input_tokens", JNumber i); ("output_tokens", JNumber o)])])]%string.

Definition output_events (o : Output) : list event :=
  match o with
  | TextOutput ds => text_event <$> ds
  | CallOutput true id name ds a =>
      [added_event id name] ++ (args_event <$> ds) ++ [args_done_event a] ++ [item_done_event id name a]
  | CallOutput false id name ds a => [item_done_event id name a]
  end.

Definition codex_stream (r : Response) : list event :=
  concat (output_events <$> r_outputs r) ++ [completed_event (r_input r) (r_output r)].

(** What the response says. *)
Definition output_text (o : Output) : cstr := match o with TextOutput ds => concat ds | _ => [] end.
Definition output_call (o : Output) : list Call :=
  match o with CallOutput _ id name _ a => [mkCall id name a] | _ => [] end.

(** The most an output weighs while it is streamed. *)
Definition output_weight (o : Output) : Z :=
  match o with
  | TextOutput ds => len (concat ds)
  | CallOutput _ _ _ ds a => 1 + len (concat ds) + len a
  end.
Fixpoint outputs_weight (os : list Output) : Z :=
  match os with [] => 0 | o :: os' => output_weight o + outputs_weight os' end.

Lemma outputs_weight_nonneg os : 0 <= outputs_weight os.
Proof.
  induction os as [|o os IH]; cbn; [done|].
  destruct o as [ds|b id name ds a]; cbn; pose proof (len_nonneg (concat ds)); [|pose proof (len_nonneg a)]; lia.
Qed.

Section Codex.
Context {F : Freed} {J : CJson} {JS : CJsonSpec J} {P : ParseWithLength} {SJ : StreamJson J P} {U : Type}.
Implicit Types (v : View) (u : U) (ctx : StreamingContext U).

Notation xhandler := (streaming_sse_data_callback (codex_parse_stream_event (U:=U))).
Notation xsteps := (steps xhandler).

Definition codex_handle (root : cJSON) ctx : StreamingContext U :=
  match string_item (Some root) "type" with Some t => codex_event t root ctx | None => ctx end.

Lemma codex_handler_handle (e : event) p ctx : carries e p -> xhandler p ctx = codex_handle e.2 ctx.
Proof.
  intros (Hp & _ & _ & (Hne & Hd) & _). unfold streaming_sse_data_callback, codex_parse_stream_event.
  destruct (streq_spec p (cs "[DONE]")) as [|_]; [done|]. rewrite Hp. destruct p; [done|].
  unfold codex_handle. by destruct (string_item _ _).
Qed.

Ltac codex := unfold codex_handle, text_event, added_event, args_event, args_done_event, item_done_event, completed_event,
    resp, call_item, obj, js; cbn [fmap list_fmap fst snd app]; json;
  unfold codex_event; json; unfold codex_item_done, function_call; json; cbn [mbind option_bind]; json.

Lemma text_event_steps s v u :
  weight v + len s < WEIGHT -> xsteps [text_event s] v u (add_text s v) u.
Proof.
  intros Hw. apply (steps_one _ codex_handle codex_handler_handle). intros ctx (Hr & <- & <-).
  codex. by apply emit_text_view.
Qed.

Lemma texts_event_steps ds v u :
  weight v + len (concat ds) < WEIGHT -> xsteps (text_event <$> ds) v u (add_text (concat ds) v) u.
Proof.
  revert v. induction ds as [|d ds IH]; intros v; cbn [concat]; rewrite ?len_app; intros Hw.
  - unfold add_text. rewrite app_nil_r. destruct v. apply steps_nil.
  - pose proof (len_nonneg (concat ds)).
    change (text_event <$> d :: ds) with ([text_event d] ++ (text_event <$> ds)).
    eapply steps_app.
    + apply text_event_steps. lia.
    + replace (add_text (d ++ concat ds) v) with (add_text (concat ds) (add_text d v))
        by (unfold add_text; cbn; by rewrite app_assoc).
      apply IH. rewrite weight_add_text. lia.
Qed.

Lemma added_steps id name v u :
  weight v < WEIGHT - 1 -> xsteps [added_event id name] v u (add_call (mkCall id name []) v) u.
Proof.
  intros Hw. apply (steps_one _ codex_handle codex_handler_handle). intros ctx (Hr & <- & <-).
  codex. by apply emit_tool_start_view.
Qed.

(** The current tool is the last call of the view. *)
Lemma streamed_tool_last ctx (l : list Call) c :
  v_calls (view ctx) = l ++ [c] -> v_current (view ctx) = Z.of_nat (length l) ->
  streamed_tool_id ctx = Some (call_id c).
Proof.
  intros Hl Hc. cbn in Hl, Hc. unfold streamed_tool_id. rewrite Hc, Nat2Z.id.
  assert (length (data (tool_uses ctx)) = S (length l)) as Hlen.
  { rewrite <- (length_fmap call_of), Hl, length_app. cbn. lia. }
  assert (in_range (Z.of_nat (length l)) (da_count (tool_uses ctx)) = true) as ->.
  { apply in_range_true. unfold da_count. lia. }
  assert ((call_of <$> data (tool_uses ctx)) !! length l = Some c) as E.
  { rewrite Hl. by apply list_lookup_middle. }
  rewrite list_lookup_fmap in E. destruct (data (tool_uses ctx) !! length l) as [t|]; [|done].
  apply (inj Some) in E. cbn. by rewrite <- E.
Qed.

Lemma args_steps id name args s v u :
  weight v + 1 + len args + len s < WEIGHT ->
  xsteps [args_event s] (add_call (mkCall id name args) v) u (add_call (mkCall id name (args ++ s)) v) u.
Proof.
  intros Hw. apply (steps_one _ codex_handle codex_handler_handle). intros ctx (Hr & Hv & Hu).
  codex. rewrite (streamed_tool_last ctx (v_calls v) (mkCall id name args)); [|by rewrite Hv|by rewrite Hv].
  destruct (emit_tool_delta_view ctx (v_calls v) id name args s) as [E1 E2]; [done| | | |].
  - rewrite Hv, weight_add_call. cbn [call_arguments]. lia.
  - by rewrite Hv.
  - by rewrite Hv.
  - cbn [call_id]. rewrite E1, E2, Hv. split; [|done]. done.
Qed.

Lemma args_all_steps id name args ds v u :
  weight v + 1 + len args + len (concat ds) < WEIGHT ->
  xsteps (args_event <$> ds) (add_call (mkCall id name args) v) u (add_call (mkCall id name (args ++ concat ds)) v) u.
Proof.
  revert args. induction ds as [|d ds IH]; intros args; cbn [concat]; rewrite ?len_app; intros Hw.
  - rewrite app_nil_r. apply steps_nil.
  - pose proof (len_nonneg (concat ds)).
    change (args_event <$> d :: ds) with ([args_event d] ++ (args_event <$> ds)).
    eapply steps_app.
    + apply args_steps. lia.
    + rewrite app_assoc. apply IH. rewrite len_app. lia.
Qed.

(** The last call of a view, replaced. *)
Lemma replace_view ctx id name args s v u :
  at_view ctx (add_call (mkCall id name args) v) u -> len s < WEIGHT ->
  Forall (fun c => call_id c <> id) (v_calls v) ->
  view (streaming_replace_tool_arguments ctx id s) = add_call (mkCall id name s) v /\
  user_data (streaming_replace_tool_arguments ctx id s) = u.
Proof.
  intros (Hr & Hv & Hu) Hw Hid.
  destruct (replace_arguments_view ctx (v_calls v) (mkCall id name args) s) as [E1 E2]; [done| | |done|].
  - unfold WEIGHT, PTRDIFF_MAX in *. lia.
  - by rewrite Hv.
  - cbn [call_id] in E1, E2. rewrite E1, E2, Hv. done.
Qed.

Lemma args_done_steps id name args s v u :
  len s < WEIGHT -> Forall (fun c => call_id c <> id) (v_calls v) ->
  xsteps [args_done_event s] (add_call (mkCall id name args) v) u (add_call (mkCall id name s) v) u.
Proof.
  intros Hw Hid. apply (steps_one _ codex_handle codex_handler_handle). intros ctx Hat.
  codex. rewrite (streamed_tool_last ctx (v_calls v) (mkCall id name args)); [|by rewrite (proj1 (proj2 Hat))..].
  by apply (replace_view ctx id name args).
Qed.

(** The last event of a call that was announced. *)
Lemma item_done_steps id name args s v u :
  len s < WEIGHT -> Forall (fun c => call_id c <> id) (v_calls v) ->
  xsteps [item_done_event id name s] (add_call (mkCall id name args) v) u (add_call (mkCall id name s) v) u.
Proof.
  intros Hw Hid. apply (steps_one _ codex_handle codex_handler_handle). intros ctx Hat.
  codex. pose proof (f_equal v_calls (proj1 (proj2 Hat))) as Hl. cbn in Hl.
  pose proof (find_tool_last _ _ _ Hl Hid) as Hf. cbn [call_id] in Hf. rewrite Hf. cbn [from_option].
  by apply (replace_view ctx id name args).
Qed.

(** The only event of a call that was not. *)
Lemma item_alone_steps id name s v u :
  weight v < WEIGHT - 1 -> len s < WEIGHT -> Forall (fun c => call_id c <> id) (v_calls v) ->
  xsteps [item_done_event id name s] v u (add_call (mkCall id name s) v) u.
Proof.
  intros Hv Hw Hid. apply (steps_one _ codex_handle codex_handler_handle). intros ctx ([Hs Ha] & Ev & Eu).
  codex. rewrite find_tool_None by (change (Forall (fun c => call_id c <> id) (v_calls (view ctx))); by rewrite Ev).
  cbn [from_option].
  destruct (emit_tool_start_view ctx id name) as [E1 E2]; [done|by rewrite Ev|].
  apply (replace_view _ id name []); [|done|done]. split; [split|].
  - by apply emit_tool_start_sound.
  - by apply emit_tool_start_allocs.
  - by rewrite E1, E2, Ev.
Qed.

Definition add_output (o : Output) v : View :=
  match o with
  | TextOutput ds => add_text (concat ds) v
  | CallOutput _ id name _ a => add_call (mkCall id name a) v
  end.

Lemma output_steps o v u :
  weight v + output_weight o < WEIGHT -> Forall (fun c => c ∉ call_id <$> v_calls v) (call_id <$> output_call o) ->
  xsteps (output_events o) v u (add_output o v) u.
Proof.
  destruct o as [ds|added id name ds a]; cbn [output_weight output_events add_output output_call]; intros Hw Hid.
  - by apply texts_event_steps.
  - pose proof (len_nonneg (concat ds)). pose proof (len_nonneg a).
    assert (0 <= weight v) as Hv0.
    { unfold weight. pose proof (len_nonneg (v_text v)). pose proof (len_nonneg (v_thinking v)).
      pose proof (calls_weight_length (v_calls v)). lia. }
    assert (Forall (fun c => call_id c <> id) (v_calls v)) as Hne.
    { apply Forall_forall. intros c Hc E. apply Forall_cons in Hid as [Hid _]. apply Hid. cbn. rewrite <- E.
      by apply list_elem_of_fmap_2. }
    destruct added; [|apply item_alone_steps; [lia|lia|done]].
    eapply steps_app; [apply added_steps; lia|]. eapply steps_app; [apply args_all_steps; change (len []) with 0; lia|].
    eapply steps_app; [apply args_done_steps; [lia|done]|]. apply item_done_steps; [lia|done].
Qed.

Lemma weight_add_output o v : weight (add_output o v) <= weight v + output_weight o.
Proof.
  destruct o as [ds|b id name ds a]; cbn [add_output output_weight].
  - rewrite weight_add_text. lia.
  - rewrite weight_add_call. cbn. pose proof (len_nonneg (concat ds)). lia.
Qed.

Lemma outputs_steps os v u :
  weight v + outputs_weight os < WEIGHT -> NoDup (call_id <$> (v_calls v ++ flat_map output_call os)) ->
  xsteps (concat (output_events <$> os)) v u (fold_left (fun v o => add_output o v) os v) u.
Proof.
  revert v. induction os as [|o os IH]; intros v Hw Hnd; [apply steps_nil|].
  cbn [fmap list_fmap concat fold_left outputs_weight flat_map] in *.
  pose proof (outputs_weight_nonneg os). pose proof (weight_add_output o v).
  eapply steps_app.
  - apply output_steps; [lia|]. rewrite !fmap_app in Hnd. apply NoDup_app in Hnd as (_ & Hdis & _).
    apply Forall_forall. intros i Hi Hc. apply (Hdis i Hc). apply elem_of_app. by left.
  - apply IH; [lia|]. rewrite app_assoc in Hnd.
    destruct o as [ds|b id name ds a]; cbn [output_call add_output] in *; rewrite ?app_nil_r in Hnd; exact Hnd.
Qed.

Lemma add_outputs_view os v :
  let v' := fold_left (fun v o => add_output o v) os v in
  v_text v' = v_text v ++ flat_map output_text os /\ v_thinking v' = v_thinking v /\
  v_calls v' = v_calls v ++ flat_map output_call os.
Proof.
  revert v. induction os as [|o os IH]; intros v; cbn [fold_left flat_map]; cbn zeta; [by rewrite !app_nil_r|].
  destruct (IH (add_output o v)) as (-> & -> & ->). destruct o; cbn; by rewrite ?app_nil_r, <- ?app_assoc.
Qed.

(** The completion of a response: a literal reason, nothing freed is read. *)
Lemma completed_run (ctx : StreamingContext U) i o :
  allocs ctx = [] ->
  let ctx' := codex_handle (completed_event i o).2 ctx in
  view ctx' = set_tokens (valueint i) (valueint o) (set_stop (Some (cs "stop")) (view ctx)) /\
  state ctx' = STREAM_STATE_COMPLETE /\ undefined ctx' = undefined ctx.
Proof.
  intros Ha. cbn zeta. codex. unfold set_input_tokens, set_output_tokens, streaming_emit_complete, set_stop_reason, strdup.
  cbn. by rewrite Ha.
Qed.
End Codex.

(** ** Properties *)

(** Any response, its calls announced or not, whatever deltas were streamed for
    their arguments, and cut anywhere, is read back: the text, each call once
    and in order with the arguments of its last event, the tokens; the context
    is complete and no freed string was read. The identifiers of the calls
    differ. *)
Theorem codex_answer_read {F : Freed} {J : CJson} {JS : CJsonSpec J} {P : ParseWithLength} {SJ : StreamJson J P}
    {U : Type} (r : Response) (u : U) (ctx0 : StreamingContext U) (payloads chunks : list cstr) :
  streaming_context_create u [] = Some ctx0 ->
  Forall2 carries (codex_stream r) payloads ->
  concat chunks = sse_text (stream_lines (codex_stream r) payloads) ->
  len (concat chunks) < 2 ^ 61 -> outputs_weight (r_outputs r) < WEIGHT ->
  NoDup (call_id <$> flat_map output_call (r_outputs r)) ->
  exists ctx, process_chunks (Some (streaming_sse_data_callback (codex_parse_stream_event (U:=U)))) ctx0 chunks = (0, ctx) /\
    content (text ctx) = flat_map output_text (r_outputs r) /\ content (thinking ctx) = [] /\
    call_of <$> data (tool_uses ctx) = flat_map output_call (r_outputs r) /\
    input_tokens ctx = valueint (r_input r) /\ output_tokens ctx = valueint (r_output r) /\
    state ctx = STREAM_STATE_COMPLETE /\ stop_reason ctx = Some (cs "stop").
Proof.
  intros E Hps Ec Hlen Hw Hnd. apply create_at_view in E as (Hat & Hl & _).
  destruct (stream_run (streaming_sse_data_callback (codex_parse_stream_event (U:=U))) ctx0
              (stream_lines (codex_stream r) payloads) chunks) as [cap Er];
    [apply Hat|done|by eapply stream_lines_plain|done|done|].
  rewrite Er. clear Er Ec Hlen Hl. eexists. split; [reflexivity|].
  unfold codex_stream in *. apply Forall2_app_inv_l in Hps as (ps1 & ps2 & Hp1 & Hp2 & ->).
  apply Forall2_cons_inv_l in Hp2 as (p & ps' & Hp & Hnil & ->). apply Forall2_nil_inv_l in Hnil as ->.
  rewrite stream_lines_app by done. rewrite List.filter_app, run_lines_app.
  apply (steps_run _ _ _ _ _ _ _ _ (outputs_steps (r_outputs r) (mkView [] [] [] (-1) 0 0 None) u Hw Hnd) Hat) in Hp1
    as (Hr & Hv & _).
  destruct (event_run (streaming_sse_data_callback (codex_parse_stream_event (U:=U))) codex_handle codex_handler_handle
              _ _ _ Hp Hr) as (ctx1 & -> & (Hr1 & Hv1 & _) & _).
  destruct (completed_run ctx1 (r_input r) (r_output r)) as (Ev & Es & _); [apply Hr1|].
  destruct (add_outputs_view (r_outputs r) (mkView [] [] [] (-1) 0 0 None)) as (Bt & Bh & Bc).
  rewrite Hv1, Hv in Ev.
  apply (f_equal (fun v => (v_text v, v_thinking v, v_calls v, v_input v, v_output v, v_stop v))) in Ev.
  cbn -[codex_handle completed_event] in Ev, Bt, Bh, Bc. rewrite Bt, Bh, Bc in Ev.
  injection Ev as E1 E2 E3 E4 E5 E6. repeat split; done.
Qed.

Definition sample_response : Response :=
  mkResponse
    [TextOutput [cs "Wor"; cs "king"];
     CallOutput true (cs "c1") (cs "ls") [cs "{"; cs "x"] (cs "{}");
     CallOutput false (cs "c2") (cs "pwd") [] (cs "{}")] 5 6.

Lemma sample_response_carried :
  Forall2 carries (codex_stream sample_response) (printed (codex_stream sample_response)).
Proof.
  unfold printed, codex_stream. cbn [fmap list_fmap app concat output_events r_outputs sample_response]. carried.
Qed.

Lemma codex_answer_read_witness :
  let body := sse_text (stream_lines (codex_stream sample_response) (printed (codex_stream sample_response))) in
  exists ctx, process_chunks (Some (streaming_sse_data_callback codex_parse_stream_event)) (fresh tt) (cut 900 4 body) = (0, ctx) /\
    content (text ctx) = flat_map output_text (r_outputs sample_response) /\ content (thinking ctx) = [] /\
    call_of <$> data (tool_uses ctx) = flat_map output_call (r_outputs sample_response) /\
    input_tokens ctx = valueint 5 /\ output_tokens ctx = valueint 6 /\
    state ctx = STREAM_STATE_COMPLETE /\ stop_reason ctx = Some (cs "stop").
Proof.
  cbn zeta.
  apply (codex_answer_read sample_response tt (fresh tt) (printed (codex_stream sample_response))).
  - apply fresh_created.
  - apply sample_response_carried.
  - apply concat_cut.
  - rewrite concat_cut. vm_compute. reflexivity.
  - vm_compute. reflexivity.
  - apply (bool_decide_unpack _). vm_compute. exact I.
Defined.
