(* ===== verification/Conversation.v ===== *)
(** * The conversation and its memory (lib/session/conversation_tracker.c)

    The messages of a session, what is written to long-term memory when one is
    appended, and how the last turns are read back at the next start. The
    document store and qsort of the C library are parameters; allocations
    succeed. *)

From S2P Require Import Prelude CString Json.
From stdpp Require Import sorting.
Local Open Scope bool_scope.
Local Open Scope Z_scope.

(** ** Data *)

Record ConversationMessage := mkConversationMessage {
  cv_role : cstr;
  cv_content : cstr;
  cv_tool_call_id : option cstr;
  cv_tool_name : option cstr;
  cv_has_tool_calls : bool
}.

Notation ConversationHistory := (list ConversationMessage).

(** A text given to [vector_db_service_add_text]: text, source and metadata. *)
Record StoredText := mkStoredText {
  sx_text : cstr;
  sx_source : cstr;
  sx_metadata : cstr
}.

(** document_t; the search results may hold NULL documents. *)
Record Document := mkDocument {
  doc_id : Z;
  doc_content : option cstr;
  doc_metadata : option cstr;
  doc_source : option cstr;
  doc_timestamp : Z
}.

(** qsort: the order of elements that compare equal is not specified. *)
Class Qsort := qsort : forall A : Type, (A -> A -> Z) -> list A -> list A.
Arguments qsort {Qsort A} compare l : rename.

Class QsortSpec (Q : Qsort) : Prop := {
  qsort_perm {A} (compare : A -> A -> Z) l : qsort compare l ≡ₚ l;
  qsort_sorted {A} (compare : A -> A -> Z) l :
    (forall a b c, compare a b <= 0 -> compare b c <= 0 -> compare a c <= 0) ->
    (forall a b, compare a b <= 0 \/ compare b a <= 0) ->
    Sorted (fun a b => compare a b <= 0) (qsort compare l)
}.

Definition is_user (m : ConversationMessage) : bool := streq (cv_role m) (cs "user").
Definition is_assistant (m : ConversationMessage) : bool := streq (cv_role m) (cs "assistant").
Definition is_tool (m : ConversationMessage) : bool := streq (cv_role m) (cs "tool").

(** ** Appending *)

Section Append.
Context {J : CJson}.

Definition init_conversation_history : ConversationHistory := [].

(** What an assistant message with tool calls leaves to store: the text of its
    content member, nothing when there is none; other messages are kept whole.
    The flag is has_tool_calls. *)
Definition assistant_storage (content : cstr) : bool * option cstr :=
  match cJSON_Parse content with
  | None => (false, Some content)
  | Some json =>
      match cJSON_IsArray (cJSON_GetObjectItem json (cs "tool_calls")) with
      | None => (false, Some content)
      | Some _ =>
          (true,
           match cJSON_GetObjectItem json (cs "content") with
           | None => None
           | Some content_item =>
               match cJSON_IsString (Some content_item) with
               | Some [] => None
               | Some s => Some s
               | None => match content_item with JNull => None | _ => Some content end
               end
           end)
      end
  end.

Definition metadata_json (role : cstr) : option cstr := cJSON_PrintUnformatted (JObject [(cs "role", JString role)]).

(** The new history and the texts added to the store, when there is one. *)
Definition add_message_to_history (has_store : bool) (history : ConversationHistory) (role content : cstr)
    (tool_call_id tool_name : option cstr) : ConversationHistory * list StoredText :=
  let '(has_tool_calls, text) :=
    if streq role (cs "tool") then (false, None)
    else if streq role (cs "assistant") then assistant_storage content
    else (false, Some content) in
  (history ++ [mkConversationMessage role content tool_call_id tool_name has_tool_calls],
   match text, metadata_json role with
   | Some t, Some meta => if has_store then [mkStoredText t role meta] else []
   | _, _ => []
   end).

Definition append_conversation_message (has_store : bool) (history : ConversationHistory) (role content : cstr)
  : ConversationHistory * list StoredText :=
  add_message_to_history has_store history role content None None.

Definition append_tool_message (has_store : bool) (history : ConversationHistory)
    (content tool_call_id tool_name : cstr) : ConversationHistory * list StoredText :=
  add_message_to_history has_store history (cs "tool") content (Some tool_call_id) (Some tool_name).
End Append.

(** ** Reading back *)

Definition compare_results_by_timestamp (a b : option Document) : Z :=
  match a, b with
  | None, None => 0
  | None, Some _ => 1
  | Some _, None => -1
  | Some a, Some b =>
      if doc_timestamp a <? doc_timestamp b then -1
      else if doc_timestamp b <? doc_timestamp a then 1
      else if doc_id a <? doc_id b then -1
      else if doc_id b <? doc_id a then 1
      else 0
  end.

Section Load.
Context {J : CJson} {Q : Qsort}.

(** The message of a document; documents without content or role are skipped. *)
Definition document_message (doc : option Document) : option ConversationMessage :=
  doc ← doc;
  content ← doc_content doc;
  let metadata := doc_metadata doc ≫= cJSON_Parse in
  let member k := cJSON_IsString (metadata ≫= fun j => cJSON_GetObjectItem j (cs k)) in
  role ← match member "role"%string with Some r => Some r | None => doc_source doc end;
  Some (mkConversationMessage role content (member "tool_call_id"%string) (member "tool_name"%string) false).

(** A message goes to the current turn, the last one; without one it is
    dropped. *)
Fixpoint push_last (turns : list (list ConversationMessage)) (m : ConversationMessage)
  : list (list ConversationMessage) :=
  match turns with
  | [] => []
  | [t] => [t ++ [m]]
  | t :: ts => t :: push_last ts m
  end.

Definition add_to_turns (turns : list (list ConversationMessage)) (m : ConversationMessage)
  : list (list ConversationMessage) :=
  if is_user m || (is_assistant m && match turns with [] => true | _ => false end) then turns ++ [[m]]
  else push_last turns m.

Definition group_turns (ms : list ConversationMessage) : list (list ConversationMessage) :=
  fold_left add_to_turns ms [].

(** The messages appended to the history. *)
Definition load_complete_conversation_turns (results : list (option Document)) (max_turns : nat)
  : list ConversationMessage :=
  let turns := group_turns (omap document_message (qsort compare_results_by_timestamp results)) in
  let turns_count := length turns in
  let turns_to_add := if (0 <? max_turns)%nat && (max_turns <? turns_count)%nat then max_turns else turns_count in
  concat (drop (turns_count - turns_to_add) turns).

(** The store answers a search by time; [None] when there is no store. *)
Definition load_conversation_history (search : option (Z -> Z -> list (option Document))) (now : Z)
  : ConversationHistory :=
  match search with
  | None => []
  | Some search_by_time => load_complete_conversation_turns (search_by_time (now - 7 * 24 * 60 * 60) now) 10
  end.

(** The result code and the history; days_back days in seconds stay an int. *)
Definition load_extended_conversation_history (search : option (Z -> Z -> list (option Document)))
    (now days_back : Z) (max_messages : nat) : Z * ConversationHistory :=
  match search with
  | None => (-1, [])
  | Some search_by_time =>
      let start_time := if 0 <? days_back then now - days_back * 24 * 60 * 60 else 0 in
      (0, load_complete_conversation_turns (search_by_time start_time now) ((max_messages + 3) / 4))
  end.

(** [None] for the NULL of the code. *)
Definition search_conversation_history (search_text : option (cstr -> nat -> list (option Document)))
    (query : cstr) (max_results : nat) : option ConversationHistory :=
  match search_text with
  | None => None
  | Some f =>
      match f query max_results with
      | [] => None
      | results => Some (omap document_message (qsort compare_results_by_timestamp results))
      end
  end.
End Load.

(** qsort as a merge sort, for concrete runs. *)
Definition not_after {A} (compare : A -> A -> Z) (a b : A) : Prop := compare a b <= 0.

#[export] Instance not_after_dec {A} (compare : A -> A -> Z) : RelDecision (not_after compare).
Proof. intros a b. apply Z.le_dec. Defined.

#[export] Instance RefQsort : Qsort := fun A compare l => merge_sort (not_after compare) l.

#[export] Instance RefQsortSpec : QsortSpec RefQsort.
Proof.
  split; intros A compare l; [apply merge_sort_Permutation|]. intros Ht Htot.
  apply (@Sorted_merge_sort A (not_after compare)). intros a b. unfold not_after. destruct (Htot a b); auto.
Qed.
