(* ===== verification/ConversationFacts.v ===== *)
(** * The memory of a conversation: theorems

    What is read back at the start of a session: the last whole turns, never cut
    inside one, and exactly the natural-language part of what was appended. *)

From S2P Require Import Prelude CString Json Conversation.
From stdpp Require Import sorting.
Local Open Scope bool_scope.
Local Open Scope Z_scope.

(** ** Turns *)

Fixpoint users (l : list ConversationMessage) : nat :=
  match l with [] => 0%nat | m :: l' => ((if is_user m then 1 else 0) + users l')%nat end.

Lemma users_app l k : users (l ++ k) = (users l + users k)%nat.
Proof. induction l as [|m l IH]; [done|]. cbn. rewrite IH. lia. Qed.

(** The messages from the first user or assistant message on. *)
Fixpoint from_start (l : list ConversationMessage) : list ConversationMessage :=
  match l with
  | [] => []
  | m :: l' => if is_user m || is_assistant m then l else from_start l'
  end.

(** The shortest tail that starts with a user message and holds [n] of them. *)
Fixpoint last_users (n : nat) (l : list ConversationMessage) : list ConversationMessage :=
  match l with
  | [] => []
  | m :: l' => if is_user m && (users l <=? n)%nat then l else last_users n l'
  end.

(** The turns of the messages: one per user message, and one more for an
    assistant that speaks first. *)
Definition turn_count (l : list ConversationMessage) : nat :=
  match from_start l with
  | [] => 0
  | m :: l' => S (users l')
  end.

(** The last [n] turns; all of them when there are fewer or [n] is 0. *)
Definition recent_turns (n : nat) (l : list ConversationMessage) : list ConversationMessage :=
  if (n =? 0)%nat || (turn_count l <=? n)%nat then from_start l else last_users n l.

(** A turn: its first message, and no user message after it. *)
Definition turn_ok (t : list ConversationMessage) : Prop :=
  exists m t', t = m :: t' /\ users t' = 0%nat.

Definition turns_ok (ts : list (list ConversationMessage)) : Prop :=
  Forall turn_ok ts /\
  match ts with
  | [] => True
  | t :: ts' => (exists m t', t = m :: t' /\ is_user m || is_assistant m = true) /\
                Forall (fun t => exists m t', t = m :: t' /\ is_user m = true) ts'
  end.

Lemma push_last_app ts t m : push_last (ts ++ [t]) m = ts ++ [t ++ [m]].
Proof.
  induction ts as [|t' ts IH]; [done|]. destruct ts as [|t'' ts]; [done|].
  change (t' :: push_last ((t'' :: ts) ++ [t]) m = t' :: (t'' :: ts) ++ [t ++ [m]]). by rewrite IH.
Qed.

Lemma from_start_snoc l m :
  from_start (l ++ [m]) = match from_start l with
                          | [] => if is_user m || is_assistant m then [m] else []
                          | k => k ++ [m]
                          end.
Proof.
  induction l as [|x l IH]; cbn; [done|]. destruct (is_user x || is_assistant x); [done|]. apply IH.
Qed.

Lemma group_turns_snoc l m : group_turns (l ++ [m]) = add_to_turns (group_turns l) m.
Proof. unfold group_turns. by rewrite fold_left_app. Qed.

(** The turns are the messages from the start on, cut before each user. *)
Lemma group_turns_ok l : turns_ok (group_turns l) /\ concat (group_turns l) = from_start l.
Proof.
  induction l as [|m l [[Ht Hs] Hc]] using rev_ind; [done|].
  rewrite group_turns_snoc, from_start_snoc. unfold add_to_turns.
  destruct (group_turns l) as [|t ts] eqn:E using rev_ind.
  - cbn in Hc. rewrite <- Hc. rewrite andb_true_r.
    destruct (is_user m || is_assistant m) eqn:Em; [|done].
    split; [|done]. split; [|cbn; split; [by exists m, []|constructor]]. constructor; [by exists m, []|constructor].
  - assert (from_start l <> []) as Hne.
    { rewrite <- Hc, concat_app. apply Forall_app in Ht as [_ Ht]. inversion Ht as [|? ? (x & t' & -> & _) _].
      cbn. by destruct (concat ts). }
    destruct (from_start l) as [|y k] eqn:Ek; [done|].
    assert ((is_assistant m && match ts ++ [t] with [] => true | _ => false end) = false) as -> by (destruct ts; by rewrite andb_false_r).
    rewrite orb_false_r. destruct (is_user m) eqn:Em.
    + rewrite concat_app, Hc. cbn [concat]. rewrite app_nil_r. split; [|done]. split.
      * apply Forall_app. split; [done|]. repeat constructor. by exists m, [].
      * destruct ts as [|t0 ts]; cbn in Hs |- *; destruct Hs as [H0 Hs]; (split; [done|]).
        -- repeat constructor. by exists m, [].
        -- apply Forall_app. split; [done|]. repeat constructor. by exists m, [].
    + rewrite push_last_app. split.
      * apply Forall_app in Ht as [Ht Hlast]. inversion Hlast as [|? ? (x & t' & -> & Hu) _]; subst. split.
        -- apply Forall_app. split; [done|]. repeat constructor. exists x, (t' ++ [m]). split; [done|].
           rewrite users_app, Hu. cbn. by rewrite Em.
        -- destruct ts as [|t0 ts]; cbn in Hs |- *; destruct Hs as [H0 Hs].
           ++ split; [|done]. destruct H0 as (z & t'' & [= -> ->] & Hz). by exists z, (t'' ++ [m]).
           ++ split; [done|]. apply Forall_app in Hs as [Hs1 Hs2]. apply Forall_app. split; [done|].
              apply Forall_singleton in Hs2 as (z & t'' & [= -> ->] & Hz). repeat constructor. by exists z, (t'' ++ [m]).
      * rewrite concat_app in Hc |- *. cbn [concat] in Hc |- *. rewrite app_nil_r in Hc |- *. by rewrite app_assoc, Hc.
Qed.

Lemma users_concat ts :
  Forall turn_ok ts -> Forall (fun t => exists m t', t = m :: t' /\ is_user m = true) ts ->
  users (concat ts) = length ts.
Proof.
  induction 1 as [|t ts (m & t' & -> & Hu) Ht IH]; [done|]. intros [(x & t'' & [= -> ->] & Hx) Hs']%Forall_cons_1.
  cbn. rewrite Hx, users_app, Hu. cbn. by rewrite IH.
Qed.

Lemma last_users_suffix n pre u rest :
  is_user u = true -> users (u :: rest) = n -> last_users n (pre ++ u :: rest) = u :: rest.
Proof.
  intros Hu Hn. induction pre as [|m pre IH]; cbn [app last_users].
  - rewrite Hu, Hn. by rewrite Nat.leb_refl.
  - rewrite IH. destruct (is_user m) eqn:Em; [|done]. cbn [andb].
    destruct (Nat.leb_spec (users (m :: pre ++ u :: rest)) n) as [Hle|]; [|done].
    cbn [users] in Hle. rewrite Em, users_app in Hle. cbn [users] in Hn. cbn [users] in Hle. lia.
Qed.

Lemma turn_count_exact l : length (group_turns l) = turn_count l.
Proof.
  destruct (group_turns_ok l) as [[Ht Hs] Hc]. unfold turn_count. rewrite <- Hc.
  destruct (group_turns l) as [|t ts]; [done|]. destruct Hs as [(m & t' & -> & Hm) Hs].
  apply Forall_cons_1 in Ht as [(x & t'' & [= <- <-] & Hu) Ht']. cbn [concat app].
  rewrite users_app, Hu, users_concat by done. done.
Qed.

Lemma from_start_app l : exists pre, l = pre ++ from_start l.
Proof.
  induction l as [|m l [pre IH]]; [by exists []|]. cbn. destruct (is_user m || is_assistant m); [by exists []|].
  exists (m :: pre). cbn. by f_equal.
Qed.

(** ** The order of the documents *)

Definition before (a b : option Document) : Prop := compare_results_by_timestamp a b <= 0.

Lemma before_trans a b c : before a b -> before b c -> before a c.
Proof.
  unfold before, compare_results_by_timestamp. destruct a as [a|], b as [b|], c as [c|]; try lia.
  repeat (case_match; rewrite ?Z.ltb_lt, ?Z.ltb_ge in *; try lia).
  all: rewrite ?Z.ltb_lt, ?Z.ltb_ge in *; lia.
Qed.

Lemma before_total a b : before a b \/ before b a.
Proof.
  unfold before, compare_results_by_timestamp. destruct a as [a|], b as [b|]; try lia.
  repeat (case_match; rewrite ?Z.ltb_lt, ?Z.ltb_ge in *; try lia).
Qed.

(** Documents of the store in the order they were added: identifiers grow, times
    do not fall. *)
Definition added_in_order (docs : list Document) : Prop :=
  StronglySorted (fun a b => doc_timestamp a <= doc_timestamp b /\ doc_id a < doc_id b) docs.

Lemma before_added a b :
  doc_timestamp a <= doc_timestamp b /\ doc_id a < doc_id b -> before (Some a) (Some b) /\ ~ before (Some b) (Some a).
Proof.
  intros [Ht Hi]. unfold before, compare_results_by_timestamp.
  repeat (case_match; rewrite ?Z.ltb_lt, ?Z.ltb_ge in *; try lia).
Qed.

Lemma added_in_order_antisym docs x y :
  added_in_order docs -> x ∈ Some <$> docs -> y ∈ Some <$> docs -> before x y -> before y x -> x = y.
Proof.
  intros Hd (a & -> & Ha)%list_elem_of_fmap (b & -> & Hb)%list_elem_of_fmap H1 H2. f_equal.
  induction Hd as [|d docs Hs IH Hf]; [by apply not_elem_of_nil in Ha|]. rewrite Forall_forall in Hf.
  apply elem_of_cons in Ha as [->|Ha], Hb as [->|Hb]; auto; exfalso.
  - by apply (before_added d b (Hf _ Hb)).
  - by apply (before_added d a (Hf _ Ha)).
Qed.

(** Whatever order the store answers in, sorting restores the order of adding. *)
Lemma qsort_documents {Q : Qsort} {QS : QsortSpec Q} results docs :
  added_in_order docs -> results ≡ₚ Some <$> docs -> qsort compare_results_by_timestamp results = Some <$> docs.
Proof.
  intros Hd Hp. apply (StronglySorted_unique_strong before).
  - intros x y Hx Hy. apply (added_in_order_antisym docs); [done| |done].
    by rewrite <- Hp, <- (qsort_perm compare_results_by_timestamp).
  - apply Sorted_StronglySorted; [intros a b c; apply before_trans|].
    apply qsort_sorted; [intros a b c; apply before_trans|apply before_total].
  - clear Hp. induction Hd as [|d docs Hs IH Hf]; constructor; [done|]. apply Forall_fmap. eapply Forall_impl; [exact Hf|].
    intros b Hb. by apply before_added.
  - by rewrite qsort_perm.
Qed.

(** ** Properties *)

Lemma from_start_idem l : from_start (from_start l) = from_start l.
Proof. induction l as [|m l IH]; [done|]. cbn. destruct (is_user m || is_assistant m) eqn:Em; [cbn; by rewrite Em|done]. Qed.

(** The remaining turns start with a user message. *)
Lemma dropped_turns_start l k :
  (0 < k < length (group_turns l))%nat ->
  exists pre u rest, l = pre ++ u :: rest /\ concat (drop k (group_turns l)) = u :: rest /\ is_user u = true /\
    users (u :: rest) = (length (group_turns l) - k)%nat.
Proof.
  intros Hk. destruct (group_turns_ok l) as [[Ht Hs] Hc]. destruct (from_start_app l) as [pre Hpre].
  rewrite <- Hc in Hpre. clear Hc. set (ts := group_turns l) in *. clearbody ts.
  assert (concat ts = concat (take k ts) ++ concat (drop k ts)) as E by by rewrite <- concat_app, take_drop.
  assert (Forall turn_ok (drop k ts)) as Htd.
  { rewrite <- (take_drop k ts) in Ht. by apply Forall_app in Ht as [_ Ht]. }
  assert (Forall (fun t => exists m t', t = m :: t' /\ is_user m = true) (drop k ts)) as Hsd.
  { destruct ts as [|t ts]; [by rewrite drop_nil|]. destruct k as [|k]; [lia|]. cbn. destruct Hs as [_ Hs].
    rewrite <- (take_drop k ts) in Hs. by apply Forall_app in Hs as [_ Hs]. }
  pose proof (users_concat _ Htd Hsd) as Hu. rewrite length_drop in Hu.
  destruct (drop k ts) as [|t ts'] eqn:Ed; [cbn in Hu; lia|].
  apply Forall_cons_1 in Hsd as [(m & t' & -> & Hm) _]. exists (pre ++ concat (take k ts)), m, (t' ++ concat ts').
  split; [|done]. rewrite <- app_assoc, Hpre at 1. f_equal. exact E.
Qed.

Lemma drop_turns l k :
  (0 < k < length (group_turns l))%nat -> concat (drop k (group_turns l)) = last_users (length (group_turns l) - k) l.
Proof.
  intros Hk. destruct (dropped_turns_start l k Hk) as (pre & u & rest & El & -> & Hu & Hn).
  rewrite <- Hn. rewrite El. symmetry. by apply last_users_suffix.
Qed.

Lemma load_turns_recent {J : CJson} {Q : Qsort} results n :
  load_complete_conversation_turns results n =
  recent_turns n (omap document_message (qsort compare_results_by_timestamp results)).
Proof.
  unfold load_complete_conversation_turns, recent_turns.
  set (ms := omap document_message _). rewrite <- turn_count_exact. pose proof (drop_turns ms) as Hd.
  destruct (group_turns_ok ms) as [_ Hc]. set (ts := group_turns ms) in *. clearbody ts.
  destruct (Nat.eqb_spec n 0) as [->|Hn]; [by rewrite Nat.sub_diag|]. destruct (Nat.ltb_spec 0 n); [|lia].
  destruct (Nat.ltb_spec n (length ts)), (Nat.leb_spec (length ts) n); try lia; cbn [andb orb].
  - rewrite Hd by lia. by replace (length ts - (length ts - n))%nat with n by lia.
  - by rewrite Nat.sub_diag.
Qed.

Lemma recent_turns_cases n l :
  (recent_turns n l = from_start l /\ (n = 0 \/ turn_count l <= n)%nat) \/
  exists pre u rest, l = pre ++ u :: rest /\ recent_turns n l = u :: rest /\ is_user u = true /\ users (u :: rest) = n.
Proof.
  unfold recent_turns. destruct (Nat.eqb_spec n 0) as [->|Hn]; [by left; auto|]. cbn [orb].
  destruct (Nat.leb_spec (turn_count l) n); [by left; auto|right].
  assert (0 < turn_count l - n < length (group_turns l))%nat as Hk by (rewrite turn_count_exact; lia).
  pose proof (drop_turns l _ Hk) as E. destruct (dropped_turns_start l _ Hk) as (pre & u & rest & H1 & H2 & H3 & H4).
  rewrite turn_count_exact in *. replace (turn_count l - (turn_count l - n))%nat with n in * by lia.
  exists pre, u, rest. by rewrite <- E.
Qed.

(** What starts a session: the last turns of the stored messages in the order
    of time, whatever order the store and qsort use. A turn is never cut: the
    history starts with a user message, or with the assistant message that
    starts the whole record, it is a tail of the record, and it has at most the
    number of turns asked for. *)
Theorem loaded_turns_exact {J : CJson} {Q : Qsort} {QS : QsortSpec Q} (results : list (option Document))
    (docs : list Document) (n : nat) :
  added_in_order docs -> results ≡ₚ Some <$> docs ->
  let record := omap document_message (Some <$> docs) in
  let loaded := load_complete_conversation_turns results n in
  loaded = recent_turns n record /\
  (exists earlier, record = earlier ++ loaded) /\
  match loaded with
  | [] => from_start record = []
  | m :: _ => is_user m = true \/ (is_assistant m = true /\ loaded = from_start record)
  end /\
  (0 < n -> turn_count loaded <= n)%nat.
Proof.
  intros Hd Hp record loaded.
  assert (loaded = recent_turns n record) as El.
  { unfold loaded. rewrite load_turns_recent. by rewrite (qsort_documents results docs). }
  rewrite El. clearbody loaded. clear El loaded. split; [done|].
  destruct (recent_turns_cases n record) as [[-> Hn]|(pre & u & rest & E1 & -> & Hu & Hn)].
  - split; [apply from_start_app|]. split.
    + destruct (from_start record) as [|m l] eqn:E; [done|]. pose proof (from_start_idem record) as Hi. rewrite E in Hi.
      cbn in Hi. destruct (is_user m || is_assistant m) eqn:Em.
      * apply orb_true_iff in Em as [Em|Em]; auto.
      * exfalso. destruct (from_start_app l) as [p Hl]. apply (f_equal length) in Hi, Hl. rewrite length_app in Hl. cbn in Hi. lia.
    + unfold turn_count in *. rewrite from_start_idem. lia.
  - split; [by exists pre|]. split; [by left|]. intros _. unfold turn_count. cbn [from_start].
    rewrite Hu. cbn [orb]. cbn [users] in Hn. rewrite Hu in Hn. lia.
Qed.

(** Three turns and an answer before them, found in another order. *)
Definition sample_record : list Document :=
  [mkDocument 1 (Some (cs "hello")) None (Some (cs "assistant")) 5; mkDocument 2 (Some (cs "a")) None (Some (cs "user")) 5;
   mkDocument 3 (Some (cs "b")) (Some (obj1 "role" "assistant")) None 6; mkDocument 4 (Some (cs "c")) None (Some (cs "user")) 6;
   mkDocument 5 (Some (cs "d")) None (Some (cs "assistant")) 9].

Lemma loaded_turns_exact_witness :
  let results := reverse (Some <$> sample_record) in
  (cv_content <$> load_complete_conversation_turns results 2) = [cs "a"; cs "b"; cs "c"; cs "d"] /\
  load_complete_conversation_turns results 2 = recent_turns 2 (omap document_message (Some <$> sample_record)) /\
  (0 < 2 -> turn_count (load_complete_conversation_turns results 2) <= 2)%nat.
Proof.
  cbn zeta. split; [vm_compute; reflexivity|].
  assert (added_in_order sample_record) as Hd by (repeat constructor; cbn; lia).
  destruct (loaded_turns_exact (reverse (Some <$> sample_record)) sample_record 2 Hd (reverse_Permutation _)) as (E & _ & _ & Hn).
  split; [exact E|exact Hn].
Defined.

(** ** Remembering *)

Inductive Said :=
| SaidText (role content : cstr)
| SaidTool (content call_id name : cstr).

Section Remember.
Context {J : CJson} {JS : CJsonSpec J}.

Definition say (has_store : bool) (m : ConversationHistory * list StoredText) (s : Said)
  : ConversationHistory * list StoredText :=
  let '(history, stored) := m in
  let '(history', new) :=
    match s with
    | SaidText role content => append_conversation_message has_store history role content
    | SaidTool content id name => append_tool_message has_store history content id name
    end in
  (history', stored ++ new).

Definition say_all (has_store : bool) (said : list Said) (history : ConversationHistory)
  : ConversationHistory * list StoredText := fold_left (say has_store) said (history, []).

Definition said_role (s : Said) : cstr := match s with SaidText role _ => role | SaidTool _ _ _ => cs "tool" end.
Definition said_content (s : Said) : cstr := match s with SaidText _ c => c | SaidTool c _ _ => c end.

(** The content of an assistant is a JSON value with an array of tool calls. *)
Definition has_calls (content : cstr) (json : cJSON) : Prop :=
  cJSON_Parse content = Some json /\ exists calls, cJSON_GetObjectItem json (cs "tool_calls") = Some (JArray calls).

(** What a text leaves in long-term memory. Of an assistant with tool calls these are
    its words, the string that is its content member, or nothing when that is missing,
    null or empty; a content member that is no string leaves everything. *)
Inductive text_kept (role content : cstr) : option cstr -> Prop :=
| kept_tool : role = cs "tool" -> text_kept role content None
| kept_other : role <> cs "tool" -> role <> cs "assistant" -> text_kept role content (Some content)
| kept_plain : role = cs "assistant" -> (forall json, ~ has_calls content json) -> text_kept role content (Some content)
| kept_words json words : role = cs "assistant" -> has_calls content json ->
    cJSON_GetObjectItem json (cs "content") = Some (JString words) -> words <> [] -> text_kept role content (Some words)
| kept_nothing json : role = cs "assistant" -> has_calls content json ->
    cJSON_GetObjectItem json (cs "content") ∈ [None; Some JNull; Some (JString [])] -> text_kept role content None
| kept_odd json v : role = cs "assistant" -> has_calls content json ->
    cJSON_GetObjectItem json (cs "content") = Some v -> v <> JNull -> (forall words, v <> JString words) ->
    text_kept role content (Some content).

(** The message the next session gets of what was said; results of tools are not kept. *)
Inductive remembered : Said -> option ConversationMessage -> Prop :=
| remembered_tool content id name : remembered (SaidTool content id name) None
| remembered_text role content text : text_kept role content text ->
    remembered (SaidText role content) ((fun t => mkConversationMessage role t None None false) <$> text).

Lemma assistant_keeps content : text_kept (cs "assistant") content (assistant_storage content).2.
Proof.
  unfold assistant_storage. destruct (cJSON_Parse content) as [json|] eqn:Ep.
  2: { apply kept_plain; [done|]. intros json [? _]. congruence. }
  destruct (cJSON_IsArray (cJSON_GetObjectItem json (cs "tool_calls"))) as [calls|] eqn:Ec.
  2: { apply kept_plain; [done|]. intros json' (? & calls & Hc). simplify_eq. by rewrite Hc in Ec. }
  assert (has_calls content json) as Hh.
  { split; [done|]. destruct (cJSON_GetObjectItem json (cs "tool_calls")) as [[]|]; try done. by eexists. }
  cbn [snd]. destruct (cJSON_GetObjectItem json (cs "content")) as [v|] eqn:Ev.
  2: { eapply kept_nothing; [done|exact Hh|]. rewrite Ev. by left. }
  destruct v; cbn [cJSON_IsString]; try (eapply kept_odd; [done|exact Hh|exact Ev|done|done]).
  - eapply kept_nothing; [done|exact Hh|]. rewrite Ev. by right; left.
  - destruct valuestring as [|c w].
    + eapply kept_nothing; [done|exact Hh|]. rewrite Ev. by right; right; left.
    + eapply kept_words; [done|exact Hh|exact Ev|done].
Qed.

Lemma storage_keeps role content :
  text_kept role content
    (if streq role (cs "tool") then (false, None)
     else if streq role (cs "assistant") then assistant_storage content else (false, Some content)).2.
Proof.
  destruct (streq_spec role (cs "tool")); [by apply kept_tool|].
  destruct (streq_spec role (cs "assistant")) as [->|]; [apply assistant_keeps|by apply kept_other].
Qed.

(** A document that holds a stored text. *)
Definition holds (x : StoredText) (d : Document) : Prop :=
  doc_content d = Some (sx_text x) /\ doc_metadata d = Some (sx_metadata x) /\ doc_source d = Some (sx_source x).

Lemma metadata_read role meta :
  metadata_json role = Some meta -> cJSON_Parse meta = Some (JObject [(cs "role", JString role)]).
Proof. intros E. apply print_flat_object in E as [E _]; [done|]. by repeat constructor. Qed.

Lemma holds_message role text meta d :
  metadata_json role = Some meta -> holds (mkStoredText text role meta) d ->
  document_message (Some d) = Some (mkConversationMessage role text None None false).
Proof.
  intros Hm (Hc & Hmeta & Hs). cbn in Hc, Hmeta, Hs. unfold document_message.
  cbn [mbind option_bind]. rewrite Hc, Hmeta. cbn [mbind option_bind].
  rewrite (metadata_read role meta Hm). cbn [mbind option_bind]. by rewrite !get_member.
Qed.

Lemma say_exact has_store history stored s :
  is_Some (metadata_json (said_role s)) ->
  exists m new kept, say has_store (history, stored) s = (history ++ [m], stored ++ new) /\
    cv_role m = said_role s /\ cv_content m = said_content s /\ remembered s kept /\
    (has_store = true -> forall docs, Forall2 holds new docs ->
       omap document_message (Some <$> docs) = option_list kept).
Proof.
  intros [meta Hm]. destruct s as [role content|content id name]; cbn [said_role said_content] in *.
  - unfold say, append_conversation_message, add_message_to_history. pose proof (storage_keeps role content) as Hk.
    destruct (if streq role (cs "tool") then _ else _) as [flag text]. cbn [snd] in Hk.
    rewrite Hm. eexists _, _, _. split; [done|]. split; [done|]. split; [done|]. split; [by apply remembered_text|]. intros -> docs Hd.
    destruct text as [text|].
    + apply Forall2_cons_inv_l in Hd as (d & ? & Hd & Hnil & ->). apply Forall2_nil_inv_l in Hnil as ->.
      cbn [fmap list_fmap omap list_omap]. by rewrite (holds_message role text meta d Hm Hd).
    + by apply Forall2_nil_inv_l in Hd as ->.
  - unfold say, append_tool_message, add_message_to_history. change (streq (cs "tool") (cs "tool")) with true. cbv iota.
    eexists _, _, None. split; [done|]. split; [done|]. split; [done|]. split; [constructor|]. intros _ docs Hd. by apply Forall2_nil_inv_l in Hd as ->.
Qed.
End Remember.

Lemma say_all_exact {J : CJson} {JS : CJsonSpec J} has_store said history :
  Forall (fun s => is_Some (metadata_json (said_role s))) said ->
  exists ms new kept, say_all has_store said history = (history ++ ms, new) /\
    cv_role <$> ms = said_role <$> said /\ cv_content <$> ms = said_content <$> said /\ Forall2 remembered said kept /\
    (has_store = true -> forall docs, Forall2 holds new docs ->
       omap document_message (Some <$> docs) = omap id kept).
Proof.
  unfold say_all. induction said as [|s said IH] using rev_ind; intros Hr.
  - exists [], [], []. rewrite app_nil_r. split; [done|]. split; [done|]. split; [done|]. split; [constructor|]. intros _ docs Hd.
    by apply Forall2_nil_inv_l in Hd as ->.
  - apply Forall_app in Hr as [Hr [Hs _]%Forall_cons_1]. destruct (IH Hr) as (ms & new & kept & E & E1 & E2 & Ek & E3).
    rewrite fold_left_app, E. cbn [fold_left].
    destruct (say_exact has_store (history ++ ms) new s Hs) as (m & new' & k & F & F1 & F2 & Fk & F3).
    exists (ms ++ [m]), (new ++ new'), (kept ++ [k]). split; [rewrite app_assoc; exact F|]. rewrite !fmap_app, E1, E2. cbn. rewrite F1, F2.
    split; [done|]. split; [done|]. split; [apply Forall2_app; [done|by repeat constructor]|].
    intros Hst docs Hd. apply Forall2_app_inv_l in Hd as (d1 & d2 & H1 & H2 & ->).
    rewrite fmap_app, !omap_app, (E3 Hst d1 H1), (F3 Hst d2 H2). by destruct k.
Qed.


(** A session with one tool call. *)
Definition call_json (content : string) : cstr :=
  ref_print (JObject [(cs "role", JString (cs "assistant")); (cs "content", JString (cs content)); (cs "tool_calls", JArray [])]).

Definition sample_said : list Said :=
  [SaidText (cs "user") (cs "ls?"); SaidText (cs "assistant") (call_json "I look"); SaidTool (cs "a.c") (cs "t1") (cs "shell");
   SaidText (cs "assistant") (call_json ""); SaidTool (cs "b.c") (cs "t2") (cs "shell"); SaidText (cs "assistant") (cs "two files")].

Definition sample_stored : list Document :=
  imap (fun i x => mkDocument (Z.of_nat i) (Some (sx_text x)) (Some (sx_metadata x)) (Some (sx_source x)) 7)
    (say_all true sample_said []).2.

