(* ===== verification/TokenManager.v ===== *)
(** * The token budget (lib/session/token_manager.c)

    How the prompt's size is estimated, what is left for the answer, and how the
    conversation is trimmed. The floating-point arithmetic is that of the binary32
    and binary64 formats, on the specification of the Standard Library, with
    every operation in the format of its operands. *)

From Stdlib Require Import SpecFloat.
From S2P Require Import Prelude CString Json Conversation.
Local Open Scope bool_scope.
Local Open Scope Z_scope.

(** ** Floating point *)

Definition f32_of_Z (z : Z) : spec_float := binary_normalize 24 128 z 0 false.
Definition f64_of_Z (z : Z) : spec_float := binary_normalize 53 1024 z 0 false.
Definition f32_mul : spec_float -> spec_float -> spec_float := SFmul 24 128.
Definition f32_div : spec_float -> spec_float -> spec_float := SFdiv 24 128.
Definition f64_mul : spec_float -> spec_float -> spec_float := SFmul 53 1024.
Definition f64_div : spec_float -> spec_float -> spec_float := SFdiv 53 1024.

(** A literal n/d: the quotient is rounded to the nearest, as the literal is. *)
Definition f32_lit (n d : Z) : spec_float := f32_div (f32_of_Z n) (f32_of_Z d).
Definition f64_lit (n d : Z) : spec_float := f64_div (f64_of_Z n) (f64_of_Z d).

(** [(int)ceil(x)] and [(int)x]; the conversion of an infinity or of NaN is
    undefined in C and does not occur. *)
Definition signed (s : bool) (m : positive) : Z := if s then Zneg m else Zpos m.

Definition ceil_int (x : spec_float) : Z :=
  match x with
  | S754_finite s m e => if 0 <=? e then signed s m * 2 ^ e else - (- signed s m / 2 ^ (- e))
  | _ => 0
  end.

Definition trunc_int (x : spec_float) : Z :=
  match x with
  | S754_finite s m e => if 0 <=? e then signed s m * 2 ^ e else Z.quot (signed s m) (2 ^ (- e))
  | _ => 0
  end.

(** ** Configuration *)

Definition DEFAULT_MIN_RESPONSE_TOKENS : Z := 150.
Definition DEFAULT_SAFETY_BUFFER_BASE : Z := 50.
Definition DEFAULT_SAFETY_BUFFER_RATIO : spec_float := f32_lit 2 100.
Definition DEFAULT_CHARS_PER_TOKEN : spec_float := f32_lit 55 10.
Definition TOKEN_OVERHEAD_PER_MESSAGE : Z := 10.
Definition TOKEN_OVERHEAD_PER_TOOL : Z := 50.
Definition TOKEN_OVERHEAD_JSON_STRUCTURE : Z := 50.

Record TokenConfig := mkTokenConfig {
  context_window : Z;
  min_response_tokens : Z;
  safety_buffer_base : Z;
  safety_buffer_ratio : spec_float;
  chars_per_token : spec_float
}.

Record TokenUsage := mkTokenUsage {
  total_prompt_tokens : Z;
  available_response_tokens : Z;
  safety_buffer_used : Z;
  context_window_used : Z
}.

Definition token_config_init (window : Z) : TokenConfig :=
  mkTokenConfig (if 0 <? window then window else 8192) DEFAULT_MIN_RESPONSE_TOKENS DEFAULT_SAFETY_BUFFER_BASE
    DEFAULT_SAFETY_BUFFER_RATIO DEFAULT_CHARS_PER_TOKEN.

(** ** Estimation *)

Definition quoted (s : string) : cstr := JQ :: cs s ++ [JQ].

Definition looks_like_code (text : cstr) : bool :=
  contains text (cs "```") || contains text (cs "function ") || contains text (cs "#include")
  || contains text (cs "def ").

Definition looks_like_json (text : cstr) : bool :=
  Ascii.eqb (peek text) "{" || contains text (quoted "role" ++ [":"%char]).

Definition estimate_token_count (text : cstr) (config : TokenConfig) : Z :=
  let char_count := wrap32 (Z.of_nat (length text)) in
  let per_token := chars_per_token config in
  let per_token := if looks_like_code text then f32_mul per_token (f32_lit 12 10) else per_token in
  let per_token := if looks_like_json text then f32_mul per_token (f32_lit 13 10) else per_token in
  let estimated_tokens := ceil_int (f32_div (f32_of_Z char_count) per_token) in
  let estimated_tokens := if contains text (quoted "tools") then estimated_tokens + 50 else estimated_tokens in
  if contains text (quoted "system") then estimated_tokens + 10 else estimated_tokens.

(** A NULL text counts nothing. *)
Definition estimate_opt (text : option cstr) (config : TokenConfig) : Z :=
  match text with Some t => estimate_token_count t config | None => 0 end.

Definition get_dynamic_safety_buffer (config : TokenConfig) (estimated_prompt_tokens : Z) : Z :=
  let buffer := safety_buffer_base config in
  let ratio_buffer := trunc_int (f32_mul (f32_of_Z (context_window config)) (safety_buffer_ratio config)) in
  let buffer := buffer + ratio_buffer in
  let buffer :=
    if SFltb (f64_mul (f64_of_Z (context_window config)) (f64_lit 7 10)) (f64_of_Z estimated_prompt_tokens)
    then buffer + 50 else buffer in
  if buffer <? safety_buffer_base config then safety_buffer_base config else buffer.

Definition validate_token_config (config : TokenConfig) : Z :=
  if context_window config <=? 0 then -1
  else if (min_response_tokens config <=? 0) || (context_window config <=? min_response_tokens config) then -1
  else if SFleb (chars_per_token config) (f32_of_Z 0) then -1
  else 0.

(** ** Trimming *)

Definition message_tokens (config : TokenConfig) (m : ConversationMessage) : Z :=
  estimate_token_count (cv_content m) config + TOKEN_OVERHEAD_PER_MESSAGE.

Definition history_tokens (config : TokenConfig) (conversation : ConversationHistory) : Z :=
  foldr (fun m n => message_tokens config m + n) 0 conversation.

(** The scan [for (i = 0; i < limit; i++)] for a message that is not a tool's.
    The limit [count - 2] is a size_t: with one message it is the largest one,
    and the scan goes past the end of the array. *)
Inductive Scan := Found (i : nat) | NotFound | OutOfBounds.

Fixpoint scan_non_tool (limit : Z) (i : nat) (msgs : ConversationHistory) : Scan :=
  if Z.of_nat i <? limit then
    match msgs with
    | [] => OutOfBounds
    | m :: msgs' => if is_tool m then scan_non_tool limit (S i) msgs' else Found i
    end
  else NotFound.

Definition size_minus (count k : Z) : Z := (count - k) mod 2 ^ 64.

Inductive Removal := Remove (i : nat) | Stop | BadRead.

Definition remove_index (conversation : ConversationHistory) : Removal :=
  let count := Z.of_nat (length conversation) in
  match scan_non_tool (size_minus count 2) 0 conversation with
  | OutOfBounds => BadRead
  | Found i => Remove i
  | NotFound => if 1 <? count then Remove 0 else Stop
  end.

(** The loop, with the length of the conversation as fuel: every round removes
    a message. [None]: a read out of bounds. *)
Fixpoint trim_loop (config : TokenConfig) (max_prompt_tokens : Z) (fuel : nat) (current_tokens trimmed_count : Z)
    (conversation : ConversationHistory) : option (ConversationHistory * Z) :=
  match fuel with
  | O => Some (conversation, trimmed_count)
  | S fuel' =>
      if (max_prompt_tokens <? current_tokens) && (0 <? Z.of_nat (length conversation)) then
        match remove_index conversation with
        | BadRead => None
        | Stop => Some (conversation, trimmed_count)
        | Remove i =>
            let removed_tokens := match conversation !! i with Some m => message_tokens config m | None => 0 end in
            trim_loop config max_prompt_tokens fuel' (current_tokens - removed_tokens) (trimmed_count + 1)
              (delete i conversation)
        end
      else Some (conversation, trimmed_count)
  end.

Definition trim_conversation_for_tokens (conversation : ConversationHistory) (config : TokenConfig)
    (max_prompt_tokens : Z) (system_prompt : option cstr) : option (ConversationHistory * Z) :=
  trim_loop config max_prompt_tokens (length conversation)
    (estimate_opt system_prompt config + history_tokens config conversation) 0 conversation.

(** ** Allocation *)

Definition calculate_token_allocation (system_prompt : option cstr) (conversation : ConversationHistory)
    (tool_count : Z) (user_message : option cstr) (config : TokenConfig) : Z * TokenUsage :=
  if negb (validate_token_config config =? 0) then (-1, mkTokenUsage 0 0 0 0)
  else
    let system_tokens := estimate_opt system_prompt config in
    let user_tokens := estimate_opt user_message config in
    let tool_tokens := if 0 <? tool_count then tool_count * TOKEN_OVERHEAD_PER_TOOL else 0 in
    let total := system_tokens + user_tokens + history_tokens config conversation + tool_tokens
                 + TOKEN_OVERHEAD_JSON_STRUCTURE in
    let safety_buffer := get_dynamic_safety_buffer config total in
    (0, mkTokenUsage total (context_window config - total - safety_buffer) safety_buffer (context_window config)).
