(* ===== verification/TokenFacts.v ===== *)
(** * The token budget: theorems

    What trimming removes and keeps, when it reads past the end of the
    conversation, and that tool results outlive the calls they answer. *)

From Stdlib Require Import SpecFloat.
From S2P Require Import Prelude CString Json Conversation TokenManager.
Local Open Scope bool_scope.
Local Open Scope Z_scope.

(** ** Estimates are not negative *)

Definition positive_sign (x : spec_float) : Prop :=
  match x with S754_finite true _ _ | S754_zero true | S754_infinity true => False | _ => True end.

Lemma round_sign prec emax s m e l :
  match binary_round_aux prec emax s m e l with
  | S754_finite s' _ _ | S754_zero s' | S754_infinity s' => s' = s
  | S754_nan => True
  end.
Proof.
  unfold binary_round_aux. destruct (shr_fexp _ _ _ _ _) as [r e1]. destruct (shr_fexp _ _ _ _ _) as [r2 e2].
  destruct (shr_m r2); [done| |done]. by destruct (_ <=? _).
Qed.

Lemma round_positive prec emax m e l : positive_sign (binary_round_aux prec emax false m e l).
Proof. pose proof (round_sign prec emax false m e l) as H. by destruct (binary_round_aux _ _ _ _ _ _) as [[]|[]| |[]]. Qed.

Lemma f32_of_Z_positive z : 0 <= z -> positive_sign (f32_of_Z z).
Proof.
  intros H. unfold f32_of_Z, binary_normalize, binary_round. destruct z; [done| |lia].
  destruct (shl_align _ _ _) as [m e]. apply round_positive.
Qed.

Lemma f32_div_positive x y : positive_sign x -> positive_sign y -> positive_sign (f32_div x y).
Proof.
  unfold f32_div, SFdiv. intros Hx Hy. destruct x as [[]|[]| |[] m e], y as [[]|[]| |[] m' e']; try done.
  destruct (SFdiv_core_binary _ _ _ _ _ _) as [[q e1] l]. apply round_positive.
Qed.

Lemma f32_mul_positive x y : positive_sign x -> positive_sign y -> positive_sign (f32_mul x y).
Proof.
  unfold f32_mul, SFmul. intros Hx Hy. destruct x as [[]|[]| |[] m e], y as [[]|[]| |[] m' e']; try done.
  apply round_positive.
Qed.

Lemma ceil_int_nonneg x : positive_sign x -> 0 <= ceil_int x.
Proof.
  unfold ceil_int, signed. destruct x as [[]|[]| |[] m e]; try done. intros _. destruct (0 <=? e) eqn:E; [lia|].
  apply Z.leb_gt in E. assert (0 < 2 ^ (- e)) by (apply Z.pow_pos_nonneg; lia).
  assert (- Z.pos m / 2 ^ (- e) <= 0) by (apply Z.div_le_upper_bound; lia). lia.
Qed.

(** A text whose length an int holds. *)
Definition int_sized (t : cstr) : Prop := Z.of_nat (length t) < 2 ^ 31.

Lemma estimate_nonneg w t : int_sized t -> 0 <= estimate_token_count t (token_config_init w).
Proof.
  intros Ht. unfold estimate_token_count, int_sized in *. cbn [chars_per_token token_config_init].
  set (per := if looks_like_json t then _ else _).
  assert (positive_sign per) as Hp.
  { unfold per. destruct (looks_like_json t), (looks_like_code t); vm_compute; done. }
  assert (0 <= ceil_int (f32_div (f32_of_Z (wrap32 (Z.of_nat (length t)))) per)).
  { apply ceil_int_nonneg, f32_div_positive; [|done]. apply f32_of_Z_positive. rewrite wrap32_small by lia. lia. }
  repeat case_match; lia.
Qed.

Lemma message_tokens_pos w m : int_sized (cv_content m) -> 10 <= message_tokens (token_config_init w) m.
Proof. intros H. unfold message_tokens, TOKEN_OVERHEAD_PER_MESSAGE. pose proof (estimate_nonneg w _ H). lia. Qed.

Definition sized (l : ConversationHistory) : Prop := Forall (fun m => int_sized (cv_content m)) l.

Lemma history_tokens_app cfg l k : history_tokens cfg (l ++ k) = history_tokens cfg l + history_tokens cfg k.
Proof. induction l as [|m l IH]; [done|]. cbn in *. unfold history_tokens in *. lia. Qed.

Lemma history_tokens_nonneg w l : sized l -> 0 <= history_tokens (token_config_init w) l.
Proof. induction 1 as [|m l Hm _ IH]; [done|]. cbn. pose proof (message_tokens_pos w m Hm). unfold history_tokens in IH. lia. Qed.

Lemma history_tokens_delete cfg l i m :
  l !! i = Some m -> history_tokens cfg (delete i l) = history_tokens cfg l - message_tokens cfg m.
Proof.
  revert i. induction l as [|x l IH]; intros [|i] H; try done.
  - injection H as ->.
    change (history_tokens cfg l = message_tokens cfg m + history_tokens cfg l - message_tokens cfg m). lia.
  - specialize (IH i H). change (message_tokens cfg x + history_tokens cfg (delete i l)
      = message_tokens cfg x + history_tokens cfg l - message_tokens cfg m). lia.
Qed.

(** ** The message removed *)

Fixpoint first_talk (l : ConversationHistory) : option nat :=
  match l with [] => None | m :: l' => if is_tool m then S <$> first_talk l' else Some 0%nat end.

Lemma scan_bounded l : forall d i, (d <= length l)%nat ->
  scan_non_tool (Z.of_nat (i + d)) i l = match first_talk (take d l) with Some j => Found (i + j) | None => NotFound end.
Proof.
  induction l as [|m l IH]; intros d i Hd.
  - cbn in Hd. replace d with 0%nat by lia. cbn. by rewrite Nat.add_0_r, Z.ltb_irrefl.
  - destruct d as [|d]; [by cbn; rewrite Nat.add_0_r, Z.ltb_irrefl|]. cbn [scan_non_tool take first_talk]. cbn in Hd.
    destruct (Z.ltb_spec (Z.of_nat i) (Z.of_nat (i + S d))); [|lia]. destruct (is_tool m).
    + replace (i + S d)%nat with (S i + d)%nat by lia. rewrite IH by lia. destruct (first_talk (take d l)); [|done]. cbn. f_equal. lia.
    + by rewrite Nat.add_0_r.
Qed.

Lemma scan_unbounded limit l : forall i, Z.of_nat (i + length l) < limit ->
  scan_non_tool limit i l = match first_talk l with Some j => Found (i + j) | None => OutOfBounds end.
Proof.
  induction l as [|m l IH]; intros i Hi; cbn [scan_non_tool first_talk length] in *.
  - destruct (Z.ltb_spec (Z.of_nat i) limit); [done|lia].
  - destruct (Z.ltb_spec (Z.of_nat i) limit); [|lia]. destruct (is_tool m); [|by rewrite Nat.add_0_r].
    rewrite IH by lia. destruct (first_talk l); [|done]. cbn. f_equal. lia.
Qed.

Lemma first_talk_Some l j : first_talk l = Some j -> exists m, l !! j = Some m /\ is_tool m = false.
Proof.
  revert j. induction l as [|m l IH]; intros j; [done|]. cbn. destruct (is_tool m) eqn:E.
  - destruct (first_talk l) as [j'|]; [|done]. cbn. intros [= <-]. by apply IH.
  - intros [= <-]. by exists m.
Qed.

(** All but the last two messages, from which the first that is not a tool's is
    taken. *)
Definition front (l : ConversationHistory) : ConversationHistory := take (length l - 2) l.
Definition back (l : ConversationHistory) : ConversationHistory := drop (length l - 2) l.

Lemma remove_index_many l :
  (2 <= length l)%nat -> Z.of_nat (length l) < 2 ^ 64 -> remove_index l = Remove (default 0%nat (first_talk (front l))).
Proof.
  intros H2 Hl. unfold remove_index, size_minus. rewrite Z.mod_small by lia.
  replace (Z.of_nat (length l) - 2) with (Z.of_nat (0 + (length l - 2))) by lia. rewrite scan_bounded by lia. unfold front.
  destruct (first_talk _) as [j|]; [done|]. cbn. destruct (Z.ltb_spec 1 (Z.of_nat (length l))); [done|lia].
Qed.

Lemma remove_index_one m : remove_index [m] = if is_tool m then BadRead else Remove 0.
Proof.
  unfold remove_index. rewrite scan_unbounded by (vm_compute; done). cbn. by destruct (is_tool m).
Qed.

(** With two messages or more, one before the last is removed. *)
Lemma trim_remove_step l :
  (2 <= length l)%nat -> Z.of_nat (length l) < 2 ^ 64 ->
  exists i m, remove_index l = Remove i /\ l !! i = Some m /\ (S i < length l)%nat /\
    (first_talk (front l) <> None -> is_tool m = false).
Proof.
  intros H2 Hl. rewrite remove_index_many by done. destruct (first_talk (front l)) as [j|] eqn:E; cbn [default from_option].
  - apply first_talk_Some in E as (m & Hm & Ht). unfold front in Hm. apply lookup_take_Some in Hm as [Hm Hj].
    exists j, m. unfold id. split; [done|]. split; [done|]. split; [lia|done].
  - destruct l as [|m l]; [cbn in H2; lia|]. exists 0%nat, m. split; [done|]. split; [done|]. split; [lia|done].
Qed.

Lemma few_or_many (l : ConversationHistory) : l = [] \/ (exists x, l = [x]) \/ (2 <= length l)%nat.
Proof. destruct l as [|x [|y l0]]; [by left|right; left; by exists x|right; right; cbn; lia]. Qed.

(** ** The loop *)

(** One round and several. *)
Definition removes (l l' : ConversationHistory) : Prop := exists i, remove_index l = Remove i /\ l' = delete i l.

Inductive after : nat -> ConversationHistory -> ConversationHistory -> Prop :=
| after_none l : after 0 l l
| after_one k l l' l'' : removes l l' -> after k l' l'' -> after (S k) l l''.

Lemma last_delete {A} (l : list A) i : (S i < length l)%nat -> last (delete i l) = last l.
Proof.
  revert i. induction l as [|x l IH]; intros i Hi; [cbn in Hi; lia|]. destruct i as [|i]; cbn in *.
  - destruct l; [cbn in Hi; lia|done].
  - rewrite !last_cons, IH by lia. done.
Qed.

(** The loop removes messages one by one until the rest fits. With the last one
    alone and too large, it removes it, or reads past the end when it is a
    tool's. *)
Lemma trim_loop_exact cfg max fuel : forall l cur t sys,
  fuel = length l -> Z.of_nat (length l) < 2 ^ 64 -> cur = sys + history_tokens cfg l ->
  exists k l', after k l l' /\ (k + length l' = length l)%nat /\
    (forall j m, (j < k)%nat -> after j l m -> max < sys + history_tokens cfg m) /\
    match trim_loop cfg max fuel cur t l with
    | Some (c, n) => c = l' /\ n = t + Z.of_nat k /\ (sys + history_tokens cfg l' <= max \/ l' = [])
    | None => exists x, l' = [x] /\ is_tool x = true /\ max < sys + history_tokens cfg l'
    end.
Proof.
  induction fuel as [|fuel IH]; intros l cur t sys Hf Hl Hcur.
  - destruct l; [|done]. exists 0%nat, []. split; [constructor|]. split; [done|]. split; [lia|]. cbn. split; [done|]. split; [lia|by right].
  - cbn [trim_loop]. destruct (Z.ltb_spec max cur) as [Hgt|Hle].
    2: { exists 0%nat, l. split; [constructor|]. split; [lia|]. split; [lia|]. cbn. split; [done|]. split; [lia|]. left. lia. }
    destruct (Z.ltb_spec 0 (Z.of_nat (length l))); [cbn [andb]|lia].
    assert (forall i m l1, remove_index l = Remove i -> l !! i = Some m -> l1 = delete i l ->
      exists k l', after k l l' /\ (k + length l' = length l)%nat /\
       (forall j m, (j < k)%nat -> after j l m -> max < sys + history_tokens cfg m) /\
       match trim_loop cfg max fuel (cur - message_tokens cfg m) (t + 1) l1 with
       | Some (c, n) => c = l' /\ n = t + Z.of_nat k /\ (sys + history_tokens cfg l' <= max \/ l' = [])
       | None => exists x, l' = [x] /\ is_tool x = true /\ max < sys + history_tokens cfg l'
       end) as Hstep.
    { intros i m l1 Hr Hm ->. pose proof (lookup_lt_Some _ _ _ Hm) as Hi. pose proof (length_delete l i (mk_is_Some _ _ Hm)) as Hlen.
      destruct (IH (delete i l) (cur - message_tokens cfg m) (t + 1) sys) as (k & l' & Ha & Hk & Hb & Ht).
      - lia.
      - lia.
      - rewrite (history_tokens_delete cfg l i m Hm). lia.
      - exists (S k), l'. split; [apply (after_one k l (delete i l)); [by exists i|done]|]. split; [lia|]. split.
        + intros j m' Hj Haj. inversion Haj as [|j' ? l1 ? (i' & Hr' & ->) Haj']; subst; [lia|].
          rewrite Hr in Hr'. injection Hr' as <-. apply (Hb j'); [lia|done].
        + destruct (trim_loop _ _ _ _ _ _) as [[c n]|]; [|done]. destruct Ht as (-> & -> & Ht). split; [done|]. split; [lia|done]. }
    destruct (few_or_many l) as [->|[[x ->]|H2]]; [done| |].
    + rewrite remove_index_one. destruct (is_tool x) eqn:Ex.
      * exists 0%nat, [x]. split; [constructor|]. split; [done|]. split; [lia|]. exists x. split; [done|]. split; [done|]. lia.
      * apply (Hstep 0%nat x); [by rewrite remove_index_one, Ex|done|done].
    + destruct (trim_remove_step l H2 Hl) as (i & m & Hr & Hm & _). rewrite Hr, Hm.
      by apply (Hstep i m).
Qed.

Lemma after_sublist k l l' : after k l l' -> l' `sublist_of` l.
Proof.
  induction 1 as [l|k l l1 l' (i & _ & ->) _ IH]; [done|]. transitivity (delete i l); [done|apply sublist_delete].
Qed.

(** The last message stays as long as there is another one. *)
Lemma after_last k l l' : after k l l' -> Z.of_nat (length l) < 2 ^ 64 -> l' <> [] -> last l' = last l.
Proof.
  induction 1 as [l|k l l1 l' (i & Hr & ->) Ha IH]; [done|]. intros Hl Hne.
  assert (length (delete i l) <= length l)%nat as Hle by apply sublist_length, sublist_delete.
  rewrite IH by (done || lia). clear IH Hle.
  destruct (few_or_many l) as [->|[[x ->]|H2]]; [done| |].
  - rewrite remove_index_one in Hr. destruct (is_tool x); [done|]. injection Hr as <-. cbn in Ha.
    apply after_sublist, sublist_nil_r in Ha. done.
  - destruct (trim_remove_step l H2 Hl) as (j & m & Hr' & _ & Hj & _). rewrite Hr in Hr'. injection Hr' as ->. by apply last_delete.
Qed.

(** The last message removed is not a tool's. *)
Lemma after_nil k l : after k l [] -> Z.of_nat (length l) < 2 ^ 64 -> l <> [] -> exists x, last l = Some x /\ is_tool x = false.
Proof.
  intros Ha. remember [] as e eqn:He. induction Ha as [|k l l1 l' (i & Hr & ->) Ha IH]; [done|]. intros Hl Hne.
  destruct (few_or_many l) as [->|[[x ->]|H2]]; [done| |].
  - rewrite remove_index_one in Hr. destruct (is_tool x) eqn:Ex; [done|]. by exists x.
  - destruct (trim_remove_step l H2 Hl) as (j & m & Hr' & Hm & Hj & _). rewrite Hr in Hr'. injection Hr' as ->.
    rewrite <- (last_delete l j Hj). pose proof (length_delete l j (mk_is_Some _ _ Hm)). apply IH; [done|lia|].
    intros E. rewrite E, He in H. cbn [length] in H. lia.
Qed.

(** The rounds before the last one did not fit. *)
Lemma after_pred k l l' : after (S k) l l' -> exists m, after k l m /\ removes m l'.
Proof.
  revert l. induction k as [|k IH]; intros l Ha; inversion Ha as [|? ? l1 ? Hr Ha']; subst.
  - inversion Ha'; subst. exists l. split; [constructor|done].
  - destruct (IH l1 Ha') as (m & Hm & Hr'). exists m. split; [by apply (after_one k l l1)|done].
Qed.

Lemma last_tokens w l t :
  sized l -> last l = Some t -> message_tokens (token_config_init w) t <= history_tokens (token_config_init w) l.
Proof.
  intros Hs Hl. apply last_Some in Hl as [l0 ->]. apply Forall_app in Hs as [Hs _]. rewrite history_tokens_app.
  pose proof (history_tokens_nonneg w l0 Hs). cbn. lia.
Qed.

Lemma sized_sublist l' l : l' `sublist_of` l -> sized l -> sized l'.
Proof.
  unfold sized. induction 1 as [|x l1 l2 _ IH|x l1 l2 _ IH]; [done|..]; intros [Hx Hl]%Forall_cons_1; [constructor|]; auto.
Qed.

Lemma removes_shorter l l' : removes l l' -> Z.of_nat (length l) < 2 ^ 64 -> length l = S (length l').
Proof.
  intros (i & Hr & ->) Hl. destruct (few_or_many l) as [->|[[x ->]|H2]].
  - done.
  - rewrite remove_index_one in Hr. destruct (is_tool x); [done|]. by injection Hr as <-.
  - destruct (trim_remove_step l H2 Hl) as (j & m & Hr' & Hm & Hj & _). rewrite Hr in Hr'. injection Hr' as ->.
    pose proof (length_delete l j (mk_is_Some _ _ Hm)). lia.
Qed.

(** ** Tool results outlive their calls *)

Fixpoint talk (l : ConversationHistory) : nat :=
  match l with [] => 0%nat | m :: l' => if is_tool m then talk l' else S (talk l') end.

(** The conversation without its first [k] messages that are not a tool's. *)
Fixpoint drop_talk (k : nat) (l : ConversationHistory) : ConversationHistory :=
  match k with
  | O => l
  | S k' =>
      match first_talk l with
      | Some i => drop_talk k' (delete i l)
      | None => l
      end
  end.

Lemma front_app f b : length b = 2%nat -> front (f ++ b) = f.
Proof. intros Hb. unfold front. rewrite length_app, Hb. by rewrite Nat.add_sub, take_app_length. Qed.

Lemma front_back l : (2 <= length l)%nat -> l = front l ++ back l /\ length (back l) = 2%nat.
Proof. intros H. unfold front, back. rewrite take_drop, length_drop. split; [done|lia]. Qed.

Lemma first_talk_lt l i : first_talk l = Some i -> (i < length l)%nat.
Proof. intros (m & Hm & _)%first_talk_Some. by eapply lookup_lt_Some. Qed.

Lemma delete_front (f b : ConversationHistory) i : (i < length f)%nat -> delete i (f ++ b) = delete i f ++ b.
Proof.
  revert i. induction f as [|x f IH]; intros i Hi; [cbn in Hi; lia|]. destruct i as [|i]; [done|]. cbn in *.
  f_equal. apply IH. lia.
Qed.

Lemma talk_delete f i : first_talk f = Some i -> talk f = S (talk (delete i f)).
Proof.
  revert i. induction f as [|m f IH]; intros i; [done|]. cbn. destruct (is_tool m) eqn:E.
  - destruct (first_talk f) as [j|]; [|done]. cbn. intros [= <-]. cbn. rewrite E. by apply IH.
  - by intros [= <-].
Qed.

Lemma talk_first f : (0 < talk f)%nat -> exists i, first_talk f = Some i.
Proof.
  induction f as [|m f IH]; cbn; [lia|]. destruct (is_tool m); [|by exists 0%nat]. intros H.
  destruct (IH H) as [i ->]. by exists (S i).
Qed.

Lemma after_talk k f b l' :
  after k (f ++ b) l' -> length b = 2%nat -> Z.of_nat (length (f ++ b)) < 2 ^ 64 -> (k <= talk f)%nat -> l' = drop_talk k f ++ b.
Proof.
  intros Ha Hb. revert f Ha. induction k as [|k IH]; intros f Ha Hl Hk; inversion Ha as [|? ? l1 ? (i & Hr & ->) Ha']; subst; [done|].
  rewrite remove_index_many in Hr by (done || (rewrite length_app; lia)). rewrite front_app in Hr by done.
  destruct (talk_first f) as [j Hj]; [lia|]. rewrite Hj in Hr. cbn in Hr. injection Hr as <-. unfold id in *.
  pose proof (first_talk_lt f j Hj) as Hlt. rewrite delete_front in Ha' by done. cbn [drop_talk]. rewrite Hj.
  pose proof (talk_delete f j Hj). apply IH; [done| |lia]. rewrite !length_app in *.
  assert (is_Some (f !! j)) as Hs by (by apply lookup_lt_is_Some_2). pose proof (length_delete f j Hs). lia.
Qed.

Lemma first_talk_tools (ts r : ConversationHistory) : Forall (fun m => is_tool m = true) ts -> first_talk (ts ++ r) = (fun j => (length ts + j)%nat) <$> first_talk r.
Proof.
  induction 1 as [|m ts Hm _ IH]; cbn; [by destruct (first_talk r)|]. rewrite Hm, IH. by destruct (first_talk r).
Qed.

Lemma delete_tools (ts r : ConversationHistory) j : delete (length ts + j)%nat (ts ++ r) = ts ++ delete j r.
Proof. induction ts as [|m ts IH]; [done|]. cbn. f_equal. exact IH. Qed.

(** Tool results at the head stay there. *)
Lemma drop_talk_tools k ts r : Forall (fun m => is_tool m = true) ts -> exists r', drop_talk k (ts ++ r) = ts ++ r'.
Proof.
  intros Ht. revert r. induction k as [|k IH]; intros r; [by exists r|]. cbn [drop_talk]. rewrite first_talk_tools by done.
  destruct (first_talk r) as [j|]; cbn; [|by exists r]. rewrite delete_tools. apply IH.
Qed.

Lemma drop_talk_past pre k r :
  Forall (fun m => is_tool m = false) pre -> (length pre <= k)%nat -> drop_talk k (pre ++ r) = drop_talk (k - length pre) r.
Proof.
  intros Hp. revert k. induction Hp as [|m pre Hm _ IH]; intros k Hk; cbn [length app] in *; [by rewrite Nat.sub_0_r|].
  destruct k as [|k]; [lia|]. cbn [drop_talk first_talk]. rewrite Hm. cbn. apply IH. lia.
Qed.

(** ** Properties *)

(** A last message that is a tool's and does not fit alone: the scan leaves the
    array. *)
Lemma trim_leaves_array (w max : Z) (prompt : option cstr) (conv : ConversationHistory) t :
  sized conv -> Z.of_nat (length conv) < 2 ^ 64 ->
  last conv = Some t -> is_tool t = true -> max < estimate_opt prompt (token_config_init w) + message_tokens (token_config_init w) t ->
  trim_conversation_for_tokens conv (token_config_init w) max prompt = None.
Proof.
  intros Hs Hl Ht1 Ht2 Ht3. unfold trim_conversation_for_tokens. set (sys := estimate_opt prompt (token_config_init w)) in *.
  set (cfg := token_config_init w) in *.
  destruct (trim_loop_exact cfg max (length conv) conv (sys + history_tokens cfg conv) 0 sys eq_refl Hl eq_refl)
    as (k & l' & Ha & Hk & Hb & Ht).
  pose proof (after_last k conv l' Ha Hl) as Hlast. pose proof (after_sublist k conv l' Ha) as Hsub.
  destruct (trim_loop _ _ _ _ _ _) as [[c n]|]; [exfalso|done]. destruct Ht as (-> & _ & Ht). destruct l' as [|y l'].
  - destruct (after_nil k conv Ha Hl) as (x & Hx & Hxt); [by intros ->|]. congruence.
  - destruct Ht as [Ht|]; [|done]. rewrite <- Hlast in Ht1 by done.
    assert (sized (y :: l')) as Hs' by (by apply (sized_sublist _ conv)).
    pose proof (last_tokens w _ t Hs' Ht1) as Hle. fold cfg in Hle. lia.
Qed.

(** *** The order of removal

    The oldest message that is not a tool's goes first, as long as it is not
    one of the last two; when all the others are tools' the oldest of them goes;
    a message that is alone goes unless it is a tool's. *)
Inductive drop_one : ConversationHistory -> ConversationHistory -> Prop :=
| drop_oldest_talk tools m rest : Forall (fun t => is_tool t = true) tools -> is_tool m = false -> (2 <= length rest)%nat ->
    drop_one (tools ++ m :: rest) (tools ++ rest)
| drop_oldest_tool m rest : rest <> [] -> Forall (fun t => is_tool t = true) (take (length rest - 1) (m :: rest)) ->
    drop_one (m :: rest) rest
| drop_alone m : is_tool m = false -> drop_one [m] [].

(** After [k] removals. *)
Inductive dropped : nat -> ConversationHistory -> ConversationHistory -> Prop :=
| dropped_none l : dropped 0 l l
| dropped_more k l l' l'' : drop_one l l' -> dropped k l' l'' -> dropped (S k) l l''.

Lemma first_talk_None l : first_talk l = None <-> Forall (fun t => is_tool t = true) l.
Proof.
  induction l as [|m l IH]; cbn; [split; [constructor|done]|]. destruct (is_tool m) eqn:E.
  - rewrite fmap_None, IH. split; [by constructor|by intros [_ ?]%Forall_cons_1].
  - split; [done|]. intros [H _]%Forall_cons_1. congruence.
Qed.

Lemma first_talk_split l i :
  first_talk l = Some i -> exists tools m rest, l = tools ++ m :: rest /\ length tools = i /\
    Forall (fun t => is_tool t = true) tools /\ is_tool m = false.
Proof.
  revert i. induction l as [|m l IH]; intros i; cbn; [done|]. destruct (is_tool m) eqn:E.
  - destruct (first_talk l) as [j|]; [|done]. cbn. intros [= <-]. destruct (IH j eq_refl) as (ts & x & r & -> & <- & Ht & Hx).
    exists (m :: ts), x, r. split; [done|]. split; [done|]. split; [by constructor|done].
  - intros [= <-]. by exists [], m, l.
Qed.

Lemma removes_drop l l' : Z.of_nat (length l) < 2 ^ 64 -> removes l l' <-> drop_one l l'.
Proof.
  intros Hl. split.
  - intros (i & Hr & ->). destruct (few_or_many l) as [->|[[x ->]|H2]]; [done| |].
    + rewrite remove_index_one in Hr. destruct (is_tool x) eqn:E; [done|]. injection Hr as <-. by apply drop_alone.
    + rewrite remove_index_many in Hr by done. injection Hr as <-. destruct (front_back l H2) as [E Hb].
      destruct (first_talk (front l)) as [j|] eqn:Ej; cbn [default from_option].
      * apply first_talk_split in Ej as (ts & m & r & Ef & <- & Ht & Hm). rewrite E, Ef, <- app_assoc. cbn [app].
        unfold id. rewrite delete_middle. apply drop_oldest_talk; [done|done|]. rewrite length_app. lia.
      * apply first_talk_None in Ej. destruct l as [|m [|y rest]]; [cbn in H2; lia..|]. cbn [delete list_delete].
        apply drop_oldest_tool; [done|]. unfold front in Ej. cbn [length] in *. by replace (S (length rest) - 1)%nat with (S (S (length rest)) - 2)%nat by lia.
  - intros Hd. destruct Hd as [tools m rest Ht Hm Hr|m rest Hne Ht|m Hm].
    + exists (length tools). rewrite remove_index_many by (done || (rewrite length_app; cbn [length]; lia)). split.
      * unfold front. rewrite length_app. cbn [length].
        replace (length tools + S (length rest) - 2)%nat with (length tools + S (length rest - 2))%nat by lia.
        rewrite take_app_add. cbn [take]. rewrite first_talk_tools by done. cbn [first_talk]. rewrite Hm. cbn. f_equal. lia.
      * by rewrite delete_middle.
    + exists 0%nat. destruct rest as [|y rest]; [done|]. rewrite remove_index_many by (done || (cbn [length]; lia)).
      split; [|done]. unfold front. cbn [length] in *.
      replace (S (S (length rest)) - 2)%nat with (S (length rest) - 1)%nat by lia. by rewrite (proj2 (first_talk_None _) Ht).
    + exists 0%nat. by rewrite remove_index_one, Hm.
Qed.

Lemma after_dropped k l l' : Z.of_nat (length l) < 2 ^ 64 -> after k l l' <-> dropped k l l'.
Proof.
  intros Hl. split.
  - intros Ha. induction Ha as [l|k l l1 l' Hr Ha IH]; [constructor|]. pose proof (removes_shorter l l1 Hr Hl).
    apply (dropped_more k l l1); [by apply removes_drop|apply IH; lia].
  - intros Hd. induction Hd as [l|k l l1 l' Hr Hd IH]; [constructor|]. apply removes_drop in Hr; [|done].
    pose proof (removes_shorter l l1 Hr Hl). apply (after_one k l l1); [done|apply IH; lia].
Qed.

(** [c] is what [k] removals leave, and the first such that fits, or nothing. *)
Definition trimmed_to (fits : ConversationHistory -> Prop) (conv : ConversationHistory) (k : nat) (c : ConversationHistory) : Prop :=
  dropped k conv c /\ (fits c \/ c = []) /\ forall j m, (j < k)%nat -> dropped j conv m -> ~ fits m.

Lemma trim_cases (w max : Z) (prompt : option cstr) (conv : ConversationHistory) :
  Z.of_nat (length conv) < 2 ^ 64 ->
  let cfg := token_config_init w in
  let sys := estimate_opt prompt cfg in
  match trim_conversation_for_tokens conv cfg max prompt with
  | Some (c, n) => exists k, n = Z.of_nat k /\ (k + length c = length conv)%nat /\
      trimmed_to (fun c => sys + history_tokens cfg c <= max) conv k c /\
      c `sublist_of` conv /\ (c <> [] -> last c = last conv)
  | None => exists t, last conv = Some t /\ is_tool t = true /\ max < sys + message_tokens cfg t
  end.
Proof.
  intros Hl cfg sys. unfold trim_conversation_for_tokens. fold sys.
  destruct (trim_loop_exact cfg max (length conv) conv (sys + history_tokens cfg conv) 0 sys eq_refl Hl eq_refl)
    as (k & l' & Ha & Hk & Hb & Ht).
  pose proof (after_last k conv l' Ha Hl) as Hlast. pose proof (after_sublist k conv l' Ha) as Hsub.
  destruct (trim_loop _ _ _ _ _ _) as [[c n]|].
  - destruct Ht as (-> & -> & Ht). exists k. split; [done|]. split; [done|]. split; [|done].
    split; [by apply after_dropped|]. split; [done|]. intros j m Hj Hm. apply after_dropped in Hm; [|done].
    specialize (Hb j m Hj Hm). lia.
  - destruct Ht as (x & -> & Hx & Hbig). exists x. rewrite <- Hlast by done. split; [done|]. split; [done|]. cbn in Hbig. lia.
Qed.

(** C18: Trimming removes messages one by one, the oldest that is not a tool's
    first, until the rest fits, and not one more: what is left is the first of the
    successive rests that fits, or nothing. It is part of the conversation in its
    order, with the last message unless it is empty, and the answer is the number
    of removals. The scan reads past the end of the array exactly when the last
    message is a tool's that does not fit alone beside the system prompt. *)
Theorem trim_exact (w max : Z) (prompt : option cstr) (conv : ConversationHistory) :
  sized conv -> Z.of_nat (length conv) < 2 ^ 64 ->
  let cfg := token_config_init w in
  let sys := estimate_opt prompt cfg in
  match trim_conversation_for_tokens conv cfg max prompt with
  | Some (c, n) =>
      exists k, n = Z.of_nat k /\ (k + length c = length conv)%nat /\
        trimmed_to (fun c => sys + history_tokens cfg c <= max) conv k c /\
        c `sublist_of` conv /\ (c <> [] -> last c = last conv)
  | None => True
  end /\
  (trim_conversation_for_tokens conv cfg max prompt = None <->
   exists t, last conv = Some t /\ is_tool t = true /\ max < sys + message_tokens cfg t).
Proof.
  intros Hs Hl cfg sys. pose proof (trim_cases w max prompt conv Hl) as H. cbn zeta in H. fold cfg sys in H.
  destruct (trim_conversation_for_tokens conv cfg max prompt) as [[c n]|] eqn:E; (split; [done|]).
  - split; [done|]. intros (t & Ht1 & Ht2 & Ht3).
    pose proof (trim_leaves_array w max prompt conv t Hs Hl Ht1 Ht2 Ht3) as E'. fold cfg in E'. congruence.
  - by split.
Qed.

Definition text_message (role content : string) : ConversationMessage :=
  mkConversationMessage (cs role) (cs content) None None false.

(** A conversation that ends with a tool result of 600 characters, with 100
    tokens allowed: the scan for the next message leaves the array. *)
Definition big_result : ConversationHistory :=
  [text_message "user" "read it"; text_message "assistant" "reading";
   mkConversationMessage (cs "tool") (repeat "x"%char 600) (Some (cs "t1")) (Some (cs "read_file")) false].

Lemma trim_exact_witness :
  trim_conversation_for_tokens big_result (token_config_init 143) 100 None = None /\
  (exists t, last big_result = Some t /\ is_tool t = true /\ 100 < estimate_opt None (token_config_init 143) + message_tokens (token_config_init 143) t).
Proof.
  assert (sized big_result) as Hs by (repeat constructor; vm_compute; done).
  assert (Z.of_nat (length big_result) < 2 ^ 64) as Hl by (vm_compute; done).
  destruct (trim_exact 143 100 None big_result Hs Hl) as [_ H].
  assert (trim_conversation_for_tokens big_result (token_config_init 143) 100 None = None) as E by (vm_compute; reflexivity).
  split; [exact E|]. apply H. exact E.
Defined.

(** When trimming removes the message with the calls, and as many messages as it
    can without touching the last two, the results of the calls stay: the
    conversation sent next begins with tool results whose calls are gone. *)
Theorem results_outlive_calls (cfg : TokenConfig) (max : Z) (prompt : option cstr)
    (pre : ConversationHistory) (call : ConversationMessage) (results rest latest : ConversationHistory)
    (c : ConversationHistory) (n : Z) :
  let conv := pre ++ call :: results ++ rest ++ latest in
  Forall (fun m => is_tool m = false) (pre ++ [call]) -> Forall (fun m => is_tool m = true) results ->
  length latest = 2%nat -> Z.of_nat (length conv) < 2 ^ 64 ->
  trim_conversation_for_tokens conv cfg max prompt = Some (c, n) ->
  Z.of_nat (length pre) < n <= Z.of_nat (length pre) + 1 + Z.of_nat (talk rest) ->
  exists c', c = results ++ c'.
Proof.
  intros conv Hp Hr Hlt Hl E Hn. unfold trim_conversation_for_tokens in E.
  destruct (trim_loop_exact cfg max (length conv) conv _ 0 (estimate_opt prompt cfg) eq_refl Hl eq_refl)
    as (k & l' & Ha & Hk & _ & Ht).
  rewrite E in Ht. destruct Ht as (-> & -> & _).
  assert (conv = ((pre ++ [call]) ++ results ++ rest) ++ latest) as Ec by (unfold conv; by rewrite <- !app_assoc).
  rewrite Ec in Ha, Hl. apply after_talk in Ha; [|done|done|].
  2: { assert (talk ((pre ++ [call]) ++ results ++ rest) = (length (pre ++ [call]) + talk rest)%nat) as ->.
       { clear -Hp Hr. induction Hp as [|m p Hm _ IH]; cbn; [|by rewrite Hm, IH].
         induction Hr as [|m r Hm _ IH]; cbn; [done|by rewrite Hm]. }
       rewrite length_app. cbn. lia. }
  rewrite drop_talk_past in Ha by (done || (rewrite length_app; cbn; lia)).
  destruct (drop_talk_tools (k - length (pre ++ [call])) results rest Hr) as [r' Er]. rewrite Er in Ha.
  exists (r' ++ latest). by rewrite Ha, <- app_assoc.
Qed.

Definition tool_result (id : string) : ConversationMessage :=
  mkConversationMessage (cs "tool") (cs "done") (Some (cs id)) (Some (cs "shell")) false.

Lemma results_outlive_calls_witness :
  let conv := [text_message "user" "go"] ++ text_message "assistant" "calls t1" ::
    [tool_result "t1"] ++ [text_message "assistant" "ok"] ++ [text_message "user" "next"; text_message "assistant" "yes"] in
  trim_conversation_for_tokens conv (token_config_init 8192) 50 None =
    Some ([tool_result "t1"; text_message "assistant" "ok"; text_message "user" "next"; text_message "assistant" "yes"], 2) /\
  exists c', [tool_result "t1"; text_message "assistant" "ok"; text_message "user" "next"; text_message "assistant" "yes"]
    = [tool_result "t1"] ++ c'.
Proof.
  cbn zeta.
  assert (trim_conversation_for_tokens ([text_message "user" "go"] ++ text_message "assistant" "calls t1" ::
    [tool_result "t1"] ++ [text_message "assistant" "ok"] ++ [text_message "user" "next"; text_message "assistant" "yes"])
    (token_config_init 8192) 50 None =
    Some ([tool_result "t1"; text_message "assistant" "ok"; text_message "user" "next"; text_message "assistant" "yes"], 2)) as E
    by (vm_compute; reflexivity).
  split; [exact E|].
  apply (results_outlive_calls (token_config_init 8192) 50 None [text_message "user" "go"] (text_message "assistant" "calls t1")
    [tool_result "t1"] [text_message "assistant" "ok"] [text_message "user" "next"; text_message "assistant" "yes"] _ 2).
  - repeat constructor.
  - repeat constructor.
  - reflexivity.
  - vm_compute. reflexivity.
  - exact E.
  - vm_compute. split; [reflexivity|discriminate].
Defined.
