(* ===== verification/Compactor.v ===== *)
(** * Compaction (lib/session/conversation_compactor.c, rolling_summary.c) and
    the token budget of a session (manage_conversation_tokens of
    lib/agent/session.c)

    Sending a request to the model is a parameter. [None] stands for a read out
    of bounds in the trimming. *)

From Stdlib Require Import SpecFloat.
From S2P Require Import Prelude CString Json Providers Conversation TokenManager.
Local Open Scope bool_scope.
Local Open Scope Z_scope.

(** ** Data *)

Record RollingSummary := mkRollingSummary {
  summary_text : option cstr;
  estimated_tokens : Z;
  messages_summarized : Z
}.

Record SessionConfig := mkSessionConfig {
  api_url : option cstr;
  model : option cstr;
  api_key : option cstr;
  system_prompt : option cstr;
  config_context_window : Z;
  api_type : Z
}.

Record SessionData := mkSessionData {
  config : SessionConfig;
  conversation : ConversationHistory;
  tool_count : Z;
  rolling_summary : RollingSummary
}.

Definition with_conversation (c : ConversationHistory) (s : SessionData) : SessionData :=
  mkSessionData (config s) c (tool_count s) (rolling_summary s).
Definition with_tool_count (n : Z) (s : SessionData) : SessionData :=
  mkSessionData (config s) (conversation s) n (rolling_summary s).
Definition with_summary (r : RollingSummary) (s : SessionData) : SessionData :=
  mkSessionData (config s) (conversation s) (tool_count s) r.

Record CompactionConfig := mkCompactionConfig {
  preserve_recent_messages : Z;
  background_threshold : Z
}.

Record CompactionResult := mkCompactionResult {
  messages_trimmed : Z;
  messages_after_trimming : Z;
  tokens_saved : Z
}.

Definition no_result : CompactionResult := mkCompactionResult 0 0 0.

Definition COMPACT_SUCCESS_NO_WORK : Z := 0.
Definition COMPACT_SUCCESS_TRIMMED : Z := 1.
Definition DEFAULT_PRESERVE_RECENT_MESSAGES : Z := 10.
Definition ESTIMATED_TOKENS_PER_MESSAGE : Z := 50.
Definition MIN_MESSAGES_FOR_SUMMARY : Z := 3.
Definition COMPACTION_TRIGGER_THRESHOLD : spec_float := f32_lit 75 100.
Definition COMPACTION_TARGET_THRESHOLD : spec_float := f32_lit 35 100.
Definition CONTEXT_FULL_THRESHOLD : spec_float := f32_lit 92 100.
Definition SESSION_CONTEXT_FULL : Z := -3.

(** [(int)(window * fraction)] in single precision. *)
Definition window_fraction (window : Z) (fraction : spec_float) : Z := trunc_int (f32_mul (f32_of_Z window) fraction).

Definition compaction_config_init : CompactionConfig :=
  mkCompactionConfig DEFAULT_PRESERVE_RECENT_MESSAGES (window_fraction 8192 COMPACTION_TRIGGER_THRESHOLD).

(** ** The rolling summary *)

Definition SUMMARY_INITIAL_BUFFER_SIZE : Z := 8192.
Definition SUMMARY_MAX_RESPONSE_TOKENS : Z := 500.
Definition max_content_length : nat := 800.

Definition NL : ascii := "010".

Definition summary_buffer_size (messages : list ConversationMessage) : Z :=
  foldr (fun m n => Z.of_nat (length (cv_content m)) + 64 + n) SUMMARY_INITIAL_BUFFER_SIZE messages.

Definition truncated_content (content : cstr) : cstr :=
  if (max_content_length <? length content)%nat then take (max_content_length - 3) content ++ cs "..." else content.

Definition summary_line (m : ConversationMessage) : cstr :=
  cs "**" ++ cv_role m ++ cs "**: " ++ truncated_content (cv_content m) ++ [NL; NL].

(** The loop: a line that does not fit is cut and ends it. *)
Fixpoint append_lines (buffer_size : Z) (buffer : cstr) (messages : list ConversationMessage) : cstr :=
  match messages with
  | [] => buffer
  | m :: messages' =>
      if is_tool m then append_lines buffer_size buffer messages'
      else
        let room := buffer_size - Z.of_nat (length buffer) in
        let line := summary_line m in
        if room <=? Z.of_nat (length line) then buffer ++ take (Z.to_nat (room - 1)) line
        else append_lines buffer_size (buffer ++ line) messages'
  end.

(** [None]: no message, or no memory. *)
Definition format_messages_for_summary (messages : list ConversationMessage) : option cstr :=
  match messages with
  | [] => None
  | _ => Some (append_lines (summary_buffer_size messages) [] messages)
  end.

Definition build_summary_prompt (formatted_messages : cstr) (existing_summary : option cstr) : cstr :=
  cs "Summarize this conversation segment being compacted for context management." ++ [NL; NL]
  ++ cs "MESSAGES:" ++ [NL] ++ formatted_messages ++ [NL]
  ++ cs "EXISTING SUMMARY (merge with above if present):" ++ [NL] ++ default (cs "None") existing_summary ++ [NL; NL]
  ++ cs "Provide a concise summary (under 500 tokens) capturing:" ++ [NL]
  ++ cs "- Key decisions made" ++ [NL]
  ++ cs "- Constraints or requirements established" ++ [NL]
  ++ cs "- User preferences expressed" ++ [NL]
  ++ cs "- Technical context needed to continue" ++ [NL; NL]
  ++ cs "Focus on information needed to continue the conversation effectively.".

Section Summary.
Context {J : CJson}.

Definition array_first (item : option cJSON) : option cJSON := cJSON_IsArray item ≫= head.

Definition extract_content_from_response (response_data : cstr) (api_type : Z) : option cstr :=
  root ← cJSON_Parse response_data;
  if api_type =? 1 then string_item (array_first (item (Some root) "content")) "text"
  else string_item (item (array_first (item (Some root) "choices")) "message") "content".

Definition build_api_request_json (model prompt : cstr) : option cstr :=
  cJSON_PrintUnformatted (JObject
    [(cs "model", JString model); (cs "max_tokens", JNumber SUMMARY_MAX_RESPONSE_TOKENS);
     (cs "messages", JArray [JObject [(cs "role", JString (cs "user")); (cs "content", JString prompt)]])]).

(** The headers of the provider of the address. *)
Definition summary_headers (tl_account_id : cstr) (api_url : cstr) (api_key : option cstr) : list cstr :=
  match detect_provider_for_url get_provider_registry api_url with
  | Some CodexProvider => codex_build_headers tl_account_id api_key 8
  | Some OpenAIProvider => openai_build_headers api_key 8
  | Some AnthropicProvider => anthropic_build_headers api_key 8
  | Some LocalAIProvider => local_ai_build_headers api_key 8
  | None =>
      match api_key with Some k => [header_text 512 "Authorization: Bearer " k] | None => [] end
  end.

(** [send url headers body]: the body of the answer; [None] when the request
    fails or the answer is empty. *)
Definition generate_rolling_summary (send : cstr -> list cstr -> cstr -> option cstr) (tl_account_id : cstr)
    (api_url : cstr) (api_key : option cstr) (api_type : Z) (model : cstr) (messages : list ConversationMessage)
    (existing_summary : option cstr) : option cstr :=
  if bool_decide (api_key = None) && (api_type =? 2) then None
  else
    formatted_messages ← format_messages_for_summary messages;
    post_data ← build_api_request_json model (build_summary_prompt formatted_messages existing_summary);
    response ← send api_url (summary_headers tl_account_id api_url api_key) post_data;
    extract_content_from_response response api_type.

(** ** Compaction *)

Definition should_background_compact (conversation : ConversationHistory) (config : CompactionConfig)
    (current_token_count : Z) : bool :=
  if Z.of_nat (length conversation) <=? preserve_recent_messages config + 5 then false
  else background_threshold config <=? current_token_count.

Fixpoint messages_to_trim_loop (token_config : TokenConfig) (tokens_to_remove running_tokens : Z)
    (messages : ConversationHistory) : nat :=
  match messages with
  | [] => 0%nat
  | m :: messages' =>
      if running_tokens <? tokens_to_remove then
        if is_tool m then messages_to_trim_loop token_config tokens_to_remove running_tokens messages'
        else S (messages_to_trim_loop token_config tokens_to_remove
                  (running_tokens + estimate_token_count (cv_content m) token_config + 10) messages')
      else 0%nat
  end.

Definition estimate_messages_to_trim (conversation : ConversationHistory) (token_config : TokenConfig)
    (current_tokens target_tokens : Z) (system_prompt : option cstr) : nat :=
  if current_tokens <=? target_tokens then 0%nat
  else messages_to_trim_loop token_config (current_tokens - target_tokens) (estimate_opt system_prompt token_config)
         conversation.

(** The tokens of the texts alone. *)
Definition content_tokens (token_config : TokenConfig) (conversation : ConversationHistory) : Z :=
  foldr (fun m n => estimate_token_count (cv_content m) token_config + n) 0 conversation.

(** The end of both compactions: the result is filled when messages went. *)
Definition trim_session (session : SessionData) (token_config : TokenConfig) (target_tokens : Z)
  : option (Z * CompactionResult * SessionData) :=
  '(c, trimmed) ← trim_conversation_for_tokens (conversation session) token_config target_tokens
                    (system_prompt (config session));
  let session := with_conversation c session in
  if 0 <? trimmed then
    Some (COMPACT_SUCCESS_TRIMMED,
          mkCompactionResult trimmed (Z.of_nat (length c)) (trimmed * ESTIMATED_TOKENS_PER_MESSAGE), session)
  else Some (COMPACT_SUCCESS_NO_WORK, no_result, session).

(** The summary of the messages about to be trimmed. *)
Definition update_summary (send : cstr -> list cstr -> cstr -> option cstr) (tl_account_id : cstr)
    (messages_to_trim : nat) (session : SessionData) : SessionData :=
  match api_url (config session), model (config session) with
  | Some url, Some model =>
      if MIN_MESSAGES_FOR_SUMMARY <=? Z.of_nat messages_to_trim then
        match generate_rolling_summary send tl_account_id url (api_key (config session)) (api_type (config session)) model
                (take messages_to_trim (conversation session)) (summary_text (rolling_summary session)) with
        | Some new_summary =>
            with_summary (mkRollingSummary (Some new_summary)
              (estimate_token_count new_summary (token_config_init (config_context_window (config session))))
              (messages_summarized (rolling_summary session) + Z.of_nat messages_to_trim)) session
        | None => session
        end
      else session
  | _, _ => session
  end.

Definition background_compact_conversation (send : cstr -> list cstr -> cstr -> option cstr) (tl_account_id : cstr)
    (session : SessionData) (compaction : CompactionConfig) : option (Z * CompactionResult * SessionData) :=
  let token_config := token_config_init (config_context_window (config session)) in
  let current_tokens := content_tokens token_config (conversation session) in
  if negb (should_background_compact (conversation session) compaction current_tokens) then
    Some (COMPACT_SUCCESS_NO_WORK, no_result, session)
  else
    let target_tokens := window_fraction (config_context_window (config session)) COMPACTION_TARGET_THRESHOLD in
    let messages_to_trim := estimate_messages_to_trim (conversation session) token_config current_tokens target_tokens
                              (system_prompt (config session)) in
    trim_session (update_summary send tl_account_id messages_to_trim session) token_config target_tokens.

Definition compact_conversation (session : SessionData) (target_token_count : Z)
  : option (Z * CompactionResult * SessionData) :=
  let token_config := token_config_init (config_context_window (config session)) in
  if content_tokens token_config (conversation session) <=? target_token_count then
    Some (COMPACT_SUCCESS_NO_WORK, no_result, session)
  else trim_session session token_config target_token_count.

(** ** The budget of a session *)

Definition session_allocation (session : SessionData) (user_message : option cstr) (token_config : TokenConfig)
  : Z * TokenUsage :=
  calculate_token_allocation (system_prompt (config session)) (conversation session) (tool_count session) user_message
    token_config.

(** [utilization >= CONTEXT_FULL_THRESHOLD] *)
Definition context_full (token_config : TokenConfig) (usage : TokenUsage) : bool :=
  (0 <? context_window token_config) &&
  SFleb CONTEXT_FULL_THRESHOLD
    (f32_div (f32_of_Z (total_prompt_tokens usage)) (f32_of_Z (context_window token_config))).

Definition manage_conversation_tokens (send : cstr -> list cstr -> cstr -> option cstr) (tl_account_id : cstr)
    (tools : Z) (session : SessionData) (user_message : option cstr) (token_config : TokenConfig)
  : option (Z * TokenUsage * SessionData) :=
  let session := with_tool_count tools session in
  let '(result, usage) := session_allocation session user_message token_config in
  if negb (result =? 0) then Some (result, usage, session)
  else
    let compact_config :=
      mkCompactionConfig (preserve_recent_messages compaction_config_init)
        (window_fraction (context_window token_config) COMPACTION_TRIGGER_THRESHOLD) in
    '(background_status, background_result, session) ←
       background_compact_conversation send tl_account_id session compact_config;
    let recalculated :=
      if (background_status =? 0) && (0 <? tokens_saved background_result)
      then session_allocation session user_message token_config else (0, usage) in
    if negb (recalculated.1 =? 0) then Some (recalculated.1, recalculated.2, session)
    else
      let usage := recalculated.2 in
      if available_response_tokens usage <? min_response_tokens token_config * 2 then
        let target_tokens := trunc_int (f64_mul (f64_of_Z (context_window token_config)) (f64_lit 7 10)) in
        '(compact_status, compact_result, session) ← compact_conversation session target_tokens;
        if (compact_status =? 0) && (0 <? tokens_saved compact_result) then
          let '(result, usage) := session_allocation session user_message token_config in
          if (result =? 0) && context_full token_config usage then Some (SESSION_CONTEXT_FULL, usage, session)
          else Some (result, usage, session)
        else if context_full token_config usage then Some (SESSION_CONTEXT_FULL, usage, session)
        else Some (0, usage, session)
      else if context_full token_config usage then Some (SESSION_CONTEXT_FULL, usage, session)
      else Some (0, usage, session).
End Summary.
