(* ===== verification/CompactorFacts.v ===== *)
(** * Compaction: theorems

    The summary request holds every message it is given; compaction reaches its
    target; the budget of a request never takes the trimming into account. *)

From Stdlib Require Import SpecFloat.
From S2P Require Import Prelude CString Json Providers Conversation TokenManager TokenFacts Compactor.
Local Open Scope bool_scope.
Local Open Scope Z_scope.

(** ** The text of the summary request *)

Definition talk_lines (messages : list ConversationMessage) : cstr :=
  concat (map summary_line (List.filter (fun m => negb (is_tool m)) messages)).

Lemma truncated_length content : (length (truncated_content content) <= length content)%nat.
Proof.
  unfold truncated_content, max_content_length. destruct (Nat.ltb_spec 800 (length content)); [|lia].
  rewrite length_app, length_take. change (length (cs "...")) with 3%nat. lia.
Qed.

Lemma summary_line_length m : (length (summary_line m) <= length (cv_role m) + length (cv_content m) + 8)%nat.
Proof. unfold summary_line. rewrite !length_app. pose proof (truncated_length (cv_content m)). cbn. lia. Qed.

Definition short_role (m : ConversationMessage) : Prop := (length (cv_role m) <= 56)%nat.

Lemma append_lines_fit size messages buffer :
  Forall short_role messages -> Z.of_nat (length buffer) + summary_buffer_size messages <= size ->
  append_lines size buffer messages = buffer ++ talk_lines messages /\
  Z.of_nat (length (buffer ++ talk_lines messages)) + SUMMARY_INITIAL_BUFFER_SIZE <= size.
Proof.
  intros Hr. revert buffer. induction Hr as [|m ms Hm _ IH]; intros buffer Hs; cbn [append_lines summary_buffer_size foldr] in *.
  - unfold talk_lines. cbn. rewrite app_nil_r. split; [done|lia].
  - fold (summary_buffer_size ms) in Hs. unfold talk_lines. cbn [List.filter]. destruct (is_tool m); cbn [negb map concat].
    + apply IH. lia.
    + pose proof (summary_line_length m) as Hl. unfold short_role in Hm.
      assert (SUMMARY_INITIAL_BUFFER_SIZE <= summary_buffer_size ms) as Hb.
      { clear. induction ms as [|x ms IH]; [done|]. cbn in *. unfold summary_buffer_size in IH. lia. }
      unfold SUMMARY_INITIAL_BUFFER_SIZE in *.
      destruct (Z.leb_spec (size - Z.of_nat (length buffer)) (Z.of_nat (length (summary_line m)))); [lia|].
      rewrite app_assoc. apply IH. rewrite length_app. lia.
Qed.

(** ** What the statuses say *)

Lemma trim_session_saved s tc target st r s' :
  trim_session s tc target = Some (st, r, s') -> (st =? 0) && (0 <? tokens_saved r) = false.
Proof.
  unfold trim_session. destruct (trim_conversation_for_tokens _ _ _ _) as [[c n]|]; [|done]. cbn.
  destruct (0 <? n); by intros [= <- <- <-].
Qed.

Lemma background_saved {J : CJson} send tl s cfg st r s' :
  background_compact_conversation send tl s cfg = Some (st, r, s') -> (st =? 0) && (0 <? tokens_saved r) = false.
Proof.
  unfold background_compact_conversation. destruct (negb _); [by intros [= <- <- <-]|]. apply trim_session_saved.
Qed.

Lemma compact_saved s target st r s' :
  compact_conversation s target = Some (st, r, s') -> (st =? 0) && (0 <? tokens_saved r) = false.
Proof.
  unfold compact_conversation. destruct (_ <=? _); [by intros [= <- <- <-]|]. apply trim_session_saved.
Qed.

Lemma update_summary_rest {J : CJson} send tl n s :
  config (update_summary send tl n s) = config s /\ conversation (update_summary send tl n s) = conversation s /\
  tool_count (update_summary send tl n s) = tool_count s.
Proof.
  unfold update_summary. destruct (api_url (config s)), (model (config s)); try done. destruct (_ <=? _); [|done].
  by destruct (generate_rolling_summary _ _ _ _ _ _ _ _).
Qed.

Lemma sublist_same_length {A} (l k : list A) : l `sublist_of` k -> (length k <= length l)%nat -> l = k.
Proof.
  induction 1 as [|x l k Hs IH|x l k Hs IH]; cbn; intros Hlen; [done|f_equal; apply IH; lia|].
  apply sublist_length in Hs. lia.
Qed.

(** ** A conversation that ends with a large tool result *)

Lemma content_tokens_last w conv t :
  sized conv -> last conv = Some t ->
  estimate_token_count (cv_content t) (token_config_init w) <= content_tokens (token_config_init w) conv.
Proof.
  intros Hs. revert t. induction Hs as [|m conv Hm Hs IH]; intros t Hl; [done|]. cbn [content_tokens foldr].
  fold (content_tokens (token_config_init w) conv). destruct conv as [|m' conv].
  - injection Hl as <-. cbn. lia.
  - pose proof (IH t Hl). pose proof (estimate_nonneg w (cv_content m) Hm). lia.
Qed.

Section Outside.
Context {J : CJson} (s : SessionData) (t : ConversationMessage).
Let w := config_context_window (config s).
Let tokens := estimate_token_count (cv_content t) (token_config_init w).
Context (Hs : sized (conversation s)) (Hl : Z.of_nat (length (conversation s)) < 2 ^ 64).
Context (Ht : last (conversation s) = Some t) (Htool : is_tool t = true).
Context (Hsys : 0 <= estimate_opt (system_prompt (config s)) (token_config_init w)).

Lemma trim_session_outside s' target :
  config s' = config s -> conversation s' = conversation s -> target < tokens ->
  trim_session s' (token_config_init w) target = None.
Proof using Hs Hl Ht Htool Hsys.
  intros Hc Hv Hb. unfold trim_session. rewrite Hc, Hv. rewrite (trim_leaves_array w target _ _ t); try done.
  unfold message_tokens. change TOKEN_OVERHEAD_PER_MESSAGE with 10. fold tokens. lia.
Qed.

Lemma compact_outside target : target < tokens -> compact_conversation s target = None.
Proof using Hs Hl Ht Htool Hsys.
  intros Hb. unfold compact_conversation. fold w.
  destruct (Z.leb_spec (content_tokens (token_config_init w) (conversation s)) target) as [Hle|_].
  - pose proof (content_tokens_last w _ t Hs Ht) as Hge. fold tokens in Hge. lia.
  - by apply trim_session_outside.
Qed.

Lemma background_outside send tl compaction :
  window_fraction w COMPACTION_TARGET_THRESHOLD < tokens ->
  background_compact_conversation send tl s compaction = None \/
  background_compact_conversation send tl s compaction = Some (COMPACT_SUCCESS_NO_WORK, no_result, s).
Proof using Hs Hl Ht Htool Hsys.
  intros Hb. unfold background_compact_conversation. fold w. destruct (negb _); [by right|]. left.
  destruct (update_summary_rest send tl (estimate_messages_to_trim (conversation s) (token_config_init w)
    (content_tokens (token_config_init w) (conversation s)) (window_fraction w COMPACTION_TARGET_THRESHOLD)
    (system_prompt (config s))) s) as (H1 & H2 & _).
  by apply trim_session_outside.
Qed.
End Outside.

(** Only a conversation that ends with a tool's message is read out of bounds. *)
Lemma trim_session_tool s target :
  Z.of_nat (length (conversation s)) < 2 ^ 64 ->
  trim_session s (token_config_init (config_context_window (config s))) target = None ->
  exists t, last (conversation s) = Some t /\ is_tool t = true.
Proof.
  intros Hl. unfold trim_session.
  pose proof (trim_cases (config_context_window (config s)) target (system_prompt (config s)) (conversation s) Hl) as H. cbn zeta in H.
  destruct (trim_conversation_for_tokens _ _ _ _) as [[c k]|]; cbn [mbind option_bind]; [by case_match|].
  destruct H as (t & Ht & Htool & _). by exists t.
Qed.

Lemma trim_session_last s target st r s' :
  Z.of_nat (length (conversation s)) < 2 ^ 64 ->
  trim_session s (token_config_init (config_context_window (config s))) target = Some (st, r, s') ->
  config s' = config s /\ (length (conversation s') <= length (conversation s))%nat /\
  (conversation s' <> [] -> last (conversation s') = last (conversation s)).
Proof.
  intros Hl. unfold trim_session.
  pose proof (trim_cases (config_context_window (config s)) target (system_prompt (config s)) (conversation s) Hl) as H. cbn zeta in H.
  destruct (trim_conversation_for_tokens _ _ _ _) as [[c k]|]; cbn [mbind option_bind]; [|done].
  destruct H as (k' & _ & Hk & _ & _ & Hlast). destruct (0 <? k); intros [= <- <- <-]; (split; [done|]; split; [cbn; lia|done]).
Qed.

Lemma budget_outside {J : CJson} send tl tools s user :
  Z.of_nat (length (conversation s)) < 2 ^ 64 ->
  manage_conversation_tokens send tl tools s user (token_config_init (config_context_window (config s))) = None ->
  exists t, last (conversation s) = Some t /\ is_tool t = true.
Proof.
  intros Hl. unfold manage_conversation_tokens. set (s0 := with_tool_count tools s).
  change (conversation s) with (conversation s0) in *. change (config s) with (config s0) in *. clearbody s0. clear s. rename s0 into s.
  destruct (session_allocation _ _ _) as [result usage]. destruct (negb (result =? 0)); [done|].
  destruct (background_compact_conversation _ _ _ _) as [[[bs br] s1]|] eqn:Eb; cbn [mbind option_bind].
  - assert (config s1 = config s /\ (length (conversation s1) <= length (conversation s))%nat /\
            (conversation s1 <> [] -> last (conversation s1) = last (conversation s))) as (Ec & Hlen & Hlast).
    { unfold background_compact_conversation in Eb. destruct (negb _); [by injection Eb as <- <- <-|].
      match type of Eb with trim_session ?u _ _ = _ => set (u0 := u) in Eb end.
      assert (config u0 = config s /\ conversation u0 = conversation s) as [E1 E2] by (split; apply update_summary_rest).
      rewrite <- E1 in Eb. apply trim_session_last in Eb; rewrite E2 in *; [|done]. rewrite E1 in Eb. exact Eb. }
    destruct (negb _); [done|]. destruct (_ <? _); [|by destruct (context_full _ _)].
    destruct (compact_conversation s1 _) as [[[cst cr] s2]|] eqn:E2; cbn [mbind option_bind].
    + destruct (_ && _); [destruct (session_allocation s2 _ _); by destruct (_ && _)|by destruct (context_full _ _)].
    + intros _. unfold compact_conversation in E2. destruct (_ <=? _); [done|].
      apply trim_session_tool in E2 as (t & Ht & Htool); [|lia]. exists t. split; [|done]. rewrite <- Hlast; [done|].
      intros E. by rewrite E in Ht.
  - intros _. unfold background_compact_conversation in Eb. destruct (negb _); [done|].
    match type of Eb with trim_session ?u _ _ = _ => set (u0 := u) in Eb end.
    assert (config u0 = config s /\ conversation u0 = conversation s) as [E1 E2] by (split; apply update_summary_rest).
    rewrite <- E1 in Eb. apply trim_session_tool in Eb; rewrite E2 in *; done.
Qed.

(** ** Properties *)

(** The text of the summary request is complete: every message given that is not
    a tool's is there, in order, cut to 800 characters and no further, and at
    least the initial size of the buffer stays free. *)
Theorem summary_text_complete (messages : list ConversationMessage) :
  messages <> [] -> Forall short_role messages ->
  format_messages_for_summary messages = Some (talk_lines messages) /\
  Z.of_nat (length (talk_lines messages)) + SUMMARY_INITIAL_BUFFER_SIZE <= summary_buffer_size messages.
Proof.
  intros Hne Hr. destruct (append_lines_fit (summary_buffer_size messages) messages [] Hr) as [E H]; [cbn; lia|].
  cbn [app] in *. split; [|done]. unfold format_messages_for_summary. rewrite E. by destruct messages.
Qed.

Lemma summary_text_complete_witness :
  format_messages_for_summary [text_message "user" "hi"; tool_result "t1"; text_message "assistant" "yes"] =
    Some (talk_lines [text_message "user" "hi"; text_message "assistant" "yes"]).
Proof.
  destruct (summary_text_complete [text_message "user" "hi"; tool_result "t1"; text_message "assistant" "yes"]) as [E _].
  - discriminate.
  - repeat constructor; unfold short_role; cbn; lia.
  - exact E.
Defined.

(** The summary after a compaction: as before, or a new one of at least three
    messages more. *)
Definition summarized (old new : RollingSummary) : Prop :=
  new = old \/
  exists text n, 3 <= n /\ summary_text new = Some text /\ messages_summarized new = messages_summarized old + n.

Lemma update_summary_summarized {J : CJson} send tl n s :
  summarized (rolling_summary s) (rolling_summary (update_summary send tl n s)).
Proof.
  unfold update_summary, summarized. destruct (api_url (config s)), (model (config s)); try (by left).
  destruct (Z.leb_spec MIN_MESSAGES_FOR_SUMMARY (Z.of_nat n)) as [Hn|]; [|by left].
  destruct (generate_rolling_summary _ _ _ _ _ _ _ _) as [t|]; [|by left]. right. exists t, (Z.of_nat n). by split.
Qed.

(** C26: A background compaction leaves everything as it is and reports no work
    unless the conversation has more than five messages above those to preserve
    and its texts reach the threshold. Then it removes messages in the order of
    trimming until the conversation and the system prompt fit the target, 35
    percent of the window, and not one more, or until none is left; it reports
    success exactly when a message went, with the number of those that went and
    stayed, and changes nothing else but the summary. It reads past the end of
    the conversation exactly when that is above the thresholds and ends with a
    tool's message that does not fit. The texts have int sizes. *)
Theorem compaction_reaches_target {J : CJson} (send : cstr -> list cstr -> cstr -> option cstr) (tl : cstr)
    (s : SessionData) (cfg : CompactionConfig) :
  sized (conversation s) -> Z.of_nat (length (conversation s)) < 2 ^ 64 ->
  let tc := token_config_init (config_context_window (config s)) in
  let target := window_fraction (config_context_window (config s)) COMPACTION_TARGET_THRESHOLD in
  let sys := estimate_opt (system_prompt (config s)) tc in
  let due := preserve_recent_messages cfg + 5 < Z.of_nat (length (conversation s)) /\
             background_threshold cfg <= content_tokens tc (conversation s) in
  match background_compact_conversation send tl s cfg with
  | None => due /\ exists t, last (conversation s) = Some t /\ is_tool t = true /\ target < sys + message_tokens tc t
  | Some (st, r, s') =>
      (~ due -> st = COMPACT_SUCCESS_NO_WORK /\ r = mkCompactionResult 0 0 0 /\ s' = s) /\
      (due -> exists k,
         trimmed_to (fun c => sys + history_tokens tc c <= target) (conversation s) k (conversation s') /\
         (k + length (conversation s') = length (conversation s))%nat /\
         (k = 0%nat -> st = COMPACT_SUCCESS_NO_WORK /\ r = mkCompactionResult 0 0 0) /\
         ((0 < k)%nat -> st = COMPACT_SUCCESS_TRIMMED /\ messages_trimmed r = Z.of_nat k /\
            messages_after_trimming r = Z.of_nat (length (conversation s'))) /\
         config s' = config s /\ tool_count s' = tool_count s /\ summarized (rolling_summary s) (rolling_summary s'))
  end.
Proof.
  intros Hs Hl tc target sys due. unfold background_compact_conversation. fold tc target.
  assert (should_background_compact (conversation s) cfg (content_tokens tc (conversation s)) = true <-> due) as Hdue.
  { unfold should_background_compact, due. destruct (Z.leb_spec (Z.of_nat (length (conversation s))) (preserve_recent_messages cfg + 5)).
    - split; [done|lia].
    - rewrite Z.leb_le. split; [done|by intros []]. }
  destruct (should_background_compact _ _ _); cbn [negb].
  2: { split; [done|]. intros H. by apply Hdue in H. }
  assert due as Hd by (by apply Hdue). clear Hdue.
  set (n := estimate_messages_to_trim _ _ _ _ _). destruct (update_summary_rest send tl n s) as (E1 & E2 & E3).
  pose proof (update_summary_summarized send tl n s) as Hsum.
  pose proof (trim_cases (config_context_window (config s)) target (system_prompt (config s)) (conversation s) Hl) as Ht.
  cbn zeta in Ht. fold tc sys in Ht. unfold trim_session. rewrite E1, E2.
  destruct (trim_conversation_for_tokens _ _ _ _) as [[c m]|]; cbn [mbind option_bind]; [|done].
  destruct Ht as (k & -> & Hk & Htrim & _).
  destruct (Z.ltb_spec 0 (Z.of_nat k)); (split; [done|]; intros _; exists k;
    cbn [config conversation tool_count with_conversation rolling_summary messages_trimmed messages_after_trimming];
    split; [exact Htrim|]; split; [exact Hk|]; split; [try lia; done|]; split; [try lia; done|]; rewrite E1, E3; done).
Qed.

(** Seventeen messages of a session with a window of 400 tokens. *)
Definition crowded : SessionData :=
  mkSessionData (mkSessionConfig None None None None 400 0)
    (repeat (mkConversationMessage (cs "user") (repeat "x"%char 100) None None false) 17) 0 (mkRollingSummary None 0 0).

Definition at_threshold : CompactionConfig := mkCompactionConfig 10 300.

Lemma compaction_reaches_target_witness :
  exists s', background_compact_conversation (fun _ _ _ => None) [] crowded at_threshold = Some (1, mkCompactionResult 13 4 650, s') /\
    length (conversation s') = 4%nat /\
    trimmed_to (fun c => history_tokens (token_config_init 400) c <= 140) (conversation crowded) 13 (conversation s').
Proof.
  assert (sized (conversation crowded)) as Hs by (cbn; repeat constructor; vm_compute; done).
  assert (Z.of_nat (length (conversation crowded)) < 2 ^ 64) as Hl by (vm_compute; done).
  pose proof (compaction_reaches_target (fun _ _ _ => None) [] crowded at_threshold Hs Hl) as H.
  destruct (background_compact_conversation (fun _ _ _ => None) [] crowded at_threshold) as [[[st r] s']|] eqn:E.
  2: { vm_compute in E. discriminate. }
  destruct H as [_ H]. destruct H as (k & Ht & Hk & _); [split; vm_compute; done|].
  exists s'. assert (length (conversation s') = 4%nat) as Hlen by (vm_compute in E; injection E as _ _ <-; reflexivity).
  rewrite Hlen in Hk. change (length (conversation crowded)) with 17%nat in Hk. assert (k = 13%nat) as -> by lia.
  split; [|split; [exact Hlen|exact Ht]].
  vm_compute in E. injection E as <- <- <-. reflexivity.
Defined.

(** The tokens reported to the caller and the verdict that the context is full
    are those of the conversation before any trimming: the recalculation runs
    only when a compaction answers that it did no work and yet saved tokens,
    which none does. A session whose trimming freed the window is reported full
    all the same. *)
Theorem budget_ignores_trimming {J : CJson} (send : cstr -> list cstr -> cstr -> option cstr) (tl : cstr) (tools : Z)
    (s s' : SessionData) (user_message : option cstr) (tc : TokenConfig) (rc : Z) (usage : TokenUsage) :
  manage_conversation_tokens send tl tools s user_message tc = Some (rc, usage, s') ->
  let before := session_allocation (with_tool_count tools s) user_message tc in
  usage = before.2 /\
  rc = if negb (before.1 =? 0) then before.1 else if context_full tc before.2 then SESSION_CONTEXT_FULL else 0.
Proof.
  unfold manage_conversation_tokens. cbn zeta. set (s0 := with_tool_count tools s).
  destruct (session_allocation s0 user_message tc) as [result usage0]. cbn [fst snd].
  destruct (negb (result =? 0)); [by intros [= <- <- <-]|].
  destruct (background_compact_conversation _ _ _ _) as [[[st r] s1]|] eqn:Eb; [|done]. cbn [mbind option_bind].
  rewrite (background_saved _ _ _ _ _ _ _ Eb). cbn [fst snd negb]. change (negb (0 =? 0)) with false. cbv iota.
  destruct (_ <? _); [|by destruct (context_full tc usage0); intros [= <- <- <-]].
  destruct (compact_conversation s1 _) as [[[st2 r2] s2]|] eqn:Ec; [|done]. cbn [mbind option_bind].
  rewrite (compact_saved _ _ _ _ _ Ec). by destruct (context_full tc usage0); intros [= <- <- <-].
Qed.

(** Reported full with a conversation that fills less than half the window. *)
Lemma budget_ignores_trimming_witness :
  exists usage s', manage_conversation_tokens (fun _ _ _ => None) [] 0 crowded None (token_config_init 400) =
      Some (SESSION_CONTEXT_FULL, usage, s') /\
    usage = (session_allocation crowded None (token_config_init 400)).2 /\
    total_prompt_tokens (session_allocation s' None (token_config_init 400)).2 = 166.
Proof.
  destruct (manage_conversation_tokens (fun _ _ _ => None) [] 0 crowded None (token_config_init 400)) as [[[rc usage] s']|] eqn:E.
  2: { vm_compute in E. discriminate. }
  destruct (budget_ignores_trimming (fun _ _ _ => None) [] 0 crowded s' None (token_config_init 400) rc usage E) as [Eu _].
  exists usage, s'. vm_compute in E. injection E as <- _ Es. split; [reflexivity|]. split; [exact Eu|].
  rewrite <- Es. vm_compute. reflexivity.
Defined.
