(* ===== verification/ApiMessages.v ===== *)
(** * Requests to the model (lib/network/api_common.c) and what a model's family
    changes in them (lib/llm/model_capabilities.c, lib/llm/models/)

    How a message of the conversation is written in a request, into a buffer
    whose size is estimated before, and how an assistant's tool calls are kept in
    the conversation. *)

From S2P Require Import Prelude CString Json ToolArgs ApprovalErrors Providers Conversation TokenManager.
Local Open Scope char_scope.
Local Open Scope bool_scope.

Definition NL : ascii := "010".

(** ** Families of models *)

Inductive ModelFamily := FamilyOpenAI | FamilyAnthropic | FamilyNone.

Record ModelCapabilities := mkModel {
  model_pattern : cstr;
  model_family : ModelFamily;
  max_context_length : Z;
  supports_thinking_tags : bool
}.

Definition MODEL_DATA : list ModelCapabilities :=
  [mkModel (cs "codex") FamilyOpenAI 400000 false; mkModel (cs "gpt") FamilyOpenAI 128000 false;
   mkModel (cs "o1") FamilyOpenAI 200000 false; mkModel (cs "o4") FamilyOpenAI 200000 false;
   mkModel (cs "qwen") FamilyOpenAI 32768 true; mkModel (cs "deepseek") FamilyOpenAI 128000 true;
   mkModel (cs "claude") FamilyAnthropic 200000 false; mkModel (cs "default") FamilyNone 4096 false].

Definition model_pattern_match (model_name pattern : cstr) : bool := contains (lower model_name) (lower pattern).

Fixpoint first_model (p : ModelCapabilities -> bool) (registry : list ModelCapabilities) : option ModelCapabilities :=
  match registry with
  | [] => None
  | m :: registry' => if p m then Some m else first_model p registry'
  end.

Definition detect_model_capabilities (registry : list ModelCapabilities) (model_name : cstr) : option ModelCapabilities :=
  match first_model (fun m => model_pattern_match model_name (model_pattern m)) registry with
  | Some m => Some m
  | None => first_model (fun m => streq (model_pattern m) (cs "default")) registry
  end.

(** [process_thinking_response]: thinking and response. *)
Fixpoint skip_space (s : cstr) : cstr :=
  match s with
  | c :: s' => if Ascii.eqb c " " || Ascii.eqb c "009" || Ascii.eqb c "010" || Ascii.eqb c "013" then skip_space s' else s
  | [] => []
  end.

Definition process_thinking_response (content : cstr) : option cstr * option cstr :=
  match strstr content (cs "<think>"), strstr content (cs "</think>") with
  | Some start, Some end_ =>
      if (length end_ <? length start)%nat then
        let body := drop 7 start in
        (Some (take (length body - length end_) body),
         match skip_space (drop 8 end_) with [] => None | r => Some r end)
      else (None, Some content)
  | _, _ => (None, Some content)
  end.

Definition process_simple_response (content : cstr) : option cstr * option cstr := (None, Some content).

(** ** Printing into a buffer *)

(** [written = snprintf(buffer, size, ..); if (written < 0 || written >= (int)size)]:
    the text when it fits. *)
Definition fitted (size : Z) (text : cstr) : option cstr :=
  if (Z.of_nat (length text) <? wrap32 size)%Z then Some text else None.

Section Messages.
Context {J : CJson}.

(** ** The assistant's calls in the conversation *)

Definition claude_format_assistant_tool_message (response_content : option cstr) (tool_calls : list ToolCall) : option cstr :=
  response_content.

Definition GPT_TOOL_MSG_BASE_SIZE : Z := 200.
Definition GPT_TOOL_CALL_OVERHEAD : Z := 100.
Definition JSON_ESCAPE_MULTIPLIER : Z := 6.
Definition GPT_CONTENT_PADDING : Z := 50.

Definition length_or_zero (s : option cstr) : Z := Z.of_nat (length (default [] s)).

Definition gpt_message_size (response_content : option cstr) (tool_calls : list ToolCall) : Z :=
  foldr (fun call n =>
           GPT_TOOL_CALL_OVERHEAD + Z.of_nat (length (tc_id call)) * JSON_ESCAPE_MULTIPLIER
           + length_or_zero (tc_name call) * JSON_ESCAPE_MULTIPLIER
           + length_or_zero (tc_arguments call) * JSON_ESCAPE_MULTIPLIER + n)%Z
    (GPT_TOOL_MSG_BASE_SIZE + length_or_zero response_content * JSON_ESCAPE_MULTIPLIER + GPT_CONTENT_PADDING)%Z tool_calls.

(** One snprintf after another: the text so far, while it fits. *)
Definition put (size : Z) (buffer text : cstr) : option cstr :=
  (fun t => buffer ++ t) <$> fitted (size - Z.of_nat (length buffer)) text.

Definition gpt_call_text (first : bool) (call : ToolCall) : option cstr :=
  args ← json_escape_string (Some (default [] (tc_arguments call)));
  Some ((if first then [] else cs ", ") ++ cs "{" ++ quoted "id" ++ cs ": " ++ JQ :: tc_id call ++ JQ :: cs ", "
        ++ quoted "type" ++ cs ": " ++ quoted "function" ++ cs ", " ++ quoted "function" ++ cs ": {" ++ quoted "name"
        ++ cs ": " ++ JQ :: default [] (tc_name call) ++ JQ :: cs ", " ++ quoted "arguments" ++ cs ": "
        ++ JQ :: args ++ JQ :: cs "}}").

Fixpoint gpt_put_calls (size : Z) (buffer : cstr) (first : bool) (tool_calls : list ToolCall) : option cstr :=
  match tool_calls with
  | [] => Some buffer
  | call :: tool_calls' =>
      text ← gpt_call_text first call;
      buffer ← put size buffer text;
      gpt_put_calls size buffer false tool_calls'
  end.

Definition gpt_content_text (response_content : option cstr) : option cstr :=
  match response_content with
  | Some (c :: s) =>
      escaped ← json_escape_string (Some (c :: s));
      Some (quoted "content" ++ cs ": " ++ JQ :: escaped ++ JQ :: cs ", ")
  | _ => Some (quoted "content" ++ cs ": null, ")
  end.

Definition gpt_format_assistant_tool_message (response_content : option cstr) (tool_calls : list ToolCall) : option cstr :=
  match tool_calls with
  | _ :: _ =>
      let size := gpt_message_size response_content tool_calls in
      buffer ← put size [] (cs "{" ++ quoted "role" ++ cs ": " ++ quoted "assistant" ++ cs ", ");
      content ← gpt_content_text response_content;
      buffer ← put size buffer content;
      buffer ← put size buffer (quoted "tool_calls" ++ cs ": [");
      buffer ← gpt_put_calls size buffer true tool_calls;
      put size buffer (cs "]}")
  | [] =>
      content ← response_content;
      escaped ← json_escape_string (Some content);
      Some (cs "{" ++ quoted "content" ++ cs ": " ++ JQ :: escaped ++ JQ :: cs "}")
  end.

Definition format_model_assistant_tool_message (registry : list ModelCapabilities) (model_name : cstr)
    (response_content : option cstr) (tool_calls : list ToolCall) : option cstr :=
  model ← detect_model_capabilities registry model_name;
  match model_family model with
  | FamilyOpenAI => gpt_format_assistant_tool_message response_content tool_calls
  | FamilyAnthropic => claude_format_assistant_tool_message response_content tool_calls
  | FamilyNone => None
  end.

(** ** One message of a request *)

Definition build_simple_message_json (role content : cstr) : option cstr :=
  cJSON_PrintUnformatted (JObject [(cs "role", JString role); (cs "content", JString content)]).

(** [%g] of an integer: six significant digits. *)
Definition strip_zeros (ds : cstr) : cstr :=
  rev ((fix strip l := match l with c :: l' => if Ascii.eqb c "0" then strip l' else l | [] => [] end) (rev ds)).

Definition percent_g (z : Z) : cstr :=
  let sign := if (z <? 0)%Z then ["-"] else [] in
  let n := Z.abs z in
  let ds := digits 400 (Z.to_N n) [] in
  if (length ds <=? 6)%nat then sign ++ ds
  else
    let unit := (10 ^ (Z.of_nat (length ds) - 6))%Z in
    let quotient := (n / unit)%Z in
    let rest := (n mod unit)%Z in
    let up := (unit <? 2 * rest)%Z || ((unit =? 2 * rest)%Z && Z.odd quotient) in
    let rounded := (if up then quotient + 1 else quotient)%Z in
    let exponent := (Z.of_nat (length ds) - 1 + if (rounded =? 10 ^ 6)%Z then 1 else 0)%Z in
    let ds := digits 7 (Z.to_N (if (rounded =? 10 ^ 6)%Z then 10 ^ 5 else rounded)) [] in
    sign ++ take 1 ds ++ match strip_zeros (drop 1 ds) with [] => [] | f => "." :: f end
    ++ cs "e+" ++ (if (exponent <? 10)%Z then ["0"] else []) ++ digits 4 (Z.to_N exponent) [].

(** The text of a member; the buffer of a number holds it. *)
Definition field_text (v : cJSON) : cstr :=
  match v with
  | JString s => s
  | JNumber z => percent_g z
  | JBool true => cs "true"
  | JBool false => cs "false"
  | _ => cs "..."
  end.

(** The loop over the members with a name, into [arg_summary[512]]. *)
Fixpoint arg_summary (buffer : cstr) (first : bool) (fields : list (option cstr * cJSON)) : cstr :=
  match fields with
  | [] => buffer
  | (None, _) :: fields' => arg_summary buffer first fields'
  | (Some key, v) :: fields' =>
      let text := (if first then [] else cs ", ") ++ key ++ "=" :: JQ :: field_text v ++ [JQ] in
      let room := (512 - length buffer)%nat in
      if (room <=? length text)%nat then buffer ++ take (room - 1) text
      else arg_summary (buffer ++ text) false fields'
  end.

Definition call_summary (first : bool) (fn : cJSON) : cstr :=
  let name_str := default (cs "unknown") (string_item (Some fn) "name") in
  let args_str := default (cs "{}") (string_item (Some fn) "arguments") in
  let arg_text := match cJSON_Parse args_str with Some args_obj => arg_summary [] true (children args_obj) | None => [] end in
  (if first then [] else [NL]) ++ cs "Calling " ++ name_str ++ cs "(" ++ arg_text ++ cs ")".

Fixpoint call_summaries (first : bool) (tool_calls : list cJSON) : cstr :=
  match tool_calls with
  | [] => []
  | tc :: tool_calls' =>
      match item (Some tc) "function" with
      | None => []
      | Some fn => call_summary first fn
      end ++ call_summaries false tool_calls'
  end.

Definition summarize_tool_calls (raw_json : cstr) : option cstr :=
  root ← cJSON_Parse raw_json;
  tool_calls ← cJSON_IsArray (item (Some root) "tool_calls");
  match call_summaries true tool_calls with [] => None | summary => Some summary end.

Definition tool_as_system (name content : cstr) : cstr := cs "[Tool " ++ name ++ cs " result]:" ++ NL :: content.

(** The JSON of a message for servers of the OpenAI family. *)
Definition openai_message_json (message : ConversationMessage) : option cstr :=
  if is_tool message then
    build_simple_message_json (cs "system")
      (tool_as_system (default (cs "unknown") (cv_tool_name message)) (cv_content message))
  else if is_assistant message && contains (cv_content message) (quoted "tool_calls") then
    match summarize_tool_calls (cv_content message) ≫= build_simple_message_json (cs "assistant") with
    | Some json => Some json
    | None => build_simple_message_json (cs "assistant") (cv_content message)
    end
  else build_simple_message_json (cv_role message) (cv_content message).

(** The content array inside a raw response of Anthropic. *)
Definition raw_content_array (content : cstr) : option cstr :=
  content_start ← strstr content (quoted "content" ++ cs ":");
  array_start ← strchr content_start "[";
  array_end ← strrchr content "]";
  if (length array_end <? length array_start)%nat then Some (take (length array_start - length array_end + 1) array_start)
  else None.

Definition anthropic_message_json (message : ConversationMessage) : option cstr :=
  if is_tool message then
    cJSON_PrintUnformatted (JObject
      [(cs "role", JString (cs "user"));
       (cs "content", JArray [JObject
          ([(cs "type", JString (cs "tool_result")); (cs "content", JString (cv_content message))]
           ++ match cv_tool_call_id message with Some id => [(cs "tool_use_id", JString id)] | None => [] end)])])
  else if is_assistant message && contains (cv_content message) (quoted "tool_use") then
    match raw_content_array (cv_content message) with
    | Some array => Some (cs "{" ++ quoted "role" ++ cs ": " ++ quoted "assistant" ++ cs ", " ++ quoted "content" ++ cs ": "
                          ++ array ++ cs "}")
    | None => build_simple_message_json (cv_role message) (cv_content message)
    end
  else build_simple_message_json (cv_role message) (cv_content message).

(** [MessageFormatter]: buffer size, message and whether it is the first. *)
Definition format_with (message_json : ConversationMessage -> option cstr) (buffer_size : Z)
    (message : ConversationMessage) (is_first_message : bool) : option cstr :=
  json ← message_json message;
  fitted buffer_size ((if is_first_message then [] else cs ", ") ++ json).

Definition format_openai_message := format_with openai_message_json.
Definition format_anthropic_message := format_with anthropic_message_json.

(** ** All messages *)

Record SystemPromptParts := mkSystemPromptParts { base_prompt : option cstr; dynamic_context : option cstr }.

Record ImageAttachment := mkImage { mime_type : cstr; base64_data : cstr }.

Definition SIZE_MAX : Z := 2 ^ 64 - 1.

Definition strlen (s : cstr) : Z := Z.of_nat (length s).

(** The sums stay below SIZE_MAX: the texts are in memory. *)
Definition calculate_messages_buffer_size (images : list ImageAttachment) (system_prompt : option SystemPromptParts)
    (conversation : ConversationHistory) (user_message : option cstr) : Z :=
  (200 + match user_message with Some u => strlen u * 2 + 50 | None => 0 end
   + match system_prompt with
     | Some p => match base_prompt p with Some b => strlen b * 2 + 100 | None => 0 end
                 + match dynamic_context p with Some d => strlen d * 2 + 100 | None => 0 end
     | None => 0
     end
   + foldr (fun m n => strlen (cv_role m) + strlen (cv_content m) * 2 + 100 + n) 0 conversation
   + foldr (fun i n => strlen (base64_data i) + 256 + n) 0 images)%Z.

Definition image_part (is_anthropic : bool) (img : ImageAttachment) : cJSON :=
  if is_anthropic then
    JObject [(cs "type", JString (cs "image"));
             (cs "source", JObject [(cs "type", JString (cs "base64")); (cs "media_type", JString (mime_type img));
                                    (cs "data", JString (base64_data img))])]
  else
    JObject [(cs "type", JString (cs "image_url"));
             (cs "image_url", JObject [(cs "url", JString (cs "data:" ++ mime_type img ++ cs ";base64," ++ base64_data img))])].

Definition format_user_message_with_images (images : list ImageAttachment) (text : cstr) (is_anthropic : bool) : option cstr :=
  cJSON_PrintUnformatted (JObject
    [(cs "role", JString (cs "user"));
     (cs "content", JArray (JObject [(cs "type", JString (cs "text")); (cs "text", JString text)]
                            :: map (image_part is_anthropic) images))]).

Definition system_message (content : cstr) : ConversationMessage :=
  mkConversationMessage (cs "system") content None None false.

(** The buffer after one more text; [None] when it does not fit. *)
Definition emit (buffer_size : Z) (formatter : Z -> bool -> option cstr) (st : cstr * bool) : option (cstr * bool) :=
  text ← formatter (buffer_size - strlen st.1)%Z st.2;
  Some (st.1 ++ text, false).

Fixpoint emit_all (buffer_size : Z) (formatter : Z -> ConversationMessage -> bool -> option cstr)
    (messages : list ConversationMessage) (st : cstr * bool) : option (cstr * bool) :=
  match messages with
  | [] => Some st
  | m :: messages' =>
      st ← emit buffer_size (fun size first => formatter size m first) st;
      emit_all buffer_size formatter messages' st
  end.

(** The messages in the order they are written. *)
Definition system_messages (system_prompt : option SystemPromptParts) (skip_system : bool) : list ConversationMessage :=
  match system_prompt with
  | Some p =>
      if skip_system then []
      else match base_prompt p with Some b => [system_message b] | None => [] end
           ++ match dynamic_context p with Some (c :: d) => [system_message (c :: d)] | _ => [] end
  | None => []
  end.

Definition history_messages (conversation : ConversationHistory) (skip_system : bool) : list ConversationMessage :=
  List.filter (fun m => negb (skip_system && streq (cv_role m) (cs "system"))) conversation.

Definition build_messages_json (images : list ImageAttachment) (buffer_size : Z) (system_prompt : option SystemPromptParts)
    (conversation : ConversationHistory) (user_message : option cstr)
    (formatter : Z -> ConversationMessage -> bool -> option cstr) (skip_system_in_history : bool) : option cstr :=
  st ← emit_all buffer_size formatter
         (system_messages system_prompt skip_system_in_history ++ history_messages conversation skip_system_in_history) ([], true);
  st ← match user_message with
       | Some (c :: u) =>
           match images with
           | _ :: _ =>
               emit buffer_size (fun size first =>
                 json ← format_user_message_with_images images (c :: u) skip_system_in_history;
                 fitted size ((if first then [] else cs ", ") ++ json)) st
           | [] =>
               emit buffer_size (fun size first =>
                 formatter size (mkConversationMessage (cs "user") (c :: u) None None false) first) st
           end
       | _ => Some st
       end;
  Some st.1.

(** ** The whole request *)

(** A member whose value is printed text; [cJSON_CreateRaw] prints it as it is. *)
Definition print_members (members : list (cstr * cstr)) : option cstr :=
  texts ← mapM (fun m => k ← cJSON_PrintUnformatted (JString m.1); Some (k ++ ":" :: m.2)) members;
  Some ("{" :: commas texts ++ ["}"]).

Definition text_block (text : cstr) (cached : bool) : cJSON :=
  JObject ([(cs "type", JString (cs "text")); (cs "text", JString text)]
           ++ if cached then [(cs "cache_control", JObject [(cs "type", JString (cs "ephemeral"))])] else []).

Definition nonempty (s : option cstr) : option cstr := match s with Some (c :: t) => Some (c :: t) | _ => None end.

Definition system_blocks (system_prompt : option SystemPromptParts) : list cJSON :=
  match system_prompt with
  | Some p =>
      match nonempty (base_prompt p) with Some b => [text_block b true] | None => [] end
      ++ match nonempty (dynamic_context p) with Some d => [text_block d false] | None => [] end
  | None => []
  end.

(** The last tool of the list gets the cache mark. *)
Fixpoint cache_last_tool (tools : list cJSON) : list cJSON :=
  match tools with
  | [] => []
  | [t] => [cJSON_AddItemToObject t (cs "cache_control") (JObject [(cs "type", JString (cs "ephemeral"))])]
  | t :: tools' => t :: cache_last_tool tools'
  end.

Definition printed (key : string) (v : cJSON) : option (cstr * cstr) :=
  t ← cJSON_PrintUnformatted v; Some (cs key, t).

(** [tools]: the parsed definitions of the tools, when there are any. *)
Definition build_json_payload_common (images : list ImageAttachment) (model : cstr)
    (system_prompt : option SystemPromptParts) (conversation : ConversationHistory) (user_message : option cstr)
    (max_tokens_param : option cstr) (max_tokens : Z) (tools : option cJSON)
    (formatter : Z -> ConversationMessage -> bool -> option cstr) (system_at_top_level : bool) : option cstr :=
  let msg_prompt := if system_at_top_level then None else system_prompt in
  let msg_buf_size := calculate_messages_buffer_size images msg_prompt conversation user_message in
  messages ← build_messages_json images msg_buf_size msg_prompt conversation user_message formatter system_at_top_level;
  model_member ← printed "model" (JString model);
  system_member ← (if system_at_top_level then
                     match system_blocks system_prompt with
                     | [] => Some []
                     | blocks => m ← printed "system" (JArray blocks); Some [m]
                     end
                   else Some []);
  limit_member ← match max_tokens_param with
                 | Some param => if (0 <? max_tokens)%Z then
                                   t ← cJSON_PrintUnformatted (JNumber max_tokens); Some [(param, t)]
                                 else Some []
                 | None => Some []
                 end;
  tools_member ← match tools with
                 | None => Some []
                 | Some (JArray l) =>
                     m ← printed "tools" (JArray (if system_at_top_level then cache_last_tool l else l)); Some [m]
                 | Some t => m ← printed "tools" t; Some [m]
                 end;
  print_members (model_member :: (cs "messages", "[" :: messages ++ ["]"]) :: system_member ++ limit_member ++ tools_member).
End Messages.
