(* ===== verification/ApiFacts.v ===== *)
(** * Requests to the model: theorems

    The text of the messages and when it fits its buffer; a conversation that no
    request can carry. *)

From S2P Require Import Prelude CString Json ToolArgs ApprovalErrors Providers Conversation TokenManager ApiMessages.
Local Open Scope char_scope.
Local Open Scope bool_scope.

(** ** What cJSON prints *)

(** The escapes of cJSON: short ones, and \u00xx for the other control
    characters. *)
Definition cjson_escape (c : ascii) : cstr :=
  if Ascii.eqb c JQ || Ascii.eqb c "\" then ["\"; c]
  else if Ascii.eqb c "008" then ["\"; "b"]
  else if Ascii.eqb c "009" then ["\"; "t"]
  else if Ascii.eqb c "010" then ["\"; "n"]
  else if Ascii.eqb c "012" then ["\"; "f"]
  else if Ascii.eqb c "013" then ["\"; "r"]
  else if (N_of_ascii c <? 32)%N
  then ["\"; "u"; "0"; "0"; hex_digit (N_of_ascii c / 16); hex_digit (N_of_ascii c mod 16)]
  else [c].

Definition escaped (s : cstr) : cstr := flat_map cjson_escape s.
Definition json_string (s : cstr) : cstr := JQ :: escaped s ++ [JQ].

(** Documents of strings, arrays and objects. *)
Fixpoint json_text (n : nat) (j : cJSON) : option cstr :=
  match j with
  | JString s => Some (json_string s)
  | JArray l =>
      match n with
      | O => None
      | S n' => items ← mapM (json_text n') l; Some ("[" :: commas items ++ ["]"])
      end
  | JObject l =>
      match n with
      | O => None
      | S n' =>
          items ← mapM (fun m => v ← json_text n' m.2; Some (json_string m.1 ++ ":" :: v)) l;
          Some ("{" :: commas items ++ ["}"])
      end
  | _ => None
  end.

(** [cJSON_PrintUnformatted] writes no blanks and escapes as above. *)
Class CJsonText (J : CJson) : Prop :=
  print_text j t : json_text CJSON_NESTING_LIMIT j = Some t -> cJSON_PrintUnformatted j = Some t.

Definition TextJson : CJson := {|
  cJSON_Parse := ref_parse;
  cJSON_GetObjectItem j k := match j with JObject l => find_member l k | _ => None end;
  cJSON_GetObjectItemCaseSensitive j k := match j with JObject l => find_member_cs l k | _ => None end;
  cJSON_PrintUnformatted := json_text CJSON_NESTING_LIMIT;
  cJSON_AddItemToObject j k v := match j with JObject l => JObject (l ++ [(k, v)]) | _ => j end;
  cJSON_DeleteItemFromObject j k := match j with JObject l => JObject (remove_member l k) | _ => j end
|}.

Lemma TextJson_text : CJsonText TextJson.
Proof. by intros j t. Qed.

Lemma escaped_long s : (length s <= length (escaped s))%nat.
Proof.
  induction s as [|c s IH]; [done|]. cbn [escaped flat_map length]. rewrite length_app. fold (escaped s).
  assert (1 <= length (cjson_escape c))%nat; [|lia]. unfold cjson_escape. repeat case_match; cbn; lia.
Qed.

(** ** The text of the messages *)

Definition joined (texts : list cstr) : cstr :=
  match texts with [] => [] | t :: ts => t ++ concat (map (fun t => cs ", " ++ t) ts) end.

Section Emit.
Context {J : CJson} (json : ConversationMessage -> option cstr).

Definition after_text (st : cstr * bool) (texts : list cstr) : cstr :=
  if st.2 then st.1 ++ joined texts else st.1 ++ concat (map (fun t => cs ", " ++ t) texts).

(** Every message is written and the whole fits, or nothing is answered. *)
Lemma emit_all_exact size messages texts st :
  (strlen st.1 <= size < 2 ^ 31)%Z -> Forall2 (fun m t => json m = Some t) messages texts ->
  emit_all size (format_with json) messages st =
    match texts with
    | [] => Some st
    | _ => if (strlen (after_text st texts) <? size)%Z then Some (after_text st texts, false) else None
    end.
Proof.
  intros Hs Ht. revert st Hs. induction Ht as [|m t ms ts Hm Ht IH]; intros [buffer first] Hs; [done|].
  cbn [emit_all fst snd] in *. unfold emit, format_with. rewrite Hm. cbn [mbind option_bind fst snd].
  unfold fitted, strlen in *. rewrite wrap32_small by lia.
  set (piece := (if first then [] else cs ", ") ++ t).
  assert (after_text (buffer, first) (t :: ts) = buffer ++ piece ++ concat (map (fun t => cs ", " ++ t) ts)) as Ea.
  { unfold after_text, piece, joined. cbn [fst snd map concat]. destruct first; cbn [app]; by rewrite <- ?app_assoc. }
  rewrite Ea. destruct (Z.ltb_spec (Z.of_nat (length piece)) (size - Z.of_nat (length buffer))) as [Hlt|Hge]; cbn [mbind option_bind].
  - rewrite IH by (cbn; unfold strlen; rewrite length_app; lia).
    destruct ts as [|t' ts'].
    + cbn [map concat]. rewrite app_nil_r. rewrite length_app.
      destruct (Z.ltb_spec (Z.of_nat (length buffer + length piece)) size); [done|lia].
    + unfold after_text at 1 2. cbn [fst snd]. unfold strlen. by rewrite app_assoc.
  - destruct (Z.ltb_spec (Z.of_nat (length (buffer ++ piece ++ concat (map (fun t => cs ", " ++ t) ts)))) size) as [Hlt|]; [|done].
    exfalso. rewrite !length_app in Hlt. clearbody piece. lia.
Qed.

(** The messages of a request, the user's at the end. *)
Definition request_messages (system_prompt : option SystemPromptParts) (conversation : ConversationHistory)
    (user_message : option cstr) (skip : bool) : list ConversationMessage :=
  system_messages system_prompt skip ++ history_messages conversation skip
  ++ match user_message with Some (c :: u) => [mkConversationMessage (cs "user") (c :: u) None None false] | _ => [] end.

Lemma build_messages_exact size system_prompt conversation user_message skip texts :
  (0 < size < 2 ^ 31)%Z ->
  Forall2 (fun m t => json m = Some t) (request_messages system_prompt conversation user_message skip) texts ->
  build_messages_json [] size system_prompt conversation user_message (format_with json) skip =
    if (strlen (joined texts) <? size)%Z then Some (joined texts) else None.
Proof.
  intros Hs Ht. unfold request_messages in Ht. rewrite app_assoc in Ht. apply Forall2_app_inv_l in Ht as (t1 & t2 & H1 & H2 & ->).
  unfold build_messages_json. rewrite (emit_all_exact size _ t1) by (done || (unfold strlen; cbn [fst length]; lia)).
  destruct user_message as [[|c u]|].
  - apply Forall2_nil_inv_l in H2 as ->. rewrite app_nil_r. destruct t1 as [|x t1]; cbn [mbind option_bind fst snd].
    + unfold strlen, joined. cbn [length]. destruct (Z.ltb_spec (Z.of_nat 0) size); [reflexivity|lia].
    + unfold after_text. cbn [fst snd app]. by destruct (_ <? _)%Z.
  - apply Forall2_cons_inv_l in H2 as (t & ? & Hm & Hnil & ->). apply Forall2_nil_inv_l in Hnil as ->.
    set (um := mkConversationMessage (cs "user") (c :: u) None None false) in *.
    assert (forall st, (strlen st.1 <= size)%Z -> emit size (fun size first => format_with json size um first) st =
              if (strlen (after_text st [t]) <? size)%Z then Some (after_text st [t], false) else None) as He.
    { intros st Hst. pose proof (emit_all_exact size [um] [t] st ltac:(lia) ltac:(repeat constructor; done)) as E.
      cbn [emit_all] in E. destruct (emit size _ st) as [st'|]; [cbn in E|]; by rewrite <- E. }
    destruct t1 as [|x t1].
    + cbn [mbind option_bind]. rewrite He by (unfold strlen; cbn [fst length]; lia). unfold after_text. cbn [fst snd app].
      by destruct (_ <? _)%Z.
    + assert (joined ((x :: t1) ++ [t]) = after_text ([], true) (x :: t1) ++ cs ", " ++ t) as Ej.
      { unfold after_text, joined. cbn [fst snd app]. rewrite map_app, concat_app. cbn. by rewrite app_nil_r, <- !app_assoc. }
      rewrite Ej. set (b := after_text ([], true) (x :: t1)) in *. clearbody b.
      destruct (Z.ltb_spec (strlen b) size) as [Hlt|Hge]; cbn [mbind option_bind].
      * rewrite He by (cbn [fst]; lia). unfold after_text. cbn [fst snd map concat]. rewrite app_nil_r.
        by destruct (_ <? _)%Z.
      * destruct (Z.ltb_spec (strlen (b ++ cs ", " ++ t)) size) as [Hlt|]; [|done]. unfold strlen in *.
        rewrite length_app in Hlt. lia.
  - apply Forall2_nil_inv_l in H2 as ->. rewrite app_nil_r. destruct t1 as [|x t1]; cbn [mbind option_bind fst snd].
    + unfold strlen, joined. cbn [length]. destruct (Z.ltb_spec (Z.of_nat 0) size); [reflexivity|lia].
    + unfold after_text. cbn [fst snd app]. by destruct (_ <? _)%Z.
Qed.
End Emit.

(** A message that is longer than the buffer stops the request, whatever is
    around it. *)
Lemma emit_all_too_long size json m t messages st :
  (strlen st.1 <= size < 2 ^ 31)%Z -> In m messages -> json m = Some t -> (size <= strlen t)%Z ->
  emit_all size (format_with json) messages st = None.
Proof.
  intros Hs Hin Hm Ht. revert st Hs. induction messages as [|m' messages IH]; [done|]. intros [buffer first] Hs.
  cbn [emit_all]. unfold emit, format_with. cbn [fst snd] in *. unfold fitted, strlen in *. rewrite wrap32_small by lia.
  destruct Hin as [->|Hin].
  - rewrite Hm. cbn [mbind option_bind]. rewrite (proj2 (Z.ltb_ge _ _)); [done|]. rewrite length_app. lia.
  - destruct (json m') as [t'|]; [|done]. cbn [mbind option_bind].
    destruct (Z.ltb_spec (Z.of_nat (length ((if first then [] else cs ", ") ++ t'))) (size - Z.of_nat (length buffer)))
      as [Hlt|]; [|done].
    cbn [mbind option_bind]. apply (IH Hin). cbn [fst]. rewrite length_app. lia.
Qed.

Lemma history_messages_in m conversation skip :
  In m conversation -> streq (cv_role m) (cs "system") = false -> In m (history_messages conversation skip).
Proof. intros Hin Hr. unfold history_messages. apply filter_In. split; [done|]. rewrite Hr. by destruct skip. Qed.

Lemma escaped_app a b : escaped (a ++ b) = escaped a ++ escaped b.
Proof. apply flat_map_app. Qed.

(** The two formats of a server. *)
Definition message_json_of {J : CJson} (anthropic : bool) : ConversationMessage -> option cstr :=
  if anthropic then anthropic_message_json else openai_message_json.

Definition plain_text (m : ConversationMessage) : bool := is_user m || is_tool m.

Ltac length_bound := repeat (rewrite ?length_app; progress cbn [length app]); rewrite ?length_app; lia.

Lemma user_is_not_assistant m : is_user m = true -> is_assistant m = false.
Proof. unfold is_user, is_assistant. intros H. apply streq_true in H as ->. reflexivity. Qed.

Lemma plain_not_system m : plain_text m = true -> streq (cv_role m) (cs "system") = false.
Proof.
  unfold plain_text, is_user, is_tool. intros [H|H]%orb_true_iff; apply streq_true in H as ->; reflexivity.
Qed.

Lemma buffer_size_nonneg images system_prompt conversation user_message :
  (0 <= calculate_messages_buffer_size images system_prompt conversation user_message)%Z.
Proof.
  unfold calculate_messages_buffer_size.
  assert (forall (h : ConversationHistory),
            0 <= foldr (fun m n => strlen (cv_role m) + strlen (cv_content m) * 2 + 100 + n) 0 h)%Z as Hh.
  { induction h as [|m h IH]; cbn; unfold strlen in *; lia. }
  assert (forall l, 0 <= foldr (fun i n => strlen (base64_data i) + 256 + n) 0 l)%Z as Hi.
  { induction l as [|i l IH]; cbn; unfold strlen in *; lia. }
  specialize (Hh conversation). specialize (Hi images). unfold strlen in *.
  repeat case_match; lia.
Qed.

Lemma plain_json_long {J : CJson} {HJ : CJsonText J} anthropic m :
  plain_text m = true ->
  exists t, message_json_of anthropic m = Some t /\ (length (escaped (cv_content m)) <= length t)%nat.
Proof.
  unfold plain_text, message_json_of. intros Hp.
  assert (forall role content, exists t, build_simple_message_json role content = Some t
            /\ (length (escaped content) <= length t)%nat) as Hsimple.
  { intros role content. eexists. split; [apply print_text; reflexivity|].
    unfold commas, json_string. cbn [fst snd]. length_bound. }
  destruct anthropic.
  - unfold anthropic_message_json. destruct (is_tool m) eqn:Et.
    + destruct (cv_tool_call_id m) as [id|]; (eexists; split; [apply print_text; reflexivity|]);
        unfold commas, json_string; cbn [fst snd]; length_bound.
    + rewrite orb_false_r in Hp. rewrite (user_is_not_assistant m Hp). apply Hsimple.
  - unfold openai_message_json. destruct (is_tool m) eqn:Et.
    + destruct (Hsimple (cs "system") (tool_as_system (default (cs "unknown") (cv_tool_name m)) (cv_content m)))
        as (t & Ht & Hl).
      exists t. split; [done|]. etransitivity; [|exact Hl]. unfold tool_as_system.
      change (NL :: cv_content m) with ([NL] ++ cv_content m). rewrite !escaped_app, !length_app. lia.
    + rewrite orb_false_r in Hp. rewrite (user_is_not_assistant m Hp). apply Hsimple.
Qed.

(** ** What no request can carry *)

(** When a message of the user or of a tool, once escaped, is as long as
    the buffer that [calculate_messages_buffer_size] computes, no request can be
    built from the conversation any more, for either server: the size counts two
    bytes for a byte of the message, and a control character becomes six. *)
Theorem control_characters_block_requests (J : CJson) (HJ : CJsonText J) (anthropic : bool) images model system_prompt
    conversation user_message param max_tokens tools m :
  let size := calculate_messages_buffer_size images (if anthropic then None else system_prompt) conversation user_message in
  In m conversation -> plain_text m = true ->
  (size < 2 ^ 31)%Z -> (size <= strlen (escaped (cv_content m)))%Z ->
  build_json_payload_common images model system_prompt conversation user_message param max_tokens tools
    (if anthropic then format_anthropic_message else format_openai_message) anthropic = None.
Proof.
  intros size Hin Hp Hmax Hsize. unfold build_json_payload_common. fold size. unfold build_messages_json.
  destruct (plain_json_long anthropic m Hp) as (t & Ht & Hl).
  assert (0 <= size)%Z as Hpos by apply buffer_size_nonneg.
  replace (if anthropic then format_anthropic_message else format_openai_message)
    with (format_with (message_json_of anthropic)) by by destruct anthropic.
  rewrite (emit_all_too_long size _ m t); [done| | |done|].
  - unfold strlen. cbn [fst length]. lia.
  - apply in_or_app. right. by apply history_messages_in; [|apply plain_not_system].
  - unfold strlen in *. lia.
Qed.

Lemma control_characters_block_requests_witness :
  let m := mkConversationMessage (cs "tool") (repeat "027" 100) (Some (cs "id")) (Some (cs "shell")) false in
  build_json_payload_common [] (cs "gpt") None [m] (Some (cs "go on")) None 0 None (@format_openai_message TextJson) false
    (J := TextJson) = None.
Proof.
  intros m.
  apply (control_characters_block_requests TextJson TextJson_text false [] (cs "gpt") None [m] (Some (cs "go on"))
           None 0 None m).
  - by left.
  - reflexivity.
  - vm_compute. reflexivity.
  - vm_compute. discriminate.
Defined.
