(* ===== verification/ToolFormat.v ===== *)
(** * Tool definitions and tool calls on the wire (lib/tools/tool_format.h,
    tool_format_openai.c, tool_format_anthropic.c)

    The two servers' descriptions of the registered tools, and the scans that
    find the calls of an answer in its text. [None] where a result is optional
    in the C code stands for NULL; the scans answer [OutOfBounds] for a read past
    the text, and [Spinning] when their fuel, a position per step, is used up. *)

From S2P Require Import Prelude CString Json ToolArgs ApprovalErrors ToolBatch TokenManager ApiMessages.
Local Open Scope char_scope.
Local Open Scope bool_scope.

(** ** The registry *)

Record ToolParameter := mkParameter {
  tp_name : cstr;
  tp_type : cstr;
  tp_description : cstr;
  tp_enum : list cstr;
  tp_required : bool;
  tp_items_schema : option cstr
}.

Record ToolFunction := mkFunction {
  tf_name : cstr;
  tf_description : cstr;
  tf_parameters : list ToolParameter
}.

Section Formats.
Context {J : CJson}.

(** ** Descriptions of tools *)

Definition sum_over {A} (f : A -> Z) (l : list A) : Z := foldr (fun x n => f x + n)%Z 0%Z l.

Definition parameter_size (p : ToolParameter) : Z :=
  (strlen (tp_name p) + strlen (tp_type p) + strlen (tp_description p) + 100
   + sum_over (fun e => strlen e + 10) (tp_enum p)
   + match tp_items_schema p with Some s => strlen s + 20 | None => 0 end)%Z.

Definition openai_tools_size (functions : list ToolFunction) : Z :=
  (2 * (2 + 2 * (Z.of_nat (length functions) - 1)
        + sum_over (fun f => strlen (tf_name f) + strlen (tf_description f) + 200 + sum_over parameter_size (tf_parameters f))
            functions))%Z.

(** Texts written one after another while they fit. *)
Fixpoint put_all (size : Z) (buffer : cstr) (texts : list cstr) : option cstr :=
  match texts with
  | [] => Some buffer
  | t :: texts' => buffer ← put size buffer t; put_all size buffer texts'
  end.

Definition comma (first : bool) : list cstr := if first then [] else [cs ", "].

Fixpoint quoted_list (first : bool) (l : list cstr) : list cstr :=
  match l with
  | [] => []
  | x :: l' => comma first ++ [JQ :: x ++ [JQ]] ++ quoted_list false l'
  end.

(** The pieces written for a parameter. *)
Definition openai_parameter (first : bool) (p : ToolParameter) : option (list cstr) :=
  desc ← json_escape_string (Some (tp_description p));
  Some (comma first
        ++ [JQ :: tp_name p ++ JQ :: cs ": {" ++ quoted "type" ++ cs ": " ++ JQ :: tp_type p ++ JQ :: cs ", "
            ++ quoted "description" ++ cs ": " ++ JQ :: desc ++ [JQ]]
        ++ (if streq (tp_type p) (cs "array") then
              match tp_items_schema p with
              | Some schema => [cs ", " ++ quoted "items" ++ cs ": " ++ schema]
              | None => [cs ", " ++ quoted "items" ++ cs ": {" ++ quoted "type" ++ cs ": " ++ quoted "object" ++ cs "}"]
              end
            else [])
        ++ match tp_enum p with
           | [] => []
           | values => (cs ", " ++ quoted "enum" ++ cs ": [") :: quoted_list true values ++ [cs "]"]
           end
        ++ [cs "}"]).

Fixpoint openai_parameters (first : bool) (ps : list ToolParameter) : option (list cstr) :=
  match ps with
  | [] => Some []
  | p :: ps' => a ← openai_parameter first p; b ← openai_parameters false ps'; Some (a ++ b)
  end.

Definition required_names (ps : list ToolParameter) : list cstr := map tp_name (List.filter tp_required ps).

Definition openai_function (first : bool) (f : ToolFunction) : option (list cstr) :=
  desc ← json_escape_string (Some (tf_description f));
  params ← match tf_parameters f with
           | [] => Some []
           | ps =>
               texts ← openai_parameters true ps;
               Some ([cs ", " ++ quoted "parameters" ++ cs ": {" ++ quoted "type" ++ cs ": " ++ quoted "object" ++ cs ", "
                      ++ quoted "properties" ++ cs ": {"]
                     ++ texts ++ [cs "}, " ++ quoted "required" ++ cs ": ["] ++ quoted_list true (required_names ps)
                     ++ [cs "]}"])
           end;
  Some (comma first
        ++ [cs "{" ++ quoted "type" ++ cs ": " ++ quoted "function" ++ cs ", " ++ quoted "function" ++ cs ": {"
            ++ quoted "name" ++ cs ": " ++ JQ :: tf_name f ++ JQ :: cs ", " ++ quoted "description" ++ cs ": "
            ++ JQ :: desc ++ [JQ]]
        ++ params ++ [cs "}}"]).

Fixpoint openai_functions (first : bool) (fs : list ToolFunction) : option (list cstr) :=
  match fs with
  | [] => Some []
  | f :: fs' => a ← openai_function first f; b ← openai_functions false fs'; Some (a ++ b)
  end.

Definition openai_generate_tools_json (functions : list ToolFunction) : option cstr :=
  match functions with
  | [] => None
  | _ => texts ← openai_functions true functions; put_all (openai_tools_size functions) [] ([cs "["] ++ texts ++ [cs "]"])
  end.

Definition anthropic_property (p : ToolParameter) : cstr * cJSON :=
  (tp_name p,
   JObject ([(cs "type", JString (tp_type p)); (cs "description", JString (tp_description p))]
            ++ (if streq (tp_type p) (cs "array") then [(cs "items", JObject [(cs "type", JString (cs "object"))])] else [])
            ++ match tp_enum p with [] => [] | values => [(cs "enum", JArray (map JString values))] end)).

Definition anthropic_tool (f : ToolFunction) : cJSON :=
  JObject [(cs "name", JString (tf_name f)); (cs "description", JString (tf_description f));
           (cs "input_schema", JObject
              ([(cs "type", JString (cs "object"))]
               ++ match tf_parameters f with
                  | [] => []
                  | ps => [(cs "properties", JObject (map anthropic_property ps))]
                          ++ match required_names ps with
                             | [] => []
                             | names => [(cs "required", JArray (map JString names))]
                             end
                  end))].

Definition anthropic_generate_tools_json (functions : list ToolFunction) : option cstr :=
  match functions with [] => None | _ => cJSON_PrintUnformatted (JArray (map anthropic_tool functions)) end.

(** ** Members of a text *)

Definition tool_format_extract_string (json : cstr) (key : string) : option cstr :=
  json_obj ← cJSON_Parse json; cJSON_IsString (cJSON_GetObjectItem json_obj (cs key)).

Definition tool_format_extract_object (json : cstr) (key : string) : option cstr :=
  json_obj ← cJSON_Parse json; item ← cJSON_GetObjectItem json_obj (cs key); cJSON_PrintUnformatted item.

(** ** Results *)

Definition openai_format_tool_result (result : ToolResult) : option cstr :=
  id ← tr_call_id result; content ← tr_result result;
  cJSON_PrintUnformatted (JObject [(cs "role", JString (cs "tool")); (cs "tool_call_id", JString id);
                                   (cs "content", JString content)]).

Definition anthropic_format_tool_result (result : ToolResult) : option cstr :=
  id ← tr_call_id result; content ← tr_result result;
  cJSON_PrintUnformatted (JObject [(cs "type", JString (cs "tool_result")); (cs "tool_use_id", JString id);
                                   (cs "content", JString content)]).

(** ** Calls in an answer *)

(** The return code and the calls, or how the scan goes wrong. *)
Inductive CallScan := Scanned (rc : Z) (calls : list ToolCall) | OutOfBounds | Spinning.

(** The text up to the brace that brings the count to zero, the rest, and the
    count at the end. *)
Fixpoint scan_braces (count : nat) (s : cstr) : cstr * cstr * nat :=
  match count, s with
  | O, _ => ([], s, O)
  | _, [] => ([], [], count)
  | S n, c :: s' =>
      let count' := if Ascii.eqb c "{" then S count else if Ascii.eqb c "}" then n else count in
      let '(a, b, m) := scan_braces count' s' in (c :: a, b, m)
  end.

(** The first pass counts the objects before the bracket. *)
Fixpoint count_objects (fuel : nat) (s : cstr) : option nat :=
  match fuel with
  | O => None
  | S fuel' =>
      match s with
      | [] => Some 0%nat
      | c :: s' =>
          if Ascii.eqb c "]" then Some 0%nat
          else if Ascii.eqb c "{" then S <$> count_objects fuel' (scan_braces 1 s').1.2
          else count_objects fuel' s'
      end
  end.

(** One object of the array: [None] when the call has no id or no name. *)
Definition openai_call (call_json : cstr) : option ToolCall :=
  let id := tool_format_extract_string call_json "id" in
  let function_obj := tool_format_extract_object call_json "function" in
  let name := function_obj ≫= fun f => tool_format_extract_string f "name" in
  let arguments := function_obj ≫= fun f => tool_format_extract_string f "arguments" in
  id ← id; name ← name;
  Some (mkToolCall id (Some name) (Some (default (cs "{}") arguments))).

Fixpoint skip_separators (s : cstr) : cstr :=
  match s with
  | c :: s' =>
      if Ascii.eqb c " " || Ascii.eqb c "009" || Ascii.eqb c "010" || Ascii.eqb c "013" || Ascii.eqb c "," then skip_separators s'
      else s
  | [] => []
  end.

(** The second pass reads [count] objects. *)
Fixpoint read_objects (fuel count : nat) (s : cstr) : CallScan :=
  match fuel with
  | O => Spinning
  | S fuel' =>
      match count, s with
      | O, _ | _, [] => Scanned 0 []
      | S count', c :: _ =>
          if Ascii.eqb c "]" then Scanned 0 []
          else
            match skip_separators s with
            | [] => OutOfBounds
            | c :: s' =>
                if Ascii.eqb c "{" then
                  let '(body, rest, depth) := scan_braces 1 s' in
                  if (depth =? 0)%nat then
                    match openai_call (c :: body) with
                    | None => Scanned (-1) []
                    | Some call =>
                        match read_objects fuel' count' rest with
                        | Scanned 0 calls => Scanned 0 (call :: calls)
                        | r => r
                        end
                    end
                  else Scanned (-1) []
                else read_objects fuel' count s'
            end
      end
  end.

(** The printed member, its string when it cannot be printed, or {}. *)
Definition call_arguments (call_json : cstr) (key : string) : cstr :=
  match tool_format_extract_object call_json key with
  | Some a => a
  | None => default (cs "{}") (tool_format_extract_string call_json key)
  end.

(** The call in a tag; the NULL of [strstr] for the end tag is an error. *)
Definition custom_call (json_start : cstr) : CallScan :=
  match strstr json_start (cs "</tool_call>") with
  | None => Scanned (-1) []
  | Some json_end =>
      let start := skip_space json_start in
      if (length start <? length json_end)%nat then OutOfBounds
      else
        let call_json := take (length start - length json_end) start in
        match tool_format_extract_string call_json "name" with
        | None => Scanned (-1) []
        | Some name =>
            Scanned 0 [mkToolCall (cs "custom_call_1") (Some name) (Some (call_arguments call_json "arguments"))]
        end
  end.

Definition openai_parse_tool_calls (json_response : cstr) : CallScan :=
  match strstr json_response (quoted "tool_calls" ++ [":"]) with
  | None =>
      match strstr json_response (cs "<tool_call>") with
      | None => Scanned 0 []
      | Some start => custom_call (drop 11 start)
      end
  | Some tool_calls_start =>
      match strchr tool_calls_start "[" with
      | None => Scanned (-1) []
      | Some array_start =>
          let s := drop 1 array_start in
          let fuel := S (length s) in
          match count_objects fuel s with
          | None => Spinning
          | Some O => Scanned 0 []
          | Some count => read_objects fuel count s
          end
      end
  end.

(** *** Anthropic *)

Definition TOOL_USE_SPACED : cstr := quoted "type" ++ cs ": " ++ quoted "tool_use".
Definition TOOL_USE_COMPACT : cstr := quoted "type" ++ cs ":" ++ quoted "tool_use".

Definition find_tool_use (s : cstr) : option cstr :=
  match strstr s TOOL_USE_SPACED with Some f => Some f | None => strstr s TOOL_USE_COMPACT end.

(** The number of marks; the step is the length of the spaced one. *)
Fixpoint count_tool_uses (fuel : nat) (pos : cstr) : option (option nat) :=
  match fuel with
  | O => None
  | S fuel' =>
      match find_tool_use pos with
      | None => Some (Some 0%nat)
      | Some found =>
          if (length found <? length TOOL_USE_SPACED)%nat then Some None
          else match count_tool_uses fuel' (drop (length TOOL_USE_SPACED) found) with
               | Some (Some n) => Some (Some (S n))
               | r => r
               end
      end
  end.

(** Braces after a backslash are not counted. *)
Fixpoint scan_escaped_braces (count : nat) (previous : ascii) (s : cstr) : cstr * cstr * nat :=
  match count, s with
  | O, _ => ([], s, O)
  | _, [] => ([], [], count)
  | S n, c :: s' =>
      let count' := if Ascii.eqb previous "\" then count
                    else if Ascii.eqb c "{" then S count else if Ascii.eqb c "}" then n else count in
      let '(a, b, m) := scan_escaped_braces count' c s' in (c :: a, b, m)
  end.

Definition anthropic_call (parsed_count : nat) (tool_obj : cstr) : option ToolCall :=
  let id := tool_format_extract_string tool_obj "id" in
  name ← tool_format_extract_string tool_obj "name";
  Some (mkToolCall (default (cs "anthropic_call_" ++ digits 10 (N.of_nat parsed_count) []) id) (Some name)
          (Some (call_arguments tool_obj "input"))).

(** [s]: the text from the content member on; [offset]: search_pos in it. *)
Fixpoint read_tool_uses (fuel tool_count parsed_count : nat) (s : cstr) (offset : nat) : option (list ToolCall) :=
  match fuel with
  | O => None
  | S fuel' =>
      if (tool_count <=? parsed_count)%nat then Some []
      else
        match find_tool_use (drop offset s) with
        | None => Some []
        | Some tool_use =>
            let position := (length s - length tool_use)%nat in
            match strrchr (take position s) "{" with
            | None => read_tool_uses fuel' tool_count parsed_count s (S position)
            | Some before =>
                let obj_start := (position - length before)%nat in
                let '(body, rest, depth) := scan_escaped_braces 1 "{" (drop (S obj_start) s) in
                if (depth =? 0)%nat then
                  let obj_end := (length s - length rest)%nat in
                  match anthropic_call parsed_count ("{" :: body) with
                  | None => read_tool_uses fuel' tool_count parsed_count s obj_end
                  | Some call => cons call <$> read_tool_uses fuel' tool_count (S parsed_count) s obj_end
                  end
                else read_tool_uses fuel' tool_count parsed_count s (S position)
            end
        end
  end.

Definition anthropic_parse_tool_calls (json_response : cstr) : CallScan :=
  match strstr json_response (quoted "content" ++ [":"]) with
  | None => Scanned 0 []
  | Some content_array =>
      let fuel := S (length content_array) in
      match count_tool_uses fuel content_array with
      | None => Spinning
      | Some None => OutOfBounds
      | Some (Some O) => Scanned 0 []
      | Some (Some tool_count) =>
          match read_tool_uses fuel tool_count 0 content_array 0 with
          | None => Spinning
          | Some calls => Scanned 0 calls
          end
      end
  end.

(** ** By model *)

Definition parse_model_tool_calls (registry : list ModelCapabilities) (model_name : option cstr) (json_response : cstr) : CallScan :=
  match model_name ≫= detect_model_capabilities registry with
  | None => Scanned (-1) []
  | Some m =>
      match model_family m with
      | FamilyOpenAI => openai_parse_tool_calls json_response
      | FamilyAnthropic => anthropic_parse_tool_calls json_response
      | FamilyNone => Scanned (-1) []
      end
  end.

Definition generate_model_tools_json (registry : list ModelCapabilities) (model_name : option cstr)
    (functions : list ToolFunction) : option cstr :=
  m ← model_name ≫= detect_model_capabilities registry;
  match model_family m with
  | FamilyOpenAI => openai_generate_tools_json functions
  | FamilyAnthropic => anthropic_generate_tools_json functions
  | FamilyNone => None
  end.
End Formats.
