(* ===== verification/ToolFormatFacts.v ===== *)
(** * Tool calls on the wire: theorems

    The scan of an OpenAI answer stays inside its text and reads back the calls
    of a printed answer, when the braces of every call balance; a brace in a
    string loses them. The scan of an Anthropic answer may leave the text. *)

From S2P Require Import Prelude CString Json ToolArgs ApprovalErrors ToolBatch TokenManager ApiMessages ToolFormat.
Local Open Scope char_scope.
Local Open Scope bool_scope.

(** ** Braces *)

Lemma scan_braces_split count s a b m : scan_braces count s = (a, b, m) -> s = a ++ b /\ (m = 0%nat \/ b = []).
Proof.
  revert count a m. induction s as [|c s IH]; intros [|count] a m; cbn [scan_braces].
  - intros [= <- <- <-]. by split; [|left].
  - intros [= <- <- <-]. by split; [|right].
  - intros [= <- <- <-]. by split; [|left].
  - destruct (scan_braces _ s) as [[a' b'] m'] eqn:E. intros [= <- <- <-]. apply IH in E as [-> H]. done.
Qed.

Lemma scan_braces_app count s rest a :
  scan_braces count s = (a, [], 0%nat) -> scan_braces count (s ++ rest) = (s, rest, 0%nat).
Proof.
  revert count a. induction s as [|c s IH]; intros [|count] a; cbn [scan_braces app]; try done.
  { intros _. by destruct rest. }
  destruct (scan_braces _ s) as [[a' b'] m'] eqn:E. intros [= <- -> ->]. by rewrite (IH _ _ E).
Qed.

Lemma count_objects_fuel fuel s : (length s < fuel)%nat -> exists n, count_objects fuel s = Some n.
Proof.
  revert s. induction fuel as [|fuel IH]; intros s Hf; [lia|]. destruct s as [|c s]; cbn [count_objects length] in *; [by eexists|].
  destruct (Ascii.eqb c "]"); [by eexists|]. destruct (Ascii.eqb c "{"); [|apply IH; lia].
  destruct (scan_braces 1 s) as [[a b] m] eqn:E. cbn [fst snd]. apply scan_braces_split in E as [-> _].
  destruct (IH b) as [n ->]; [rewrite length_app in Hf; lia|]. by eexists.
Qed.

(** Separators do not change the count. *)
Definition is_separator (c : ascii) : bool :=
  Ascii.eqb c " " || Ascii.eqb c "009" || Ascii.eqb c "010" || Ascii.eqb c "013" || Ascii.eqb c ",".

Lemma skip_separators_split s :
  exists a, s = a ++ skip_separators s /\ forallb is_separator a = true /\
    match skip_separators s with [] => True | c :: _ => is_separator c = false end.
Proof.
  induction s as [|c s (a & E & Ha & Hs)]; [by exists []|]. cbn [skip_separators]. fold (is_separator c).
  destruct (is_separator c) eqn:Ec.
  - exists (c :: a). cbn [app forallb]. rewrite <- E, Ec. done.
  - by exists [].
Qed.

Lemma separator_not_mark c : is_separator c = true -> Ascii.eqb c "]" = false /\ Ascii.eqb c "{" = false.
Proof.
  unfold is_separator. rewrite !orb_true_iff. intros [[[[H|H]|H]|H]|H]; apply Ascii.eqb_eq in H as ->; done.
Qed.

Lemma count_objects_separators fuel a s :
  forallb is_separator a = true -> (length (a ++ s) < fuel)%nat ->
  exists fuel', (length s < fuel')%nat /\ (fuel' <= fuel)%nat /\ count_objects fuel (a ++ s) = count_objects fuel' s.
Proof.
  revert fuel. induction a as [|c a IH]; intros fuel Ha Hf; cbn [app] in *; [by exists fuel|].
  cbn [forallb] in Ha. apply andb_true_iff in Ha as [Hc Ha]. destruct fuel as [|fuel]; [cbn in Hf; lia|].
  destruct (separator_not_mark c Hc) as [H1 H2]. destruct (IH fuel Ha) as (f & Hl & Hle & E); [cbn [length] in Hf; lia|].
  exists f. split; [done|]. split; [lia|]. cbn [count_objects]. by rewrite H1, H2, E.
Qed.

Lemma count_objects_more f1 f2 s :
  (length s < f1)%nat -> (length s < f2)%nat -> count_objects f1 s = count_objects f2 s.
Proof.
  revert f2 s. induction f1 as [|f1 IH]; intros [|f2] s H1 H2; try lia. destruct s as [|c s]; cbn [count_objects length] in *; [done|].
  destruct (Ascii.eqb c "]"); [done|]. destruct (Ascii.eqb c "{"); [|apply IH; lia].
  destruct (scan_braces 1 s) as [[a b] m] eqn:E. cbn [fst snd]. apply scan_braces_split in E as [-> _].
  rewrite length_app in *. by rewrite (IH f2 b) by lia.
Qed.

Definition named (call : ToolCall) : Prop := is_Some (tc_name call).

Ltac no_calls rc := exists rc, []; split; [done|]; split; [by auto|]; split; [cbn; lia|by constructor].

Section OpenAI.
Context {J : CJson}.

Lemma openai_call_named t call : openai_call t = Some call -> named call.
Proof using Type.
  unfold openai_call. intros (id & _ & H)%bind_Some. apply bind_Some in H as (name & _ & [= <-]). by eexists.
Qed.

(** With the count of the first pass, the second pass ends inside the text. *)
Lemma read_objects_inside fuel count s :
  (length s < fuel)%nat -> count_objects fuel s = Some count ->
  exists rc calls, read_objects fuel count s = Scanned rc calls /\ (rc = 0%Z \/ rc = (-1)%Z /\ calls = []) /\
    (length calls <= count)%nat /\ Forall named calls.
Proof using Type.
  revert count s. induction fuel as [|fuel IH]; intros count s Hf Hc; [lia|].
  cbn [read_objects]. destruct count as [|count]; [no_calls 0%Z|].
  destruct s as [|c s]; [done|]. destruct (Ascii.eqb c "]") eqn:Eb; [no_calls 0%Z|].
  destruct (skip_separators_split (c :: s)) as (a & Ea & Hsep & Hnext).
  assert (exists f, (length (skip_separators (c :: s)) < f)%nat /\ (f <= S fuel)%nat /\
            count_objects f (skip_separators (c :: s)) = Some (S count)) as (f & Hl & Hle & Hcount).
  { rewrite Ea in Hc, Hf. destruct (count_objects_separators (S fuel) a _ Hsep Hf) as (f & H1 & H2 & H3).
    exists f. by rewrite <- H3. }
  destruct (skip_separators (c :: s)) as [|c' s']; [by destruct f|].
  assert (length s' <= length s)%nat as Hs'.
  { apply (f_equal length) in Ea. rewrite length_app in Ea. cbn [length] in Ea. lia. }
  cbn [length] in *. destruct f as [|f]; [lia|]. cbn [count_objects] in Hcount.
  destruct (Ascii.eqb c' "]"); [done|]. destruct (Ascii.eqb c' "{").
  - destruct (scan_braces 1 s') as [[body rest] depth] eqn:Es. cbn [fst snd] in Hcount.
    apply scan_braces_split in Es as [-> _]. rewrite length_app in *.
    destruct (count_objects f rest) as [n|] eqn:En; [|done]. injection Hcount as ->.
    destruct (depth =? 0)%nat; [|no_calls (-1)%Z].
    destruct (openai_call (c' :: body)) as [call|] eqn:Ecall; [|no_calls (-1)%Z].
    destruct (IH count rest) as (rc & calls & E & Hrc & Hn & Hnamed); [lia| |].
    { by rewrite (count_objects_more fuel f) by lia. }
    rewrite E. destruct Hrc as [->|[-> ->]].
    + exists 0%Z, (call :: calls). split; [done|]. split; [by left|]. split; [cbn; lia|]. constructor; [|done].
      by apply openai_call_named in Ecall.
    + no_calls (-1)%Z.
  - destruct (IH (S count) s') as (rc & calls & E & H); [lia| |by exists rc, calls].
    by rewrite (count_objects_more fuel f) by lia.
Qed.
End OpenAI.

(** ** Reading back *)

Section ReadBack.
Context {J : CJson} {JS : CJsonSpec J}.

Definition call_function (name arguments : cstr) : cJSON :=
  JObject [(cs "name", JString name); (cs "arguments", JString arguments)].

Definition call_document (id name arguments : cstr) : cJSON :=
  JObject [(cs "id", JString id); (cs "type", JString (cs "function")); (cs "function", call_function name arguments)].

(** The text of a call, and that its function member can be printed. *)
Definition call_text (call : cstr * cstr * cstr) (t : cstr) : Prop :=
  cJSON_PrintUnformatted (call_document call.1.1 call.1.2 call.2) = Some t /\
  is_Some (cJSON_PrintUnformatted (call_function call.1.2 call.2)).

Definition as_call (call : cstr * cstr * cstr) : ToolCall := mkToolCall call.1.1 (Some call.1.2) (Some call.2).

(** The first brace of the text is closed by its last character and no other. *)
Definition closes (t : cstr) : Prop := exists body, t = "{" :: body /\ scan_braces 1 body = (body, [], 0%nat).

Lemma call_function_ok n name arguments : json_ok (S n) (call_function name arguments).
Proof using Type. apply object_ok; [lia|]. repeat apply Forall_cons_2; by apply flat_ok || constructor. Qed.

Lemma call_document_ok n id name arguments : json_ok (S (S n)) (call_document id name arguments).
Proof using Type.
  apply object_ok; [lia|]. repeat apply Forall_cons_2; try (by apply flat_ok || constructor).
Qed.

Lemma openai_call_read call t : call_text call t -> openai_call t = Some (as_call call).
Proof using JS.
  destruct call as [[id name] arguments]. intros [Ht [f Hf]]. cbn [fst snd] in *.
  destruct (print_document _ _ (call_document_ok 998 id name arguments) Ht) as [Hp _].
  destruct (print_document _ _ (call_function_ok 999 name arguments) Hf) as [Hpf _].
  unfold openai_call, tool_format_extract_string, tool_format_extract_object. rewrite Hp. cbn [mbind option_bind].
  unfold call_document. rewrite !get_member. cbn [find_member].
  change (strcaseeq (cs "id") (cs "id")) with true. change (strcaseeq (cs "id") (cs "function")) with false.
  change (strcaseeq (cs "type") (cs "function")) with false. change (strcaseeq (cs "function") (cs "function")) with true.
  cbv iota. cbn [mbind option_bind cJSON_IsString]. rewrite Hf. cbn [mbind option_bind]. rewrite Hpf. cbn [mbind option_bind].
  unfold call_function. rewrite !get_member. cbn [find_member].
  change (strcaseeq (cs "name") (cs "name")) with true. change (strcaseeq (cs "name") (cs "arguments")) with false.
  change (strcaseeq (cs "arguments") (cs "arguments")) with true. reflexivity.
Qed.

(** The calls before the rest of a scan. *)
Definition prepend (calls : list ToolCall) (r : CallScan) : CallScan :=
  match r with Scanned 0 l => Scanned 0 (calls ++ l) | _ => r end.

Lemma prepend_app a b r : prepend a (prepend b r) = prepend (a ++ b) r.
Proof using Type. destruct r as [[|p|p] l| |]; cbn; by rewrite ?app_assoc. Qed.

Lemma read_objects_more f1 f2 count s :
  (length s < f1)%nat -> (length s < f2)%nat -> read_objects f1 count s = read_objects f2 count s.
Proof using Type.
  revert f2 count s. induction f1 as [|f1 IH]; intros [|f2] count s H1 H2; try lia. cbn [read_objects].
  destruct count as [|count]; [done|]. destruct s as [|c s]; [done|]. destruct (Ascii.eqb c "]"); [done|].
  destruct (skip_separators_split (c :: s)) as (a & Ea & _). destruct (skip_separators (c :: s)) as [|c' s']; [done|].
  apply (f_equal length) in Ea. rewrite length_app in Ea. cbn [length] in *.
  destruct (Ascii.eqb c' "{"); [|by apply IH; lia].
  destruct (scan_braces 1 s') as [[body rest] depth] eqn:Es. apply scan_braces_split in Es as [-> _].
  rewrite length_app in *. destruct (depth =? 0)%nat; [|done]. destruct (openai_call (c' :: body)); [|done].
  by rewrite (IH f2) by lia.
Qed.

(** One object, after a comma or not. *)
Lemma count_one fuel t r :
  closes t -> (length (t ++ r) < fuel)%nat -> count_objects fuel (t ++ r) = S <$> count_objects fuel r.
Proof using Type.
  intros (body & -> & Hb) Hf. destruct fuel as [|fuel]; [lia|]. cbn [count_objects app].
  rewrite (scan_braces_app _ _ r _ Hb). cbn [fst snd]. change (Ascii.eqb "{" "]") with false.
  change (Ascii.eqb "{" "{") with true. cbv iota. rewrite (count_objects_more fuel (S fuel)); [done|..];
    cbn [app length] in Hf; rewrite length_app in Hf; lia.
Qed.

Lemma read_one fuel n t r :
  closes t -> (length (t ++ r) < fuel)%nat ->
  read_objects fuel (S n) (t ++ r) =
    match openai_call t with Some call => prepend [call] (read_objects fuel n r) | None => Scanned (-1) [] end.
Proof using Type.
  intros (body & -> & Hb) Hf. destruct fuel as [|fuel]; [lia|].
  assert (read_objects (S fuel) n r = read_objects fuel n r) as ->.
  { cbn [app length] in Hf. rewrite length_app in Hf. apply read_objects_more; lia. }
  cbn [read_objects app]. change (Ascii.eqb "{" "]") with false. cbv iota.
  change (skip_separators ("{" :: body ++ r)) with ("{" :: body ++ r).
  cbv iota. change (Ascii.eqb "{" "{") with true. cbv iota. rewrite (scan_braces_app _ _ r _ Hb).
  change (0 =? 0)%nat with true. cbv iota. destruct (openai_call ("{" :: body)) as [call|]; [|done].
  by destruct (read_objects fuel n r) as [[|p|p] l| |].
Qed.

Lemma read_comma fuel n s :
  (S (length s) < fuel)%nat -> read_objects fuel n ("," :: "{" :: s) = read_objects fuel n ("{" :: s).
Proof using Type. intros Hf. destruct fuel as [|fuel]; [lia|]. by destruct n as [|n]. Qed.

(** Objects after one another. *)
Lemma read_texts fuel n calls texts r :
  Forall2 call_text calls texts -> Forall closes texts -> (length (commas texts ++ r) < fuel)%nat ->
  count_objects fuel (commas texts ++ r) = (fun k => length calls + k)%nat <$> count_objects fuel r /\
  read_objects fuel (length calls + n) (commas texts ++ r) = prepend (map as_call calls) (read_objects fuel n r).
Proof using JS.
  intros Ht. revert fuel. induction Ht as [|call t calls ts Hc Ht IH]; intros fuel Hcl Hf.
  { cbn [commas app length map Nat.add] in *. split; [by destruct (count_objects fuel r)|].
    by destruct (read_objects fuel n r) as [[|p|p] l| |]. }
  apply Forall_cons in Hcl as [Hcl Hcls]. cbn [commas length Nat.add map]. rewrite <- app_assoc.
  cbn [commas] in Hf. rewrite <- app_assoc in Hf.
  rewrite count_one, read_one by done. rewrite (openai_call_read call t Hc).
  set (rest := match ts with [] => [] | _ => "," :: commas ts end ++ r) in *.
  assert (length rest < fuel)%nat as Hr by (rewrite length_app in Hf; lia).
  assert (count_objects fuel rest = (fun k => length calls + k)%nat <$> count_objects fuel r /\
          read_objects fuel (length calls + n) rest = prepend (map as_call calls) (read_objects fuel n r)) as [Ec Er].
  { destruct ts as [|t' ts'].
    - apply Forall2_nil_inv_r in Ht as ->. change rest with r. cbn [length map Nat.add] in *. split; [by destruct (count_objects fuel r)|].
      by destruct (read_objects fuel n r) as [[|p|p] l| |].
    - destruct (IH fuel Hcls) as [Ec Er]; [unfold rest in Hr; cbn [app length] in Hr; lia|].
      unfold rest in *. cbn [app] in *. destruct fuel as [|fuel]; [lia|]. cbn [length] in Hr.
      split.
      + rewrite <- Ec. transitivity (count_objects fuel (commas (t' :: ts') ++ r)); [done|]. apply count_objects_more; lia.
      + rewrite <- Er. apply Forall_cons in Hcls as [(body & -> & _) _]. cbn [commas app length] in *.
        apply read_comma. lia. }
  rewrite Ec, Er, prepend_app. split; [|done]. by destruct (count_objects fuel r).
Qed.
End ReadBack.

(** ** Tags *)

Lemma skip_space_keeps s needle e c rest :
  needle = c :: rest -> (Ascii.eqb c " " || Ascii.eqb c "009" || Ascii.eqb c "010" || Ascii.eqb c "013") = false ->
  strstr s needle = Some e -> (length e <= length (skip_space s))%nat.
Proof.
  intros -> Hc. revert e. induction s as [|x s IH]; intros e; [done|]. cbn [strstr skip_space].
  destruct (has_prefix (c :: rest) (x :: s)) eqn:Ep.
  - intros [= <-]. cbn [has_prefix] in Ep. apply andb_true_iff in Ep as [Ep _]. apply Ascii.eqb_eq in Ep as <-.
    by rewrite Hc.
  - intros He. destruct (Ascii.eqb x " " || _ || _ || _); [by apply IH|]. apply strstr_Some in He as (a & b & -> & _).
    cbn [length]. rewrite length_app. lia.
Qed.

Lemma scan_escaped_app count previous s rest a :
  scan_escaped_braces count previous s = (a, [], 0%nat) ->
  scan_escaped_braces count previous (s ++ rest) = (s, rest, 0%nat).
Proof.
  revert count previous a. induction s as [|c s IH]; intros [|count] previous a; cbn [scan_escaped_braces app]; try done.
  { intros _. by destruct rest. }
  destruct (scan_escaped_braces _ c s) as [[a' b'] m'] eqn:E. intros [= <- -> ->]. by rewrite (IH _ _ _ E).
Qed.

Definition TOOL_CALLS_MARK : cstr := quoted "tool_calls" ++ [":"].

Lemma parse_marked {J : CJson} pre post :
  strstr (pre ++ TOOL_CALLS_MARK ++ "[" :: post) TOOL_CALLS_MARK = Some (TOOL_CALLS_MARK ++ "[" :: post) ->
  openai_parse_tool_calls (pre ++ TOOL_CALLS_MARK ++ "[" :: post) =
    match count_objects (S (length post)) post with
    | None => Spinning
    | Some O => Scanned 0 []
    | Some count => read_objects (S (length post)) count post
    end.
Proof.
  intros Hm. unfold openai_parse_tool_calls. fold TOOL_CALLS_MARK. rewrite Hm.
  change (strchr (TOOL_CALLS_MARK ++ "[" :: post) "[") with (Some ("[" :: post)). done.
Qed.

Ltac scanned_none rc := exists rc, []; split; [reflexivity|]; split; [first [by left | by right]|constructor].

(** *** Names *)

Lemma read_objects_named {J : CJson} fuel count s rc calls :
  read_objects fuel count s = Scanned rc calls -> Forall named calls.
Proof.
  revert count s rc calls. induction fuel as [|fuel IH]; intros count s rc calls; [done|]. cbn [read_objects].
  destruct count as [|count]; [intros [= _ <-]; constructor|]. destruct s as [|c s]; [intros [= _ <-]; constructor|].
  destruct (Ascii.eqb c "]"); [intros [= _ <-]; constructor|]. destruct (skip_separators (c :: s)) as [|c' s']; [done|].
  destruct (Ascii.eqb c' "{"); [|apply IH]. destruct (scan_braces 1 s') as [[body rest] depth].
  destruct (depth =? 0)%nat; [|intros [= _ <-]; constructor].
  destruct (openai_call (c' :: body)) as [call|] eqn:Ec; [|intros [= _ <-]; constructor].
  apply openai_call_named in Ec. destruct (read_objects fuel count rest) as [[|p|p] l| |] eqn:E; try done;
    intros [= _ <-]; [constructor; [done|]|..]; by eapply IH.
Qed.

Lemma openai_named {J : CJson} s rc calls : openai_parse_tool_calls s = Scanned rc calls -> Forall named calls.
Proof.
  unfold openai_parse_tool_calls. destruct (strstr s _) as [start|].
  - destruct (strchr start "["); [|intros [= _ <-]; constructor]. destruct (count_objects _ _) as [[|n]|]; [|apply read_objects_named|done].
    intros [= _ <-]. constructor.
  - destruct (strstr s _) as [start|]; [|intros [= _ <-]; constructor]. unfold custom_call.
    destruct (strstr (drop 11 start) _); [|intros [= _ <-]; constructor]. destruct (_ <? _)%nat; [done|].
    destruct (tool_format_extract_string _ _); intros [= _ <-]; repeat constructor. by eexists.
Qed.

Lemma read_tool_uses_named {J : CJson} fuel tool_count parsed s offset calls :
  read_tool_uses fuel tool_count parsed s offset = Some calls -> Forall named calls.
Proof.
  revert parsed offset calls. induction fuel as [|fuel IH]; intros parsed offset calls; [done|]. cbn [read_tool_uses].
  destruct (tool_count <=? parsed)%nat; [intros [= <-]; constructor|].
  destruct (find_tool_use _) as [t|]; [|intros [= <-]; constructor].
  destruct (strrchr _ _) as [b|]; [|apply IH]. destruct (scan_escaped_braces _ _ _) as [[body rest] depth].
  destruct (depth =? 0)%nat; [|apply IH]. destruct (anthropic_call parsed _) as [call|] eqn:Ec; [|apply IH].
  destruct (read_tool_uses fuel _ _ _ _) as [l|] eqn:E; [|done]. intros [= <-]. constructor; [|by eapply IH].
  unfold anthropic_call in Ec. apply bind_Some in Ec as (name & _ & [= <-]). by eexists.
Qed.

Lemma model_calls_named {J : CJson} registry name s rc calls :
  parse_model_tool_calls registry name s = Scanned rc calls -> Forall named calls.
Proof.
  unfold parse_model_tool_calls. destruct (_ ≫= _) as [m|]; [|intros [= _ <-]; constructor].
  destruct (model_family m); [apply openai_named| |intros [= _ <-]; constructor].
  unfold anthropic_parse_tool_calls. destruct (strstr _ _); [|intros [= _ <-]; constructor].
  destruct (count_tool_uses _ _) as [[[|n]|]|]; try done; [intros [= _ <-]; constructor|].
  destruct (read_tool_uses _ _ _ _ _) as [found|] eqn:E; [|done]. intros [= _ <-]. by eapply read_tool_uses_named.
Qed.

(** ** Properties *)

(** The scan for the calls of an OpenAI answer, whatever text it is given, ends
    without reading past it; it answers 0 with calls that all have a name, or -1
    and none. *)
Theorem openai_scan_inside {J : CJson} (json_response : cstr) :
  exists rc calls, openai_parse_tool_calls json_response = Scanned rc calls /\
    (rc = 0%Z \/ rc = (-1)%Z /\ calls = []) /\ Forall named calls.
Proof.
  unfold openai_parse_tool_calls. destruct (strstr json_response _) as [start|].
  - destruct (strchr start "[") as [array|]; [|scanned_none (-1)%Z].
    set (s := drop 1 array). destruct (count_objects_fuel (S (length s)) s) as [n E]; [lia|]. rewrite E.
    destruct n as [|n]; [scanned_none 0%Z|].
    destruct (read_objects_inside (S (length s)) (S n) s) as (rc & calls & Er & Hrc & _ & Hn); [lia|done|].
    rewrite Er. by exists rc, calls.
  - destruct (strstr json_response _) as [start|]; [|scanned_none 0%Z]. unfold custom_call.
    destruct (strstr (drop 11 start) _) as [e|] eqn:Ee; [|scanned_none (-1)%Z].
    assert (length e <= length (skip_space (drop 11 start)))%nat as Hl.
    { eapply (skip_space_keeps _ (cs "</tool_call>") e "<"); [reflexivity|reflexivity|exact Ee]. }
    rewrite (proj2 (Nat.ltb_ge _ _)) by done. destruct (tool_format_extract_string _ _) as [name|];
      [|scanned_none (-1)%Z].
    eexists 0%Z, _. split; [done|]. split; [by left|]. repeat constructor. by eexists.
Qed.

(** C25: The calls that a server prints are read back, in their order, with their
    identifiers, names and arguments, as long as the braces of each one's text
    balance; what comes before, without the mark, and after is of no account. *)
Theorem openai_calls_read {J : CJson} {JS : CJsonSpec J} pre post calls texts :
  let answer := pre ++ TOOL_CALLS_MARK ++ "[" :: commas texts ++ "]" :: post in
  strstr answer TOOL_CALLS_MARK = Some (TOOL_CALLS_MARK ++ "[" :: commas texts ++ "]" :: post) ->
  Forall2 call_text calls texts -> Forall closes texts ->
  openai_parse_tool_calls answer = Scanned 0 (map as_call calls).
Proof.
  intros answer Hm Ht Hc. unfold answer. rewrite parse_marked by done.
  set (s := commas texts ++ "]" :: post). destruct (read_texts (S (length s)) 0 calls texts ("]" :: post) Ht Hc) as [Ec Er];
    [unfold s; lia|].
  fold s in Ec, Er. rewrite Ec. change (count_objects (S (length s)) ("]" :: post)) with (Some 0%nat).
  cbn [fmap option_fmap option_map]. rewrite Nat.add_0_r. rewrite Nat.add_0_r in Er.
  destruct (length calls) as [|n] eqn:El; [by apply nil_length_inv in El as ->|].
  rewrite Er. change (read_objects (S (length s)) 0 ("]" :: post)) with (Scanned 0 []). cbn [prepend]. by rewrite app_nil_r.
Qed.

Definition sample_call (id arguments : string) : cstr * cstr * cstr := (cs id, cs "shell", cs arguments).
Definition sample_text (id arguments : string) : cstr :=
  ref_print (call_document (cs id) (cs "shell") (cs arguments)).

Lemma openai_calls_read_witness :
  openai_parse_tool_calls
    (quoted "content" ++ cs ":null," ++ TOOL_CALLS_MARK ++ "[" :: commas [sample_text "c1" "{[1]}"; sample_text "c2" "{}"] ++ "]" :: cs "}") =
  Scanned 0 [mkToolCall (cs "c1") (Some (cs "shell")) (Some (cs "{[1]}"));
             mkToolCall (cs "c2") (Some (cs "shell")) (Some (cs "{}"))].
Proof.
  apply (openai_calls_read (quoted "content" ++ cs ":null,") (cs "}") [sample_call "c1" "{[1]}"; sample_call "c2" "{}"]
           [sample_text "c1" "{[1]}"; sample_text "c2" "{}"]).
  - vm_compute. reflexivity.
  - repeat constructor; vm_compute; eexists; reflexivity.
  - repeat constructor; eexists; split; vm_compute; reflexivity.
Defined.

(** A closing brace in a string of a call ends its text early. When the piece
    does not parse the scan fails and no call of the answer is kept, neither
    that one nor those before it. *)
Theorem brace_loses_calls {J : CJson} {JS : CJsonSpec J} pre calls texts body rest :
  let bad := "{" :: body ++ rest in
  let post := match texts with [] => bad | _ => commas texts ++ "," :: bad end in
  let answer := pre ++ TOOL_CALLS_MARK ++ "[" :: post in
  strstr answer TOOL_CALLS_MARK = Some (TOOL_CALLS_MARK ++ "[" :: post) ->
  Forall2 call_text calls texts -> Forall closes texts ->
  scan_braces 1 body = (body, [], 0%nat) -> cJSON_Parse ("{" :: body) = None ->
  openai_parse_tool_calls answer = Scanned (-1) [].
Proof.
  intros bad post answer Hm Ht Hc Hb Hp. unfold answer. rewrite parse_marked by done.
  set (fuel := S (length post)).
  assert (openai_call ("{" :: body) = None) as Hbad.
  { unfold openai_call, tool_format_extract_string. by rewrite Hp. }
  assert (forall f n, (length bad < f)%nat -> read_objects f (S n) bad = Scanned (-1) []) as Hread.
  { intros f n Hf. unfold bad. change ("{" :: body ++ rest) with (("{" :: body) ++ rest).
    rewrite read_one, Hbad; [done|by exists body|done]. }
  assert (forall f, (length bad < f)%nat -> exists n, count_objects f bad = Some (S n)) as Hcount.
  { intros f Hf. unfold bad. change ("{" :: body ++ rest) with (("{" :: body) ++ rest).
    rewrite count_one; [|by exists body|done]. destruct (count_objects_fuel f rest) as [n ->]; [|by exists n].
    unfold bad in Hf. cbn [length] in Hf. rewrite length_app in Hf. lia. }
  unfold post in *. destruct texts as [|t ts].
  - destruct (Hcount fuel) as [n ->]; [unfold fuel; lia|]. apply Hread. unfold fuel. lia.
  - set (all := t :: ts) in *.
    assert (length (commas all ++ "," :: bad) < fuel)%nat as Hf by (unfold fuel; lia).
    assert (length bad < pred fuel)%nat as Hf' by (rewrite length_app in Hf; cbn [length] in Hf; lia).
    destruct (Hcount (pred fuel) Hf') as [n En].
    assert (count_objects fuel ("," :: bad) = Some (S n)) as En' by (destruct fuel; [lia|exact En]).
    destruct (read_texts fuel (S n) calls all ("," :: bad) Ht Hc Hf) as [Ec Er].
    rewrite Ec, En'. cbn [fmap option_fmap option_map].
    destruct (length calls + S n)%nat as [|m] eqn:Em; [lia|]. rewrite Er.
    unfold bad. rewrite read_comma; [|unfold bad in Hf'; cbn [length] in Hf'; lia]. fold bad.
    rewrite Hread; [done|lia].
Qed.

(** The second command holds a closing brace. *)
Lemma brace_loses_calls_witness :
  openai_parse_tool_calls
    (TOOL_CALLS_MARK ++ "[" :: commas [sample_text "c1" "{}"] ++ "," :: sample_text "c2" "{sed s/}//}" ++ cs "]}") =
  Scanned (-1) [].
Proof.
  set (t := sample_text "c2" "{sed s/}//}").
  set (cut := scan_braces 1 (drop 1 t)).
  apply (brace_loses_calls [] [sample_call "c1" "{}"] [sample_text "c1" "{}"] cut.1.1 (cut.1.2 ++ cs "]}")).
  - vm_compute. reflexivity.
  - repeat constructor; vm_compute; eexists; reflexivity.
  - repeat constructor; eexists; split; vm_compute; reflexivity.
  - vm_compute. reflexivity.
  - vm_compute. reflexivity.
Defined.

(** An object that ends before the mark of a tool use, the nearest brace before
    it being its own: the scan takes that object for the call, goes back to its
    end, and finds the same mark again, for ever. So it does with a tool use
    whose type comes after its input. *)
Theorem type_after_input_spins {J : CJson} before body gap rest n :
  let answer := before ++ "{" :: body ++ gap ++ TOOL_USE_COMPACT ++ rest in
  "{" ∉ body ++ gap -> scan_escaped_braces 1 "{" body = (body, [], 0%nat) ->
  tool_format_extract_string ("{" :: body) "name" = None ->
  strstr answer (quoted "content" ++ [":"]) = Some answer ->
  find_tool_use answer = Some (TOOL_USE_COMPACT ++ rest) ->
  find_tool_use (gap ++ TOOL_USE_COMPACT ++ rest) = Some (TOOL_USE_COMPACT ++ rest) ->
  count_tool_uses (S (length answer)) answer = Some (Some (S n)) ->
  (forall fuel, read_tool_uses fuel (S n) 0 answer 0 = None) /\ anthropic_parse_tool_calls answer = Spinning.
Proof.
  intros answer Hbody Hscan Hname Hstart Hfirst Hagain Hcount.
  set (tail := gap ++ TOOL_USE_COMPACT ++ rest) in *.
  set (object_end := (length before + S (length body))%nat).
  assert (drop object_end answer = tail) as Hend.
  { unfold answer, object_end. change ("{" :: body ++ tail) with (("{" :: body) ++ tail). rewrite app_assoc.
    replace (length before + S (length body))%nat with (length (before ++ "{" :: body)) by (by rewrite length_app).
    apply drop_app_length. }
  assert (length answer = (length before + S (length body) + length tail)%nat) as Hlen.
  { unfold answer. rewrite length_app. cbn [length]. rewrite length_app. unfold tail. lia. }
  assert (length tail = (length gap + length (TOOL_USE_COMPACT ++ rest))%nat) as Htail by (unfold tail; by rewrite length_app).
  set (position := (length answer - length (TOOL_USE_COMPACT ++ rest))%nat).
  assert (take position answer = before ++ "{" :: body ++ gap) as Htake.
  { unfold answer. change (gap ++ TOOL_USE_COMPACT ++ rest) with tail. unfold tail.
    replace (before ++ "{" :: body ++ gap ++ TOOL_USE_COMPACT ++ rest)
      with ((before ++ "{" :: body ++ gap) ++ TOOL_USE_COMPACT ++ rest) by (by rewrite <- app_assoc; cbn [app]; rewrite <- app_assoc).
    replace position with (length (before ++ "{" :: body ++ gap)); [apply take_app_length|].
    rewrite length_app. cbn [length]. rewrite length_app. unfold position. lia. }
  assert (strrchr (take position answer) "{" = Some ("{" :: body ++ gap)) as Hbrace.
  { apply strrchr_Some. exists before, (body ++ gap). by rewrite Htake. }
  assert (forall fuel offset, offset = 0%nat \/ offset = object_end -> read_tool_uses fuel (S n) 0 answer offset = None) as Hloop.
  { induction fuel as [|fuel IH]; intros offset Ho; [done|]. cbn [read_tool_uses].
    change (S n <=? 0)%nat with false. cbv iota.
    assert (find_tool_use (drop offset answer) = Some (TOOL_USE_COMPACT ++ rest)) as ->.
    { destruct Ho as [->| ->]; [exact Hfirst|]. by rewrite Hend. }
    fold position. rewrite Hbrace.
    replace (position - length ("{" :: body ++ gap))%nat with (length before).
    2: { cbn [length]. rewrite length_app. unfold position. lia. }
    assert (drop (S (length before)) answer = body ++ tail) as ->.
    { unfold answer. change (before ++ "{" :: body ++ tail) with (before ++ ["{"] ++ body ++ tail).
      rewrite (app_assoc before). replace (S (length before)) with (length (before ++ ["{"])) by (rewrite length_app; cbn; lia).
      apply drop_app_length. }
    rewrite (scan_escaped_app _ _ _ _ _ Hscan). change (0 =? 0)%nat with true. cbv iota.
    unfold anthropic_call. rewrite Hname. cbn [mbind option_bind].
    apply IH. right. unfold object_end. lia. }
  split; [by intros fuel; apply Hloop; left|]. unfold anthropic_parse_tool_calls. rewrite Hstart, Hcount.
  by rewrite Hloop by by left.
Qed.

Lemma type_after_input_spins_witness :
  anthropic_parse_tool_calls
    (quoted "content" ++ cs ":[{" ++ quoted "id" ++ cs ":" ++ quoted "t1" ++ cs "," ++ quoted "input" ++ cs ":{},"
     ++ quoted "name" ++ cs ":" ++ quoted "shell" ++ cs "," ++ TOOL_USE_COMPACT ++ cs "}]}") = Spinning.
Proof.
  apply (type_after_input_spins
    (quoted "content" ++ cs ":[{" ++ quoted "id" ++ cs ":" ++ quoted "t1" ++ cs "," ++ quoted "input" ++ cs ":")
    (cs "}") (cs "," ++ quoted "name" ++ cs ":" ++ quoted "shell" ++ cs ",") (cs "}]}") 0); try (vm_compute; reflexivity).
  apply (bool_decide_unpack _). vm_compute. exact I.
Defined.
