(* ===== verification/AgentLoop.v ===== *)
(** * The agent's loop (lib/agent/iterative_loop.c, tool_executor.c,
    conversation_state.c)

    The first batch of tool calls of an answer, and the requests that follow
    until the model answers without calls. A request to the model is the class
    [RoundTrip]; the tools, the prompt and the clock are those of ToolBatch.
    Display is not modelled. [None] stands for a NULL name that is dereferenced,
    a read out of bounds in the trimming, or a request that does not return. *)

From S2P Require Import Prelude CString Regex Darray RateLimiter Json ToolArgs PathNormalize ProtectedFiles ApprovalGate GateDecision ApprovalErrors ApprovalPrompt ToolOrchestration ToolBatch Providers Conversation TokenManager Compactor ApiMessages.
Local Open Scope char_scope.
Local Open Scope bool_scope.

(** ** Data *)

Record ParsedResponse := mkParsed {
  thinking_content : option cstr;
  response_content : option cstr;
  prompt_tokens : Z;
  completion_tokens : Z;
  total_tokens : Z
}.

Record LLMRoundTripResult := mkRoundTrip {
  parsed : ParsedResponse;
  tool_calls : list ToolCall
}.

(** What the loop uses of a request: the answer of the model, if there is one,
    and that the conversation and the window are left alone. [W] is the state of
    the servers; [None]: the request does not return. *)
Class RoundTrip (W : Type) := {
  round_trip_execute : SessionData -> option cstr -> Z -> W -> option (option LLMRoundTripResult * SessionData * W);
  round_trip_session session user_message max_tokens w result session' w' :
    round_trip_execute session user_message max_tokens w = Some (result, session', w') ->
    conversation session' = conversation session /\
    config_context_window (config session') = config_context_window (config session)
}.

Record LoopWorkflowState := mkWorkflow {
  has_patched : bool;
  has_tested_since_patch : bool;
  last_test_failed : bool;
  has_used_tools : bool;
  nudge_count : Z
}.

Definition ITERATIVE_LOOP_MAX_ITERATIONS : nat := 200.
Definition ITERATIVE_LOOP_MAX_NUDGES : Z := 3.
Definition STREAM_RETRY_MAX : Z := 3.

Definition NUDGE_APPLY : cstr := cs "You described changes but didn't apply them. Use the apply_patch tool to make your changes to the actual files, then run tests to verify.".
Definition NUDGE_TEST : cstr := cs "You applied a patch but haven't verified it. Run the relevant tests to confirm your fix works and doesn't break existing behavior.".
Definition NUDGE_FIX : cstr := cs "Tests are still failing. Your fix is not complete. Read the test failures carefully, identify what your patch got wrong, and apply a corrected patch. Do not stop until the relevant tests pass.".

(** What the loop does outside its own state; of a batch, its calls with the
    texts of their results. *)
Inductive LoopEvent :=
| Requested (max_tokens : Z)
| Slept (delay_ms : Z)
| Nudged (message : cstr)
| RanBatch (status : Z) (outcomes : list (ToolCall * option cstr)).

(** The answers of the surroundings in iteration [n]; 0 is the first batch. *)
Record LoopEnv := mkLoopEnv {
  le_batch : nat -> BatchEnv;
  le_alloc : nat -> bool
}.

(** ** The conversation *)

Section State.
Context {J : CJson} (has_store : bool) (registry : list ModelCapabilities).

(** [strncat(summary, s, sizeof(summary) - strlen(summary) - 1)], 256 bytes. *)
Definition strncat_summary (summary s : cstr) : cstr := summary ++ take (256 - length summary - 1) s.

Fixpoint calls_summary (summary : cstr) (first : bool) (calls : list ToolCall) : cstr :=
  match calls with
  | [] => summary
  | call :: calls' =>
      let summary := if first then summary else strncat_summary summary (cs ", ") in
      calls_summary (strncat_summary summary (default (cs "unknown") (tc_name call))) false calls'
  end.

Definition formatted_calls (model_name content : option cstr) (calls : list ToolCall) : option cstr :=
  name ← model_name;
  format_model_assistant_tool_message registry name content calls.

(** The text of the assistant's message. *)
Definition assistant_text (model_name content : option cstr) (calls : list ToolCall) : option cstr :=
  match calls with
  | _ :: _ => Some (default (calls_summary (cs "Used tools: ") true calls) (formatted_calls model_name content calls))
  | [] => content
  end.

(** A session and what its messages left in the store. *)
Notation Stored := (SessionData * list StoredText)%type.

Definition append_message (role text : cstr) (st : Stored) : Stored :=
  let '(c, stored) := append_conversation_message has_store (conversation st.1) role text in
  (with_conversation c st.1, st.2 ++ stored).

Definition conversation_append_assistant (content : option cstr) (calls : list ToolCall) (st : Stored) : Stored :=
  match assistant_text (model (config st.1)) content calls with
  | Some text => append_message (cs "assistant") text st
  | None => st
  end.

(** A result, with the call it belongs to; a NULL text or name is only warned
    about. *)
Definition append_tool_result (result : ToolResult) (call : ToolCall) (st : Stored) : Stored :=
  match tr_result result, tc_name call with
  | Some text, Some name =>
      let '(c, stored) := append_tool_message has_store (conversation st.1) text (tc_id call) name in
      (with_conversation c st.1, st.2 ++ stored)
  | _, _ => st
  end.

(** [call_indices]: [None] stands for NULL; results beyond [result_count] are
    not read. *)
Definition conversation_append_tool_results (results : list ToolResult) (result_count : nat)
    (source_calls : list ToolCall) (call_indices : option (list nat)) (st : Stored) : Stored :=
  foldl (fun st i =>
           match results !! i, (match call_indices with Some l => l !! i | None => Some i end) ≫= (source_calls !!.) with
           | Some r, Some call => append_tool_result r call st
           | _, _ => st
           end) st (seq 0 result_count).
End State.

(** ** The state of the work *)

Definition atoi_limit : Z := 2 ^ 63.

(** atoi of the C library: blanks, a sign, digits; a value out of the range of
    a long is the nearest long, and its low 32 bits are the answer. *)
Fixpoint atoi_digits (n : Z) (s : cstr) : Z :=
  match s with
  | c :: s' => if is_digit c then atoi_digits (n * 10 + (Z.of_N (N_of_ascii c) - 48)) s' else n
  | [] => n
  end.

Fixpoint atoi_space (s : cstr) : cstr :=
  match s with
  | c :: s' => if isspace c then atoi_space s' else s
  | [] => []
  end.

Definition atoi (s : cstr) : Z :=
  wrap32 match atoi_space s with
         | "-" :: s' => Z.max (- atoi_limit) (- atoi_digits 0 s')
         | "+" :: s' => Z.min (atoi_limit - 1) (atoi_digits 0 s')
         | s' => Z.min (atoi_limit - 1) (atoi_digits 0 s')
         end.

Fixpoint skip_spaces (s : cstr) : cstr :=
  match s with
  | c :: s' => if Ascii.eqb c " " then skip_spaces s' else s
  | [] => []
  end.

(** The text of the first result of call [i]. *)
Fixpoint result_of (i : nat) (indices : list nat) (results : list ToolResult) : option cstr :=
  match indices, results with
  | idx :: indices', r :: results' =>
      match tr_result r with
      | Some text => if (idx =? i)%nat then Some text else result_of i indices' results'
      | None => result_of i indices' results'
      end
  | _, _ => None
  end.

Definition patch_ok (result : option cstr) : bool :=
  match result with
  | Some r => negb (contains r (quoted "success" ++ cs ": false")) && negb (contains r (quoted "success" ++ cs ":false"))
  | None => false
  end.

Definition exit_code_nonzero (result : option cstr) : bool :=
  match result with
  | Some r =>
      match strstr r (quoted "exit_code" ++ cs ":") with
      | Some ec => negb (atoi (skip_spaces (drop 12 ec)) =? 0)%Z
      | None => false
      end
  | None => false
  end.

Definition is_patch_tool (name : cstr) : bool := streq name (cs "apply_patch") || streq name (cs "write_file").

(** One call of an executed batch. *)
Definition track_call (result : option cstr) (wf : LoopWorkflowState) (call : ToolCall) : LoopWorkflowState :=
  match tc_name call with
  | None => wf
  | Some name =>
      if is_patch_tool name then
        if patch_ok result then mkWorkflow true false false (has_used_tools wf) (nudge_count wf) else wf
      else if streq name (cs "shell") then
        mkWorkflow (has_patched wf) true (exit_code_nonzero result) (has_used_tools wf) (nudge_count wf)
      else wf
  end.

Definition call_results (calls : list ToolCall) (indices : list nat) (results : list ToolResult)
  : list (ToolCall * option cstr) :=
  imap (fun i call => (call, result_of i indices results)) calls.

Definition track_batch (calls : list ToolCall) (indices : list nat) (results : list ToolResult) (wf : LoopWorkflowState)
  : LoopWorkflowState :=
  foldl (fun wf outcome => track_call outcome.2 wf outcome.1)
    (mkWorkflow (has_patched wf) (has_tested_since_patch wf) (last_test_failed wf) true (nudge_count wf))
    (call_results calls indices results).

(** The message that sends the model back to work. *)
Definition nudge_message (wf : LoopWorkflowState) : option cstr :=
  let room := (nudge_count wf <? ITERATIVE_LOOP_MAX_NUDGES)%Z in
  if has_used_tools wf && negb (has_patched wf) && room then Some NUDGE_APPLY
  else if has_patched wf && negb (has_tested_since_patch wf) && room then Some NUDGE_TEST
  else if has_patched wf && last_test_failed wf && room then Some NUDGE_FIX
  else None.

Definition count_nudge (wf : LoopWorkflowState) : LoopWorkflowState :=
  mkWorkflow (has_patched wf) (has_tested_since_patch wf) (last_test_failed wf) (has_used_tools wf)
    (nudge_count wf + 1).

(** The state after the first batch. *)
Definition first_call (wf : LoopWorkflowState) (call : ToolCall) : LoopWorkflowState :=
  match tc_name call with
  | None => wf
  | Some name =>
      if is_patch_tool name then mkWorkflow true false (last_test_failed wf) (has_used_tools wf) (nudge_count wf)
      else if streq name (cs "shell") then
        mkWorkflow (has_patched wf) true (last_test_failed wf) (has_used_tools wf) (nudge_count wf)
      else wf
  end.

Definition first_workflow (calls : list ToolCall) : LoopWorkflowState :=
  foldl first_call (mkWorkflow false false false true 0) calls.

(** ** The loop *)

Section Loop.
Context {R : Regex} {J : CJson} {F : Fnmatch} (cb : ApprovalGateCallbacks) (env : LoopEnv).
Context {W : Type} {RT : RoundTrip W} {T : Type} (rt : ToolRuntime T)
  (schedule : list PreScreenEntry -> list PreScreenEntry).
Context (has_store : bool) (registry : list ModelCapabilities).
(** The requests of the summaries, the account, and the number of tools. *)
Context (send : cstr -> list cstr -> cstr -> option cstr) (tl_account_id : cstr) (tools_count : Z).

(** The session, with what its surroundings hold and what it did. *)
Record Agent := mkAgent {
  ag_session : SessionData;
  ag_stored : list StoredText;
  ag_gate : option (ApprovalGateConfig R);
  ag_world : World;
  ag_servers : W;
  ag_tools : T;
  ag_events : list LoopEvent
}.

Record Loop := mkLoop {
  lp_agent : Agent;
  lp_orch : ToolOrchestrationContext R;
  lp_wf : LoopWorkflowState;
  lp_retries : Z
}.

Definition event (e : LoopEvent) (a : Agent) : Agent :=
  mkAgent (ag_session a) (ag_stored a) (ag_gate a) (ag_world a) (ag_servers a) (ag_tools a) (ag_events a ++ [e]).
Definition with_session (s : SessionData) (a : Agent) : Agent :=
  mkAgent s (ag_stored a) (ag_gate a) (ag_world a) (ag_servers a) (ag_tools a) (ag_events a).
Definition with_servers (w : W) (a : Agent) : Agent :=
  mkAgent (ag_session a) (ag_stored a) (ag_gate a) (ag_world a) w (ag_tools a) (ag_events a).
Definition with_run (w : World) (t : T) (a : Agent) : Agent :=
  mkAgent (ag_session a) (ag_stored a) (ag_gate a) w (ag_servers a) t (ag_events a).
Definition with_gate_config (g : option (ApprovalGateConfig R)) (a : Agent) : Agent :=
  mkAgent (ag_session a) (ag_stored a) g (ag_world a) (ag_servers a) (ag_tools a) (ag_events a).

(** A change of the conversation. *)
Definition converse (f : SessionData * list StoredText -> SessionData * list StoredText) (a : Agent) : Agent :=
  let st := f (ag_session a, ag_stored a) in
  mkAgent st.1 st.2 (ag_gate a) (ag_world a) (ag_servers a) (ag_tools a) (ag_events a).

Definition with_agent (a : Agent) (st : Loop) : Loop := mkLoop a (lp_orch st) (lp_wf st) (lp_retries st).
Definition with_orch (o : ToolOrchestrationContext R) (st : Loop) : Loop :=
  mkLoop (lp_agent st) o (lp_wf st) (lp_retries st).
Definition with_wf (wf : LoopWorkflowState) (st : Loop) : Loop := mkLoop (lp_agent st) (lp_orch st) wf (lp_retries st).
Definition with_retries (n : Z) (st : Loop) : Loop := mkLoop (lp_agent st) (lp_orch st) (lp_wf st) n.

Inductive IterationStep := Again (st : Loop) | Return (rc : Z) (st : Loop).

(** The batch of an answer, in compact mode: its results go to the
    conversation. *)
Definition run_calls (n : nat) (calls : list ToolCall) (st : Loop) : option IterationStep :=
  if forallb (fun call => tool_orchestration_is_duplicate (lp_orch st) (Some (tc_id call))) calls
  then Some (Return 0 st)
  else if negb (le_alloc env n) then Some (Return (-1) st)
  else
    answer ← tool_batch_execute cb (le_batch env n) true rt schedule (lp_orch st) (ag_world (lp_agent st)) calls
               (repeat empty_result (length calls)) (repeat 0%nat (length calls)) (ag_tools (lp_agent st));
    let count := ba_count T answer in
    let indices := take count (ba_indices T answer) in
    let results := take count (ba_results T answer) in
    let agent := with_run (ba_world T answer) (ba_state T answer) 
                   (event (RanBatch (ba_status T answer) (call_results calls indices results)) (lp_agent st)) in
    let agent := converse (conversation_append_tool_results has_store (ba_results T answer) count calls
                             (Some (ba_indices T answer))) agent in
    let st := mkLoop agent (ba_orch T answer) (track_batch calls indices results (lp_wf st)) (lp_retries st) in
    Some (if negb (ba_status T answer =? 0)%Z then Return (ba_status T answer) st else Again st).

(** An answer without calls. *)
Definition finish_or_nudge (st : Loop) : IterationStep :=
  match nudge_message (lp_wf st) with
  | Some message =>
      Again (with_wf (count_nudge (lp_wf st))
               (with_agent (event (Nudged message) (converse (append_message has_store (cs "user") message) (lp_agent st))) st))
  | None => Return 0 st
  end.

Definition assistant_content (p : ParsedResponse) : option cstr :=
  match response_content p with Some c => Some c | None => thinking_content p end.

Definition answered (n : nat) (result : LLMRoundTripResult) (st : Loop) : option IterationStep :=
  let st := with_retries 0 st in
  let st := with_agent (converse (conversation_append_assistant has_store registry
                                    (assistant_content (parsed result)) (tool_calls result)) (lp_agent st)) st in
  match tool_calls result with
  | [] => Some (finish_or_nudge st)
  | calls => run_calls n calls st
  end.

Definition retry (st : Loop) : IterationStep :=
  let stream_retries := (lp_retries st + 1)%Z in
  let st := with_retries stream_retries st in
  if (stream_retries <=? STREAM_RETRY_MAX)%Z
  then Again (with_agent (event (Slept (1000 * 2 ^ (stream_retries - 1))) (lp_agent st)) st)
  else Return (-1) st.

(** One iteration. *)
Definition iteration (n : nat) (st : Loop) : option IterationStep :=
  let st := with_orch (tool_orchestration_reset_batch (lp_orch st)) st in
  let token_config := token_config_init (config_context_window (config (ag_session (lp_agent st)))) in
  '(token_rc, usage, session) ← manage_conversation_tokens send tl_account_id tools_count (ag_session (lp_agent st))
                                  (Some []) token_config;
  let st := with_agent (with_session session (lp_agent st)) st in
  if (token_rc =? SESSION_CONTEXT_FULL)%Z then Some (Return SESSION_CONTEXT_FULL st)
  else if negb (token_rc =? 0)%Z then Some (Return (-1) st)
  else
    let max_tokens := available_response_tokens usage in
    '(result, session, servers) ← round_trip_execute session (Some []) max_tokens (ag_servers (lp_agent st));
    let st := with_agent (event (Requested max_tokens) (with_servers servers (with_session session (lp_agent st)))) st in
    match result with
    | None => Some (retry st)
    | Some result => answered n result st
    end.

(** Iterations [n], [n + 1], ..; none [remaining]: the safety limit. *)
Fixpoint iterate (remaining n : nat) (st : Loop) : option (Z * Loop) :=
  match remaining with
  | O => Some ((-1)%Z, st)
  | S remaining' =>
      step ← iteration n st;
      match step with
      | Again st => iterate remaining' (S n) st
      | Return rc st => Some (rc, st)
      end
  end.

Definition iterative_loop_run (orch : ToolOrchestrationContext R) (wf : LoopWorkflowState) (agent : Agent)
  : option (Z * Loop) :=
  iterate ITERATIVE_LOOP_MAX_ITERATIONS 1 (mkLoop agent orch wf 0).

(** ** The first batch *)

(** The reset a tool asked for keeps the message with the calls. *)
Definition reset_conversation (calls : list ToolCall) (st : SessionData * list StoredText) : SessionData * list StoredText :=
  conversation_append_assistant has_store registry None calls (with_conversation init_conversation_history st.1, st.2).

(** [alloc_ok]: the tracker and the results; recording an id may fail. *)
Definition mark_all (dup_ok grow_ok : nat -> bool) (orch : ToolOrchestrationContext R) (calls : list ToolCall)
  : ToolOrchestrationContext R :=
  foldl (fun o ic => (tool_orchestration_mark_executed (dup_ok ic.1) (grow_ok ic.1) o (Some (tc_id ic.2))).1) orch
    (imap pair calls).

Definition tool_executor_run_workflow (alloc_ok : bool) (dup_ok grow_ok : nat -> bool) (calls : list ToolCall)
    (agent : Agent) : option (Z * Agent) :=
  match calls with
  | [] => Some ((-1)%Z, agent)
  | _ =>
      match tool_orchestration_init alloc_ok (ag_gate agent) with
      | None => Some ((-1)%Z, agent)
      | Some orch =>
          if negb (le_alloc env 0) then Some ((-1)%Z, agent)
          else
            answer ← tool_batch_execute cb (le_batch env 0) false rt schedule orch (ag_world agent) calls
                       (repeat empty_result (length calls)) [] (ag_tools agent);
            let results := ba_results T answer in
            let agent := with_run (ba_world T answer) (ba_state T answer)
                           (event (RanBatch (ba_status T answer) (call_results calls (seq 0 (length calls)) results))
                              (with_gate_config (gate_config (ba_orch T answer)) agent)) in
            let agent := if existsb tr_clear_history results then converse (reset_conversation calls) agent else agent in
            let agent := converse (conversation_append_tool_results has_store results (length calls) calls None) agent in
            if negb (ba_status T answer =? 0)%Z then Some ((-2)%Z, agent)
            else
              let orch := mark_all dup_ok grow_ok (ba_orch T answer) calls in
              '(result, st) ← iterative_loop_run orch (first_workflow calls) agent;
              let agent := with_gate_config (gate_config (lp_orch st)) (lp_agent st) in
              Some (if (result =? SESSION_CONTEXT_FULL)%Z then SESSION_CONTEXT_FULL else 0%Z, agent)
      end
  end.
End Loop.
Arguments mkAgent {R W T}.
