(* ===== verification/LoopFacts.v ===== *)
(** * The agent's loop: theorems

    The order of requests, pauses, nudges and batches; no call runs twice in
    the loop; what the codes of the loop and of the first batch mean. *)

From S2P Require Import Prelude CString Regex Darray RateLimiter Json ToolArgs PathNormalize ProtectedFiles ApprovalGate GateDecision ApprovalErrors GateTheorems ApprovalPrompt ToolOrchestration ToolBatch Providers Conversation TokenManager TokenFacts Compactor CompactorFacts ApiMessages AgentLoop.
Local Open Scope char_scope.
Local Open Scope bool_scope.

(** ** The identifiers a batch runs *)

(** A runtime that also keeps the identifiers of the calls it is given. *)
Definition recording {T} (rt : ToolRuntime T) : ToolRuntime (list cstr * T) :=
  let over f := fun (c : ToolCall) (r : ToolResult) (s : list cstr * T) =>
    let '(rc, r, t) := f c r s.2 in (rc : Z, r : ToolResult, (s.1, t : T)) in
  mkRuntime (list cstr * T)
    (fun c r s => let '(stop, r, t) := rt_pre_hook T rt c r s.2 in (stop, r, (s.1 ++ [tc_id c], t)))
    (over (rt_mcp T rt)) (over (rt_plugin T rt)) (over (rt_tool T rt))
    (fun c r s => let '(r, t) := rt_post_hook T rt c r s.2 in (r, (s.1, t))).

Section Recording.
Context {T : Type} (rt : ToolRuntime T) (calls : list ToolCall).

Lemma recording_single call e r s :
  (execute_single_tool (recording rt) call e r s).2.1 = s.1 ++ [tc_id call].
Proof.
  unfold execute_single_tool, recording. cbn [rt_pre_hook rt_mcp rt_plugin rt_tool rt_post_hook].
  destruct (rt_pre_hook T rt call r s.2) as [[stop r1] t1]. destruct stop; [done|]. cbn [fst snd].
  destruct (is_mcp e); [|destruct (is_plugin e)].
  - destruct (rt_mcp T rt call r1 t1) as [[? r2] t2]. cbn. by destruct (rt_post_hook T rt call r2 t2).
  - destruct (rt_plugin T rt call r1 t1) as [[? r2] t2]. cbn. by destruct (rt_post_hook T rt call r2 t2).
  - destruct (rt_tool T rt call r1 t1) as [[rc r2] t2]. cbn [fst snd].
    destruct (negb (rc =? 0)%Z); cbn [fst snd]; by destruct (rt_post_hook T rt call _ t2).
Qed.

(** The recorded identifiers are those of entries, in their order. *)
Lemma recording_entries order m :
  exists ids, (run_entries (recording rt) calls m order).2.1 = m.2.1 ++ ids /\
    (Some <$> ids) `sublist_of` map (entry_id calls) order.
Proof.
  revert m. induction order as [|e order IH]; intros m; cbn [run_entries foldl map].
  { exists []. by rewrite app_nil_r. }
  destruct (IH (run_entry (recording rt) calls m e)) as (ids & E & Hs). unfold run_entries in E. rewrite E.
  unfold run_entry, entry_id in *. destruct (calls !! call_index e) as [call|].
  2: { exists ids. split; [done|]. by apply sublist_cons. }
  destruct (m.1 !! slot e) as [r|].
  2: { exists ids. split; [done|]. by apply sublist_cons. }
  exists (tc_id call :: ids). destruct (execute_single_tool _ call e r m.2) as [r' s'] eqn:Ex.
  pose proof (recording_single call e r m.2) as Hr. rewrite Ex in Hr. cbn [snd] in *. rewrite Hr, <- app_assoc.
  split; [done|]. by apply sublist_skip.
Qed.
End Recording.

Definition executed_ids {R : Regex} (orch : ToolOrchestrationContext R) : list cstr := data (executed_tracker orch).

(** What a compact batch runs is new, and known afterwards. *)
Lemma compact_batch_ids {R : Regex} {J : CJson} {F : Fnmatch} {FS : FnmatchSpec F} cb env
    {T} (rt : ToolRuntime T) schedule (orch : ToolOrchestrationContext R) w calls results indices l t :
  Forall (fun call => is_Some (tc_name call)) calls -> (length calls <= length indices)%nat ->
  (forall l, schedule l ≡ₚ l) ->
  exists answer ids,
    tool_batch_execute cb env true (recording rt) schedule orch w calls results indices (l, t) = Some answer /\
    (ba_state _ answer).1 = l ++ ids /\ NoDup ids /\
    (forall id, id ∈ ids -> id ∉ executed_ids orch /\ id ∈ executed_ids (ba_orch _ answer)) /\
    (forall id, id ∈ executed_ids orch -> id ∈ executed_ids (ba_orch _ answer)).
Proof.
  intros Hnames Hidx Hsched.
  destruct (batch_screened cb env true (recording rt) schedule orch w calls results indices (l, t) Hnames
    (fun _ => Hidx) Hsched) as (answer & st0 & st & k & order & log & E & Hrun & Ho & _ & Hs & _ & Hor & _ & _ & Horder & _).
  destruct (recording_entries rt calls order (sc_results st, (l, t))) as (ids & Hids & Hsub).
  exists answer, ids. split; [exact E|]. rewrite <- Hrun in Hids. split; [exact Hids|]. unfold executed_ids. rewrite Hor.
  destruct (sd_ids _ _ _ _ _ _ Hs eq_refl) as [Hnd Hin].
  assert (forall e, e ∈ order -> e ∈ sc_approved st) as Hsubset.
  { destruct Horder as [->|[_ Hp]]; [intros e He; by apply not_elem_of_nil in He|]. intros e. by rewrite Hp. }
  assert (NoDup (map (entry_id calls) order)) as Hnd'.
  { destruct Horder as [->|[_ Hp]]; [constructor|]. by rewrite Hp. }
  split_and!.
  - apply (NoDup_fmap_1 Some). by eapply sublist_NoDup.
  - intros id Hid. assert (Some id ∈ map (entry_id calls) order) as (e & He & Hoe)%list_elem_of_fmap.
    { eapply elem_of_sublist; [|exact Hsub]. by apply list_elem_of_fmap_2. }
    destruct (Hin e (Hsubset e Hoe)) as (id' & Hid' & Hafter & Hbefore). rewrite <- He in Hid'. injection Hid' as <-.
    rewrite <- Ho. done.
  - intros id Hid. apply (sd_tracked _ _ _ _ _ _ Hs). unfold tracked. by rewrite Ho.
Qed.

Definition state_of {R T W} (step : IterationStep (R := R) (T := T) (W := W)) : Loop (R := R) :=
  match step with Again st => st | Return _ st => st end.

(** Every call of an answer has a name. *)
Definition NamedCalls {W} (RT : RoundTrip W) : Prop :=
  forall session message max_tokens w result session' w',
    round_trip_execute session message max_tokens w = Some (Some result, session', w') ->
    Forall (fun call => is_Some (tc_name call)) (tool_calls result).

Section Invariant.
Context {R : Regex} {J : CJson} {F : Fnmatch} (cb : ApprovalGateCallbacks) (env : LoopEnv).
Context {W : Type} {RT : RoundTrip W} {T : Type} (rt : ToolRuntime T)
  (schedule : list PreScreenEntry -> list PreScreenEntry).
Context (has_store : bool) (registry : list ModelCapabilities).
Context (send : cstr -> list cstr -> cstr -> option cstr) (tl_account_id : cstr) (tools_count : Z).

Notation iterate := (iterate cb env rt schedule has_store registry send tl_account_id tools_count).
Notation iteration := (iteration cb env rt schedule has_store registry send tl_account_id tools_count).

(** What every iteration keeps holds at the end. *)
Lemma iterate_invariant (P : Loop -> Prop) remaining n st rc st' :
  (forall n st step, P st -> iteration n st = Some step -> P (state_of step)) ->
  P st -> iterate remaining n st = Some (rc, st') -> P st'.
Proof using Type.
  intros Hstep. revert n st. induction remaining as [|remaining IH]; intros n st Hst; cbn [AgentLoop.iterate].
  { by intros [= _ <-]. }
  destruct (iteration n st) as [step|] eqn:E; [|done]. cbn [mbind option_bind].
  pose proof (Hstep n st step Hst E) as Hs. destruct step as [st1|rc1 st1]; [by apply IH|]. by intros [= _ <-].
Qed.

(** An iteration is a request whose answer is handled, or ends before it. *)
Lemma loop_iteration_cases n st step :
  iteration n st = Some step ->
  exists agent, ag_tools agent = ag_tools (lp_agent st) /\
    let st1 := mkLoop agent (tool_orchestration_reset_batch (lp_orch st)) (lp_wf st) (lp_retries st) in
    (ag_events agent = ag_events (lp_agent st) /\ exists rc, step = Return rc st1 /\ (rc = SESSION_CONTEXT_FULL \/ rc = (-1)%Z))
    \/ exists max_tokens, ag_events agent = ag_events (lp_agent st) ++ [Requested max_tokens] /\
       (step = retry st1 \/
        exists session message w result session' w',
          round_trip_execute session message max_tokens w = Some (Some result, session', w') /\ ag_servers agent = w' /\
          answered cb env rt schedule has_store registry n result st1 = Some step).
Proof using Type.
  unfold AgentLoop.iteration. cbn zeta. cbn [with_orch lp_agent].
  destruct (manage_conversation_tokens _ _ _ _ _ _) as [[[rc usage] session]|]; [|done]. cbn [mbind option_bind].
  destruct (rc =? SESSION_CONTEXT_FULL)%Z; [|destruct (negb (rc =? 0)%Z)].
  - intros [= <-]. eexists (with_session session (lp_agent st)). split; [done|]. left. split; [done|].
    eexists. split; [reflexivity|]. by left.
  - intros [= <-]. eexists (with_session session (lp_agent st)). split; [done|]. left. split; [done|].
    eexists. split; [reflexivity|]. by right.
  - cbn [with_agent lp_agent with_session ag_servers].
    destruct (round_trip_execute session (Some []) (available_response_tokens usage) (ag_servers (lp_agent st)))
      as [[[result session'] servers]|] eqn:Er; [|done]. cbn [mbind option_bind].
    intros E. eexists (event (Requested (available_response_tokens usage))
      (with_servers servers (with_session session' (with_session session (lp_agent st))))). split; [done|]. right.
    exists (available_response_tokens usage). split; [done|]. destruct result as [result|].
    + right. eexists session, (Some []), _, result, session', servers. split; [exact Er|]. split; [done|exact E].
    + left. injection E as <-. done.
Qed.
End Invariant.

(** ** No call twice *)

Section Ids.
Context {R : Regex} {J : CJson} {F : Fnmatch} {FS : FnmatchSpec F} (cb : ApprovalGateCallbacks) (env : LoopEnv).
Context {W : Type} {RT : RoundTrip W} {T : Type} (rt : ToolRuntime T)
  (schedule : list PreScreenEntry -> list PreScreenEntry).
Context (has_store : bool) (registry : list ModelCapabilities).
Context (send : cstr -> list cstr -> cstr -> option cstr) (tl_account_id : cstr) (tools_count : Z).

(** What ran is known now and was not at the start. *)
Definition ids_new (known : list cstr) (st : @Loop R W (list cstr * T)) : Prop :=
  let ran := (ag_tools (lp_agent st)).1 in
  NoDup ran /\ (forall id, id ∈ ran -> id ∈ executed_ids (lp_orch st) /\ id ∉ known) /\
  (forall id, id ∈ known -> id ∈ executed_ids (lp_orch st)).

Lemma ids_new_same known st st' :
  ids_new known st -> ag_tools (lp_agent st') = ag_tools (lp_agent st) -> executed_ids (lp_orch st') = executed_ids (lp_orch st) ->
  ids_new known st'.
Proof using Type. unfold ids_new. by intros H -> ->. Qed.

Lemma run_calls_ids known n calls st step :
  (forall l, schedule l ≡ₚ l) -> Forall (fun call => is_Some (tc_name call)) calls -> ids_new known st ->
  run_calls cb env (recording rt) schedule has_store n calls st = Some step -> ids_new known (state_of step).
Proof using FS.
  intros Hsched Hnames Hst. unfold run_calls. destruct (forallb _ calls); [by intros [= <-]|].
  destruct (negb (le_alloc env n)); [by intros [= <-]|].
  destruct (ag_tools (lp_agent st)) as [l t] eqn:Et.
  destruct (compact_batch_ids cb (le_batch env n) rt schedule (lp_orch st) (ag_world (lp_agent st)) calls
    (repeat empty_result (length calls)) (repeat 0%nat (length calls)) l t Hnames) as (answer & ids & E & Hl & Hnd & Hnew & Hkeep);
    [by rewrite repeat_length|done|].
  rewrite E. cbn [mbind option_bind]. intros [= <-].
  assert (forall f agent, ag_tools agent = ba_state _ answer ->
    ids_new known (mkLoop (converse f agent) (ba_orch _ answer) (track_batch calls (take (ba_count _ answer) (ba_indices _ answer))
                     (take (ba_count _ answer) (ba_results _ answer)) (lp_wf st)) (lp_retries st))) as Hgoal.
  { intros f agent Ha. destruct Hst as (H1 & H2 & H3). unfold ids_new. cbn [lp_agent lp_orch converse ag_tools].
    rewrite Et in H1, H2. cbn [fst] in H1, H2. rewrite Ha, Hl. split_and!.
    - apply NoDup_app. split; [done|]. split; [|done]. intros id Hin Hin2. destruct (Hnew id Hin2) as [Hno _].
      apply Hno. by apply H2.
    - intros id [Hin|Hin]%elem_of_app.
      + destruct (H2 id Hin). split; [by apply Hkeep|done].
      + destruct (Hnew id Hin) as [Hno Hyes]. split; [done|]. intros Hk. by apply Hno, H3.
    - intros id Hid. by apply Hkeep, H3. }
  destruct (negb (ba_status _ answer =? 0)%Z); cbn [state_of]; by apply Hgoal.
Qed.

Lemma iteration_ids known n st step :
  NamedCalls RT -> (forall l, schedule l ≡ₚ l) -> ids_new known st ->
  iteration cb env (recording rt) schedule has_store registry send tl_account_id tools_count n st = Some step ->
  ids_new known (state_of step).
Proof using FS.
  intros Hnamed Hsched Hst (agent & Ht & Hcase)%loop_iteration_cases. cbn zeta in Hcase.
  assert (forall r, ids_new known (mkLoop agent (tool_orchestration_reset_batch (lp_orch st)) (lp_wf st) r)) as Hst1.
  { intros r. by eapply ids_new_same. }
  destruct Hcase as [(_ & rc & -> & _)|(max & _ & [->|(session & message & w & result & session' & w' & Hr & _ & Ha)])]; [apply Hst1| |].
  - unfold retry. destruct (_ <=? _)%Z; cbn [state_of]; by (eapply ids_new_same; [apply (Hst1 0%Z)|..]).
  - unfold answered in Ha. destruct (tool_calls result) as [|call calls] eqn:Ec.
    + injection Ha as <-. unfold finish_or_nudge. destruct (nudge_message _); cbn [state_of];
        by (eapply ids_new_same; [apply (Hst1 0%Z)|..]).
    + refine (run_calls_ids known n _ _ step Hsched _ _ Ha).
      * rewrite <- Ec. by apply (Hnamed session message max w result session' w').
      * by (eapply ids_new_same; [apply (Hst1 0%Z)|..]).
Qed.
End Ids.

(** ** Requests, pauses and nudges *)

(** The order of the events when [r] requests in a row have failed: a request
    is the last event, or a pause follows, twice as long each time and three
    times at most, or a nudge or a batch. *)
Fixpoint paced (r : Z) (events : list LoopEvent) : bool :=
  match events with
  | [] => true
  | [Requested _] => true
  | Requested _ :: Slept d :: events' => (r <? STREAM_RETRY_MAX)%Z && (d =? 1000 * 2 ^ r)%Z && paced (r + 1) events'
  | Requested _ :: Nudged _ :: events' => paced 0 events'
  | [Requested _; RanBatch _ _] => true
  | Requested _ :: RanBatch status _ :: events' => (status =? 0)%Z && paced 0 events'
  | _ => false
  end.

Definition is_request (e : LoopEvent) : bool := match e with Requested _ => true | _ => false end.
Definition is_nudge (e : LoopEvent) : bool := match e with Nudged _ => true | _ => false end.
Definition occurrences (p : LoopEvent -> bool) (events : list LoopEvent) : Z := Z.of_nat (length (List.filter p events)).

Definition loop_codes : list Z := [0; -1; -2; SESSION_CONTEXT_FULL]%Z.

Lemma occurrences_app p a b : occurrences p (a ++ b) = (occurrences p a + occurrences p b)%Z.
Proof. unfold occurrences. rewrite List.filter_app, length_app. lia. Qed.

Lemma screen_loop_status {R : Regex} {J : CJson} {F : Fnmatch} cb env compact i calls n (st st' : Screen R) status :
  screen_loop cb env compact i calls n st = Some (st', status) -> In status [0; -1; -2]%Z.
Proof.
  revert i st. induction calls as [|call calls IH]; intros i st; cbn [screen_loop].
  { intros [= _ <-]. by left. }
  destruct (be_pending env i); [intros [= _ <-]; right; right; by left|].
  assert (forall step st, screen_call cb env compact i call calls n st = Some step ->
            match step with Continue _ => True | Break _ status => status = (-1)%Z end) as Hcall.
  { clear. intros step st. unfold screen_call. destruct (tc_name call) as [name|]; [|done].
    destruct (tool_orchestration_can_spawn_subagent _ _) as [o ok]. destruct (negb ok); [by intros [= <-]|].
    destruct (tool_orchestration_check_approval _ _ _ _ _) as [[[[code ?] ?] ?]|]; [|done].
    destruct (code =? -2)%Z; [by intros [= <-]|]. destruct (code =? -1)%Z; by intros [= <-]. }
  assert (forall st, match screen_call cb env compact i call calls n st with
                     | None => None
                     | Some (Continue st) => screen_loop cb env compact (S i) calls n st
                     | Some (Break st status) => Some (st, status)
                     end = Some (st', status) -> In status [0; -1; -2]%Z) as Hgo.
  { intros st1. destruct (screen_call _ _ _ _ _ _ _ st1) as [[st2|st2 s2]|] eqn:E; [apply IH| |done].
    intros [= _ <-]. right. left. symmetry. exact (Hcall _ _ E). }
  destruct compact; [|apply Hgo].
  destruct (tool_orchestration_is_duplicate _ _); [apply IH|].
  destruct (tool_orchestration_mark_executed _ _ _ _) as [o rc]. destruct (negb (rc =? 0)%Z); [apply IH|apply Hgo].
Qed.

Lemma batch_status {R : Regex} {J : CJson} {F : Fnmatch} cb env compact {T} (rt : ToolRuntime T) schedule
    (orch : ToolOrchestrationContext R) w calls results indices s answer :
  tool_batch_execute cb env compact rt schedule orch w calls results indices s = Some answer ->
  In (ba_status T answer) [0; -1; -2]%Z.
Proof.
  unfold tool_batch_execute. destruct (negb (be_calloc_ok env)); [intros [= <-]; right; by left|].
  destruct (screen_loop _ _ _ _ _ _ _) as [[st status]|] eqn:E; [|done]. apply screen_loop_status in E.
  destruct (_ || _); [by intros [= <-]|]. destruct (run_entries _ _ _ _). intros [= <-]. cbn [ba_status].
  destruct (be_pending_end env); [right; right; by left|done].
Qed.

Lemma status_is_code status : In status [0; -1; -2]%Z -> In status loop_codes.
Proof. unfold loop_codes. cbn. tauto. Qed.

Lemma track_batch_nudges calls indices results wf : nudge_count (track_batch calls indices results wf) = nudge_count wf.
Proof.
  unfold track_batch. set (wf0 := mkWorkflow _ _ _ _ _). change (nudge_count wf) with (nudge_count wf0). clearbody wf0.
  induction (call_results _ _ _) as [|ic l IH] in wf0 |- *; [done|]. cbn [foldl]. rewrite IH. unfold track_call.
  by repeat case_match.
Qed.

Lemma first_workflow_nudges calls : nudge_count (first_workflow calls) = 0%Z.
Proof.
  unfold first_workflow. set (wf0 := mkWorkflow _ _ _ _ _). change 0%Z with (nudge_count wf0). clearbody wf0.
  induction calls as [|call calls IH] in wf0 |- *; [done|]. cbn [foldl]. rewrite IH. unfold first_call.
  by repeat case_match.
Qed.

(** The events of an iteration. *)
Inductive loop_step (r k : Z) {R : Regex} {W T : Type} (wf : LoopWorkflowState) : list LoopEvent -> @IterationStep R W T -> Prop :=
| StoppedBefore st rc : In rc loop_codes -> loop_step r k wf [] (Return rc st)
| Stopped st max rc : In rc loop_codes -> loop_step r k wf [Requested max] (Return rc st)
| StoppedBatch st max rc os : In rc loop_codes -> loop_step r k wf [Requested max; RanBatch rc os] (Return rc st)
| Paused st max : (r < STREAM_RETRY_MAX)%Z -> lp_retries st = (r + 1)%Z -> nudge_count (lp_wf st) = k ->
    loop_step r k wf [Requested max; Slept (1000 * 2 ^ r)] (Again st)
| Pushed st max message : nudge_message wf = Some message -> lp_retries st = 0%Z -> nudge_count (lp_wf st) = (k + 1)%Z ->
    loop_step r k wf [Requested max; Nudged message] (Again st)
| Worked st max os : lp_retries st = 0%Z -> nudge_count (lp_wf st) = k ->
    loop_step r k wf [Requested max; RanBatch 0 os] (Again st).

Lemma nudge_room wf message : nudge_message wf = Some message -> (nudge_count wf < ITERATIVE_LOOP_MAX_NUDGES)%Z.
Proof.
  unfold nudge_message. destruct (Z.ltb_spec (nudge_count wf) ITERATIVE_LOOP_MAX_NUDGES); [done|].
  by rewrite !andb_false_r.
Qed.

Section Pace.
Context {R : Regex} {J : CJson} {F : Fnmatch} (cb : ApprovalGateCallbacks) (env : LoopEnv).
Context {W : Type} {RT : RoundTrip W} {T : Type} (rt : ToolRuntime T)
  (schedule : list PreScreenEntry -> list PreScreenEntry).
Context (has_store : bool) (registry : list ModelCapabilities).
Context (send : cstr -> list cstr -> cstr -> option cstr) (tl_account_id : cstr) (tools_count : Z).
Implicit Types (st : @Loop R W T) (agent : @Agent R W T).

Notation iterate := (iterate cb env rt schedule has_store registry send tl_account_id tools_count).
Notation iteration := (iteration cb env rt schedule has_store registry send tl_account_id tools_count).

Lemma run_calls_step r k n calls st step max events :
  ag_events (lp_agent st) = events ++ [Requested max] -> lp_retries st = 0%Z -> nudge_count (lp_wf st) = k ->
  run_calls cb env rt schedule has_store n calls st = Some step ->
  exists ev, ag_events (lp_agent (state_of step)) = events ++ ev /\ loop_step r k (lp_wf st) ev step.
Proof using Type.
  intros He Hr Hk. unfold run_calls. destruct (forallb _ calls).
  { intros [= <-]. exists [Requested max]. split; [done|]. constructor. by left. }
  destruct (negb (le_alloc env n)).
  { intros [= <-]. exists [Requested max]. split; [done|]. constructor. right. by left. }
  destruct (tool_batch_execute _ _ _ _ _ _ _ _ _ _ _) as [answer|] eqn:E; [|done]. cbn [mbind option_bind].
  apply batch_status in E. intros [= <-]. eexists [Requested max; RanBatch (ba_status T answer) _].
  destruct (Z.eqb_spec (ba_status T answer) 0) as [E0|E0]; cbn [negb state_of lp_agent converse with_run ag_events event].
  - rewrite He, E0, <- app_assoc. split; [done|]. apply Worked; [done|]. cbn [lp_wf]. by rewrite track_batch_nudges.
  - rewrite He, <- app_assoc. split; [done|]. apply StoppedBatch. by apply status_is_code.
Qed.

Lemma iteration_step n st step :
  iteration n st = Some step ->
  exists ev, ag_events (lp_agent (state_of step)) = ag_events (lp_agent st) ++ ev /\
    loop_step (lp_retries st) (nudge_count (lp_wf st)) (lp_wf st) ev step.
Proof using Type.
  intros (agent & _ & Hcase)%loop_iteration_cases. cbn zeta in Hcase.
  destruct Hcase as [(He & rc & -> & Hrc)|(max & He & [->|(session & message & w & result & session' & w' & _ & _ & Ha)])].
  - exists []. rewrite app_nil_r. split; [done|]. constructor. unfold loop_codes. destruct Hrc as [->| ->]; cbn; tauto.
  - unfold retry. cbn [lp_retries]. destruct (Z.leb_spec (lp_retries st + 1) STREAM_RETRY_MAX) as [Hle|Hgt].
    + exists [Requested max; Slept (1000 * 2 ^ (lp_retries st + 1 - 1))].
      cbn [state_of with_agent lp_agent event ag_events with_retries]. rewrite He, <- app_assoc. split; [done|].
      rewrite Z.add_simpl_r. apply Paused; [lia|done|done].
    + exists [Requested max]. split; [done|]. constructor. right. by left.
  - unfold answered in Ha. destruct (tool_calls result) as [|call calls].
    + injection Ha as <-. unfold finish_or_nudge. cbn [with_agent with_retries lp_wf lp_agent].
      destruct (nudge_message (lp_wf st)) as [message'|] eqn:En.
      * exists [Requested max; Nudged message']. cbn [state_of with_wf with_agent lp_agent event ag_events converse].
        rewrite He, <- app_assoc. split; [done|]. by apply Pushed.
      * exists [Requested max]. split; [done|]. constructor. by left.
    + by apply (run_calls_step (lp_retries st) (nudge_count (lp_wf st)) _ _ _ _ max (ag_events (lp_agent st))) in Ha.
Qed.

Lemma iterate_paced remaining n st rc st' :
  (0 <= nudge_count (lp_wf st) <= ITERATIVE_LOOP_MAX_NUDGES)%Z -> iterate remaining n st = Some (rc, st') ->
  exists ev, ag_events (lp_agent st') = ag_events (lp_agent st) ++ ev /\ paced (lp_retries st) ev = true /\
    (occurrences is_request ev <= Z.of_nat remaining)%Z /\
    (nudge_count (lp_wf st) + occurrences is_nudge ev <= ITERATIVE_LOOP_MAX_NUDGES)%Z /\ In rc loop_codes.
Proof using Type.
  revert n st. induction remaining as [|remaining IH]; intros n st Hk; cbn [AgentLoop.iterate].
  { intros [= <- <-]. exists []. rewrite app_nil_r. split_and!; try done;
      [unfold occurrences; cbn [List.filter length]; lia..|right; by left]. }
  destruct (iteration n st) as [step|] eqn:E; [|done]. cbn [mbind option_bind].
  destruct (iteration_step n st step E) as (ev1 & He1 & Hs).
  assert (forall st1, step = Again st1 -> (nudge_count (lp_wf st1) <= ITERATIVE_LOOP_MAX_NUDGES)%Z ->
            (nudge_count (lp_wf st) <= nudge_count (lp_wf st1))%Z ->
            iterate remaining (S n) st1 = Some (rc, st') ->
            exists ev, ag_events (lp_agent st') = ag_events (lp_agent st) ++ ev1 ++ ev /\ paced (lp_retries st1) ev = true /\
              (occurrences is_request ev <= Z.of_nat remaining)%Z /\
              (nudge_count (lp_wf st1) + occurrences is_nudge ev <= ITERATIVE_LOOP_MAX_NUDGES)%Z /\ In rc loop_codes) as Hgo.
  { intros st1 -> Hn1 Hn2 Hrun. destruct (IH (S n) st1) as (ev & He & Hrest); [lia|done|].
    exists ev. split; [|done]. cbn [state_of] in He1. by rewrite He, He1, app_assoc. }
  destruct Hs as [st1 rc1 Hrc|st1 max rc1 Hrc|st1 max rc1 os Hrc|st1 max Hr Hr1 Hk1|st1 max message Hm Hr1 Hk1|st1 max os Hr1 Hk1].
  1-3: intros [= <- <-]; eexists; split; [exact He1|]; split_and!; done || (unfold occurrences; cbn [List.filter is_request is_nudge length]; lia) || idtac.
  all: intros Hrun; try apply nudge_room in Hm.
  all: destruct (Hgo st1 eq_refl ltac:(lia) ltac:(lia) Hrun) as (ev & He & Hp & Hq & Hn & Hrc).
  all: eexists; split; [exact He|]; rewrite !occurrences_app.
  all: rewrite Nat2Z.inj_succ; split_and!; try done.
  all: try (unfold occurrences at 1; cbn [List.filter is_request is_nudge length]; lia).
  all: cbn [paced app]; rewrite ?Hr1 in Hp; rewrite ?Hp.
  - rewrite andb_true_r, Z.eqb_refl, andb_true_r. by apply Z.ltb_lt.
  - done.
  - destruct ev; [done|]. by rewrite Z.eqb_refl.
Qed.
End Pace.

Section Returns.
Context {R : Regex} {J : CJson} {F : Fnmatch} {FS : FnmatchSpec F} (cb : ApprovalGateCallbacks) (env : LoopEnv).
Context {W : Type} {RT : RoundTrip W} {T : Type} (rt : ToolRuntime T)
  (schedule : list PreScreenEntry -> list PreScreenEntry).
Context (has_store : bool) (registry : list ModelCapabilities).
Context (send : cstr -> list cstr -> cstr -> option cstr) (tl_account_id : cstr) (tools_count : Z).
Context (Hnamed : NamedCalls RT) (Hsched : forall l, schedule l ≡ₚ l).

Implicit Types (st : @Loop R W T).

(** The iterations [n], [n + 1], .. from a state on, [k] of them. *)
Inductive reaches : nat -> nat -> @Loop R W T -> @Loop R W T -> Prop :=
| reaches_here n st : reaches n 0 st st
| reaches_more n k st st1 st2 :
    iteration cb env rt schedule has_store registry send tl_account_id tools_count n st = Some (Again st1) ->
    reaches (S n) k st1 st2 -> reaches n (S k) st st2.

(** In this state the trimming before the request reads out of bounds. *)
Definition trim_out_of_bounds st : Prop :=
  let session := ag_session (lp_agent st) in
  manage_conversation_tokens send tl_account_id tools_count session (Some [])
    (token_config_init (config_context_window (config session))) = None /\
  ((Z.of_nat (length (conversation session)) < 2 ^ 64)%Z -> exists t, last (conversation session) = Some t /\ is_tool t = true).

(** In this state the request does not return. *)
Definition request_hangs st : Prop :=
  let session := ag_session (lp_agent st) in
  exists usage session',
    manage_conversation_tokens send tl_account_id tools_count session (Some [])
      (token_config_init (config_context_window (config session))) = Some (0%Z, usage, session') /\
    round_trip_execute session' (Some []) (available_response_tokens usage) (ag_servers (lp_agent st)) = None.

Lemma iteration_returns n st :
  iteration cb env rt schedule has_store registry send tl_account_id tools_count n st = None ->
  trim_out_of_bounds st \/ request_hangs st.
Proof using Hnamed Hsched FS.
  unfold iteration, trim_out_of_bounds, request_hangs. cbn zeta. cbn [with_orch lp_agent].
  destruct (manage_conversation_tokens _ _ _ _ _ _) as [[[rc usage] session]|] eqn:Em.
  2: { intros _. left. split; [done|]. intros Hl. by apply (budget_outside _ _ _ _ _ Hl) in Em. }
  cbn [mbind option_bind].
  destruct (rc =? SESSION_CONTEXT_FULL)%Z; [done|]. destruct (Z.eqb_spec rc 0) as [->|]; [cbn [negb]|done].
  cbn [with_agent lp_agent with_session ag_servers].
  destruct (round_trip_execute _ _ _ _) as [[[result session'] servers]|] eqn:E; cbn [mbind option_bind].
  2: { intros _. right. by exists usage, session. }
  destruct result as [result|]; [|done].
  assert (Forall (fun call => is_Some (tc_name call)) (tool_calls result)) as Hnames by (by eapply (Hnamed session)).
  unfold answered. destruct (tool_calls result) as [|call calls]; [done|]. unfold run_calls.
  destruct (forallb _ _); [done|]. destruct (negb (le_alloc env n)); [done|].
  match goal with |- context [tool_batch_execute ?a ?b ?c ?d ?e ?f ?g ?h ?i ?j ?k] =>
    destruct (batch_screened a b c d e f g h i j k) as (answer & _ & _ & _ & _ & _ & Ea & _) end; try done.
  - intros _. by rewrite repeat_length.
  - rewrite Ea. by cbn [mbind option_bind].
Qed.

Lemma iterate_returns remaining n st :
  iterate cb env rt schedule has_store registry send tl_account_id tools_count remaining n st = None ->
  exists k st', (k < remaining)%nat /\ reaches n k st st' /\ (trim_out_of_bounds st' \/ request_hangs st').
Proof using Hnamed Hsched FS.
  revert n st. induction remaining as [|remaining IH]; intros n st; cbn [iterate]; [done|].
  destruct (iteration _ _ _ _ _ _ _ _ _ n st) as [step|] eqn:E.
  - cbn [mbind option_bind]. destruct step as [st1|]; [|done]. intros (k & st' & Hk & Hr & Hs)%IH.
    exists (S k), st'. split; [lia|]. split; [by apply (reaches_more _ _ _ st1)|done].
  - intros _. exists 0%nat, st. split; [lia|]. split; [constructor|]. by apply iteration_returns in E.
Qed.

(** What was reached is what the loop leaves when it may go no further. *)
Lemma reaches_iterate n k st st' :
  reaches n k st st' ->
  iterate cb env rt schedule has_store registry send tl_account_id tools_count k n st = Some ((-1)%Z, st').
Proof using Type.
  induction 1 as [n st|n k st st1 st2 E _ IH]; cbn [iterate]; [done|]. by rewrite E.
Qed.
End Returns.

(** ** The end of the work *)

(** ** What the calls of the batches amount to *)

Notation Outcome := (ToolCall * option cstr)%type.

Definition named_as (p : cstr -> bool) (o : Outcome) : bool := match tc_name o.1 with Some name => p name | None => false end.
(** What the loop takes for a successful write, for a test, and for a failed
    one: it looks for marks in the text of the answer, whatever the answer is. *)
Definition patched (o : Outcome) : bool := named_as is_patch_tool o && patch_ok o.2.
Definition tested (o : Outcome) : bool := named_as (fun name => streq name (cs "shell")) o.
Definition failed (o : Outcome) : bool := exit_code_nonzero o.2.

(** The calls that were run, in their order. *)
Definition ran (events : list LoopEvent) : list Outcome :=
  events ≫= fun e => match e with RanBatch _ outcomes => outcomes | _ => [] end.

(** The same in the terms of the answers: a write answered without the mark of
    failure, a shell command, and one answered without an exit code but zero. *)
Definition answered_without (o : Outcome) (mark : cstr) : Prop :=
  exists text, o.2 = Some text /\ contains text mark = false.

Definition write_unmarked (o : Outcome) : Prop :=
  (tc_name o.1 = Some (cs "apply_patch") \/ tc_name o.1 = Some (cs "write_file")) /\
  answered_without o (quoted "success" ++ cs ": false") /\ answered_without o (quoted "success" ++ cs ":false").

Definition ran_shell (o : Outcome) : Prop := tc_name o.1 = Some (cs "shell").

Definition exit_zero (o : Outcome) : Prop :=
  forall text rest, o.2 = Some text -> strstr text (quoted "exit_code" ++ cs ":") = Some rest -> atoi (skip_spaces (drop 12 rest)) = 0%Z.

(** A write, then the last shell command, with no other exit code than zero and
    with no write after it. *)
Definition tested_after_patch (os : list Outcome) : Prop :=
  exists before test after, os = before ++ test :: after /\ Exists write_unmarked before /\
    ran_shell test /\ exit_zero test /\ Forall (fun o => ~ write_unmarked o /\ ~ ran_shell o) after.

Lemma patched_iff o : patched o = true <-> write_unmarked o.
Proof.
  unfold patched, named_as, write_unmarked, answered_without, patch_ok. destruct (tc_name o.1) as [name|]; [|naive_solver].
  unfold is_patch_tool. destruct o as [c [t|]]; cbn [fst snd]; rewrite ?andb_true_iff, ?orb_true_iff, ?negb_true_iff, ?streq_true.
  - naive_solver.
  - naive_solver.
Qed.

Lemma tested_iff o : tested o = true <-> ran_shell o.
Proof. unfold tested, named_as, ran_shell. destruct (tc_name o.1); [|done]. rewrite streq_true. naive_solver. Qed.

Lemma not_failed_iff o : failed o = false <-> exit_zero o.
Proof.
  unfold failed, exit_zero, exit_code_nonzero. destruct (o.2) as [t|]; [|naive_solver].
  destruct (strstr t _) as [rest|] eqn:E.
  - rewrite negb_false_iff, Z.eqb_eq. split; [intros H t' r' [= <-] Hr; congruence|naive_solver].
  - split; [intros _ t' r' [= <-] Hr; congruence|done].
Qed.

Lemma false_iff (b : bool) P : b = true <-> P -> b = false <-> ~ P.
Proof. destruct b; naive_solver. Qed.

Definition flags (wf : LoopWorkflowState) : bool * bool * bool := (has_patched wf, has_tested_since_patch wf, last_test_failed wf).

Definition tracked (f : bool * bool * bool) (o : Outcome) : bool * bool * bool :=
  if patched o then (true, false, false) else if tested o then (f.1.1, true, failed o) else f.

Lemma flags_track_call wf o : flags (track_call o.2 wf o.1) = tracked (flags wf) o.
Proof.
  unfold tracked, patched, tested, failed, named_as, track_call. destruct (tc_name o.1) as [name|]; [|done].
  destruct (is_patch_tool name) eqn:Ep; cbn [andb].
  - destruct (patch_ok o.2); [done|]. destruct (streq name (cs "shell")) eqn:Es; [|done].
    apply streq_true in Es as ->. discriminate.
  - by destruct (streq name (cs "shell")).
Qed.

Lemma flags_track_batch calls indices results wf :
  flags (track_batch calls indices results wf) = foldl tracked (flags wf) (call_results calls indices results ++ []).
Proof.
  rewrite app_nil_r. unfold track_batch. set (wf0 := mkWorkflow _ _ _ _ _). change (flags wf) with (flags wf0). clearbody wf0.
  induction (call_results _ _ _) as [|o os IH] in wf0 |- *; [done|]. cbn [foldl]. by rewrite IH, flags_track_call.
Qed.

Lemma ran_app a b : ran (a ++ b) = ran a ++ ran b.
Proof. apply bind_app. Qed.

(** The flags say the same. *)
Definition flagged (os : list Outcome) : Prop :=
  exists before test after, os = before ++ test :: after /\ Exists patched before /\
    tested test = true /\ failed test = false /\ Forall (fun o => patched o = false /\ tested o = false) after.

Lemma flagged_iff os : flagged os <-> tested_after_patch os.
Proof.
  assert (forall l, Exists patched l <-> Exists write_unmarked l) as H1.
  { intros l. rewrite !Exists_exists. split; intros (x & Hx & Hp); exists x; (split; [done|]); [apply patched_iff; by destruct (patched x)|].
    by apply patched_iff in Hp as ->. }
  assert (forall l, Forall (fun o => patched o = false /\ tested o = false) l <-> Forall (fun o => ~ write_unmarked o /\ ~ ran_shell o) l) as H2.
  { intros l. rewrite !Forall_forall. by setoid_rewrite (false_iff _ _ (patched_iff _)); setoid_rewrite (false_iff _ _ (tested_iff _)). }
  unfold flagged, tested_after_patch. by setoid_rewrite H1; setoid_rewrite H2; setoid_rewrite tested_iff; setoid_rewrite not_failed_iff.
Qed.

Lemma tracked_flagged t0 f0 os :
  foldl tracked (false, t0, f0) os = (true, true, false) -> flagged os.
Proof.
  assert (forall p t f, foldl tracked (false, t0, f0) os = (p, t, f) ->
            (p = true -> Exists patched os) /\ (p = true -> t = true -> f = false -> flagged os)) as H.
  2: { intros E. by apply (H true true false). }
  induction os as [|o os IH] using rev_ind; intros p t f.
  { by intros [= <- <- <-]. }
  rewrite foldl_app. cbn [foldl]. destruct (foldl tracked (false, t0, f0) os) as [[p' t'] f'] eqn:E. destruct (IH _ _ _ eq_refl) as [IH1 IH2].
  unfold tracked. destruct (patched o) eqn:Ep; [|destruct (tested o) eqn:Et].
  - intros [= <- <- <-]. split; [|done]. intros _. apply Exists_app. right. constructor. by rewrite Ep.
  - intros [= <- <- <-]. cbn. split.
    + intros ?%IH1. apply Exists_app. by left.
    + intros Hp _ Hf. exists os, o, []. split_and!; try done. by apply IH1.
  - intros [= <- <- <-]. split.
    + intros ?%IH1. apply Exists_app. by left.
    + intros Hp Ht Hf. destruct (IH2 Hp Ht Hf) as (a & x & b & -> & Ha & Hx & Hf' & Hb).
      exists a, x, (b ++ [o]). rewrite <- app_assoc. split_and!; try done. apply Forall_app. by split; [|constructor].
Qed.

Section Done.
Context {R : Regex} {J : CJson} {F : Fnmatch} (cb : ApprovalGateCallbacks) (env : LoopEnv).
Context {W : Type} {RT : RoundTrip W} {T : Type} (rt : ToolRuntime T)
  (schedule : list PreScreenEntry -> list PreScreenEntry).
Context (has_store : bool) (registry : list ModelCapabilities).
Context (send : cstr -> list cstr -> cstr -> option cstr) (tl_account_id : cstr) (tools_count : Z).
Implicit Types (st : @Loop R W T).

Notation iterate := (iterate cb env rt schedule has_store registry send tl_account_id tools_count).
Notation iteration := (iteration cb env rt schedule has_store registry send tl_account_id tools_count).

(** The invariant of the loop: its flags are those of the calls it ran. *)
Definition follows wf events0 st : Prop :=
  exists events, ag_events (lp_agent st) = events0 ++ events /\ flags (lp_wf st) = foldl tracked (flags wf) (ran events).

Lemma iteration_follows wf events0 n st step :
  follows wf events0 st -> iteration n st = Some step -> follows wf events0 (state_of step).
Proof using Type.
  intros (events & He & Hf) Hi.
  assert (forall ev st', ag_events (lp_agent st') = ag_events (lp_agent st) ++ ev ->
            flags (lp_wf st') = foldl tracked (flags (lp_wf st)) (ran ev) -> follows wf events0 st') as Hgo.
  { intros ev st' He1 Hf1. exists (events ++ ev). rewrite He1, He, app_assoc. split; [done|].
    by rewrite Hf1, Hf, ran_app, foldl_app. }
  apply loop_iteration_cases in Hi as (agent & _ & Hcase). cbn zeta in Hcase.
  destruct Hcase as [(Ha & rc & -> & _)|(max & Ha & [->|(session & message & w & result & session' & w' & _ & _ & Hr)])].
  - apply (Hgo []); [by rewrite app_nil_r|done].
  - unfold retry. destruct (_ <=? _)%Z; (eapply (Hgo (Requested max :: _));
      [cbn [state_of with_agent lp_agent event ag_events with_retries]; rewrite Ha, <- ?app_assoc; reflexivity|done]).
  - unfold answered in Hr. destruct (tool_calls result) as [|call calls].
    + injection Hr as <-. unfold finish_or_nudge. destruct (nudge_message _); (eapply (Hgo (Requested max :: _));
        [cbn [state_of with_agent lp_agent event ag_events with_retries converse with_wf]; rewrite Ha, <- ?app_assoc; reflexivity
        |done]).
    + unfold run_calls in Hr. destruct (forallb _ _); [injection Hr as <-; by apply (Hgo [Requested max])|].
      destruct (negb (le_alloc env n)); [injection Hr as <-; by apply (Hgo [Requested max])|].
      destruct (tool_batch_execute _ _ _ _ _ _ _ _ _ _ _) as [answer|]; [|done]. cbn [mbind option_bind] in Hr.
      injection Hr as <-. destruct (negb _); (eapply (Hgo [Requested max; RanBatch (ba_status T answer) _]);
        [cbn [state_of lp_agent converse with_run ag_events event with_agent with_retries]; rewrite Ha, <- app_assoc; reflexivity
        |apply flags_track_batch]).
Qed.

(** The last answer has calls, all recorded before. *)
Definition only_repeats st : Prop :=
  exists session message max_tokens w result session',
    round_trip_execute session message max_tokens w = Some (Some result, session', ag_servers (lp_agent st)) /\
    tool_calls result <> [] /\
    Forall (fun call => tc_id call ∈ executed_ids (lp_orch st)) (tool_calls result).

Lemma duplicate_known (orch : ToolOrchestrationContext R) id :
  tool_orchestration_is_duplicate orch (Some id) = true -> id ∈ executed_ids orch.
Proof using Type.
  unfold tool_orchestration_is_duplicate, executed_ids. intros H. apply existsb_exists in H as (x & Hx & Hs).
  apply streq_true in Hs as ->. by apply list_elem_of_In.
Qed.

Lemma track_batch_used calls indices results wf : has_used_tools (track_batch calls indices results wf) = true.
Proof using Type.
  unfold track_batch. set (wf0 := mkWorkflow _ _ _ _ _). assert (has_used_tools wf0 = true) as H0 by done. clearbody wf0.
  induction (call_results _ _ _) as [|ic l IH] in wf0, H0 |- *; [done|]. cbn [foldl]. apply IH. unfold track_call.
  by repeat case_match.
Qed.

Lemma iteration_used n st step :
  has_used_tools (lp_wf st) = true -> iteration n st = Some step -> has_used_tools (lp_wf (state_of step)) = true.
Proof using Type.
  intros Hu (agent & _ & Hcase)%loop_iteration_cases. cbn zeta in Hcase.
  destruct Hcase as [(_ & rc & -> & _)|(max & _ & [->|(session & message & w & result & session' & w' & _ & _ & Ha)])]; [done| |].
  - unfold retry. by destruct (_ <=? _)%Z.
  - unfold answered in Ha. destruct (tool_calls result) as [|call calls].
    + injection Ha as <-. unfold finish_or_nudge. by destruct (nudge_message _).
    + unfold run_calls in Ha. destruct (forallb _ _); [by injection Ha as <-|].
      destruct (negb (le_alloc env n)); [by injection Ha as <-|].
      destruct (tool_batch_execute _ _ _ _ _ _ _ _ _ _ _) as [answer|]; [|done]. injection Ha as <-.
      destruct (negb _); cbn [state_of lp_wf]; apply track_batch_used.
Qed.

Lemma iteration_zero n st st' :
  iteration n st = Some (Return 0 st') -> only_repeats st' \/ nudge_message (lp_wf st') = None.
Proof using Type.
  intros (agent & _ & Hcase)%loop_iteration_cases. cbn zeta in Hcase.
  destruct Hcase as [(_ & rc & [= <- _] & [?|?])|(max & _ & [Ha|(session & message & w & result & session' & w' & Hr & Hw & Ha)])]; [done|done| |].
  - unfold retry in Ha. by destruct (_ <=? _)%Z.
  - unfold answered in Ha. destruct (tool_calls result) as [|call calls] eqn:Ec.
    + injection Ha as Ha. unfold finish_or_nudge in Ha. destruct (nudge_message _) eqn:En; [done|].
      injection Ha as <-. by right.
    + unfold run_calls in Ha. destruct (forallb _ _) eqn:Ed.
      * injection Ha as <-. left. exists session, message, max, w, result, session'. cbn [lp_agent with_agent ag_servers converse].
        rewrite Hw. split; [done|]. rewrite Ec. split; [done|].
        apply List.Forall_forall. intros c Hc. apply duplicate_known. rewrite forallb_forall in Ed. by apply Ed.
      * destruct (negb (le_alloc env n)); [done|].
        destruct (tool_batch_execute _ _ _ _ _ _ _ _ _ _ _) as [answer|]; [|done]. injection Ha as Ha.
        destruct (Z.eqb_spec (ba_status T answer) 0); cbn [negb] in Ha; [done|]. by injection Ha.
Qed.

Lemma iterate_zero remaining n st st' :
  iterate remaining n st = Some (0%Z, st') -> only_repeats st' \/ nudge_message (lp_wf st') = None.
Proof using Type.
  revert n st. induction remaining as [|remaining IH]; intros n st; cbn [AgentLoop.iterate]; [done|].
  destruct (iteration n st) as [step|] eqn:E; [|done]. cbn [mbind option_bind].
  destruct step as [st1|rc st1]; [apply IH|]. intros [= -> ->]. by apply iteration_zero in E.
Qed.
End Done.

(** ** Samples *)

(** A server that gives the answers of a list in their order, then none. *)
Section Scripted.
Context (script : list (option LLMRoundTripResult)).

#[refine] Instance scripted : RoundTrip nat := {
  round_trip_execute session user_message max_tokens n := Some (default None (script !! n), session, S n)
}.
Proof using All. by intros session message max n result session' n' [= <- <- <-]. Defined.

Lemma scripted_named :
  Forall (fun a => match a with Some r => Forall (fun call => is_Some (tc_name call)) (tool_calls r) | None => True end) script ->
  NamedCalls scripted.
Proof using Type.
  intros H session message max n result session' n'. cbn. destruct (script !! n) as [a|] eqn:E; [|done]. cbn.
  intros [= -> _ _]. by apply (Forall_lookup_1 _ _ _ _ H) in E.
Qed.
End Scripted.

Definition text_answer (s : string) : option LLMRoundTripResult :=
  Some (mkRoundTrip (mkParsed None (Some (cs s)) 10 5 15) []).
Definition call_answer (calls : list ToolCall) : option LLMRoundTripResult :=
  Some (mkRoundTrip (mkParsed None None 10 5 15) calls).

Definition sample_session (model : string) (history : ConversationHistory) : SessionData :=
  mkSessionData (mkSessionConfig None (Some (cs model)) None None 8192 0) history 0 (mkRollingSummary None 0 0).

Definition quiet_loop : LoopEnv := mkLoopEnv (fun _ => quiet_batch) (fun _ => true).

Definition sample_agent (history : ConversationHistory) : @Agent RefRegex nat nat :=
  mkAgent (sample_session "gpt-4" history) [] (Some sample_config) (sample_world []) 0%nat 0%nat [].

(** ** Properties *)

(** What the loop did keeps to its limits: requests and nudges are counted, and
    failures are paced. *)
Definition within_limits (wf : LoopWorkflowState) (before after : list LoopEvent) : Prop :=
  exists events, after = before ++ events /\ paced 0 events = true /\
    (occurrences is_request events <= 200)%Z /\
    (nudge_count wf + occurrences is_nudge events <= ITERATIVE_LOOP_MAX_NUDGES)%Z.

(** C3: Whatever the model and the servers answer, the loop makes at most 200
    requests and sends the model back to work at most three times; a failed
    request is followed by a pause of one, two and then four seconds, and the
    fourth failure in a row ends the loop. It returns one of its four codes,
    unless it comes, within these limits, to an iteration in which the request
    does not return or in which the trimming before the request reads outside a
    conversation that ends with a tool's result. *)
Theorem loop_paced {R : Regex} {J : CJson} {F : Fnmatch} {FS : FnmatchSpec F} cb env {W} {RT : RoundTrip W} {T}
    (rt : ToolRuntime T) schedule has_store registry send tl_account_id tools_count orch wf (agent : @Agent R W T) :
  NamedCalls RT -> (forall l, schedule l ≡ₚ l) -> (0 <= nudge_count wf <= ITERATIVE_LOOP_MAX_NUDGES)%Z ->
  match iterative_loop_run cb env rt schedule has_store registry send tl_account_id tools_count orch wf agent with
  | Some (rc, st) => within_limits wf (ag_events agent) (ag_events (lp_agent st)) /\ In rc loop_codes
  | None =>
      exists k st, (k < 200)%nat /\
        reaches cb env rt schedule has_store registry send tl_account_id tools_count 1 k (mkLoop agent orch wf 0) st /\
        within_limits wf (ag_events agent) (ag_events (lp_agent st)) /\
        (trim_out_of_bounds send tl_account_id tools_count st \/ request_hangs send tl_account_id tools_count st)
  end.
Proof.
  intros Hnamed Hsched Hn. unfold iterative_loop_run.
  destruct (iterate _ _ _ _ _ _ _ _ _ _ _ _) as [[rc st]|] eqn:E.
  - apply iterate_paced in E as (ev & H1 & H2 & H3 & H4 & H5); [|done]. split; [|done]. by exists ev.
  - apply iterate_returns in E as (k & st & Hk & Hr & Hs); [|done..]. exists k, st. split; [exact Hk|]. split; [done|]. split; [|done].
    apply reaches_iterate, iterate_paced in Hr as (ev & H1 & H2 & H3 & H4 & _); [|done]. exists ev.
    split; [done|]. split; [done|]. split; [|done]. change ITERATIVE_LOOP_MAX_ITERATIONS with 200%nat in Hk. lia.
Qed.

(** Two failed requests, a nudge, and an end. *)
Lemma loop_paced_witness :
  exists rc st,
    iterative_loop_run (RT := scripted [None; None; text_answer "done"; text_answer "really"; text_answer "yes"; text_answer "!"])
      no_callbacks quiet_loop counting_runtime (fun l => l) false MODEL_DATA
      (fun _ _ _ => None) [] 0 gated_context (mkWorkflow false false false true 2)
      (sample_agent [text_message "user" "fix it"]) = Some (rc, st) /\
    rc = 0%Z /\ exists m1 m2 m3 m4, ag_events (lp_agent st) =
      [Requested m1; Slept 1000; Requested m2; Slept 2000; Requested m3; Nudged NUDGE_APPLY; Requested m4].
Proof.
  set (script := [None; None; text_answer "done"; text_answer "really"; text_answer "yes"; text_answer "!"]).
  assert (NamedCalls (scripted script)) as Hn by (apply scripted_named; repeat constructor).
  pose proof (loop_paced (RT := scripted script) no_callbacks quiet_loop counting_runtime (fun l => l) false MODEL_DATA
    (fun _ _ _ => None) [] 0 gated_context (mkWorkflow false false false true 2) (sample_agent [text_message "user" "fix it"])
    Hn (fun l => reflexivity l) ltac:(vm_compute; split; discriminate)) as H.
  destruct (iterative_loop_run _ _ _ _ _ _ _ _ _ _ _ _) as [[rc st]|] eqn:E; [|vm_compute in E; discriminate].
  exists rc, st. split; [reflexivity|]. vm_compute in E. injection E as <- <-. split; [reflexivity|].
  repeat eexists.
Defined.

(** C4: No call identifier is run twice in the loop, whatever the model repeats, and
    none that was recorded before it, as those of the first batch are. *)
Theorem calls_run_once {R : Regex} {J : CJson} {F : Fnmatch} {FS : FnmatchSpec F} cb env {W} {RT : RoundTrip W} {T}
    (rt : ToolRuntime T) schedule has_store registry send tl_account_id tools_count orch wf
    (agent : @Agent R W (list cstr * T)) rc st :
  NamedCalls RT -> (forall l, schedule l ≡ₚ l) -> (ag_tools agent).1 = [] ->
  iterative_loop_run cb env (recording rt) schedule has_store registry send tl_account_id tools_count orch wf agent =
    Some (rc, st) ->
  let ran := (ag_tools (lp_agent st)).1 in
  NoDup ran /\ forall id, id ∈ ran -> id ∉ executed_ids orch.
Proof.
  intros Hnamed Hsched He Hrun.
  assert (ids_new (executed_ids orch) st) as (Hn & Hin & _).
  { unfold iterative_loop_run in Hrun. eapply iterate_invariant; [| |exact Hrun].
    - intros n st1 step Hst Hi. exact (iteration_ids (RT := RT) cb env rt schedule has_store registry send tl_account_id
        tools_count _ n st1 step Hnamed Hsched Hst Hi).
    - unfold ids_new. cbn [lp_agent lp_orch]. rewrite He. split; [constructor|]. split; [|done].
      intros id Hid. by apply not_elem_of_nil in Hid. }
  split; [exact Hn|]. intros id Hid. by apply Hin.
Qed.

(** The model asks for 1, 2, 2, 3, then for 1 and 3 again. *)
Lemma calls_run_once_witness :
  exists rc st,
    iterative_loop_run
      (RT := scripted [call_answer [read_call "1"; read_call "2"]; call_answer [read_call "2"; read_call "3"];
                       call_answer [read_call "1"; read_call "3"]])
      no_callbacks quiet_loop (recording counting_runtime) (fun l => l) false MODEL_DATA (fun _ _ _ => None) [] 0
      open_context (mkWorkflow false false false true 0)
      (mkAgent (sample_session "gpt-4" []) [] None (sample_world []) 0%nat ([], 0%nat) []) = Some (rc, st) /\
    (ag_tools (lp_agent st)).1 = [cs "1"; cs "2"; cs "3"] /\ NoDup (ag_tools (lp_agent st)).1.
Proof.
  set (script := [call_answer [read_call "1"; read_call "2"]; call_answer [read_call "2"; read_call "3"];
                  call_answer [read_call "1"; read_call "3"]]).
  assert (NamedCalls (scripted script)) as Hn by (apply scripted_named; repeat constructor; eexists; reflexivity).
  set (agent := mkAgent (sample_session "gpt-4" []) [] None (sample_world []) 0%nat ([], 0%nat) []).
  destruct (iterative_loop_run (RT := scripted script) no_callbacks quiet_loop (recording counting_runtime) (fun l => l) false
    MODEL_DATA (fun _ _ _ => None) [] 0 open_context (mkWorkflow false false false true 0) agent) as [[rc st]|] eqn:E.
  2: { vm_compute in E. discriminate. }
  pose proof (calls_run_once (RT := scripted script) no_callbacks quiet_loop counting_runtime (fun l => l) false MODEL_DATA
    (fun _ _ _ => None) [] 0 open_context (mkWorkflow false false false true 0) agent rc st Hn (fun l => reflexivity l)
    eq_refl E) as [H _].
  exists rc, st. split; [reflexivity|]. split; [|exact H].
  clear H Hn. vm_compute in E. injection E as _ <-. reflexivity.
Defined.

(** The first batch decides whether the workflow reports an abort: -2 exactly
    when that batch was aborted, interrupted or failed. Once it succeeded the
    answer is 0, or that the context is full: an abort, an interrupt or a failed
    request in the later iterations is answered by 0 like a success. *)
Theorem later_abort_hidden {R : Regex} {J : CJson} {F : Fnmatch} cb env {W} {RT : RoundTrip W} {T}
    (rt : ToolRuntime T) schedule has_store registry send tl_account_id tools_count dup_ok grow_ok calls
    (agent : @Agent R W T) rc agent' :
  calls <> [] -> le_alloc env 0 = true ->
  tool_executor_run_workflow cb env rt schedule has_store registry send tl_account_id tools_count true dup_ok grow_ok
    calls agent = Some (rc, agent') ->
  exists status outcomes events, ag_events agent' = ag_events agent ++ RanBatch status outcomes :: events /\
    (status <> 0%Z -> rc = (-2)%Z /\ events = []) /\
    (status = 0%Z -> rc = 0%Z \/ rc = SESSION_CONTEXT_FULL).
Proof.
  intros Hc Halloc. unfold tool_executor_run_workflow. destruct calls as [|call calls]; [done|].
  cbn [tool_orchestration_init]. destruct (tool_orchestration_init true (ag_gate agent)) as [orch|] eqn:Ei; [|done].
  rewrite Halloc. cbn [negb]. destruct (tool_batch_execute _ _ _ _ _ _ _ _ _ _ _) as [answer|]; [|done].
  cbn [mbind option_bind].
  match goal with |- context [converse (conversation_append_tool_results ?h ?r ?n ?c None) ?a] =>
    set (agent1 := converse (conversation_append_tool_results h r n c None) a) end.
  assert (exists os, ag_events agent1 = ag_events agent ++ [RanBatch (ba_status T answer) os]) as [os He].
  { unfold agent1. by destruct (existsb _ _); eexists. }
  destruct (Z.eqb_spec (ba_status T answer) 0) as [E0|E0]; cbn [negb].
  - destruct (iterative_loop_run _ _ _ _ _ _ _ _ _ _ _ _) as [[result st]|] eqn:El; [|done]. cbn [mbind option_bind].
    intros [= <- <-]. unfold iterative_loop_run in El. apply iterate_paced in El as (ev & Hev & _).
    2: { cbn [lp_wf]. rewrite first_workflow_nudges. vm_compute. split; discriminate. }
    exists 0%Z, os, ev. cbn [with_gate_config ag_events lp_agent] in *. rewrite Hev, He, E0, <- app_assoc. split; [done|].
    split; [done|]. intros _. destruct (result =? SESSION_CONTEXT_FULL)%Z; auto.
  - intros [= <- <-]. exists (ba_status T answer), os, []. by rewrite He.
Qed.

(** The user aborts the second batch. *)
Lemma later_abort_hidden_witness :
  exists agent',
    tool_executor_run_workflow (RT := scripted [call_answer [shell_call "make"]]) no_callbacks quiet_loop counting_runtime
      (fun l => l) false MODEL_DATA (fun _ _ _ => None) [] 0 true (fun _ => true) (fun _ => true) [read_call "0"]
      (mkAgent (sample_session "gpt-4" []) [] (Some sample_config) (sample_world [Interrupt]) 0%nat 0%nat []) =
      Some (0%Z, agent') /\
    exists m os os', ag_events agent' = [RanBatch 0 os; Requested m; RanBatch (-1) os'].
Proof.
  set (agent := mkAgent (sample_session "gpt-4" []) [] (Some sample_config) (sample_world [Interrupt]) 0%nat 0%nat []).
  set (script := [call_answer [shell_call "make"]]).
  destruct (tool_executor_run_workflow (RT := scripted script) no_callbacks quiet_loop counting_runtime
    (fun l => l) false MODEL_DATA (fun _ _ _ => None) [] 0 true (fun _ => true) (fun _ => true) [read_call "0"] agent)
    as [[rc agent']|] eqn:E.
  2: { vm_compute in E. discriminate. }
  destruct (later_abort_hidden (RT := scripted script) no_callbacks quiet_loop counting_runtime (fun l => l) false MODEL_DATA
    (fun _ _ _ => None) [] 0 (fun _ => true) (fun _ => true) [read_call "0"] agent rc agent' ltac:(discriminate) eq_refl E)
    as (status & os & events & He & _ & _).
  exists agent'. clear He. vm_compute in E. injection E as <- <-. split; [reflexivity|]. do 3 eexists. reflexivity.
Defined.

(** C22: When the loop answers 0 in a session that used tools and had written
    nothing before it, either the model only repeated calls it had made, or it was
    sent back to work three times, or there was a call of apply_patch or
    write_file whose answer lacks the mark of failure, a shell command came after
    the last such call, and the answer to the last shell command has no exit code
    other than zero. The marks are all that is looked at: a call that was refused
    counts like one that succeeded ([refusals_count_as_work]). *)
Theorem done_means_tested {R : Regex} {J : CJson} {F : Fnmatch} cb env {W} {RT : RoundTrip W} {T}
    (rt : ToolRuntime T) schedule has_store registry send tl_account_id tools_count orch wf (agent : @Agent R W T) st :
  has_used_tools wf = true -> has_patched wf = false ->
  iterative_loop_run cb env rt schedule has_store registry send tl_account_id tools_count orch wf agent = Some (0%Z, st) ->
  only_repeats st \/ (ITERATIVE_LOOP_MAX_NUDGES <= nudge_count (lp_wf st))%Z \/
  exists events, ag_events (lp_agent st) = ag_events agent ++ events /\ tested_after_patch (ran events).
Proof.
  intros Hu Hp Hrun. unfold iterative_loop_run in Hrun.
  assert (has_used_tools (lp_wf st) = true) as Hu'.
  { revert Hrun. eapply (iterate_invariant cb env rt schedule has_store registry send tl_account_id tools_count
      (fun st => has_used_tools (lp_wf st) = true)); [|done].
    intros n st1 step. apply iteration_used. }
  assert (follows wf (ag_events agent) st) as (events & He & Hf).
  { revert Hrun. eapply (iterate_invariant cb env rt schedule has_store registry send tl_account_id tools_count
      (follows wf (ag_events agent))); [intros n st1 step; apply iteration_follows|]. exists []. by rewrite app_nil_r. }
  apply iterate_zero in Hrun as [Hr|Hn]; [by left|]. right. unfold nudge_message in Hn. rewrite Hu' in Hn.
  destruct (Z.ltb_spec (nudge_count (lp_wf st)) ITERATIVE_LOOP_MAX_NUDGES); [|by left]. right.
  exists events. split; [done|]. apply flagged_iff, (tracked_flagged (has_tested_since_patch wf) (last_test_failed wf)).
  unfold flags in Hf. rewrite Hp in Hf. rewrite <- Hf.
  destruct (has_patched (lp_wf st)), (has_tested_since_patch (lp_wf st)), (last_test_failed (lp_wf st)); done.
Qed.

(** The answers to calls that the user or the protection of files refused have no
    mark of failure: with a refused write and a refused command the loop takes
    the work for done and tested. *)
Lemma refusals_count_as_work id1 args1 id2 args2 :
  let write := mkToolCall id1 (Some (cs "write_file")) args1 in
  let shell := mkToolCall id2 (Some (cs "shell")) args2 in
  tested_after_patch [(write, format_denial_error true write); (shell, format_denial_error true shell)] /\
  tested_after_patch [(write, format_protected_file_error true (Some (cs "ralph.config.json"))); (shell, format_denial_error true shell)].
Proof.
  cbn zeta. split; apply flagged_iff; eexists [_], _, []; (split; [reflexivity|]); (split; [apply Exists_cons_hd; vm_compute; done|]);
    (split; [reflexivity|]); (split; [vm_compute; reflexivity|constructor]).
Qed.

(** A patch, a failing test, a nudge, and a test that passes. *)
Lemma done_means_tested_witness :
  exists st,
    iterative_loop_run
      (RT := scripted [call_answer [mkToolCall (cs "1") (Some (cs "apply_patch")) (Some (cs "{}"))];
                       call_answer [mkToolCall (cs "2") (Some (cs "shell")) (Some (quoted "exit_code" ++ cs ": 2"))];
                       text_answer "done";
                       call_answer [mkToolCall (cs "3") (Some (cs "shell")) (Some (quoted "exit_code" ++ cs ": 0"))];
                       text_answer "done"])
      no_callbacks quiet_loop counting_runtime (fun l => l) false MODEL_DATA (fun _ _ _ => None) [] 0 open_context
      (mkWorkflow false false false true 0) (sample_agent []) = Some (0%Z, st) /\
    exists events, ag_events (lp_agent st) = events /\ tested_after_patch (ran events).
Proof.
  set (script := [call_answer [mkToolCall (cs "1") (Some (cs "apply_patch")) (Some (cs "{}"))];
                  call_answer [mkToolCall (cs "2") (Some (cs "shell")) (Some (quoted "exit_code" ++ cs ": 2"))];
                  text_answer "done";
                  call_answer [mkToolCall (cs "3") (Some (cs "shell")) (Some (quoted "exit_code" ++ cs ": 0"))];
                  text_answer "done"]).
  destruct (iterative_loop_run (RT := scripted script) no_callbacks quiet_loop counting_runtime (fun l => l) false MODEL_DATA
    (fun _ _ _ => None) [] 0 open_context (mkWorkflow false false false true 0) (sample_agent [])) as [[rc st]|] eqn:E.
  2: { vm_compute in E. discriminate. }
  assert (rc = 0%Z) as -> by (vm_compute in E; congruence).
  pose proof (done_means_tested (RT := scripted script) no_callbacks quiet_loop counting_runtime (fun l => l) false MODEL_DATA
    (fun _ _ _ => None) [] 0 open_context (mkWorkflow false false false true 0) (sample_agent []) st eq_refl eq_refl E) as H.
  exists st. split; [reflexivity|]. destruct H as [(s & m & max & w & result & s' & Hr & Hc & _)|[H|H]]; [| |exact H].
  - exfalso. vm_compute in E. injection E as <-. unfold round_trip_execute, scripted, script in Hr. cbn in Hr.
    injection Hr as Hr _ ->. cbn in Hr. injection Hr as <-. by apply Hc.
  - exfalso. vm_compute in E. injection E as <-. by apply H.
Defined.

(** A model of the Anthropic family: the calls of its answer are not kept, the
    conversation is the one of an answer without calls. The next request holds
    the text of the answer and a tool_result block that names a call no block of
    the conversation made. *)
Theorem claude_calls_forgotten {J : CJson} has_store registry name m content call output (st : SessionData * list StoredText) :
  model (config st.1) = Some name -> detect_model_capabilities registry name = Some m ->
  model_family m = FamilyAnthropic -> tc_name call <> None -> contains content (quoted "tool_use") = false ->
  let answered := conversation_append_assistant has_store registry (Some content) [call] st in
  let next := conversation_append_tool_results has_store [mkToolResult (Some (tc_id call)) (Some output) true false] 1
                [call] None answered in
  answered = conversation_append_assistant has_store registry (Some content) [] st /\
  exists text result, conversation next.1 = conversation st.1 ++ [text; result] /\
    anthropic_message_json text = build_simple_message_json (cs "assistant") content /\
    anthropic_message_json result = cJSON_PrintUnformatted (JObject
      [(cs "role", JString (cs "user"));
       (cs "content", JArray [JObject [(cs "type", JString (cs "tool_result")); (cs "content", JString output);
                                       (cs "tool_use_id", JString (tc_id call))]])]).
Proof.
  intros Hm Hd Hf Hn Hc answered next.
  assert (answered = append_message has_store (cs "assistant") content st) as Ea.
  { unfold answered, conversation_append_assistant, assistant_text, formatted_calls. rewrite Hm. cbn [mbind option_bind].
    unfold format_model_assistant_tool_message. rewrite Hd. cbn [mbind option_bind]. by rewrite Hf. }
  split; [exact Ea|]. destruct (tc_name call) as [tool|] eqn:En; [|done].
  unfold next, conversation_append_tool_results. cbn [seq foldl lookup list_lookup mbind option_bind].
  unfold append_tool_result. cbn [tr_result]. rewrite En, Ea. unfold append_message, append_tool_message, append_conversation_message,
    add_message_to_history. cbn [fst snd].
  destruct (streq (cs "assistant") (cs "tool")) eqn:E1; [done|]. change (streq (cs "assistant") (cs "assistant")) with true.
  change (streq (cs "tool") (cs "tool")) with true. cbv iota.
  destruct (assistant_storage content) as [flag stored]. cbn [fst snd with_conversation conversation].
  eexists _, _. rewrite <- app_assoc. split; [reflexivity|]. unfold anthropic_message_json.
  change (is_tool (mkConversationMessage (cs "assistant") content None None flag)) with false.
  change (is_assistant (mkConversationMessage (cs "assistant") content None None flag)) with true.
  cbn [cv_content cv_role cv_tool_call_id]. rewrite Hc. done.
Qed.

Lemma claude_calls_forgotten_witness :
  exists text result,
    conversation (conversation_append_tool_results false [mkToolResult (Some (cs "toolu_1")) (Some (cs "ok")) true false] 1
      [mkToolCall (cs "toolu_1") (Some (cs "shell")) (Some (cs "{}"))] None
      (conversation_append_assistant false MODEL_DATA (Some (cs "running")) [mkToolCall (cs "toolu_1") (Some (cs "shell")) (Some (cs "{}"))]
        (sample_session "claude-sonnet-4" [], []))).1 = [text; result] /\
    anthropic_message_json text = build_simple_message_json (cs "assistant") (cs "running").
Proof.
  destruct (claude_calls_forgotten false MODEL_DATA (cs "claude-sonnet-4") (mkModel (cs "claude") FamilyAnthropic 200000 false)
    (cs "running") (mkToolCall (cs "toolu_1") (Some (cs "shell")) (Some (cs "{}"))) (cs "ok")
    (sample_session "claude-sonnet-4" [], [])) as (_ & text & result & H1 & H2 & _);
    [reflexivity|reflexivity|reflexivity|discriminate|reflexivity|].
  exists text, result. split; [exact H1|exact H2].
Defined.

(** A result of a tool, just appended, that alone exceeds seven tenths of the
    window: when the rest of the budget is short, the loop never makes its next
    request, the trimming reads outside the conversation. *)
Theorem oversized_result_stops_loop {R : Regex} {J : CJson} {F : Fnmatch} cb env {W} {RT : RoundTrip W} {T}
    (rt : ToolRuntime T) schedule has_store registry send tl_account_id tools_count orch wf (agent : @Agent R W T) t :
  let s := ag_session agent in
  let w := config_context_window (config s) in
  let cfg := token_config_init w in
  let tokens := estimate_token_count (cv_content t) cfg in
  let budget := session_allocation (with_tool_count tools_count s) (Some []) cfg in
  sized (conversation s) -> (Z.of_nat (length (conversation s)) < 2 ^ 64)%Z ->
  last (conversation s) = Some t -> is_tool t = true ->
  (0 <= estimate_opt (system_prompt (config s)) cfg)%Z ->
  (window_fraction w COMPACTION_TARGET_THRESHOLD < tokens)%Z ->
  (trunc_int (f64_mul (f64_of_Z (context_window cfg)) (f64_lit 7 10)) < tokens)%Z ->
  budget.1 = 0%Z -> (available_response_tokens budget.2 < min_response_tokens cfg * 2)%Z ->
  iterative_loop_run cb env rt schedule has_store registry send tl_account_id tools_count orch wf agent = None.
Proof.
  intros s w cfg tokens budget Hs Hl Ht Htool Hsys Hb Hc Hok Havail.
  unfold iterative_loop_run, ITERATIVE_LOOP_MAX_ITERATIONS. cbn [iterate]. unfold iteration. cbn zeta.
  cbn [with_orch lp_agent]. fold s. fold w. fold cfg. unfold manage_conversation_tokens. cbn zeta. fold budget.
  destruct budget as [rc usage]. cbn [fst snd] in Hok, Havail. subst rc. change (negb (0 =? 0)%Z) with false. cbv iota.
  set (compact := mkCompactionConfig _ _).
  destruct (background_outside (with_tool_count tools_count s) t Hs Hl Ht Htool Hsys send tl_account_id compact Hb) as [E|E];
    rewrite E; [done|]. cbn [mbind option_bind]. change (0 <? tokens_saved no_result)%Z with false.
  rewrite andb_false_r. cbn [fst snd]. change (negb (0 =? 0)%Z) with false. cbv iota.
  rewrite (proj2 (Z.ltb_lt _ _) Havail).
  rewrite (compact_outside (with_tool_count tools_count s) t Hs Hl Ht Htool Hsys _ Hc). done.
Qed.

Definition small_session (history : ConversationHistory) : SessionData :=
  mkSessionData (mkSessionConfig None (Some (cs "gpt-4")) None None 400 0) history 0 (mkRollingSummary None 0 0).

(** A window of 400 tokens and a result of 1600 characters. *)
Lemma oversized_result_stops_loop_witness :
  iterative_loop_run (RT := scripted [text_answer "done"]) no_callbacks quiet_loop counting_runtime (fun l => l) false
    MODEL_DATA (fun _ _ _ => None) [] 0 gated_context (mkWorkflow false false false true 0)
    (mkAgent (small_session [text_message "user" "read it"; text_message "assistant" "reading";
                mkConversationMessage (cs "tool") (repeat "x" 1600) (Some (cs "t1")) (Some (cs "read_file")) false])
       [] None (sample_world []) 0%nat 0%nat []) = None.
Proof.
  apply (oversized_result_stops_loop (RT := scripted [text_answer "done"]) no_callbacks quiet_loop counting_runtime (fun l => l)
    false MODEL_DATA (fun _ _ _ => None) [] 0 gated_context (mkWorkflow false false false true 0) _
    (mkConversationMessage (cs "tool") (repeat "x" 1600) (Some (cs "t1")) (Some (cs "read_file")) false)).
  - repeat constructor; vm_compute; done.
  - vm_compute. done.
  - reflexivity.
  - reflexivity.
  - vm_compute. discriminate.
  - vm_compute. reflexivity.
  - vm_compute. reflexivity.
  - vm_compute. reflexivity.
  - vm_compute. reflexivity.
Defined.
