(* ===== verification/Answers.v ===== *)
(** * The answer of a server (the parsing of lib/ui/output_formatter.c)

    From the body of an answer to its text and thinking. [None] stands for a
    filter that does not end; an error is the inner [None]. *)

From S2P Require Import Prelude CString Json ToolArgs ApprovalErrors ToolBatch TokenManager Providers ApiMessages ToolFormat AgentLoop.
Local Open Scope char_scope.
Local Open Scope bool_scope.

(** ** Text *)

(** The first bare quote of a string, over escapes. *)
Fixpoint string_end (s : cstr) : option cstr :=
  match s with
  | [] => None
  | c :: s' =>
      if Ascii.eqb c JQ then Some s
      else if Ascii.eqb c "\" then match s' with [] => None | _ :: s'' => string_end s'' end
      else string_end s'
  end.

(** The text between the quotes, as it is written. *)
Definition extract_json_string (json : cstr) (key : string) : option cstr :=
  key_pos ← strstr json (quoted key ++ [":"]);
  match skip_space (drop (length (quoted key ++ [":"])) key_pos) with
  | c :: start =>
      if Ascii.eqb c JQ then end_ ← string_end start; Some (take (length start - length end_) start) else None
  | [] => None
  end.

Definition OPEN_TAG : cstr := cs "<tool_call>".
Definition CLOSE_TAG : cstr := cs "</tool_call>".
Definition MEMORY_START : cstr := "{" :: quoted "type" ++ [":"].
Definition MEMORY_MARK : cstr := quoted "memory" ++ [":"].

(** A memory call: the mark less than a hundred characters further. *)
Definition memory_near (src : cstr) : bool :=
  match strstr src MEMORY_MARK with Some m => (length src - length m <? 100)%nat | None => false end.

(** The texts in place; each step moves the source forward, except that a block
    that never closes is looked at again. *)
Fixpoint filter_tool_call_markup (fuel : nat) (src : cstr) : option cstr :=
  match fuel with
  | O => None
  | S fuel' =>
      match src with
      | [] => Some []
      | c :: src' =>
          let keep := cons c <$> filter_tool_call_markup fuel' src' in
          if has_prefix OPEN_TAG src then
            match strstr src CLOSE_TAG with
            | Some end_tag => filter_tool_call_markup fuel' (drop 12 end_tag)
            | None => keep
            end
          else if has_prefix MEMORY_START src then
            if memory_near src then
              let '(_, rest, depth) := scan_braces 1 src' in
              if (depth =? 0)%nat then filter_tool_call_markup fuel' (skip_space rest)
              else filter_tool_call_markup fuel' src
            else keep
          else keep
      end
  end.

Definition filtered (s : cstr) : option cstr := filter_tool_call_markup (S (length s)) s.

(** Thinking and response. *)
Definition separate_thinking_and_response (content : cstr) : option (option cstr * option cstr) :=
  match process_thinking_response content with
  | (thinking, Some response) => response ← filtered response; Some (thinking, Some response)
  | (thinking, None) => Some (thinking, None)
  end.

(** ** Answers *)

Section Answers.
Context {J : CJson} (registry : list ModelCapabilities).

Definition no_tokens (k : option Z) : Z := default (-1)%Z k.

Definition openai_usage (root : cJSON) (thinking response : option cstr) : ParsedResponse :=
  let usage := item (Some root) "usage" in
  mkParsed thinking response (no_tokens (int_item usage "prompt_tokens")) (no_tokens (int_item usage "completion_tokens"))
    (no_tokens (int_item usage "total_tokens")).

(** The thinking and the response of a content. *)
Definition process_content (model_name : option cstr) (raw_content : cstr) : option (option cstr * option cstr) :=
  match model_name ≫= detect_model_capabilities registry with
  | Some model =>
      Some (if supports_thinking_tags model then process_thinking_response raw_content else process_simple_response raw_content)
  | None => separate_thinking_and_response raw_content
  end.

Definition parse_api_response_with_model (json_response : cstr) (model_name : option cstr) : option (option ParsedResponse) :=
  match (root ← cJSON_Parse json_response;
         choices ← cJSON_IsArray (item (Some root) "choices");
         first_choice ← head choices;
         message ← item (Some first_choice) "message";
         Some (root, message)) with
  | None => Some None
  | Some (root, message) =>
      match item (Some message) "content" with
      | None =>
          match item (Some message) "tool_calls" with
          | Some _ => Some (Some (openai_usage root None None))
          | None => Some None
          end
      | Some JNull => Some (Some (openai_usage root None None))
      | Some (JString raw_content) =>
          '(thinking, response) ← process_content model_name raw_content;
          Some (Some (openai_usage root thinking response))
      | Some _ => Some None
      end
  end.

Definition parse_api_response (json_response : cstr) : option (option ParsedResponse) :=
  parse_api_response_with_model json_response (extract_json_string json_response "model").

(** Texts of the blocks of a type, a line each. *)
Definition accumulate (acc : option cstr) (text : cstr) : option cstr :=
  match acc with None => Some text | Some a => Some (a ++ NL :: text) end.

Fixpoint gather (blocks : list cJSON) (thinking text : option cstr) : option cstr * option cstr :=
  match blocks with
  | [] => (thinking, text)
  | block :: blocks' =>
      match string_item (Some block) "type" with
      | Some t =>
          if streq t (cs "thinking") then
            gather blocks' (match string_item (Some block) "thinking" with Some s => accumulate thinking s | None => thinking end) text
          else if streq t (cs "text") then
            gather blocks' thinking (match string_item (Some block) "text" with Some s => accumulate text s | None => text end)
          else gather blocks' thinking text
      | None => gather blocks' thinking text
      end
  end.

Definition anthropic_usage (root : cJSON) (thinking response : option cstr) : ParsedResponse :=
  let usage := item (Some root) "usage" in
  let prompt := no_tokens (int_item usage "input_tokens") in
  let completion := no_tokens (int_item usage "output_tokens") in
  mkParsed thinking response prompt completion
    (if (0 <? prompt)%Z && (0 <? completion)%Z then wrap32 (prompt + completion) else (-1)%Z).

Definition parse_anthropic_response (json_response : cstr) : option (option ParsedResponse) :=
  match (root ← cJSON_Parse json_response; content_array ← cJSON_IsArray (item (Some root) "content"); Some (root, content_array)) with
  | None => Some None
  | Some (root, content_array) =>
      match gather content_array None None with
      | (thinking, None) => Some (Some (anthropic_usage root thinking None))
      | (thinking, Some text) =>
          if contains text (cs "<think>") && contains text (cs "</think>") then
            '(inner_thinking, inner_response) ← separate_thinking_and_response text;
            Some (Some (anthropic_usage root
              (match inner_thinking with Some t => accumulate thinking t | None => thinking end) inner_response))
          else Some (Some (anthropic_usage root thinking (Some text)))
      end
  end.
End Answers.
