(* ===== verification/Session.v ===== *)
(** * A message of the user (lib/agent/api_round_trip.c, message_dispatcher.c,
    message_processor.c, streaming_handler.c, session.c)

    From a message to the answer of the model, its tool calls and the loop that
    follows. The prompt and its hooks, the credentials, HTTP, the streamed
    request and the parsing of image references are parameters; display and
    allocation failures are not modelled. [None] stands for a request that does
    not return, or for what AgentLoop.v says. *)

From S2P Require Import Prelude CString Regex Darray RateLimiter Json ToolArgs PathNormalize ProtectedFiles ApprovalGate GateDecision ApprovalErrors ApprovalPrompt ToolOrchestration ToolBatch Streaming Providers Conversation TokenManager Compactor ApiMessages ToolFormat AgentLoop Answers.
Local Open Scope char_scope.
Local Open Scope bool_scope.

(** What the code around a session answers; [U] is what the parser of a stream
    keeps. A skipped message is the [None] of [post_user_input]. *)
Record Surroundings (U W : Type) := mkSurroundings {
  prepare_prompt : SessionData -> option cstr -> W -> option SystemPromptParts * W;
  refresh_credential : W -> option cstr * W;
  llm_client_send : cstr -> list cstr -> cstr -> W -> option (option cstr) * W;
  streaming_send_request : LLMProvider -> SessionData -> option cstr -> Z -> W -> option (StreamingContext U) * option cstr * W;
  image_attachment_parse : cstr -> W -> option (list ImageAttachment * cstr);
  post_user_input : cstr -> W -> option cstr;
  post_llm_response : option cstr -> list ToolCall -> W -> option cstr
}.

(** The settings that no operation changes. *)
Record Settings := mkSettings {
  max_tokens_param : option cstr;
  config_max_tokens : Z;
  enable_streaming : bool;
  tool_functions : list ToolFunction;
  account_id : cstr
}.

Definition API_TYPE_ANTHROPIC : Z := 1.
Definition is_anthropic (session : SessionData) : bool := (api_type (config session) =? API_TYPE_ANTHROPIC)%Z.

Definition with_config (c : SessionConfig) (s : SessionData) : SessionData :=
  mkSessionData c (conversation s) (tool_count s) (rolling_summary s).
Definition with_api_key (k : cstr) (s : SessionData) : SessionData :=
  let c := config s in
  with_config (mkSessionConfig (api_url c) (model c) (Some k) (system_prompt c) (config_context_window c) (api_type c)) s.

Section RoundTrips.
Context {J : CJson} {U W : Type} (sur : Surroundings U W) (settings : Settings) (registry : list ModelCapabilities).
(** The images of the message being sent. *)
Context (images : list ImageAttachment).

(** ** Buffered *)

Definition tools_json (model_name : cstr) : option cJSON :=
  generate_model_tools_json registry (Some model_name) (tool_functions settings) ≫= cJSON_Parse.

Definition message_dispatcher_build_payload (session : SessionData) (user_message : option cstr) (max_tokens : Z) (w : W)
  : option cstr * W :=
  let '(parts, w) := prepare_prompt _ _ sur session user_message w in
  (parts ← parts;
   model_name ← model (config session);
   build_json_payload_common images model_name (Some parts) (conversation session) user_message
     (if is_anthropic session then Some (cs "max_tokens") else max_tokens_param settings) max_tokens (tools_json model_name)
     (if is_anthropic session then format_anthropic_message else format_openai_message) (is_anthropic session), w).

Definition with_refreshed (key : option cstr) (session : SessionData) : SessionData :=
  match key with Some k => with_api_key k session | None => session end.

Definition refreshed (session : SessionData) (w : W) : SessionData * W :=
  let '(key, w) := refresh_credential _ _ sur w in (with_refreshed key session, w).

(** The calls of the body, or those written in the content. *)
Definition answer_calls (model_name : option cstr) (body : cstr) (content : option cstr) : option (list ToolCall) :=
  match parse_model_tool_calls registry model_name body with
  | Scanned 0 (c :: l) => Some (c :: l)
  | Scanned _ _ =>
      match content with
      | None => Some []
      | Some content =>
          match parse_model_tool_calls registry model_name content with
          | Scanned 0 l => Some l
          | Scanned _ _ => Some []
          | _ => None
          end
      end
  | _ => None
  end.

Definition api_round_trip_execute (session : SessionData) (user_message : option cstr) (max_tokens : Z) (w : W)
  : option (option LLMRoundTripResult * SessionData * W) :=
  let '(post_data, w) := message_dispatcher_build_payload session user_message max_tokens w in
  match post_data with
  | None => Some (None, session, w)
  | Some post_data =>
      let '(session, w) := refreshed session w in
      let url := default [] (api_url (config session)) in
      let '(response, w) := llm_client_send _ _ sur url (summary_headers (account_id settings) url (api_key (config session)))
                              post_data w in
      match response with
      | None | Some None => Some (None, session, w)
      | Some (Some body) =>
          p ← (if is_anthropic session then parse_anthropic_response body else parse_api_response registry body);
          match p with
          | None => Some (None, session, w)
          | Some p =>
              calls ← answer_calls (model (config session)) body (assistant_content p);
              Some (Some (mkRoundTrip p calls), session, w)
          end
      end
  end.

(** ** Streamed *)

Definition streamed_call (t : StreamingToolUse) : ToolCall :=
  mkToolCall (tu_id t) (Some (tu_name t)) (Some (content (tu_arguments t))).

Definition streamed_calls (ctx : StreamingContext U) : list ToolCall := map streamed_call (data (tool_uses ctx)).

Definition INT_MAX : Z := 2 ^ 31 - 1.

Definition stream_failed (ctx : StreamingContext U) : bool :=
  match state ctx with STREAM_STATE_ERROR => true | _ => false end.

Definition streaming_round_trip_execute (provider : LLMProvider) (session : SessionData) (user_message : option cstr)
    (max_tokens : Z) (w : W) : option (option LLMRoundTripResult * SessionData * W) :=
  let '(ctx, key, w) := streaming_send_request _ _ sur provider session user_message max_tokens w in
  let session := with_refreshed key session in
  Some (ctx ← ctx;
        if stream_failed ctx then None
        else if (INT_MAX <? Z.of_nat (length (data (tool_uses ctx))))%Z then None
        else Some (mkRoundTrip
               (mkParsed (if (0 <? strlen (content (thinking ctx)))%Z then Some (content (thinking ctx)) else None)
                  (Some (content (text ctx))) (input_tokens ctx) (output_tokens ctx) 0)
               (streamed_calls ctx)), session, w).

(** ** Either *)

Inductive DispatchDecision := DispatchBuffered | DispatchStreaming (provider : LLMProvider).

(** Every provider of the registry supports streaming. *)
Definition message_dispatcher_select_mode (session : SessionData) : DispatchDecision :=
  if negb (enable_streaming settings) then DispatchBuffered
  else match api_url (config session) ≫= detect_provider_for_url get_provider_registry with
       | Some provider => DispatchStreaming provider
       | None => DispatchBuffered
       end.

Definition loop_round_trip (session : SessionData) (user_message : option cstr) (max_tokens : Z) (w : W) :=
  match message_dispatcher_select_mode session with
  | DispatchStreaming provider => streaming_round_trip_execute provider session user_message max_tokens w
  | DispatchBuffered => api_round_trip_execute session user_message max_tokens w
  end.
End RoundTrips.

(** The requests of the loop. *)
Lemma with_refreshed_rest key s :
  conversation (with_refreshed key s) = conversation s /\
  config_context_window (config (with_refreshed key s)) = config_context_window (config s).
Proof. by destruct key. Qed.

Section Loops.
Context {J : CJson} {U W : Type} (sur : Surroundings U W) (settings : Settings) (registry : list ModelCapabilities)
  (images : list ImageAttachment).

Lemma api_round_trip_rest session user_message max_tokens w result session' w' :
  api_round_trip_execute sur settings registry images session user_message max_tokens w = Some (result, session', w') ->
  exists key, session' = with_refreshed key session.
Proof using Type.
  unfold api_round_trip_execute, refreshed. destruct (message_dispatcher_build_payload _ _ _ _ _ _ _ _) as [[post|] w1].
  2: { intros [= _ <- _]. by exists None. }
  destruct (refresh_credential _ _ sur w1) as [key w2]. destruct (llm_client_send _ _ _ _ _ _ _) as [[[body|]|] w3].
  2-3: intros [= _ <- _]; by exists key.
  intros H. apply bind_Some in H as ([p|] & _ & H); [|injection H as _ <- _; by exists key].
  apply bind_Some in H as (calls & _ & [= _ <- _]). by exists key.
Qed.

#[refine] Instance session_round_trip : RoundTrip W := {
  round_trip_execute := loop_round_trip sur settings registry images
}.
Proof using All.
  intros session user_message max_tokens w result session' w'. unfold loop_round_trip.
  destruct (message_dispatcher_select_mode settings session) as [|provider].
  - intros H. apply api_round_trip_rest in H as [key ->]. apply with_refreshed_rest.
  - unfold streaming_round_trip_execute. destruct (streaming_send_request _ _ _ _ _ _ _ _) as [[ctx key] w1].
    intros [= _ <- _]. apply with_refreshed_rest.
Defined.
End Loops.

(** ** A message *)

Section Messages.
Context {R : Regex} {J : CJson} {F : Fnmatch} (cb : ApprovalGateCallbacks) (env : LoopEnv).
Context {U W T : Type} (sur : Surroundings U W) (settings : Settings) (rt : ToolRuntime T)
  (schedule : list PreScreenEntry -> list PreScreenEntry).
Context (has_store : bool) (registry : list ModelCapabilities) (send : cstr -> list cstr -> cstr -> option cstr).
(** The allocations of the first batch. *)
Context (alloc_ok : bool) (dup_ok grow_ok : nat -> bool).

Definition tools_count : Z := Z.of_nat (length (tool_functions settings)).

Definition session_execute_tool_workflow (images : list ImageAttachment) (calls : list ToolCall) (agent : @Agent R W T)
  : option (Z * @Agent R W T) :=
  tool_executor_run_workflow (RT := session_round_trip sur settings registry images) cb env rt schedule has_store registry
    send (account_id settings) tools_count alloc_ok dup_ok grow_ok calls agent.

Definition save_user_message (user_message : option cstr) (agent : @Agent R W T) : @Agent R W T :=
  match user_message with
  | Some (c :: u) => converse (append_message has_store (cs "user") (c :: u)) agent
  | _ => agent
  end.

Definition save_assistant (content : option cstr) (calls : list ToolCall) (agent : @Agent R W T) : @Agent R W T :=
  converse (conversation_append_assistant has_store registry content calls) agent.

(** The calls of an answer, or those the generic parser finds in its text. *)
Definition fallback_calls (calls : list ToolCall) (message_content : option cstr) : option (list ToolCall) :=
  match calls, message_content with
  | [], Some c => match openai_parse_tool_calls c with Scanned 0 l => Some l | Scanned _ _ => Some [] | _ => None end
  | _, _ => Some calls
  end.

(** What the hook makes of a text. *)
Definition hooked (w : W) (message_content : option cstr) (calls : list ToolCall) : option cstr :=
  match message_content, post_llm_response _ _ sur message_content calls w with
  | Some _, Some text => Some text
  | _, _ => message_content
  end.

Definition message_processor_handle_response (images : list ImageAttachment) (result : LLMRoundTripResult)
    (user_message : option cstr) (agent : @Agent R W T) : option (Z * @Agent R W T) :=
  let message_content := assistant_content (parsed result) in
  calls ← fallback_calls (tool_calls result) message_content;
  let message_content := hooked (ag_servers agent) message_content calls in
  let agent := save_assistant message_content calls (save_user_message user_message agent) in
  match calls with
  | [] => Some (0%Z, agent)
  | _ => session_execute_tool_workflow images calls agent
  end.

(** The state of the stream is not looked at. *)
Definition streaming_process_message (images : list ImageAttachment) (provider : LLMProvider) (user_message : option cstr)
    (max_tokens : Z) (agent : @Agent R W T) : option (Z * @Agent R W T) :=
  let '(ctx, key, w) := streaming_send_request _ _ sur provider (ag_session agent) user_message max_tokens (ag_servers agent) in
  let agent := event (Requested max_tokens) (with_servers w (with_session (with_refreshed key (ag_session agent)) agent)) in
  match ctx with
  | None => Some ((-1)%Z, agent)
  | Some ctx =>
      let calls := streamed_calls ctx in
      let text := hooked w (Some (content (text ctx))) (map (fun c => mkToolCall [] (tc_name c) (tc_arguments c)) calls) in
      let agent := save_user_message user_message agent in
      match calls with
      | [] => Some (0%Z, save_assistant text [] agent)
      | _ =>
          if (INT_MAX <? Z.of_nat (length calls))%Z then Some ((-1)%Z, agent)
          else session_execute_tool_workflow images calls (save_assistant text calls agent)
      end
  end.

(** The request of a message, or of a continuation, once the budget is known. *)
Definition send_message (images : list ImageAttachment) (user_message : option cstr) (usage : TokenUsage) (agent : @Agent R W T)
  : option (Z * @Agent R W T) :=
  let max_tokens := if (config_max_tokens settings =? -1)%Z then available_response_tokens usage else config_max_tokens settings in
  match message_dispatcher_select_mode settings (ag_session agent) with
  | DispatchStreaming provider => streaming_process_message images provider user_message max_tokens agent
  | DispatchBuffered =>
      '(result, session, w) ← api_round_trip_execute sur settings registry images (ag_session agent) user_message max_tokens
                                (ag_servers agent);
      let agent := event (Requested max_tokens) (with_servers w (with_session session agent)) in
      match result with
      | None => Some ((-1)%Z, agent)
      | Some result => message_processor_handle_response images result user_message agent
      end
  end.

Definition budgeted (images : list ImageAttachment) (user_message : option cstr) (agent : @Agent R W T)
  : option (Z * @Agent R W T) :=
  let token_config := token_config_init (config_context_window (config (ag_session agent))) in
  '(token_rc, usage, session) ← manage_conversation_tokens send (account_id settings) tools_count (ag_session agent)
                                  user_message token_config;
  let agent := with_session session agent in
  if (token_rc =? SESSION_CONTEXT_FULL)%Z then Some (SESSION_CONTEXT_FULL, agent)
  else if negb (token_rc =? 0)%Z then Some ((-1)%Z, agent)
  else send_message images user_message usage agent.

Definition session_process_message (user_message : cstr) (agent : @Agent R W T) : option (Z * @Agent R W T) :=
  let '(images, effective_message) :=
    match image_attachment_parse _ _ sur user_message (ag_servers agent) with
    | Some (i :: l, cleaned) => (i :: l, cleaned)
    | _ => ([], user_message)
    end in
  match post_user_input _ _ sur effective_message (ag_servers agent) with
  | None => Some (0%Z, agent)
  | Some hook_msg => budgeted images (Some hook_msg) agent
  end.

Definition session_continue (agent : @Agent R W T) : option (Z * @Agent R W T) := budgeted [] None agent.
End Messages.
