(* ===== verification/SessionFacts.v ===== *)
(** * A message of the user: theorems

    The filter that hides calls and when it does not end; the requests of a
    session meet what the loop expects of them; a stream that failed. *)

From S2P Require Import Prelude CString Regex Darray RateLimiter Json ToolArgs PathNormalize ProtectedFiles ApprovalGate GateDecision ApprovalErrors GateTheorems ApprovalPrompt ToolOrchestration ToolBatch Streaming Providers Conversation TokenManager Compactor ApiMessages ToolFormat ToolFormatFacts AgentLoop LoopFacts Answers Session.
Local Open Scope char_scope.
Local Open Scope bool_scope.

(** ** The filter *)

(** A memory call that never closes. *)
Definition unclosed (s : cstr) : bool :=
  negb (has_prefix OPEN_TAG s) && has_prefix MEMORY_START s && memory_near s
  && negb ((scan_braces 1 (drop 1 s)).2 =? 0)%nat.

Lemma filter_step fuel c s :
  filter_tool_call_markup (S fuel) (c :: s) =
    if unclosed (c :: s) then filter_tool_call_markup fuel (c :: s)
    else filter_tool_call_markup (S fuel) (c :: s).
Proof.
  destruct (unclosed (c :: s)) eqn:E; [|done]. unfold unclosed in E. rewrite !andb_true_iff, !negb_true_iff in E.
  destruct E as [[[E1 E2] E3] E4]. cbn [filter_tool_call_markup]. rewrite E1, E2, E3. change (drop 1 (c :: s)) with s in E4.
  destruct (scan_braces 1 s) as [[a b] m]. cbn [snd] in E4. by rewrite E4.
Qed.

Lemma unclosed_spins fuel s : unclosed s = true -> filter_tool_call_markup fuel s = None.
Proof.
  intros H. destruct s as [|c s]; [done|]. induction fuel as [|fuel IH]; [done|]. by rewrite filter_step, H.
Qed.

Lemma skip_space_suffix s : exists a, s = a ++ skip_space s.
Proof.
  induction s as [|c s [a IH]]; [by exists []|]. cbn [skip_space]. destruct (_ || _ || _ || _); [|by exists []].
  exists (c :: a). cbn [app]. by rewrite <- IH.
Qed.

(** The filter ends unless it meets one. *)
Lemma filter_ends fuel s :
  (length s < fuel)%nat -> filter_tool_call_markup fuel s = None -> exists a t, s = a ++ t /\ unclosed t = true.
Proof.
  revert s. induction fuel as [|fuel IH]; intros s Hf; [lia|]. destruct s as [|c s]; [done|]. cbn [length] in Hf.
  destruct (unclosed (c :: s)) eqn:Eu; [intros _; by exists [], (c :: s)|].
  assert (forall a t, c :: s = (c :: a) ++ t -> filter_tool_call_markup fuel t = None ->
            exists a t, c :: s = a ++ t /\ unclosed t = true) as Hgo.
  { intros a t Ht Hn. assert (s = a ++ t) as Hst by (by injection Ht).
    destruct (IH t) as (a' & t' & -> & Hu); [rewrite Hst, length_app in Hf; lia|done|].
    exists ((c :: a) ++ a'), t'. by rewrite <- app_assoc. }
  assert ((c :: s) = [c] ++ s) as Hone by done.
  cbn [filter_tool_call_markup]. destruct (has_prefix OPEN_TAG (c :: s)) eqn:E1.
  - destruct (strstr (c :: s) CLOSE_TAG) as [e|] eqn:Es.
    + intros Hn. apply strstr_Some in Es as (a & b & Ha & Hb). destruct a as [|x a].
      * exfalso. cbn [app] in Ha. subst e. unfold CLOSE_TAG in Hb. unfold OPEN_TAG in E1.
        rewrite Hb in E1. cbn in E1. done.
      * injection Ha as -> Ha. subst e. apply (Hgo (a ++ take 12 (CLOSE_TAG ++ b)) (drop 12 (CLOSE_TAG ++ b))); [|done].
        cbn [app]. f_equal. by rewrite <- app_assoc, take_drop.
    + intros Hn. destruct (filter_tool_call_markup fuel s) eqn:E; [done|]. by apply (Hgo [] s).
  - destruct (has_prefix MEMORY_START (c :: s)) eqn:E2.
    2: { intros Hn. destruct (filter_tool_call_markup fuel s) eqn:E; [done|]. by apply (Hgo [] s). }
    destruct (memory_near (c :: s)) eqn:E3.
    2: { intros Hn. destruct (filter_tool_call_markup fuel s) eqn:E; [done|]. by apply (Hgo [] s). }
    unfold unclosed in Eu. rewrite E1, E2, E3 in Eu. cbn [negb andb] in Eu. change (drop 1 (c :: s)) with s in Eu.
    destruct (scan_braces 1 s) as [[a b] m] eqn:Eb. cbn [snd] in Eu. apply negb_false_iff in Eu. rewrite Eu.
    intros Hn. apply scan_braces_split in Eb as [-> _]. destruct (skip_space_suffix b) as [a' Ha'].
    apply (Hgo (a ++ a') (skip_space b)); [|done]. cbn [app]. f_equal. by rewrite <- app_assoc, <- Ha'.
Qed.

(** ** Properties *)

(** The filter that hides the calls of a text ends on every text without an
    unclosed memory call, a step for each character at most, and whatever time it
    is given it never ends on one that begins with it. *)
Theorem markup_filter_ends (s : cstr) :
  (filtered s = None -> exists before call, s = before ++ call /\ unclosed call = true) /\
  (unclosed s = true -> forall fuel, filter_tool_call_markup fuel s = None).
Proof.
  split; [|by intros H fuel; apply unclosed_spins]. unfold filtered. apply filter_ends. lia.
Qed.

(** What the loop expects of a request holds of those a session makes,
    buffered or streamed, whatever the servers answer: no call without a name. *)
Theorem session_calls_named {J : CJson} {U W} (sur : Surroundings U W) settings registry images :
  NamedCalls (session_round_trip sur settings registry images).
Proof.
  intros session message max w result session' w'. cbn [round_trip_execute session_round_trip]. unfold loop_round_trip.
  destruct (message_dispatcher_select_mode settings session) as [|provider].
  - unfold api_round_trip_execute. destruct (message_dispatcher_build_payload _ _ _ _ _ _ _ _) as [[post|] w1]; [|done].
    destruct (refreshed sur session w1) as [s2 w2]. destruct (llm_client_send _ _ _ _ _ _ _) as [[[body|]|] w3]; try done.
    intros H. apply bind_Some in H as ([p|] & _ & H); [|done]. apply bind_Some in H as (calls & Hc & [= <- _ _]).
    cbn [tool_calls]. unfold answer_calls in Hc.
    assert (forall l, match assistant_content p with
                      | None => Some []
                      | Some content => match parse_model_tool_calls registry (model (config s2)) content with
                                        | Scanned 0 l => Some l | Scanned _ _ => Some [] | _ => None end
                      end = Some l -> Forall named l) as Hfallback.
    { intros l. destruct (assistant_content p) as [content|]; [|by intros [= <-]].
      destruct (parse_model_tool_calls _ _ content) as [[|q|q] k| |] eqn:E; try done; intros [= <-]; try constructor.
      by eapply model_calls_named. }
    destruct (parse_model_tool_calls _ _ body) as [[|q|q] [|c l]| |] eqn:E; try done; try (by apply Hfallback).
    injection Hc as <-. by eapply model_calls_named.
  - unfold streaming_round_trip_execute. destruct (streaming_send_request _ _ _ _ _ _ _ _) as [[[ctx|] key] w1]; [|done].
    cbn [mbind option_bind]. destruct (stream_failed ctx); [done|]. destruct (_ <? _)%Z; [done|]. intros [= <- _ _].
    cbn [tool_calls]. unfold streamed_calls. apply Forall_map, Forall_true. intros t. by eexists.
Qed.

Definition spoken (h : ConversationHistory) : list (cstr * cstr) := map (fun m => (cv_role m, cv_content m)) h.

Lemma spoken_append {J : CJson} has_store role text (st : SessionData * list StoredText) :
  spoken (conversation (append_message has_store role text st).1) = spoken (conversation st.1) ++ [(role, text)].
Proof.
  unfold append_message, append_conversation_message, add_message_to_history.
  destruct (if streq role (cs "tool") then _ else _) as [flag stored]. cbn [fst conversation with_conversation].
  unfold spoken. by rewrite map_app.
Qed.

(** A stream that ended in an error. In the loop the request has failed, and the
    conversation is left as it was; as the first request of a message it counts
    as answered: the message is kept, what had arrived is kept as the answer, and
    the result is success. *)
Theorem stream_error_kept {R : Regex} {J : CJson} {F : Fnmatch} cb env {U W T} (sur : Surroundings U W) settings
    (rt : ToolRuntime T) schedule has_store registry send alloc_ok dup_ok grow_ok images provider (agent : @Agent R W T)
    c u max_tokens ctx key w :
  let message := Some (c :: u) in
  let before := conversation (ag_session agent) in
  streaming_send_request _ _ sur provider (ag_session agent) message max_tokens (ag_servers agent) = (Some ctx, key, w) ->
  stream_failed ctx = true -> data (tool_uses ctx) = [] ->
  (exists session, streaming_round_trip_execute sur provider (ag_session agent) message max_tokens (ag_servers agent) =
     Some (None, session, w) /\ conversation session = before) /\
  exists agent' answer,
    streaming_process_message cb env sur settings rt schedule has_store registry send alloc_ok dup_ok grow_ok
      images provider message max_tokens agent = Some (0%Z, agent') /\
    spoken (conversation (ag_session agent')) = spoken before ++ [(cs "user", c :: u); (cs "assistant", answer)] /\
    Some answer = hooked sur w (Some (content (text ctx))) [].
Proof.
  intros message before E Hf Hc. split.
  - exists (with_refreshed key (ag_session agent)). unfold streaming_round_trip_execute. rewrite E. cbn [mbind option_bind].
    rewrite Hf. split; [done|]. apply with_refreshed_rest.
  - unfold streaming_process_message. rewrite E. unfold streamed_calls. rewrite Hc. cbn [map].
    assert (exists answer, hooked sur w (Some (content (text ctx))) [] = Some answer) as [answer Ha].
    { unfold hooked. destruct (post_llm_response _ _ _ _ _ _); by eexists. }
    rewrite Ha. eexists _, answer. split; [reflexivity|]. split; [|done].
    unfold message. cbn [save_user_message]. unfold save_assistant, conversation_append_assistant, assistant_text.
    cbn [converse ag_session event with_servers with_session ag_stored fst snd]. rewrite !spoken_append. cbn [fst].
    rewrite spoken_append, <- app_assoc. by destruct key.
Qed.

(** A stream that fails after three words. *)
Definition broken_stream : StreamingContext unit :=
  mkContext STREAM_STATE_ERROR (mkBuffer [] 1024) None (mkBuffer (cs "half an answer") 4096) (mkBuffer [] 2048)
    (mkDarray [] 4) (-1) 10 3 None (Some (cs "overloaded")) tt [] [] false.

Definition broken_surroundings : Surroundings unit nat :=
  mkSurroundings unit nat (fun _ _ w => (None, w)) (fun w => (None, w)) (fun _ _ _ w => (None, w))
    (fun _ _ _ _ w => (Some broken_stream, None, w)) (fun _ _ => None) (fun m _ => Some m) (fun _ _ _ => None).

Definition sample_settings : Settings := mkSettings (Some (cs "max_tokens")) 1000 true [] [].

Lemma stream_error_kept_witness :
  exists agent',
    streaming_process_message no_callbacks quiet_loop broken_surroundings sample_settings counting_runtime (fun l => l) false
      MODEL_DATA (fun _ _ _ => None) true (fun _ => true) (fun _ => true) [] AnthropicProvider (Some (cs "why?")) 1000
      (sample_agent []) = Some (0%Z, agent') /\
    spoken (conversation (ag_session agent')) = [(cs "user", cs "why?"); (cs "assistant", cs "half an answer")].
Proof.
  destruct (stream_error_kept no_callbacks quiet_loop broken_surroundings sample_settings counting_runtime (fun l => l) false
    MODEL_DATA (fun _ _ _ => None) true (fun _ => true) (fun _ => true) [] AnthropicProvider (sample_agent []) "w" (cs "hy?") 1000
    broken_stream None 0%nat eq_refl eq_refl eq_refl) as (_ & agent' & answer & E & Hs & Ha).
  exists agent'. split; [exact E|]. injection Ha as ->. exact Hs.
Defined.
