(* ===== verification/Plugins.v ===== *)
(** * Plugins (lib/plugin/plugin_protocol.c, plugin_manager.c)

    A plugin is a child process that reads requests and writes answers, one line
    of JSON each. The messages of the protocol, the exchange of one request for
    one answer within five seconds, the handshake, the registration of the tools
    a plugin offers, and the call of such a tool. The child process is the class
    [PluginProgram]; the sandbox it is started in, memory exhaustion and a write
    that blocks are not modelled. *)

From S2P Require Import Prelude CString Json ToolArgs ToolBatch Streaming.
Local Open Scope char_scope.
Local Open Scope bool_scope.

(** ** Data *)

Definition PLUGIN_PROTOCOL_VERSION : Z := 1.
Definition MAX_PLUGINS : nat := 16.
Definition PLUGIN_MAX_RESPONSE_BYTES : Z := 10 * 1024 * 1024.

Inductive HookAction := HOOK_CONTINUE | HOOK_STOP | HOOK_SKIP.

#[export] Instance HookAction_eq_dec : EqDecision HookAction.
Proof. solve_decision. Defined.

(** A tool as a plugin declares it: the description is NULL when it is missing. *)
Record PluginParameter := mkPluginParameter {
  pp_name : cstr;
  pp_type : cstr;
  pp_description : option cstr;
  pp_required : bool
}.

Record PluginTool := mkPluginTool {
  pt_name : cstr;
  pt_description : option cstr;
  pt_parameters : list PluginParameter
}.

Record PluginManifest := mkManifest {
  pm_name : cstr;
  pm_version : cstr;
  pm_description : cstr;
  pm_hooks : list cstr;
  pm_tools : list PluginTool;
  pm_priority : Z
}.

Record PluginToolResult := mkPluginToolResult { ptr_success : bool; ptr_result : option cstr }.

(** [cJSON_ReplaceItemInObject], and what it does with an object that has the
    key. *)
Class CJsonReplace := cJSON_ReplaceItemInObject : cJSON -> cstr -> cJSON -> cJSON.

Fixpoint replace_member (l : list (cstr * cJSON)) (k : cstr) (v : cJSON) : list (cstr * cJSON) :=
  match l with
  | [] => []
  | (k', v') :: l' => if strcaseeq k' k then (k, v) :: l' else (k', v') :: replace_member l' k v
  end.

Class CJsonReplaceSpec (JR : CJsonReplace) : Prop :=
  replace_item l k v : cJSON_ReplaceItemInObject (JObject l) k v = JObject (replace_member l k v).

#[export] Instance RefReplace : CJsonReplace :=
  fun j k v => match j with JObject l => JObject (replace_member l k v) | _ => j end.
#[export] Instance RefReplaceSpec : CJsonReplaceSpec RefReplace.
Proof. by intros l k v. Qed.

(** What a look at the pipe of a plugin finds: bytes (none: nothing yet), the
    end of the five seconds, the end of the file, an error. When nothing is left
    the five seconds run out. *)
Inductive PipeEvent := Chunk (bytes : cstr) | Deadline | Eof | Broken.

(** A child process. [start]: the executable is spawned. [exited]: what waitpid
    says. [react]: whether a line written to it is taken, and what the reads that
    follow will find, from what was still unread. *)
Class PluginProgram (P : Type) := {
  start : cstr -> option P;
  exited : P -> bool * P;
  react : P -> cstr -> list PipeEvent -> bool * list PipeEvent * P
}.

(** pid and the two descriptors are set and reset together: the process with
    what is unread in its pipe, or [None]. [pl_manifest] is [None] while it is
    zeroed. *)
Record PluginProcess (P : Type) := mkPlugin {
  pl_path : cstr;
  pl_manifest : option PluginManifest;
  pl_child : option (P * list PipeEvent);
  pl_initialized : bool;
  pl_request_id : Z
}.
Arguments mkPlugin {P}.
Arguments pl_path {P}.
Arguments pl_manifest {P}.
Arguments pl_child {P}.
Arguments pl_initialized {P}.
Arguments pl_request_id {P}.

Section Records.
Context {P : Type}.
Implicit Types p : PluginProcess P.

Definition with_child (c : option (P * list PipeEvent)) p : PluginProcess P :=
  mkPlugin (pl_path p) (pl_manifest p) c (pl_initialized p) (pl_request_id p).
Definition with_manifest (m : option PluginManifest) p : PluginProcess P :=
  mkPlugin (pl_path p) m (pl_child p) (pl_initialized p) (pl_request_id p).
Definition with_initialized (b : bool) p : PluginProcess P :=
  mkPlugin (pl_path p) (pl_manifest p) (pl_child p) b (pl_request_id p).
Definition with_request_id (n : Z) p : PluginProcess P :=
  mkPlugin (pl_path p) (pl_manifest p) (pl_child p) (pl_initialized p) n.

Definition pl_name p : option cstr := pm_name <$> pl_manifest p.
End Records.

(** ** Messages (plugin_protocol.c) *)

Section Protocol.
Context {J : CJson}.

Definition rpc (method : cstr) (params : cJSON) (id : Z) : cJSON :=
  JObject [(cs "jsonrpc", JString (cs "2.0")); (cs "method", JString method); (cs "params", params); (cs "id", JNumber id)].

Definition plugin_protocol_build_initialize (protocol_version : Z) : option cstr :=
  cJSON_PrintUnformatted (rpc (cs "initialize") (JObject [(cs "protocol_version", JNumber protocol_version)]) 1).

(** The method is written to a buffer of 128 bytes. *)
Definition plugin_protocol_build_hook_event (hook_name : cstr) (params : cJSON) : option cstr :=
  cJSON_PrintUnformatted (rpc (take 127 (cs "hook/" ++ hook_name)) params 0).

(** The arguments as JSON, as a string when they do not parse. *)
Definition tool_arguments (arguments : option cstr) : cJSON :=
  match arguments with
  | Some a => match cJSON_Parse a with Some args => args | None => JString a end
  | None => JObject []
  end.

Definition plugin_protocol_build_tool_execute (name : cstr) (arguments : option cstr) : option cstr :=
  cJSON_PrintUnformatted
    (rpc (cs "tool/execute") (JObject [(cs "name", JString name); (cs "arguments", tool_arguments arguments)]) 0).

Definition plugin_protocol_build_shutdown : option cstr :=
  cJSON_PrintUnformatted (rpc (cs "shutdown") (JObject []) 0).

Definition get_string (j : cJSON) (k : string) : option cstr := cJSON_IsString (cJSON_GetObjectItem j (cs k)).

Definition is_object (j : cJSON) : bool := match j with JObject _ => true | _ => false end.

Definition parse_plugin_tool_param (item : cJSON) : option PluginParameter :=
  if is_object item then
    name ← get_string item "name";
    Some (mkPluginParameter name (default (cs "string") (get_string item "type")) (get_string item "description")
            (cJSON_IsTrue (cJSON_GetObjectItem item (cs "required"))))
  else None.

Definition parse_plugin_tool_params (params_array : option cJSON) : list PluginParameter :=
  match cJSON_IsArray params_array with Some items => omap parse_plugin_tool_param items | None => [] end.

Definition parse_plugin_tool (t : cJSON) : option PluginTool :=
  if is_object t then
    name ← get_string t "name";
    Some (mkPluginTool name (get_string t "description")
            (parse_plugin_tool_params (cJSON_GetObjectItem t (cs "parameters"))))
  else None.

Definition member_items (j : cJSON) (k : string) : list cJSON :=
  default [] (cJSON_IsArray (cJSON_GetObjectItem j (cs k))).

(** The conversion of a double to int: in range its integral part; [out_of_range]
    is what the machine makes of the others, which C leaves undefined. *)
Definition int_of_number (out_of_range : Z -> Z) (n : Z) : Z :=
  if ((- 2 ^ 31 <=? n) && (n <? 2 ^ 31))%Z then n else out_of_range n.

(** The member "result", when it is an object. *)
Definition result_object (root : cJSON) : option cJSON :=
  result ← cJSON_GetObjectItem root (cs "result"); if is_object result then Some result else None.

Definition plugin_protocol_parse_manifest (out_of_range : Z -> Z) (json : cstr) : option PluginManifest :=
  root ← cJSON_Parse json;
  result ← result_object root;
  name ← get_string result "name";
  Some (mkManifest name (default (cs "0.0.0") (get_string result "version")) (default [] (get_string result "description"))
          (omap (fun h => cJSON_IsString (Some h)) (member_items result "hooks"))
          (omap parse_plugin_tool (member_items result "tools"))
          (match cJSON_IsNumber (cJSON_GetObjectItem result (cs "priority")) with
           | Some n => int_of_number out_of_range n
           | None => 500
           end)).

Definition hook_action (action : option cstr) : HookAction :=
  match action with
  | Some a => if streq a (cs "stop") then HOOK_STOP else if streq a (cs "skip") then HOOK_SKIP else HOOK_CONTINUE
  | None => HOOK_CONTINUE
  end.

(** The action, and the object the hook takes its data from. *)
Definition plugin_protocol_parse_hook_response (json : cstr) : option (HookAction * cJSON) :=
  root ← cJSON_Parse json;
  match cJSON_GetObjectItem root (cs "error") with
  | Some _ => None
  | None => result ← result_object root; Some (hook_action (get_string result "action"), result)
  end.

Definition plugin_protocol_parse_tool_result (json : cstr) : option PluginToolResult :=
  root ← cJSON_Parse json;
  match cJSON_GetObjectItem root (cs "error") with
  | Some error => Some (mkPluginToolResult false (Some (default (cs "Plugin error") (get_string error "message"))))
  | None =>
      result ← result_object root;
      Some (mkPluginToolResult (cJSON_IsTrue (cJSON_GetObjectItem result (cs "success")))
              (match cJSON_GetObjectItem result (cs "result") with
               | Some (JString s) => Some s
               | Some other => cJSON_PrintUnformatted other
               | None => Some []
               end))
  end.
End Protocol.

(** ** One request and its answer (plugin_manager.c) *)

Definition LF : ascii := "010".

(** The buffer before a read: doubled when less than 4096 bytes are free, [None]
    when that would exceed the limit. *)
Definition grown (buf_size buf_used : Z) : option Z :=
  if (buf_size <=? buf_used + 4096)%Z then
    if (PLUGIN_MAX_RESPONSE_BYTES <? buf_size * 2)%Z then None else Some (buf_size * 2)%Z
  else Some buf_size.

(** The end of the loop: nothing was read, or the bytes up to the first NUL. *)
Definition finish (buffer : cstr) : option cstr :=
  match buffer with [] => None | _ => Some (until_nul buffer) end.

Definition ends_line (buffer : cstr) : bool :=
  match last buffer with Some c => Ascii.eqb c LF | None => false end.

(** One read takes what fits before the final NUL; the rest stays in the pipe. *)
Definition read_room (buf_size : Z) (buffer : cstr) : nat := Z.to_nat buf_size - length buffer - 1.

Definition put_back (rest : cstr) (unread : list PipeEvent) : list PipeEvent :=
  match rest with [] => unread | _ => Chunk rest :: unread end.

(** The reading loop: the answer, or an error, with what stays unread. A turn
    uses up an event or a byte; [None]: the fuel ran out. *)
Fixpoint reading_loop (fuel : nat) (buf_size : Z) (buffer : cstr) (unread : list PipeEvent)
  : option (option cstr * list PipeEvent) :=
  match fuel with
  | O => None
  | S fuel' =>
      match unread with
      | [] => Some (finish buffer, [])
      | Deadline :: unread' => Some (finish buffer, unread')
      | Chunk [] :: unread' => reading_loop fuel' buf_size buffer unread'
      | Chunk bytes :: unread' =>
          match grown buf_size (Z.of_nat (length buffer)) with
          | None => Some (None, unread)
          | Some buf_size =>
              let unread := put_back (drop (read_room buf_size buffer) bytes) unread' in
              let buffer := buffer ++ take (read_room buf_size buffer) bytes in
              if (PLUGIN_MAX_RESPONSE_BYTES <? Z.of_nat (length buffer))%Z then Some (None, unread)
              else if ends_line buffer then Some (finish buffer, unread)
              else reading_loop fuel' buf_size buffer unread
          end
      | Eof :: _ =>
          match grown buf_size (Z.of_nat (length buffer)) with
          | None => Some (None, unread)
          | Some _ => Some (finish buffer, unread)
          end
      | Broken :: unread' => Some (None, unread')
      end
  end.

Definition event_size (e : PipeEvent) : nat := match e with Chunk bytes => S (length bytes) | _ => 1 end.
Definition unread_size (unread : list PipeEvent) : nat := foldr (fun e n => event_size e + n)%nat 0%nat unread.

Definition read_response (unread : list PipeEvent) : option cstr * list PipeEvent :=
  match reading_loop (S (unread_size unread)) 8192 [] unread with
  | Some answer => answer
  | None => (None, unread)
  end.

Section Manager.
Context {J : CJson} {JR : CJsonReplace} {P : Type} {PP : PluginProgram P} (out_of_range : Z -> Z).
Implicit Types (p : PluginProcess P) (ps : list (PluginProcess P)).

Definition plugin_manager_send_request p (json : cstr) : option cstr * PluginProcess P :=
  match pl_child p with
  | None => (None, p)
  | Some (prog, unread) =>
      let '(taken, unread, prog) := react prog (json ++ [LF]) unread in
      if taken then
        let '(response, unread) := read_response unread in
        (response, with_child (Some (prog, unread)) p)
      else (None, with_child (Some (prog, unread)) p)
  end.

Definition plugin_check_alive p : bool * PluginProcess P :=
  match pl_child p with
  | None => (false, p)
  | Some (prog, unread) =>
      let '(gone, prog) := exited prog in
      if gone then (false, with_initialized false (with_child None p))
      else (true, with_child (Some (prog, unread)) p)
  end.

(** The answer, or [None] for the return code -1. *)
Definition plugin_send_stamped_request p (json_template : cstr) : option cstr * PluginProcess P :=
  let '(alive, p) := plugin_check_alive p in
  if negb alive then (None, p)
  else
    match cJSON_Parse json_template with
    | None => (None, p)
    | Some root =>
        let stamped := cJSON_ReplaceItemInObject root (cs "id") (JNumber (pl_request_id p)) in
        let p := with_request_id (wrap32 (pl_request_id p + 1)) p in
        match cJSON_PrintUnformatted stamped with
        | None => (None, p)
        | Some json => plugin_manager_send_request p json
        end
    end.

(** A letter. *)
Definition is_letter (c : ascii) : bool :=
  let n := N_of_ascii c in ((97 <=? n) && (n <=? 122) || (65 <=? n) && (n <=? 90))%N.

Definition plugin_name_char (c : ascii) : bool := is_letter c || is_digit c || Ascii.eqb c "-".

Definition plugin_validate_name (name : cstr) : bool :=
  match name with
  | [] => false
  | c :: _ => (length name <=? 64)%nat && is_letter c && forallb plugin_name_char name
  end.

(** ** Starting *)

Definition handshake_plugin p : bool * PluginProcess P :=
  match plugin_protocol_build_initialize PLUGIN_PROTOCOL_VERSION with
  | None => (false, p)
  | Some init_msg =>
      let '(response, p) := plugin_send_stamped_request p init_msg in
      match response with
      | None => (false, p)
      | Some response =>
          match plugin_protocol_parse_manifest out_of_range response with
          | None => (false, with_manifest None p)
          | Some manifest =>
              if plugin_validate_name (pm_name manifest)
              then (true, with_initialized true (with_manifest (Some manifest) p))
              else (false, with_manifest None p)
          end
      end
  end.

Definition same_name p1 p2 : bool :=
  match pl_name p1, pl_name p2 with Some a, Some b => streq a b | _, _ => false end.

(** An earlier plugin that is loaded under the same name. *)
Definition duplicate (earlier : list (PluginProcess P)) p : bool :=
  existsb (fun q => pl_initialized q && same_name q p) earlier.

(** The name a tool is registered under, in a buffer of 256 bytes. *)
Definition prefixed (plugin_name tool_name : cstr) : cstr :=
  take 255 (PLUGIN_TOOL_PREFIX ++ plugin_name ++ "_" :: tool_name).

Definition registered_tools p : list PluginTool :=
  match pl_manifest p with
  | Some m => map (fun t => mkPluginTool (prefixed (pm_name m) (pt_name t)) (pt_description t) (pt_parameters t)) (pm_tools m)
  | None => []
  end.

(** One turn of plugin_manager_start_all: the plugin and the tools registered. *)
Definition start_plugin (earlier : list (PluginProcess P)) p : PluginProcess P * list PluginTool :=
  match start (pl_path p) with
  | None => (p, [])
  | Some prog =>
      let p := with_child (Some (prog, [])) p in
      let '(ok, p) := handshake_plugin p in
      if negb ok then (with_child None p, [])
      else if duplicate earlier p
      then (with_initialized false (with_manifest None (with_child None p)), [])
      else (p, registered_tools p)
  end.

Fixpoint start_from (earlier ps : list (PluginProcess P)) (registry : list PluginTool)
  : list (PluginProcess P) * list PluginTool :=
  match ps with
  | [] => (earlier, registry)
  | p :: ps' =>
      let '(p, tools) := start_plugin earlier p in
      start_from (earlier ++ [p]) ps' (registry ++ tools)
  end.

Definition plugin_manager_start_all ps (registry : list PluginTool) : list (PluginProcess P) * list PluginTool :=
  start_from [] ps registry.

(** ** Calling a tool *)

Definition loaded_as (name : cstr) p : bool :=
  pl_initialized p && match pl_name p with Some n => streq n name | None => false end.

(** The first element that satisfies [f], with its index. *)
Fixpoint find_index_from {A} (f : A -> bool) (i : nat) (l : list A) : option (nat * A) :=
  match l with
  | [] => None
  | x :: l' => if f x then Some (i, x) else find_index_from f (S i) l'
  end.
Definition find_index {A} (f : A -> bool) (l : list A) : option (nat * A) := find_index_from f 0 l.

(** Where the name of a tool leads: the name of the plugin and that of the tool
    there. *)
Definition split_tool_name (name : cstr) : option (cstr * cstr) :=
  if has_prefix PLUGIN_TOOL_PREFIX name then
    let rest := drop 7 name in
    match strchr rest "_" with
    | Some (_ :: tool_name) => Some (take (length rest - S (length tool_name))%nat rest, tool_name)
    | _ => None
    end
  else None.

Definition filled_in (call : ToolCall) (text : option cstr) (success : bool) (result : ToolResult) : ToolResult :=
  mkToolResult (Some (tc_id call)) text success (tr_clear_history result).

(** The request to the plugin found, in slot [i]. *)
Definition call_plugin ps (i : nat) (target : PluginProcess P) (tool_name : cstr) (call : ToolCall) (result : ToolResult)
  : Z * ToolResult * list (PluginProcess P) :=
  match plugin_protocol_build_tool_execute tool_name (tc_arguments call) with
  | None => ((-1)%Z, filled_in call (Some (cs "Failed to build plugin tool request")) false result, ps)
  | Some request =>
      let '(response, target) := plugin_send_stamped_request target request in
      let ps := <[i := target]> ps in
      match response with
      | None => ((-1)%Z, filled_in call (Some (cs "Plugin communication failed")) false result, ps)
      | Some response =>
          match plugin_protocol_parse_tool_result response with
          | None => ((-1)%Z, filled_in call (Some (cs "Failed to parse plugin tool result")) false result, ps)
          | Some r => (0%Z, filled_in call (Some (default [] (ptr_result r))) (ptr_success r) result, ps)
          end
      end
  end.

Definition not_found (call : ToolCall) (result : ToolResult) : ToolResult :=
  filled_in call (Some (cs "Plugin not found")) false result.

(** The name is not NULL: file ToolBatch has compared it. *)
Definition plugin_manager_execute_tool ps (call : ToolCall) (result : ToolResult)
  : Z * ToolResult * list (PluginProcess P) :=
  match tc_name call ≫= split_tool_name with
  | None => ((-1)%Z, result, ps)
  | Some (plugin_name, tool_name) =>
      match find_index (loaded_as plugin_name) ps with
      | None => ((-1)%Z, not_found call result, ps)
      | Some (i, target) => call_plugin ps i target tool_name call result
      end
  end.

(** ** Stopping *)

(** The plugin when its pipes are closed and it is terminated. *)
Definition ask_shutdown p : PluginProcess P :=
  match pl_child p, pl_initialized p, plugin_protocol_build_shutdown with
  | Some _, true, Some shutdown_msg => (plugin_send_stamped_request p shutdown_msg).2
  | _, _, _ => p
  end.

(** What is left of the slot afterwards. *)
Definition shutdown_plugin p : PluginProcess P :=
  mkPlugin [] None None false (pl_request_id (ask_shutdown p)).

Definition plugin_manager_shutdown_one ps (index : Z) : list (PluginProcess P) :=
  if (index <? 0)%Z then ps else alter shutdown_plugin (Z.to_nat index) ps.

(** The processes in the state in which they are terminated, and the plugins the
    manager counts. *)
Definition plugin_manager_shutdown_all ps : list P * list (PluginProcess P) :=
  (omap (fun p => fst <$> pl_child (ask_shutdown p)) ps, []).
End Manager.

(** ** Discovery *)

Inductive FileKind := SymbolicLink | Regular (owner_executes : bool) | OtherFile.

(** The executables of the directory, in the order of the directory: the first
    sixteen. [lstat] is asked for the path as the buffer of 1024 bytes holds it. *)
Fixpoint plugin_manager_discover {P} (plugins_dir : cstr) (lstat : cstr -> option FileKind) (entries : list cstr)
    (ps : list (PluginProcess P)) : list (PluginProcess P) :=
  match entries with
  | [] => ps
  | name :: entries' =>
      if (MAX_PLUGINS <=? length ps)%nat then ps
      else
        let path := take 1023 (plugins_dir ++ "/" :: name) in
        plugin_manager_discover plugins_dir lstat entries'
          (if Ascii.eqb (peek name) "." then ps
           else
             match lstat path with
             | Some (Regular true) => ps ++ [mkPlugin path None None false 1]
             | _ => ps
             end)
  end.
