(* ===== verification/Hooks.v ===== *)
(** * Hooks (lib/plugin/hook_dispatcher.c)

    An event of the agent is sent to the loaded plugins that subscribe to it, by
    priority; each answer may change what the next plugin and the agent see, and
    may end the chain. The two hooks around a tool call and the call of a plugin's
    tool make up a [ToolRuntime] of file ToolBatch. *)

From S2P Require Import Prelude CString Json ToolArgs ToolBatch ApiMessages Plugins.
Local Open Scope char_scope.
Local Open Scope bool_scope.

(** ** The order of the subscribers *)

(** The inner loop: the sorted indices from the last to the first. *)
Fixpoint shift_in (priority : nat -> Z) (key : nat) (sorted : list nat) : list nat :=
  match sorted with
  | [] => [key]
  | j :: sorted' => if (priority key <? priority j)%Z then j :: shift_in priority key sorted' else key :: sorted
  end.

Definition insertion_sort (priority : nat -> Z) (indices : list nat) : list nat :=
  rev (foldl (fun sorted key => shift_in priority key sorted) [] indices).

Section Hooks.
Context {J : CJson} {JR : CJsonReplace} {P : Type} {PP : PluginProgram P}.
Implicit Types (p : PluginProcess P) (ps : list (PluginProcess P)).

Definition plugin_has_hook p (hook_name : cstr) : bool :=
  match pl_manifest p with Some m => existsb (fun h => streq h hook_name) (pm_hooks m) | None => false end.

Definition subscribes (hook_name : cstr) p : bool := pl_initialized p && plugin_has_hook p hook_name.

Definition priority_of ps (i : nat) : Z :=
  match ps !! i ≫= pl_manifest with Some m => pm_priority m | None => 0 end.

Fixpoint subscribers (hook_name : cstr) (i : nat) ps : list nat :=
  match ps with
  | [] => []
  | p :: ps' => (if subscribes hook_name p then [i] else []) ++ subscribers hook_name (S i) ps'
  end.

Definition get_sorted_subscribers ps (hook_name : cstr) : list nat :=
  insertion_sort (priority_of ps) (subscribers hook_name 0 ps).

(** ** The chain *)

(** [C]: what the hook passes to the plugins and lets them change. *)
Record HookDispatchSpec (C : Type) := mkHook {
  hook_name : cstr;
  build_params : C -> cJSON;
  apply_result : C -> HookAction -> cJSON -> C;
  ignore_stop_skip : bool
}.

(** One plugin: its answer, when it can be used. *)
Definition send_hook_event {C} (spec : HookDispatchSpec C) (ctx : C) p : option (HookAction * cJSON) * PluginProcess P :=
  match plugin_protocol_build_hook_event (hook_name C spec) (build_params C spec ctx) with
  | None => (None, p)
  | Some event =>
      let '(response, p) := plugin_send_stamped_request p event in
      (response ≫= plugin_protocol_parse_hook_response, p)
  end.

Fixpoint dispatch_loop {C} (spec : HookDispatchSpec C) (subs : list nat) (ctx : C) ps
  : HookAction * C * list (PluginProcess P) :=
  match subs with
  | [] => (HOOK_CONTINUE, ctx, ps)
  | i :: subs' =>
      match ps !! i with
      | None => dispatch_loop spec subs' ctx ps
      | Some p =>
          let '(answer, p) := send_hook_event spec ctx p in
          let ps := <[i := p]> ps in
          match answer with
          | None => dispatch_loop spec subs' ctx ps
          | Some (action, data) =>
              if negb (ignore_stop_skip C spec) && bool_decide (action = HOOK_SKIP) then (HOOK_SKIP, ctx, ps)
              else
                let ctx := apply_result C spec ctx action data in
                if negb (ignore_stop_skip C spec) && bool_decide (action = HOOK_STOP) then (HOOK_STOP, ctx, ps)
                else dispatch_loop spec subs' ctx ps
          end
      end
  end.

Definition hook_dispatch_generic {C} (spec : HookDispatchSpec C) (ctx : C) ps : HookAction * C * list (PluginProcess P) :=
  dispatch_loop spec (get_sorted_subscribers ps (hook_name C spec)) ctx ps.

(** ** The six hooks *)

(** The string a plugin answers under a key, in place of the present value. *)
Definition replaced (data : cJSON) (key : string) (old : cstr) : cstr := default old (get_string data key).
Definition replaced_opt (data : cJSON) (key : string) (old : option cstr) : option cstr :=
  match get_string data key with Some s => Some s | None => old end.

Definition text_member (key : string) (value : cstr) : cstr * cJSON := (cs key, JString value).
Definition given_member (key : string) (value : option cstr) : list (cstr * cJSON) :=
  match value with Some v => [text_member key v] | None => [] end.

Definition post_user_input_hook : HookDispatchSpec cstr :=
  mkHook cstr (cs "post_user_input")
    (fun message => JObject [text_member "message" message])
    (fun message _ data => replaced data "message" message) false.

Definition hook_dispatch_post_user_input ps (message : cstr) : HookAction * cstr * list (PluginProcess P) :=
  hook_dispatch_generic post_user_input_hook message ps.

Definition context_enhance_hook (user_message : option cstr) : HookDispatchSpec (option cstr) :=
  mkHook (option cstr) (cs "context_enhance")
    (fun context => JObject (given_member "user_message" user_message
                             ++ [text_member "dynamic_context" (default [] context)]))
    (fun context _ data => replaced_opt data "dynamic_context" context) true.

Definition hook_dispatch_context_enhance ps (user_message dynamic_context : option cstr)
  : HookAction * option cstr * list (PluginProcess P) :=
  hook_dispatch_generic (context_enhance_hook user_message) dynamic_context ps.

Definition pre_llm_send_hook : HookDispatchSpec (option cstr * option cstr) :=
  mkHook (option cstr * option cstr) (cs "pre_llm_send")
    (fun c => JObject [text_member "base_prompt" (default [] c.1); text_member "dynamic_context" (default [] c.2)])
    (fun c _ data => (replaced_opt data "base_prompt" c.1, replaced_opt data "dynamic_context" c.2)) false.

Definition hook_dispatch_pre_llm_send ps (prompt : option cstr * option cstr)
  : HookAction * (option cstr * option cstr) * list (PluginProcess P) :=
  hook_dispatch_generic pre_llm_send_hook prompt ps.

(** message_dispatcher_prepare_prompt, after the prompt is built. *)
Definition hooked_prompt ps (user_message : option cstr) (parts : SystemPromptParts) : SystemPromptParts * list (PluginProcess P) :=
  let '(_, context, ps) := hook_dispatch_context_enhance ps user_message (dynamic_context parts) in
  let '(_, (base, context), ps) := hook_dispatch_pre_llm_send ps (base_prompt parts, context) in
  (mkSystemPromptParts base context, ps).

Definition llm_call_json (c : ToolCall) : cJSON :=
  JObject (given_member "name" (tc_name c) ++ given_member "arguments" (tc_arguments c)).

Definition post_llm_response_hook (tool_calls : list ToolCall) : HookDispatchSpec (option cstr) :=
  mkHook (option cstr) (cs "post_llm_response")
    (fun text => JObject [text_member "text" (default [] text); (cs "tool_calls", JArray (map llm_call_json tool_calls))])
    (fun text _ data => replaced_opt data "text" text) false.

Definition hook_dispatch_post_llm_response ps (text : option cstr) (tool_calls : list ToolCall)
  : HookAction * option cstr * list (PluginProcess P) :=
  hook_dispatch_generic (post_llm_response_hook tool_calls) text ps.

Definition call_members (call : ToolCall) : list (cstr * cJSON) :=
  given_member "tool_name" (tc_name call) ++ given_member "arguments" (tc_arguments call).

Definition BLOCKED_JSON : cstr :=
  cs "{" ++ JQ :: cs "blocked" ++ JQ :: cs ":" ++ JQ :: cs "Plugin blocked execution" ++ JQ :: cs "}".

(** Only a plugin that stops the call has a say in its result. *)
Definition blocked_result (call : ToolCall) (result : ToolResult) (data : cJSON) : ToolResult :=
  mkToolResult (Some (tc_id call)) (Some (default BLOCKED_JSON (get_string data "result"))) false (tr_clear_history result).

Definition pre_tool_execute_hook (call : ToolCall) : HookDispatchSpec ToolResult :=
  mkHook ToolResult (cs "pre_tool_execute") (fun _ => JObject (call_members call))
    (fun result action data => if bool_decide (action = HOOK_STOP) then blocked_result call result data else result) false.

Definition hook_dispatch_pre_tool_execute ps (call : ToolCall) (result : ToolResult)
  : HookAction * ToolResult * list (PluginProcess P) :=
  hook_dispatch_generic (pre_tool_execute_hook call) result ps.

Definition post_tool_execute_hook (call : ToolCall) : HookDispatchSpec ToolResult :=
  mkHook ToolResult (cs "post_tool_execute")
    (fun result => JObject (call_members call ++ given_member "result" (tr_result result)
                            ++ [(cs "success", JBool (tr_success result))]))
    (fun result _ data =>
       mkToolResult (tr_call_id result) (replaced_opt data "result" (tr_result result)) (tr_success result)
         (tr_clear_history result)) false.

Definition hook_dispatch_post_tool_execute ps (call : ToolCall) (result : ToolResult)
  : HookAction * ToolResult * list (PluginProcess P) :=
  hook_dispatch_generic (post_tool_execute_hook call) result ps.

(** ** Around a tool call *)

(** What MCP servers and built-in tools do, with a state of their own. *)
Context {T : Type} (mcp tool : ToolCall -> ToolResult -> T -> Z * ToolResult * T).

(** [execute_single_tool] runs a call unless the first hook answers STOP. *)
Definition plugin_runtime : ToolRuntime (list (PluginProcess P) * T) :=
  mkRuntime (list (PluginProcess P) * T)
    (fun call result s =>
       let '(action, result, ps) := hook_dispatch_pre_tool_execute s.1 call result in
       (bool_decide (action = HOOK_STOP), result, (ps, s.2)))
    (fun call result s => let '(rc, result, t) := mcp call result s.2 in (rc, result, (s.1, t)))
    (fun call result s => let '(rc, result, ps) := plugin_manager_execute_tool s.1 call result in (rc, result, (ps, s.2)))
    (fun call result s => let '(rc, result, t) := tool call result s.2 in (rc, result, (s.1, t)))
    (fun call result s => let '(_, result, ps) := hook_dispatch_post_tool_execute s.1 call result in (result, (ps, s.2))).
End Hooks.
Arguments hook_name {C}.
Arguments build_params {C}.
Arguments apply_result {C}.
Arguments ignore_stop_skip {C}.
