(* ===== verification/PluginFacts.v ===== *)
(** * Plugins: theorems

    The order of the subscribers, the reading of an answer, the invariant of the
    loaded plugins, the way of a tool call to its plugin and the verdict of the
    hooks on a tool call, for Plugins.v and Hooks.v. *)

From S2P Require Import Prelude CString Json ToolArgs ToolBatch Streaming ApiMessages Plugins Hooks.
From stdpp Require Import sorting.
Local Open Scope char_scope.
Local Open Scope bool_scope.

(** ** Insertion sort *)

(** [i] is asked before [j]: a smaller priority, or the same and discovered
    earlier. *)
Definition before (priority : nat -> Z) (i j : nat) : Prop :=
  (priority i < priority j)%Z \/ priority i = priority j /\ i < j.

Section Order.
Context (priority : nat -> Z).
Notation after := (fun i j => before priority j i).

Lemma asked_before_trans i j k : before priority i j -> before priority j k -> before priority i k.
Proof. unfold before. lia. Qed.

Lemma shift_in_perm key l : shift_in priority key l ≡ₚ key :: l.
Proof.
  induction l as [|j l IH]; [done|]. cbn. case_match; [|done]. rewrite IH. constructor.
Qed.

Lemma shift_in_sorted key l :
  StronglySorted after l -> Forall (fun j => j < key) l -> StronglySorted after (shift_in priority key l).
Proof.
  induction 1 as [|j l Hs IH Hj]; intros Hk; cbn; [repeat constructor|].
  inversion_clear Hk as [|?? Hjk Hlk]. case_match eqn:E.
  - constructor; [auto|]. rewrite shift_in_perm. constructor; [|done]. left. lia.
  - assert (before priority j key) as Hb by (unfold before; lia).
    constructor; [by constructor|]. constructor; [done|].
    eapply Forall_impl; [exact Hj|]. intros x Hx. exact (asked_before_trans _ _ _ Hx Hb).
Qed.

Lemma shift_all_sorted l : forall sorted,
  StronglySorted lt l -> StronglySorted after sorted -> Forall (fun i => Forall (fun j => j < i) sorted) l ->
  let out := foldl (fun sorted key => shift_in priority key sorted) sorted l in
  StronglySorted after out /\ out ≡ₚ l ++ sorted.
Proof.
  induction l as [|i l IH]; intros sorted Hl Hs Hi; cbn; [done|].
  inversion_clear Hl as [|?? Hl' Hil]. inversion_clear Hi as [|?? Hi1 Hi2].
  destruct (IH (shift_in priority i sorted)) as [H1 H2]; [done|by apply shift_in_sorted| |].
  - rewrite Forall_forall in Hil, Hi2 |- *. intros k Hk. rewrite shift_in_perm. constructor; auto.
  - split; [done|]. rewrite H2, shift_in_perm. by rewrite Permutation_middle.
Qed.

Lemma StronglySorted_rev {A} (R : A -> A -> Prop) l :
  StronglySorted (fun x y => R y x) l -> StronglySorted R (rev l).
Proof.
  induction 1 as [|x l Hs IH Hx]; cbn; [constructor|].
  apply StronglySorted_app_2; [|done|repeat constructor].
  intros y z Hy Hz. apply list_elem_of_singleton in Hz as ->. rewrite Forall_forall in Hx. apply Hx.
  apply list_elem_of_In. rewrite in_rev. by apply list_elem_of_In.
Qed.

Lemma insertion_sort_spec l :
  StronglySorted lt l ->
  StronglySorted (before priority) (insertion_sort priority l) /\ insertion_sort priority l ≡ₚ l.
Proof.
  intros Hl. destruct (shift_all_sorted l []) as [H1 H2]; [done|constructor|by apply Forall_true; constructor|].
  unfold insertion_sort. split; [by apply StronglySorted_rev|].
  rewrite app_nil_r in H2. rewrite <- Permutation_rev. exact H2.
Qed.
End Order.

Lemma sorted_unique (priority : nat -> Z) l1 l2 :
  StronglySorted (before priority) l1 -> StronglySorted (before priority) l2 ->
  (forall i, i ∈ l1 <-> i ∈ l2) -> l1 = l2.
Proof.
  assert (forall i, ~ before priority i i) as Hirr by (unfold before; lia).
  assert (forall l, StronglySorted (before priority) l -> NoDup l) as Hnd.
  { induction 1 as [|x l Hs IH Hx]; constructor; [|done]. intros Hin. rewrite Forall_forall in Hx. by apply (Hirr x), Hx. }
  intros H1 H2 He. eapply (StronglySorted_unique_strong (before priority)); [|exact H1|exact H2|].
  - intros x y _ _ Hxy Hyx. exfalso. by apply (Hirr x), (asked_before_trans _ x y).
  - apply NoDup_Permutation; auto.
Qed.

Section Subscribers.
Context {J : CJson} {JR : CJsonReplace} {P : Type} {PP : PluginProgram P}.
Implicit Types (p : PluginProcess P) (ps : list (PluginProcess P)).

Lemma subscribers_from h ps : forall i0 i,
  i ∈ subscribers h i0 ps <-> exists k p, i = i0 + k /\ ps !! k = Some p /\ subscribes h p = true.
Proof.
  induction ps as [|p ps IH]; intros i0 i; cbn.
  { split; [by intros ?%not_elem_of_nil|]. intros (k & p & _ & Hk & _). done. }
  rewrite elem_of_app, IH. split.
  - intros [Hi|(k & q & -> & Hk & Hq)]; [|exists (S k), q; split; [lia|done]].
    destruct (subscribes h p) eqn:E; [|by apply not_elem_of_nil in Hi].
    apply list_elem_of_singleton in Hi as ->. exists 0, p. split; [lia|done].
  - intros ([|k] & q & -> & Hk & Hq).
    + left. injection Hk as ->. rewrite Hq. apply list_elem_of_singleton. lia.
    + right. exists k, q. split; [lia|done].
Qed.

Lemma subscribers_sorted h ps : forall i0, StronglySorted lt (subscribers h i0 ps).
Proof.
  induction ps as [|p ps IH]; intros i0; cbn; [constructor|].
  destruct (subscribes h p); [|apply IH]. cbn. constructor; [apply IH|].
  apply Forall_forall. intros i Hi. apply subscribers_from in Hi as (k & q & -> & _). lia.
Qed.

(** C21: an event goes to exactly the loaded plugins that subscribe to it, each of
    them once, those of lower priority first and those of the same priority in
    the order of their discovery; no other list has these properties. *)
Theorem subscribers_in_order ps hook l :
  l = get_sorted_subscribers ps hook <->
  StronglySorted (before (priority_of ps)) l /\
  forall i, i ∈ l <-> exists p, ps !! i = Some p /\ pl_initialized p = true /\ plugin_has_hook p hook = true.
Proof.
  assert (StronglySorted (before (priority_of ps)) (get_sorted_subscribers ps hook) /\
          forall i, i ∈ get_sorted_subscribers ps hook <->
            exists p, ps !! i = Some p /\ pl_initialized p = true /\ plugin_has_hook p hook = true) as [Hs Hi].
  { destruct (insertion_sort_spec (priority_of ps) (subscribers hook 0 ps)) as [Hs Hp]; [apply subscribers_sorted|].
    split; [done|]. intros i. unfold get_sorted_subscribers. rewrite Hp, subscribers_from. unfold subscribes. split.
    - intros (k & p & -> & Hk & [H1 H2]%andb_true_iff). by exists p.
    - intros (p & Hk & H1 & H2). exists i, p. by rewrite H1, H2. }
  split; [by intros ->|]. intros [Hs' Hi']. apply (sorted_unique (priority_of ps)); [done..|].
  intros i. by rewrite Hi, Hi'.
Qed.
End Subscribers.

(** ** Reading an answer *)

(** The sizes the buffer takes: 8192 doubled at most ten times. *)
Definition size_ok (n : Z) : Prop := exists k : Z, (0 <= k <= 10 /\ n = 8192 * 2 ^ k)%Z.

Lemma size_ok_range n : size_ok n -> (8192 <= n <= 8388608)%Z.
Proof.
  intros (k & Hk & ->). pose proof (Z.pow_le_mono_r 2 0 k). pose proof (Z.pow_le_mono_r 2 k 10). lia.
Qed.

Lemma grown_ok n used n' :
  size_ok n -> (used < n)%Z -> grown n used = Some n' -> size_ok n' /\ (used + 4096 < n')%Z.
Proof.
  intros Hs Hu. pose proof (size_ok_range n Hs). unfold grown, PLUGIN_MAX_RESPONSE_BYTES.
  destruct (Z.leb_spec n (used + 4096)); [|intros [= <-]; by split].
  destruct (Z.ltb_spec (10 * 1024 * 1024) (n * 2)); [done|]. intros [= <-].
  split; [|lia]. destruct Hs as (k & Hk & ->). exists (k + 1)%Z. rewrite Z.pow_add_r by lia.
  assert (k <> 10)%Z by (intros ->; lia). lia.
Qed.

Lemma grown_below n used : size_ok n -> (used < n)%Z -> (used <= 8384511)%Z -> is_Some (grown n used).
Proof.
  intros Hs Hu Hb. pose proof (size_ok_range n Hs). unfold grown, PLUGIN_MAX_RESPONSE_BYTES.
  destruct (Z.leb_spec n (used + 4096)); [|by eexists].
  destruct (Z.ltb_spec (10 * 1024 * 1024) (n * 2)); [|by eexists].
  exfalso. destruct Hs as (k & Hk & ->). destruct (Z.eq_dec k 10%Z) as [->|]; [lia|].
  pose proof (Z.pow_le_mono_r 2 k 9). lia.
Qed.

Lemma read_chunk fuel n buffer c bytes unread :
  reading_loop (S fuel) n buffer (Chunk (c :: bytes) :: unread) =
  match grown n (Z.of_nat (length buffer)) with
  | None => Some (None, Chunk (c :: bytes) :: unread)
  | Some n =>
      let buffer' := buffer ++ take (read_room n buffer) (c :: bytes) in
      let unread' := put_back (drop (read_room n buffer) (c :: bytes)) unread in
      if (PLUGIN_MAX_RESPONSE_BYTES <? Z.of_nat (length buffer'))%Z then Some (None, unread')
      else if ends_line buffer' then Some (finish buffer', unread')
      else reading_loop fuel n buffer' unread'
  end.
Proof. reflexivity. Qed.

Lemma room_pos n buffer : size_ok n -> (Z.of_nat (length buffer) + 4096 < n)%Z -> 0 < read_room n buffer.
Proof. intros H%size_ok_range Hu. unfold read_room. lia. Qed.

Lemma unread_size_cons e unread : unread_size (e :: unread) = event_size e + unread_size unread.
Proof. reflexivity. Qed.

Lemma put_back_size r c bytes unread :
  0 < r -> unread_size (put_back (drop r (c :: bytes)) unread) < unread_size (Chunk (c :: bytes) :: unread).
Proof.
  intros Hr. unfold put_back. pose proof (length_drop (c :: bytes) r) as Hl.
  rewrite unread_size_cons. cbn [event_size length] in *.
  destruct (drop r (c :: bytes)) as [|x rest] eqn:E; [lia|]. rewrite unread_size_cons. cbn [event_size length] in *. lia.
Qed.

Lemma taken_length n buffer bytes :
  size_ok n -> (Z.of_nat (length buffer) + 4096 < n)%Z ->
  (Z.of_nat (length (buffer ++ take (read_room n buffer) bytes)) < n)%Z.
Proof. intros H%size_ok_range Hu. rewrite length_app, length_take. unfold read_room. lia. Qed.

Lemma until_nul_length s : length (until_nul s) <= length s.
Proof. induction s as [|c s IH]; cbn; [done|]. case_match; cbn; lia. Qed.

Lemma finish_length buffer text : finish buffer = Some text -> length text <= length buffer.
Proof. destruct buffer as [|c b]; [done|]. intros [= <-]. apply (until_nul_length (c :: b)). Qed.

Lemma reading_loop_ends fuel : forall n buffer unread,
  unread_size unread < fuel -> size_ok n -> (Z.of_nat (length buffer) < n)%Z ->
  exists answer unread', reading_loop fuel n buffer unread = Some (answer, unread') /\
    forall text, answer = Some text -> (Z.of_nat (length text) < 8388608)%Z.
Proof.
  induction fuel as [|fuel IH]; intros n buffer unread Hf Hn Hb; [lia|].
  pose proof (size_ok_range n Hn).
  assert (forall text, finish buffer = Some text -> (Z.of_nat (length text) < 8388608)%Z) as Hfin.
  { intros text E. apply finish_length in E. lia. }
  destruct unread as [|[[|c bytes]| | |] unread]; try (by eexists _, _).
  - apply IH; [|done..]. rewrite unread_size_cons in Hf. cbn [event_size length] in Hf. lia.
  - rewrite read_chunk. destruct (grown n _) as [n'|] eqn:E; [|by eexists _, _].
    destruct (grown_ok _ _ _ Hn Hb E) as [Hn' Hu]. pose proof (size_ok_range n' Hn').
    pose proof (taken_length n' buffer (c :: bytes) Hn' Hu) as Ht. cbv zeta.
    destruct (_ <? _)%Z; [by eexists _, _|]. destruct (ends_line _).
    + eexists _, _. split; [reflexivity|]. intros text Hx%finish_length. lia.
    + apply IH; [|done..]. pose proof (put_back_size (read_room n' buffer) c bytes unread (room_pos _ _ Hn' Hu)). lia.
  - cbn [reading_loop]. destruct (grown n _); by eexists _, _.
Qed.

Lemma size_8192 : size_ok 8192.
Proof. by exists 0%Z. Qed.

(** C31: whatever a plugin writes and however it is cut, the reading of an answer
    ends (its fuel, a turn per byte and event of the pipe, is never used up), and
    the answer is shorter than 8 MB: the buffer never grows to the limit of 10. *)
Theorem reading_ends_bounded unread :
  exists answer unread',
    reading_loop (S (unread_size unread)) 8192 [] unread = Some (answer, unread') /\
    read_response unread = (answer, unread') /\
    forall text, answer = Some text -> (Z.of_nat (length text) < 8 * 1024 * 1024)%Z.
Proof.
  destruct (reading_loop_ends (S (unread_size unread)) 8192 [] unread) as (a & u & E & Hl); [lia|apply size_8192|done|].
  exists a, u. unfold read_response. by rewrite E.
Qed.

(** The pieces hold a line and nothing is left over of it. *)
Lemma reassembled fuel : forall n buffer pieces body rest,
  unread_size (map Chunk pieces ++ rest) < fuel -> size_ok n -> (Z.of_nat (length buffer) < n)%Z ->
  Forall (fun piece => piece <> []) pieces -> pieces <> [] ->
  buffer ++ concat pieces = body ++ [LF] -> LF ∉ body -> (Z.of_nat (length body) <= 8384511)%Z ->
  reading_loop fuel n buffer (map Chunk pieces ++ rest) = Some (finish (body ++ [LF]), rest).
Proof.
  induction fuel as [|fuel IH]; intros n buffer pieces body rest Hf Hn Hb Hp Hne Hl Hbody Hlen; [lia|].
  destruct pieces as [|piece pieces]; [done|]. inversion_clear Hp as [|?? Hp1 Hp2].
  destruct piece as [|c bytes]; [done|]. cbn [map app concat] in *. rewrite read_chunk.
  assert (Z.of_nat (length buffer) <= 8384511)%Z as Hlb.
  { apply (f_equal length) in Hl. rewrite !length_app in Hl. cbn [length app] in Hl. lia. }
  destruct (grown_below n _ Hn Hb Hlb) as [n' E]. rewrite E.
  destruct (grown_ok _ _ _ Hn Hb E) as [Hn' Hu]. pose proof (size_ok_range n' Hn').
  pose proof (taken_length n' buffer (c :: bytes) Hn' Hu) as Ht.
  pose proof (room_pos _ _ Hn' Hu) as Hr. cbv zeta.
  set (got := take (read_room n' buffer) (c :: bytes)) in *. set (left := drop (read_room n' buffer) (c :: bytes)) in *.
  assert (c :: bytes = got ++ left) as Hgl by (symmetry; apply take_drop).
  destruct (Z.ltb_spec PLUGIN_MAX_RESPONSE_BYTES (Z.of_nat (length (buffer ++ got)))) as [Hx|_];
    [unfold PLUGIN_MAX_RESPONSE_BYTES in Hx; lia|].
  assert (exists more, map Chunk more ++ rest = put_back left (map Chunk pieces ++ rest) /\
            Forall (fun piece => piece <> []) more /\ concat more = left ++ concat pieces) as (more & Hm & Hmp & Hmc).
  { unfold put_back. destruct left as [|x left']; [by exists pieces|]. exists ((x :: left') :: pieces).
    split; [done|]. split; [by constructor|done]. }
  rewrite <- Hm.
  assert (buffer ++ got ++ concat more = body ++ [LF]) as Hl'.
  { rewrite Hmc, (app_assoc got), <- Hgl. exact Hl. }
  rewrite (app_assoc buffer) in Hl'.
  destruct more as [|m more].
  - cbn [concat] in Hl'. rewrite app_nil_r in Hl'. rewrite Hl'. unfold ends_line. rewrite last_snoc.
    by rewrite (proj2 (ascii_eqb_true LF LF)).
  - assert (ends_line (buffer ++ got) = false) as ->.
    { assert (LF ∉ buffer ++ got) as Hnl.
      { inversion_clear Hmp as [|?? Hm1 Hm2]. destruct (exists_last Hm1) as (m' & y & Em).
        assert (exists z tail, concat (m :: more) = tail ++ [z]) as (z & tail & Ez).
        { destruct (concat (m :: more)) as [|w cm] eqn:Ec using rev_ind; [|eauto].
          cbn [concat] in Ec. apply app_eq_nil in Ec as [-> _]. done. }
        rewrite Ez, app_assoc in Hl'. apply app_inj_tail in Hl' as [Hl' _]. rewrite <- Hl' in Hbody.
        set_solver. }
      unfold ends_line. destruct (last (buffer ++ got)) as [z|] eqn:El; [|done].
      apply ascii_eqb_false. intros ->. apply Hnl. apply last_Some in El as [l' El]. rewrite El. set_solver. }
    pose proof (put_back_size (read_room n' buffer) c bytes (map Chunk pieces ++ rest) Hr) as Hsz.
    fold left in Hsz. rewrite <- Hm in Hsz. apply IH; auto; try lia; done.
Qed.

Lemma until_nul_free s : NUL ∉ s -> until_nul s = s.
Proof.
  induction s as [|c s IH]; [done|]. intros H. cbn [until_nul]. destruct (Ascii.eqb c CString.NUL) eqn:E.
  - apply ascii_eqb_true in E as ->. exfalso. apply H. left.
  - f_equal. apply IH. set_solver.
Qed.

(** A line is read whole, and nothing after it, however the pipe cuts it,
    when it fits the buffer at its greatest size less one block of 4096 bytes. *)
Theorem answer_reassembled pieces line rest :
  Forall (fun piece => piece <> []) pieces -> concat pieces = line ++ [LF] ->
  LF ∉ line -> NUL ∉ line -> (Z.of_nat (length line) <= 8384511)%Z ->
  read_response (map Chunk pieces ++ rest) = (Some (line ++ [LF]), rest).
Proof.
  intros Hp Hc Hl Hn Hlen. unfold read_response.
  rewrite (reassembled _ 8192 [] pieces line rest); [|lia|apply size_8192|done|done| |done..].
  - unfold finish. rewrite <- (until_nul_free (line ++ [LF])) at 2; [|set_solver].
    by destruct (line ++ [LF]) eqn:E; [destruct line|].
  - intros ->. by destruct line.
Qed.

Lemma answer_reassembled_witness :
  read_response [Chunk (cs "{}"); Chunk (cs " "); Chunk [LF]; Deadline] = (Some (cs "{} " ++ [LF]), [Deadline]).
Proof.
  apply (answer_reassembled [cs "{}"; cs " "; [LF]] (cs "{} ") [Deadline]); [|reflexivity| | |vm_compute; discriminate].
  - by repeat constructor.
  - by apply (bool_decide_unpack _).
  - by apply (bool_decide_unpack _).
Defined.

(** ** The loaded plugins *)

Section Loaded.
Context {J : CJson} {JR : CJsonReplace} {P : Type} {PP : PluginProgram P} (out_of_range : Z -> Z).
Implicit Types (p q : PluginProcess P) (ps : list (PluginProcess P)).

(** A plugin may be unloaded; while it is loaded its manifest does not change. *)
Definition evolves p p' : Prop :=
  pl_initialized p' = true -> pl_initialized p = true /\ pl_manifest p' = pl_manifest p.

#[local] Instance evolves_preorder : PreOrder evolves.
Proof. split; [by intros p|]. intros p q r H1 H2 Hr. destruct (H2 Hr) as [Hq ->]. by apply H1. Qed.

Lemma send_request_keeps p json :
  let p' := (plugin_manager_send_request p json).2 in
  pl_initialized p' = pl_initialized p /\ pl_manifest p' = pl_manifest p /\ pl_path p' = pl_path p.
Proof.
  unfold plugin_manager_send_request. destruct (pl_child p) as [[prog unread]|]; [|done].
  destruct (react _ _ _) as [[[] unread'] prog']; [|done]. by destruct (read_response unread').
Qed.

Lemma check_alive_evolves p :
  let p' := (plugin_check_alive p).2 in
  evolves p p' /\ pl_manifest p' = pl_manifest p.
Proof.
  unfold plugin_check_alive. destruct (pl_child p) as [[prog unread]|]; [|done].
  by destruct (exited prog) as [[] prog'].
Qed.

Lemma stamped_evolves p template :
  let p' := (plugin_send_stamped_request p template).2 in
  evolves p p' /\ pl_manifest p' = pl_manifest p.
Proof.
  unfold plugin_send_stamped_request. pose proof (check_alive_evolves p) as [He Hm].
  destruct (plugin_check_alive p) as [[] q]; cbn [negb snd] in *; [|done].
  destruct (cJSON_Parse template) as [root|]; [|done]. destruct (cJSON_PrintUnformatted _) as [json|]; [|done].
  pose proof (send_request_keeps (with_request_id (wrap32 (pl_request_id q + 1)) q) json) as (Hi & Hm' & _).
  cbv zeta in *. rewrite Hm'. split; [|done]. intros H. rewrite Hi in H. rewrite Hm'. by apply He.
Qed.

(** ** Loaded names are valid and distinct *)

Record loaded_ok ps : Prop := {
  loaded_valid i p : ps !! i = Some p -> pl_initialized p = true ->
    exists m, pl_manifest p = Some m /\ plugin_validate_name (pm_name m) = true;
  loaded_unique i j p q : ps !! i = Some p -> ps !! j = Some q ->
    pl_initialized p = true -> pl_initialized q = true -> pl_name p = pl_name q -> i = j
}.

Lemma loaded_ok_nil : loaded_ok [].
Proof. split; [intros i p H|intros i j p q H]; by rewrite lookup_nil in H. Qed.

Lemma all_evolve_ok ps ps' : Forall2 evolves ps ps' -> loaded_ok ps -> loaded_ok ps'.
Proof.
  intros Hf [Hv Hu]. split.
  - intros i p' Hp' Hi. destruct (Forall2_lookup_r _ _ _ _ _ Hf Hp') as (p & Hp & He).
    destruct (He Hi) as [Hip ->]. by eapply Hv.
  - intros i j p' q' Hp' Hq' Hip Hiq Hn.
    destruct (Forall2_lookup_r _ _ _ _ _ Hf Hp') as (p & Hp & He). destruct (Forall2_lookup_r _ _ _ _ _ Hf Hq') as (q & Hq & Hf').
    destruct (He Hip) as [H1 H2]. destruct (Hf' Hiq) as [H3 H4]. apply (Hu i j p q); auto.
    unfold pl_name in *. by rewrite <- H2, <- H4.
Qed.

Lemma evolve_at ps i p p' : ps !! i = Some p -> evolves p p' -> Forall2 evolves ps (<[i := p']> ps).
Proof.
  intros Hi He. rewrite <- (list_insert_id ps i p Hi) at 1.
  apply Forall2_insert; [|done]. by apply Forall_Forall2_diag, Forall_true.
Qed.

(** *** Starting *)

Lemma handshake_outcome p :
  let '(ok, p') := handshake_plugin out_of_range p in
  if ok then pl_initialized p' = true /\ exists m, pl_manifest p' = Some m /\ plugin_validate_name (pm_name m) = true
  else pl_initialized p = false -> pl_initialized p' = false.
Proof.
  unfold handshake_plugin. destruct (plugin_protocol_build_initialize _) as [init|]; [|done].
  pose proof (stamped_evolves p init) as [He _].
  destruct (plugin_send_stamped_request p init) as [[response|] q]; cbn [snd] in He.
  2:{ intros Hp. destruct (pl_initialized q) eqn:E; [|done]. destruct (He E). congruence. }
  assert (pl_initialized p = false -> pl_initialized q = false) as Hq.
  { intros Hp. destruct (pl_initialized q) eqn:E; [|done]. destruct (He E). congruence. }
  destruct (plugin_protocol_parse_manifest _ _) as [m|]; [|done].
  destruct (plugin_validate_name (pm_name m)) eqn:Ev; [|done]. cbn. split; [done|]. by exists m.
Qed.

Lemma duplicate_false earlier p i q :
  duplicate earlier p = false -> earlier !! i = Some q -> pl_initialized q = true ->
  is_Some (pl_name p) -> pl_name q <> pl_name p.
Proof.
  intros Hd Hq Hi [n Hn] E. assert (duplicate earlier p = true); [|congruence].
  apply existsb_true_iff. exists q. split; [by eapply list_elem_of_lookup_2|].
  unfold same_name. by rewrite Hi, E, Hn, streq_refl.
Qed.

Lemma start_plugin_ok earlier p p' tools :
  pl_initialized p = false -> loaded_ok earlier -> start_plugin out_of_range earlier p = (p', tools) ->
  loaded_ok (earlier ++ [p']) /\ (tools <> [] -> tools = registered_tools p' /\ pl_initialized p' = true).
Proof.
  intros Hp Hok. unfold start_plugin.
  assert (forall q, pl_initialized q = false -> loaded_ok (earlier ++ [q])) as Hoff.
  { intros q Hq. destruct Hok as [Hv Hu].
    assert (forall i x, (earlier ++ [q]) !! i = Some x -> pl_initialized x = true -> earlier !! i = Some x) as Hin.
    { intros i x Hx Hi. apply lookup_app_Some in Hx as [Hx|[_ Hx]]; [done|].
      apply list_lookup_singleton_Some in Hx as [_ <-]. congruence. }
    split; [intros i x Hx Hi; eapply Hv; eauto|]. intros i j x y Hx Hy Hix Hiy. eapply Hu; eauto. }
  destruct (start (pl_path p)) as [prog|]; [|intros [= <- <-]; by split; auto].
  pose proof (handshake_outcome (with_child (Some (prog, [])) p)) as Hh.
  destruct (handshake_plugin _ _) as [[] q]; cbn [negb].
  2:{ intros [= <- <-]. split; [apply Hoff; by apply Hh|done]. }
  destruct Hh as (Hi & m & Hm & Hv). destruct (duplicate earlier q) eqn:Ed.
  { intros [= <- <-]. split; [by apply Hoff|done]. }
  intros [= <- <-]. split; [|done]. destruct Hok as [Hv' Hu].
  assert (forall i x, (earlier ++ [q]) !! i = Some x -> earlier !! i = Some x \/ i = length earlier /\ x = q) as Hin.
  { intros i x Hx. apply lookup_app_Some in Hx as [Hx|[Hl Hx]]; [by left|].
    apply list_lookup_singleton_Some in Hx as [Hx <-]. right. split; [lia|done]. }
  assert (forall i x, earlier !! i = Some x -> pl_initialized x = true -> pl_name x <> pl_name q) as Hne.
  { intros i x Hx Hxi. eapply duplicate_false; eauto. unfold pl_name. rewrite Hm. by eexists. }
  split.
  - intros i x Hx Hxi. destruct (Hin i x Hx) as [Hx'|[_ ->]]; [by eapply Hv'|]. by exists m.
  - intros i j x y Hx Hy Hxi Hyi Hn.
    destruct (Hin i x Hx) as [Hx'|[-> ->]], (Hin j y Hy) as [Hy'|[-> ->]]; [by eapply Hu| | |done]; exfalso.
    + by eapply Hne.
    + symmetry in Hn. by eapply Hne.
Qed.

(** Every tool registered belongs to a loaded plugin. *)
Definition registered_by ps (tool : PluginTool) (i : nat) p (m : PluginManifest) (t : PluginTool) : Prop :=
  ps !! i = Some p /\ pl_initialized p = true /\ pl_manifest p = Some m /\ t ∈ pm_tools m /\
  tool = mkPluginTool (prefixed (pm_name m) (pt_name t)) (pt_description t) (pt_parameters t).

Lemma start_from_ok ps : forall earlier registry ps' registry',
  Forall (fun p => pl_initialized p = false) ps -> loaded_ok earlier ->
  start_from out_of_range earlier ps registry = (ps', registry') ->
  loaded_ok ps' /\ (exists later, ps' = earlier ++ later) /\
  exists tools, registry' = registry ++ tools /\
    forall tool, tool ∈ tools -> exists i p m t, registered_by ps' tool i p m t.
Proof.
  induction ps as [|p ps IH]; intros earlier registry ps' registry' Hps Hok; cbn [start_from].
  { intros [= <- <-]. split; [done|]. split; [exists []; by rewrite app_nil_r|]. exists []. rewrite app_nil_r.
    split; [done|]. by intros tool ?%not_elem_of_nil. }
  inversion_clear Hps as [|?? Hp Hps']. destruct (start_plugin out_of_range earlier p) as [q tools] eqn:E.
  destruct (start_plugin_ok earlier p q tools Hp Hok E) as [Hok' Ht]. intros Hs.
  destruct (IH _ _ _ _ Hps' Hok' Hs) as (Hok'' & (later & ->) & tools' & -> & Hreg).
  split; [done|]. split; [exists (q :: later); by rewrite <- app_assoc|].
  exists (tools ++ tools'). split; [by rewrite app_assoc|]. intros tool [Hin|Hin]%elem_of_app; [|auto].
  assert (tools <> []) as Hne by (intros ->; by apply not_elem_of_nil in Hin).
  destruct (Ht Hne) as [-> Hi]. unfold registered_tools in Hin.
  destruct (pl_manifest q) as [m|] eqn:Em; [|by apply not_elem_of_nil in Hin].
  apply list_elem_of_In, in_map_iff in Hin as (t & <- & Hin%list_elem_of_In).
  exists (length earlier), q, m, t. split; [|by rewrite Em].
  rewrite <- app_assoc. by apply list_lookup_middle.
Qed.

(** ** What happens later *)

(** A hook is dispatched, a tool called, a plugin stopped. *)
Inductive plugins_step : list (PluginProcess P) -> list (PluginProcess P) -> Prop :=
| step_hook {C} (spec : HookDispatchSpec C) ctx ps : plugins_step ps (hook_dispatch_generic spec ctx ps).2
| step_tool call result ps : plugins_step ps (plugin_manager_execute_tool ps call result).2
| step_shutdown index ps : plugins_step ps (plugin_manager_shutdown_one ps index).

Lemma send_hook_evolves {C} (spec : HookDispatchSpec C) ctx p : evolves p (send_hook_event spec ctx p).2.
Proof.
  unfold send_hook_event. destruct (plugin_protocol_build_hook_event _ _) as [event|]; [|done].
  pose proof (stamped_evolves p event) as [He _]. by destruct (plugin_send_stamped_request p event).
Qed.

Lemma dispatch_evolves {C} (spec : HookDispatchSpec C) subs : forall ctx ps,
  Forall2 evolves ps (dispatch_loop spec subs ctx ps).2.
Proof.
  induction subs as [|i subs IH]; intros ctx ps; cbn [dispatch_loop]; [done|].
  destruct (ps !! i) as [p|] eqn:Ei; [|done]. pose proof (send_hook_evolves spec ctx p) as He.
  destruct (send_hook_event spec ctx p) as [answer q]. cbn [snd] in He.
  pose proof (evolve_at ps i p q Ei He) as Hq.
  destruct answer as [[action data]|]; [|by etransitivity]. cbv zeta.
  destruct (_ && _); [done|]. destruct (_ && _); [done|]. by etransitivity.
Qed.

Lemma find_index_spec {A} (f : A -> bool) l : forall i0 i x,
  find_index_from f i0 l = Some (i, x) -> exists k, i = i0 + k /\ l !! k = Some x /\ f x = true.
Proof.
  induction l as [|y l IH]; intros i0 i x; cbn; [done|]. destruct (f y) eqn:Ey.
  - intros [= <- <-]. exists 0. by rewrite Nat.add_0_r.
  - intros (k & -> & Hk)%IH. exists (S k). split; [lia|done].
Qed.

Lemma find_index_only {A} (f : A -> bool) l k x :
  l !! k = Some x -> f x = true -> (forall j y, l !! j = Some y -> f y = true -> j = k) ->
  find_index f l = Some (k, x).
Proof.
  assert (forall i0, l !! k = Some x -> f x = true -> (forall j y, l !! j = Some y -> f y = true -> j = k) ->
            find_index_from f i0 l = Some (i0 + k, x)) as H; [|intros; by apply (H 0)].
  revert k. induction l as [|y l IH]; intros k i0 Hk Hx Hu; [done|]. cbn. destruct (f y) eqn:Ey.
  - rewrite <- (Hu 0 y eq_refl Ey) in *. injection Hk as ->. by rewrite Nat.add_0_r.
  - destruct k as [|k]; [injection Hk as ->; congruence|]. rewrite (IH k (S i0) Hk Hx); [do 2 f_equal; lia|].
    intros j z Hj Hz. by injection (Hu (S j) z Hj Hz).
Qed.

Lemma find_index_none {A} (f : A -> bool) l :
  (forall j y, l !! j = Some y -> f y = false) -> find_index f l = None.
Proof.
  intros H. destruct (find_index f l) as [[i x]|] eqn:E; [|done].
  apply find_index_spec in E as (k & _ & Hk & Hf). by rewrite (H k x Hk) in Hf.
Qed.

Lemma call_plugin_evolves ps i p t call result :
  ps !! i = Some p -> Forall2 evolves ps (call_plugin ps i p t call result).2.
Proof.
  intros Hi. unfold call_plugin. destruct (plugin_protocol_build_tool_execute _ _) as [request|]; [|done].
  pose proof (stamped_evolves p request) as [He _]. destruct (plugin_send_stamped_request p request) as [response q].
  cbn [snd] in He. pose proof (evolve_at ps i p q Hi He). destruct response as [response|]; [|done].
  by destruct (plugin_protocol_parse_tool_result response).
Qed.

Lemma step_evolves ps ps' : plugins_step ps ps' -> Forall2 evolves ps ps'.
Proof.
  intros [C spec ctx qs|call result qs|index qs]; [apply dispatch_evolves| |].
  - unfold plugin_manager_execute_tool. destruct (tc_name call ≫= split_tool_name) as [[n t]|]; [|done].
    destruct (find_index _ _) as [[i p]|] eqn:E; [|done]. apply find_index_spec in E as (k & -> & Hk & _).
    by apply call_plugin_evolves.
  - unfold plugin_manager_shutdown_one. destruct (_ <? _)%Z; [done|].
    apply Forall2_same_length_lookup. split; [by rewrite length_alter|]. intros i p q Hp Hq.
    destruct (decide (Z.to_nat index = i)) as [<-|Hne].
    + rewrite list_lookup_alter_eq, Hp in Hq. by injection Hq as <-.
    + rewrite list_lookup_alter_ne, Hp in Hq by done. by injection Hq as <-.
Qed.

Lemma steps_evolve ps ps' : rtc plugins_step ps ps' -> Forall2 evolves ps ps'.
Proof. induction 1 as [ps|ps1 ps2 ps3 H1 _ IH]; [done|]. etransitivity; [by apply step_evolves|done]. Qed.

Lemma discover_fresh dir lstat entries : forall ps,
  Forall (fun p => pl_initialized p = false) ps -> length ps <= MAX_PLUGINS ->
  let ps' := plugin_manager_discover dir lstat entries ps in
  Forall (fun p => pl_initialized p = false) ps' /\ length ps' <= MAX_PLUGINS.
Proof.
  induction entries as [|name entries IH]; intros ps Hf Hl; cbn [plugin_manager_discover]; [done|].
  destruct (Nat.leb_spec MAX_PLUGINS (length ps)); [done|].
  destruct (Ascii.eqb _ _); [by apply IH|]. destruct (lstat _) as [[|[]|]|]; try by apply IH.
  apply IH; [apply Forall_app; split; [done|by repeat constructor]|]. rewrite length_app. cbn. lia.
Qed.

Lemma start_from_length ps : forall earlier registry,
  length (start_from out_of_range earlier ps registry).1 = length earlier + length ps.
Proof.
  induction ps as [|p ps IH]; intros earlier registry; cbn [start_from fst length]; [lia|].
  destruct (start_plugin _ _ _) as [q tools]. rewrite IH, length_app. cbn. lia.
Qed.

(** From the discovery of the executables on, through the start and whatever
    hooks, tool calls and stops follow, at most sixteen plugins are held, each
    loaded one has a name of letters, digits and dashes, and no two loaded ones
    have the same name. *)
Theorem loaded_plugins_unique dir lstat entries registry ps :
  rtc plugins_step (plugin_manager_start_all out_of_range (plugin_manager_discover dir lstat entries []) registry).1 ps ->
  loaded_ok ps /\ length ps <= MAX_PLUGINS.
Proof.
  destruct (discover_fresh dir lstat entries []) as [Hf Hl]; [constructor|cbn; unfold MAX_PLUGINS; lia|].
  unfold plugin_manager_start_all. intros Hs%steps_evolve.
  pose proof (start_from_length (plugin_manager_discover dir lstat entries []) [] registry) as Hlen.
  destruct (start_from _ _ _ _) as [ps1 reg] eqn:E. cbn [fst] in *.
  destruct (start_from_ok _ _ _ _ _ Hf loaded_ok_nil E) as (Hok & _). split; [by eapply all_evolve_ok|].
  apply Forall2_length in Hs. cbn in Hlen. lia.
Qed.

(** ** The way of a tool call *)

Lemma valid_name_free name : plugin_validate_name name = true -> "_" ∉ name.
Proof.
  destruct name as [|c n]; [done|]. cbn [plugin_validate_name].
  intros [_ H]%andb_true_iff Hin. rewrite forallb_forall in H. apply list_elem_of_In, H in Hin. done.
Qed.

Lemma split_prefixed n t :
  "_" ∉ n -> length (prefixed n t) < 255 -> split_tool_name (prefixed n t) = Some (n, t).
Proof.
  intros Hn Hl. unfold prefixed in *. rewrite length_take in Hl. rewrite take_ge by lia.
  unfold split_tool_name. rewrite has_prefix_app.
  change (drop 7 (PLUGIN_TOOL_PREFIX ++ n ++ "_" :: t)) with (n ++ "_" :: t).
  rewrite (proj2 (strchr_Some (n ++ "_" :: t) "_" ("_" :: t))); [|by exists n, t].
  do 2 f_equal. rewrite length_app. cbn [length]. replace (length n + S (length t) - S (length t)) with (length n) by lia.
  by rewrite take_app_length.
Qed.

(** C9: the name a tool is registered under leads to the plugin that declared it:
    as long as that plugin is loaded a call of the tool is the request of that
    tool to that plugin, whatever happened in between, and once it is unloaded the
    call answers that there is no such plugin and asks none. *)
Theorem registered_tools_routed dir lstat entries registry ps1 registry' ps tool tools :
  plugin_manager_start_all out_of_range (plugin_manager_discover dir lstat entries []) registry = (ps1, registry') ->
  rtc plugins_step ps1 ps ->
  registry' = registry ++ tools -> tool ∈ tools -> length (pt_name tool) < 255 ->
  exists i p1 m t p, registered_by ps1 tool i p1 m t /\ ps !! i = Some p /\
    forall call result, tc_name call = Some (pt_name tool) ->
      plugin_manager_execute_tool ps call result =
        if pl_initialized p then call_plugin ps i p (pt_name t) call result
        else ((-1)%Z, not_found call result, ps).
Proof.
  intros E Hs Hr Hin Hlen. destruct (discover_fresh dir lstat entries []) as [Hf _]; [constructor|cbn; unfold MAX_PLUGINS; lia|].
  destruct (start_from_ok _ _ _ _ _ Hf loaded_ok_nil E) as (Hok & _ & tools' & -> & Hreg).
  apply app_inv_head in Hr as ->. destruct (Hreg tool Hin) as (i & p1 & m & t & Hby).
  pose proof Hby as (Hp1 & Hi1 & Hm1 & _ & Ht). apply steps_evolve in Hs.
  destruct (Forall2_lookup_l _ _ _ _ _ Hs Hp1) as (p & Hp & He). exists i, p1, m, t, p. split; [done|]. split; [done|].
  intros call result Hc. unfold plugin_manager_execute_tool. rewrite Hc, Ht. cbn [mbind option_bind pt_name].
  destruct (loaded_valid _ Hok i p1 Hp1 Hi1) as (m' & Hm' & Hv). rewrite Hm1 in Hm'. injection Hm' as <-.
  rewrite split_prefixed; [|by apply valid_name_free|by rewrite Ht in Hlen].
  assert (forall j q, ps !! j = Some q -> loaded_as (pm_name m) q = true -> j = i /\ pl_initialized q = true) as Hu.
  { intros j q Hq [Hqi Hqn]%andb_true_iff. split; [|done].
    destruct (Forall2_lookup_r _ _ _ _ _ Hs Hq) as (q1 & Hq1 & Heq). destruct (Heq Hqi) as [Hq1i Hqm].
    apply (loaded_unique _ Hok j i q1 p1); auto. unfold pl_name in *. rewrite Hm1, <- Hqm.
    destruct (pm_name <$> pl_manifest q) as [n|]; [|done]. apply streq_true in Hqn as ->. done. }
  destruct (pl_initialized p) eqn:Ei.
  - destruct (He Ei) as [_ Hpm]. rewrite (find_index_only _ ps i p); [done|done| |].
    + unfold loaded_as, pl_name. rewrite Ei, Hpm, Hm1. apply streq_refl.
    + intros j q Hq Hqn. by apply (Hu j q).
  - rewrite find_index_none; [done|]. intros j q Hq. destruct (loaded_as _ q) eqn:Eq; [|done].
    destruct (Hu j q Hq Eq) as [-> Hqi]. congruence.
Qed.
End Loaded.

(** ** The verdict of the hooks on a tool call *)

Section Verdict.
Context {J : CJson} {JR : CJsonReplace} {P : Type} {PP : PluginProgram P}.
Implicit Types (p q : PluginProcess P) (ps : list (PluginProcess P)).

(** The plugins of a list, asked in turn, let the event pass: each has no usable
    answer or answers CONTINUE. *)
Inductive passed {C} (spec : HookDispatchSpec C) : list nat -> C -> list (PluginProcess P) -> C -> list (PluginProcess P) -> Prop :=
| passed_nil ctx ps : passed spec [] ctx ps ctx ps
| passed_silent i subs ctx ps p q ctx' ps' :
    ps !! i = Some p -> send_hook_event spec ctx p = (None, q) ->
    passed spec subs ctx (<[i := q]> ps) ctx' ps' -> passed spec (i :: subs) ctx ps ctx' ps'
| passed_on i subs ctx ps p q data ctx' ps' :
    ps !! i = Some p -> send_hook_event spec ctx p = (Some (HOOK_CONTINUE, data), q) ->
    passed spec subs (apply_result spec ctx HOOK_CONTINUE data) (<[i := q]> ps) ctx' ps' ->
    passed spec (i :: subs) ctx ps ctx' ps'.

Lemma dispatch_passed {C} (spec : HookDispatchSpec C) l1 l2 ctx ps ctx' ps' :
  passed spec l1 ctx ps ctx' ps' -> dispatch_loop spec (l1 ++ l2) ctx ps = dispatch_loop spec l2 ctx' ps'.
Proof.
  induction 1 as [ctx ps|i subs ctx ps p q ctx' ps' Hi Hs _ IH|i subs ctx ps p q data ctx' ps' Hi Hs _ IH]; [done| |];
    cbn [app dispatch_loop]; rewrite Hi, Hs; [done|]. rewrite !andb_false_r. exact IH.
Qed.

Lemma pre_tool_passed call l result ps result' ps' :
  passed (pre_tool_execute_hook call) l result ps result' ps' -> result' = result.
Proof. by induction 1. Qed.

Context {T : Type} (mcp tool : ToolCall -> ToolResult -> T -> Z * ToolResult * T).

(** The runtime without the hook before a call. *)
Definition unscreened : ToolRuntime (list (PluginProcess P) * T) :=
  let rt := plugin_runtime mcp tool in
  mkRuntime (list (PluginProcess P) * T) (fun _ result s => (false, result, s)) (rt_mcp _ rt) (rt_plugin _ rt) (rt_tool _ rt)
    (rt_post_hook _ rt).

Lemma execute_screened call e result ps t :
  execute_single_tool (plugin_runtime mcp tool) call e result (ps, t) =
  let '(action, result, ps) := hook_dispatch_pre_tool_execute ps call result in
  if bool_decide (action = HOOK_STOP) then (result, (ps, t)) else execute_single_tool unscreened call e result (ps, t).
Proof.
  unfold execute_single_tool, plugin_runtime at 1, unscreened. cbn [rt_pre_hook fst snd].
  by destruct (hook_dispatch_pre_tool_execute ps call result) as [[action r] qs].
Qed.

(** C10: before a tool runs the subscribers of pre_tool_execute are asked in their
    order. When one answers stop, after others that let the call pass, no tool
    runs, nothing outside the plugins asked changes and the result is that
    plugin's text, marked as a failure. When one answers skip the later ones are
    not asked, and the tool runs as it does when all let the call pass. *)
Theorem hook_verdict call e result ps t l1 l2 ps1 :
  let subs := get_sorted_subscribers ps (cs "pre_tool_execute") in
  subs = l1 ++ l2 -> passed (pre_tool_execute_hook call) l1 result ps result ps1 ->
  (l2 = [] -> execute_single_tool (plugin_runtime mcp tool) call e result (ps, t) =
     execute_single_tool unscreened call e result (ps1, t)) /\
  forall i l2' p action data q, l2 = i :: l2' -> ps1 !! i = Some p ->
    send_hook_event (pre_tool_execute_hook call) result p = (Some (action, data), q) ->
    (action = HOOK_STOP -> execute_single_tool (plugin_runtime mcp tool) call e result (ps, t) =
       (blocked_result call result data, (<[i := q]> ps1, t))) /\
    (action = HOOK_SKIP -> execute_single_tool (plugin_runtime mcp tool) call e result (ps, t) =
       execute_single_tool unscreened call e result (<[i := q]> ps1, t)).
Proof.
  intros subs Hsubs Hp.
  assert (hook_dispatch_pre_tool_execute ps call result = dispatch_loop (pre_tool_execute_hook call) l2 result ps1) as Hd.
  { unfold hook_dispatch_pre_tool_execute, hook_dispatch_generic. cbn [hook_name pre_tool_execute_hook]. fold subs.
    rewrite Hsubs. by apply dispatch_passed. }
  split.
  - intros ->. by rewrite execute_screened, Hd.
  - intros i l2' p action data q -> Hi Hs. cbn [dispatch_loop] in Hd. rewrite Hi, Hs in Hd.
    split; intros ->; by rewrite execute_screened, Hd.
Qed.
End Verdict.

(** ** Answers and requests *)

Section Late.
Context {J : CJson} {JR : CJsonReplace} (late : bool) (answer : cstr -> cstr).

(** A plugin that answers every line by one line; when it is [late], the answer
    to the first comes after the five seconds. *)
Definition answering : PluginProgram nat := {|
  start _ := Some 0;
  exited n := (false, n);
  react n line unread :=
    (true, unread ++ (if late && (n =? 0)%nat then [Deadline] else []) ++ [Chunk (answer line ++ [LF])], S n)
|}.

(** Requests sent one after another. *)
Fixpoint ask_all (p : PluginProcess nat) (templates : list cstr) : list (option cstr) * PluginProcess nat :=
  match templates with
  | [] => ([], p)
  | t :: templates' =>
      let '(response, p) := plugin_send_stamped_request (PP := answering) p t in
      let '(responses, p) := ask_all p templates' in
      (response :: responses, p)
  end.

(** The lines that leave for the plugin: each request under its own id. *)
Fixpoint stamped_lines (id : Z) (templates : list cstr) : option (list cstr) :=
  match templates with
  | [] => Some []
  | t :: templates' =>
      root ← cJSON_Parse t;
      json ← cJSON_PrintUnformatted (cJSON_ReplaceItemInObject root (cs "id") (JNumber id));
      lines ← stamped_lines (wrap32 (id + 1)) templates';
      Some ((json ++ [LF]) :: lines)
  end.

Context (Hline : forall line, LF ∉ answer line /\ NUL ∉ answer line /\ (Z.of_nat (length (answer line)) <= 8384511)%Z).

Definition reply (line : cstr) : cstr := answer line ++ [LF].

Lemma read_reply line rest : read_response (Chunk (reply line) :: rest) = (Some (reply line), rest).
Proof using Hline.
  destruct (Hline line) as (H1 & H2 & H3). apply (answer_reassembled [reply line] (answer line) rest); auto.
  - constructor; [|constructor]. unfold reply. by destruct (answer line).
  - cbn. by rewrite app_nil_r.
Qed.

Lemma ask_one p n unread t templates lines :
  pl_child p = Some (n, unread) -> stamped_lines (pl_request_id p) (t :: templates) = Some lines ->
  exists line lines', lines = line :: lines' /\
    stamped_lines (wrap32 (pl_request_id p + 1)) templates = Some lines' /\
    let unread := unread ++ (if late && (n =? 0)%nat then [Deadline] else []) ++ [Chunk (reply line)] in
    exists p', plugin_send_stamped_request (PP := answering) p t = ((read_response unread).1, p') /\
    pl_child p' = Some (S n, (read_response unread).2) /\ pl_request_id p' = wrap32 (pl_request_id p + 1).
Proof using.
  intros Hc. cbn [stamped_lines].
  destruct (cJSON_Parse t) as [root|] eqn:Et; [|done]. cbn [mbind option_bind].
  destruct (cJSON_PrintUnformatted _) as [json|] eqn:Ej; [|done]. cbn [mbind option_bind].
  destruct (stamped_lines _ templates) as [lines'|] eqn:El; [|done]. intros [= <-].
  exists (json ++ [LF]), lines'. split; [done|]. split; [done|].
  unfold plugin_send_stamped_request, plugin_check_alive. rewrite Hc. cbn [exited answering negb].
  rewrite Et. cbn [pl_request_id with_child]. rewrite Ej. unfold plugin_manager_send_request.
  cbn [pl_child with_request_id with_child react answering]. fold (reply (json ++ [LF])).
  cbv zeta. destruct (read_response _) as [response rest]. by eexists.
Qed.

Lemma ask_backlog templates : forall p n backlog lines,
  pl_child p = Some (n, map Chunk (map reply backlog)) -> (late = true -> n <> 0) ->
  stamped_lines (pl_request_id p) templates = Some lines ->
  (ask_all p templates).1 = take (length lines) (map (fun line => Some (reply line)) (backlog ++ lines)).
Proof using Hline.
  induction templates as [|t templates IH]; intros p n backlog lines Hc Hn Hl.
  { by injection Hl as <-. }
  destruct (ask_one p n _ t templates lines Hc Hl) as (line & lines' & -> & Hl' & p' & Hs & Hc' & Hid).
  assert ((late && (n =? 0)%nat) = false) as E by (destruct late; [cbn; apply Nat.eqb_neq; auto|done]).
  rewrite E in Hs, Hc'. cbn [app] in Hs, Hc'.
  assert (exists first others, backlog ++ [line] = first :: others) as (first & others & Hfo)
    by (destruct backlog as [|x b]; [by exists line, []|by exists x, (b ++ [line])]).
  assert (map Chunk (map reply backlog) ++ [Chunk (reply line)] = map Chunk (map reply (first :: others))) as Hm
    by (rewrite <- Hfo, !map_app; reflexivity).
  rewrite Hm in Hs, Hc'. cbn [map] in Hs, Hc'. rewrite read_reply in Hs, Hc'. cbn [fst snd] in Hs, Hc'.
  cbn [ask_all]. rewrite Hs. specialize (IH p' (S n) others lines' Hc'). rewrite Hid in IH.
  specialize (IH ltac:(done) Hl'). destruct (ask_all p' templates) as [responses p'']. cbn [fst] in *. rewrite IH.
  replace (backlog ++ line :: lines') with (first :: others ++ lines'); [done|].
  by rewrite app_comm_cons, <- Hfo, <- app_assoc.
Qed.

(** A plugin that answers each line in time is understood: every request gets
    the answer to its own line. Nothing compares the ids: after one answer later
    than the five seconds, the first request has none and every later request
    gets the answer to the request before it. *)
Theorem late_answer_shifts p unread0 templates lines :
  pl_child p = Some (0, unread0) -> unread0 = [] -> stamped_lines (pl_request_id p) templates = Some lines ->
  (ask_all p templates).1 =
    if late then take (length lines) (None :: map (fun line => Some (reply line)) lines)
    else map (fun line => Some (reply line)) lines.
Proof using Hline.
  intros Hc -> Hl. destruct late eqn:El.
  2:{ rewrite (ask_backlog templates p 0 [] lines Hc); [|by rewrite El|done]. cbn [app].
      by rewrite take_ge by (by rewrite length_map). }
  destruct templates as [|t templates]; [by injection Hl as <-|].
  destruct (ask_one p 0 [] t templates lines Hc Hl) as (line & lines' & -> & Hl' & p' & Hs & Hc' & Hid).
  rewrite El in Hs, Hc'. cbn [andb app Nat.eqb] in Hs, Hc'.
  change (read_response [Deadline; Chunk (reply line)]) with (@None cstr, [Chunk (reply line)]) in Hs, Hc'.
  cbn [fst snd] in Hs, Hc'. cbn [ask_all]. rewrite Hs.
  pose proof (ask_backlog templates p' 1 [line] lines' Hc' ltac:(done)) as IH. rewrite Hid in IH. specialize (IH Hl').
  destruct (ask_all p' templates) as [responses p'']. cbn [fst] in *. rewrite IH. done.
Qed.
End Late.

(** ** Two plugins *)

Module PluginExamples.

(** The parser accepts the newline after a document. *)
Definition without_newline (s : cstr) : cstr :=
  match rev s with c :: r => if Ascii.eqb c LF then rev r else s | [] => s end.

#[local] Instance LineJson : CJson := {|
  cJSON_Parse s := ref_parse (without_newline s);
  cJSON_GetObjectItem := @cJSON_GetObjectItem RefJson;
  cJSON_GetObjectItemCaseSensitive := @cJSON_GetObjectItemCaseSensitive RefJson;
  cJSON_PrintUnformatted := @cJSON_PrintUnformatted RefJson;
  cJSON_AddItemToObject := @cJSON_AddItemToObject RefJson;
  cJSON_DeleteItemFromObject := @cJSON_DeleteItemFromObject RefJson
|}.

(** A plugin that answers by fixed lines. *)
Record Script := mkScript { on_initialize : cJSON; on_hook : cJSON; on_tool : cJSON }.

Definition result_line (j : cJSON) : list PipeEvent := [Chunk (ref_print (JObject [(cs "result", j)]) ++ [LF])].

Definition js (s : string) : cJSON := JString (cs s).

Definition script_of (name : string) (priority : Z) (on_hook : cJSON) : Script :=
  mkScript
    (JObject [(cs "name", js name); (cs "priority", JNumber priority);
              (cs "hooks", JArray [js "pre_tool_execute"]);
              (cs "tools", JArray [JObject [(cs "name", js "log_all")]])])
    on_hook
    (JObject [(cs "success", JBool true); (cs "result", JString (cs "output of " ++ cs name))]).

(** audit blocks every tool, git lets it pass; both are called "git" in the third. *)
#[local] Instance scripts : PluginProgram Script := {|
  start path :=
    if contains path (cs "audit") then
      Some (script_of "audit" 900 (JObject [(cs "action", js "stop"); (cs "result", js "no")]))
    else Some (script_of "git" 100 (JObject [(cs "action", js "continue")]));
  exited s := (false, s);
  react s line unread :=
    (true, unread ++ result_line (if contains line (cs "initialize") then on_initialize s
                                  else if contains line (cs "hook/") then on_hook s else on_tool s), s)
|}.

Definition executable (_ : cstr) : option FileKind := Some (Regular true).

Definition started := plugin_manager_start_all (fun n => n)
  (plugin_manager_discover (cs "/p") executable [cs "audit"; cs ".hidden"; cs "git"; cs "git-copy"] []) [].

Definition call_log : ToolCall := mkToolCall (cs "c1") (Some (cs "plugin_git_log_all")) None.
Definition log_tool : PluginTool := mkPluginTool (cs "plugin_git_log_all") None [].
Definition entry : PreScreenEntry := mkEntry 0 0 false true true false false.
Definition no_tool (_ : ToolCall) (r : ToolResult) (t : unit) : Z * ToolResult * unit := (0%Z, r, t).
End PluginExamples.

(** After a call of its tool. *)
Lemma loaded_plugins_unique_witness :
  let ps := (plugin_manager_execute_tool (J := PluginExamples.LineJson) (PP := PluginExamples.scripts)
               PluginExamples.started.1 PluginExamples.call_log empty_result).2 in
  map pl_initialized ps = [true; true; false] /\ loaded_ok ps /\ length ps <= MAX_PLUGINS.
Proof.
  split; [vm_compute; reflexivity|].
  apply (loaded_plugins_unique (J := PluginExamples.LineJson) (PP := PluginExamples.scripts) (fun n => n)
           (cs "/p") PluginExamples.executable [cs "audit"; cs ".hidden"; cs "git"; cs "git-copy"] []).
  eapply rtc_l; [|apply rtc_refl]. apply step_tool.
Defined.

Lemma registered_tools_routed_witness :
  exists i p1 m t p,
    registered_by PluginExamples.started.1 PluginExamples.log_tool i p1 m t /\ PluginExamples.started.1 !! i = Some p /\
    forall call result, tc_name call = Some (cs "plugin_git_log_all") ->
      plugin_manager_execute_tool (J := PluginExamples.LineJson) (PP := PluginExamples.scripts)
        PluginExamples.started.1 call result =
        if pl_initialized p then call_plugin (J := PluginExamples.LineJson) (PP := PluginExamples.scripts)
                                   PluginExamples.started.1 i p (pt_name t) call result
        else ((-1)%Z, not_found call result, PluginExamples.started.1).
Proof.
  eapply (registered_tools_routed (J := PluginExamples.LineJson) (PP := PluginExamples.scripts) (fun n => n)
           (cs "/p") PluginExamples.executable [cs "audit"; cs ".hidden"; cs "git"; cs "git-copy"] []
           PluginExamples.started.1 PluginExamples.started.2 PluginExamples.started.1 PluginExamples.log_tool
           PluginExamples.started.2).
  - apply surjective_pairing.
  - apply rtc_refl.
  - reflexivity.
  - apply list_elem_of_In. vm_compute. right. left. reflexivity.
  - vm_compute. lia.
Defined.

(** git lets the call pass, audit stops it. *)
Lemma hook_verdict_witness :
  exists ps2,
    execute_single_tool
      (plugin_runtime (J := PluginExamples.LineJson) (PP := PluginExamples.scripts) PluginExamples.no_tool PluginExamples.no_tool)
      PluginExamples.call_log PluginExamples.entry empty_result (PluginExamples.started.1, ())
    = (mkToolResult (Some (cs "c1")) (Some (cs "no")) false false, (ps2, ())).
Proof.
  set (ask (i : nat) (ps : list (PluginProcess PluginExamples.Script)) := send_hook_event (J := PluginExamples.LineJson) (PP := PluginExamples.scripts)
                     (pre_tool_execute_hook PluginExamples.call_log) empty_result
                     (default (mkPlugin [] None None false 0) (ps !! i))).
  set (ps0 := PluginExamples.started.1).
  set (ps1 := <[1 := (ask 1 ps0).2]> ps0).
  eexists.
  refine (proj1 (proj2 (hook_verdict (J := PluginExamples.LineJson) (PP := PluginExamples.scripts)
                          PluginExamples.no_tool PluginExamples.no_tool PluginExamples.call_log PluginExamples.entry
                          empty_result ps0 () [1] [0] ps1 _ _)
                  0 [] (default (mkPlugin [] None None false 0) (ps1 !! 0)) HOOK_STOP
                  (JObject [(cs "action", PluginExamples.js "stop"); (cs "result", PluginExamples.js "no")])
                  (ask 0 ps1).2 eq_refl _ _) eq_refl).
  - vm_compute. reflexivity.
  - eapply (passed_on (J := PluginExamples.LineJson) (PP := PluginExamples.scripts) _ 1 []
              empty_result ps0 (default (mkPlugin [] None None false 0) (ps0 !! 1)) (ask 1 ps0).2
              (JObject [(cs "action", PluginExamples.js "continue")])).
    + vm_compute. reflexivity.
    + vm_compute. reflexivity.
    + apply passed_nil.
  - vm_compute. reflexivity.
  - vm_compute. reflexivity.
Defined.

(** Three requests to a plugin that is late once. *)
Lemma late_answer_shifts_witness :
  let template := ref_print (JObject [(cs "method", JString (cs "m")); (cs "id", JNumber 0)]) in
  let echo line := take 30 (List.filter (fun c => negb (Ascii.eqb c LF) && negb (Ascii.eqb c Json.NUL)) line) in
  let p := mkPlugin (cs "/p/slow") None (Some (0, [])) true 7 in
  let line id := Some (cs "{" ++ JQ :: cs "method" ++ JQ :: cs ":" ++ JQ :: cs "m" ++ JQ :: cs "," ++
                       JQ :: cs "id" ++ JQ :: cs ":" ++ cs id ++ cs "}" ++ [LF]) in
  (ask_all true echo p [template; template; template]).1 = [None; line "7"%string; line "8"%string].
Proof.
  intros template echo p line.
  rewrite (late_answer_shifts true echo) with (unread0 := [])
    (lines := default [] (stamped_lines 7 [template; template; template])); [vm_compute; reflexivity| |reflexivity|reflexivity|].
  - intros l. unfold echo. set (f := fun c => negb (Ascii.eqb c LF) && negb (Ascii.eqb c Json.NUL)).
    assert (forall c, c ∈ take 30 (List.filter f l) -> f c = true) as Hf.
    { intros c Hc. apply elem_of_take in Hc as (i & Hc & _). apply list_elem_of_lookup_2, list_elem_of_In, filter_In in Hc.
      by destruct Hc. }
    split; [by intros ?%Hf|]. split; [by intros ?%Hf|]. rewrite length_take. lia.
  - vm_compute. reflexivity.
Defined.
