(* ===== verification/Sql.v ===== *)
(** * Tables and statements (the SQL of the stores, lib/db/sqlite_dal.c)

    The stores keep their state in SQLite tables and change it by single SQL
    statements. A table is the list of its rows; the statements that occur in
    the sources (SELECT .. WHERE, UPDATE .. WHERE, DELETE .. WHERE, INSERT into a
    table with a primary key, COUNT, ORDER BY) are functions on it. SQLite
    itself is not part of the repository: whether a statement can be prepared,
    whether a step fails, and the order in which ORDER BY returns equal keys are
    parameters. *)

From S2P Require Import Prelude CString.
From Stdlib Require Export Sorted.
Local Open Scope Z_scope.

(** What SQLite does with one statement: it cannot be prepared or bound, a step
    fails after some rows were returned (a statement that changes the table is
    then rolled back), or it runs to the end. *)
Inductive Stmt := PrepareFails | StepFails (rows : nat) | StmtOk.

#[export] Instance Stmt_eq_dec : EqDecision Stmt.
Proof. solve_decision. Defined.

(** ORDER BY on an integer key. *)
Class Sqlite := { order_by : forall A : Type, (A -> Z) -> list A -> list A }.
Arguments order_by {Sqlite A} key rows : rename.

Definition le_on {A} (key : A -> Z) (a b : A) : Prop := key a <= key b.

Class SqliteSpec (S : Sqlite) : Prop := {
  order_by_perm {A} (key : A -> Z) (l : list A) : order_by key l ≡ₚ l;
  order_by_sorted {A} (key : A -> Z) (l : list A) : Sorted (le_on key) (order_by key l)
}.

(** ** Statements *)

Section Statements.
Context {R : Type}.

Definition select_where (p : R -> bool) (rows : list R) : list R := List.filter p rows.
Definition count_where (p : R -> bool) (rows : list R) : Z := Z.of_nat (length (select_where p rows)).
Definition update_where (p : R -> bool) (f : R -> R) (rows : list R) : list R :=
  map (fun r => if p r then f r else r) rows.
Definition delete_where (p : R -> bool) (rows : list R) : list R :=
  List.filter (fun r => negb (p r)) rows.
(** INSERT: refused when a row with the same primary key exists. *)
Definition insert_row (same_key : R -> R -> bool) (r : R) (rows : list R) : option (list R) :=
  if existsb (same_key r) rows then None else Some (rows ++ [r]).

(** The rows a query returns before it ends. *)
Definition returned {A} (st : Stmt) (rows : list A) : list A :=
  match st with PrepareFails => [] | StepFails n => take n rows | StmtOk => rows end.

(** ** The helpers of sqlite_dal.c, for the table and the statement given *)

(** A statement that changes the table: the new rows and the number of changed
    rows, or -1. *)
Definition sqlite_dal_exec_p (st : Stmt) (p : R -> bool) (f : R -> R) (rows : list R) : Z * list R :=
  match st with
  | StmtOk => (count_where p rows, update_where p f rows)
  | _ => (-1, rows)
  end.

(** The loop of [sqlite_dal_query_list_p]: rows whose mapper answers NULL are
    skipped, and a failing step ends the loop like the end of the rows. *)
Definition sqlite_dal_query_list_p {B} (st : Stmt) (mapper : R -> option B) (rows : list R)
  : Z * list B :=
  match st with
  | PrepareFails => (-1, [])
  | _ => (0, omap mapper (returned st rows))
  end.

Definition sqlite_dal_query_one_p {B} (st : Stmt) (mapper : R -> option B) (rows : list R) : option B :=
  match returned st rows with r :: _ => mapper r | [] => None end.

Definition sqlite_dal_exists_p (st : Stmt) (rows : list R) : Z :=
  match st with
  | PrepareFails => -1
  | _ => match returned st rows with _ :: _ => 1 | [] => 0 end
  end.
End Statements.

(** [sqlite3_column_int]: the low 32 bits of the 64-bit integer stored. *)
Definition column_int (z : Z) : Z := wrap32 z.

(** ** Facts *)

Section Facts.
Context {R : Type}.
Implicit Types (p : R -> bool) (rows : list R).

Lemma elem_of_select p rows r : r ∈ select_where p rows <-> r ∈ rows /\ p r = true.
Proof. unfold select_where. rewrite !list_elem_of_In, filter_In. done. Qed.

Lemma elem_of_delete p rows r : r ∈ delete_where p rows <-> r ∈ rows /\ p r = false.
Proof. unfold delete_where. rewrite !list_elem_of_In, filter_In, negb_true_iff. done. Qed.

Lemma elem_of_update p f rows r :
  r ∈ update_where p f rows <->
  exists r0, r0 ∈ rows /\ r = if p r0 then f r0 else r0.
Proof.
  unfold update_where. rewrite list_elem_of_In, in_map_iff.
  split; intros (x & H1 & H2); exists x; split; try done; by apply list_elem_of_In.
Qed.

Lemma count_where_nonneg p rows : 0 <= count_where p rows.
Proof. unfold count_where. lia. Qed.

Lemma count_where_zero p rows : count_where p rows = 0 <-> forall r, r ∈ rows -> p r = false.
Proof.
  unfold count_where. split.
  - intros H r Hr. destruct (p r) eqn:E; [|done].
    assert (r ∈ select_where p rows) as Hs by (by apply elem_of_select).
    destruct (select_where p rows); [by apply not_elem_of_nil in Hs|simpl in H; lia].
  - intros H. destruct (select_where p rows) as [|r l] eqn:E; [done|].
    assert (r ∈ select_where p rows) as Hr by (rewrite E; left).
    apply elem_of_select in Hr as [Hr Hp]. by rewrite (H r Hr) in Hp.
Qed.

Lemma count_where_pos p rows : 0 < count_where p rows <-> exists r, r ∈ rows /\ p r = true.
Proof.
  split.
  - unfold count_where. intros H. destruct (select_where p rows) as [|r l] eqn:E; [simpl in H; lia|].
    exists r. apply elem_of_select. rewrite E. left.
  - intros (r & Hr & Hp). pose proof (count_where_nonneg p rows).
    destruct (Z.eq_dec (count_where p rows) 0) as [E|]; [|lia].
    rewrite (proj1 (count_where_zero p rows) E r Hr) in Hp. done.
Qed.

Lemma count_where_cons p r rows : count_where p (r :: rows) = (if p r then 1 else 0) + count_where p rows.
Proof. unfold count_where, select_where. cbn [List.filter]. case_match; cbn [length]; lia. Qed.

Lemma count_where_app p l1 l2 : count_where p (l1 ++ l2) = count_where p l1 + count_where p l2.
Proof. induction l1 as [|r l1 IH]; [done|]. cbn [app]. rewrite !count_where_cons. lia. Qed.

Lemma update_where_ext p f g rows :
  (forall r, r ∈ rows -> p r = true -> f r = g r) -> update_where p f rows = update_where p g rows.
Proof.
  intros H. unfold update_where. apply map_ext_in. intros r Hr. apply list_elem_of_In in Hr.
  destruct (p r) eqn:E; auto.
Qed.

Lemma update_where_none p f rows : (forall r, r ∈ rows -> p r = false) -> update_where p f rows = rows.
Proof.
  intros H. unfold update_where. rewrite <- (map_id rows) at 2. apply map_ext_in.
  intros r Hr. apply list_elem_of_In in Hr. by rewrite H.
Qed.

Lemma update_where_id p rows : update_where p (fun r => r) rows = rows.
Proof.
  unfold update_where. rewrite <- (map_id rows) at 2. apply map_ext. intros r. by destruct (p r).
Qed.

Lemma update_where_twice p f g rows :
  (forall r, p (f r) = p r) ->
  update_where p g (update_where p f rows) = update_where p (fun r => g (f r)) rows.
Proof.
  intros H. unfold update_where. rewrite map_map. apply map_ext. intros r.
  destruct (p r) eqn:E; [by rewrite H, E|by rewrite E].
Qed.

Lemma delete_where_none p rows : (forall r, r ∈ rows -> p r = false) -> delete_where p rows = rows.
Proof.
  intros H. induction rows as [|r rows IH]; [done|]. unfold delete_where in *. cbn [List.filter].
  rewrite (H r) by left. cbn. f_equal. apply IH. intros x Hx. apply H. by right.
Qed.

Lemma insert_row_Some (same : R -> R -> bool) r rows rows' :
  insert_row same r rows = Some rows' <->
  (forall r', r' ∈ rows -> same r r' = false) /\ rows' = rows ++ [r].
Proof.
  unfold insert_row. destruct (existsb (same r) rows) eqn:E.
  - split; [done|]. intros [H _]. apply existsb_true_iff in E as (x & Hx & Hs). by rewrite H in Hs.
  - split.
    + intros [= <-]. split; [|done]. intros r' Hr. destruct (same r r') eqn:Es; [|done].
      assert (existsb (same r) rows = true); [|congruence]. apply existsb_true_iff. eauto.
    + by intros [_ ->].
Qed.

(** A column that an update leaves alone. *)
Lemma update_where_column {B} (c : R -> B) p f rows :
  (forall r, c (f r) = c r) -> map c (update_where p f rows) = map c rows.
Proof.
  intros H. unfold update_where. rewrite map_map. apply map_ext. intros r. by destruct (p r).
Qed.

Lemma NoDup_column_select {B} (c : R -> B) p rows :
  NoDup (map c rows) -> NoDup (map c (select_where p rows)).
Proof.
  unfold select_where. induction rows as [|r rows IH]; [done|]. cbn.
  rewrite NoDup_cons. intros [Hn Hd]. destruct (p r); [|auto]. cbn. apply NoDup_cons. split; [|auto].
  intros H. apply Hn. apply list_elem_of_In, in_map_iff in H as (x & Hx & Hin).
  apply list_elem_of_In, in_map_iff. exists x. split; [done|]. by apply filter_In in Hin as [? _].
Qed.

Lemma NoDup_delete {B} (c : R -> B) p rows :
  NoDup (map c rows) -> NoDup (map c (delete_where p rows)).
Proof. apply (NoDup_column_select c (fun r => negb (p r))). Qed.

(** Updates of rows with distinct ids, one after the other, act row by row. *)
Lemma fold_updates {B} (key : R -> cstr) (idf : B -> cstr) (f : B -> R -> R) l rows :
  (forall b r, key (f b r) = key r) -> NoDup (map idf l) ->
  foldl (fun rows b => update_where (fun r => streq (key r) (idf b)) (f b) rows) rows l =
  map (fun r => match List.find (fun b => streq (idf b) (key r)) l with Some b => f b r | None => r end) rows.
Proof.
  intros Hf. revert rows. induction l as [|b l IH]; intros rows Hd; cbn [foldl map List.find].
  { symmetry. apply map_id. }
  cbn [map] in Hd. apply NoDup_cons in Hd as [Hn Hd]. rewrite (IH _ Hd). unfold update_where.
  rewrite map_map. apply map_ext. intros r.
  destruct (streq_spec (key r) (idf b)) as [E|E].
  - rewrite Hf, E, streq_refl. assert (List.find (fun b' => streq (idf b') (idf b)) l = None) as ->; [|done].
    destruct (List.find _ l) as [b'|] eqn:Ef; [|done]. exfalso. apply find_some in Ef as [Hin Heq].
    apply streq_true in Heq. apply Hn. rewrite <- Heq. by apply list_elem_of_In, in_map.
  - assert (streq (idf b) (key r) = false) as ->; [|done]. apply streq_false. congruence.
Qed.

Lemma NoDup_column_inj {B} (c : R -> B) rows r1 r2 :
  NoDup (map c rows) -> r1 ∈ rows -> r2 ∈ rows -> c r1 = c r2 -> r1 = r2.
Proof.
  induction rows as [|r rows IH]; cbn; [set_solver|]. rewrite NoDup_cons. intros [Hn Hd].
  assert (forall x, x ∈ rows -> c x <> c r) as Hx.
  { intros x Hx E. apply Hn, list_elem_of_In, in_map_iff. exists x. split; [done|]. by apply list_elem_of_In. }
  rewrite !elem_of_cons. intros [->|H1] [->|H2] E; auto; exfalso; [by eapply Hx|by eapply Hx].
Qed.
End Facts.

(** The first row returned is the first row. *)
Lemma returned_head {A} st (l : list A) x l' : returned st l = x :: l' -> exists l'', l = x :: l''.
Proof. destruct st as [|[|n]|], l; simpl; try done; intros [= -> _]; eauto. Qed.

#[export] Hint Rewrite @elem_of_select @elem_of_delete @count_where_cons : scaffold.

(** The first row in the order is a row with the least key. *)
Lemma order_by_head {S : Sqlite} {SS : SqliteSpec S} {A} (key : A -> Z) l r l' :
  order_by key l = r :: l' -> r ∈ l /\ forall x, x ∈ l -> key r <= key x.
Proof.
  intros E. pose proof (order_by_perm key l) as Hp. pose proof (order_by_sorted key l) as Hs.
  rewrite E in Hp, Hs. split; [rewrite <- Hp; left|].
  intros x Hx. rewrite <- Hp in Hx. apply elem_of_cons in Hx as [->|Hx]; [lia|].
  apply Sorted_StronglySorted in Hs; [|intros a b c; unfold le_on; lia].
  inversion_clear Hs as [|?? _ Hall]. rewrite List.Forall_forall in Hall.
  apply Hall, list_elem_of_In, Hx.
Qed.

Lemma order_by_nil {S : Sqlite} {SS : SqliteSpec S} {A} (key : A -> Z) l :
  order_by key l = [] <-> l = [].
Proof.
  pose proof (order_by_perm key l) as Hp.
  split; [intros E; rewrite E in Hp; symmetry in Hp|intros ->]; by apply Permutation_nil_r in Hp.
Qed.

Lemma elem_of_order_by {S : Sqlite} {SS : SqliteSpec S} {A} (key : A -> Z) l x :
  x ∈ order_by key l <-> x ∈ l.
Proof. by rewrite (order_by_perm key l). Qed.

(** ** A concrete instance: stable insertion *)

Fixpoint insert_by {A} (key : A -> Z) (x : A) (l : list A) : list A :=
  match l with
  | [] => [x]
  | y :: l' => if key x <=? key y then x :: l else y :: insert_by key x l'
  end.

Definition sort_by {A} (key : A -> Z) (l : list A) : list A := foldr (insert_by key) [] l.

#[export] Instance RefSqlite : Sqlite := { order_by A key rows := sort_by key rows }.

Lemma insert_by_perm {A} (key : A -> Z) x l : insert_by key x l ≡ₚ x :: l.
Proof.
  induction l as [|y l IH]; simpl; [done|]. case_match; [done|].
  rewrite IH. apply perm_swap.
Qed.

Lemma insert_by_sorted {A} (key : A -> Z) x l :
  Sorted (le_on key) l -> Sorted (le_on key) (insert_by key x l).
Proof.
  induction 1 as [|y l Hs IH Hd]; simpl; [repeat constructor|].
  destruct (Z.leb_spec (key x) (key y)) as [Hle|Hgt]; [repeat constructor; done|].
  constructor; [done|]. destruct Hd as [|z l Hd]; simpl; [constructor; unfold le_on; lia|].
  case_match; constructor; unfold le_on in *; lia.
Qed.

#[export] Instance RefSqliteSpec : SqliteSpec RefSqlite.
Proof.
  split; intros A key l; cbn.
  - induction l as [|x l IH]; simpl; [done|]. by rewrite insert_by_perm, IH.
  - induction l as [|x l IH]; simpl; [constructor|]. by apply insert_by_sorted.
Qed.
