(* ===== verification/TaskStore.v ===== *)
(** * Task store (lib/db/task_store.c)

    The tasks of the todo list and which task waits for which, in two SQLite
    tables with foreign keys that cascade. Opening the database and freeing are
    not modelled; the outcome of each statement is an argument, the ids come from
    outside. *)

From S2P Require Import Prelude CString Json Sql.
Local Open Scope Z_scope.

(** ** Data *)

Definition TASK_STATUS_PENDING : Z := 0.
Definition TASK_STATUS_IN_PROGRESS : Z := 1.
Definition TASK_STATUS_COMPLETED : Z := 2.
Definition TASK_PRIORITY_LOW : Z := 1.
Definition TASK_PRIORITY_MEDIUM : Z := 2.
Definition TASK_PRIORITY_HIGH : Z := 3.

Record TaskRow := mkTaskRow {
  tk_id : cstr;
  tk_session_id : cstr;
  tk_parent_id : option cstr;
  tk_content : cstr;
  tk_status : Z;
  tk_priority : Z;
  tk_created_at : Z;
  tk_updated_at : Z
}.

Record DependencyRow := mkDependencyRow { dp_task_id : cstr; dp_blocked_by_id : cstr; dp_created_at : Z }.

(** [td_in_transaction]: a transaction was begun and not ended. *)
Record TaskDb := mkTaskDb {
  td_tasks : list TaskRow;
  td_dependencies : list DependencyRow;
  td_in_transaction : bool
}.

(** The three texts are arrays of 40 bytes; an empty parent is no parent. *)
Record Task := mkTask {
  task_id : cstr;
  task_session_id : cstr;
  task_parent_id : cstr;
  task_content : option cstr;
  task_status : Z;
  task_priority : Z;
  task_created_at : Z;
  task_updated_at : Z
}.

Definition map_task (r : TaskRow) : option Task :=
  Some (mkTask (take 39 (tk_id r)) (take 39 (tk_session_id r)) (take 39 (default [] (tk_parent_id r)))
          (Some (tk_content r)) (column_int (tk_status r)) (column_int (tk_priority r)) (tk_created_at r) (tk_updated_at r)).

Definition with_tasks (rows : list TaskRow) (db : TaskDb) : TaskDb :=
  mkTaskDb rows (td_dependencies db) (td_in_transaction db).
Definition with_dependencies (rows : list DependencyRow) (db : TaskDb) : TaskDb :=
  mkTaskDb (td_tasks db) rows (td_in_transaction db).
Definition with_transaction (b : bool) (db : TaskDb) : TaskDb := mkTaskDb (td_tasks db) (td_dependencies db) b.

Definition mem (x : cstr) (l : list cstr) : bool := existsb (streq x) l.

(** Ids reached along pairs, from which SQLite computes a recursive query with
    UNION and a cascade: each round adds the new ones. *)
Definition successors (edges : list (cstr * cstr)) (ids : list cstr) : list cstr :=
  map snd (List.filter (fun e => mem e.1 ids) edges).

Fixpoint saturate (n : nat) (edges : list (cstr * cstr)) (ids : list cstr) : list cstr :=
  match n with
  | O => ids
  | S n' => saturate n' edges (ids ++ List.filter (fun x => negb (mem x ids)) (successors edges ids))
  end.

Definition reachable (edges : list (cstr * cstr)) (ids : list cstr) : list cstr := saturate (length edges) edges ids.

Definition parent_edges (rows : list TaskRow) : list (cstr * cstr) :=
  omap (fun r => p ← tk_parent_id r; Some (p, tk_id r)) rows.
Definition dependency_edges (deps : list DependencyRow) : list (cstr * cstr) :=
  map (fun d => (dp_task_id d, dp_blocked_by_id d)) deps.

(** ** Operations *)

Section Tasks.
Context {DB : Sqlite}.
Implicit Types (st : Stmt) (db : TaskDb) (rows : list TaskRow).

Definition same_task (a b : TaskRow) : bool := streq (tk_id a) (tk_id b).
Definition is_task (id : cstr) (r : TaskRow) : bool := streq (tk_id r) id.
Definition in_session (session_id : cstr) (r : TaskRow) : bool := streq (tk_session_id r) session_id.
Definition child_of (parent_id : cstr) (r : TaskRow) : bool :=
  match tk_parent_id r with Some p => streq p parent_id | None => false end.

(** The foreign key of parent_id: NULL, the row itself or an existing row. *)
Definition task_parent_exists (parent : option cstr) (id : cstr) rows : bool :=
  match parent with
  | None => true
  | Some p => streq p id || existsb (is_task p) rows
  end.

Definition optional_text (s : cstr) : option cstr := match s with [] => None | _ => Some s end.

(** INSERT INTO tasks. *)
Definition insert_task (r : TaskRow) rows : option (list TaskRow) :=
  if task_parent_exists (tk_parent_id r) (tk_id r) rows then insert_row same_task r rows else None.

Definition task_store_create_task st (now : Z) (uuid : option cstr) (session_id content : cstr) (priority : Z)
    (parent_id : option cstr) db : Z * option cstr * TaskDb :=
  match uuid, st with
  | Some id, StmtOk =>
      match insert_task (mkTaskRow id session_id (parent_id ≫= optional_text) content TASK_STATUS_PENDING priority now now)
              (td_tasks db) with
      | Some rows => (0, Some id, with_tasks rows db)
      | None => (-1, None, db)
      end
  | _, _ => (-1, None, db)
  end.

Definition task_store_get_task st (id : cstr) db : option Task :=
  sqlite_dal_query_one_p st map_task (select_where (is_task id) (td_tasks db)).

Definition update_task st (id : cstr) (f : TaskRow -> TaskRow) db : Z * TaskDb :=
  let '(changes, rows) := sqlite_dal_exec_p st (is_task id) f (td_tasks db) in
  (if 0 <? changes then 0 else -1, with_tasks rows db).

Definition set_task_status (status now : Z) (r : TaskRow) : TaskRow :=
  mkTaskRow (tk_id r) (tk_session_id r) (tk_parent_id r) (tk_content r) status (tk_priority r) (tk_created_at r) now.
Definition set_task_content (content : cstr) (now : Z) (r : TaskRow) : TaskRow :=
  mkTaskRow (tk_id r) (tk_session_id r) (tk_parent_id r) content (tk_status r) (tk_priority r) (tk_created_at r) now.
Definition set_task_priority (priority now : Z) (r : TaskRow) : TaskRow :=
  mkTaskRow (tk_id r) (tk_session_id r) (tk_parent_id r) (tk_content r) (tk_status r) priority (tk_created_at r) now.
Definition set_task_parent (parent : option cstr) (now : Z) (r : TaskRow) : TaskRow :=
  mkTaskRow (tk_id r) (tk_session_id r) parent (tk_content r) (tk_status r) (tk_priority r) (tk_created_at r) now.

Definition task_store_update_status st (now : Z) (id : cstr) (status : Z) db := update_task st id (set_task_status status now) db.
Definition task_store_update_content st (now : Z) (id content : cstr) db := update_task st id (set_task_content content now) db.
Definition task_store_update_priority st (now : Z) (id : cstr) (priority : Z) db :=
  update_task st id (set_task_priority priority now) db.

(** *** Deletion *)

(** DELETE FROM tasks WHERE: the rows, those below them and what waits for them or
    holds them up. *)
Definition delete_tasks (p : TaskRow -> bool) db : TaskDb :=
  let rows := td_tasks db in
  let doomed := reachable (parent_edges rows) (map tk_id (select_where p rows)) in
  mkTaskDb (delete_where (fun r => mem (tk_id r) doomed) rows)
    (delete_where (fun d => mem (dp_task_id d) doomed || mem (dp_blocked_by_id d) doomed) (td_dependencies db))
    (td_in_transaction db).

Definition task_store_delete_task st (id : cstr) db : Z * TaskDb :=
  match st with
  | StmtOk =>
      (if 0 <? count_where (is_task id) (td_tasks db) then 0 else -1, delete_tasks (is_task id) db)
  | _ => (-1, db)
  end.

(** *** Lists: NULL with count 0 for an error or no row *)

Definition list_tasks st (key : TaskRow -> Z) (p : TaskRow -> bool) db : list Task :=
  (sqlite_dal_query_list_p st map_task (order_by key (select_where p (td_tasks db)))).2.

Definition task_store_get_children st (parent_id : cstr) db : list Task := list_tasks st tk_created_at (child_of parent_id) db.

(** The recursive query with UNION ALL: the children of the root, theirs, and so
    on; [None] when it does not end. *)
Fixpoint subtree (fuel : nat) rows (level : list TaskRow) : option (list TaskRow) :=
  match level, fuel with
  | [], _ => Some []
  | _, O => None
  | _, S fuel' =>
      rest ← subtree fuel' rows (flat_map (fun s => select_where (child_of (tk_id s)) rows) level);
      Some (level ++ rest)
  end.

Definition task_store_get_subtree st (root_id : cstr) db : option (list Task) :=
  let rows := td_tasks db in
  match st with
  | PrepareFails => Some []
  | _ =>
      found ← subtree (S (length rows)) rows (select_where (child_of root_id) rows);
      Some (sqlite_dal_query_list_p st map_task (order_by tk_created_at found)).2
  end.

Definition task_store_set_parent st (now : Z) (id : cstr) (parent_id : option cstr) db : Z * TaskDb :=
  let parent := parent_id ≫= optional_text in
  let rows := td_tasks db in
  match st with
  | StmtOk =>
      if (0 <? count_where (is_task id) rows) && negb (task_parent_exists parent id rows) then (-1, db)
      else update_task st id (set_task_parent parent now) db
  | _ => (-1, db)
  end.

(** *** Dependencies *)

Definition same_dependency (a b : DependencyRow) : bool :=
  streq (dp_task_id a) (dp_task_id b) && streq (dp_blocked_by_id a) (dp_blocked_by_id b).

(** The answer of the check: 1 when [blocked_by_id] waits for [task_id] already. *)
Definition depends_on st (blocked_by_id task_id : cstr) (deps : list DependencyRow) : Z :=
  let edges := dependency_edges deps in
  sqlite_dal_exists_p st (List.filter (streq task_id) (reachable edges (successors edges [blocked_by_id]))).

Definition task_store_add_dependency (st_check st : Stmt) (now : Z) (id blocked_by_id : cstr) db : Z * TaskDb :=
  if streq id blocked_by_id then (-2, db)
  else if negb (depends_on st_check blocked_by_id id (td_dependencies db) =? 0) then (-2, db)
  else
    match st with
    | StmtOk =>
        if existsb (is_task id) (td_tasks db) && existsb (is_task blocked_by_id) (td_tasks db) then
          (0, with_dependencies
                (default (td_dependencies db)
                   (insert_row same_dependency (mkDependencyRow id blocked_by_id now) (td_dependencies db))) db)
        else (-1, db)
    | _ => (-1, db)
    end.

Definition is_dependency (id blocked_by_id : cstr) (d : DependencyRow) : bool :=
  streq (dp_task_id d) id && streq (dp_blocked_by_id d) blocked_by_id.

Definition task_store_remove_dependency st (id blocked_by_id : cstr) db : Z * TaskDb :=
  (0, match st with
      | StmtOk => with_dependencies (delete_where (is_dependency id blocked_by_id) (td_dependencies db)) db
      | _ => db
      end).

(** Without ORDER BY the rows come in any order. *)
Definition list_dependencies st (p : DependencyRow -> bool) (column : DependencyRow -> cstr) db : list cstr :=
  (sqlite_dal_query_list_p st (fun d => Some (column d)) (order_by (fun _ => 0) (select_where p (td_dependencies db)))).2.

Definition task_store_get_blockers st (id : cstr) db : list cstr :=
  list_dependencies st (fun d => streq (dp_task_id d) id) dp_blocked_by_id db.
Definition task_store_get_blocking st (id : cstr) db : list cstr :=
  list_dependencies st (fun d => streq (dp_blocked_by_id d) id) dp_task_id db.

(** The rows of task_dependencies joined with a blocker that is not completed. *)
Definition holds_up db (id : cstr) (d : DependencyRow) : bool :=
  streq (dp_task_id d) id &&
  existsb (fun t => is_task (dp_blocked_by_id d) t && negb (tk_status t =? TASK_STATUS_COMPLETED)) (td_tasks db).

Definition task_store_is_blocked st (id : cstr) db : Z :=
  sqlite_dal_exists_p st (take 1 (select_where (holds_up db id) (td_dependencies db))).

(** *** By session *)

Definition task_has_status (status : Z) (r : TaskRow) : bool := tk_status r =? status.

Definition task_store_list_by_session st (session_id : cstr) (status_filter : Z) db : list Task :=
  list_tasks st tk_created_at
    (fun r => in_session session_id r && ((status_filter <? 0) || task_has_status status_filter r)) db.

Definition task_store_list_roots st (session_id : cstr) db : list Task :=
  list_tasks st tk_created_at (fun r => in_session session_id r && bool_decide (tk_parent_id r = None)) db.

(** ORDER BY priority DESC, created_at: both columns are 64-bit integers. *)
Definition ready_key (r : TaskRow) : Z := tk_created_at r - tk_priority r * 2 ^ 65.

Definition is_ready db (session_id : cstr) (r : TaskRow) : bool :=
  in_session session_id r && task_has_status TASK_STATUS_PENDING r &&
  negb (existsb (holds_up db (tk_id r)) (td_dependencies db)).

Definition task_store_list_ready st (session_id : cstr) db : list Task :=
  list_tasks st ready_key (is_ready db session_id) db.

Definition task_store_has_pending st (session_id : cstr) db : Z :=
  sqlite_dal_exists_p st
    (take 1 (select_where (fun r => in_session session_id r &&
                                    (task_has_status TASK_STATUS_PENDING r || task_has_status TASK_STATUS_IN_PROGRESS r))
               (td_tasks db))).

(** *** Replacing the tasks of a session *)

Definition hex (c : ascii) : bool :=
  let n := N_of_ascii c in
  ((48 <=? n) && (n <=? 57) || (65 <=? n) && (n <=? 70) || (97 <=? n) && (n <=? 102))%N.

Definition uuid_char (i : nat) (c : ascii) : bool :=
  if (bool_decide (i ∈ [8; 13; 18; 23]%nat)) then Ascii.eqb c "-" else hex c.

Definition uuid_is_valid (s : cstr) : bool :=
  (length s =? 36)%nat && forallb id (imap uuid_char s).

(** The answers of the surroundings: the statements BEGIN, DELETE, COMMIT, the
    preparation and the steps of the INSERT, and the ids drawn. *)
Record ReplaceEnv := mkReplaceEnv {
  re_begin : bool;
  re_delete : Stmt;
  re_prepare : bool;
  re_step : nat -> bool;
  re_commit : bool;
  re_uuid : nat -> option cstr;
  re_now : Z
}.

Definition new_id (env : ReplaceEnv) (i : nat) (t : Task) : option cstr :=
  if uuid_is_valid (task_id t) then Some (task_id t) else re_uuid env i.

(** The loop over the new tasks; [None]: the transaction is rolled back. *)
Fixpoint insert_tasks (env : ReplaceEnv) (session_id : cstr) (i : nat) (tasks : list Task) rows : option (list TaskRow) :=
  match tasks with
  | [] => Some rows
  | t :: tasks' =>
      id ← new_id env i t;
      content ← task_content t;
      if re_step env i then
        rows ← insert_task
                 (mkTaskRow id session_id (optional_text (task_parent_id t)) content (task_status t) (task_priority t)
                    (if 0 <? task_created_at t then task_created_at t else re_now env) (re_now env)) rows;
        insert_tasks env session_id (S i) tasks' rows
      else None
  end.

(** BEGIN fails inside an open transaction, and a failed COMMIT leaves the
    transaction open. *)
Definition task_store_replace_session_tasks (env : ReplaceEnv) (session_id : cstr) (tasks : list Task) db : Z * TaskDb :=
  if negb (re_begin env) || td_in_transaction db then (-1, db)
  else
    match re_delete env with
    | StmtOk =>
        let db' := delete_tasks (in_session session_id) db in
        let inserted :=
          match tasks with
          | [] => Some (td_tasks db')
          | _ => if re_prepare env then insert_tasks env session_id 0 tasks (td_tasks db') else None
          end in
        match inserted with
        | None => (-1, db)
        | Some rows =>
            if re_commit env then (0, with_tasks rows db') else (-1, with_transaction true (with_tasks rows db'))
        end
    | _ => (-1, db)
    end.
End Tasks.

(** ** Texts *)

Definition task_status_to_string (status : Z) : cstr :=
  if status =? TASK_STATUS_IN_PROGRESS then cs "in_progress"
  else if status =? TASK_STATUS_COMPLETED then cs "completed" else cs "pending".

Definition task_status_from_string (s : option cstr) : Z :=
  match s with
  | Some s => if streq s (cs "in_progress") then TASK_STATUS_IN_PROGRESS
              else if streq s (cs "completed") then TASK_STATUS_COMPLETED else TASK_STATUS_PENDING
  | None => TASK_STATUS_PENDING
  end.

Definition task_priority_to_string (priority : Z) : cstr :=
  if priority =? TASK_PRIORITY_LOW then cs "low"
  else if priority =? TASK_PRIORITY_HIGH then cs "high" else cs "medium".

Definition task_priority_from_string (s : option cstr) : Z :=
  match s with
  | Some s => if streq s (cs "low") then TASK_PRIORITY_LOW
              else if streq s (cs "high") then TASK_PRIORITY_HIGH else TASK_PRIORITY_MEDIUM
  | None => TASK_PRIORITY_MEDIUM
  end.
