(* ===== verification/TaskFacts.v ===== *)
(** * Task store: theorems

    What a recursive query reaches, the invariant of the two tables, the lists of
    ready tasks, for TaskStore.v. *)

From S2P Require Import Prelude CString Json Sql TaskStore.
Local Open Scope Z_scope.

(** ** Reachability *)

Lemma mem_true x l : mem x l = true <-> x ∈ l.
Proof.
  unfold mem. rewrite existsb_true_iff. split.
  - by intros (y & Hy & ->%streq_true).
  - intros H. exists x. split; [done|apply streq_refl].
Qed.

Lemma mem_false x l : mem x l = false <-> x ∉ l.
Proof. rewrite <- mem_true. by destruct (mem x l). Qed.

Section Reach.
Context (edges : list (cstr * cstr)).
Implicit Types (ids : list cstr) (x y : cstr).

Definition edge x y : Prop := (x, y) ∈ edges.

Lemma elem_of_successors ids y : y ∈ successors edges ids <-> exists x, x ∈ ids /\ edge x y.
Proof.
  unfold successors, edge. rewrite list_elem_of_In, in_map_iff. split.
  - intros ([x z] & <- & [Hin Hm]%filter_In). exists x. split; [by apply mem_true|by apply list_elem_of_In].
  - intros (x & Hx & He). exists (x, y). split; [done|]. apply filter_In. split; [by apply list_elem_of_In|by apply mem_true].
Qed.

Definition closed ids : Prop := forall x y, x ∈ ids -> edge x y -> y ∈ ids.

Definition fresh ids : list cstr := List.filter (fun x => negb (mem x ids)) (successors edges ids).

Lemma elem_of_fresh ids y : y ∈ fresh ids <-> y ∈ successors edges ids /\ y ∉ ids.
Proof. unfold fresh. rewrite !list_elem_of_In, filter_In, negb_true_iff, mem_false, list_elem_of_In. done. Qed.

Lemma saturate_S n ids : saturate (S n) edges ids = saturate n edges (ids ++ fresh ids).
Proof. reflexivity. Qed.

Lemma closed_fresh ids : closed ids <-> fresh ids = [].
Proof.
  split.
  - intros Hc. destruct (fresh ids) as [|y l] eqn:E; [done|]. exfalso.
    assert (y ∈ fresh ids) as [Hs Hn]%elem_of_fresh by (rewrite E; left).
    apply elem_of_successors in Hs as (x & Hx & He). by apply Hn, (Hc x).
  - intros E x y Hx He. destruct (decide (y ∈ ids)) as [|Hn]; [done|]. exfalso.
    apply (not_elem_of_nil y). rewrite <- E. apply elem_of_fresh. split; [|done]. apply elem_of_successors. eauto.
Qed.

Lemma saturate_closed_id n ids : closed ids -> saturate n edges ids = ids.
Proof.
  intros Hc%closed_fresh. induction n as [|n IH]; [done|]. by rewrite saturate_S, Hc, app_nil_r.
Qed.

(** The edges that still lead out. *)
Definition leaving (l : list (cstr * cstr)) ids : nat := length (List.filter (fun e => negb (mem e.2 ids)) l).

Lemma leaving_mono l ids ids' : ids ⊆ ids' -> (leaving l ids' <= leaving l ids)%nat.
Proof.
  intros Hi. unfold leaving. induction l as [|e l IH]; cbn; [done|].
  destruct (mem e.2 ids') eqn:E'; cbn; [destruct (mem e.2 ids); cbn; lia|].
  assert (mem e.2 ids = false) as -> by (apply mem_false in E'; apply mem_false; set_solver). cbn. lia.
Qed.

Lemma leaving_less l ids ids' (e : cstr * cstr) :
  e ∈ l -> e.2 ∉ ids -> e.2 ∈ ids' -> ids ⊆ ids' -> (leaving l ids' < leaving l ids)%nat.
Proof.
  intros He Hn Hy Hi. induction l as [|e' l IH]; [by apply not_elem_of_nil in He|].
  apply elem_of_cons in He as [<-|He].
  - pose proof (leaving_mono l ids ids' Hi). unfold leaving in *. cbn.
    rewrite (proj2 (mem_false e.2 ids) Hn), (proj2 (mem_true e.2 ids') Hy). cbn. lia.
  - specialize (IH He). unfold leaving in *. cbn. destruct (mem e'.2 ids') eqn:E'; cbn; [destruct (mem e'.2 ids); cbn; lia|].
    assert (mem e'.2 ids = false) as -> by (apply mem_false in E'; apply mem_false; set_solver). cbn. lia.
Qed.

Lemma saturate_closed n : forall ids, (leaving edges ids <= n)%nat -> closed (saturate n edges ids).
Proof.
  induction n as [|n IH]; intros ids Hl; cbn [saturate].
  - intros x y Hx He. destruct (decide (y ∈ ids)) as [|Hn]; [done|]. exfalso.
    pose proof (leaving_less edges ids (y :: ids) (x, y) He Hn ltac:(left) ltac:(set_solver)). lia.
  - destruct (decide (fresh ids = [])) as [E|E].
    + change (closed (saturate n edges (ids ++ fresh ids))). rewrite E, app_nil_r.
      rewrite saturate_closed_id; by apply closed_fresh.
    + apply IH. destruct (fresh ids) as [|y l] eqn:Ef; [done|]. fold (fresh ids). rewrite Ef.
      assert (y ∈ fresh ids) as Hy by (rewrite Ef; left). pose proof Hy as [Hs Hn]%elem_of_fresh.
      apply elem_of_successors in Hs as (x & _ & He).
      pose proof (leaving_less edges ids (ids ++ y :: l) (x, y) He Hn ltac:(set_solver) ltac:(set_solver)). lia.
Qed.

Lemma saturate_sound n : forall ids y, y ∈ saturate n edges ids -> exists x, x ∈ ids /\ rtc edge x y.
Proof.
  induction n as [|n IH]; intros ids y; cbn [saturate]; [intros H; by exists y|].
  intros (x & Hx & Hr)%IH. apply elem_of_app in Hx as [Hx|Hx]; [by exists x|].
  fold (fresh ids) in Hx. apply elem_of_fresh in Hx as [Hs _]. apply elem_of_successors in Hs as (z & Hz & He).
  exists z. split; [done|]. by eapply rtc_l.
Qed.

Lemma saturate_incl n : forall ids, ids ⊆ saturate n edges ids.
Proof. induction n as [|n IH]; intros ids; cbn [saturate]; [done|]. etransitivity; [|apply IH]. set_solver. Qed.

(** The recursive query ends with exactly the ids that a path leads to. *)
Lemma reachable_exact ids y : y ∈ reachable edges ids <-> exists x, x ∈ ids /\ rtc edge x y.
Proof.
  split; [apply saturate_sound|]. intros (x & Hx & Hr).
  assert (closed (reachable edges ids)) as Hc.
  { apply saturate_closed. unfold leaving. apply filter_length_le. }
  assert (x ∈ reachable edges ids) as Hin by by apply saturate_incl.
  clear Hx. induction Hr as [x|x z y He Hr IH]; [done|]. by eapply IH, Hc.
Qed.

Lemma reachable_successors ids y :
  y ∈ reachable edges (successors edges ids) <-> exists x, x ∈ ids /\ tc edge x y.
Proof.
  rewrite reachable_exact. split.
  - intros (z & (x & Hx & He)%elem_of_successors & Hr). exists x. split; [done|]. by eapply tc_rtc_r; [apply tc_once|].
  - intros (x & Hx & Hr). assert (exists z, edge x z /\ rtc edge z y) as (z & He & Hz).
    { destruct Hr as [x y He|x z y He Hr]; [by exists y; split|]. exists z. split; [done|]. by apply tc_rtc. }
    exists z. split; [|done]. apply elem_of_successors. eauto.
Qed.
End Reach.

(** ** The dependencies *)

Definition waits_for (deps : list DependencyRow) : relation cstr := edge (dependency_edges deps).

Lemma waits_for_iff deps a b : waits_for deps a b <-> exists d, d ∈ deps /\ dp_task_id d = a /\ dp_blocked_by_id d = b.
Proof.
  unfold waits_for, edge, dependency_edges. rewrite list_elem_of_In, in_map_iff. split.
  - intros (d & [= <- <-] & Hd). exists d. by rewrite list_elem_of_In.
  - intros (d & Hd & <- & <-). exists d. by rewrite <- list_elem_of_In.
Qed.

Definition acyclic (deps : list DependencyRow) : Prop := forall a, ~ tc (waits_for deps) a a.

Lemma tc_mono (R S : relation cstr) a b : (forall x y, R x y -> S x y) -> tc R a b -> tc S a b.
Proof. intros H. induction 1 as [x y Hx|x y z Hx _ IH]; [by apply tc_once, H|eapply tc_l; [by apply H|done]]. Qed.

Lemma acyclic_subset deps deps' : (forall d, d ∈ deps' -> d ∈ deps) -> acyclic deps -> acyclic deps'.
Proof.
  intros H Ha a Hc. apply (Ha a). eapply tc_mono; [|exact Hc]. intros x y (d & Hd & E)%waits_for_iff.
  apply waits_for_iff. exists d. auto.
Qed.

(** A cycle through one more pair is a path from its end to its start. *)
Lemma tc_extended (R : relation cstr) a b x y :
  tc (fun u v => R u v \/ u = a /\ v = b) x y -> tc R x y \/ rtc R x a /\ rtc R b y.
Proof.
  induction 1 as [x y [H|[-> ->]]|x y z [H|[-> ->]] _ IH].
  - left. by apply tc_once.
  - right. split; apply rtc_refl.
  - destruct IH as [IH|[H1 H2]]; [left; by eapply tc_l|]. right. split; [by eapply rtc_l|done].
  - right. split; [apply rtc_refl|]. destruct IH as [IH|[_ H2]]; [by apply tc_rtc|done].
Qed.

Lemma acyclic_insert deps d :
  acyclic deps -> dp_task_id d <> dp_blocked_by_id d -> ~ tc (waits_for deps) (dp_blocked_by_id d) (dp_task_id d) ->
  acyclic (deps ++ [d]).
Proof.
  intros Ha Hne Hn x Hc.
  assert (tc (fun u v => waits_for deps u v \/ u = dp_task_id d /\ v = dp_blocked_by_id d) x x) as Hx.
  { eapply tc_mono; [|exact Hc]. intros u v (e & [He|He]%elem_of_app & <- & <-)%waits_for_iff.
    - left. apply waits_for_iff. eauto.
    - apply list_elem_of_singleton in He as ->. by right. }
  apply tc_extended in Hx as [Hx|[H1 H2]]; [by apply (Ha x)|].
  assert (rtc (waits_for deps) (dp_blocked_by_id d) (dp_task_id d)) as Hr by by etransitivity.
  apply rtc_tc in Hr as [E|Hr]; [congruence|done].
Qed.

(** ** The tables *)

(** [checked]: no dependency was added whose check for cycles failed. *)
Record tasks_ok (checked : bool) (db : TaskDb) : Prop := mkTasksOk {
  tasks_ids : NoDup (map tk_id (td_tasks db));
  tasks_parents r p : r ∈ td_tasks db -> tk_parent_id r = Some p -> p ∈ map tk_id (td_tasks db);
  tasks_dependencies d : d ∈ td_dependencies db ->
    dp_task_id d ∈ map tk_id (td_tasks db) /\ dp_blocked_by_id d ∈ map tk_id (td_tasks db);
  tasks_pairs : NoDup (dependency_edges (td_dependencies db));
  tasks_acyclic : checked = true -> acyclic (td_dependencies db)
}.

Lemma elem_of_ids x (rows : list TaskRow) : x ∈ map tk_id rows <-> exists r, r ∈ rows /\ tk_id r = x.
Proof.
  rewrite list_elem_of_In, in_map_iff. split; intros (r & H1 & H2); exists r; rewrite ?list_elem_of_In in *; done.
Qed.

Lemma existsb_task x rows : existsb (is_task x) rows = true <-> x ∈ map tk_id rows.
Proof.
  rewrite existsb_true_iff, elem_of_ids. unfold is_task.
  split; intros (r & Hr & H); exists r; split; try done; by apply streq_true.
Qed.

Lemma task_parent_true p id rows :
  task_parent_exists (Some p) id rows = true <-> p = id \/ p ∈ map tk_id rows.
Proof. unfold task_parent_exists. rewrite orb_true_iff, streq_true, existsb_task. done. Qed.

Lemma insert_task_Some r rows rows' :
  insert_task r rows = Some rows' <->
  rows' = rows ++ [r] /\ tk_id r ∉ map tk_id rows /\
  forall p, tk_parent_id r = Some p -> p = tk_id r \/ p ∈ map tk_id rows.
Proof.
  unfold insert_task. destruct (task_parent_exists _ _ _) eqn:E.
  - rewrite insert_row_Some. unfold same_task.
    assert (forall p, tk_parent_id r = Some p -> p = tk_id r \/ p ∈ map tk_id rows) as Hp.
    { intros p Hp. rewrite Hp in E. by apply task_parent_true. }
    split.
    + intros (H1 & H2). split; [done|]. split; [|done]. intros (q & Hq & Hid)%elem_of_ids. specialize (H1 q Hq).
      rewrite Hid, streq_refl in H1. done.
    + intros (H2 & Hn & _). split; [|done]. intros q Hq. apply streq_false. intros Hid. apply Hn, elem_of_ids. eauto.
  - split; [done|]. intros (_ & _ & H). destruct (tk_parent_id r) as [p|]; [|done].
    rewrite (proj2 (task_parent_true p (tk_id r) rows)) in E; [done|auto].
Qed.

Lemma insert_task_ok {checked} r rows db :
  tasks_ok checked db -> insert_task r (td_tasks db) = Some rows -> tasks_ok checked (with_tasks rows db).
Proof.
  intros [H1 H2 H3 H4 H5] (-> & Hn & Hp)%insert_task_Some. split; cbn; try done.
  - rewrite map_app. apply NoDup_app. split; [done|]. split; [|apply NoDup_singleton].
    intros x Hx ->%list_elem_of_singleton. done.
  - intros q p Hq Hqp. rewrite map_app, elem_of_app. apply elem_of_app in Hq as [Hq|Hq]; [left; by eapply H2|].
    apply list_elem_of_singleton in Hq as ->. destruct (Hp p Hqp) as [->|]; [right; by apply list_elem_of_singleton|by left].
  - intros d Hd. rewrite map_app, !elem_of_app. destruct (H3 d Hd). auto.
Qed.

(** An update that leaves ids alone, and parents or makes them existing ones. *)
Lemma update_ok {checked} db id f :
  tasks_ok checked db -> (forall r, tk_id (f r) = tk_id r) ->
  (forall r p, r ∈ td_tasks db -> is_task id r = true -> tk_parent_id (f r) = Some p ->
     tk_parent_id r = Some p \/ p = id \/ p ∈ map tk_id (td_tasks db)) ->
  forall st, tasks_ok checked (update_task st id f db).2.
Proof.
  intros Hok Hid Hp st. unfold update_task, sqlite_dal_exec_p. destruct st; [by destruct db|by destruct db|].
  destruct Hok as [H1 H2 H3 H4 H5]. cbn. split; cbn; try done; rewrite ?(update_where_column tk_id) by done; try done.
  intros r p (q & Hq & ->)%elem_of_update. destruct (is_task id q) eqn:E; [|by apply H2].
  intros Hqp. destruct (Hp q p Hq E Hqp) as [H|[->|H]]; [by eapply H2| |done].
  apply elem_of_ids. exists q. split; [done|]. by apply streq_true.
Qed.

(** ** Deletion *)

Lemma parent_edge rows p x : edge (parent_edges rows) p x <-> exists r, r ∈ rows /\ tk_parent_id r = Some p /\ tk_id r = x.
Proof.
  unfold edge, parent_edges. rewrite list_elem_of_omap. split.
  - intros (r & Hr & E). destruct (tk_parent_id r) as [q|] eqn:Eq; [|done]. injection E as -> <-. eauto.
  - intros (r & Hr & Hp & <-). exists r. split; [done|]. by rewrite Hp.
Qed.

(** What a deletion deletes: the rows and everything below them. *)
Lemma elem_of_delete_tasks p db r :
  NoDup (map tk_id (td_tasks db)) ->
  r ∈ td_tasks (delete_tasks p db) <->
  r ∈ td_tasks db /\ ~ exists r0, r0 ∈ td_tasks db /\ p r0 = true /\ rtc (edge (parent_edges (td_tasks db))) (tk_id r0) (tk_id r).
Proof.
  intros Hnd. cbn. rewrite elem_of_delete, mem_false, reachable_exact. split; intros [Hr Hn]; (split; [done|]); contradict Hn.
  - destruct Hn as (r0 & Hr0 & Hp & Hrt). exists (tk_id r0). split; [|done]. apply elem_of_ids. exists r0.
    split; [|done]. by apply elem_of_select.
  - destruct Hn as (x & (r0 & [Hr0 Hp]%elem_of_select & <-)%elem_of_ids & Hrt). eauto.
Qed.

Lemma delete_tasks_ok {checked} p db : tasks_ok checked db -> tasks_ok checked (delete_tasks p db).
Proof.
  intros [H1 H2 H3 H4 H5]. set (doomed := reachable (parent_edges (td_tasks db)) (map tk_id (select_where p (td_tasks db)))).
  assert (forall r q, r ∈ td_tasks db -> tk_parent_id r = Some q -> tk_id r ∉ doomed -> q ∉ doomed) as Hup.
  { intros r q Hr Hq Hn Hd. apply Hn. apply reachable_exact in Hd as (x & Hx & Hrt). apply reachable_exact.
    exists x. split; [done|]. eapply rtc_r; [done|]. apply parent_edge. eauto. }
  assert (forall x, x ∈ map tk_id (td_tasks db) -> x ∉ doomed -> x ∈ map tk_id (td_tasks (delete_tasks p db))) as Hkeep.
  { intros x (r & Hr & <-)%elem_of_ids Hn. apply elem_of_ids. exists r. split; [|done]. cbn. fold doomed.
    apply elem_of_delete. split; [done|]. by apply mem_false. }
  split.
  - cbn. by apply NoDup_delete.
  - intros r q Hr Hq. cbn in Hr. fold doomed in Hr. apply elem_of_delete in Hr as [Hr Hn%mem_false].
    apply Hkeep; [by eapply H2|by eapply Hup].
  - intros d Hd. cbn in Hd. fold doomed in Hd. apply elem_of_delete in Hd as [Hd [Ha%mem_false Hb%mem_false]%orb_false_iff].
    destruct (H3 d Hd). split; by apply Hkeep.
  - cbn. unfold dependency_edges in *. by apply NoDup_delete.
  - intros Hc. eapply acyclic_subset; [|exact (H5 Hc)]. intros d Hd. cbn in Hd. by apply elem_of_delete in Hd as [? _].
Qed.

(** ** Every operation keeps the tables *)

Lemma insert_tasks_ok {checked} env session_id tasks : forall i rows rows' db,
  tasks_ok checked (with_tasks rows db) -> insert_tasks env session_id i tasks rows = Some rows' -> tasks_ok checked (with_tasks rows' db).
Proof.
  induction tasks as [|t tasks IH]; intros i rows rows' db Hok; cbn [insert_tasks]; [by intros [= <-]|].
  destruct (new_id env i t) as [id|]; [|done]. cbn [mbind option_bind].
  destruct (task_content t) as [content|]; [|done]. cbn [mbind option_bind].
  destruct (re_step env i); [|done]. destruct (insert_task _ rows) as [rows1|] eqn:E; [|done]. cbn [mbind option_bind].
  apply IH. exact (insert_task_ok _ rows1 (with_tasks rows db) Hok E).
Qed.

Lemma replace_ok {checked} env session_id tasks db :
  tasks_ok checked db -> tasks_ok checked (task_store_replace_session_tasks env session_id tasks db).2.
Proof.
  intros Hok. unfold task_store_replace_session_tasks. destruct (_ || _); [done|]. destruct (re_delete env); [done..|].
  cbv zeta. pose proof (delete_tasks_ok (in_session session_id) db Hok) as Hd. set (db' := delete_tasks _ db) in *. clearbody db'.
  destruct (match tasks with [] => Some (td_tasks db') | _ => _ end) as [rows|] eqn:E; [|done].
  assert (tasks_ok checked (with_tasks rows db')) as Hr.
  { destruct tasks as [|t tasks]; [by injection E as <-; destruct db'|]. destruct (re_prepare env); [|done].
    apply (insert_tasks_ok env session_id (t :: tasks) 0 (td_tasks db') rows db'); [by destruct db'|done]. }
  destruct (re_commit env); [done|]. by destruct Hr.
Qed.

Lemma set_parent_ok {checked} st now id parent db : tasks_ok checked db -> tasks_ok checked (task_store_set_parent st now id parent db).2.
Proof.
  intros Hok. unfold task_store_set_parent. destruct st; [done..|].
  destruct (_ && _) eqn:E; [done|]. apply update_ok; [done|done|]. cbn. intros r p Hr Hi Hp.
  apply andb_false_iff in E as [E|E].
  - assert (0 < count_where (is_task id) (td_tasks db)); [|lia]. apply count_where_pos. eauto.
  - apply negb_false_iff in E. rewrite Hp in E. right. by apply task_parent_true.
Qed.

(** Nothing is found exactly when there is no path. *)
Lemma depends_on_zero st a b deps :
  st <> StepFails 0 -> depends_on st a b deps = 0 -> ~ tc (waits_for deps) a b.
Proof.
  intros Hst H Hc. unfold depends_on in H. cbv zeta in H.
  assert (b ∈ List.filter (streq b) (reachable (dependency_edges deps) (successors (dependency_edges deps) [a]))) as Hin.
  { apply list_elem_of_In, filter_In. split; [|apply streq_refl]. apply list_elem_of_In, reachable_successors.
    exists a. split; [by apply list_elem_of_singleton|done]. }
  destruct (List.filter _ _) as [|y l]; [by apply not_elem_of_nil in Hin|].
  destruct st as [|[|n]|]; cbn in H; [lia|congruence|lia|lia].
Qed.

Lemma add_dependency_ok {checked} st_check st now a b db :
  (checked = true -> st_check <> StepFails 0) -> tasks_ok checked db -> tasks_ok checked (task_store_add_dependency st_check st now a b db).2.
Proof.
  intros Hst Hok. unfold task_store_add_dependency. destruct (streq_spec a b) as [|Hne]; [done|].
  destruct (Z.eqb_spec (depends_on st_check b a (td_dependencies db)) 0) as [Hd|]; [|done]. cbn [negb].
  destruct st; [done..|]. destruct (_ && _) eqn:E; [|done]. apply andb_true_iff in E as [Ha%existsb_task Hb%existsb_task].
  destruct (insert_row _ _ _) as [deps|] eqn:Ei; [|by destruct db]. apply insert_row_Some in Ei as [Hn ->].
  destruct Hok as [H1 H2 H3 H4 H5]. split; cbn; try done.
  - intros d [Hd'|Hd']%elem_of_app; [by apply H3|]. by apply list_elem_of_singleton in Hd' as ->.
  - unfold dependency_edges in *. rewrite map_app. apply NoDup_app. split; [done|]. split; [|apply NoDup_singleton].
    intros x Hx Hx'. apply list_elem_of_singleton in Hx' as ->. apply list_elem_of_In, in_map_iff in Hx as (d & Hxd & Hin).
    apply list_elem_of_In in Hin. specialize (Hn d Hin). unfold same_dependency in Hn. cbn in Hn, Hxd.
    injection Hxd as E1 E2. by rewrite E1, E2, !streq_refl in Hn.
  - intros Hc. apply acyclic_insert; [auto|done|]. cbn. eapply depends_on_zero; [by apply Hst|done].
Qed.

Section Steps.
Context {DB : Sqlite}.

(** One operation of the store, whatever its statements do. When [checked], the
    query that looks for a cycle runs to its end: a step that fails there reads as
    no cycle. *)
Inductive task_step (checked : bool) : TaskDb -> TaskDb -> Prop :=
| ts_create st now uuid session_id content priority parent db :
    task_step checked db (task_store_create_task st now uuid session_id content priority parent db).2
| ts_status st now id status db : task_step checked db (task_store_update_status st now id status db).2
| ts_content st now id content db : task_step checked db (task_store_update_content st now id content db).2
| ts_priority st now id priority db : task_step checked db (task_store_update_priority st now id priority db).2
| ts_delete st id db : task_step checked db (task_store_delete_task st id db).2
| ts_parent st now id parent db : task_step checked db (task_store_set_parent st now id parent db).2
| ts_add st_check st now a b db :
    (checked = true -> st_check <> StepFails 0) -> task_step checked db (task_store_add_dependency st_check st now a b db).2
| ts_remove st a b db : task_step checked db (task_store_remove_dependency st a b db).2
| ts_replace env session_id tasks db : task_step checked db (task_store_replace_session_tasks env session_id tasks db).2.

Lemma task_step_ok checked db db' : task_step checked db db' -> tasks_ok checked db -> tasks_ok checked db'.
Proof using.
  intros [st now uuid s c pr parent d|st now i x d|st now i x d|st now i x d|st i d|st now i x d|sc st now a b d Hsc|st a b d|env s l d] Hok.
  - unfold task_store_create_task. destruct uuid as [id|]; [|done]. destruct st; [done..|].
    destruct (insert_task _ _) eqn:E; [|done]. by eapply insert_task_ok.
  - apply update_ok; auto.
  - apply update_ok; auto.
  - apply update_ok; auto.
  - unfold task_store_delete_task. destruct st; [done..|]. by apply delete_tasks_ok.
  - by apply set_parent_ok.
  - by apply add_dependency_ok.
  - unfold task_store_remove_dependency. destruct st; [done..|]. destruct Hok as [H1 H2 H3 H4 H5]. split; cbn; try done.
    + intros d' [Hd _]%elem_of_delete. by apply H3.
    + unfold dependency_edges in *. by apply NoDup_delete.
    + intros Hc. eapply acyclic_subset; [|exact (H5 Hc)]. by intros d' [? _]%elem_of_delete.
  - by apply replace_ok.
Qed.

Lemma task_steps_ok checked db : rtc (task_step checked) (mkTaskDb [] [] false) db -> tasks_ok checked db.
Proof using.
  intros Hs. assert (tasks_ok checked (mkTaskDb [] [] false)) as H0.
  { split; cbn; try apply NoDup_nil_2; [by intros r p ?%not_elem_of_nil|by intros d ?%not_elem_of_nil|].
    intros _ a Hc. destruct Hc as [x y H|x y z H _]; by apply not_elem_of_nil in H. }
  remember (mkTaskDb [] [] false) as db0 eqn:E. clear E. induction Hs as [|x y z Hxy _ IH]; [done|].
  by apply IH, (task_step_ok checked x).
Qed.

(** C11: from the empty tables on, whatever operations run with whatever failures,
    ids are distinct, parents and both ends of every dependency exist, and no
    dependency is stored twice; and as long as the queries that look for a cycle
    before a dependency is added run to their end, no task waits for itself,
    directly or through others. Without that last condition one may
    ([cycle_after_failed_check]). *)
Theorem task_tables_sound db :
  (rtc (task_step false) (mkTaskDb [] [] false) db ->
   NoDup (map tk_id (td_tasks db)) /\
   (forall r p, r ∈ td_tasks db -> tk_parent_id r = Some p -> p ∈ map tk_id (td_tasks db)) /\
   (forall d, d ∈ td_dependencies db ->
      dp_task_id d ∈ map tk_id (td_tasks db) /\ dp_blocked_by_id d ∈ map tk_id (td_tasks db)) /\
   NoDup (dependency_edges (td_dependencies db))) /\
  (rtc (task_step true) (mkTaskDb [] [] false) db -> acyclic (td_dependencies db)).
Proof using.
  split; [intros [H1 H2 H3 H4 _]%task_steps_ok; eauto|]. intros H%task_steps_ok. by apply (tasks_acyclic _ _ H).
Qed.

(** ** Ready tasks *)

(** What [task_store_is_blocked] finds. *)
Lemma holds_up_spec db x :
  existsb (holds_up db x) (td_dependencies db) = true <->
  exists d t, d ∈ td_dependencies db /\ t ∈ td_tasks db /\ dp_task_id d = x /\ dp_blocked_by_id d = tk_id t /\
              tk_status t <> TASK_STATUS_COMPLETED.
Proof.
  rewrite existsb_true_iff. unfold holds_up, is_task. split.
  - intros (d & Hd & [Ht%streq_true (t & Hin & [Hi%streq_true Hs]%andb_true_iff)%existsb_true_iff]%andb_true_iff).
    exists d, t. apply negb_true_iff, Z.eqb_neq in Hs. done.
  - intros (d & t & Hd & Hin & Ht & Hi & Hs). exists d. split; [done|]. apply andb_true_iff. split; [by apply streq_true|].
    apply existsb_true_iff. exists t. split; [done|]. rewrite Hi, streq_refl. by apply negb_true_iff, Z.eqb_neq.
Qed.

Lemma is_blocked_exact db x :
  task_store_is_blocked StmtOk x db = if existsb (holds_up db x) (td_dependencies db) then 1 else 0.
Proof using.
  unfold task_store_is_blocked, select_where. cbn.
  induction (td_dependencies db) as [|d l IH]; cbn; [done|]. by destruct (holds_up db x d).
Qed.

(** An uncompleted task waits for [y], uncompleted. *)
Definition pending_on db : relation cstr := fun x y =>
  exists d t, d ∈ td_dependencies db /\ t ∈ td_tasks db /\ dp_task_id d = x /\ dp_blocked_by_id d = tk_id t /\
              tk_status t <> TASK_STATUS_COMPLETED /\ tk_id t = y.

Lemma pending_on_sn db x : tasks_ok true db -> sn (pending_on db) x.
Proof using.
  intros Hok. assert (forall a b, pending_on db a b -> waits_for (td_dependencies db) a b) as Hsub.
  { intros a b (d & t & Hd & _ & Ha & Hb & _ & <-). apply waits_for_iff. eauto. }
  apply tc_finite_sn.
  - intros a Hc. apply (tasks_acyclic _ db Hok eq_refl a). by eapply tc_mono.
  - exists (map dp_blocked_by_id (td_dependencies db)). intros y Hc.
    assert (exists z, pending_on db z y) as (z & d & t & Hd & _ & _ & Hb & _ & <-).
    { clear Hok Hsub. induction Hc as [a b H|a b c _ _ IH]; eauto. }
    rewrite <- Hb. by apply list_elem_of_In, in_map, list_elem_of_In.
Qed.

(** There is always something to do. *)
Lemma unblocked_task db r :
  tasks_ok true db -> r ∈ td_tasks db -> tk_status r <> TASK_STATUS_COMPLETED ->
  exists r', r' ∈ td_tasks db /\ tk_status r' <> TASK_STATUS_COMPLETED /\
             existsb (holds_up db (tk_id r')) (td_dependencies db) = false.
Proof using.
  intros Hok Hr Hs. pose proof (pending_on_sn db (tk_id r) Hok) as Hsn. remember (tk_id r) as x eqn:Hx.
  revert r Hr Hs Hx. induction Hsn as [x _ IH]; intros r Hr Hs ->.
  destruct (existsb (holds_up db (tk_id r)) (td_dependencies db)) eqn:E; [|by exists r].
  apply holds_up_spec in E as (d & t & Hd & Ht & Hdt & Hdb & Hst).
  apply (IH (tk_id t)) with (r := t); try done. unfold flip. by exists d, t.
Qed.

Lemma Sorted_members {A} (Q S : A -> A -> Prop) l :
  (forall x y, x ∈ l -> y ∈ l -> Q x y -> S x y) -> Sorted Q l -> Sorted S l.
Proof using.
  intros H. induction 1 as [|x l Hs IH Hx]; [constructor|]. constructor.
  - apply IH. intros a b Ha Hb. apply H; by right.
  - destruct Hx as [|y l' Hxy]; constructor. apply H; [left|right; left|done].
Qed.

Definition ready_before (a b : TaskRow) : Prop :=
  tk_priority b < tk_priority a \/ tk_priority a = tk_priority b /\ tk_created_at a <= tk_created_at b.

Definition int64 (z : Z) : Prop := - 2 ^ 63 <= z < 2 ^ 63.

End Steps.

(** ** The tasks below a task *)

#[export] Instance TaskRow_eq_dec : EqDecision TaskRow.
Proof. solve_decision. Defined.

(** A path comes back to an element, or its elements are distinct. *)
Lemma nsteps_distinct {A} `{EqDecision A} (R : relation A) n : forall x y,
  nsteps R n x y ->
  (exists z, tc R x z /\ tc R z z) \/ exists l, NoDup l /\ length l = n /\ forall z, z ∈ l -> tc R x z.
Proof.
  induction n as [|n IH]; intros x y Hn; inversion_clear Hn as [|? ? z ? Hxz Hzy].
  - right. exists []. split; [apply NoDup_nil_2|]. split; [done|]. by intros z ?%not_elem_of_nil.
  - destruct (IH z y Hzy) as [(w & Hw & Hc)|(l & Hnd & Hl & Hin)]; [left; exists w; split; [by eapply tc_l|done]|].
    destruct (decide (z ∈ l)) as [Hz|Hz]; [left; exists z; split; [by apply tc_once|by apply Hin]|]. right.
    exists (z :: l). split; [by apply NoDup_cons|]. split; [by rewrite <- Hl|].
    intros w [->|Hw]%elem_of_cons; [by apply tc_once|]. eapply tc_l; [done|]. by apply Hin.
Qed.

(** From an element on a cycle every number of steps can be made. *)
Lemma nsteps_cycle {A} (R : relation A) x n : tc R x x -> exists y, nsteps R n x y.
Proof.
  intros Hc. assert (forall z, tc R z x -> exists y, nsteps R n z y) as H; [|by apply H].
  induction n as [|n IH]; intros z Hz; [exists z; constructor|].
  assert (exists w, R z w /\ tc R w x) as (w & Hw & Hwx).
  { destruct Hz as [z x Hz|z w x Hz Hw]; [by exists x|by exists w]. }
  destruct (IH w Hwx) as [y Hy]. exists y. by econstructor.
Qed.

Section Subtree.
Context {DB : Sqlite} {SS : SqliteSpec DB}.
Implicit Types (db : TaskDb) (rows level : list TaskRow).

Definition child rows : relation TaskRow := fun r s => s ∈ rows /\ tk_parent_id s = Some (tk_id r).
(** [r] is a child of the root, or below one. *)
Definition below rows (root : cstr) (r : TaskRow) : Prop :=
  exists s, s ∈ rows /\ tk_parent_id s = Some root /\ rtc (child rows) s r.

Lemma elem_of_children rows root r : r ∈ select_where (child_of root) rows <-> r ∈ rows /\ tk_parent_id r = Some root.
Proof.
  rewrite elem_of_select. unfold child_of. destruct (tk_parent_id r) as [p|]; [|by split; intros [_ ?]].
  rewrite streq_true. split; [by intros [? ->]|by intros [? [= ->]]].
Qed.

Definition next_level rows level : list TaskRow := flat_map (fun s => select_where (child_of (tk_id s)) rows) level.

Lemma elem_of_next rows level r : r ∈ next_level rows level <-> exists s, s ∈ level /\ child rows s r.
Proof.
  unfold next_level, child. rewrite list_elem_of_In, in_flat_map. split.
  - intros (s & Hs%list_elem_of_In & Hr%list_elem_of_In%elem_of_children). eauto.
  - intros (s & Hs%list_elem_of_In & Hr%elem_of_children%list_elem_of_In). eauto.
Qed.

Lemma subtree_None rows fuel : forall level,
  subtree fuel rows level = None <-> exists s r, s ∈ level /\ nsteps (child rows) fuel s r.
Proof.
  induction fuel as [|fuel IH]; intros [|s0 level]; cbn [subtree].
  - split; [done|]. by intros (s & r & ?%not_elem_of_nil & _).
  - split; [|done]. intros _. exists s0, s0. split; [left|constructor].
  - split; [done|]. by intros (s & r & ?%not_elem_of_nil & _).
  - change (flat_map (fun s => select_where (child_of (tk_id s)) rows) (s0 :: level)) with (next_level rows (s0 :: level)).
    transitivity (subtree fuel rows (next_level rows (s0 :: level)) = None); [by destruct (subtree fuel _ _)|].
    rewrite IH. split.
    + intros (s & r & (t & Ht & Hts)%elem_of_next & Hn). exists t, r. split; [done|]. by econstructor.
    + intros (s & r & Hs & Hn). inversion_clear Hn as [|? ? z ? Hsz Hz]. exists z, r. split; [|done]. apply elem_of_next. eauto.
Qed.

Lemma subtree_members rows fuel : forall level found,
  subtree fuel rows level = Some found -> forall r, r ∈ found <-> exists s, s ∈ level /\ rtc (child rows) s r.
Proof.
  assert (forall r, r ∈ [] <-> exists s, s ∈ [] /\ rtc (child rows) s r) as H0.
  { intros r. split; [by intros ?%not_elem_of_nil|]. by intros (s & ?%not_elem_of_nil & _). }
  induction fuel as [|fuel IH]; intros [|s0 level] found; cbn [subtree]; try done; try by intros [= <-].
  change (flat_map (fun s => select_where (child_of (tk_id s)) rows) (s0 :: level)) with (next_level rows (s0 :: level)).
  destruct (subtree fuel rows _) as [rest|] eqn:E; [|done]. cbn [mbind option_bind]. intros H r.
  assert (found = (s0 :: level) ++ rest) as -> by by injection H. rewrite elem_of_app, (IH _ _ E). split.
  - intros [Hr|(s & (t & Ht & Hts)%elem_of_next & Hr)]; [by exists r|]. exists t. split; [done|]. by eapply rtc_l.
  - intros (s & Hs & Hr). inversion Hr as [|? t ? Hst Htr]; subst; [by left|]. right. exists t. split; [|done].
    apply elem_of_next. eauto.
Qed.

Lemma below_cycle_any rows root :
  (exists r, below rows root r /\ tc (child rows) r r) ->
  forall fuel, subtree fuel rows (select_where (child_of root) rows) = None.
Proof using.
  intros (r & (s & Hs & Hp & Hr) & Hc) fuel. rewrite subtree_None.
  destruct (nsteps_cycle _ _ fuel Hc) as [y Hy].
  apply rtc_nsteps in Hr as [k Hk]. pose proof (nsteps_trans _ _ _ _ _ Hk Hy) as Hn.
  rewrite Nat.add_comm in Hn. apply nsteps_add_inv in Hn as (z & Hz & _). exists s, z.
  split; [|done]. by apply elem_of_children.
Qed.

Lemma below_cycle rows root :
  subtree (S (length rows)) rows (select_where (child_of root) rows) = None <->
  exists r, below rows root r /\ tc (child rows) r r.
Proof using.
  rewrite subtree_None. split.
  - intros (s & r & [Hs Hp]%elem_of_children & Hn).
    destruct (nsteps_distinct _ _ _ _ Hn) as [(z & Hz & Hc)|(l & Hnd & Hl & Hin)].
    + exists z. split; [|done]. exists s. split; [done|]. split; [done|]. by apply tc_rtc.
    + exfalso. assert (length l <= length rows)%nat; [|lia].
      apply submseteq_length, NoDup_submseteq; [done|]. intros z Hz%Hin. clear -Hz.
      induction Hz as [x y [Hy _]|x y z _ _ IH]; done.
  - rewrite <- subtree_None. intros H. by apply below_cycle_any.
Qed.

(** C33: the query for the tasks below a task ends exactly when none of them is below
    itself, which the store does not prevent, whatever number of rounds it is given;
    and then answers exactly the rows whose chain of parents leads to the task. *)
Theorem subtree_exact root db :
  (task_store_get_subtree StmtOk root db = None <->
   exists r, below (td_tasks db) root r /\ tc (child (td_tasks db)) r r) /\
  ((exists r, below (td_tasks db) root r /\ tc (child (td_tasks db)) r r) ->
   forall fuel, subtree fuel (td_tasks db) (select_where (child_of root) (td_tasks db)) = None) /\
  (forall tasks, task_store_get_subtree StmtOk root db = Some tasks ->
   exists rows, tasks = omap map_task rows /\ Sorted (le_on tk_created_at) rows /\
     forall r, r ∈ rows <-> below (td_tasks db) root r).
Proof using SS.
  split; [|split; [apply below_cycle_any|]].
  - rewrite <- below_cycle. unfold task_store_get_subtree. by destruct (subtree _ _ _).
  - unfold task_store_get_subtree. intros tasks.
    destruct (subtree _ _ _) as [found|] eqn:E; [|done]. intros [= <-].
    exists (order_by tk_created_at found). split; [done|]. split; [apply order_by_sorted|].
    intros r. rewrite order_by_perm, (subtree_members _ _ _ _ E). unfold below. split.
    + intros (s & [Hs Hp]%elem_of_children & Hr). eauto.
    + intros (s & Hs & Hp & Hr). exists s. split; [|done]. by apply elem_of_children.
Qed.
End Subtree.

(** ** Witnesses *)

Module TaskExamples.
#[local] Existing Instance RefSqlite.

Definition E0 : TaskDb := mkTaskDb [] [] false.
(** Two tasks, the second waits for the first. *)
Definition E1 : TaskDb := (task_store_create_task StmtOk 5 (Some (cs "a")) (cs "s") (cs "first") 1 None E0).2.
Definition E2 : TaskDb := (task_store_create_task StmtOk 6 (Some (cs "b")) (cs "s") (cs "second") 3 (Some (cs "a")) E1).2.
Definition E3 : TaskDb := (task_store_add_dependency StmtOk StmtOk 7 (cs "b") (cs "a") E2).2.
(** The first becomes a subtask of the second. *)
Definition E4 : TaskDb := (task_store_set_parent StmtOk 8 (cs "a") (Some (cs "b")) E2).2.

Lemma E3_steps : rtc (task_step true) E0 E3.
Proof. apply (rtc_l _ _ E1); [apply ts_create|]. apply (rtc_l _ _ E2); [apply ts_create|]. apply rtc_once. by apply ts_add. Qed.

Lemma E4_steps : rtc (task_step true) E0 E4.
Proof. apply (rtc_l _ _ E1); [apply ts_create|]. apply (rtc_l _ _ E2); [apply ts_create|]. apply rtc_once, ts_parent. Qed.

(** The first waits for the second as well: the query that looks for a cycle fails
    at its first step. *)
Definition E5 : TaskDb := (task_store_add_dependency (StepFails 0) StmtOk 8 (cs "a") (cs "b") E3).2.

Lemma E5_steps : rtc (task_step false) E0 E5.
Proof.
  apply (rtc_l _ _ E1); [apply ts_create|]. apply (rtc_l _ _ E2); [apply ts_create|].
  apply (rtc_l _ _ E3); [by apply ts_add|]. apply rtc_once. by apply ts_add.
Qed.

Lemma cycle_after_failed_check : rtc (task_step false) E0 E5 /\ ~ acyclic (td_dependencies E5).
Proof.
  split; [exact E5_steps|]. intros H. apply (H (cs "a")). apply (tc_l _ _ (cs "b")); [|apply tc_once]; apply waits_for_iff; eexists.
  - split; [right; left|]. split; reflexivity.
  - split; [left|]. split; reflexivity.
Qed.

Example cycle_refused : task_store_add_dependency StmtOk StmtOk 8 (cs "a") (cs "b") E3 = (-2, E3).
Proof. reflexivity. Qed.
Example ready_first : map task_id (task_store_list_ready StmtOk (cs "s") E3) = [cs "a"].
Proof. reflexivity. Qed.

Definition row_a : TaskRow := mkTaskRow (cs "a") (cs "s") (Some (cs "b")) (cs "first") 0 1 5 8.
Definition row_b : TaskRow := mkTaskRow (cs "b") (cs "s") (Some (cs "a")) (cs "second") 0 3 6 6.

Lemma E4_cycle : exists r, below (td_tasks E4) (cs "a") r /\ tc (child (td_tasks E4)) r r.
Proof.
  exists row_b. split.
  - exists row_b. split; [right; left|]. split; [done|]. apply rtc_refl.
  - eapply tc_l; [|apply tc_once].
    + split; [left|]. reflexivity.
    + split; [right; left|]. reflexivity.
Qed.
End TaskExamples.
Import TaskExamples.

Lemma task_tables_sound_witness :
  rtc (task_step true) E0 E3 /\ acyclic (td_dependencies E3) /\
  rtc (task_step false) E0 E5 /\ NoDup (dependency_edges (td_dependencies E5)).
Proof.
  split; [exact E3_steps|]. split; [exact (proj2 (task_tables_sound E3) E3_steps)|].
  split; [exact E5_steps|]. apply (proj1 (task_tables_sound E5) E5_steps).
Defined.


Lemma subtree_exact_witness : rtc (task_step true) E0 E4 /\ task_store_get_subtree StmtOk (cs "a") E4 = None.
Proof. split; [exact E4_steps|]. apply (@subtree_exact RefSqlite RefSqliteSpec (cs "a") E4). exact E4_cycle. Defined.
