(* ===== verification/TodoTool.v ===== *)
(** * The todo list (lib/tools/todo_manager.c, todo_tool.c)

    The list of the agent in memory, its tools TodoRead and TodoWrite with the
    scanner of their arguments, and the task store they write through. Display,
    registration and allocation failures are not modelled. *)

From S2P Require Import Prelude CString Json ToolArgs ToolBatch Sql TaskStore.
Local Open Scope char_scope.
Local Open Scope bool_scope.

(** ** The list (todo_manager.c) *)

Definition TODO_MAX_CONTENT_LENGTH : nat := 512.
Definition TODO_MAX_ID_LENGTH : nat := 64.
Definition TODO_MAX_COUNT : nat := 100.

(** TodoStatus and TodoPriority have the numbers of the task store. *)
Record Todo := mkTodo {
  todo_id : cstr;
  todo_content : cstr;
  todo_status : Z;
  todo_priority : Z;
  todo_created_at : Z;
  todo_updated_at : Z
}.

Definition todo_status_to_string (status : Z) : cstr :=
  if (status =? TASK_STATUS_PENDING)%Z then cs "pending"
  else if (status =? TASK_STATUS_IN_PROGRESS)%Z then cs "in_progress"
  else if (status =? TASK_STATUS_COMPLETED)%Z then cs "completed" else cs "unknown".

Definition todo_status_from_string (s : option cstr) : Z :=
  match s with
  | Some s => if streq s (cs "in_progress") then TASK_STATUS_IN_PROGRESS
              else if streq s (cs "completed") then TASK_STATUS_COMPLETED else TASK_STATUS_PENDING
  | None => TASK_STATUS_PENDING
  end.

Definition todo_priority_to_string (priority : Z) : cstr :=
  if (priority =? TASK_PRIORITY_LOW)%Z then cs "low"
  else if (priority =? TASK_PRIORITY_MEDIUM)%Z then cs "medium"
  else if (priority =? TASK_PRIORITY_HIGH)%Z then cs "high" else cs "low".

Definition todo_priority_from_string (s : option cstr) : Z :=
  match s with
  | Some s => if streq s (cs "medium") then TASK_PRIORITY_MEDIUM
              else if streq s (cs "high") then TASK_PRIORITY_HIGH else TASK_PRIORITY_LOW
  | None => TASK_PRIORITY_LOW
  end.

(** The id of the counter after its increment. *)
Definition generate_todo_id (counter : N) : cstr := take 63 (cs "todo_" ++ digits 20 counter []).

(** The id, the counter and the list. *)
Definition todo_create (counter : N) (now : Z) (content : cstr) (priority : Z) (todos : list Todo)
  : option (cstr * N * list Todo) :=
  if (TODO_MAX_CONTENT_LENGTH <=? length content)%nat || (TODO_MAX_COUNT <=? length todos)%nat then None
  else
    let id := generate_todo_id (counter + 1) in
    Some (id, (counter + 1)%N, todos ++ [mkTodo id content TASK_STATUS_PENDING priority now now]).

Definition is_todo (id : cstr) (t : Todo) : bool := streq (todo_id t) id.

Definition todo_find_by_id (todos : list Todo) (id : cstr) : option Todo := List.find (is_todo id) todos.

(** The first todo with the id. *)
Fixpoint update_first (id : cstr) (f : Todo -> Todo) (todos : list Todo) : option (list Todo) :=
  match todos with
  | [] => None
  | t :: todos' => if is_todo id t then Some (f t :: todos') else cons t <$> update_first id f todos'
  end.

Definition todo_update_status (now : Z) (id : cstr) (status : Z) (todos : list Todo) : option (list Todo) :=
  update_first id (fun t => mkTodo (todo_id t) (todo_content t) status (todo_priority t) (todo_created_at t) now) todos.

Definition todo_update_priority (now : Z) (id : cstr) (priority : Z) (todos : list Todo) : option (list Todo) :=
  update_first id (fun t => mkTodo (todo_id t) (todo_content t) (todo_status t) priority (todo_created_at t) now) todos.

Fixpoint todo_delete (id : cstr) (todos : list Todo) : option (list Todo) :=
  match todos with
  | [] => None
  | t :: todos' => if is_todo id t then Some todos' else cons t <$> todo_delete id todos'
  end.

Definition todo_list_filter (status_filter min_priority : Z) (todos : list Todo) : list Todo :=
  List.filter (fun t => ((status_filter <? 0)%Z || (todo_status t =? status_filter)%Z) && (min_priority <=? todo_priority t)%Z) todos.

Definition todo_has_pending_tasks (todos : list Todo) : bool :=
  existsb (fun t => (todo_status t =? TASK_STATUS_PENDING)%Z || (todo_status t =? TASK_STATUS_IN_PROGRESS)%Z) todos.

(** %ld *)
Definition long_text (z : Z) : cstr :=
  if (z <? 0)%Z then "-" :: digits 20 (Z.to_N (- z)) [] else digits 20 (Z.to_N z) [].

Definition key_text (key : string) : cstr := JQ :: cs key ++ [JQ; ":"].
Definition string_field (key : string) (value : cstr) : cstr := key_text key ++ JQ :: value ++ [JQ].

(** The fields that both printers write, the content cut to 256 characters. *)
Definition todo_fields (t : Todo) : cstr :=
  string_field "id" (todo_id t) ++ "," :: string_field "content" (take 256 (todo_content t)) ++ ","
    :: string_field "status" (todo_status_to_string (todo_status t)) ++ ","
    :: string_field "priority" (todo_priority_to_string (todo_priority t)).

(** Printed entries, each in a buffer of the size given. *)
Fixpoint todo_entries (size : nat) (entry : Todo -> cstr) (first : bool) (todos : list Todo) : cstr :=
  match todos with
  | [] => []
  | t :: todos' => take (size - 1) ((if first then [] else [","]) ++ entry t) ++ todo_entries size entry false todos'
  end.

Definition todo_serialize_json (todos : list Todo) : cstr :=
  "{" :: key_text "todos" ++ "["
    :: todo_entries 1024
         (fun t => "{" :: todo_fields t ++ "," :: key_text "created_at" ++ long_text (todo_created_at t) ++ ","
                   :: key_text "updated_at" ++ long_text (todo_updated_at t) ++ ["}"]) true todos
    ++ ["]"; "}"].

(** ** The arguments of TodoWrite (todo_tool.c) *)

(** The scan for the closing bracket or brace: the text before it and what
    follows, with it; no such character; or a read past the end of the text. *)
Inductive ClosingScan := Closed (body rest : cstr) | Unclosed | PastEnd.

Definition scan_cons (c : ascii) (r : ClosingScan) : ClosingScan :=
  match r with Closed body rest => Closed (c :: body) rest | _ => r end.

(** [depth]: the brackets open besides the first. A string that is not closed ends
    at the NUL, and the step after it leaves the text. *)
Fixpoint scan_closing (opening closing : ascii) (depth : nat) (in_string : bool) (s : cstr) : ClosingScan :=
  match s with
  | [] => if in_string then PastEnd else Unclosed
  | c :: s' =>
      if in_string then
        if Ascii.eqb c JQ then scan_cons c (scan_closing opening closing depth false s')
        else if Ascii.eqb c "\" then
          match s' with
          | [] => PastEnd
          | c' :: s'' => scan_cons c (scan_cons c' (scan_closing opening closing depth true s''))
          end
        else scan_cons c (scan_closing opening closing depth true s')
      else if Ascii.eqb c opening then scan_cons c (scan_closing opening closing (S depth) false s')
      else if Ascii.eqb c closing then
        match depth with
        | O => Closed [] s
        | S depth' => scan_cons c (scan_closing opening closing depth' false s')
        end
      else scan_cons c (scan_closing opening closing depth (Ascii.eqb c JQ) s')
  end.

Fixpoint skip_space_tab (s : cstr) : cstr :=
  match s with
  | c :: s' => if Ascii.eqb c " " || Ascii.eqb c "009" then skip_space_tab s' else s
  | [] => []
  end.

(** The array without its closing bracket: [Some None] for NULL, [None] for a read
    past the end. *)
Definition extract_json_array_parameter (arguments param_name : cstr) : option (option cstr) :=
  let pattern := take 255 (JQ :: param_name ++ [JQ; ":"]) in
  match strstr arguments pattern with
  | None => Some None
  | Some start =>
      match skip_space_tab (drop (length pattern) start) with
      | c :: s =>
          if Ascii.eqb c "[" then
            match scan_closing "[" "]" 0 false s with
            | Closed body _ => Some (Some (c :: body))
            | Unclosed => Some None
            | PastEnd => None
            end
          else Some None
      | [] => Some None
      end
  end.

(** The text up to a quote that is not escaped, escapes kept. *)
Fixpoint quoted_text (s : cstr) : cstr :=
  match s with
  | [] => []
  | c :: s' =>
      if Ascii.eqb c JQ then []
      else if Ascii.eqb c "\" then match s' with [] => [c] | c' :: s'' => c :: c' :: quoted_text s'' end
      else c :: quoted_text s'
  end.

(** The string after a key found at [start], when it fits the buffer. *)
Definition field_value (start : cstr) (key : string) (size : nat) (initial : cstr) : cstr :=
  match skip_space_tab (drop (length (key_text key)) start) with
  | c :: s => if Ascii.eqb c JQ then let v := quoted_text s in if (length v <? size)%nat then v else initial else initial
  | [] => initial
  end.

Definition todo_field (todo_obj : cstr) (key : string) (size : nat) (initial : cstr) : cstr :=
  match strstr todo_obj (key_text key) with Some start => field_value start key size initial | None => initial end.

(** A todo of the array: content (or title), status, priority, parent. *)
Record TodoItem := mkItem { it_content : cstr; it_status : Z; it_priority : Z; it_parent : cstr }.

Definition read_item (todo_obj : cstr) : option TodoItem :=
  let content :=
    match strstr todo_obj (key_text "content") with
    | Some start => field_value start "content" 4096 []
    | None => todo_field todo_obj "title" 4096 []
    end in
  match content with
  | [] => None
  | _ => Some (mkItem content
           (task_status_from_string (Some (todo_field todo_obj "status" 32 (cs "pending"))))
           (task_priority_from_string (Some (todo_field todo_obj "priority" 32 (cs "medium"))))
           (todo_field todo_obj "parent_id" 40 []))
  end.

Fixpoint skip_between (s : cstr) : cstr :=
  match s with
  | c :: s' => if Ascii.eqb c " " || Ascii.eqb c "009" || Ascii.eqb c "," || Ascii.eqb c "010" then skip_between s' else s
  | [] => []
  end.

(** The loop over the array; [None]: a read past its end. The fuel is a turn per
    character. *)
Fixpoint read_items (fuel : nat) (s : cstr) : option (list TodoItem) :=
  match fuel with
  | O => Some []
  | S fuel' =>
      match s with
      | [] => Some []
      | c :: _ =>
          if Ascii.eqb c "]" then Some []
          else
            match skip_between s with
            | [] => None
            | c :: s' =>
                if Ascii.eqb c "{" then
                  match scan_closing "{" "}" 0 false s' with
                  | Closed body rest =>
                      items ← read_items fuel' rest;
                      Some (match read_item (c :: body) with Some i => i :: items | None => items end)
                  | Unclosed => Some []
                  | PastEnd => None
                  end
                else if Ascii.eqb c "]" then Some []
                else read_items fuel' s'
            end
      end
  end.

(** ** The tools *)

Definition GLOBAL_SESSION_ID : cstr := cs "global".

(** The list, the counter of its ids and the store of the services. *)
Record TodoState := mkTodoState { ts_list : list Todo; ts_counter : N; ts_store : option TaskDb }.

Definition with_list (l : list Todo) (s : TodoState) : TodoState := mkTodoState l (ts_counter s) (ts_store s).

Section Tools.
Context {DB : Sqlite}.

Definition todo_of_task (t : Task) : option Todo :=
  content ← task_content t;
  Some (mkTodo (take (TODO_MAX_ID_LENGTH - 1) (task_id t)) (take (TODO_MAX_CONTENT_LENGTH - 1) content) (task_status t)
          (task_priority t) (task_created_at t) (task_updated_at t)).

(** No rows, or no store: the list stays as it is. *)
Definition sync_todolist_from_store (st : Stmt) (s : TodoState) : TodoState :=
  match ts_store s with
  | None => s
  | Some db =>
      match task_store_list_by_session st GLOBAL_SESSION_ID (-1) db with
      | [] => s
      | tasks => with_list (take TODO_MAX_COUNT (omap todo_of_task tasks)) s
      end
  end.

Definition bulk_task (now : Z) (i : TodoItem) : Task :=
  mkTask [] [] (it_parent i) (Some (it_content i)) (it_status i) (it_priority i) now now.

(** Without a store the items go to the list, which may refuse them. *)
Definition add_item (now : Z) (s : TodoState) (i : TodoItem) : TodoState :=
  match todo_create (ts_counter s) now (it_content i) (it_priority i) (ts_list s) with
  | None => s
  | Some (id, counter, todos) =>
      let todos := if (it_status i =? TASK_STATUS_PENDING)%Z then todos
                  else default todos (todo_update_status now id (it_status i) todos) in
      mkTodoState todos counter (ts_store s)
  end.

(** The statements of the replacement and of the list read afterwards, and the
    time of the call. *)
Record TodoEnv := mkTodoEnv { te_replace : ReplaceEnv; te_list : Stmt; te_now : Z }.

(** The answer of the replacement is not looked at. *)
Definition store_items (env : TodoEnv) (items : list TodoItem) (s : TodoState) : TodoState :=
  let s := with_list [] s in
  match ts_store s with
  | None => foldl (add_item (te_now env)) s items
  | Some db =>
      match items with
      | [] => s
      | _ =>
          let '(_, db) := task_store_replace_session_tasks (te_replace env) GLOBAL_SESSION_ID
                            (map (bulk_task (te_now env)) items) db in
          sync_todolist_from_store (te_list env) (mkTodoState [] (ts_counter s) (Some db))
      end
  end.

Definition tasks_text (todos : list Todo) : cstr :=
  "{" :: key_text "tasks" ++ "[" :: todo_entries 512 (fun t => "{" :: todo_fields t ++ ["}"]) true todos ++ ["]"; "}"].

Definition error_text (message : string) : cstr := "{" :: string_field "error" (cs message) ++ ["}"].
Definition UPDATED_TEXT : cstr := cs "Task list updated successfully.".

Definition finished (call : ToolCall) (result : ToolResult) (response : cstr) (success : bool) : ToolResult :=
  mkToolResult (Some (tc_id call)) (Some response) success (tr_clear_history result).

(** [None]: a read past the end of the arguments, or a NULL name. The list is
    [None] before the registration and after the end of the session. *)
Definition execute_todo_tool_call (env : TodoEnv) (call : ToolCall) (result : ToolResult) (g : option TodoState)
  : option (Z * ToolResult * option TodoState) :=
  match g with
  | None => Some (0%Z, finished call result (error_text "Todo system not initialized") false, None)
  | Some s =>
      name ← tc_name call;
      if streq name (cs "TodoRead") then
        let s := sync_todolist_from_store (te_list env) s in
        Some (0%Z, finished call result (tasks_text (ts_list s)) true, Some s)
      else if streq name (cs "TodoWrite") then
        match tc_arguments call with
        | None => Some (0%Z, finished call result (error_text "No arguments provided") false, Some s)
        | Some arguments =>
            array ← extract_json_array_parameter arguments (cs "todos");
            match array with
            | None => Some (0%Z, finished call result (error_text "No todos array found in arguments") false, Some s)
            | Some todos_json =>
                items ← read_items (S (length todos_json)) (drop 1 todos_json);
                Some (0%Z, finished call result UPDATED_TEXT true, Some (store_items env items s))
            end
        end
      else Some (0%Z, finished call result (error_text "Unknown todo function") false, Some s)
  end.
End Tools.
