(* ===== verification/TodoFacts.v ===== *)
(** * The todo list: theorems

    What TodoWrite stores is what TodoRead shows, and when it is not, for
    TodoTool.v over TaskStore.v. *)

From S2P Require Import Prelude CString Json ToolArgs ToolBatch Sql TaskStore TaskFacts TodoTool.
Local Open Scope char_scope.
Local Open Scope bool_scope.

(** ** Strings inside a text *)

Lemma closed_ind (Q : cstr -> Prop) :
  Q [] ->
  (forall c s, c <> JQ -> c <> "\" -> closed_body s -> Q s -> Q (c :: s)) ->
  (forall c s, closed_body s -> Q s -> Q ("\" :: c :: s)) ->
  forall s, closed_body s -> Q s.
Proof.
  intros H0 H1 H2 s. remember (length s) as n eqn:Hn. revert s Hn. induction (lt_wf n) as [n _ IH].
  intros [|c s] -> Hc; [done|]. cbn in Hc.
  destruct (Ascii.eqb c JQ) eqn:E1; [done|]. apply ascii_eqb_false in E1.
  destruct (Ascii.eqb c "\") eqn:E2.
  - apply ascii_eqb_true in E2 as ->. destruct s as [|c' s]; [done|]. apply H2; [done|]. by apply (IH (length s)); cbn; lia || done.
  - apply ascii_eqb_false in E2. apply H1; auto. by apply (IH (length s)); cbn; lia || done.
Qed.

(** Every quote inside is escaped. *)
Lemma quote_escaped c : closed_body c -> forall a b, c = a ++ JQ :: b -> exists a', a = a' ++ ["\"].
Proof.
  revert c. apply (closed_ind (fun c => forall a b, c = a ++ JQ :: b -> exists a', a = a' ++ ["\"])).
  - intros [|x a] b; discriminate.
  - intros x s Hq _ _ IH [|y a] b [= -> E]; [done|]. destruct (IH a b E) as [a' ->]. by exists (y :: a').
  - intros x s _ IH a b E. destruct a as [|y [|z a]]; [discriminate|injection E as <- _ _; by exists []|].
    injection E as <- <- E. destruct (IH a b E) as [a' ->]. by exists ("\" :: x :: a').
Qed.

(** A word that can be a key. *)
Definition plain_word (word : cstr) : Prop := JQ ∉ word /\ exists w x, word = w ++ [x] /\ x <> "\".

Lemma no_key_here c a t word tail :
  closed_body c -> c = a ++ t -> plain_word word ->
  has_prefix (word ++ [JQ; ":"]) (t ++ JQ :: "," :: tail) = false.
Proof.
  intros Hc -> [Hq (w & x & -> & Hx)]. destruct (has_prefix _ _) eqn:E; [|done]. exfalso.
  apply has_prefix_true in E as [r E]. rewrite <- (app_assoc (w ++ [x])) in E. apply app_eq_app in E as [m [[-> E]|[E1 E]]].
  - destruct m as [|y m]; [done|]. injection E as <- _.
    destruct (quote_escaped _ Hc (a ++ w ++ [x]) m) as [a' Ea]; [by rewrite !app_assoc|].
    rewrite app_assoc in Ea. apply app_inj_tail in Ea as [_ ->]. done.
  - destruct m as [|y m]; [done|]. injection E as <- _. apply Hq. rewrite E1. set_solver.
Qed.

Lemma strstr_skip x s word : x <> JQ -> strstr (x :: s) (JQ :: word) = strstr s (JQ :: word).
Proof. intros Hx. cbn [strstr has_prefix]. by rewrite (proj2 (ascii_eqb_false JQ x)) by congruence. Qed.

Lemma strstr_past c word tail :
  closed_body c -> plain_word word -> let pattern := JQ :: word ++ [JQ; ":"] in
  strstr (JQ :: c ++ JQ :: "," :: tail) pattern = strstr (JQ :: "," :: tail) pattern.
Proof.
  intros Hc Hw pattern.
  assert (forall t a, c = a ++ t -> strstr (t ++ JQ :: "," :: tail) pattern = strstr (JQ :: "," :: tail) pattern) as H.
  { induction t as [|x t IH]; intros a Ha; [done|].
    assert (strstr (t ++ JQ :: "," :: tail) pattern = strstr (JQ :: "," :: tail) pattern) as Ht
      by (apply (IH (a ++ [x])); by rewrite <- app_assoc).
    destruct (ascii_dec x JQ) as [->|Hx]; [|cbn [app]; unfold pattern in *; by rewrite strstr_skip].
    cbn [app strstr]. unfold pattern at 1. cbn [has_prefix].
    rewrite (no_key_here c (a ++ [JQ]) t word tail Hc); [by rewrite andb_false_r|by rewrite <- app_assoc|done]. }
  cbn [strstr]. unfold pattern at 1. cbn [has_prefix].
  rewrite (no_key_here c [] c word tail Hc eq_refl Hw), andb_false_r. by apply (H c []).
Qed.

(** *** Scanning over a string *)

Definition scan_app (l : cstr) (r : ClosingScan) : ClosingScan := foldr scan_cons r l.

Lemma scan_app_app l1 l2 r : scan_app (l1 ++ l2) r = scan_app l1 (scan_app l2 r).
Proof. apply foldr_app. Qed.

Lemma scan_cons_app c r : scan_cons c r = scan_app [c] r.
Proof. reflexivity. Qed.

Lemma scan_app_closed l body rest : scan_app l (Closed body rest) = Closed (l ++ body) rest.
Proof. induction l as [|c l IH]; [done|]. change (scan_cons c (scan_app l (Closed body rest)) = Closed (c :: l ++ body) rest). by rewrite IH. Qed.

Lemma scan_string o cl d c r :
  closed_body c -> scan_closing o cl d true (c ++ JQ :: r) = scan_app (c ++ [JQ]) (scan_closing o cl d false r).
Proof.
  revert c. apply (closed_ind (fun c => scan_closing o cl d true (c ++ JQ :: r) = scan_app (c ++ [JQ]) (scan_closing o cl d false r))).
  - done.
  - intros x s Hq Hb _ IH. cbn [app scan_closing].
    by rewrite (proj2 (ascii_eqb_false x JQ) Hq), (proj2 (ascii_eqb_false x "\") Hb), IH.
  - intros x s _ IH. cbn [app scan_closing]. by rewrite IH.
Qed.

Lemma quoted_text_closed c r : closed_body c -> quoted_text (c ++ JQ :: r) = c.
Proof.
  revert c. apply (closed_ind (fun c => quoted_text (c ++ JQ :: r) = c)).
  - done.
  - intros x s Hq Hb _ IH. cbn [app quoted_text].
    by rewrite (proj2 (ascii_eqb_false x JQ) Hq), (proj2 (ascii_eqb_false x "\") Hb), IH.
  - intros x s _ IH. cbn [app quoted_text]. by rewrite IH.
Qed.

(** ** A list as the model writes it *)

Record Written := mkWritten { w_content : cstr; w_status : Z; w_priority : Z }.

(** The content is the inside of a printed JSON string, not empty, that the tool reads
    whole. *)
Definition written_ok (w : Written) : Prop :=
  closed_body (w_content w) /\ w_content w <> [] /\ (length (w_content w) <= 4095)%nat /\
  (0 <= w_status w <= 2)%Z /\ (1 <= w_priority w <= 3)%Z.

Definition after_content (status priority : cstr) : cstr :=
  JQ :: "," :: string_field "status" status ++ "," :: string_field "priority" priority.

Definition item_body (w : Written) : cstr :=
  key_text "content" ++ JQ :: w_content w
    ++ after_content (todo_status_to_string (w_status w)) (todo_priority_to_string (w_priority w)).

Definition item_text (w : Written) : cstr := "{" :: item_body w ++ ["}"].

Definition write_text (l : list Written) : cstr :=
  "{" :: key_text "todos" ++ "[" :: commas (map item_text l) ++ ["]"; "}"].

Definition parsed_item (w : Written) : TodoItem := mkItem (w_content w) (w_status w) (w_priority w) [].

Lemma status_cases z : (0 <= z <= 2)%Z -> z = 0%Z \/ z = 1%Z \/ z = 2%Z.
Proof. lia. Qed.
Lemma priority_cases z : (1 <= z <= 3)%Z -> z = 1%Z \/ z = 2%Z \/ z = 3%Z.
Proof. lia. Qed.

Ltac written_cases w :=
  let c := fresh "c" in let st := fresh "st" in let p := fresh "p" in
  destruct w as [c st p]; unfold written_ok in *; cbn [w_content w_status w_priority] in *;
  repeat match goal with H : _ /\ _ |- _ => destruct H end;
  match goal with H : (0 <= st <= 2)%Z |- _ => apply status_cases in H as [->|[->| ->]] end;
  match goal with H : (1 <= p <= 3)%Z |- _ => apply priority_cases in H as [->|[->| ->]] end.

Lemma plain_status : plain_word (cs "status").
Proof. split; [by apply (bool_decide_unpack _)|]. by exists (cs "statu"), "s". Qed.
Lemma plain_priority : plain_word (cs "priority").
Proof. split; [by apply (bool_decide_unpack _)|]. by exists (cs "priorit"), "y". Qed.
Lemma plain_parent : plain_word (cs "parent_id").
Proof. split; [by apply (bool_decide_unpack _)|]. by exists (cs "parent_i"), "d". Qed.

(** A key after the content is looked for after the content. *)
Lemma find_after c st p word :
  closed_body c -> plain_word word ->
  (forall s, strstr ("{" :: key_text "content" ++ s) (JQ :: word ++ [JQ; ":"]) = strstr s (JQ :: word ++ [JQ; ":"])) ->
  strstr ("{" :: key_text "content" ++ JQ :: c ++ after_content st p) (JQ :: word ++ [JQ; ":"]) =
  strstr (after_content st p) (JQ :: word ++ [JQ; ":"]).
Proof. intros Hc Hw Hs. rewrite Hs. by apply strstr_past. Qed.

Lemma field_after c st p (key : string) size initial :
  closed_body c -> plain_word (cs key) ->
  (forall s, strstr ("{" :: key_text "content" ++ s) (key_text key) = strstr s (key_text key)) ->
  todo_field ("{" :: key_text "content" ++ JQ :: c ++ after_content st p) key size initial =
  todo_field (after_content st p) key size initial.
Proof. intros Hc Hw Hs. unfold todo_field. unfold key_text at 2. rewrite find_after; done. Qed.

Lemma read_item_written w : written_ok w -> read_item ("{" :: item_body w) = Some (parsed_item w).
Proof.
  intros Hw. unfold read_item, item_body.
  set (st := todo_status_to_string (w_status w)). set (p := todo_priority_to_string (w_priority w)).
  destruct Hw as (Hc & Hn & Hl & Hst & Hp).
  rewrite (field_after _ st p "status" 32 (cs "pending") Hc plain_status) by reflexivity.
  rewrite (field_after _ st p "priority" 32 (cs "medium") Hc plain_priority) by reflexivity.
  rewrite (field_after _ st p "parent_id" 40 [] Hc plain_parent) by reflexivity.
  assert (strstr ("{" :: key_text "content" ++ JQ :: w_content w ++ after_content st p) (key_text "content")
          = Some (key_text "content" ++ JQ :: w_content w ++ after_content st p)) as -> by reflexivity.
  assert (field_value (key_text "content" ++ JQ :: w_content w ++ after_content st p) "content" 4096 [] = w_content w) as ->.
  { unfold field_value.
    change (drop (length (key_text "content")) (key_text "content" ++ JQ :: w_content w ++ after_content st p))
      with (JQ :: w_content w ++ after_content st p). cbn [skip_space_tab].
    assert (quoted_text (w_content w ++ after_content st p) = w_content w) as Hq by by apply quoted_text_closed.
    change (Ascii.eqb JQ " " || Ascii.eqb JQ "009") with false. cbv iota. change (Ascii.eqb JQ JQ) with true.
    cbv iota zeta. rewrite Hq. destruct (Nat.ltb_spec (length (w_content w)) 4096); [done|lia]. }
  unfold parsed_item. destruct (w_content w) as [|x c] eqn:Ec; [done|]. subst st p.
  apply status_cases in Hst as [->|[->| ->]]; apply priority_cases in Hp as [->|[->| ->]]; reflexivity.
Qed.

Ltac app_norm := repeat progress (cbn [app]; rewrite <- ?app_assoc); try reflexivity.

(** *** The scans over items *)

Class Brackets (o cl : ascii) : Prop :=
  brackets c : c = JQ \/ c = ":" \/ c = "," -> Ascii.eqb c o = false /\ Ascii.eqb c cl = false.
#[local] Instance braces : Brackets "{" "}".
Proof. by intros c [->|[->| ->]]. Qed.
#[local] Instance square : Brackets "[" "]".
Proof. by intros c [->|[->| ->]]. Qed.

Section Scans.
Context (o cl : ascii) {B : Brackets o cl}.

Lemma scan_mark c d s :
  c = ":" \/ c = "," -> scan_closing o cl d false (c :: s) = scan_cons c (scan_closing o cl d false s).
Proof using B.
  intros Hc. destruct (brackets c ltac:(auto)) as [H1 H2]. cbn [scan_closing]. rewrite H1, H2.
  by destruct Hc as [-> | ->].
Qed.

Lemma scan_quoted d v r :
  closed_body v ->
  scan_closing o cl d false (JQ :: v ++ JQ :: r) = scan_app (JQ :: v ++ [JQ]) (scan_closing o cl d false r).
Proof using B.
  intros Hv. destruct (brackets JQ ltac:(auto)) as [H1 H2]. cbn [scan_closing]. rewrite H1, H2.
  change (Ascii.eqb JQ JQ) with true. by rewrite scan_string.
Qed.

Lemma scan_field d key v r :
  closed_body (cs key) -> closed_body v ->
  scan_closing o cl d false (string_field key v ++ r) = scan_app (string_field key v) (scan_closing o cl d false r).
Proof using B.
  intros Hk Hv. unfold string_field, key_text.
  replace ((((JQ :: cs key ++ [JQ; ":"]) ++ JQ :: v ++ [JQ])) ++ r)
    with (JQ :: cs key ++ JQ :: ":" :: JQ :: v ++ JQ :: r) by app_norm.
  rewrite scan_quoted, scan_mark, scan_quoted by auto.
  rewrite !scan_cons_app, <- !scan_app_app. f_equal.
  app_norm.
Qed.
End Scans.

Lemma closed_status st : (0 <= st <= 2)%Z -> closed_body (todo_status_to_string st).
Proof. intros [->|[->| ->]]%status_cases; exact I. Qed.
Lemma closed_priority p : (1 <= p <= 3)%Z -> closed_body (todo_priority_to_string p).
Proof. intros [->|[->| ->]]%priority_cases; exact I. Qed.

Lemma item_body_fields w :
  item_body w = string_field "content" (w_content w) ++ "," :: string_field "status" (todo_status_to_string (w_status w))
                ++ "," :: string_field "priority" (todo_priority_to_string (w_priority w)).
Proof. unfold item_body, after_content, string_field. app_norm. Qed.

Lemma scan_body o cl {B : Brackets o cl} d w r :
  written_ok w -> scan_closing o cl d false (item_body w ++ r) = scan_app (item_body w) (scan_closing o cl d false r).
Proof.
  intros (Hc & _ & _ & Hst%closed_status & Hp%closed_priority). rewrite item_body_fields.
  rewrite <- app_assoc. cbn [app]. rewrite <- (app_assoc (string_field "status" _)). cbn [app].
  rewrite scan_field, scan_mark, scan_field, scan_mark, scan_field by (auto || exact I).
  rewrite !scan_cons_app, <- !scan_app_app. f_equal.
  app_norm.
Qed.

Lemma scan_item_body w rest :
  written_ok w -> scan_closing "{" "}" 0 false (item_body w ++ "}" :: rest) = Closed (item_body w) ("}" :: rest).
Proof.
  intros Hw. rewrite (scan_body "{" "}") by done.
  change (scan_closing "{" "}" 0 false ("}" :: rest)) with (Closed [] ("}" :: rest)).
  by rewrite scan_app_closed, app_nil_r.
Qed.

Lemma scan_item_text w d rest :
  written_ok w -> scan_closing "[" "]" d false (item_text w ++ rest) = scan_app (item_text w) (scan_closing "[" "]" d false rest).
Proof.
  intros Hw. unfold item_text. cbn [app]. rewrite <- app_assoc. cbn [app].
  assert (forall c s, c = "{" \/ c = "}" -> scan_closing "[" "]" d false (c :: s) = scan_cons c (scan_closing "[" "]" d false s)) as Hb
    by by intros c s [-> | ->].
  rewrite Hb, (scan_body "[" "]"), Hb by auto.
  rewrite !scan_cons_app, <- !scan_app_app. done.
Qed.

Lemma scan_items l rest :
  Forall written_ok l ->
  scan_closing "[" "]" 0 false (commas (map item_text l) ++ "]" :: rest) = Closed (commas (map item_text l)) ("]" :: rest).
Proof.
  induction l as [|w l IH]; intros Hl; [reflexivity|]. inversion_clear Hl as [|?? Hw Hl'].
  destruct l as [|w' l].
  - cbn [map commas]. rewrite app_nil_r, scan_item_text by done.
    change (scan_closing "[" "]" 0 false ("]" :: rest)) with (Closed [] ("]" :: rest)).
    by rewrite scan_app_closed, app_nil_r.
  - change (commas (map item_text (w :: w' :: l))) with (item_text w ++ "," :: commas (map item_text (w' :: l))).
    rewrite <- app_assoc. rewrite scan_item_text by done. cbn [app].
    assert (forall s, scan_closing "[" "]" 0 false ("," :: s) = scan_app [","] (scan_closing "[" "]" 0 false s)) as -> by reflexivity.
    rewrite IH by done. by rewrite !scan_app_closed.
Qed.

(** *** Reading the items *)

Lemma read_step_item fuel w rest :
  written_ok w ->
  read_items (S fuel) (item_text w ++ rest) =
  (items ← read_items fuel ("}" :: rest); Some (parsed_item w :: items)).
Proof.
  intros Hw. unfold item_text. cbn [app]. rewrite <- app_assoc. cbn [app read_items skip_between].
  change (Ascii.eqb "{" "]") with false. change (Ascii.eqb "{" "{") with true.
  change (Ascii.eqb "{" " " || Ascii.eqb "{" "009" || Ascii.eqb "{" "," || Ascii.eqb "{" "010") with false. cbv iota.
  by rewrite scan_item_body, read_item_written by done.
Qed.

Lemma read_step_separator fuel w rest :
  written_ok w -> read_items fuel ("," :: item_text w ++ rest) = read_items fuel (item_text w ++ rest).
Proof. destruct fuel; reflexivity. Qed.

Lemma item_text_length w : (2 <= length (item_text w))%nat.
Proof. unfold item_text, item_body. cbn [length]. rewrite !length_app. cbn. lia. Qed.

Lemma read_items_written l : forall fuel,
  Forall written_ok l -> (length (commas (map item_text l)) < fuel)%nat ->
  read_items fuel (commas (map item_text l)) = Some (map parsed_item l).
Proof.
  induction l as [|w l IH]; intros fuel Hl Hf; [by destruct fuel|]. inversion_clear Hl as [|?? Hw Hl'].
  pose proof (item_text_length w). destruct l as [|w' l].
  - cbn [map commas] in *. rewrite length_app in Hf. destruct fuel as [|[|fuel]]; [lia..|]. rewrite read_step_item by done.
    by destruct fuel.
  - change (commas (map item_text (w :: w' :: l))) with (item_text w ++ "," :: commas (map item_text (w' :: l))) in *.
    rewrite length_app in Hf. cbn [length] in Hf. destruct fuel as [|[|fuel]]; [lia..|]. rewrite read_step_item by done.
    assert (read_items (S fuel) ("}" :: "," :: commas (map item_text (w' :: l))) = Some (map parsed_item (w' :: l))) as ->;
      [|done].
    change (read_items (S fuel) ("}" :: "," :: commas (map item_text (w' :: l))))
      with (read_items fuel ("," :: commas (map item_text (w' :: l)))).
    rewrite <- (IH fuel) by (done || lia).
    assert (exists r, commas (map item_text (w' :: l)) = item_text w' ++ r) as [r ->]
      by (cbn [map commas]; by eexists).
    apply read_step_separator. by inversion_clear Hl'.
Qed.

(** The arguments are read as they were meant. *)
Lemma arguments_read l :
  Forall written_ok l ->
  extract_json_array_parameter (write_text l) (cs "todos") = Some (Some ("[" :: commas (map item_text l))).
Proof.
  intros Hl. unfold extract_json_array_parameter.
  change (take 255 (JQ :: cs "todos" ++ [JQ; ":"])) with (key_text "todos").
  assert (strstr (write_text l) (key_text "todos") =
          Some (key_text "todos" ++ "[" :: commas (map item_text l) ++ ["]"; "}"])) as -> by reflexivity.
  change (drop (length (key_text "todos")) (key_text "todos" ++ "[" :: commas (map item_text l) ++ ["]"; "}"]))
    with ("[" :: commas (map item_text l) ++ ["]"; "}"]).
  cbn [skip_space_tab]. change (Ascii.eqb "[" " " || Ascii.eqb "[" "009") with false. change (Ascii.eqb "[" "[") with true.
  cbv iota. by rewrite scan_items.
Qed.

(** ** Through the store *)

Section Store.
Context {DB : Sqlite} {SS : SqliteSpec DB}.

(** The row of an item under its id. *)
Definition item_row (env : ReplaceEnv) (now : Z) (p : cstr * Written) : TaskRow :=
  mkTaskRow p.1 GLOBAL_SESSION_ID None (w_content p.2) (w_status p.2) (w_priority p.2)
    (if (0 <? now)%Z then now else re_now env) (re_now env).

Lemma insert_written env now l : forall i ids rows,
  length ids = length l -> NoDup ids -> (forall id, id ∈ ids -> id ∉ map tk_id rows) ->
  (forall k id, ids !! k = Some id -> re_uuid env (i + k) = Some id /\ re_step env (i + k) = true) ->
  insert_tasks env GLOBAL_SESSION_ID i (map (bulk_task now) (map parsed_item l)) rows =
  Some (rows ++ map (item_row env now) (zip ids l)).
Proof using.
  induction l as [|w l IH]; intros i [|id ids] rows Hlen Hnd Hf He; try discriminate; [by rewrite app_nil_r|].
  apply NoDup_cons in Hnd as [Hn Hnd]. destruct (He 0%nat id eq_refl) as [Hu Hst]. rewrite Nat.add_0_r in Hu, Hst.
  cbn [map insert_tasks]. unfold new_id. change (uuid_is_valid (task_id (bulk_task now (parsed_item w)))) with false. cbv iota.
  rewrite Hu. cbn [mbind option_bind bulk_task parsed_item task_content it_content it_parent it_status it_priority
                   task_parent_id task_status task_priority task_created_at optional_text]. rewrite Hst.
  change (mkTaskRow id GLOBAL_SESSION_ID None (w_content w) (w_status w) (w_priority w)
            (if (0 <? now)%Z then now else re_now env) (re_now env)) with (item_row env now (id, w)).
  rewrite (proj2 (insert_task_Some (item_row env now (id, w)) rows (rows ++ [item_row env now (id, w)]))).
  2:{ split; [done|]. split; [apply Hf; left|done]. }
  cbn [mbind option_bind]. rewrite (IH (S i) ids); [by rewrite <- app_assoc|by injection Hlen|done| |].
  - intros x Hx. rewrite map_app, not_elem_of_app. split; [apply Hf; by right|].
    cbn. intros ->%list_elem_of_singleton. done.
  - intros k x Hk. specialize (He (S k) x Hk). by rewrite Nat.add_succ_r in He.
Qed.

Lemma delete_session_rows s db r : r ∈ td_tasks (delete_tasks (in_session s) db) -> in_session s r = false.
Proof using.
  cbn. intros [Hr Hm%mem_false]%elem_of_delete. destruct (in_session s r) eqn:E; [|done]. exfalso. apply Hm.
  apply saturate_incl, elem_of_ids. exists r. split; [|done]. by apply elem_of_select.
Qed.

(** *** What TodoRead prints *)

(** The content is cut after 256 bytes. *)
Definition shown_fields (p : cstr * Written) : cstr :=
  string_field "id" p.1 ++ "," :: string_field "content" (take 256 (w_content p.2)) ++ ","
    :: string_field "status" (todo_status_to_string (w_status p.2)) ++ ","
    :: string_field "priority" (todo_priority_to_string (w_priority p.2)).

Definition shown_text (order : list (cstr * Written)) : cstr :=
  "{" :: key_text "tasks" ++ "[" :: commas (map (fun p => "{" :: shown_fields p ++ ["}"]) order) ++ ["]"; "}"].

Definition pair_ok (p : cstr * Written) : Prop := (length p.1 <= 39)%nat /\ written_ok p.2.

(** The row as a todo. *)
Lemma todo_of_item env now p :
  pair_ok p ->
  exists t, (map_task (item_row env now p) ≫= todo_of_task) = Some t /\ todo_fields t = shown_fields p.
Proof using.
  intros (Hid & Hc & _ & Hl & Hst & Hp). eexists. split; [reflexivity|]. unfold todo_fields, shown_fields. cbn -[take].
  rewrite !(take_ge p.1) by lia. rewrite take_take. change (256 `min` (TODO_MAX_CONTENT_LENGTH - 1))%nat with 256%nat.
  unfold column_int. by rewrite !wrap32_small by lia.
Qed.

Lemma length_take_le_bound {A} (l : list A) : (length (take 256 l) <= 256)%nat.
Proof using. rewrite length_take. lia. Qed.

Lemma shown_length p : pair_ok p -> (length (shown_fields p) <= 400)%nat.
Proof using.
  intros (Hid & _ & _ & _ & Hst & Hp). unfold shown_fields, string_field, key_text.
  pose proof (length_take_le_bound (w_content p.2)) as Hl. set (shown := take 256 (w_content p.2)) in *.
  repeat (rewrite length_app || cbn [length]).
  assert (length (todo_status_to_string (w_status p.2)) <= 11)%nat
    by (by apply status_cases in Hst as [->|[->| ->]]; apply (bool_decide_unpack _)).
  assert (length (todo_priority_to_string (w_priority p.2)) <= 6)%nat
    by (by apply priority_cases in Hp as [->|[->| ->]]; apply (bool_decide_unpack _)).
  change (length (cs "id")) with 2%nat. change (length (cs "content")) with 7%nat.
  change (length (cs "status")) with 6%nat. change (length (cs "priority")) with 8%nat. lia.
Qed.

Lemma entries_commas entry (todos : list Todo) :
  Forall (fun t => (length (entry t) <= 510)%nat) todos ->
  todo_entries 512 entry true todos = commas (map entry todos).
Proof using.
  assert (forall l, Forall (fun t => (length (entry t) <= 510)%nat) l ->
            todo_entries 512 entry false l = match l with [] => [] | _ => "," :: commas (map entry l) end) as H.
  { induction l as [|t l IH]; intros Hl; [done|]. inversion_clear Hl as [|?? Ht Hl']. cbn [todo_entries].
    rewrite take_ge by (cbn [app length]; lia). rewrite IH by done. cbn [app map commas]. by destruct l. }
  destruct todos as [|t l]; intros Hl; [done|]. inversion_clear Hl as [|?? Ht Hl']. cbn [todo_entries].
  rewrite take_ge by (cbn [app length]; lia). rewrite H by done. cbn [app map commas]. by destruct l.
Qed.

Lemma omap_omap {A B C} (f : A -> option B) (g : B -> option C) (l : list A) : omap g (omap f l) = omap (fun x => f x ≫= g) l.
Proof using. induction l as [|x l IH]; [done|]. cbn in *. destruct (f x); cbn; [|done]. by rewrite IH. Qed.

(** The rows of the session, read back and printed. *)
Lemma shown_rows env now (order : list (cstr * Written)) :
  Forall pair_ok order -> (length order <= TODO_MAX_COUNT)%nat ->
  exists todos, take TODO_MAX_COUNT (omap todo_of_task (omap map_task (map (item_row env now) order))) = todos /\
    tasks_text todos = shown_text order.
Proof using.
  intros Ho Hl.
  assert (exists todos, omap todo_of_task (omap map_task (map (item_row env now) order)) = todos /\
            map todo_fields todos = map shown_fields order /\
            Forall (fun t => (length (todo_fields t) <= 400)%nat) todos) as (todos & E & Hf & Hlen).
  { rewrite omap_omap. clear Hl. induction Ho as [|p l Hp _ (todos & E & Hf & Hlen)]; [by exists []|].
    destruct (todo_of_item env now p Hp) as (t & Et & Hft). exists (t :: todos). change (omap (fun x => map_task x ≫= todo_of_task) (map (item_row env now) (p :: l)))
      with (match map_task (item_row env now p) ≫= todo_of_task with
            | Some y => y :: omap (fun x => map_task x ≫= todo_of_task) (map (item_row env now) l)
            | None => omap (fun x => map_task x ≫= todo_of_task) (map (item_row env now) l) end). rewrite Et, E.
    split; [done|]. cbn [map]. rewrite Hf, Hft. split; [done|]. constructor; [|done]. rewrite Hft. by apply shown_length. }
  assert (length todos = length order) as Hlo by by rewrite <- (length_map todo_fields), Hf, length_map.
  exists todos. rewrite E, take_ge by lia. split; [done|]. unfold tasks_text, shown_text.
  rewrite entries_commas.
  - do 2 f_equal. f_equal. f_equal. f_equal. rewrite <- (map_map todo_fields (fun x => "{" :: x ++ ["}"])).
    by rewrite Hf, map_map.
  - eapply Forall_impl; [exact Hlen|]. intros t Ht. cbn beta in *. rewrite length_cons, length_app. cbn [length]. lia.
Qed.

(** ** What is written is shown *)

(** The statements of the replacement succeed and the ids drawn are [ids]. *)
Record writes (env : ReplaceEnv) (ids : list cstr) : Prop := {
  writes_begin : re_begin env = true;
  writes_delete : re_delete env = StmtOk;
  writes_prepare : re_prepare env = true;
  writes_commit : re_commit env = true;
  writes_steps k id : ids !! k = Some id -> re_uuid env k = Some id /\ re_step env k = true
}.

Lemma replace_written env now ids l db :
  writes env ids -> td_in_transaction db = false -> l <> [] -> length ids = length l -> NoDup ids ->
  (forall id, id ∈ ids -> id ∉ map tk_id (td_tasks db)) ->
  exists db' others, task_store_replace_session_tasks env GLOBAL_SESSION_ID (map (bulk_task now) (map parsed_item l)) db = (0%Z, db') /\
    td_tasks db' = others ++ map (item_row env now) (zip ids l) /\
    (forall r, r ∈ others -> in_session GLOBAL_SESSION_ID r = false).
Proof using.
  intros [H1 H2 H3 H4 H5] Ht Hl Hlen Hnd Hf. unfold task_store_replace_session_tasks. rewrite H1, H2, H3, H4, Ht. cbn [negb orb].
  set (db' := delete_tasks (in_session GLOBAL_SESSION_ID) db).
  assert (insert_tasks env GLOBAL_SESSION_ID 0 (map (bulk_task now) (map parsed_item l)) (td_tasks db') =
          Some (td_tasks db' ++ map (item_row env now) (zip ids l))) as Hi.
  { apply insert_written; try done. intros id Hid (r & Hr & Hrid)%elem_of_ids. apply (Hf id Hid), elem_of_ids.
    exists r. split; [|done]. cbn in Hr. by apply elem_of_delete in Hr as [? _]. }
  cbv zeta. rewrite Hi. destruct l as [|w l]; [done|]. cbn [map]. eexists _, (td_tasks db'). split; [reflexivity|].
  split; [done|]. intros r. apply delete_session_rows.
Qed.

Lemma list_written env now ids l db others st :
  st = StmtOk -> td_tasks db = others ++ map (item_row env now) (zip ids l) ->
  (forall r, r ∈ others -> in_session GLOBAL_SESSION_ID r = false) ->
  exists order, order ≡ₚ zip ids l /\
    task_store_list_by_session st GLOBAL_SESSION_ID (-1) db = omap map_task (map (item_row env now) order).
Proof using SS.
  intros -> Ht Ho. unfold task_store_list_by_session, list_tasks. rewrite Ht.
  assert (select_where (fun r => in_session GLOBAL_SESSION_ID r && ((-1 <? 0)%Z || task_has_status (-1) r))
            (others ++ map (item_row env now) (zip ids l)) = map (item_row env now) (zip ids l)) as ->.
  { unfold select_where. rewrite List.filter_app.
    assert (List.filter (fun r => in_session GLOBAL_SESSION_ID r && ((-1 <? 0)%Z || task_has_status (-1) r)) others = []) as ->.
    { clear Ht. induction others as [|r others IH]; [done|]. cbn [List.filter]. rewrite (Ho r) by left. apply IH.
      intros x Hx. apply Ho. by right. }
    cbn [app]. generalize (zip ids l). intros z. clear. induction z as [|p z IH]; [done|]. cbn [map List.filter].
    change (in_session GLOBAL_SESSION_ID (item_row env now p) && ((-1 <? 0)%Z || task_has_status (-1) (item_row env now p))) with true.
    cbv iota. by rewrite IH. }
  destruct (Permutation_map_inv (item_row env now) (zip ids l)
              (order_by_perm tk_created_at (map (item_row env now) (zip ids l)))) as (order & E & Hp).
  exists order. split; [by symmetry|]. by rewrite E.
Qed.

(** C12: the todos that TodoWrite is given, each with its status and priority, are
    exactly those that the next TodoRead shows, under the ids drawn for them and with
    the first 256 bytes of their content as they were given, escapes included: longer
    contents are cut there, be it inside an escape. This is for 1 to 100 todos, each
    content of 1 to 4095 bytes, given as an object with the array todos of objects
    with content, status and priority, printed without blanks, with every statement
    succeeding and ids drawn that are new. The order is left open, for the rows are
    sorted by their times, which are all the same. *)
Theorem todo_write_read env env' call call' result result' s db ids l :
  ts_store s = Some db -> td_in_transaction db = false ->
  writes (te_replace env) ids -> te_list env = StmtOk -> te_list env' = StmtOk ->
  l <> [] -> Forall written_ok l -> (length l <= TODO_MAX_COUNT)%nat ->
  length ids = length l -> NoDup ids -> Forall (fun id => (length id <= 39)%nat /\ id ∉ map tk_id (td_tasks db)) ids ->
  tc_name call = Some (cs "TodoWrite") -> tc_arguments call = Some (write_text l) -> tc_name call' = Some (cs "TodoRead") ->
  exists s1 s2 order,
    execute_todo_tool_call env call result (Some s) = Some (0%Z, finished call result UPDATED_TEXT true, Some s1) /\
    execute_todo_tool_call env' call' result' (Some s1) = Some (0%Z, finished call' result' (shown_text order) true, Some s2) /\
    order ≡ₚ zip ids l.
Proof using SS.
  intros Hs Ht Hw He He' Hl Hok Hmax Hlen Hnd Hids Hn Ha Hn'. rewrite Forall_forall in Hids.
  destruct (replace_written (te_replace env) (te_now env) ids l db Hw Ht Hl Hlen Hnd) as (db' & others & Hr & Htasks & Hothers).
  { intros id Hid. by apply Hids. }
  destruct (list_written (te_replace env) (te_now env) ids l db' others StmtOk eq_refl Htasks Hothers) as (order & Hp & Hlist).
  assert (Forall pair_ok order) as Hpairs.
  { rewrite Hp. apply Forall_forall. intros [id w] Hin. split; cbn [fst snd].
    - apply elem_of_zip_l in Hin. by apply Hids.
    - apply elem_of_zip_r in Hin. rewrite Forall_forall in Hok. by apply Hok. }
  assert (length order = length l) as Hlo by (rewrite Hp, length_zip; lia).
  destruct (shown_rows (te_replace env) (te_now env) order Hpairs) as (todos & Htodos & Htext); [by rewrite Hlo|].
  assert (forall todos0 c, sync_todolist_from_store StmtOk (mkTodoState todos0 c (Some db')) = mkTodoState todos c (Some db')) as Hsync.
  { intros todos0 c. unfold sync_todolist_from_store. cbn [ts_store]. rewrite Hlist.
    destruct (omap map_task _) as [|t tasks] eqn:Eo; [|by rewrite <- Htodos].
    destruct order as [|p order]; [by destruct l|discriminate]. }
  exists (mkTodoState todos (ts_counter s) (Some db')), (mkTodoState todos (ts_counter s) (Some db')), order.
  split; [|split; [|done]].
  - unfold execute_todo_tool_call. rewrite Hn. cbn [mbind option_bind].
    change (streq (cs "TodoWrite") (cs "TodoRead")) with false. change (streq (cs "TodoWrite") (cs "TodoWrite")) with true.
    cbv iota. rewrite Ha, arguments_read by done. cbn [mbind option_bind].
    change (drop 1 ("[" :: commas (map item_text l))) with (commas (map item_text l)).
    rewrite read_items_written by (done || (cbn [length]; lia)). cbn [mbind option_bind].
    unfold store_items. cbn [with_list ts_store]. rewrite Hs.
    destruct (map parsed_item l) as [|i items] eqn:Ei; [by destruct l|]. rewrite Hr, He. cbn [ts_counter with_list].
    by rewrite Hsync.
  - unfold execute_todo_tool_call. rewrite Hn'. cbn [mbind option_bind].
    change (streq (cs "TodoRead") (cs "TodoRead")) with true. cbv iota. rewrite He', Hsync. cbn [ts_list]. by rewrite Htext.
Qed.

(** *** What is not written *)

(** A parent that is no task when its child is inserted: none of another session has
    the id, and it is not drawn. *)
Definition lost_parent (env : ReplaceEnv) (db : TaskDb) (i : TodoItem) : Prop :=
  it_parent i <> [] /\ (forall k, re_uuid env k <> Some (it_parent i)) /\
  (forall r, r ∈ td_tasks db -> tk_id r = it_parent i -> in_session GLOBAL_SESSION_ID r = true).

Lemma insert_lost env now items j : forall i rows,
  j ∈ items -> it_parent j <> [] -> (forall k, re_uuid env k <> Some (it_parent j)) -> it_parent j ∉ map tk_id rows ->
  insert_tasks env GLOBAL_SESSION_ID i (map (bulk_task now) items) rows = None.
Proof using.
  induction items as [|x items IH]; intros i rows Hin Hp Hu Hr; [by apply not_elem_of_nil in Hin|].
  cbn [map insert_tasks]. unfold new_id. change (uuid_is_valid (task_id (bulk_task now x))) with false. cbv iota.
  destruct (re_uuid env i) as [id|] eqn:Eu; [|done]. cbn [mbind option_bind bulk_task task_content].
  destruct (re_step env i); [|done].
  destruct (insert_task _ rows) as [rows'|] eqn:Ei; [|done]. cbn [mbind option_bind].
  apply insert_task_Some in Ei as (-> & _ & Hparent). apply elem_of_cons in Hin as [->|Hin].
  - exfalso. cbn in Hparent. destruct (it_parent x) as [|c p] eqn:Ep; [done|]. cbn in Hparent.
    destruct (Hparent _ eq_refl) as [E|E]; [|done]. apply (Hu i). by rewrite Eu, E.
  - apply IH; try done. rewrite map_app, not_elem_of_app. split; [done|]. intros E%list_elem_of_singleton.
    apply (Hu i). by rewrite Eu, E.
Qed.

Lemma replace_lost env now items j db :
  j ∈ items -> lost_parent env db j ->
  task_store_replace_session_tasks env GLOBAL_SESSION_ID (map (bulk_task now) items) db = (-1, db)%Z.
Proof using.
  intros Hin (Hp & Hu & Hr). unfold task_store_replace_session_tasks. destruct (_ || _); [done|].
  destruct (re_delete env); [done..|]. cbv zeta. destruct (map (bulk_task now) items) as [|t l] eqn:E.
  - destruct items; [by apply not_elem_of_nil in Hin|done].
  - rewrite <- E, (insert_lost env now items j 0 _ Hin Hp Hu); [by destruct (re_prepare env)|].
    intros (r & Hin' & Hid)%elem_of_ids. pose proof (delete_session_rows _ _ _ Hin') as Hs.
    cbn in Hin'. apply elem_of_delete in Hin' as [Hin' _]. by rewrite (Hr r Hin' Hid) in Hs.
Qed.

(** What the store has for the list. *)
Definition stored_list (db : TaskDb) : list Todo :=
  take TODO_MAX_COUNT (omap todo_of_task (task_store_list_by_session StmtOk GLOBAL_SESSION_ID (-1) db)).

Lemma sync_stored s db :
  ts_store s = Some db -> ts_list s = [] -> sync_todolist_from_store StmtOk s = with_list (stored_list db) s.
Proof using.
  intros Hs Hl. unfold sync_todolist_from_store, stored_list. rewrite Hs.
  destruct (task_store_list_by_session _ _ _ _); [by destruct s; cbn in *; subst|done].
Qed.

Lemma sync_again s db : ts_store s = Some db -> ts_list s = stored_list db -> sync_todolist_from_store StmtOk s = s.
Proof using.
  intros Hs Hl. unfold sync_todolist_from_store. rewrite Hs. unfold stored_list in Hl.
  destruct (task_store_list_by_session _ _ _ _); [done|]. rewrite <- Hl. by destruct s.
Qed.

(** C35: TodoWrite answers that the list was updated, but the store keeps its tasks
    and the next TodoRead shows them, when the array has no item to store, so that a
    list is never emptied, and when an item names as its parent a task of the list,
    for the replacement removes these first. *)
Theorem todo_write_lost env env' call call' result result' s db arguments text items :
  ts_store s = Some db -> te_list env = StmtOk -> te_list env' = StmtOk ->
  tc_name call = Some (cs "TodoWrite") -> tc_arguments call = Some arguments -> tc_name call' = Some (cs "TodoRead") ->
  extract_json_array_parameter arguments (cs "todos") = Some (Some text) ->
  read_items (S (length text)) (drop 1 text) = Some items ->
  items = [] \/ (exists i, i ∈ items /\ lost_parent (te_replace env) db i) ->
  exists s1,
    execute_todo_tool_call env call result (Some s) = Some (0%Z, finished call result UPDATED_TEXT true, Some s1) /\
    ts_store s1 = Some db /\
    exists s2, execute_todo_tool_call env' call' result' (Some s1) =
      Some (0%Z, finished call' result' (tasks_text (stored_list db)) true, Some s2).
Proof using.
  intros Hs He He' Hn Ha Hn' Hx Hi Hlost.
  assert (exists s1, store_items env items s = s1 /\ ts_store s1 = Some db /\ (ts_list s1 = [] \/ ts_list s1 = stored_list db))
    as (s1 & Hs1 & Hdb & Hl).
  { unfold store_items. change (ts_store (with_list [] s)) with (ts_store s). rewrite Hs.
    destruct Hlost as [->|(i & Hin & Hp)]; [exists (with_list [] s); auto|].
    destruct items as [|x l] eqn:E; [by apply not_elem_of_nil in Hin|]. rewrite <- E in *.
    rewrite (replace_lost _ _ _ _ _ Hin Hp), He. rewrite (sync_stored _ db) by done. eexists. split; [done|]. split; [done|by right]. }
  exists s1. unfold execute_todo_tool_call. rewrite Hn, Hn'. cbn [mbind option_bind].
  change (streq (cs "TodoWrite") (cs "TodoRead")) with false. change (streq (cs "TodoWrite") (cs "TodoWrite")) with true.
  change (streq (cs "TodoRead") (cs "TodoRead")) with true. cbv iota. rewrite Ha, Hx. cbn [mbind option_bind]. rewrite Hi.
  cbn [mbind option_bind]. rewrite Hs1. split; [done|]. split; [done|]. exists (with_list (stored_list db) s1).
  rewrite He'. destruct Hl as [Hl|Hl].
  - by rewrite (sync_stored _ db).
  - rewrite (sync_again _ db) by done. rewrite Hl. destruct s1; cbn in *. by subst.
Qed.
End Store.

(** ** Blanks before the end of the array *)

Definition blank (c : ascii) : Prop := c = " " \/ c = "009" \/ c = "010".

Definition spaced_text (l : list Written) (blanks : cstr) : cstr :=
  "{" :: key_text "todos" ++ "[" :: commas (map item_text l) ++ blanks ++ ["]"; "}"].

Lemma scan_blanks blanks rest :
  Forall blank blanks -> scan_closing "[" "]" 0 false (blanks ++ "]" :: rest) = Closed blanks ("]" :: rest).
Proof.
  induction 1 as [|c blanks Hc _ IH]; [done|]. cbn [app].
  assert (forall s, scan_closing "[" "]" 0 false (c :: s) = scan_cons c (scan_closing "[" "]" 0 false s)) as ->
    by (intros s; by destruct Hc as [->|[->| ->]]).
  by rewrite IH.
Qed.

Lemma scan_spaced l blanks rest :
  Forall written_ok l -> Forall blank blanks ->
  scan_closing "[" "]" 0 false (commas (map item_text l) ++ blanks ++ "]" :: rest) =
  Closed (commas (map item_text l) ++ blanks) ("]" :: rest).
Proof.
  intros Hl Hb. induction l as [|w l IH]; [by apply scan_blanks|]. inversion_clear Hl as [|?? Hw Hl'].
  destruct l as [|w' l].
  - cbn [map commas]. by rewrite app_nil_r, scan_item_text, scan_blanks, scan_app_closed by done.
  - change (commas (map item_text (w :: w' :: l))) with (item_text w ++ "," :: commas (map item_text (w' :: l))).
    rewrite <- !app_assoc. rewrite scan_item_text by done. cbn [app].
    assert (forall s, scan_closing "[" "]" 0 false ("," :: s) = scan_app [","] (scan_closing "[" "]" 0 false s)) as -> by reflexivity.
    rewrite IH by done. by rewrite !scan_app_closed.
Qed.

Lemma skip_blank_end blanks : Forall blank blanks -> skip_between blanks = [].
Proof. induction 1 as [|c blanks Hc _ IH]; [done|]. by destruct Hc as [->|[->| ->]]. Qed.

Lemma read_blanks fuel blanks : blanks <> [] -> Forall blank blanks -> read_items (S fuel) blanks = None.
Proof.
  intros Hn Hb. pose proof (skip_blank_end _ Hb) as Hs. destruct blanks as [|c blanks]; [done|]. cbn [read_items].
  rewrite Hs. inversion_clear Hb as [|?? Hc _]. by destruct Hc as [->|[->| ->]].
Qed.

Lemma read_spaced l blanks : forall fuel,
  blanks <> [] -> Forall blank blanks -> Forall written_ok l ->
  (length (commas (map item_text l) ++ blanks) < fuel)%nat -> read_items fuel (commas (map item_text l) ++ blanks) = None.
Proof.
  induction l as [|w l IH]; intros fuel Hn Hb Hl Hf; [destruct fuel; [lia|]; by apply read_blanks|].
  inversion_clear Hl as [|?? Hw Hl']. pose proof (item_text_length w). destruct l as [|w' l].
  - cbn [map commas] in *. rewrite app_nil_r in *. unfold item_text in Hf. rewrite !length_app in Hf. cbn [length] in Hf.
    rewrite !length_app in Hf. cbn [length] in Hf. destruct fuel as [|[|[|fuel]]]; [lia..|]. rewrite read_step_item by done.
    change (read_items (S (S fuel)) ("}" :: blanks)) with (read_items (S fuel) blanks). by rewrite read_blanks.
  - change (commas (map item_text (w :: w' :: l))) with (item_text w ++ "," :: commas (map item_text (w' :: l))) in *.
    rewrite <- app_assoc in *. cbn [app] in *. rewrite length_app in Hf. cbn [length] in Hf.
    destruct fuel as [|[|fuel]]; [lia..|]. rewrite read_step_item by done.
    change (read_items (S fuel) ("}" :: "," :: commas (map item_text (w' :: l)) ++ blanks))
      with (read_items fuel ("," :: commas (map item_text (w' :: l)) ++ blanks)).
    assert (read_items fuel (commas (map item_text (w' :: l)) ++ blanks) = None) as Hr by (apply IH; done || lia).
    assert (exists r, commas (map item_text (w' :: l)) = item_text w' ++ r) as [r E] by (cbn [map commas]; by eexists).
    rewrite E, <- app_assoc in *. rewrite read_step_separator, Hr; [done|]. by inversion_clear Hl'.
Qed.

(** C36: a blank or a line end between the last item, or the opening bracket, and the
    closing bracket of the todos, as in every printed array on more lines, makes the
    loop step past the end of the text, in every state of the list. *)
Theorem blank_reads_past {DB : Sqlite} env call result s l blanks :
  Forall written_ok l -> Forall blank blanks -> blanks <> [] ->
  tc_name call = Some (cs "TodoWrite") -> tc_arguments call = Some (spaced_text l blanks) ->
  execute_todo_tool_call env call result (Some s) = None.
Proof.
  intros Hl Hb Hn Hname Ha. unfold execute_todo_tool_call. rewrite Hname. cbn [mbind option_bind].
  change (streq (cs "TodoWrite") (cs "TodoRead")) with false. change (streq (cs "TodoWrite") (cs "TodoWrite")) with true.
  cbv iota. rewrite Ha.
  assert (extract_json_array_parameter (spaced_text l blanks) (cs "todos") =
          Some (Some ("[" :: commas (map item_text l) ++ blanks))) as ->.
  { unfold extract_json_array_parameter.
    change (take 255 (JQ :: cs "todos" ++ [JQ; ":"])) with (key_text "todos").
    assert (strstr (spaced_text l blanks) (key_text "todos") =
            Some (key_text "todos" ++ "[" :: commas (map item_text l) ++ blanks ++ ["]"; "}"])) as -> by reflexivity.
    change (drop (length (key_text "todos")) (key_text "todos" ++ "[" :: commas (map item_text l) ++ blanks ++ ["]"; "}"]))
      with ("[" :: commas (map item_text l) ++ blanks ++ ["]"; "}"]).
    cbn [skip_space_tab]. change (Ascii.eqb "[" " " || Ascii.eqb "[" "009") with false. change (Ascii.eqb "[" "[") with true.
    cbv iota. by rewrite scan_spaced. }
  cbn [mbind option_bind]. change (drop 1 ("[" :: commas (map item_text l) ++ blanks)) with (commas (map item_text l) ++ blanks).
  rewrite read_spaced by (done || (cbn [length]; lia)). done.
Qed.

(** ** A turn per character is enough *)

Lemma scan_rest o cl s : forall d b body rest,
  scan_closing o cl d b s = Closed body rest -> (length rest <= length s)%nat.
Proof.
  assert (forall c r body rest, scan_cons c r = Closed body rest -> exists body', r = Closed body' rest) as Hc.
  { intros c [b r| |] body rest; [|done..]. intros [= _ <-]. by exists b. }
  remember (length s) as n eqn:Hn. revert s Hn. induction (lt_wf n) as [n _ IH]. intros [|c s] -> d b body rest; cbn [scan_closing].
  { by destruct b. }
  assert (forall d b body, scan_closing o cl d b s = Closed body rest -> (length rest <= S (length s))%nat) as H
    by (intros d' b' body' H'; specialize (IH (length s) ltac:(cbn; lia) s eq_refl d' b' body' rest H'); lia).
  intros E. destruct b.
  - destruct (Ascii.eqb c JQ); [apply Hc in E as [? E]; by eapply H|].
    destruct (Ascii.eqb c "\"); [|apply Hc in E as [? E]; by eapply H]. destruct s as [|c' s]; [done|].
    apply Hc in E as [? E]. apply Hc in E as [? E].
    specialize (IH (length s) ltac:(cbn; lia) s eq_refl _ _ _ _ E). cbn in *. lia.
  - destruct (Ascii.eqb c o); [apply Hc in E as [? E]; by eapply H|].
    destruct (Ascii.eqb c cl); [|apply Hc in E as [? E]; by eapply H].
    destruct d; [by injection E as _ <-|]. apply Hc in E as [? E]. by eapply H.
Qed.

Lemma skip_between_length s : (length (skip_between s) <= length s)%nat.
Proof. induction s as [|c s IH]; cbn; [done|]. destruct (_ || _); cbn; lia. Qed.

Lemma read_items_enough fuel : forall fuel' s,
  (length s < fuel)%nat -> (length s < fuel')%nat -> read_items fuel s = read_items fuel' s.
Proof.
  induction fuel as [|fuel IH]; intros [|fuel'] s H H'; try lia. cbn [read_items]. destruct s as [|c s]; [done|].
  destruct (Ascii.eqb c "]"); [done|]. pose proof (skip_between_length (c :: s)) as Hl. cbn [length] in *.
  destruct (skip_between (c :: s)) as [|x s']; [done|]. cbn [length] in Hl. destruct (Ascii.eqb x "{").
  - destruct (scan_closing "{" "}" 0 false s') as [body rest| |] eqn:E; [|done..]. apply scan_rest in E.
    by rewrite (IH fuel') by lia.
  - destruct (Ascii.eqb x "]"); [done|]. apply IH; lia.
Qed.

(** ** Witnesses *)

Module TodoExamples.
#[local] Existing Instance RefSqlite.

Definition ids : list cstr := [cs "id-one"; cs "id-two"].
Definition RE : ReplaceEnv := mkReplaceEnv true StmtOk true (fun _ => true) true (fun k => ids !! k) 100.
Definition TE : TodoEnv := mkTodoEnv RE StmtOk 100.

(** The first content has an escaped quote, the second is longer than what is shown. *)
Definition W : list Written :=
  [mkWritten (cs "say \" ++ JQ :: cs "hi\" ++ [JQ]) 1 3; mkWritten (repeat "x"%char 300) 0 1].

Definition write_call (arguments : cstr) : ToolCall := mkToolCall (cs "c1") (Some (cs "TodoWrite")) (Some arguments).
Definition read_call : ToolCall := mkToolCall (cs "c2") (Some (cs "TodoRead")) None.
Definition no_result : ToolResult := mkToolResult None None false false.

Definition S0 : TodoState := mkTodoState [] 0 (Some (mkTaskDb [] [] false)).
(** The store after the write. *)
Definition S1 : TodoState :=
  match execute_todo_tool_call TE (write_call (write_text W)) no_result (Some S0) with
  | Some (_, _, Some s) => s
  | _ => S0
  end.
Definition D1 : TaskDb := default (mkTaskDb [] [] true) (ts_store S1).

Lemma W_ok : Forall written_ok W.
Proof. repeat constructor; cbn; lia || done. Qed.

Lemma RE_writes : writes RE ids.
Proof. by split. Qed.

(** A subtask of a task that TodoRead has just shown. *)
Definition subtask : TodoItem := mkItem (cs "part") 0 2 (cs "id-one").
Definition RE' : ReplaceEnv := mkReplaceEnv true StmtOk true (fun _ => true) true (fun k => [cs "id-three"] !! k) 200.
Definition TE' : TodoEnv := mkTodoEnv RE' StmtOk 200.
Definition subtask_text : cstr :=
  "{" :: key_text "todos" ++ "[" :: "{" :: string_field "content" (cs "part") ++ "," :: string_field "parent_id" (cs "id-one")
    ++ ["}"; "]"; "}"].
Definition subtask_array : cstr :=
  "[" :: "{" :: string_field "content" (cs "part") ++ "," :: string_field "parent_id" (cs "id-one") ++ ["}"].
End TodoExamples.
Import TodoExamples.

Lemma todo_write_read_witness :
  Forall written_ok W /\
  exists s1 s2 order,
    execute_todo_tool_call TE (write_call (write_text W)) no_result (Some S0) =
      Some (0%Z, finished (write_call (write_text W)) no_result UPDATED_TEXT true, Some s1) /\
    execute_todo_tool_call TE read_call no_result (Some s1) =
      Some (0%Z, finished read_call no_result (shown_text order) true, Some s2) /\
    order ≡ₚ zip ids W.
Proof.
  split; [exact W_ok|].
  apply (@todo_write_read RefSqlite RefSqliteSpec TE TE (write_call (write_text W)) read_call no_result no_result S0
           (mkTaskDb [] [] false) ids W); try reflexivity; try exact W_ok; try exact RE_writes; try discriminate.
  - apply (bool_decide_unpack _). vm_compute. exact I.
  - apply (bool_decide_unpack _). vm_compute. exact I.
  - repeat constructor; cbn; try lia; apply not_elem_of_nil.
Defined.

Lemma todo_write_lost_witness :
  lost_parent RE' D1 subtask /\
  exists s1,
    execute_todo_tool_call TE' (write_call subtask_text) no_result (Some S1) =
      Some (0%Z, finished (write_call subtask_text) no_result UPDATED_TEXT true, Some s1) /\
    ts_store s1 = Some D1 /\
    exists s2, execute_todo_tool_call TE' read_call no_result (Some s1) =
      Some (0%Z, finished read_call no_result (tasks_text (stored_list D1)) true, Some s2).
Proof.
  assert (lost_parent RE' D1 subtask) as Hlost.
  { split; [discriminate|]. split; [by intros [|k]|]. intros r Hr _. vm_compute in Hr.
    apply elem_of_cons in Hr as [->|Hr]; [done|]. apply elem_of_cons in Hr as [->|Hr]; [done|]. by apply not_elem_of_nil in Hr. }
  split; [exact Hlost|].
  apply (@todo_write_lost RefSqlite TE' TE' (write_call subtask_text) read_call no_result no_result S1 D1 subtask_text
           subtask_array [subtask]); try reflexivity; try (vm_compute; reflexivity).
  right. exists subtask. split; [left|exact Hlost].
Defined.

Lemma blank_reads_past_witness :
  Forall written_ok W /\
  execute_todo_tool_call TE (write_call (spaced_text W ["010"; " "])) no_result (Some S0) = None.
Proof.
  split; [exact W_ok|].
  apply (@blank_reads_past RefSqlite TE (write_call (spaced_text W ["010"; " "])) no_result S0 W ["010"; " "]);
    try reflexivity; try exact W_ok; try discriminate.
  repeat (apply Forall_cons; split); [right; right; reflexivity|left; reflexivity|apply Forall_nil_2].
Defined.
