(* ===== verification/WorkQueue.v ===== *)
(** * Work queues (lib/workflow/workflow.c)

    The table work_items of the database work_queues.db, shared by every process
    that opens a queue, is the list of its rows; a queue handle is the queue's
    name. Each operation takes the table and the outcome of its statements and
    returns its result with the new table. *)

From S2P Require Import Prelude CString Sql.
Local Open Scope Z_scope.
Local Open Scope bool_scope.

(** ** Data *)

Inductive WorkItemStatus :=
| WORK_ITEM_PENDING | WORK_ITEM_ASSIGNED | WORK_ITEM_COMPLETED | WORK_ITEM_FAILED
| WORK_ITEM_OTHER (code : Z).

(** The cast [(WorkItemStatus)n]. *)
Definition work_item_status (n : Z) : WorkItemStatus :=
  if n =? 0 then WORK_ITEM_PENDING
  else if n =? 1 then WORK_ITEM_ASSIGNED
  else if n =? 2 then WORK_ITEM_COMPLETED
  else if n =? 3 then WORK_ITEM_FAILED
  else WORK_ITEM_OTHER n.

(** A row of work_items; NULL is [None]. *)
Record WorkItemRow := mkWorkItemRow {
  row_id : cstr;
  row_queue_name : cstr;
  row_task_description : cstr;
  row_context : option cstr;
  row_assigned_to : option cstr;
  row_status : Z;
  row_attempt_count : Z;
  row_max_attempts : Z;
  row_created_at : Z;
  row_assigned_at : option Z;
  row_completed_at : option Z;
  row_result : option cstr;
  row_error : option cstr
}.

#[export] Instance WorkItemRow_eq_dec : EqDecision WorkItemRow.
Proof. solve_decision. Defined.

(** The struct: [id], [queue_name] and [assigned_to] are arrays of 40, 64 and 64
    characters. *)
Record WorkItem := mkWorkItem {
  wi_id : cstr;
  wi_queue_name : cstr;
  wi_task_description : option cstr;
  wi_context : option cstr;
  wi_assigned_to : cstr;
  wi_status : WorkItemStatus;
  wi_attempt_count : Z;
  wi_max_attempts : Z;
  wi_created_at : Z;
  wi_assigned_at : Z;
  wi_completed_at : Z;
  wi_result : option cstr;
  wi_error : option cstr
}.

(** [strncpy] of a column into a zeroed array of [size] characters. *)
Definition char_array (size : nat) (s : option cstr) : cstr := take (size - 1) (default [] s).

Abbreviation WorkQueue := cstr.

(** [work_queue_create]: [opens] says whether the database opens and has its schema. *)
Definition work_queue_create (opens : bool) (name : option cstr) : option WorkQueue :=
  match name with
  | None => None
  | Some name =>
      if (length name =? 0)%nat || (64 <=? length name)%nat then None
      else if opens then Some (take 63 name) else None
  end.

(** ** Operations *)

Section Operations.
Context {S : Sqlite}.
Implicit Types (rows : list WorkItemRow) (st : Stmt) (queue : WorkQueue).

Definition same_id (a b : WorkItemRow) : bool := streq (row_id a) (row_id b).

Definition work_queue_enqueue st (now : Z) (uuid : option cstr) queue (task_description : cstr)
    (context : option cstr) (max_attempts : Z) rows : Z * option cstr * list WorkItemRow :=
  let max_attempts := if max_attempts <=? 0 then 3 else max_attempts in
  match uuid with
  | None => (-1, None, rows)
  | Some uuid =>
      let out_id := Some (take 39 uuid) in
      match st with
      | StmtOk =>
          let row := mkWorkItemRow uuid queue task_description context None 0 0 max_attempts now
                       None None None None in
          match insert_row same_id row rows with
          | Some rows' => (0, out_id, rows')
          | None => (-1, out_id, rows)
          end
      | _ => (-1, out_id, rows)
      end
  end.

Definition is_pending queue (r : WorkItemRow) : bool :=
  streq (row_queue_name r) queue && (row_status r =? 0).

(** The subquery of the claim: the oldest pending row. *)
Definition oldest_pending queue rows : option WorkItemRow :=
  match order_by row_created_at (select_where (is_pending queue) rows) with
  | r :: _ => Some r
  | [] => None
  end.

Definition claim_row (now : Z) (worker_id : cstr) (r : WorkItemRow) : WorkItemRow :=
  mkWorkItemRow (row_id r) (row_queue_name r) (row_task_description r) (row_context r)
    (Some worker_id) 1 (row_attempt_count r + 1) (row_max_attempts r) (row_created_at r)
    (Some now) (row_completed_at r) (row_result r) (row_error r).

(** The struct filled by a claim: the columns up to assigned_at. *)
Definition claimed_item (r : WorkItemRow) : WorkItem :=
  mkWorkItem (char_array 40 (Some (row_id r))) (char_array 64 (Some (row_queue_name r)))
    (Some (row_task_description r)) (row_context r) (char_array 64 (row_assigned_to r))
    (work_item_status (column_int (row_status r))) (column_int (row_attempt_count r))
    (column_int (row_max_attempts r)) (row_created_at r) (default 0 (row_assigned_at r)) 0 None None.

(** [alloc]: the item and its strings can be allocated. The update has been
    made by then. *)
Definition work_queue_claim st (alloc : bool) (now : Z) queue (worker_id : cstr) rows
  : option WorkItem * list WorkItemRow :=
  match st with
  | PrepareFails | StepFails O => (None, rows)
  | _ =>
      match oldest_pending queue rows with
      | None => (None, rows)
      | Some r =>
          let rows' := update_where (same_id r) (claim_row now worker_id) rows in
          (if alloc then Some (claimed_item (claim_row now worker_id r)) else None, rows')
      end
  end.

Definition is_item queue (item_id : cstr) (r : WorkItemRow) : bool :=
  streq (row_id r) item_id && streq (row_queue_name r) queue.

Definition complete_row (now : Z) (result : option cstr) (r : WorkItemRow) : WorkItemRow :=
  mkWorkItemRow (row_id r) (row_queue_name r) (row_task_description r) (row_context r)
    (row_assigned_to r) 2 (row_attempt_count r) (row_max_attempts r) (row_created_at r)
    (row_assigned_at r) (Some now) result (row_error r).

Definition work_queue_complete st (now : Z) queue (item_id : cstr) (result : option cstr) rows
  : Z * list WorkItemRow :=
  match st with
  | StmtOk =>
      (if 0 <? count_where (is_item queue item_id) rows then 0 else -1,
       update_where (is_item queue item_id) (complete_row now result) rows)
  | _ => (-1, rows)
  end.

Definition fail_row (new_status : Z) (error : option cstr) (r : WorkItemRow) : WorkItemRow :=
  mkWorkItemRow (row_id r) (row_queue_name r) (row_task_description r) (row_context r)
    None new_status (row_attempt_count r) (row_max_attempts r) (row_created_at r)
    (row_assigned_at r) (row_completed_at r) (row_result r) error.

(** The first statement of a failure reads the attempts: the status that the
    item gets, unless it is not there. *)
Definition fail_check (st : Stmt) queue (item_id : cstr) rows : option Z :=
  match returned st (select_where (is_item queue item_id) rows) with
  | [] => None
  | r :: _ => Some (if column_int (row_attempt_count r) <? column_int (row_max_attempts r) then 0 else 3)
  end.

(** The second one writes it. *)
Definition fail_update (st : Stmt) queue (item_id : cstr) (new_status : Z) (error : option cstr) rows
  : Z * list WorkItemRow :=
  match st with
  | StmtOk => (0, update_where (is_item queue item_id) (fail_row new_status error) rows)
  | _ => (-1, rows)
  end.

(** Both, when nothing happens between them; file WorkQueueFacts lets other
    processes run there. *)
Definition work_queue_fail (st1 st2 : Stmt) queue (item_id : cstr) (error : option cstr) rows
  : Z * list WorkItemRow :=
  match fail_check st1 queue item_id rows with
  | None => (-1, rows)
  | Some new_status => fail_update st2 queue item_id new_status error rows
  end.

Definition work_queue_pending_count st queue rows : Z :=
  match st with
  | PrepareFails | StepFails O => -1
  | _ => column_int (count_where (is_pending queue) rows)
  end.

Definition work_queue_remove st queue (item_id : cstr) rows : Z * list WorkItemRow :=
  match st with
  | StmtOk =>
      (if 0 <? count_where (is_item queue item_id) rows then 0 else -1,
       delete_where (is_item queue item_id) rows)
  | _ => (-1, rows)
  end.

Definition full_item (r : WorkItemRow) : WorkItem :=
  mkWorkItem (char_array 40 (Some (row_id r))) (char_array 64 (Some (row_queue_name r)))
    (Some (row_task_description r)) (row_context r) (char_array 64 (row_assigned_to r))
    (work_item_status (column_int (row_status r))) (column_int (row_attempt_count r))
    (column_int (row_max_attempts r)) (row_created_at r) (default 0 (row_assigned_at r))
    (default 0 (row_completed_at r)) (row_result r) (row_error r).

Definition work_queue_get_item st (alloc : bool) queue (item_id : cstr) rows : option WorkItem :=
  match returned st (select_where (is_item queue item_id) rows) with
  | [] => None
  | r :: _ => if alloc then Some (full_item r) else None
  end.
End Operations.

(** ** The row invariant *)

Local Open Scope Z_scope.

Record row_ok (r : WorkItemRow) : Prop := {
  row_ok_status : 0 <= row_status r <= 3;
  row_ok_attempts : 0 <= row_attempt_count r <= row_max_attempts r;
  row_ok_max : 1 <= row_max_attempts r < 2 ^ 31;
  row_ok_pending : row_status r = 0 -> row_attempt_count r < row_max_attempts r;
  row_ok_assigned : row_assigned_to r <> None -> 1 <= row_attempt_count r;
  row_ok_failed : row_status r = 3 -> row_attempt_count r = row_max_attempts r /\ row_assigned_to r = None
}.

Record items_ok (rows : list WorkItemRow) : Prop := {
  items_rows : Forall row_ok rows;
  items_ids : NoDup (map row_id rows)
}.

Lemma items_ok_row rows r : items_ok rows -> r ∈ rows -> row_ok r.
Proof. intros [H _] Hr. by eapply Forall_forall in H. Qed.

Lemma items_ok_unique rows r1 r2 :
  items_ok rows -> r1 ∈ rows -> r2 ∈ rows -> row_id r1 = row_id r2 -> r1 = r2.
Proof. intros [_ H]. by apply NoDup_column_inj. Qed.

Lemma items_ok_nil : items_ok [].
Proof. split; constructor. Qed.

Lemma row_ok_int r : row_ok r ->
  column_int (row_attempt_count r) = row_attempt_count r /\
  column_int (row_max_attempts r) = row_max_attempts r /\ column_int (row_status r) = row_status r.
Proof. intros []. unfold column_int. rewrite !wrap32_small by lia. done. Qed.

(** An update that keeps the ids keeps the invariant if it keeps it row by row. *)
Lemma items_ok_update rows (p : WorkItemRow -> bool) f :
  items_ok rows -> (forall r, row_id (f r) = row_id r) ->
  (forall r, r ∈ rows -> p r = true -> row_ok (f r)) ->
  items_ok (update_where p f rows).
Proof.
  intros [Hr Hi] Hid Hf. split; [|by rewrite update_where_column].
  apply Forall_forall. intros r Hin. apply elem_of_update in Hin as (r0 & H0 & ->).
  destruct (p r0) eqn:E; [auto|by eapply Forall_forall in Hr].
Qed.

Lemma items_ok_delete rows p : items_ok rows -> items_ok (delete_where p rows).
Proof.
  intros [Hr Hi]. split; [|by apply NoDup_delete].
  apply Forall_forall. intros r Hin. apply elem_of_delete in Hin as [Hin _]. by eapply Forall_forall in Hr.
Qed.

#[export] Hint Resolve items_ok_nil items_ok_delete : scaffold.

Lemma same_id_true a b : same_id a b = true <-> row_id a = row_id b.
Proof. apply streq_true. Qed.

Lemma is_pending_true q r : is_pending q r = true <-> row_queue_name r = q /\ row_status r = 0.
Proof. unfold is_pending. by rewrite andb_true_iff, streq_true, Z.eqb_eq. Qed.

Lemma is_item_true q id r : is_item q id r = true <-> row_id r = id /\ row_queue_name r = q.
Proof. unfold is_item. by rewrite andb_true_iff, !streq_true. Qed.

Section Oldest.
Context {S : Sqlite} {SS : SqliteSpec S}.
Implicit Types (rows : list WorkItemRow).

Lemma oldest_pending_Some q rows r :
  oldest_pending q rows = Some r ->
  r ∈ rows /\ is_pending q r = true /\
  forall r', r' ∈ rows -> is_pending q r' = true -> row_created_at r <= row_created_at r'.
Proof.
  unfold oldest_pending. destruct (order_by _ _) as [|x l] eqn:E; [done|]. intros [= ->].
  apply order_by_head in E as [Hr Hmin]. apply elem_of_select in Hr as [Hr Hp].
  split_and!; try done. intros r' H1 H2. apply Hmin. by apply elem_of_select.
Qed.

Lemma oldest_pending_None q rows :
  oldest_pending q rows = None <-> forall r, r ∈ rows -> is_pending q r = false.
Proof.
  unfold oldest_pending. destruct (order_by _ _) as [|x l] eqn:E.
  - apply order_by_nil in E. rewrite <- count_where_zero. unfold count_where. by rewrite E.
  - split; [done|]. intros H. apply order_by_head in E as [Hr _].
    apply elem_of_select in Hr as [Hr Hp]. by rewrite H in Hp.
Qed.

(** ** Each operation keeps the invariant *)

Lemma enqueue_items_ok st now uuid q task ctx max rows :
  max < 2 ^ 31 -> items_ok rows -> items_ok (work_queue_enqueue st now uuid q task ctx max rows).2.
Proof.
  intros Hmax Hok. unfold work_queue_enqueue. destruct uuid as [uuid|]; [|done].
  destruct st; try done. destruct (insert_row _ _ _) as [rows'|] eqn:E; [|done].
  apply insert_row_Some in E as [Hnew ->]. cbn. destruct Hok as [Hr Hi]. split.
  - apply Forall_app. split; [done|]. repeat constructor; cbn; try lia; try done; case_match; lia.
  - rewrite map_app. apply NoDup_app. split_and!; [done| |apply NoDup_singleton].
    intros x Hx. cbn. rewrite list_elem_of_singleton. intros ->.
    apply list_elem_of_In, in_map_iff in Hx as (r & Hid & Hin). apply list_elem_of_In, Hnew in Hin.
    unfold same_id in Hin. cbn in Hin. apply streq_false in Hin. congruence.
Qed.

Lemma claim_row_ok now w q r : row_ok r -> is_pending q r = true -> row_ok (claim_row now w r).
Proof.
  intros [] [_ Hp]%is_pending_true. split; cbn; try lia; try done.
Qed.

Lemma claim_items_ok st alloc now q w rows :
  items_ok rows -> items_ok (work_queue_claim st alloc now q w rows).2.
Proof.
  intros Hok. unfold work_queue_claim. destruct (oldest_pending q rows) as [r|] eqn:E.
  2: { by destruct st as [|[]|]. }
  apply oldest_pending_Some in E as (Hr & Hp & _).
  assert (items_ok (update_where (same_id r) (claim_row now w) rows)).
  { apply items_ok_update; try done. intros r' Hr' Hs%same_id_true.
    rewrite <- (items_ok_unique rows r r' Hok Hr Hr' Hs).
    eapply claim_row_ok; [by eapply items_ok_row|done]. }
  by destruct st as [|[]|], alloc.
Qed.

Lemma complete_items_ok st now q id result rows :
  items_ok rows -> items_ok (work_queue_complete st now q id result rows).2.
Proof.
  intros Hok. unfold work_queue_complete. destruct st; try done. cbn.
  apply items_ok_update; try done. intros r Hr _. destruct (items_ok_row _ _ Hok Hr).
  split; cbn; try lia; try done.
Qed.

(** What a failure makes of an item's row. *)
Definition verdict (r : WorkItemRow) : Z := if row_attempt_count r <? row_max_attempts r then 0 else 3.

Lemma fail_row_ok error r : row_ok r -> row_ok (fail_row (verdict r) error r).
Proof.
  intros []. unfold verdict. destruct (Z.ltb_spec (row_attempt_count r) (row_max_attempts r)); split; cbn; try lia; try done.
  intros _. split; [lia|done].
Qed.

Lemma fail_check_Some st q id rows n :
  items_ok rows -> fail_check st q id rows = Some n -> exists r, r ∈ rows /\ is_item q id r = true /\ n = verdict r.
Proof.
  intros Hok. unfold fail_check. destruct (returned _ _) as [|r l] eqn:E; [done|]. intros [= <-].
  assert (r ∈ rows /\ is_item q id r = true) as [Hr Hi].
  { rewrite <- elem_of_select. apply returned_head in E as [l' ->]. left. }
  exists r. split; [done|]. split; [done|]. unfold verdict.
  by destruct (row_ok_int r (items_ok_row _ _ Hok Hr)) as (-> & -> & _).
Qed.

Lemma fail_update_items_ok st q id n error rows :
  items_ok rows -> (forall r, r ∈ rows -> is_item q id r = true -> n = verdict r) ->
  items_ok (fail_update st q id n error rows).2.
Proof.
  intros Hok Hn. destruct st; try done. cbn. apply items_ok_update; try done.
  intros r Hr Hi. rewrite (Hn r Hr Hi). by apply fail_row_ok, (items_ok_row rows).
Qed.

Lemma is_item_unique rows q id r :
  items_ok rows -> r ∈ rows -> is_item q id r = true ->
  forall r', r' ∈ rows -> is_item q id r' = true <-> r' = r.
Proof.
  intros Hok Hr Hi r' Hr'. split; [|by intros ->]. rewrite is_item_true in *. intros [E1 _].
  destruct Hi as [E2 _]. apply (items_ok_unique rows); congruence.
Qed.

Lemma fail_items_ok st1 st2 q id error rows :
  items_ok rows -> items_ok (work_queue_fail st1 st2 q id error rows).2.
Proof.
  intros Hok. unfold work_queue_fail. destruct (fail_check st1 q id rows) as [n|] eqn:E; [|done].
  apply fail_check_Some in E as (r & Hr & Hi & ->); [|done]. apply fail_update_items_ok; [done|].
  intros r' Hr' Hi'. by apply (is_item_unique rows q id r) in Hi' as ->.
Qed.

Lemma remove_items_ok st q id rows :
  items_ok rows -> items_ok (work_queue_remove st q id rows).2.
Proof. intros Hok. unfold work_queue_remove. destruct st; cbn; auto with scaffold. Qed.
End Oldest.

#[export] Hint Resolve enqueue_items_ok claim_items_ok complete_items_ok fail_items_ok
  remove_items_ok : scaffold.

(** ** A sample *)

Module WorkQueueExamples.
Definition q : WorkQueue := cs "goal_1".
Definition item (id : string) (created : Z) : WorkItemRow :=
  mkWorkItemRow (cs id) q (cs "write tests") None None 0 0 2 created None None None None.
Definition rows0 : list WorkItemRow := [item "b" 20; item "a" 10].

Lemma rows0_ok : items_ok rows0.
Proof.
  split; [|by apply (bool_decide_eq_true_1 (NoDup _)); vm_compute].
  repeat constructor; cbn; try lia; done.
Qed.
End WorkQueueExamples.
