(* ===== verification/WorkQueueFacts.v ===== *)
(** * What the work queues promise

    The processes that share the table run their statements one at a time, in
    any order; a report of failure is two of them. The table then refines an
    abstract queue, whose items wait, are held, are done or are given up; the
    attempts bound the claims; a claim is exclusive. All of this needs that
    nobody claims an item between the two statements of a report of its failure:
    the last section shows what happens otherwise. *)

From S2P Require Import Prelude CString Sql WorkQueue.
Local Open Scope bool_scope.
Local Open Scope Z_scope.

(** ** The rows by their ids *)

(** The map of a table. *)
Definition queue_map (rows : list WorkItemRow) : gmap cstr WorkItemRow :=
  list_to_map (map (fun r => (row_id r, r)) rows).

Lemma queue_map_lookup rows id r :
  items_ok rows -> queue_map rows !! id = Some r <-> r ∈ rows /\ row_id r = id.
Proof.
  intros [_ Hd]. unfold queue_map. rewrite <- elem_of_list_to_map.
  - rewrite list_elem_of_In, in_map_iff. split.
    + intros (x & [= <- <-] & Hx). split; [by apply list_elem_of_In|done].
    + intros [Hr <-]. exists r. split; [done|by apply list_elem_of_In].
  - change (NoDup (map fst (map (fun r => (row_id r, r)) rows))). by rewrite map_map.
Qed.

Lemma queue_map_lookup_None rows id :
  items_ok rows -> queue_map rows !! id = None <-> forall r, r ∈ rows -> row_id r <> id.
Proof.
  intros Hok. rewrite eq_None_not_Some. split.
  - intros H r Hr E. apply H. exists r. by apply queue_map_lookup.
  - intros H [r Hr]. apply queue_map_lookup in Hr as [Hr E]; [|done]. by eapply H.
Qed.

Lemma queue_map_eq rows m :
  items_ok rows -> (forall id r, m !! id = Some r <-> r ∈ rows /\ row_id r = id) -> queue_map rows = m.
Proof.
  intros Hok H. apply map_eq. intros id. apply option_eq. intros r. by rewrite queue_map_lookup, H.
Qed.

Lemma queue_map_update rows r f p :
  items_ok rows -> items_ok (update_where p f rows) -> r ∈ rows ->
  (forall r', r' ∈ rows -> p r' = true <-> r' = r) -> row_id (f r) = row_id r ->
  queue_map (update_where p f rows) = <[row_id r := f r]> (queue_map rows).
Proof.
  intros Hok Hok' Hr Hp Hid. apply queue_map_eq; [done|]. intros id x.
  rewrite lookup_insert_Some, queue_map_lookup, elem_of_update by done. split.
  - intros [[<- <-]|[Hne [Hx <-]]].
    + split; [|done]. exists r. split; [done|]. by rewrite (proj2 (Hp r Hr) eq_refl).
    + split; [|done]. exists x. split; [done|]. destruct (p x) eqn:E; [|done].
      apply Hp in E; [|done]. by subst.
  - intros [(r0 & H0 & ->) <-]. destruct (p r0) eqn:E.
    + apply Hp in E; [|done]. subst. left. by rewrite Hid.
    + right. split; [|done]. intros Heq. apply (items_ok_unique rows r r0 Hok Hr H0) in Heq as <-.
      by rewrite (proj2 (Hp r Hr) eq_refl) in E.
Qed.

(** An update of one item that matches no row leaves the table. *)
Lemma update_item_cases rows q id f :
  (update_where (is_item q id) f rows = rows /\ count_where (is_item q id) rows = 0) \/
  exists r, r ∈ rows /\ is_item q id r = true.
Proof.
  destruct (Z.eq_dec (count_where (is_item q id) rows) 0) as [E|E].
  - left. split; [|done]. apply update_where_none. by apply count_where_zero.
  - right. apply count_where_pos. pose proof (count_where_nonneg (is_item q id) rows). lia.
Qed.

(** ** Sequences of statements *)

(** What the processes share, and the status that each report of failure under
    way has decided on: the queue, the id and the status, by the call. *)
Record SharedQueue := mkSharedQueue {
  sq_rows : list WorkItemRow;
  sq_failing : gmap nat (cstr * cstr * Z)
}.

Inductive wq_op :=
| OpEnqueue (st : Stmt) (now : Z) (uuid : option cstr) (task : cstr) (context : option cstr) (max : Z)
| OpClaim (st : Stmt) (alloc : bool) (now : Z) (worker : cstr)
| OpComplete (st : Stmt) (now : Z) (id : cstr) (result : option cstr)
| OpFailCheck (call : nat) (st : Stmt) (id : cstr)
| OpFailUpdate (call : nat) (st : Stmt) (error : option cstr)
| OpRemove (st : Stmt) (id : cstr).

Section Runs.
Context {S : Sqlite}.

Definition with_rows (s : SharedQueue) (rows : list WorkItemRow) : SharedQueue := mkSharedQueue rows (sq_failing s).

(** One statement of an operation of queue [q]. *)
Definition wq_apply (q : WorkQueue) (op : wq_op) (s : SharedQueue) : SharedQueue :=
  match op with
  | OpEnqueue st now uuid task ctx max => with_rows s (work_queue_enqueue st now uuid q task ctx max (sq_rows s)).2
  | OpClaim st alloc now w => with_rows s (work_queue_claim st alloc now q w (sq_rows s)).2
  | OpComplete st now id res => with_rows s (work_queue_complete st now q id res (sq_rows s)).2
  | OpFailCheck call st id =>
      mkSharedQueue (sq_rows s)
        (match fail_check st q id (sq_rows s) with
         | Some n => <[call := (q, id, n)]> (sq_failing s)
         | None => delete call (sq_failing s)
         end)
  | OpFailUpdate call st err =>
      match sq_failing s !! call with
      | Some (q', id, n) => mkSharedQueue (fail_update st q' id n err (sq_rows s)).2 (delete call (sq_failing s))
      | None => s
      end
  | OpRemove st id => with_rows s (work_queue_remove st q id (sq_rows s)).2
  end.

(** The id of the row the operation claims. *)
Definition wq_claimed (q : WorkQueue) (op : wq_op) (s : SharedQueue) : option cstr :=
  match op with
  | OpClaim PrepareFails _ _ _ | OpClaim (StepFails O) _ _ _ => None
  | OpClaim _ _ _ _ => row_id <$> oldest_pending q (sq_rows s)
  | _ => None
  end.

(** The operations of any queues in order, with the ids claimed. *)
Fixpoint wq_run (ops : list (WorkQueue * wq_op)) (s : SharedQueue) : list (option cstr) * SharedQueue :=
  match ops with
  | [] => ([], s)
  | (q, op) :: ops' =>
      let '(trace, s') := wq_run ops' (wq_apply q op s) in
      (wq_claimed q op s :: trace, s')
  end.

(** No report of failure of this item is under way. *)
Definition settled (id : cstr) (s : SharedQueue) : Prop :=
  forall call q n, sq_failing s !! call <> Some (q, id, n).

(** The operation neither claims an item whose failure is being reported nor
    enters it again. *)
Definition undisturbed (q : WorkQueue) (op : wq_op) (s : SharedQueue) : Prop :=
  match op with
  | OpClaim _ _ _ _ => forall id, wq_claimed q op s = Some id -> settled id s
  | OpEnqueue _ _ (Some id) _ _ _ => settled id s
  | _ => True
  end.

Fixpoint run_undisturbed (ops : list (WorkQueue * wq_op)) (s : SharedQueue) : Prop :=
  match ops with
  | [] => True
  | (q, op) :: ops' => undisturbed q op s /\ run_undisturbed ops' (wq_apply q op s)
  end.
End Runs.

(** [max_attempts] is an int. *)
Definition op_int (op : wq_op) : Prop :=
  match op with OpEnqueue _ _ _ _ _ max => max < 2 ^ 31 | _ => True end.

(** ** The invariant *)

(** The table is consistent, and what the reports under way have read is true. *)
Record shared_ok (s : SharedQueue) : Prop := {
  shared_rows : items_ok (sq_rows s);
  shared_failing : forall call q id n r, sq_failing s !! call = Some (q, id, n) ->
    r ∈ sq_rows s -> is_item q id r = true -> n = verdict r
}.

Lemma shared_ok_start rows : items_ok rows -> shared_ok (mkSharedQueue rows ∅).
Proof. intros H. split; [done|]. intros call q id n r Hc. cbn in Hc. by rewrite lookup_empty in Hc. Qed.

(** Rows with the same ids, queues and attempts. *)
Lemma shared_ok_rows s rows :
  shared_ok s -> items_ok rows ->
  (forall r', r' ∈ rows -> settled (row_id r') s \/
     exists r, r ∈ sq_rows s /\ row_id r = row_id r' /\ row_queue_name r = row_queue_name r' /\ verdict r = verdict r') ->
  shared_ok (with_rows s rows).
Proof.
  intros [Hr Hf] Hok H. split; [done|]. intros call q id n r' Hc Hin [E1 E2]%is_item_true. cbn in Hc, Hin. subst.
  destruct (H r' Hin) as [Hs|(r & Hr0 & F1 & F2 & <-)]; [by apply Hs in Hc|].
  apply (Hf call (row_queue_name r') (row_id r')); [done|done|]. by apply is_item_true.
Qed.

Section RunFacts.
Context {S : Sqlite} {SS : SqliteSpec S}.

Lemma wq_apply_ok q op s : op_int op -> undisturbed q op s -> shared_ok s -> shared_ok (wq_apply q op s).
Proof.
  intros Hint Hun Hok. pose proof Hok as [Hr Hf]. destruct op as [st now uuid task ctx max|st alloc now w|st now i res|call st i|call st err|st i].
  - apply shared_ok_rows; [done|by apply enqueue_items_ok|]. intros r' Hr'.
    unfold work_queue_enqueue in Hr'. destruct uuid as [u|]; [|right; by exists r'].
    destruct st; try (right; by exists r'). destruct (insert_row _ _ _) as [rows|] eqn:E; [|right; by exists r'].
    apply insert_row_Some in E as [_ ->]. cbn [snd] in Hr'. apply elem_of_app in Hr' as [Hr'| ->%list_elem_of_singleton];
      [right; by exists r'|by left].
  - apply shared_ok_rows; [done|by apply claim_items_ok|]. intros r' Hr'.
    assert ((work_queue_claim st alloc now q w (sq_rows s)).2 = sq_rows s \/
      exists o, wq_claimed q (OpClaim st alloc now w) s = Some (row_id o) /\
        (work_queue_claim st alloc now q w (sq_rows s)).2 = update_where (same_id o) (claim_row now w) (sq_rows s)) as [E|(o & Ec & E)].
    { unfold work_queue_claim, wq_claimed. destruct (oldest_pending q (sq_rows s)) as [o|].
      2: { left. by destruct st as [|[]|]. }
      destruct st as [|[]|]; try (by left); right; by exists o. }
    { rewrite E in Hr'. right. by exists r'. }
    rewrite E in Hr'. apply elem_of_update in Hr' as (r & Hr0 & ->). destruct (same_id o r) eqn:Es; [|right; by exists r].
    left. apply same_id_true in Es. cbn. rewrite <- Es. by apply Hun.
  - apply shared_ok_rows; [done|by apply complete_items_ok|]. intros r' Hr'. right.
    unfold work_queue_complete in Hr'. destruct st; try (by exists r').
    apply elem_of_update in Hr' as (r & Hr0 & ->). exists r. by destruct (is_item q i r).
  - split; cbn; [done|]. intros call' q' id n r Hc Hin Hi. destruct (fail_check st q i (sq_rows s)) as [n'|] eqn:E.
    + apply lookup_insert_Some in Hc as [[_ [= <- <- <-]]|[_ Hc]]; [|by eapply Hf].
      apply fail_check_Some in E as (r' & Hr' & Hi' & ->); [|done].
      by apply (is_item_unique _ q i r' Hr Hr' Hi' r Hin) in Hi as ->.
    + apply lookup_delete_Some in Hc as [_ Hc]. by eapply Hf.
  - cbn. destruct (sq_failing s !! call) as [[[q' id] n]|] eqn:E; [|done]. split; cbn.
    + apply fail_update_items_ok; [done|]. intros r Hin Hi. by eapply Hf.
    + intros call' q'' id' n' r' Hc Hin Hi. apply lookup_delete_Some in Hc as [_ Hc].
      destruct st; cbn in Hin; try by eapply Hf. apply elem_of_update in Hin as (r & Hin & ->).
      rewrite (Hf call' q'' id' n' r Hc Hin) by (by destruct (is_item q' id r)). by destruct (is_item q' id r).
  - apply shared_ok_rows; [done|by apply remove_items_ok|]. intros r' Hr'. right. exists r'.
    unfold work_queue_remove in Hr'. destruct st; try done. cbn in Hr'. by apply elem_of_delete in Hr' as [? _].
Qed.
End RunFacts.

(** ** The abstract queue

    What the users of a queue may think of: items by their ids, each with its
    life, and the reports of failure under way. *)

Inductive Phase := Waiting (error : option cstr) | Held | Done (result : option cstr) | GivenUp (error : option cstr).

Record Item := mkItem {
  it_queue : cstr;
  it_task : cstr;
  it_context : option cstr;
  it_created : Z;
  it_max : Z;
  it_attempts : Z;
  it_owner : option cstr;
  it_claimed_at : option Z;
  it_done_at : option Z;
  it_phase : Phase
}.

Definition is_waiting (it : Item) : Prop := exists e, it_phase it = Waiting e.

Abbreviation Queues := (gmap cstr Item * gmap nat (cstr * cstr))%type.

(** An item entered, claimed, completed, and one whose failure was reported. *)
Definition new_item (q task : cstr) (context : option cstr) (now max : Z) : Item :=
  mkItem q task context now (if max <=? 0 then 3 else max) 0 None None None (Waiting None).
Definition held_item (now : Z) (worker : cstr) (it : Item) : Item :=
  mkItem (it_queue it) (it_task it) (it_context it) (it_created it) (it_max it) (it_attempts it + 1) (Some worker) (Some now)
    (it_done_at it) Held.
Definition done_item (now : Z) (result : option cstr) (it : Item) : Item :=
  mkItem (it_queue it) (it_task it) (it_context it) (it_created it) (it_max it) (it_attempts it) (it_owner it)
    (it_claimed_at it) (Some now) (Done result).
Definition failed_item (error : option cstr) (it : Item) : Item :=
  mkItem (it_queue it) (it_task it) (it_context it) (it_created it) (it_max it) (it_attempts it) None
    (it_claimed_at it) (it_done_at it) (if it_attempts it <? it_max it then Waiting error else GivenUp error).

(** A statement that answers its first row. *)
Definition steps_once (st : Stmt) : Prop := st <> PrepareFails /\ st <> StepFails 0.

Definition item_in (q id : cstr) (m : gmap cstr Item) (it : Item) : Prop := m !! id = Some it /\ it_queue it = q.

(** What each statement does, when it runs and when it does not. *)
Inductive queue_step (q : WorkQueue) : wq_op -> Queues -> Queues -> Prop :=
| enters now u task ctx max m f : m !! u = None ->
    queue_step q (OpEnqueue StmtOk now (Some u) task ctx max) (m, f) (<[u := new_item q task ctx now max]> m, f)
| refused st now u task ctx max m f : st <> StmtOk \/ u = None \/ (exists i, u = Some i /\ is_Some (m !! i)) ->
    queue_step q (OpEnqueue st now u task ctx max) (m, f) (m, f)
| claims st alloc now w m f id it : steps_once st -> item_in q id m it -> is_waiting it ->
    (forall id' it', item_in q id' m it' -> is_waiting it' -> it_created it <= it_created it') ->
    queue_step q (OpClaim st alloc now w) (m, f) (<[id := held_item now w it]> m, f)
| claims_nothing st alloc now w m f : ~ steps_once st \/ (forall id it, item_in q id m it -> ~ is_waiting it) ->
    queue_step q (OpClaim st alloc now w) (m, f) (m, f)
| completes now id res m f it : item_in q id m it ->
    queue_step q (OpComplete StmtOk now id res) (m, f) (<[id := done_item now res it]> m, f)
| completes_nothing st now id res m f : st <> StmtOk \/ (forall it, ~ item_in q id m it) ->
    queue_step q (OpComplete st now id res) (m, f) (m, f)
| reports call st id m f it : steps_once st -> item_in q id m it ->
    queue_step q (OpFailCheck call st id) (m, f) (m, <[call := (q, id)]> f)
| reports_nothing call st id m f : ~ steps_once st \/ (forall it, ~ item_in q id m it) ->
    queue_step q (OpFailCheck call st id) (m, f) (m, delete call f)
| reported call err q' id m f it : f !! call = Some (q', id) -> item_in q' id m it ->
    queue_step q (OpFailUpdate call StmtOk err) (m, f) (<[id := failed_item err it]> m, delete call f)
| reported_nothing call st err q' id m f : f !! call = Some (q', id) -> st <> StmtOk \/ (forall it, ~ item_in q' id m it) ->
    queue_step q (OpFailUpdate call st err) (m, f) (m, delete call f)
| not_reporting call st err m f : f !! call = None -> queue_step q (OpFailUpdate call st err) (m, f) (m, f)
| leaves id m f it : item_in q id m it -> queue_step q (OpRemove StmtOk id) (m, f) (delete id m, f)
| leaves_not st id m f : st <> StmtOk \/ (forall it, ~ item_in q id m it) -> queue_step q (OpRemove st id) (m, f) (m, f).

(** ** The table as an abstract queue *)

Definition phase_of (r : WorkItemRow) : Phase :=
  if row_status r =? 0 then Waiting (row_error r)
  else if row_status r =? 1 then Held
  else if row_status r =? 2 then Done (row_result r)
  else GivenUp (row_error r).

Definition item_of_row (r : WorkItemRow) : Item :=
  mkItem (row_queue_name r) (row_task_description r) (row_context r) (row_created_at r) (row_max_attempts r)
    (row_attempt_count r) (row_assigned_to r) (row_assigned_at r) (row_completed_at r) (phase_of r).

Definition queues_of (s : SharedQueue) : Queues := (item_of_row <$> queue_map (sq_rows s), fst <$> sq_failing s).

Section Refinement.
Context {S : Sqlite} {SS : SqliteSpec S}.

Lemma item_in_rows q id rows it :
  items_ok rows ->
  item_in q id (item_of_row <$> queue_map rows) it <-> exists r, r ∈ rows /\ is_item q id r = true /\ it = item_of_row r.
Proof using.
  intros Hok. unfold item_in. rewrite lookup_fmap_Some. split.
  - intros ((r & <- & [Hr Hid]%queue_map_lookup) & Hq); [|done]. exists r. split; [done|]. by rewrite is_item_true.
  - intros (r & Hr & [Hid Hq]%is_item_true & ->). split; [|done]. exists r. split; [done|]. by apply queue_map_lookup.
Qed.

Lemma is_waiting_row r : row_ok r -> is_waiting (item_of_row r) <-> row_status r = 0.
Proof using.
  intros Hok. pose proof (row_ok_status r Hok). unfold is_waiting, item_of_row, phase_of. cbn.
  destruct (Z.eqb_spec (row_status r) 0); [naive_solver|]. split; [|done]. intros [e He]. by repeat case_match.
Qed.

Lemma steps_once_returned {A} st (r : A) l : steps_once st <-> returned st (r :: l) <> [].
Proof using. unfold steps_once. destruct st as [|[|n]|]; cbn; naive_solver. Qed.

Lemma map_update rows r f p :
  items_ok rows -> items_ok (update_where p f rows) -> r ∈ rows ->
  (forall r', r' ∈ rows -> p r' = true <-> r' = r) -> row_id (f r) = row_id r ->
  item_of_row <$> queue_map (update_where p f rows) = <[row_id r := item_of_row (f r)]> (item_of_row <$> queue_map rows).
Proof using. intros. by rewrite (queue_map_update rows r) by done; rewrite fmap_insert. Qed.

Lemma enqueue_refines q st now u task ctx max s :
  items_ok (sq_rows s) -> max < 2 ^ 31 ->
  queue_step q (OpEnqueue st now u task ctx max) (queues_of s) (queues_of (wq_apply q (OpEnqueue st now u task ctx max) s)).
Proof using SS.
  intros Hok Hmax. pose proof (enqueue_items_ok st now u q task ctx max (sq_rows s) Hmax Hok) as Hok'.
  unfold queues_of. cbn [wq_apply with_rows sq_rows sq_failing]. unfold work_queue_enqueue in *.
  destruct u as [u|]; [|apply refused; naive_solver]. destruct st; try (apply refused; naive_solver).
  destruct (insert_row _ _ _) as [rows|] eqn:E.
  - apply insert_row_Some in E as [Hnew ->]. cbn [snd] in *.
    match goal with |- context [sq_rows s ++ [?r]] => set (row := r) in * end.
    assert (forall r, r ∈ sq_rows s -> row_id r <> u) as Hid.
    { intros r Hr E. apply Hnew in Hr. unfold same_id in Hr. apply streq_false in Hr. cbn in Hr. congruence. }
    replace (queue_map (sq_rows s ++ [row])) with (<[u := row]> (queue_map (sq_rows s))).
    + rewrite fmap_insert. apply enters. rewrite lookup_fmap. by rewrite (proj2 (queue_map_lookup_None _ u Hok) Hid).
    + symmetry. apply queue_map_eq; [done|]. intros id x.
      rewrite lookup_insert_Some, queue_map_lookup, elem_of_app, list_elem_of_singleton by done.
      split; [intros [[<- <-]|[? [? <-]]]; auto|].
      intros [[Hx| ->] <-]; [right|by left]. split; [|done]. intros E. by apply (Hid x).
  - apply refused. right. right. exists u. split; [done|]. cbn [snd]. rewrite lookup_fmap.
    unfold insert_row in E. destruct (existsb _ _) eqn:Ex; [|done]. apply existsb_true_iff in Ex as (x & Hx & Es).
    apply same_id_true in Es. cbn in Es. rewrite (proj2 (queue_map_lookup _ u x Hok)) by done. by eexists.
Qed.

Lemma claim_refines q st alloc now w s :
  items_ok (sq_rows s) ->
  queue_step q (OpClaim st alloc now w) (queues_of s) (queues_of (wq_apply q (OpClaim st alloc now w) s)).
Proof using SS.
  intros Hok. pose proof (claim_items_ok st alloc now q w (sq_rows s) Hok) as Hok'.
  unfold queues_of. cbn [wq_apply with_rows sq_rows sq_failing]. unfold work_queue_claim in *.
  destruct (decide (st = PrepareFails \/ st = StepFails 0)) as [Hst|Hst].
  { assert (~ steps_once st) as Hno by (unfold steps_once; naive_solver).
    destruct Hst as [-> | ->]; apply claims_nothing; by left. }
  destruct (oldest_pending q (sq_rows s)) as [r|] eqn:E.
  - apply oldest_pending_Some in E as (Hr & [Hq Hp]%is_pending_true & Hmin).
    assert (items_ok (update_where (same_id r) (claim_row now w) (sq_rows s)) ->
      queue_step q (OpClaim st alloc now w) (queues_of s)
        (item_of_row <$> queue_map (update_where (same_id r) (claim_row now w) (sq_rows s)), fst <$> sq_failing s)) as H.
    { intros Hok2. rewrite (map_update _ r); try done.
      2: { intros r' Hr'. rewrite same_id_true. split; [|by intros ->]. intros E. by rewrite (items_ok_unique (sq_rows s) r r'). }
      change (item_of_row (claim_row now w r)) with (held_item now w (item_of_row r)).
      apply claims; [unfold steps_once; naive_solver| | |].
      - apply item_in_rows; [done|]. exists r. by rewrite is_item_true.
      - apply is_waiting_row; [by apply (items_ok_row (sq_rows s))|done].
      - intros id' it' (r' & Hr' & [_ Hq']%is_item_true & ->)%item_in_rows Hw; [|done]. cbn.
        apply Hmin; [done|]. apply is_pending_true. split; [done|].
        by apply (is_waiting_row r' (items_ok_row _ _ Hok Hr')). }
    destruct st as [|[]|]; [naive_solver|naive_solver|by apply H..].
  - assert (forall id it, item_in q id (item_of_row <$> queue_map (sq_rows s)) it -> ~ is_waiting it) as Hno.
    { intros id it (r & Hr & [_ Hq]%is_item_true & ->)%item_in_rows Hw; [|done].
      apply (is_waiting_row r (items_ok_row _ _ Hok Hr)) in Hw.
      rewrite oldest_pending_None in E. specialize (E r Hr). by rewrite (proj2 (is_pending_true q r)) in E. }
    destruct st as [|[]|]; apply claims_nothing; by right.
Qed.

(** An update of the item with an id, as the abstract queue sees it. *)
Lemma item_update q id f g s :
  items_ok (sq_rows s) -> items_ok (update_where (is_item q id) f (sq_rows s)) ->
  (forall r, row_id (f r) = row_id r) ->
  (forall r, r ∈ sq_rows s -> is_item q id r = true -> item_of_row (f r) = g (item_of_row r)) ->
  (exists it, item_in q id (queues_of s).1 it /\
     item_of_row <$> queue_map (update_where (is_item q id) f (sq_rows s)) = <[id := g it]> (queues_of s).1) \/
  ((forall it, ~ item_in q id (queues_of s).1 it) /\ update_where (is_item q id) f (sq_rows s) = sq_rows s).
Proof using.
  intros Hok Hok' Hid Hg. destruct (update_item_cases (sq_rows s) q id f) as [[E E0]|(r & Hr & Hi)].
  - right. split; [|done]. intros it (r & Hr & Hi & _)%item_in_rows; [|done].
    by rewrite (proj1 (count_where_zero _ _) E0 r Hr) in Hi.
  - left. exists (item_of_row r). split; [apply item_in_rows; [done|by exists r]|].
    rewrite (map_update _ r); try done; [|by apply is_item_unique]. rewrite Hg by done.
    by apply is_item_true in Hi as [-> _].
Qed.

Lemma absent q id s :
  items_ok (sq_rows s) -> select_where (is_item q id) (sq_rows s) = [] -> forall it, ~ item_in q id (queues_of s).1 it.
Proof using.
  intros Hok E it (r & Hr & Hi & _)%item_in_rows; [|done].
  assert (r ∈ select_where (is_item q id) (sq_rows s)) as H by (by apply elem_of_select). rewrite E in H.
  by apply not_elem_of_nil in H.
Qed.

Lemma check_refines q call st id s :
  items_ok (sq_rows s) ->
  queue_step q (OpFailCheck call st id) (queues_of s) (queues_of (wq_apply q (OpFailCheck call st id) s)).
Proof using SS.
  intros Hok. unfold wq_apply, fail_check. destruct (select_where (is_item q id) (sq_rows s)) as [|r l] eqn:E.
  - assert (returned st (@nil WorkItemRow) = []) as -> by (destruct st as [|[]|]; done).
    unfold queues_of at 2. cbn. rewrite fmap_delete. apply reports_nothing. right. by apply absent.
  - assert (r ∈ sq_rows s /\ is_item q id r = true) as [Hr Hi] by (rewrite <- elem_of_select, E; left).
    destruct (returned st (r :: l)) as [|r' l'] eqn:Er; unfold queues_of at 2; cbn.
    + rewrite fmap_delete. apply reports_nothing. left. rewrite (steps_once_returned st r l), Er. intros H. by apply H.
    + rewrite fmap_insert. apply (reports _ _ _ _ _ _ (item_of_row r)).
      * apply (steps_once_returned st r l). by rewrite Er.
      * apply item_in_rows; [done|by exists r].
Qed.

Lemma update_refines q call st err s :
  shared_ok s ->
  queue_step q (OpFailUpdate call st err) (queues_of s) (queues_of (wq_apply q (OpFailUpdate call st err) s)).
Proof using SS.
  intros [Hok Hf]. unfold wq_apply. destruct (sq_failing s !! call) as [[[q' id] n]|] eqn:E.
  2: { apply not_reporting. by rewrite lookup_fmap, E. }
  assert ((queues_of s).2 !! call = Some (q', id)) as Ec by (cbn; by rewrite lookup_fmap, E).
  unfold queues_of at 2. cbn [sq_rows sq_failing]. rewrite fmap_delete.
  destruct st; try (by apply (reported_nothing _ _ _ _ q' id); [exact Ec|left]).
  assert (forall r, r ∈ sq_rows s -> is_item q' id r = true -> n = verdict r) as Hn by (intros; by eapply Hf).
  pose proof (fail_update_items_ok StmtOk q' id n err (sq_rows s) Hok Hn) as Hok'. cbn [fail_update snd] in *.
  destruct (item_update q' id (fail_row n err) (failed_item err) s Hok Hok') as [(it & Hin & ->)|[Hno ->]]; [done| | |].
  - intros r Hr Hi. rewrite (Hn r Hr Hi). unfold item_of_row, failed_item, phase_of, verdict. cbn.
    by destruct (row_attempt_count r <? row_max_attempts r).
  - by apply (reported _ _ _ q').
  - apply (reported_nothing _ _ _ _ q' id); [exact Ec|by right].
Qed.

(** C38: Refinement: on a consistent table, every statement of an operation of a
    queue does to the items what the abstract queue says, for the same operation
    and the same outcome of the statement: it enters the item as waiting, gives
    the oldest waiting one to the worker, marks one done with its result, returns
    it to waiting or gives it up by its attempts, removes it, or does nothing; and
    the table is consistent again. Nobody may claim, or enter anew, an item
    between the two statements of a report of its failure. *)
Theorem work_queue_refines q op s :
  shared_ok s -> op_int op -> undisturbed q op s ->
  shared_ok (wq_apply q op s) /\ queue_step q op (queues_of s) (queues_of (wq_apply q op s)).
Proof using SS.
  intros Hok Hint Hun. split; [by apply wq_apply_ok|]. pose proof (shared_rows s Hok) as Hr. destruct op.
  - by apply enqueue_refines.
  - by apply claim_refines.
  - pose proof (complete_items_ok st now q id result (sq_rows s) Hr) as Hok'.
    unfold queues_of at 2. cbn [wq_apply with_rows sq_rows sq_failing]. unfold work_queue_complete in *.
    destruct st; try (apply completes_nothing; by left). cbn [snd] in *.
    destruct (item_update q id (complete_row now result) (done_item now result) s Hr Hok') as [(it & Hin & ->)|[Hno ->]];
      [done|done|by apply completes|apply completes_nothing; by right].
  - by apply check_refines.
  - by apply update_refines.
  - unfold queues_of at 2. cbn [wq_apply with_rows sq_rows sq_failing]. unfold work_queue_remove.
    destruct st; try (apply leaves_not; by left). cbn [snd].
    destruct (update_item_cases (sq_rows s) q id (fun r => r)) as [[_ E0]|(r & Hin & Hi)].
    + rewrite delete_where_none by (by apply count_where_zero). apply leaves_not. right.
      apply absent; [done|]. unfold count_where in E0. by destruct (select_where _ _).
    + replace (item_of_row <$> queue_map (delete_where (is_item q id) (sq_rows s))) with (delete id (queues_of s).1).
      { apply (leaves _ _ _ _ (item_of_row r)). apply item_in_rows; [done|by exists r]. }
      cbn. rewrite <- fmap_delete. f_equal. symmetry. apply queue_map_eq; [by apply items_ok_delete|]. intros id' x.
      rewrite lookup_delete_Some, queue_map_lookup, elem_of_delete by done. apply is_item_true in Hi as [Hid Hq]. split.
      * intros (Hne & Hx & <-). split_and!; try done. apply not_true_is_false. intros [Hix _]%is_item_true. congruence.
      * intros ((Hx & Hf) & <-). split_and!; try done. intros E'.
        rewrite (items_ok_unique (sq_rows s) x r) in Hf by (done || congruence).
        by rewrite (proj2 (is_item_true q id r)) in Hf.
Qed.
End Refinement.

(** ** Claims *)

Section Claims.
Context {S : Sqlite} {SS : SqliteSpec S}.

Definition removes (id : cstr) (op : wq_op) : bool :=
  match op with OpRemove _ i => streq i id | _ => false end.
(** The operation begins, or ends, a report of failure of the item. *)
Definition starts_report (id : cstr) (op : wq_op) : bool :=
  match op with OpFailCheck _ _ i => streq i id | _ => false end.
Definition ends_report (id : cstr) (op : wq_op) (s : SharedQueue) : bool :=
  match op with
  | OpFailUpdate call _ _ => match sq_failing s !! call with Some (_, i, _) => streq i id | None => false end
  | _ => false
  end.

(** How an operation other than its removal changes the row of an item: the
    attempts count the claims, and only a report of failure makes it pending. *)
Record row_after (q : WorkQueue) (op : wq_op) (s : SharedQueue) (r r' : WorkItemRow) : Prop := {
  after_id : row_id r' = row_id r;
  after_max : row_max_attempts r' = row_max_attempts r;
  after_attempts : row_attempt_count r' =
    row_attempt_count r + if decide (wq_claimed q op s = Some (row_id r)) then 1 else 0;
  after_pending : ends_report (row_id r) op s = false -> row_status r <> 0 -> row_status r' <> 0;
  after_claimed : wq_claimed q op s = Some (row_id r) -> row_status r = 0 /\ row_status r' = 1
}.

Lemma row_after_same q op s r : wq_claimed q op s <> Some (row_id r) -> row_after q op s r r.
Proof using. intros H. split; try done. rewrite decide_False by done. lia. Qed.

Lemma update_keeps_row (p : WorkItemRow -> bool) f rows r :
  r ∈ rows -> (if p r then f r else r) ∈ update_where p f rows.
Proof using. intros Hr. apply elem_of_update. by exists r. Qed.

Lemma claim_row_after q st alloc now w s r :
  items_ok (sq_rows s) -> r ∈ sq_rows s ->
  exists r', r' ∈ sq_rows (wq_apply q (OpClaim st alloc now w) s) /\ row_after q (OpClaim st alloc now w) s r r'.
Proof using SS.
  intros Hok Hr. destruct (decide (st = PrepareFails \/ st = StepFails 0)) as [Hst|Hst].
  { exists r. split; [by destruct Hst as [-> | ->]|]. apply row_after_same. by destruct Hst as [-> | ->]. }
  assert (wq_claimed q (OpClaim st alloc now w) s = row_id <$> oldest_pending q (sq_rows s)) as Hc
    by (destruct st as [|[]|]; naive_solver).
  destruct (oldest_pending q (sq_rows s)) as [o|] eqn:E.
  2: { exists r. split; [|by apply row_after_same; rewrite Hc].
       cbn. unfold work_queue_claim. rewrite E. by destruct st as [|[]|]. }
  assert (sq_rows (wq_apply q (OpClaim st alloc now w) s) = update_where (same_id o) (claim_row now w) (sq_rows s)) as ->.
  { cbn. unfold work_queue_claim. rewrite E. destruct st as [|[]|]; naive_solver. }
  apply oldest_pending_Some in E as (Ho & [_ Hp]%is_pending_true & _).
  exists (if same_id o r then claim_row now w r else r). split; [by apply update_keeps_row|].
  destruct (same_id o r) eqn:Es.
  - apply same_id_true, (items_ok_unique (sq_rows s)) in Es as <-; try done.
    split; try done.
    by rewrite decide_True by (by rewrite Hc).
  - apply row_after_same. rewrite Hc. cbn. intros [= Heq]. apply same_id_true in Heq. congruence.
Qed.

Lemma item_row_after q op s r :
  items_ok (sq_rows s) -> r ∈ sq_rows s -> removes (row_id r) op = false ->
  exists r', r' ∈ sq_rows (wq_apply q op s) /\ row_after q op s r r'.
Proof using SS.
  intros Hok Hr Hrm. destruct op as [st now uuid task ctx max|st alloc now w|st now i res|call st i|call st err|st i].
  - exists r. split; [|by apply row_after_same]. cbn. unfold work_queue_enqueue. destruct uuid; [|done].
    destruct st; try done. destruct (insert_row _ _ _) eqn:E; [|done].
    apply insert_row_Some in E as [_ ->]. cbn. rewrite elem_of_app. by left.
  - by apply claim_row_after.
  - destruct st; try (exists r; split; [done|by apply row_after_same]).
    eexists. split; [by apply update_keeps_row|]. case_match; [|by apply row_after_same].
    split; try done. rewrite decide_False by done. cbn. lia.
  - exists r. split; [done|by apply row_after_same].
  - cbn. destruct (sq_failing s !! call) as [[[q' i] n]|] eqn:E; [|exists r; split; [done|by apply row_after_same]].
    destruct st; try (exists r; split; [done|by apply row_after_same]).
    eexists. split; [by apply update_keeps_row|].
    destruct (is_item q' i r) eqn:Ei; [|by apply row_after_same].
    split; try done; [rewrite decide_False by done; cbn; lia|]. apply is_item_true in Ei as [<- _]. cbn. by rewrite E, streq_refl.
  - cbn in Hrm. destruct st; try (exists r; split; [done|by apply row_after_same]).
    exists r. split; [|by apply row_after_same]. apply elem_of_delete. split; [done|].
    apply not_true_is_false. intros [Hi _]%is_item_true. subst. by rewrite streq_refl in Hrm.
Qed.

(** The number of times an id was claimed. *)
Definition claims_of (id : cstr) (trace : list (option cstr)) : Z :=
  Z.of_nat (length (List.filter (fun c => bool_decide (c = Some id)) trace)).

Lemma claims_bounded id ops s r :
  shared_ok s -> Forall (fun o => op_int o.2 /\ removes id o.2 = false) ops -> run_undisturbed ops s ->
  r ∈ sq_rows s -> row_id r = id ->
  claims_of id (wq_run ops s).1 <= row_max_attempts r - row_attempt_count r.
Proof using SS.
  intros Hok Hops. revert s r Hok. induction Hops as [|[q op] ops [Hint Hrm] _ IH];
    intros s r Hok Hun Hr Hid; cbn.
  - pose proof (row_ok_attempts r (items_ok_row _ _ (shared_rows s Hok) Hr)). unfold claims_of. cbn. lia.
  - cbn in Hrm, Hun. destruct Hun as [Hun Huns]. subst id.
    destruct (item_row_after q op s r (shared_rows s Hok) Hr Hrm) as (r' & Hr' & [E1 E2 E3 _ _]).
    specialize (IH _ r' (wq_apply_ok q op s Hint Hun Hok) Huns Hr' E1). rewrite E2, E3 in IH.
    destruct (wq_run ops (wq_apply q op s)) as [trace s'] eqn:E. cbn in *.
    unfold claims_of in *. cbn [List.filter].
    case_decide as Hc; [rewrite bool_decide_true by done|rewrite bool_decide_false by done]; cbn [length]; lia.
Qed.

(** C28: Bounded retries: whatever statements the processes that share the table
    run, in any order, and whichever of them fail, an item that nobody removes is
    claimed at most as many times as it has attempts left, a claim whose answer is
    lost included; provided that no item is claimed, or entered anew, between the
    two statements of a report of its failure. *)
Theorem claims_within_max_attempts id ops s r :
  shared_ok s -> r ∈ sq_rows s -> row_id r = id ->
  Forall (fun o => op_int o.2 /\ removes id o.2 = false) ops -> run_undisturbed ops s ->
  claims_of id (wq_run ops s).1 <= row_max_attempts r - row_attempt_count r.
Proof using SS. intros. by apply claims_bounded. Qed.

Lemma not_pending_not_claimed id ops s r :
  shared_ok s -> settled id s ->
  Forall (fun o => op_int o.2 /\ removes id o.2 = false /\ starts_report id o.2 = false) ops -> run_undisturbed ops s ->
  r ∈ sq_rows s -> row_id r = id -> row_status r <> 0 -> Some id ∉ (wq_run ops s).1.
Proof using SS.
  intros Hok Hset Hops. revert s r Hok Hset. induction Hops as [|[q op] ops (Hint & Hrm & Hf) _ IH];
    intros s r Hok Hset Hun Hr Hid Hs; cbn; [apply not_elem_of_nil|].
  cbn in Hrm, Hf, Hun. destruct Hun as [Hun Huns]. subst id.
  destruct (item_row_after q op s r (shared_rows s Hok) Hr Hrm) as (r' & Hr' & [E1 _ _ E4 E5]).
  assert (ends_report (row_id r) op s = false) as He.
  { unfold ends_report. destruct op as [| | | |call st err|]; try done. destruct (sq_failing s !! call) as [[[q' i] n]|] eqn:E; [|done].
    apply streq_false. intros ->. by apply Hset in E. }
  assert (settled (row_id r) (wq_apply q op s)) as Hset'.
  { intros call' q' n'. destruct op as [| | |call st i|call st err|]; cbn; try apply Hset.
    - destruct (fail_check _ _ _ _); [|intros [_ Hc]%lookup_delete_Some; by apply Hset in Hc].
      intros [[_ [= _ -> _]]|[_ Hc]]%lookup_insert_Some; [|by apply Hset in Hc].
      cbn in Hf. by rewrite streq_refl in Hf.
    - destruct (sq_failing s !! call) as [[[q'' i] n]|]; [|apply Hset]. cbn.
      intros [_ Hc]%lookup_delete_Some. by apply Hset in Hc. }
  specialize (IH _ r' (wq_apply_ok q op s Hint Hun Hok) Hset' Huns Hr' E1 (E4 He Hs)).
  destruct (wq_run ops (wq_apply q op s)) as [trace rows']. cbn in *.
  rewrite elem_of_cons. intros [E|?]; [|done]. symmetry in E. by apply E5 in E as [? _].
Qed.

(** Exclusive claims: from the moment an item is claimed, and until some
    process reports its failure or removes it, no other claim gets it. *)
Theorem claim_is_exclusive q op id ops s :
  shared_ok s -> op_int op -> undisturbed q op s -> wq_claimed q op s = Some id ->
  Forall (fun o => op_int o.2 /\ removes id o.2 = false /\ starts_report id o.2 = false) ops ->
  run_undisturbed ops (wq_apply q op s) ->
  Some id ∉ (wq_run ops (wq_apply q op s)).1.
Proof using SS.
  intros Hok Hint Hun Hc Hops Huns. destruct op as [|st alloc now w| | | |]; try done.
  assert (exists r, r ∈ sq_rows s /\ row_id r = id) as (r & Hr & <-).
  { destruct (oldest_pending q (sq_rows s)) as [r|] eqn:E.
    - exists r. split; [by apply oldest_pending_Some in E as [Hr _]|].
      cbn in Hc. rewrite E in Hc. by destruct st as [|[]|]; simplify_eq/=.
    - cbn in Hc. rewrite E in Hc. by destruct st as [|[]|]. }
  destruct (item_row_after q (OpClaim st alloc now w) s r (shared_rows s Hok) Hr eq_refl) as (r' & Hr' & [E1 _ _ _ E5]).
  eapply not_pending_not_claimed; try done; [by apply wq_apply_ok|by apply Hun|].
  destruct (E5 Hc) as [_ ->]. done.
Qed.

(** First in, first out: when its statement runs, a claim answers NULL
    exactly when the queue has nothing pending; otherwise it hands out a pending
    row with the least creation time, marked as assigned to the worker with one
    attempt more, and no other row changes. *)
Theorem claim_takes_oldest now q w rows :
  items_ok rows ->
  let '(item, rows') := work_queue_claim StmtOk true now q w rows in
  match item with
  | None => rows' = rows /\ work_queue_pending_count StmtOk q rows = 0
  | Some item => exists r,
      r ∈ rows /\ row_queue_name r = q /\ row_status r = 0 /\
      (forall r', r' ∈ rows -> row_queue_name r' = q -> row_status r' = 0 ->
         row_created_at r <= row_created_at r') /\
      wi_id item = take 39 (row_id r) /\ wi_status item = WORK_ITEM_ASSIGNED /\
      wi_attempt_count item = row_attempt_count r + 1 /\ wi_assigned_to item = take 63 w /\
      rows' = (fun x => if decide (x = r) then claim_row now w r else x) <$> rows
  end.
Proof using SS.
  intros Hok. unfold work_queue_claim. destruct (oldest_pending q rows) as [r|] eqn:E.
  - apply oldest_pending_Some in E as (Hr & Hp & Hmin). exists r.
    pose proof Hp as [Hq Hs]%is_pending_true. pose proof (items_ok_row _ _ Hok Hr) as Hrow.
    split_and!; try done.
    + intros r' H1 H2 H3. apply Hmin; [done|]. by apply is_pending_true.
    + cbn. unfold column_int. apply wrap32_small. pose proof (row_ok_pending r Hrow Hs). pose proof (row_ok_max r Hrow). pose proof (row_ok_attempts r Hrow). lia.
    + apply map_ext_in. intros x Hx%list_elem_of_In. case_decide as Hd.
      * subst x. by rewrite (proj2 (same_id_true r r) eq_refl).
      * destruct (same_id r x) eqn:Es; [|done]. apply same_id_true, (items_ok_unique rows) in Es; done.
  - split; [done|]. unfold work_queue_pending_count. rewrite oldest_pending_None in E.
    by rewrite (proj2 (count_where_zero _ _) E).
Qed.
End Claims.

(** ** Witnesses *)

Module SharedExamples.
Export WorkQueueExamples.
Definition shared0 : SharedQueue := mkSharedQueue rows0 ∅.
Definition claim : wq_op := OpClaim StmtOk true 30 (cs "w1").
Definition check (call : nat) : wq_op := OpFailCheck call StmtOk (cs "a").
Definition update (call : nat) : wq_op := OpFailUpdate call StmtOk None.
Definition ops : list (WorkQueue * wq_op) :=
  [(q, claim); (q, check 1); (q, update 1); (q, claim); (q, check 2); (q, update 2); (q, claim); (q, claim)].

Lemma shared0_ok : shared_ok shared0.
Proof. apply shared_ok_start, rows0_ok. Qed.

(** The older item is claimed twice, then given up. *)
Example ops_trace :
  (wq_run ops shared0).1 = [Some (cs "a"); None; None; Some (cs "a"); None; None; Some (cs "b"); None].
Proof. vm_compute. reflexivity. Qed.

Lemma settled_map id s : map_Forall (fun _ e => e.1.2 <> id) (sq_failing s) -> settled id s.
Proof. intros H call q n Hc. by apply H in Hc. Qed.

Ltac undisturbed_run :=
  repeat split; try done; intros id Hid; vm_compute in Hid; try discriminate; injection Hid as <-; apply settled_map;
  apply (bool_decide_eq_true_1 _); vm_compute; reflexivity.

Lemma ops_undisturbed : run_undisturbed ops shared0.
Proof. undisturbed_run. Qed.

(** Two processes report the same failure, and the item is claimed before the
    second one writes: with two attempts it is claimed three times. *)
Definition stale_ops : list (WorkQueue * wq_op) :=
  [(q, claim); (q, check 1); (q, check 2); (q, update 1); (q, claim); (q, update 2); (q, claim)].
End SharedExamples.

(** A report that another one has overtaken makes an item with no attempts left
    pending again. *)
Lemma stale_report_exceeds_attempts :
  (wq_run SharedExamples.stale_ops SharedExamples.shared0).1 =
    [Some (cs "a"); None; None; None; Some (cs "a"); None; Some (cs "a")] /\
  row_max_attempts (WorkQueueExamples.item "a" 10) = 2.
Proof. split; vm_compute; reflexivity. Qed.

Lemma work_queue_refines_witness :
  shared_ok SharedExamples.shared0 /\
  queue_step WorkQueueExamples.q SharedExamples.claim (queues_of SharedExamples.shared0)
    (queues_of (wq_apply WorkQueueExamples.q SharedExamples.claim SharedExamples.shared0)).
Proof.
  split; [exact SharedExamples.shared0_ok|].
  apply (work_queue_refines WorkQueueExamples.q SharedExamples.claim SharedExamples.shared0 SharedExamples.shared0_ok I).
  apply SharedExamples.ops_undisturbed.
Defined.

Lemma claims_within_max_attempts_witness :
  claims_of (cs "a") (wq_run SharedExamples.ops SharedExamples.shared0).1 <= 2 /\
  claims_of (cs "a") (wq_run SharedExamples.ops SharedExamples.shared0).1 = 2.
Proof.
  split; [|reflexivity].
  refine (claims_within_max_attempts (cs "a") SharedExamples.ops SharedExamples.shared0
            (WorkQueueExamples.item "a" 10) SharedExamples.shared0_ok _ eq_refl _ SharedExamples.ops_undisturbed).
  - right. left.
  - repeat constructor.
Defined.

Lemma claim_is_exclusive_witness :
  Some (cs "a") ∉ (wq_run [(WorkQueueExamples.q, SharedExamples.claim); (WorkQueueExamples.q, SharedExamples.claim)]
    (wq_apply WorkQueueExamples.q SharedExamples.claim SharedExamples.shared0)).1.
Proof.
  apply (claim_is_exclusive WorkQueueExamples.q SharedExamples.claim (cs "a") _ _ SharedExamples.shared0_ok I).
  - apply SharedExamples.ops_undisturbed.
  - reflexivity.
  - repeat constructor.
  - SharedExamples.undisturbed_run.
Defined.

Lemma claim_takes_oldest_witness :
  exists r, r ∈ WorkQueueExamples.rows0 /\ row_id r = cs "a" /\ row_status r = 0.
Proof.
  pose proof (claim_takes_oldest 30 WorkQueueExamples.q (cs "w1") WorkQueueExamples.rows0
                WorkQueueExamples.rows0_ok) as H.
  destruct (work_queue_claim _ _ _ _ _ _) as [item rows'] eqn:E. vm_compute in E.
  injection E as <- <-. destruct H as (r & Hr & _ & Hs & Hmin & _). exists r. split_and!; try done.
  apply elem_of_cons in Hr as [-> | [-> | H%not_elem_of_nil]%elem_of_cons]; [|reflexivity|done].
  specialize (Hmin (WorkQueueExamples.item "a" 10)). cbn in Hmin. exfalso. apply (Zle_not_lt _ _ (Hmin ltac:(right; left) eq_refl eq_refl)). reflexivity.
Defined.
