(* ===== verification/MessageStore.v ===== *)
(** * Messages between agents (lib/ipc/message_store.c)

    The four tables of messages.db and the operations of the store, each
    statement with its outcome. The rows that other processes write between two
    statements of one operation are a function [between] on the tables. Foreign
    keys are on, as the default configuration sets them. *)

From S2P Require Import Prelude CString Sql WorkQueue.
Local Open Scope bool_scope.
Local Open Scope Z_scope.

(** ** The tables *)

Record DirectRow := mkDirectRow {
  dr_rowid : Z;
  dr_id : cstr;
  dr_sender : cstr;
  dr_recipient : cstr;
  dr_content : cstr;
  dr_created_at : Z;
  dr_read_at : option Z;
  dr_expires_at : option Z
}.

Record ChannelRow := mkChannelRow {
  ch_id : cstr;
  ch_description : option cstr;
  ch_created_by : cstr;
  ch_created_at : Z;
  ch_is_persistent : Z
}.

Record SubscriptionRow := mkSubscriptionRow {
  su_channel : cstr;
  su_agent : cstr;
  su_subscribed_at : Z;
  su_last_read_at : Z
}.

Record ChannelMessageRow := mkChannelMessageRow {
  cm_rowid : Z;
  cm_id : cstr;
  cm_channel : cstr;
  cm_sender : cstr;
  cm_content : cstr;
  cm_created_at : Z
}.

Record MessageDb := mkMessageDb {
  direct_messages : list DirectRow;
  channels : list ChannelRow;
  channel_subscriptions : list SubscriptionRow;
  channel_messages : list ChannelMessageRow
}.

Definition with_direct (l : list DirectRow) (d : MessageDb) : MessageDb :=
  mkMessageDb l (channels d) (channel_subscriptions d) (channel_messages d).
Definition with_channels (l : list ChannelRow) (d : MessageDb) : MessageDb :=
  mkMessageDb (direct_messages d) l (channel_subscriptions d) (channel_messages d).
Definition with_subscriptions (l : list SubscriptionRow) (d : MessageDb) : MessageDb :=
  mkMessageDb (direct_messages d) (channels d) l (channel_messages d).
Definition with_messages (l : list ChannelMessageRow) (d : MessageDb) : MessageDb :=
  mkMessageDb (direct_messages d) (channels d) (channel_subscriptions d) l.

(** The key SQLite gives a new row of a table without AUTOINCREMENT: one more
    than the largest key of the table. *)
Class Rowids := new_rowid : list Z -> Z.

Definition max_key (keys : list Z) : Z := foldr Z.max 0 keys.

Class RowidsSpec (K : Rowids) : Prop :=
  new_rowid_next keys : max_key keys < 2 ^ 63 - 1 -> new_rowid keys = max_key keys + 1.

#[export] Instance RefRowids : Rowids := fun keys => max_key keys + 1.

#[export] Instance RefRowidsSpec : RowidsSpec RefRowids.
Proof. by intros keys _. Qed.

(** ** The structs *)

Record DirectMessage := mkDirectMessage {
  m_id : cstr;
  m_sender_id : cstr;
  m_recipient_id : cstr;
  m_content : option cstr;
  m_created_at : Z;
  m_read_at : Z;
  m_expires_at : Z
}.

Record Channel := mkChannel {
  c_id : cstr;
  c_description : option cstr;
  c_creator_id : cstr;
  c_created_at : Z;
  c_is_persistent : Z
}.

Record ChannelMessage := mkChannelMessage {
  cmsg_id : cstr;
  cmsg_channel_id : cstr;
  cmsg_sender_id : cstr;
  cmsg_content : option cstr;
  cmsg_created_at : Z
}.

Record PendingMessage := mkPendingMessage {
  p_id : cstr;
  p_content : option cstr;
  p_from : option cstr;
  p_timestamp : Z
}.

(** The mappers; the allocations they make succeed. *)
Definition map_direct_message (r : DirectRow) : option DirectMessage :=
  Some (mkDirectMessage (char_array 40 (Some (dr_id r))) (char_array 64 (Some (dr_sender r)))
    (char_array 64 (Some (dr_recipient r))) (Some (dr_content r)) (dr_created_at r)
    (default 0 (dr_read_at r)) (default 0 (dr_expires_at r))).

Definition map_channel (r : ChannelRow) : option Channel :=
  Some (mkChannel (char_array 64 (Some (ch_id r))) (ch_description r) (char_array 64 (Some (ch_created_by r)))
    (ch_created_at r) (column_int (ch_is_persistent r))).

Definition map_channel_message (r : ChannelMessageRow) : option ChannelMessage :=
  Some (mkChannelMessage (char_array 40 (Some (cm_id r))) (char_array 64 (Some (cm_channel r)))
    (char_array 64 (Some (cm_sender r))) (Some (cm_content r)) (cm_created_at r)).

Definition map_pending_message (r : DirectRow) : option PendingMessage :=
  Some (mkPendingMessage (char_array 40 (Some (dr_id r))) (Some (dr_content r)) (Some (dr_sender r)) (dr_created_at r)).

(** LIMIT: a negative limit is none. *)
Definition limited {A} (n : Z) (l : list A) : list A := if n <? 0 then l else take (Z.to_nat n) l.

(** [max_count > 0 ? (int)max_count : 100] *)
Definition limit_of (max_count : Z) : Z := if 0 <? max_count then wrap32 max_count else 100.

Section Store.
Context {DB : Sqlite} {K : Rowids}.
Implicit Types (st : Stmt) (d : MessageDb) (between : MessageDb -> MessageDb).

(** ** Direct messages *)

Definition same_direct (a b : DirectRow) : bool := streq (dr_id a) (dr_id b).

Definition message_send_direct st (now : Z) (uuid : option cstr) (sender_id recipient_id content : cstr)
    (ttl_seconds : Z) d : Z * option cstr * MessageDb :=
  match uuid with
  | None => (-1, None, d)
  | Some msg_id =>
      match st with
      | StmtOk =>
          let row := mkDirectRow (new_rowid (dr_rowid <$> direct_messages d)) msg_id sender_id recipient_id content now
                       None (if 0 <? ttl_seconds then Some (now + ttl_seconds * 1000) else None) in
          match insert_row same_direct row (direct_messages d) with
          | Some rows => (0, Some msg_id, with_direct rows d)
          | None => (-1, None, d)
          end
      | _ => (-1, None, d)
      end
  end.

(** recipient_id = ? AND read_at IS NULL *)
Definition unread_for (agent_id : cstr) (r : DirectRow) : bool :=
  streq (dr_recipient r) agent_id && bool_decide (dr_read_at r = None).

Definition set_read (now : Z) (r : DirectRow) : DirectRow :=
  mkDirectRow (dr_rowid r) (dr_id r) (dr_sender r) (dr_recipient r) (dr_content r) (dr_created_at r) (Some now)
    (dr_expires_at r).

(** The unread messages in the order of their keys. *)
Definition unread (agent_id : cstr) d : list DirectRow :=
  order_by dr_rowid (select_where (unread_for agent_id) (direct_messages d)).

(** The list is empty for the NULL of the code. *)
Definition message_receive_direct st st' between (now : Z) (agent_id : cstr) (max_count : Z) d
  : list DirectMessage * MessageDb :=
  match sqlite_dal_query_list_p st map_direct_message (limited (limit_of max_count) (unread agent_id d)) with
  | (0, (_ :: _) as items) =>
      let d := between d in
      (items, with_direct (sqlite_dal_exec_p st' (unread_for agent_id) (set_read now) (direct_messages d)).2 d)
  | _ => ([], d)
  end.

Definition message_has_pending st (agent_id : cstr) d : Z :=
  sqlite_dal_exists_p st (select_where (unread_for agent_id) (direct_messages d)).

Definition direct_with_id (id : cstr) (r : DirectRow) : bool := streq (dr_id r) id.

Definition message_get_direct st (message_id : cstr) d : option DirectMessage :=
  sqlite_dal_query_one_p st map_direct_message (select_where (direct_with_id message_id) (direct_messages d)).

Definition is_between (agent1 agent2 : cstr) (r : DirectRow) : bool :=
  (streq (dr_sender r) agent1 && streq (dr_recipient r) agent2)
  || (streq (dr_sender r) agent2 && streq (dr_recipient r) agent1).

(** (SELECT rowid .. WHERE id = ?): NULL, with which no comparison holds, when
    there is no such row. *)
Definition key_of_direct (id : cstr) d : option Z :=
  dr_rowid <$> head (select_where (direct_with_id id) (direct_messages d)).

Definition message_list_between st (agent1 agent2 : cstr) (after_id : option cstr) (limit : Z) d : list DirectMessage :=
  let rows := select_where (is_between agent1 agent2) (direct_messages d) in
  let rows := match after_id with
              | Some id =>
                  match key_of_direct id d with
                  | Some k => select_where (fun r => k <? dr_rowid r) rows
                  | None => []
                  end
              | None => rows
              end in
  (sqlite_dal_query_list_p st map_direct_message (limited (limit_of limit) (order_by dr_rowid rows))).2.

(** ORDER BY rowid DESC LIMIT n, then ASC. The result: messages, has_more. *)
Definition message_list_between_latest st (agent1 agent2 : cstr) (before_id : option cstr) (limit : Z) d
  : list DirectMessage * bool :=
  let rows := select_where (is_between agent1 agent2) (direct_messages d) in
  let rows := match before_id with
              | Some id =>
                  match key_of_direct id d with
                  | Some k => select_where (fun r => dr_rowid r <? k) rows
                  | None => []
                  end
              | None => rows
              end in
  let actual_limit := limit_of limit in
  let latest := limited (wrap32 (actual_limit + 1)) (order_by (fun r => - dr_rowid r) rows) in
  let items := (sqlite_dal_query_list_p st map_direct_message (order_by dr_rowid latest)).2 in
  match items with
  | [] => ([], false)
  | _ :: items' => if actual_limit <? wrap32 (Z.of_nat (length items)) then (items', true) else (items, false)
  end.

Definition message_peek_pending st (recipient : cstr) d : option PendingMessage :=
  sqlite_dal_query_one_p st map_pending_message (limited 1 (unread recipient d)).

(** id = ? AND read_at IS NULL *)
Definition unread_with_id (id : cstr) (r : DirectRow) : bool :=
  direct_with_id id r && bool_decide (dr_read_at r = None).

Definition message_consume st (now : Z) (message_id : cstr) d : Z * MessageDb :=
  let '(changed, rows) := sqlite_dal_exec_p st (unread_with_id message_id) (set_read now) (direct_messages d) in
  (if 0 <? changed then 0 else -1, with_direct rows d).

(** ** Channels *)

Definition channel_named (name : cstr) (r : ChannelRow) : bool := streq (ch_id r) name.
Definition same_channel (a b : ChannelRow) : bool := streq (ch_id a) (ch_id b).

Definition channel_create st (now : Z) (channel_name : cstr) (description : option cstr) (creator_id : cstr)
    (is_persistent : bool) d : Z * MessageDb :=
  match st with
  | StmtOk =>
      match insert_row same_channel
              (mkChannelRow channel_name description creator_id now (if is_persistent then 1 else 0)) (channels d) with
      | Some rows => (0, with_channels rows d)
      | None => (-1, d)
      end
  | _ => (-1, d)
  end.

Definition channel_get st (channel_name : cstr) d : option Channel :=
  sqlite_dal_query_one_p st map_channel (select_where (channel_named channel_name) (channels d)).

Definition channel_list st d : list Channel :=
  (sqlite_dal_query_list_p st map_channel (order_by ch_created_at (channels d))).2.

(** ON DELETE CASCADE *)
Definition channel_delete st (channel_name : cstr) d : Z * MessageDb :=
  match st with
  | StmtOk =>
      let deleted := count_where (channel_named channel_name) (channels d) in
      (if 0 <? deleted then 0 else -1,
       if 0 <? deleted then
         mkMessageDb (direct_messages d) (delete_where (channel_named channel_name) (channels d))
           (delete_where (fun r => streq (su_channel r) channel_name) (channel_subscriptions d))
           (delete_where (fun r => streq (cm_channel r) channel_name) (channel_messages d))
       else d)
  | _ => (-1, d)
  end.

(** The foreign key of subscriptions and messages. *)
Definition channel_exists (channel_name : cstr) d : bool := existsb (channel_named channel_name) (channels d).

Definition subscription_of (channel_name agent_id : cstr) (r : SubscriptionRow) : bool :=
  streq (su_channel r) channel_name && streq (su_agent r) agent_id.

(** INSERT OR REPLACE *)
Definition channel_subscribe st (now : Z) (channel_name agent_id : cstr) d : Z * MessageDb :=
  match st with
  | StmtOk =>
      if channel_exists channel_name d then
        (0, with_subscriptions
              (delete_where (subscription_of channel_name agent_id) (channel_subscriptions d)
               ++ [mkSubscriptionRow channel_name agent_id now 0]) d)
      else (-1, d)
  | _ => (-1, d)
  end.

Definition channel_unsubscribe st (channel_name agent_id : cstr) d : Z * MessageDb :=
  match st with
  | StmtOk => (0, with_subscriptions (delete_where (subscription_of channel_name agent_id) (channel_subscriptions d)) d)
  | _ => (-1, d)
  end.

Definition channel_is_subscribed st (channel_name agent_id : cstr) d : Z :=
  sqlite_dal_exists_p st (select_where (subscription_of channel_name agent_id) (channel_subscriptions d)).

Definition channel_get_subscribers st (channel_name : cstr) d : list cstr :=
  (sqlite_dal_query_list_p st (fun r => Some (su_agent r))
     (select_where (fun r => streq (su_channel r) channel_name) (channel_subscriptions d))).2.

Definition channel_get_agent_subscriptions st (agent_id : cstr) d : list cstr :=
  (sqlite_dal_query_list_p st (fun r => Some (su_channel r))
     (select_where (fun r => streq (su_agent r) agent_id) (channel_subscriptions d))).2.

Definition same_channel_message (a b : ChannelMessageRow) : bool := streq (cm_id a) (cm_id b).

Definition channel_publish st (now : Z) (uuid : option cstr) (channel_name sender_id content : cstr) d
  : Z * option cstr * MessageDb :=
  match uuid with
  | None => (-1, None, d)
  | Some msg_id =>
      match st with
      | StmtOk =>
          if channel_exists channel_name d then
            match insert_row same_channel_message
                    (mkChannelMessageRow (new_rowid (cm_rowid <$> channel_messages d)) msg_id channel_name sender_id
                       content now) (channel_messages d) with
            | Some rows => (0, Some msg_id, with_messages rows d)
            | None => (-1, None, d)
            end
          else (-1, None, d)
      | _ => (-1, None, d)
      end
  end.

(** The messages of the join that a subscription of the agent has not read. *)
Definition unread_by (s : SubscriptionRow) (m : ChannelMessageRow) : bool :=
  streq (cm_channel m) (su_channel s) && (su_last_read_at s <? cm_rowid m).

Definition joined (p : SubscriptionRow -> bool) d : list ChannelMessageRow :=
  flat_map (fun m => map (fun _ => m) (select_where (fun s => p s && unread_by s m) (channel_subscriptions d)))
    (channel_messages d).

Definition pending_in (channel_name agent_id : cstr) d : list ChannelMessageRow :=
  order_by cm_rowid (joined (subscription_of channel_name agent_id) d).

Definition of_agent (agent_id : cstr) (s : SubscriptionRow) : bool := streq (su_agent s) agent_id.

Definition pending_all (agent_id : cstr) d : list ChannelMessageRow := order_by cm_rowid (joined (of_agent agent_id) d).

Definition channel_has_pending st (agent_id : cstr) d : Z := sqlite_dal_exists_p st (joined (of_agent agent_id) d).

(** SELECT rowid .. WHERE id = ?; 0 when there is none. *)
Definition key_of_message st (id : cstr) d : Z :=
  default 0 (sqlite_dal_query_one_p st (fun r => Some (cm_rowid r))
               (select_where (fun r => streq (cm_id r) id) (channel_messages d))).

Definition set_last_read (k : Z) (s : SubscriptionRow) : SubscriptionRow :=
  mkSubscriptionRow (su_channel s) (su_agent s) (su_subscribed_at s) k.

(** The cursor of the subscriptions that satisfy [p] set to the last message. *)
Definition mark_read st st' (p : SubscriptionRow -> bool) (last : ChannelMessage) d : MessageDb :=
  let last_rowid := key_of_message st (cmsg_id last) d in
  if 0 <? last_rowid then
    with_subscriptions (sqlite_dal_exec_p st' p (set_last_read last_rowid) (channel_subscriptions d)).2 d
  else d.

Definition channel_receive st st' st'' between (channel_name agent_id : cstr) (max_count : Z) d
  : list ChannelMessage * MessageDb :=
  match sqlite_dal_query_list_p st map_channel_message
          (limited (limit_of max_count) (pending_in channel_name agent_id d)) with
  | (0, items) =>
      match last items with
      | Some l => (items, mark_read st' st'' (subscription_of channel_name agent_id) l (between d))
      | None => ([], d)
      end
  | _ => ([], d)
  end.

Definition channel_receive_all st st' st'' between (agent_id : cstr) (max_count : Z) d
  : list ChannelMessage * MessageDb :=
  match sqlite_dal_query_list_p st map_channel_message (limited (limit_of max_count) (pending_all agent_id d)) with
  | (0, items) =>
      match last items with
      | Some l => (items, mark_read st' st'' (of_agent agent_id) l (between d))
      | None => ([], d)
      end
  | _ => ([], d)
  end.

(** ** Cleanup *)

(** DELETE: the number of rows, or -1. *)
Definition delete_direct st (p : DirectRow -> bool) d : Z * MessageDb :=
  match st with
  | StmtOk => (count_where p (direct_messages d), with_direct (delete_where p (direct_messages d)) d)
  | _ => (-1, d)
  end.

Definition message_cleanup_read st (now grace_period_seconds : Z) d : Z * MessageDb :=
  let limit := now - grace_period_seconds * 1000 in
  delete_direct st (fun r => match dr_read_at r with Some t => t <? limit | None => false end) d.

Definition message_cleanup_expired st (now : Z) d : Z * MessageDb :=
  delete_direct st (fun r => match dr_expires_at r with Some t => t <? now | None => false end) d.

(** In one transaction, which commits whatever the two deletions answered. What
    others see when the commit fails is the tables before. *)
Definition message_cleanup_agent (begin_ok : bool) st st' (commit_ok : bool) (agent_id : cstr) d : Z * MessageDb :=
  if negb begin_ok then (-1, d)
  else
    let d1 := (delete_direct st (fun r => streq (dr_sender r) agent_id || streq (dr_recipient r) agent_id) d).2 in
    let d2 := match st' with
              | StmtOk => with_subscriptions (delete_where (of_agent agent_id) (channel_subscriptions d1)) d1
              | _ => d1
              end in
    if commit_ok then (0, d2) else (-1, d).

Definition message_cleanup_channel_messages st (now max_age_seconds : Z) d : Z * MessageDb :=
  let limit := now - max_age_seconds * 1000 in
  let p m := existsb (fun c => streq (ch_id c) (cm_channel m) && (ch_is_persistent c =? 0)) (channels d)
             && (cm_created_at m <? limit) in
  match st with
  | StmtOk => (count_where p (channel_messages d), with_messages (delete_where p (channel_messages d)) d)
  | _ => (-1, d)
  end.
End Store.
