(* ===== verification/Subagents.v ===== *)
(** * Subagents (lib/tools/subagent_tool.c, subagent_process.c)

    The manager of the child processes that work on delegated tasks: starting
    them, reading their output, noticing their end, telling the parent agent, and
    the tools subagent and subagent_status. What the system answers (time, fork,
    pipes, waitpid) is an argument of each operation; what it is asked is kept in
    a log. Registration, failing allocations and the environment of the child are
    not modelled. *)

From S2P Require Import Prelude CString Regex RateLimiter Json ToolArgs ToolBatch ApprovalGate ApprovalErrors Sql MessageStore SubagentApproval.
Local Open Scope Z_scope.
Local Open Scope bool_scope.

(** ** Data *)

Definition SUBAGENT_MAX_DEFAULT : Z := 5.
Definition SUBAGENT_TIMEOUT_DEFAULT : Z := 300.
Definition SUBAGENT_MAX_OUTPUT_LENGTH : nat := Z.to_nat 131072.
Definition SUBAGENT_HARD_CAP : Z := 20.
Definition SUBAGENT_MAX_TIMEOUT_SEC : Z := 3600.

Inductive SubagentStatus :=
| SUBAGENT_STATUS_PENDING
| SUBAGENT_STATUS_RUNNING
| SUBAGENT_STATUS_COMPLETED
| SUBAGENT_STATUS_FAILED
| SUBAGENT_STATUS_TIMEOUT.

#[export] Instance SubagentStatus_eq_dec : EqDecision SubagentStatus.
Proof. solve_decision. Defined.

Definition subagent_status_to_string (status : SubagentStatus) : cstr :=
  match status with
  | SUBAGENT_STATUS_PENDING => cs "pending"
  | SUBAGENT_STATUS_RUNNING => cs "running"
  | SUBAGENT_STATUS_COMPLETED => cs "completed"
  | SUBAGENT_STATUS_FAILED => cs "failed"
  | SUBAGENT_STATUS_TIMEOUT => cs "timeout"
  end.

(** [sa_output]: the bytes read; [None] is NULL. A descriptor that is closed is -1. *)
Record Subagent := mkSubagent {
  sa_id : cstr;
  sa_pid : Z;
  sa_status : SubagentStatus;
  sa_stdout : Z;
  sa_request_fd : Z;
  sa_response_fd : Z;
  sa_task : cstr;
  sa_context : option cstr;
  sa_output : option cstr;
  sa_result : option cstr;
  sa_error : option cstr;
  sa_start_time : Z
}.

Definition with_output (out : option cstr) (s : Subagent) : Subagent :=
  mkSubagent (sa_id s) (sa_pid s) (sa_status s) (sa_stdout s) (sa_request_fd s) (sa_response_fd s) (sa_task s) (sa_context s)
    out (sa_result s) (sa_error s) (sa_start_time s).
Definition with_stdout (fd : Z) (s : Subagent) : Subagent :=
  mkSubagent (sa_id s) (sa_pid s) (sa_status s) fd (sa_request_fd s) (sa_response_fd s) (sa_task s) (sa_context s)
    (sa_output s) (sa_result s) (sa_error s) (sa_start_time s).
Definition with_channel (request_fd response_fd : Z) (s : Subagent) : Subagent :=
  mkSubagent (sa_id s) (sa_pid s) (sa_status s) (sa_stdout s) request_fd response_fd (sa_task s) (sa_context s)
    (sa_output s) (sa_result s) (sa_error s) (sa_start_time s).
(** The end: the status with the result or the error. *)
Definition ended (status : SubagentStatus) (result error : option cstr) (s : Subagent) : Subagent :=
  mkSubagent (sa_id s) (sa_pid s) status (sa_stdout s) (sa_request_fd s) (sa_response_fd s) (sa_task s) (sa_context s)
    (sa_output s) result error (sa_start_time s).

(** What one read of the pipe answers: one to 4095 bytes, EAGAIN, the end, or
    another error. *)
Inductive PipeRead := PipeData (bytes : cstr) | PipeEmpty | PipeEnd | PipeError.

Inductive ProcStatus := Exited (code : Z) | KilledBy (sig : Z) | OtherEnd.

#[export] Instance ProcStatus_eq_dec : EqDecision ProcStatus.
Proof. solve_decision. Defined.

(** waitpid: 0, the pid, -1 with ECHILD, -1 otherwise. *)
Inductive ChildWait := StillRunning | Reaped (status : ProcStatus) | NoChild | WaitFails.

Inductive Sig := SIGTERM | SIGKILL.

(** What is done to the child at an index of the array. [Waited]: waitpid collected
    it, or it was awaited after SIGKILL; [WaitFailed]: the answer of waitpid that
    ended the subagent was an error; [Told]: the message to the parent was stored;
    [NotTold]: storing it failed. Looks that leave the subagent running (its child
    runs, or waitpid knows no such child) are not kept. *)
Inductive ProcEvent :=
| Spawned (i : nat) (argv : list cstr)
| Signalled (i : nat) (sig : Sig)
| Waited (i : nat)
| WaitFailed (i : nat)
| Told (i : nat)
| NotTold (i : nat).

Definition event_index (e : ProcEvent) : nat :=
  match e with Spawned i _ | Signalled i _ | Waited i | WaitFailed i | Told i | NotTold i => i end.

(** Before the NUL, or everything. *)
Definition c_string (b : cstr) : cstr := default b (before_nul b).

(** ** The id and the channel of a subagent *)

Definition hex_char (n : N) : ascii := ascii_of_N (if (n <? 10)%N then 48 + n else 87 + n)%N.

(** The hexadecimal digits of eight random bytes. *)
Definition generate_subagent_id (random_bytes : list ascii) : cstr :=
  flat_map (fun b => [hex_char (N_of_ascii b / 16); hex_char (N_of_ascii b mod 16)]) random_bytes.

(** strtol with base 10 for 64-bit long: the value, whether errno was set, the rest. *)
Fixpoint strtol_digits (acc : Z) (s : cstr) : Z * cstr :=
  match s with
  | c :: s' => if is_digit c then strtol_digits (10 * acc + (byte_of c - 48)) s' else (acc, s)
  | [] => (acc, [])
  end.

Fixpoint after_spaces (s : cstr) : cstr :=
  match s with c :: s' => if isspace c then after_spaces s' else s | [] => [] end.

Definition strtol (s : cstr) : Z * bool * cstr :=
  let '(negative, t) :=
    match after_spaces s with
    | c :: t => if Ascii.eqb c "-"%char then (true, t) else if Ascii.eqb c "+"%char then (false, t) else (false, c :: t)
    | [] => (false, [])
    end in
  match t with
  | c :: _ =>
      if is_digit c then
        let '(n, rest) := strtol_digits 0 t in
        let z := if negative : bool then - n else n in
        if z <? - 2 ^ 63 then (- 2 ^ 63, true, rest) else if 2 ^ 63 - 1 <? z then (2 ^ 63 - 1, true, rest) else (z, false, rest)
      else (0, false, s)
  | [] => (0, false, s)
  end.

Definition descriptor (s : cstr) : option Z :=
  match strtol s with
  | (z, false, []) => if (z <=? 2) || (2 ^ 31 - 1 <? z) then None else Some z
  | _ => None
  end.

Record ApprovalChannel := mkApprovalChannel { ac_request_fd : Z; ac_response_fd : Z; ac_subagent_pid : Z }.

(** The two variables of the environment; the channel set before is not freed. *)
Definition subagent_init_approval_channel (request_fd_str response_fd_str : option cstr) (pid : Z)
    (channel : option ApprovalChannel) : Z * option ApprovalChannel :=
  match request_fd_str ≫= descriptor, response_fd_str ≫= descriptor with
  | Some request_fd, Some response_fd => (0, Some (mkApprovalChannel request_fd response_fd pid))
  | _, _ => (-1, channel)
  end.

(** The descriptors that are closed. *)
Definition subagent_cleanup_approval_channel (channel : option ApprovalChannel) : list Z * option ApprovalChannel :=
  match channel with
  | Some ch => (List.filter (fun fd => 0 <=? fd) [ac_request_fd ch; ac_response_fd ch], None)
  | None => ([], None)
  end.

(** ** Reading the output *)

(** The bytes that still fit, with at most [SUBAGENT_MAX_OUTPUT_LENGTH] of them;
    [None]: there is no room, and the reading ends. *)
Definition append_output (out : option cstr) (bytes : cstr) : option cstr :=
  let old := default [] out in
  if (SUBAGENT_MAX_OUTPUT_LENGTH <? length old + length bytes)%nat then
    match (SUBAGENT_MAX_OUTPUT_LENGTH - length old)%nat with
    | O => None
    | room => Some (old ++ take room bytes)
    end
  else Some (old ++ bytes).

Inductive ReadEnding := EndOfReads | OutputFull | ReadFails | Again | NothingMore.

(** The loop of both functions; it ends with the answer that ends it, or without
    any more answers. *)
Fixpoint output_loop (out : option cstr) (reads : list PipeRead) : option cstr * Z * ReadEnding :=
  match reads with
  | [] => (out, 0, NothingMore)
  | PipeData bytes :: reads' =>
      match append_output out bytes with
      | None => (out, Z.of_nat (length bytes), OutputFull)
      | Some out' =>
          let '(out, n, ending) := output_loop (Some out') reads' in (out, Z.of_nat (length bytes) + n, ending)
      end
  | PipeEmpty :: _ => (out, 0, Again)
  | PipeEnd :: _ => (out, 0, EndOfReads)
  | PipeError :: _ => (out, 0, ReadFails)
  end.

(** The pipe is not blocking, so no more answers is EAGAIN. *)
Definition read_subagent_output_nonblocking (reads : list PipeRead) (sub : Subagent) : Z * Subagent :=
  if sa_stdout sub <=? 0 then (-1, sub)
  else
    let '(out, n, ending) := output_loop (sa_output sub) reads in
    (match ending with ReadFails => -1 | _ => n end, with_output out sub).

(** [None]: the read blocks for ever. EAGAIN is an error here. *)
Definition read_subagent_output (reads : list PipeRead) (sub : Subagent) : option (Z * Subagent) :=
  if sa_stdout sub <=? 0 then Some (-1, sub)
  else
    let '(out, _, ending) := output_loop (sa_output sub) reads in
    match ending with
    | EndOfReads | OutputFull => Some (0, with_stdout (-1) (with_output out sub))
    | ReadFails | Again => Some (-1, with_output out sub)
    | NothingMore => None
    end.

(** ** The end of a subagent *)

Definition exit_message (status : ProcStatus) : cstr :=
  match status with
  | Exited code => cs "Subagent exited with code " ++ int_text code
  | KilledBy sig => cs "Subagent killed by signal " ++ int_text sig
  | OtherEnd => cs "Subagent process failed"
  end.

Definition subagent_handle_process_exit (status : ProcStatus) (final : list PipeRead) (sub : Subagent) : option Subagent :=
  r ← read_subagent_output final sub;
  let sub := r.2 in
  match status with
  | Exited 0 => Some (with_output None (ended SUBAGENT_STATUS_COMPLETED (sa_output sub) (sa_error sub) sub))
  | _ =>
      let error :=
        match sa_output sub with
        | Some (c :: out) => exit_message status ++ cs ". Output: " ++ c_string (c :: out)
        | _ => exit_message status
        end in
      Some (with_output None (ended SUBAGENT_STATUS_FAILED (sa_result sub) (Some error) sub))
  end.

(** The statement and the times of one message. *)
Record TellEnv := mkTellEnv { te_now : Z; te_stmt : Stmt; te_now_ms : Z; te_uuid : option cstr }.

Section Manager.
Context {R : Regex} {J : CJson} {K : Rowids} (cb : ApprovalGateCallbacks) (out_of_range : Z -> Z).

(** The manager (the static pointer is never NULL here), the message store of the
    services, the agent's own id, and the log. *)
Record SubagentManager := mkManager {
  sm_subagents : list Subagent;
  sm_max_subagents : Z;
  sm_timeout_seconds : Z;
  sm_is_subagent_process : bool;
  sm_gate_config : option (ApprovalGateConfig R);
  sm_store : option MessageDb;
  sm_agent_id : option cstr;
  sm_log : list ProcEvent
}.
Implicit Types (m : SubagentManager) (sub : Subagent).

Definition with_subagents (l : list Subagent) m : SubagentManager :=
  mkManager l (sm_max_subagents m) (sm_timeout_seconds m) (sm_is_subagent_process m) (sm_gate_config m) (sm_store m)
    (sm_agent_id m) (sm_log m).
Definition set_gate (config : ApprovalGateConfig R) m : SubagentManager :=
  mkManager (sm_subagents m) (sm_max_subagents m) (sm_timeout_seconds m) (sm_is_subagent_process m) (Some config)
    (sm_store m) (sm_agent_id m) (sm_log m).
Definition with_store (db : MessageDb) m : SubagentManager :=
  mkManager (sm_subagents m) (sm_max_subagents m) (sm_timeout_seconds m) (sm_is_subagent_process m) (sm_gate_config m)
    (Some db) (sm_agent_id m) (sm_log m).
Definition logged (l : list ProcEvent) m : SubagentManager :=
  mkManager (sm_subagents m) (sm_max_subagents m) (sm_timeout_seconds m) (sm_is_subagent_process m) (sm_gate_config m)
    (sm_store m) (sm_agent_id m) (sm_log m ++ l).
Definition set_subagent (i : nat) sub m : SubagentManager := with_subagents (<[i := sub]> (sm_subagents m)) m.

Definition subagent_manager_init_with_config (max_subagents timeout_seconds : Z) (is_subagent : bool)
    (config : option (ApprovalGateConfig R)) (store : option MessageDb) (agent_id : option cstr) : SubagentManager :=
  let max_subagents := if max_subagents <? 1 then SUBAGENT_MAX_DEFAULT else max_subagents in
  let max_subagents := if SUBAGENT_HARD_CAP <? max_subagents then SUBAGENT_HARD_CAP else max_subagents in
  let timeout_seconds := if timeout_seconds <? 1 then SUBAGENT_TIMEOUT_DEFAULT else timeout_seconds in
  let timeout_seconds := if SUBAGENT_MAX_TIMEOUT_SEC <? timeout_seconds then SUBAGENT_MAX_TIMEOUT_SEC else timeout_seconds in
  mkManager [] max_subagents timeout_seconds is_subagent config store agent_id [].

Definition has_id (subagent_id : cstr) sub : bool := streq (sa_id sub) subagent_id.

(** The index of the first subagent with the id. *)
Fixpoint find_id_from (i : nat) (subagent_id : cstr) (l : list Subagent) : option (nat * Subagent) :=
  match l with
  | [] => None
  | sub :: l' => if has_id subagent_id sub then Some (i, sub) else find_id_from (S i) subagent_id l'
  end.

Definition subagent_find_by_id (subagent_id : cstr) m : option (nat * Subagent) := find_id_from 0 subagent_id (sm_subagents m).

(** *** Telling the parent agent *)

Definition string_member (key : string) (value : option cstr) : list (cstr * cJSON) :=
  match value with Some v => [(cs key, JString (c_string v))] | None => [] end.

Definition completion_json (now : Z) sub : cJSON :=
  JObject ([(cs "type", JString (cs "subagent_completion")); (cs "subagent_id", JString (sa_id sub));
            (cs "status", JString match sa_status sub with
                                  | SUBAGENT_STATUS_COMPLETED => cs "completed"
                                  | SUBAGENT_STATUS_FAILED => cs "failed"
                                  | SUBAGENT_STATUS_TIMEOUT => cs "timeout"
                                  | _ => cs "unknown"
                                  end)] ++
           string_member "result" (sa_result sub) ++ string_member "error" (sa_error sub) ++ [(cs "task", JString (sa_task sub))] ++
           (if 0 <? sa_start_time sub then [(cs "elapsed_seconds", JNumber (wrap32 (now - sa_start_time sub)))] else [])).

Definition subagent_notify_parent (env : TellEnv) (i : nat) sub m : SubagentManager :=
  match sm_agent_id m with
  | Some (c :: id) =>
      match sm_store m with
      | None => m
      | Some db =>
          match cJSON_PrintUnformatted (completion_json (te_now env) sub) with
          | None => m
          | Some json_str =>
              let '(result, _, db) :=
                message_send_direct (te_stmt env) (te_now_ms env) (te_uuid env) (sa_id sub) (c :: id) json_str 0 db in
              logged [if result =? 0 then Told i else NotTold i] (with_store db m)
          end
      end
  | _ => m
  end.

(** *** One look at a running subagent *)

(** What the system answers: the reads that do not block, waitpid, the reads after
    the end, the message. *)
Record Look := mkLook { lk_reads : list PipeRead; lk_wait : ChildWait; lk_final : list PipeRead; lk_tell : TellEnv }.

Definition finish_with (env : TellEnv) (i : nat) sub m : SubagentManager := subagent_notify_parent env i sub (set_subagent i sub m).

(** SIGKILL, the rest of the output, the message. *)
Definition time_out (lk : Look) (i : nat) sub m : option SubagentManager :=
  let m := logged [Signalled i SIGKILL; Waited i] m in
  r ← read_subagent_output (lk_final lk) sub;
  Some (finish_with (lk_tell lk) i (ended SUBAGENT_STATUS_TIMEOUT (sa_result r.2) (Some (cs "Subagent execution timed out")) r.2) m).

(** The manager and whether the subagent has ended. *)
Definition look (lk : Look) (i : nat) sub m : option (SubagentManager * bool) :=
  let sub := (read_subagent_output_nonblocking (lk_reads lk) sub).2 in
  match lk_wait lk with
  | Reaped status =>
      let m := logged [Waited i] m in
      sub ← subagent_handle_process_exit status (lk_final lk) sub;
      Some (finish_with (lk_tell lk) i sub m, true)
  | WaitFails =>
      let m := logged [WaitFailed i] m in
      Some (finish_with (lk_tell lk) i (ended SUBAGENT_STATUS_FAILED (sa_result sub) (Some (cs "Failed to check subagent status")) sub) m,
            true)
  | StillRunning | NoChild => Some (set_subagent i sub m, false)
  end.

Definition overdue (now : Z) sub m : bool := sm_timeout_seconds m <? now - sa_start_time sub.

Definition check_subagent (now : Z) (lk : Look) (i : nat) sub m : option (SubagentManager * bool) :=
  if overdue now sub m then m ← time_out lk i sub m; Some (m, true) else look lk i sub m.

(** The loop from an index, [n] subagents long. *)
Fixpoint poll_from (now : Z) (looks : nat -> Look) (n i : nat) m : option (SubagentManager * Z) :=
  match n with
  | O => Some (m, 0)
  | S n' =>
      match sm_subagents m !! i with
      | None => Some (m, 0)
      | Some sub =>
          if decide (sa_status sub = SUBAGENT_STATUS_RUNNING) then
            r ← check_subagent now (looks i) i sub m;
            r' ← poll_from now looks n' (S i) r.1;
            Some (r'.1, if r.2 : bool then 1 + r'.2 else r'.2)
          else poll_from now looks n' (S i) m
      end
  end.

Definition subagent_poll_all (now : Z) (looks : nat -> Look) m : option (SubagentManager * Z) :=
  poll_from now looks (length (sm_subagents m)) 0 m.

(** *** Starting *)

(** What pipe, the path of the program, fork, the random id and the clock answer. *)
Record SpawnEnv := mkSpawnEnv {
  sp_id : cstr;
  sp_pipes_ok : bool;
  sp_exe : option cstr;
  sp_fork : option Z;
  sp_stdout : Z;
  sp_request_fd : Z;
  sp_response_fd : Z;
  sp_now : Z
}.

Definition prefork_setup (env : SpawnEnv) m : bool :=
  if sm_is_subagent_process m then false
  else if (sm_max_subagents m <=? 0) || (sm_max_subagents m <=? Z.of_nat (length (sm_subagents m))) then false
  else sp_pipes_ok env.

Definition non_empty (s : option cstr) : option cstr := match s with Some (c :: t) => Some (c :: t) | _ => None end.

Definition register_subagent (env : SpawnEnv) (pid : Z) (argv : list cstr) (task : cstr) (context : option cstr) m
  : SubagentManager :=
  let sub := mkSubagent (sp_id env) pid SUBAGENT_STATUS_RUNNING (sp_stdout env) (sp_request_fd env) (sp_response_fd env)
               task (non_empty context) None None None (sp_now env) in
  logged [Spawned (length (sm_subagents m)) argv] (with_subagents (sm_subagents m ++ [sub]) m).

Definition option_args (name : string) (value : option cstr) : list cstr :=
  match non_empty value with Some v => [cs name; v] | None => [] end.

Definition subagent_args (exe task : cstr) (context model : option cstr) : list cstr :=
  [exe; cs "--subagent"; cs "--task"; task] ++ option_args "--context" context ++ option_args "--model" model.

(** The answer and the id. *)
Definition subagent_spawn (env : SpawnEnv) (task : cstr) (context model : option cstr) m : Z * cstr * SubagentManager :=
  if prefork_setup env m then
    match sp_exe env, sp_fork env with
    | Some exe, Some pid =>
        (0, sp_id env, register_subagent env pid (subagent_args exe task context model) task context m)
    | _, _ => (-1, [], m)
    end
  else (-1, [], m).

Definition subagent_spawn_with_args (env : SpawnEnv) (args : list cstr) (task_desc : option cstr) m : Z * cstr * SubagentManager :=
  match args with
  | [] => (-1, [], m)
  | _ =>
      if prefork_setup env m then
        match sp_fork env with
        | Some pid => (0, sp_id env, register_subagent env pid args (default (cs "subagent") task_desc) None m)
        | None => (-1, [], m)
        end
      else (-1, [], m)
  end.

(** *** Approval requests *)

(** What poll says of the request pipe at an index, and the messages and keys of
    the request that is then handled. *)
Record ApprovalIO := mkApprovalIO {
  ai_parent : ParentEnv;
  ai_ready : nat -> bool;
  ai_reads : list ReadEvent;
  ai_writes : list WriteEvent;
  ai_input : list ApprovalPrompt.KeyEvent
}.

Definition polled sub : bool := bool_decide (sa_status sub = SUBAGENT_STATUS_RUNNING) && (2 <? sa_request_fd sub).

Fixpoint first_ready (ready : nat -> bool) (i : nat) (l : list Subagent) : option nat :=
  match l with
  | [] => None
  | sub :: l' => if polled sub && ready i then Some i else first_ready ready (S i) l'
  end.

Definition subagent_poll_approval_requests (io : ApprovalIO) m : option nat := first_ready (ai_ready io) 0 (sm_subagents m).

Definition close_channel (fd : Z) : Z := if 2 <? fd then -1 else fd.

(** The answer and the configuration; [None]: the user or the pipe never answers. *)
Definition subagent_handle_approval_request (io : ApprovalIO) (i : nat) (config : ApprovalGateConfig R) m
  : option (Z * ApprovalGateConfig R * SubagentManager) :=
  match sm_subagents m !! i with
  | None => Some (-1, config, m)
  | Some sub =>
      if decide (sa_status sub = SUBAGENT_STATUS_RUNNING) then
        '(rc, config, _, _) ← handle_subagent_approval_request cb out_of_range (ai_parent io) config (ai_reads io)
                                (ai_writes io) (ai_input io);
        if rc <? 0 then
          Some (-1, config, set_subagent i (with_channel (close_channel (sa_request_fd sub)) (close_channel (sa_response_fd sub)) sub) m)
        else Some (0, config, m)
      else Some (-1, config, m)
  end.

Definition subagent_check_and_handle_approvals (io : ApprovalIO) (config : ApprovalGateConfig R) m
  : option (Z * ApprovalGateConfig R * SubagentManager) :=
  match subagent_poll_approval_requests io m with
  | None => Some (0, config, m)
  | Some i =>
      '(rc, config, m) ← subagent_handle_approval_request io i config m;
      Some (if rc =? 0 then 1 else -1, config, m)
  end.

(** *** The status of a subagent *)

(** The status, and copies of the result and the error. *)
Definition current_state sub : SubagentStatus * option cstr * option cstr :=
  (sa_status sub, c_string <$> sa_result sub, c_string <$> sa_error sub).

(** A turn of the loop that waits. *)
Record Turn := mkTurn { tn_interrupt : bool; tn_now : Z; tn_approval : ApprovalIO; tn_look : Look }.

Definition interrupt_subagent (lk : Look) (i : nat) sub m : option SubagentManager :=
  let m := logged (Signalled i SIGTERM ::
                   match lk_wait lk with
                   | StillRunning => [Signalled i SIGKILL; Waited i]
                   | Reaped _ => [Waited i]
                   | NoChild | WaitFails => [WaitFailed i]
                   end) m in
  r ← read_subagent_output (lk_final lk) (ended SUBAGENT_STATUS_FAILED (sa_result sub) (Some (cs "Interrupted by user")) sub);
  Some (finish_with (lk_tell lk) i r.2 m).

(** Only while the gate of the parent is set and the pipe is open. *)
Definition wait_approvals (io : ApprovalIO) sub m : option SubagentManager :=
  match sm_gate_config m with
  | Some config =>
      if 2 <? sa_request_fd sub then
        match subagent_poll_approval_requests io m with
        | Some idx => '(_, config, m) ← subagent_handle_approval_request io idx config m; Some (set_gate config m)
        | None => Some m
        end
      else Some m
  | None => Some m
  end.

Inductive WaitEnd := WaitDone (m : SubagentManager) | WaitBlocked | StillWaiting (m : SubagentManager).

Definition done_or_blocked (r : option SubagentManager) : WaitEnd :=
  match r with Some m => WaitDone m | None => WaitBlocked end.

(** The loop over the turns; [StillWaiting] when they are used up. *)
Fixpoint wait_loop (turns : list Turn) (i : nat) m : WaitEnd :=
  match sm_subagents m !! i with
  | None => WaitDone m
  | Some sub =>
      if decide (sa_status sub = SUBAGENT_STATUS_RUNNING) then
        match turns with
        | [] => StillWaiting m
        | t :: turns' =>
            if tn_interrupt t then done_or_blocked (interrupt_subagent (tn_look t) i sub m)
            else if overdue (tn_now t) sub m then done_or_blocked (time_out (tn_look t) i sub m)
            else
              match wait_approvals (tn_approval t) sub m with
              | None => WaitBlocked
              | Some m =>
                  match sm_subagents m !! i with
                  | None => WaitDone m
                  | Some sub =>
                      match look (tn_look t) i sub m with
                      | None => WaitBlocked
                      | Some (m, true) => WaitDone m
                      | Some (m, false) => wait_loop turns' i m
                      end
                  end
              end
        end
      else WaitDone m
  end.

Inductive StatusAnswer :=
| StatusOf (status : SubagentStatus) (result error : option cstr)
| NotFound.

Definition state_at (i : nat) m : StatusAnswer :=
  match sm_subagents m !! i with
  | Some sub => let '(status, result, error) := current_state sub in StatusOf status result error
  | None => NotFound
  end.

(** [None]: blocked, or still waiting when the turns are used up. *)
Definition subagent_get_status (now : Z) (lk : Look) (turns : list Turn) (wait : bool) (subagent_id : cstr) m
  : option (StatusAnswer * SubagentManager) :=
  match subagent_find_by_id subagent_id m with
  | None => Some (NotFound, m)
  | Some (i, sub) =>
      match sa_status sub with
      | SUBAGENT_STATUS_COMPLETED | SUBAGENT_STATUS_FAILED | SUBAGENT_STATUS_TIMEOUT => Some (state_at i m, m)
      | _ =>
          if wait then
            match wait_loop turns i m with
            | WaitDone m => Some (state_at i m, m)
            | _ => None
            end
          else r ← check_subagent now lk i sub m; Some (state_at i r.1, r.1)
      end
  end.

(** *** The tools *)

Definition extract_json_string_value (json : option cstr) (key : string) : option cstr :=
  json ← json; root ← cJSON_Parse json; cJSON_IsString (cJSON_GetObjectItemCaseSensitive root (cs key)).

Definition extract_json_boolean_value (json : option cstr) (key : string) (default_value : bool) : bool :=
  default default_value
    (json ← json; root ← cJSON_Parse json; cJSON_IsBool (cJSON_GetObjectItemCaseSensitive root (cs key))).

Definition answer_call (call : ToolCall) (result : ToolResult) (text : cstr) (success : bool) : ToolResult :=
  mkToolResult (Some (tc_id call)) (Some text) success (tr_clear_history result).

Definition member (key : string) (value : cstr) : cstr := q key ++ cs ": " ++ JQ :: value ++ [JQ].
Definition error_object (message : cstr) : cstr := cs "{" ++ member "error" message ++ cs "}".

(** [resolve]: the configuration's name for a model; [default_model]: its model. *)
Definition execute_subagent_tool_call (env : SpawnEnv) (resolve : cstr -> option cstr) (default_model : option cstr)
    (call : ToolCall) (result : ToolResult) m : ToolResult * SubagentManager :=
  if sm_is_subagent_process m then
    (answer_call call result (error_object (cs "Subagents cannot spawn additional subagents")) false, m)
  else
    match non_empty (extract_json_string_value (tc_arguments call) "task") with
    | None => (answer_call call result (error_object (cs "Task parameter is required")) false, m)
    | Some task =>
        let model := match non_empty (extract_json_string_value (tc_arguments call) "model") with
                     | Some name => resolve name
                     | None => default_model
                     end in
        let '(rc, id, m) := subagent_spawn env task (extract_json_string_value (tc_arguments call) "context") model m in
        if negb (rc =? 0) then
          (answer_call call result
             (error_object (if sm_max_subagents m <=? Z.of_nat (length (sm_subagents m))
                            then cs "Maximum number of concurrent subagents (" ++ int_text (sm_max_subagents m) ++ cs ") reached"
                            else cs "Failed to spawn subagent")) false, m)
        else
          (answer_call call result
             (cs "{" ++ member "subagent_id" id ++ cs ", " ++ member "status" (cs "running") ++ cs ", " ++
              member "message" (cs "Subagent spawned successfully") ++ cs "}") true, m)
    end.

(** The answer to a status: its text and whether the call succeeded. *)
Definition status_response (status : SubagentStatus) (result error : option cstr) : cstr * bool :=
  let escaped_result := r ← result; json_escape_string (Some r) in
  let escaped_error := e ← error; json_escape_string (Some e) in
  let head := cs "{" ++ member "status" (subagent_status_to_string status) in
  match status, escaped_result, escaped_error with
  | SUBAGENT_STATUS_COMPLETED, Some r, _ => (head ++ cs ", " ++ member "result" r ++ cs "}", true)
  | SUBAGENT_STATUS_FAILED, _, Some e | SUBAGENT_STATUS_TIMEOUT, _, Some e =>
      (head ++ cs ", " ++ member "error" e ++ cs "}", false)
  | SUBAGENT_STATUS_RUNNING, _, _ => (head ++ cs ", " ++ member "message" (cs "Subagent is still running") ++ cs "}", true)
  | SUBAGENT_STATUS_COMPLETED, _, _ => (head ++ cs "}", true)
  | _, _, _ => (head ++ cs "}", false)
  end.

Definition execute_subagent_status_tool_call (now : Z) (lk : Look) (turns : list Turn) (call : ToolCall) (result : ToolResult) m
  : option (ToolResult * SubagentManager) :=
  match non_empty (extract_json_string_value (tc_arguments call) "subagent_id") with
  | None => Some (answer_call call result (error_object (cs "subagent_id parameter is required")) false, m)
  | Some subagent_id =>
      r ← subagent_get_status now lk turns (extract_json_boolean_value (tc_arguments call) "wait" false) subagent_id m;
      match r.1 with
      | NotFound =>
          Some (answer_call call result
                  (error_object (default (cs "Unknown error") (json_escape_string (Some (cs "Subagent not found"))))) false, r.2)
      | StatusOf status res err =>
          let '(text, success) := status_response status res err in
          Some (answer_call call result text success, r.2)
      end
  end.

(** *** The end of the manager *)

(** What the system answers for a subagent, and the statements of the removal of
    its messages. *)
Record CleanupEnv := mkCleanupEnv { cl_wait : ChildWait; cl_begin : bool; cl_messages : Stmt; cl_subscriptions : Stmt; cl_commit : bool }.

Definition close_stdout (fd : Z) : Z := if 0 <? fd then -1 else fd.

Definition cleanup_subagent (env : CleanupEnv) (i : nat) sub m : SubagentManager :=
  let m := set_subagent i (mkSubagent (sa_id sub) 0 SUBAGENT_STATUS_PENDING (close_stdout (sa_stdout sub))
                    (close_channel (sa_request_fd sub)) (close_channel (sa_response_fd sub)) [] None None None None
                    (sa_start_time sub)) m in
  match sa_id sub, sm_store m with
  | _ :: _, Some db =>
      with_store (message_cleanup_agent (cl_begin env) (cl_messages env) (cl_subscriptions env) (cl_commit env) (sa_id sub) db).2 m
  | _, _ => m
  end.

Definition kill_at_end (env : CleanupEnv) (i : nat) sub m : SubagentManager :=
  if bool_decide (sa_status sub = SUBAGENT_STATUS_RUNNING) && (0 <? sa_pid sub) then
    logged (Signalled i SIGTERM ::
            match cl_wait env with
            | StillRunning => [Signalled i SIGKILL; Waited i]
            | Reaped _ => [Waited i]
            | NoChild | WaitFails => [WaitFailed i]
            end) m
  else m.

Fixpoint cleanup_from (env : nat -> CleanupEnv) (n i : nat) m : SubagentManager :=
  match n with
  | O => m
  | S n' =>
      match sm_subagents m !! i with
      | None => m
      | Some sub => cleanup_from env n' (S i) (cleanup_subagent (env i) i sub (kill_at_end (env i) i sub m))
      end
  end.

Definition subagent_manager_cleanup (env : nat -> CleanupEnv) m : SubagentManager :=
  with_subagents [] (cleanup_from env (length (sm_subagents m)) 0 m).
End Manager.
