(* ===== verification/SubagentFacts.v ===== *)
(** * Subagents: theorems

    The life of a subagent, what is kept of its output, when waiting ends, what
    its parent is told, for Subagents.v. *)

From S2P Require Import Prelude CString Regex RateLimiter Json ToolArgs ToolBatch ApprovalGate ApprovalErrors Sql MessageStore SubagentApproval Subagents.
Local Open Scope Z_scope.
Local Open Scope bool_scope.

Section Life.
Context {R : Regex} {J : CJson} {K : Rowids} (cb : ApprovalGateCallbacks) (out_of_range : Z -> Z).
Implicit Types (m : SubagentManager (R := R)) (sub : Subagent).

(** ** The abstract life *)

(** Nothing but the array, the log, the gate and the contents of the store changes. *)
Definition keeps m m' : Prop :=
  sm_max_subagents m' = sm_max_subagents m /\ sm_timeout_seconds m' = sm_timeout_seconds m /\
  sm_is_subagent_process m' = sm_is_subagent_process m /\ sm_agent_id m' = sm_agent_id m /\
  (is_Some (sm_store m') <-> is_Some (sm_store m)).

#[local] Instance keeps_preorder : PreOrder keeps.
Proof.
  split; [done|]. intros a b c (H1 & H2 & H3 & H4 & H5) (G1 & G2 & G3 & G4 & G5). unfold keeps.
  rewrite G1, G2, G3, G4, G5. done.
Qed.

Definition same_identity sub sub' : Prop :=
  sa_id sub' = sa_id sub /\ sa_pid sub' = sa_pid sub /\ sa_task sub' = sa_task sub /\ sa_context sub' = sa_context sub /\
  sa_start_time sub' = sa_start_time sub.

(** What is done to a child until its subagent [sub] has ended: at most one signal of
    each kind, then it is waited for or waitpid answers an error, and nothing
    afterwards. The status and the error say which. *)
Definition end_events sub (i : nat) (l : list ProcEvent) : Prop :=
  match sa_status sub with
  | SUBAGENT_STATUS_COMPLETED => l = [Waited i]
  | SUBAGENT_STATUS_TIMEOUT =>
      l = [Signalled i SIGKILL; Waited i] /\ sa_error sub = Some (cs "Subagent execution timed out")
  | SUBAGENT_STATUS_FAILED =>
      (l = [Waited i] /\ exists status tail, status <> Exited 0 /\ sa_error sub = Some (exit_message status ++ tail)) \/
      (l = [WaitFailed i] /\ sa_error sub = Some (cs "Failed to check subagent status")) \/
      ((l = [Signalled i SIGTERM; Waited i] \/ l = [Signalled i SIGTERM; Signalled i SIGKILL; Waited i] \/
        l = [Signalled i SIGTERM; WaitFailed i]) /\
       sa_error sub = Some (cs "Interrupted by user"))
  | _ => False
  end.

Definition outcome sub sub' : Prop :=
  match sa_status sub' with
  | SUBAGENT_STATUS_COMPLETED => sa_error sub' = sa_error sub
  | _ => sa_result sub' = sa_result sub /\ is_Some (sa_error sub')
  end.

(** When the agent has an id and a store, the end is told to it or that fails. *)
Definition announced m (i : nat) (t : list ProcEvent) : Prop :=
  match sm_agent_id m, sm_store m with
  | Some (_ :: _), Some _ => t = [Told i] \/ t = [NotTold i]
  | _, _ => t = []
  end.

(** The messages between agents in the store. *)
Definition direct_rows m : list DirectRow := match sm_store m with Some db => direct_messages db | None => [] end.

(** The message of the end of a subagent. *)
Definition announces m sub (row : DirectRow) : Prop :=
  dr_sender row = sa_id sub /\ sm_agent_id m = Some (dr_recipient row) /\
  exists now, cJSON_PrintUnformatted (completion_json now sub) = Some (dr_content row).

(** The message is in the store exactly when the agent was told. *)
Definition stored m m' (i : nat) sub (t : list ProcEvent) : Prop :=
  (t = [Told i] /\ exists row, direct_rows m' = direct_rows m ++ [row] /\ announces m sub row) \/
  (t <> [Told i] /\ direct_rows m' = direct_rows m).

Inductive tick m m' : Prop :=
| tick_idle :
    keeps m m' -> direct_rows m' = direct_rows m -> sm_subagents m' = sm_subagents m -> sm_log m' = sm_log m -> tick m m'
| tick_runs i sub sub' :
    keeps m m' -> direct_rows m' = direct_rows m ->
    sm_subagents m !! i = Some sub -> sa_status sub = SUBAGENT_STATUS_RUNNING ->
    same_identity sub sub' -> sa_status sub' = SUBAGENT_STATUS_RUNNING ->
    sa_result sub' = sa_result sub -> sa_error sub' = sa_error sub ->
    sm_subagents m' = <[i := sub']> (sm_subagents m) -> sm_log m' = sm_log m -> tick m m'
| tick_ends i sub sub' l t :
    keeps m m' -> announced m i t -> stored m m' i sub' t ->
    sm_subagents m !! i = Some sub -> sa_status sub = SUBAGENT_STATUS_RUNNING ->
    same_identity sub sub' -> end_events sub' i l -> outcome sub sub' ->
    sm_subagents m' = <[i := sub']> (sm_subagents m) -> sm_log m' = sm_log m ++ l ++ t -> tick m m'
| tick_starts sub argv :
    keeps m m' -> direct_rows m' = direct_rows m ->
    sm_is_subagent_process m = false -> Z.of_nat (length (sm_subagents m)) < sm_max_subagents m ->
    sa_status sub = SUBAGENT_STATUS_RUNNING -> sa_result sub = None -> sa_error sub = None ->
    sm_subagents m' = sm_subagents m ++ [sub] -> sm_log m' = sm_log m ++ [Spawned (length (sm_subagents m)) argv] -> tick m m'.

Lemma tick_keeps m m' : tick m m' -> keeps m m'.
Proof using. by destruct 1. Qed.

Lemma ticks_keep m m' : rtc tick m m' -> keeps m m'.
Proof using. induction 1 as [m|m m1 m' H _ IH]; [done|]. etransitivity; [by apply tick_keeps|done]. Qed.

(** A message is stored at the end of the table, or nothing is changed. *)
Lemma send_direct_cases st now uuid sender recipient content ttl db :
  let r := message_send_direct st now uuid sender recipient content ttl db in
  (r.1.1 = 0 /\ exists row, direct_messages r.2 = direct_messages db ++ [row] /\
     dr_sender row = sender /\ dr_recipient row = recipient /\ dr_content row = content) \/
  (r.1.1 = -1 /\ r.2 = db).
Proof using.
  cbn zeta. unfold message_send_direct. destruct uuid as [u|]; [|by right]. destruct st; try by right.
  destruct (insert_row _ _ _) as [rows|] eqn:E; [|by right]. left. split; [done|].
  apply insert_row_Some in E as [_ ->]. eexists. split; [reflexivity|]. done.
Qed.

(** ** Every operation is a sequence of such steps *)

(** Printing the message of an end fails only for lack of memory. *)
Context (prints : forall now sub, is_Some (cJSON_PrintUnformatted (completion_json now sub))).

Lemma notify_parent env i sub m :
  let m' := subagent_notify_parent env i sub m in
  keeps m m' /\ sm_subagents m' = sm_subagents m /\
  exists t, sm_log m' = sm_log m ++ t /\ announced m i t /\ stored m m' i sub t.
Proof using prints.
  cbn zeta. unfold subagent_notify_parent, announced, stored, direct_rows. destruct (sm_agent_id m) as [[|c id]|] eqn:Ea.
  1, 3: split; [done|]; split; [done|]; exists []; rewrite app_nil_r; split; [done|]; split; [done|]; right; split; [discriminate|reflexivity].
  destruct (sm_store m) as [db|] eqn:Es.
  2: { split; [done|]; split; [done|]; exists []; rewrite app_nil_r; split; [done|]; split; [done|]; right; split; [discriminate|by rewrite Es]. }
  destruct (prints (te_now env) sub) as [t Ht]. rewrite Ht.
  pose proof (send_direct_cases (te_stmt env) (te_now_ms env) (te_uuid env) (sa_id sub) (c :: id) t 0 db) as Hsend.
  destruct (message_send_direct _ _ _ _ _ _ _ _) as [[rc msg_id] db']. cbn [fst snd] in Hsend.
  split; [repeat split; cbn; try done; rewrite Es; eauto|]. split; [done|]. eexists. split; [reflexivity|].
  destruct Hsend as [(-> & row & Hrows & Hs & Hr & Hc)|[-> ->]]; cbn [Z.eqb]; (split; [auto|]).
  - left. split; [done|]. exists row. split; [done|]. split; [done|]. split; [by rewrite Hr|]. exists (te_now env). by rewrite Hc.
  - by right.
Qed.

Lemma output_loop_identity : forall (reads : list PipeRead) sub out, same_identity sub (with_output out sub).
Proof using. done. Qed.

Lemma nonblocking_quiet reads sub :
  let sub' := (read_subagent_output_nonblocking reads sub).2 in
  same_identity sub sub' /\ sa_status sub' = sa_status sub /\ sa_result sub' = sa_result sub /\ sa_error sub' = sa_error sub.
Proof using.
  cbn zeta. unfold read_subagent_output_nonblocking. destruct (_ <=? 0); [done|].
  by destruct (output_loop _ _) as [[out n] ending].
Qed.

Lemma blocking_quiet reads sub r :
  read_subagent_output reads sub = Some r ->
  same_identity sub r.2 /\ sa_status r.2 = sa_status sub /\ sa_result r.2 = sa_result sub /\ sa_error r.2 = sa_error sub.
Proof using.
  unfold read_subagent_output. destruct (_ <=? 0); [by intros [= <-]|].
  destruct (output_loop _ _) as [[out n] []]; by intros [= <-].
Qed.

(** The end of one subagent. *)
Lemma finish_ticks env i sub sub' l m :
  sm_subagents m !! i = Some sub -> sa_status sub = SUBAGENT_STATUS_RUNNING ->
  same_identity sub sub' -> end_events sub' i l -> outcome sub sub' ->
  tick m (finish_with env i sub' (logged l m)).
Proof using prints.
  intros Hi Hs Hid Hl Ho. unfold finish_with.
  destruct (notify_parent env i sub' (set_subagent i sub' (logged l m))) as (Hk & Hsubs & t & Hlog & Ht & Hst).
  eapply (tick_ends m _ i sub sub' l t); try done.
  rewrite Hlog. cbn. by rewrite <- app_assoc.
Qed.

Lemma time_out_ticks lk i sub m m' :
  sm_subagents m !! i = Some sub -> sa_status sub = SUBAGENT_STATUS_RUNNING ->
  time_out lk i sub m = Some m' -> tick m m'.
Proof using prints.
  intros Hi Hs. unfold time_out. destruct (read_subagent_output _ _) as [r|] eqn:E; [|done].
  intros H. injection H as <-. apply blocking_quiet in E as (Hid & Hst & Hr & He).
  apply (finish_ticks _ _ sub); try done; split; eauto.
Qed.

Lemma process_exit status final sub sub' :
  subagent_handle_process_exit status final sub = Some sub' ->
  same_identity sub sub' /\ outcome sub sub' /\
  (if decide (status = Exited 0) then sa_status sub' = SUBAGENT_STATUS_COMPLETED
   else sa_status sub' = SUBAGENT_STATUS_FAILED /\ exists tail, sa_error sub' = Some (exit_message status ++ tail)).
Proof using.
  unfold subagent_handle_process_exit. destruct (read_subagent_output _ _) as [r|] eqn:E; [|done].
  apply blocking_quiet in E as (Hid & _ & Hr & He). cbn [mbind option_bind].
  assert (exists tail, match sa_output r.2 with Some (c :: out) => exit_message status ++ cs ". Output: " ++ c_string (c :: out)
    | _ => exit_message status end = exit_message status ++ tail) as [tail Et].
  { destruct (sa_output r.2) as [[|c out]|]; [exists []; by rewrite app_nil_r|by eexists|exists []; by rewrite app_nil_r]. }
  intros H. split; [|split].
  - by destruct status as [[|c|c]|sig|]; injection H as <-.
  - unfold outcome. destruct status as [[|c|c]|sig|]; injection H as <-; cbn; eauto.
  - destruct (decide (status = Exited 0)) as [->|Hn]; [by injection H as <-|].
    destruct status as [[|c|c]|sig|]; [done|..]; injection H as <-; cbn [sa_status with_output ended sa_error];
      (split; [done|]); exists tail; by rewrite <- Et.
Qed.

Lemma look_ticks lk i sub m r :
  sm_subagents m !! i = Some sub -> sa_status sub = SUBAGENT_STATUS_RUNNING ->
  look lk i sub m = Some r -> tick m r.1.
Proof using prints.
  intros Hi Hs. unfold look. destruct (nonblocking_quiet (lk_reads lk) sub) as (Hid & Hst & Hr & He).
  set (sub1 := (read_subagent_output_nonblocking (lk_reads lk) sub).2) in *. clearbody sub1.
  destruct (lk_wait lk) as [|status| |].
  - intros H. injection H as <-. apply (tick_runs m _ i sub sub1); try done. by rewrite Hst.
  - destruct (subagent_handle_process_exit _ _ _) as [sub2|] eqn:E; [|done]. intros H. injection H as <-.
    apply process_exit in E as (Hid2 & Ho & Hs2). apply (finish_ticks _ _ sub); try done.
    + destruct Hid as (? & ? & ? & ? & ?), Hid2 as (? & ? & ? & ? & ?). unfold same_identity. split_and!; congruence.
    + unfold end_events. destruct (decide (status = Exited 0)) as [->|Hn]; [by rewrite Hs2|].
      destruct Hs2 as (-> & tail & ->). left. eauto.
    + unfold outcome in *. rewrite Hr, He in Ho. done.
  - intros H. injection H as <-. apply (tick_runs m _ i sub sub1); try done. by rewrite Hst.
  - intros H. injection H as <-. apply (finish_ticks _ _ sub); [done|done|done|right; left; done|split; [done|by eexists]].
Qed.

Lemma check_ticks now lk i sub m r :
  sm_subagents m !! i = Some sub -> sa_status sub = SUBAGENT_STATUS_RUNNING ->
  check_subagent now lk i sub m = Some r -> tick m r.1.
Proof using prints.
  intros Hi Hs. unfold check_subagent. destruct (overdue now sub m); [|by apply look_ticks].
  destruct (time_out lk i sub m) as [m'|] eqn:E; [|done]. intros H. injection H as <-. by eapply time_out_ticks.
Qed.

Lemma poll_ticks now looks n : forall i m r, poll_from now looks n i m = Some r -> rtc tick m r.1.
Proof using prints.
  induction n as [|n IH]; intros i m r; cbn [poll_from]; [by intros [= <-]|].
  destruct (sm_subagents m !! i) as [sub|] eqn:Ei; [|by intros [= <-]]. destruct (decide _) as [Hs|]; [|apply IH].
  destruct (check_subagent now (looks i) i sub m) as [r1|] eqn:E1; [|done]. cbn [mbind option_bind].
  destruct (poll_from now looks n (S i) r1.1) as [r2|] eqn:E2; [|done]. intros H. injection H as <-.
  eapply rtc_l; [exact (check_ticks _ _ _ _ _ _ Ei Hs E1)|]. exact (IH _ _ _ E2).
Qed.

Lemma interrupt_ticks lk i sub m m' :
  sm_subagents m !! i = Some sub -> sa_status sub = SUBAGENT_STATUS_RUNNING ->
  interrupt_subagent lk i sub m = Some m' -> tick m m'.
Proof using prints.
  intros Hi Hs. unfold interrupt_subagent. destruct (read_subagent_output _ _) as [r|] eqn:E; [|done].
  intros H. injection H as <-. apply blocking_quiet in E as (Hid & Hst & Hr & He). cbn in Hst, Hr, He.
  apply (finish_ticks _ _ sub); try done.
  - unfold end_events. rewrite Hst. right; right. rewrite He. split; [|done]. destruct (lk_wait lk); auto.
  - unfold outcome. rewrite Hst, Hr, He. split; [done|eauto].
Qed.

Lemma register_ticks env pid argv task context m :
  prefork_setup env m = true -> tick m (register_subagent env pid argv task context m).
Proof using.
  unfold prefork_setup. destruct (sm_is_subagent_process m) eqn:Es; [done|]. destruct (_ || _) eqn:El; [done|]. intros _.
  apply orb_false_iff in El as [_ El]. apply Z.leb_gt in El.
  eapply (tick_starts m _ _ argv); [done|done|done|done| | | |reflexivity|reflexivity]; done.
Qed.

Lemma spawn_ticks env task context model m : rtc tick m (subagent_spawn env task context model m).2.
Proof using.
  unfold subagent_spawn. destruct (prefork_setup env m) eqn:E; [|done].
  destruct (sp_exe env), (sp_fork env); try done. by apply rtc_once, register_ticks.
Qed.

Lemma spawn_args_ticks env args task m : rtc tick m (subagent_spawn_with_args env args task m).2.
Proof using.
  unfold subagent_spawn_with_args. destruct args; [done|]. destruct (prefork_setup env m) eqn:E; [|done].
  destruct (sp_fork env); [|done]. by apply rtc_once, register_ticks.
Qed.

Lemma approval_ticks io i config m rc config' m' :
  subagent_handle_approval_request cb out_of_range io i config m = Some (rc, config', m') -> tick m m'.
Proof using.
  unfold subagent_handle_approval_request. destruct (sm_subagents m !! i) as [sub|] eqn:Ei.
  2: { intros [= _ _ <-]. by apply tick_idle. }
  destruct (decide _) as [Hs|]; [|intros [= _ _ <-]; by apply tick_idle].
  destruct (handle_subagent_approval_request _ _ _ _ _ _ _) as [[[[rc0 config0] sent] input]|]; [|done].
  cbn [mbind option_bind]. destruct (rc0 <? 0).
  - intros [= _ _ <-]. eapply (tick_runs m _ i sub); [done|done|done|done| | | | |reflexivity|reflexivity]; done.
  - intros [= _ _ <-]. by apply tick_idle.
Qed.

Lemma wait_approvals_ticks io sub m m' : wait_approvals cb out_of_range io sub m = Some m' -> rtc tick m m'.
Proof using.
  unfold wait_approvals. destruct (sm_gate_config m) as [config|]; [|by intros [= <-]].
  destruct (2 <? _); [|by intros [= <-]]. destruct (subagent_poll_approval_requests io m) as [idx|]; [|by intros [= <-]].
  destruct (subagent_handle_approval_request cb out_of_range io idx config m) as [[[rc config'] m1]|] eqn:E; [|done].
  intros [= <-]. eapply rtc_l; [by eapply approval_ticks|]. apply rtc_once. by apply tick_idle.
Qed.

(** A request leaves every status as it is. *)
Lemma approval_statuses io i config m rc config' m' :
  subagent_handle_approval_request cb out_of_range io i config m = Some (rc, config', m') ->
  (sa_status <$> sm_subagents m') = (sa_status <$> sm_subagents m).
Proof using.
  unfold subagent_handle_approval_request. destruct (sm_subagents m !! i) as [sub|] eqn:Ei; [|by intros [= _ _ <-]].
  destruct (decide _) as [Hs|]; [|by intros [= _ _ <-]].
  destruct (handle_subagent_approval_request _ _ _ _ _ _ _) as [[[[rc0 config0] sent] input]|]; [|done].
  cbn [mbind option_bind]. destruct (rc0 <? 0); intros [= _ _ <-]; [|done]. cbn.
  rewrite list_fmap_insert. apply list_insert_id.
  by rewrite list_lookup_fmap, Ei.
Qed.

Lemma wait_approvals_statuses io sub m m' :
  wait_approvals cb out_of_range io sub m = Some m' -> (sa_status <$> sm_subagents m') = (sa_status <$> sm_subagents m).
Proof using.
  unfold wait_approvals. destruct (sm_gate_config m) as [config|]; [|by intros [= <-]].
  destruct (2 <? _); [|by intros [= <-]]. destruct (subagent_poll_approval_requests io m) as [idx|]; [|by intros [= <-]].
  destruct (subagent_handle_approval_request cb out_of_range io idx config m) as [[[rc config'] m1]|] eqn:E; [|done].
  intros [= <-]. by apply approval_statuses in E.
Qed.

Lemma wait_approvals_running io sub m m' i :
  wait_approvals cb out_of_range io sub m = Some m' -> sm_subagents m !! i = Some sub -> sa_status sub = SUBAGENT_STATUS_RUNNING ->
  exists sub', sm_subagents m' !! i = Some sub' /\ sa_status sub' = SUBAGENT_STATUS_RUNNING.
Proof using.
  intros H%wait_approvals_statuses Hi Hs.
  assert ((sa_status <$> sm_subagents m') !! i = Some SUBAGENT_STATUS_RUNNING) as E.
  { rewrite H. by rewrite list_lookup_fmap, Hi, <- Hs. }
  rewrite list_lookup_fmap in E.
  destruct (sm_subagents m' !! i) as [sub'|]; [|done]. exists sub'. split; [done|by injection E].
Qed.

Lemma wait_ticks turns : forall i m m',
  wait_loop cb out_of_range turns i m = WaitDone m' -> rtc tick m m'.
Proof using prints.
  induction turns as [|t turns IH]; intros i m m'; cbn [wait_loop];
    (destruct (sm_subagents m !! i) as [sub|] eqn:Ei; [|by intros [= <-]]);
    (destruct (decide _) as [Hs|]; [|by intros [= <-]]); [done|].
  destruct (tn_interrupt t).
  { destruct (interrupt_subagent _ _ _ _) as [m1|] eqn:E; [|done]. intros [= <-]. by eapply rtc_once, interrupt_ticks. }
  destruct (overdue _ _ _).
  { destruct (time_out _ _ _ _) as [m1|] eqn:E; [|done]. intros [= <-]. by eapply rtc_once, time_out_ticks. }
  destruct (wait_approvals cb out_of_range (tn_approval t) sub m) as [m1|] eqn:E; [|done].
  destruct (wait_approvals_running _ _ _ _ _ E Ei Hs) as (sub1 & Ei1 & Hs1). apply wait_approvals_ticks in E. rewrite Ei1.
  destruct (look (tn_look t) i sub1 m1) as [[m2 b]|] eqn:El; [|done].
  apply (look_ticks _ _ _ _ _ Ei1 Hs1) in El. cbn in El. destruct b.
  - intros [= <-]. etransitivity; [done|by apply rtc_once].
  - intros H%IH. etransitivity; [done|]. by eapply rtc_l.
Qed.

(** ** Reachable managers *)

Lemma find_id_lookup id l : forall i j sub, find_id_from i id l = Some (j, sub) -> (i <= j)%nat /\ l !! (j - i)%nat = Some sub /\ sa_id sub = id.
Proof using.
  induction l as [|s l IH]; intros i j sub; cbn; [done|]. destruct (has_id id s) eqn:E.
  - intros [= <- <-]. replace (i - i)%nat with 0%nat by lia. split; [lia|]. split; [done|]. by apply streq_true.
  - intros (H1 & H2 & H3)%IH. split; [lia|]. replace (j - i)%nat with (S (j - S i)) by lia. done.
Qed.

Lemma find_by_id_lookup id m i sub : subagent_find_by_id id m = Some (i, sub) -> sm_subagents m !! i = Some sub /\ sa_id sub = id.
Proof using. intros (_ & H & E)%find_id_lookup. by rewrite Nat.sub_0_r in H. Qed.

(** What was done to the child at an index. *)
Definition child_log (i : nat) (log : list ProcEvent) : list ProcEvent := filter (fun e => event_index e = i) log.

(** A subagent runs and nothing was done to it after the start, or it has ended: it was
    waited for, then told of, and it has an error or ended well. *)
Definition life m (i : nat) sub : Prop :=
  exists argv,
    match sa_status sub with
    | SUBAGENT_STATUS_RUNNING => child_log i (sm_log m) = [Spawned i argv] /\ sa_result sub = None /\ sa_error sub = None
    | status =>
        exists l t, end_events sub i l /\ announced m i t /\ child_log i (sm_log m) = Spawned i argv :: l ++ t /\
          match status with
          | SUBAGENT_STATUS_COMPLETED => sa_error sub = None
          | _ => sa_result sub = None /\ is_Some (sa_error sub)
          end
    end.

Record sane m : Prop := {
  sane_life i sub : sm_subagents m !! i = Some sub -> life m i sub;
  sane_log : Forall (fun e => (event_index e < length (sm_subagents m))%nat) (sm_log m);
  sane_count : Z.of_nat (length (sm_subagents m)) <= sm_max_subagents m;
  sane_nested : sm_is_subagent_process m = true -> sm_subagents m = []
}.

Lemma announced_keep m m' i t : keeps m m' -> announced m i t -> announced m' i t.
Proof using.
  intros (_ & _ & _ & Ha & Hs). unfold announced. rewrite Ha. destruct (sm_agent_id m) as [[|c id]|]; [done| |done].
  destruct (sm_store m') as [db'|], (sm_store m) as [db|]; try done.
  - by destruct (proj1 Hs ltac:(eauto)).
  - by destruct (proj2 Hs ltac:(eauto)).
Qed.

Lemma child_log_app i l1 l2 : child_log i (l1 ++ l2) = child_log i l1 ++ child_log i l2.
Proof using. apply filter_app. Qed.

Lemma child_log_own i l : Forall (fun e => event_index e = i) l -> child_log i l = l.
Proof using. induction 1 as [|e l He _ IH]; [done|]. unfold child_log in *. rewrite filter_cons_True by done. by rewrite IH. Qed.

Lemma child_log_other i j l : Forall (fun e => event_index e = i) l -> i <> j -> child_log j l = [].
Proof using.
  intros H Hn. induction H as [|e l He _ IH]; [done|]. unfold child_log in *. rewrite filter_cons_False by (by rewrite He). done.
Qed.

Lemma end_events_own sub i m l t :
  end_events sub i l -> announced m i t -> Forall (fun e => event_index e = i) (l ++ t).
Proof using.
  intros Hl Ht. apply Forall_app. split.
  - unfold end_events in Hl. destruct (sa_status sub); try done; [by subst; repeat constructor| |by destruct Hl as [-> _]; repeat constructor].
    destruct Hl as [[-> _]|[[-> _]|[[->|[->| ->]] _]]]; repeat constructor.
  - unfold announced in Ht. repeat case_match; subst; try constructor. destruct Ht as [-> | ->]; repeat constructor.
Qed.

(** A step of one subagent leaves the lives of the others alone. *)
Lemma life_other m m' i j sub l :
  keeps m m' -> sm_log m' = sm_log m ++ l -> Forall (fun e => event_index e = i) l -> i <> j -> life m j sub -> life m' j sub.
Proof using.
  intros Hk Hlog Hl Hn (argv & H). exists argv. rewrite Hlog, child_log_app, (child_log_other i j l Hl Hn), app_nil_r.
  destruct (sa_status sub); try done; destruct H as (k & t & H1 & H2 & H3); exists k, t;
    (split; [done|]); (split; [by eapply announced_keep|done]).
Qed.

Lemma tick_sane m m' : tick m m' -> sane m -> sane m'.
Proof using.
  intros Ht [H1 H2 H3 H4]. pose proof (tick_keeps _ _ Ht) as Hk. pose proof Hk as (Em & _ & Ei & _ & _).
  destruct Ht as [_ _ Hs Hl|i sub sub' _ _ Hi Hr Hid Hr' Hres Herr Hs Hl|i sub sub' l t _ Ht _ Hi Hr Hid He Ho Hs Hl|sub argv _ _ Hn Hmax Hr Hres Herr Hs Hl].
  - split; rewrite ?Hs, ?Hl, ?Em, ?Ei; try done. intros i sub H%H1.
    assert (exists j, i <> j) as [j Hij] by (by exists (S i); lia). apply (life_other m m' j i sub []); auto. by rewrite app_nil_r.
  - split; rewrite ?Hs, ?Hl, ?Em, ?Ei, ?length_insert; try done.
    + intros j s Hj. destruct (decide (i = j)) as [<-|Hne].
      * rewrite list_lookup_insert_eq in Hj by (by eapply lookup_lt_Some). injection Hj as <-.
        destruct (H1 i sub Hi) as (argv & H). exists argv. rewrite Hr in H. rewrite Hr', Hl, Hres, Herr. done.
      * rewrite list_lookup_insert_ne in Hj by done. apply (life_other m m' i j s []); auto. by rewrite app_nil_r.
    + intros E. specialize (H4 E). by rewrite H4 in Hi.
  - pose proof (end_events_own _ i m l t He Ht) as Hown. rewrite app_assoc in Hl.
    split; rewrite ?Hs, ?Em, ?Ei, ?length_insert; try done.
    + intros j s Hj. destruct (decide (i = j)) as [<-|Hne].
      * rewrite list_lookup_insert_eq in Hj by (by eapply lookup_lt_Some). injection Hj as <-.
        destruct (H1 i sub Hi) as (argv & H). rewrite Hr in H. destruct H as (Hc & Hres & Herr). exists argv.
        assert (child_log i (sm_log m') = Spawned i argv :: l ++ t) as Ec
          by (by rewrite Hl, <- app_assoc, child_log_app, Hc, child_log_own).
        pose proof (announced_keep _ _ _ _ Hk Ht) as Ht'. unfold outcome in Ho.
        assert (exists l t, end_events sub' i l /\ announced m' i t /\ child_log i (sm_log m') = Spawned i argv :: l ++ t) as (l1 & t1 & X1 & X2 & X3)
          by (by exists l, t).
        destruct (sa_status sub') eqn:Es; [by unfold end_events in He; rewrite Es in He..| | |]; exists l1, t1;
          (split; [done|]); (split; [done|]); (split; [done|]); [by rewrite Ho|by destruct Ho as [-> ?]..].
      * rewrite list_lookup_insert_ne in Hj by done. apply (life_other m m' i j s (l ++ t)); auto. by rewrite Hl, app_assoc.
    + rewrite Hl, <- app_assoc. apply Forall_app. split; [done|]. eapply Forall_impl; [exact Hown|]. cbn. intros e ->.
      by eapply lookup_lt_Some.
    + intros E. specialize (H4 E). by rewrite H4 in Hi.
  - split; rewrite ?Hs, ?Em, ?Ei.
    + intros j s Hj. apply lookup_app_Some in Hj as [Hj|[Hge Hj]].
      * apply (life_other m m' (length (sm_subagents m)) j s [Spawned (length (sm_subagents m)) argv]); auto.
        apply lookup_lt_Some in Hj. lia.
      * apply list_lookup_singleton_Some in Hj as [Hj <-]. assert (j = length (sm_subagents m)) as -> by lia.
        exists argv. rewrite Hr, Hl, child_log_app. split; [|done].
        assert (child_log (length (sm_subagents m)) (sm_log m) = []) as ->.
        { clear -H2. induction H2 as [|e l He _ IH]; [done|]. unfold child_log in *. rewrite filter_cons_False by lia. done. }
        unfold child_log. by rewrite filter_cons_True.
    + rewrite Hl, length_app. cbn. apply Forall_app. split; [|repeat constructor; cbn; lia].
      eapply Forall_impl; [exact H2|]. cbn. lia.
    + rewrite length_app. cbn. lia.
    + congruence.
Qed.

Lemma ticks_sane m m' : rtc tick m m' -> sane m -> sane m'.
Proof using. induction 1 as [m|m m1 m' H _ IH]; [done|]. intros Hs. apply IH. by eapply tick_sane. Qed.

(** One operation, whatever the system answers; those that block have no step. *)
Inductive op_step m : SubagentManager -> Prop :=
| op_spawn env task context model : op_step m (subagent_spawn env task context model m).2
| op_spawn_args env args task : op_step m (subagent_spawn_with_args env args task m).2
| op_poll now looks r : subagent_poll_all now looks m = Some r -> op_step m r.1
| op_status now lk turns wait id r :
    subagent_get_status cb out_of_range now lk turns wait id m = Some r -> op_step m r.2
| op_approval io i config rc config' m' :
    subagent_handle_approval_request cb out_of_range io i config m = Some (rc, config', m') -> op_step m m'.

Lemma op_ticks m m' : sane m -> op_step m m' -> rtc tick m m'.
Proof using prints.
  intros Hsane. destruct 1 as [env task context model|env args task|now looks r H|now lk turns wait id r H|io i config rc config' m' H].
  - apply spawn_ticks.
  - apply spawn_args_ticks.
  - by eapply poll_ticks.
  - unfold subagent_get_status in H. destruct (subagent_find_by_id id m) as [[i sub]|] eqn:Ef; [|by injection H as <-].
    apply find_by_id_lookup in Ef as [Hi _]. pose proof (sane_life m Hsane i sub Hi) as (argv & Hlife).
    destruct (sa_status sub) eqn:Es; [by destruct Hlife as (l & t & He & _); unfold end_events in He; rewrite Es in He| |by injection H as <-..]. destruct wait.
    + destruct (wait_loop _ _ _ _ _) as [m1| |] eqn:Ew; [|done..]. injection H as <-. by eapply wait_ticks.
    + destruct (check_subagent now lk i sub m) as [r1|] eqn:Ec; [|done]. injection H as <-.
      eapply rtc_once. exact (check_ticks _ _ _ _ _ _ Hi Es Ec).
  - by eapply rtc_once, approval_ticks.
Qed.

Lemma ops_ticks m m' : sane m -> rtc op_step m m' -> rtc tick m m'.
Proof using prints.
  intros Hs Hr. revert Hs. induction Hr as [m|m m1 m' H _ IH]; [done|]. intros Hs.
  pose proof (op_ticks _ _ Hs H) as Ht. etransitivity; [done|]. apply IH. by eapply ticks_sane.
Qed.

Lemma init_sane max_subagents timeout is_subagent config store agent_id :
  let m := subagent_manager_init_with_config max_subagents timeout is_subagent config store agent_id in
  sane m /\ 1 <= sm_max_subagents m <= SUBAGENT_HARD_CAP /\ 1 <= sm_timeout_seconds m <= SUBAGENT_MAX_TIMEOUT_SEC.
Proof using.
  cbn zeta. unfold subagent_manager_init_with_config.
  set (a := if max_subagents <? 1 then SUBAGENT_MAX_DEFAULT else max_subagents).
  set (b := if timeout <? 1 then SUBAGENT_TIMEOUT_DEFAULT else timeout).
  assert (1 <= a) as Ha by (subst a; destruct (Z.ltb_spec max_subagents 1); [by apply (bool_decide_unpack _)|lia]).
  assert (1 <= b) as Hb by (subst b; destruct (Z.ltb_spec timeout 1); [by apply (bool_decide_unpack _)|lia]).
  unfold SUBAGENT_HARD_CAP, SUBAGENT_MAX_TIMEOUT_SEC. cbn [sm_max_subagents sm_timeout_seconds].
  split; [|split; case_match eqn:E; try apply Z.ltb_ge in E; lia].
  split; cbn; try done. case_match; lia.
Qed.
Lemma tick_stays m m' i sub :
  tick m m' -> sm_subagents m !! i = Some sub ->
  exists sub', sm_subagents m' !! i = Some sub' /\ same_identity sub sub' /\ (sa_status sub <> SUBAGENT_STATUS_RUNNING -> sub' = sub).
Proof using.
  intros Ht Hi. destruct Ht as [_ _ Hs _|j s s' _ _ Hj Hr Hid _ _ _ Hs _|j s s' l t _ _ _ Hj Hr Hid _ _ Hs _|s argv _ _ _ _ _ _ _ Hs _]; rewrite Hs.
  - by exists sub.
  - destruct (decide (j = i)) as [->|Hn]; [|exists sub; by rewrite list_lookup_insert_ne].
    simplify_eq. exists s'. rewrite list_lookup_insert_eq by (by eapply lookup_lt_Some). done.
  - destruct (decide (j = i)) as [->|Hn]; [|exists sub; by rewrite list_lookup_insert_ne].
    simplify_eq. exists s'. rewrite list_lookup_insert_eq by (by eapply lookup_lt_Some). done.
  - exists sub. split; [by apply lookup_app_l_Some|done].
Qed.

Lemma ticks_stay m m' i sub :
  rtc tick m m' -> sm_subagents m !! i = Some sub ->
  exists sub', sm_subagents m' !! i = Some sub' /\ same_identity sub sub' /\ (sa_status sub <> SUBAGENT_STATUS_RUNNING -> sub' = sub).
Proof using.
  intros Hr. revert sub. induction Hr as [m|m m1 m' H _ IH]; intros sub Hi; [by exists sub|].
  destruct (tick_stays _ _ _ _ H Hi) as (s1 & Hi1 & Hid1 & He1). destruct (IH s1 Hi1) as (s2 & Hi2 & Hid2 & He2).
  exists s2. split; [done|]. split.
  - destruct Hid1 as (? & ? & ? & ? & ?), Hid2 as (? & ? & ? & ? & ?). unfold same_identity. split_and!; congruence.
  - intros Hn. specialize (He1 Hn). subst s1. auto.
Qed.

(** *** The messages to the parent *)

(** The subagents the parent was told of, in that order. *)
Definition told_of (log : list ProcEvent) : list nat := omap (fun e => match e with Told i => Some i | _ => None end) log.

(** The row is the message of the end of the subagent at an index. *)
Definition message_of m (row : DirectRow) (i : nat) : Prop :=
  exists sub, sm_subagents m !! i = Some sub /\ sa_status sub <> SUBAGENT_STATUS_RUNNING /\ announces m sub row.

(** The messages that were not there [before] are one for each event [Told]. *)
Definition messages_sent (before : list DirectRow) m : Prop :=
  exists rows, direct_rows m = before ++ rows /\ Forall2 (message_of m) rows (told_of (sm_log m)).

Lemma message_of_tick m m' row i : tick m m' -> message_of m row i -> message_of m' row i.
Proof using.
  intros Ht (sub & Hi & Hs & H1 & H2 & H3). destruct (tick_stays _ _ _ _ Ht Hi) as (sub' & Hi' & _ & He).
  rewrite (He Hs) in Hi'. exists sub. split; [done|]. split; [done|]. split; [done|]. split; [|done].
  apply tick_keeps in Ht as (_ & _ & _ & -> & _). done.
Qed.

Lemma end_events_untold sub i l : end_events sub i l -> told_of l = [].
Proof using.
  unfold end_events. destruct (sa_status sub); try done; [by intros -> | |by intros [-> _]].
  by intros [[-> _]|[[-> _]|[[->|[->| ->]] _]]].
Qed.

Lemma told_of_app l1 l2 : told_of (l1 ++ l2) = told_of l1 ++ told_of l2.
Proof using. apply omap_app. Qed.

Lemma tick_messages before m m' : tick m m' -> messages_sent before m -> messages_sent before m'.
Proof using.
  intros Ht (rows & Hrows & Hall). pose proof (fun row i => message_of_tick m m' row i Ht) as Hkeep.
  assert (Forall2 (message_of m') rows (told_of (sm_log m))) as Hall' by (by eapply Forall2_impl).
  pose proof (tick_keeps _ _ Ht) as (_ & _ & _ & Ha & _).
  destruct Ht as [_ Hd Hs Hl|i sub sub' _ Hd _ _ _ _ _ _ Hs Hl|i sub sub' l t _ Ht Hst Hi Hr _ He _ Hs Hl|sub argv _ Hd _ _ _ _ _ Hs Hl].
  - exists rows. by rewrite Hd, Hl.
  - exists rows. by rewrite Hd, Hl.
  - unfold messages_sent. rewrite Hl, !told_of_app, (end_events_untold _ _ _ He). cbn [app].
    destruct Hst as [(-> & row & Hd & Hrow)|[Hn Hd]]; rewrite Hd, Hrows.
    + exists (rows ++ [row]). rewrite (assoc_L (++)). split; [done|]. apply Forall2_app; [done|].
      apply Forall2_cons. split; [|done]. exists sub'. rewrite Hs, list_lookup_insert_eq by (by eapply lookup_lt_Some).
      split; [done|]. split; [unfold end_events in He; by destruct (sa_status sub')|].
      destruct Hrow as (X1 & X2 & X3). split; [done|]. split; [congruence|done].
    + exists rows. split; [done|]. assert (told_of t = []) as ->; [|by rewrite app_nil_r].
      unfold announced in Ht. repeat case_match; subst; try done. by destruct Ht as [-> | ->].
  - exists rows. rewrite Hd, Hl, told_of_app. cbn. by rewrite app_nil_r.
Qed.

Lemma ticks_messages before m m' : rtc tick m m' -> messages_sent before m -> messages_sent before m'.
Proof using. induction 1 as [m|m m1 m' H _ IH]; [done|]. intros Hs. apply IH. by eapply tick_messages. Qed.

(** *** The end of the manager *)

(** What the end of the manager does to a child: only to one that runs. *)
Definition stopped sub (i : nat) (l : list ProcEvent) : Prop :=
  if decide (sa_status sub = SUBAGENT_STATUS_RUNNING /\ 0 < sa_pid sub) then
    l = [Signalled i SIGTERM; Waited i] \/ l = [Signalled i SIGTERM; Signalled i SIGKILL; Waited i] \/
    l = [Signalled i SIGTERM; WaitFailed i]
  else l = [].

Lemma kill_at_end_stopped env i sub m :
  exists l, kill_at_end env i sub m = logged l m /\ stopped sub i l.
Proof using.
  unfold kill_at_end, stopped. destruct (bool_decide_reflect (sa_status sub = SUBAGENT_STATUS_RUNNING)) as [Hs|Hs], (Z.ltb_spec 0 (sa_pid sub)); cbn [andb].
  - eexists. split; [reflexivity|]. rewrite decide_True by done. destruct (cl_wait env); auto.
  - exists []. rewrite decide_False by (intros [? ?]; lia). split; [|done]. destruct m. unfold logged. cbn. by rewrite app_nil_r.
  - exists []. rewrite decide_False by tauto. split; [|done]. destruct m. unfold logged. cbn. by rewrite app_nil_r.
  - exists []. rewrite decide_False by tauto. split; [|done]. destruct m. unfold logged. cbn. by rewrite app_nil_r.
Qed.

Lemma cleanup_subagent_frame env i sub m :
  sm_log (cleanup_subagent env i sub m) = sm_log m /\
  forall j, j <> i -> sm_subagents (cleanup_subagent env i sub m) !! j = sm_subagents m !! j.
Proof using.
  unfold cleanup_subagent. split; [by repeat case_match|]. intros j Hj. repeat case_match; cbn; by apply list_lookup_insert_ne.
Qed.

Lemma stopped_own sub i l : stopped sub i l -> Forall (fun e => event_index e = i) l.
Proof using.
  unfold stopped. destruct (decide _); [|by intros ->]. intros [->|[->| ->]]; repeat constructor.
Qed.

Lemma cleanup_stops env n : forall i m j sub,
  sm_subagents m !! j = Some sub -> (j < i + n)%nat ->
  exists l, child_log j (sm_log (cleanup_from env n i m)) = child_log j (sm_log m) ++ l /\
    (if decide (i <= j)%nat then stopped sub j l else l = []).
Proof using.
  induction n as [|n IH]; intros i m j sub Hj Hlt; cbn [cleanup_from].
  { exists []. rewrite app_nil_r, decide_False by lia. done. }
  destruct (sm_subagents m !! i) as [s|] eqn:Ei.
  2: { exists []. rewrite app_nil_r. split; [done|]. apply lookup_lt_Some in Hj. apply lookup_ge_None in Ei. by rewrite decide_False by lia. }
  destruct (kill_at_end_stopped (env i) i s m) as (k & -> & Hk).
  set (m1 := logged k m). destruct (cleanup_subagent_frame (env i) i s m1) as [Hlog Hsubs].
  assert (child_log j (sm_log m1) = child_log j (sm_log m) ++ child_log j k) as Hm1 by apply child_log_app.
  destruct (decide (i = j)) as [<-|Hne].
  - rewrite Hj in Ei. injection Ei as <-. exists k. rewrite decide_True by lia.
    set (m2 := cleanup_subagent (env i) i sub m1) in *.
    assert (is_Some (sm_subagents m2 !! i)) as [s' Hs'].
    { apply lookup_lt_is_Some. apply lookup_lt_Some in Hj. unfold m2, cleanup_subagent.
      repeat case_match; cbn; by rewrite length_insert. }
    destruct (IH (S i) m2 i s' Hs') as (l & -> & Hl); [lia|]. rewrite decide_False in Hl by lia. subst l.
    rewrite app_nil_r, Hlog, Hm1. split; [|done]. f_equal. by apply child_log_own, (stopped_own sub).
  - change (sm_subagents m) with (sm_subagents m1) in Hj. rewrite <- (Hsubs j) in Hj by done. destruct (IH (S i) _ j sub Hj) as (l & -> & Hl); [lia|]. exists l.
    rewrite Hlog, Hm1, (child_log_other i j k) by (done || by eapply stopped_own). rewrite app_nil_r. split; [done|].
    destruct (decide (S i <= j)%nat), (decide (i <= j)%nat); try done; lia.
Qed.

(** C8: from the start of the manager on, whatever operations run and whatever the
    system answers to those that return, every subagent has one life. While it runs,
    nothing was done to its child after the start. When it has ended, its child was
    signalled at most once per signal and then either waited for or the wait answered
    an error (which the error of the subagent says, unless the user interrupted it),
    and was never touched again; then, if the agent has an id and a message store,
    the end was told to the agent once and last, or storing that message failed; the
    messages in the store are those of the ends that were told, in order, with their
    status, result and error. There are never more subagents than the limit, and none
    in a process that is a subagent itself. The end of the manager signals and waits
    for exactly the children that run, and forgets all. *)
Theorem subagent_lives max_subagents timeout is_subagent config store agent_id m :
  let m0 := subagent_manager_init_with_config max_subagents timeout is_subagent config store agent_id in
  rtc op_step m0 m ->
  (forall i sub, sm_subagents m !! i = Some sub -> life m i sub) /\
  messages_sent (direct_rows m0) m /\
  Z.of_nat (length (sm_subagents m)) <= sm_max_subagents m <= SUBAGENT_HARD_CAP /\
  (is_subagent = true -> sm_subagents m = []) /\
  forall env, sm_subagents (subagent_manager_cleanup env m) = [] /\
    forall i sub, sm_subagents m !! i = Some sub ->
      exists l, child_log i (sm_log (subagent_manager_cleanup env m)) = child_log i (sm_log m) ++ l /\ stopped sub i l.
Proof using prints.
  cbn zeta. destruct (init_sane max_subagents timeout is_subagent config store agent_id) as (Hs & Hm & _).
  set (m0 := subagent_manager_init_with_config _ _ _ _ _ _) in *. intros Hr%(ops_ticks _ _ Hs).
  pose proof (ticks_sane _ _ Hr Hs) as [H1 _ H3 H4]. pose proof (ticks_keep _ _ Hr) as (E1 & _ & E3 & _ & _).
  split; [done|]. split.
  { eapply ticks_messages; [exact Hr|]. exists []. by rewrite app_nil_r. }
  split; [rewrite E1 in *; lia|]. split; [intros ->; by apply H4|].
  intros env. split; [done|]. intros i sub Hi.
  destruct (cleanup_stops env (length (sm_subagents m)) 0 m i sub Hi) as (l & El & Hl); [by apply lookup_lt_Some in Hi|].
  exists l. split; [exact El|]. by rewrite decide_True in Hl by lia.
Qed.

(** C34: the limit is one of starts, not of running children: once as many subagents
    were started as the limit says, every later start fails for the rest of the session,
    although all of them may have ended, and the tool names the number of concurrent
    subagents as the reason; the ended ones stay in the array as they are. *)
Theorem subagent_slots_spent max_subagents timeout config store agent_id m m' env task context model args desc :
  rtc op_step (subagent_manager_init_with_config max_subagents timeout false config store agent_id) m ->
  Z.of_nat (length (sm_subagents m)) = sm_max_subagents m -> rtc op_step m m' ->
  subagent_spawn env task context model m' = (-1, [], m') /\
  subagent_spawn_with_args env args desc m' = (-1, [], m') /\
  (forall resolve default_model call result t,
     non_empty (extract_json_string_value (tc_arguments call) "task") = Some t ->
     execute_subagent_tool_call env resolve default_model call result m' =
     (answer_call call result (error_object (cs "Maximum number of concurrent subagents (" ++
                                          int_text (sm_max_subagents m) ++ cs ") reached")) false, m')) /\
  (forall i sub, sm_subagents m !! i = Some sub -> sa_status sub <> SUBAGENT_STATUS_RUNNING ->
     sm_subagents m' !! i = Some sub).
Proof using prints.
  destruct (init_sane max_subagents timeout false config store agent_id) as (Hs & Hm & _).
  set (m0 := subagent_manager_init_with_config _ _ _ _ _ _) in *. intros Hr%(ops_ticks _ _ Hs) Hfull Hr'.
  pose proof (ticks_sane _ _ Hr Hs) as Hs1. pose proof (ops_ticks _ _ Hs1 Hr') as Ht.
  pose proof (ticks_sane _ _ Ht Hs1) as Hs2. pose proof (ticks_keep _ _ Ht) as (E1 & _ & E3 & _ & _).
  pose proof (ticks_keep _ _ Hr) as (_ & _ & E3' & _ & _).
  assert (Z.of_nat (length (sm_subagents m')) = sm_max_subagents m') as Hfull'.
  { pose proof (sane_count _ Hs2). destruct (sm_subagents m) as [|s l] eqn:El; [cbn in *; lia|].
    destruct (lookup_lt_is_Some_2 (s :: l) (length l)) as [s1 Hl]; [cbn; lia|]. rewrite <- El in Hl.
    destruct (ticks_stay _ _ _ _ Ht Hl) as (s' & Hi & _).
    apply lookup_lt_Some in Hi. cbn in *. lia. }
  assert (prefork_setup env m' = false) as Hpre.
  { unfold prefork_setup. rewrite E3, E3'. cbn. rewrite (proj2 (Z.leb_le (sm_max_subagents m') (Z.of_nat (length (sm_subagents m'))))) by lia. by rewrite orb_true_r. }
  assert (subagent_spawn env task context model m' = (-1, [], m')) as Hspawn by (unfold subagent_spawn; by rewrite Hpre).
  split; [done|]. split; [unfold subagent_spawn_with_args; rewrite Hpre; by destruct args|]. split.
  - intros resolve default_model call result t Ht'. unfold execute_subagent_tool_call. rewrite E3, E3'. cbn. rewrite Ht'.
    unfold subagent_spawn. rewrite Hpre. cbn. rewrite (proj2 (Z.leb_le (sm_max_subagents m') (Z.of_nat (length (sm_subagents m'))))) by lia. by rewrite E1.
  - intros i sub Hi Hn. destruct (ticks_stay _ _ _ _ Ht Hi) as (s' & Hi' & _ & He). by rewrite Hi', He.
Qed.
End Life.

(** ** The output of a child *)

(** The bytes of the reads until one that answers otherwise. *)
Fixpoint received (reads : list PipeRead) : cstr :=
  match reads with PipeData bytes :: reads' => bytes ++ received reads' | _ => [] end.

Definition output_bytes (sub : Subagent) : cstr := default [] (sa_output sub).

Lemma append_output_take out bytes out' :
  append_output out bytes = Some out' -> (length (default [] out) <= SUBAGENT_MAX_OUTPUT_LENGTH)%nat ->
  out' = take SUBAGENT_MAX_OUTPUT_LENGTH (default [] out ++ bytes).
Proof.
  unfold append_output. set (old := default [] out). generalize SUBAGENT_MAX_OUTPUT_LENGTH. intros n.
  destruct (Nat.ltb_spec n (length old + length bytes)) as [H|H].
  - destruct (n - length old)%nat as [|room] eqn:E; [done|]. intros [= <-] Hl.
    rewrite take_app, (take_ge old) by done. by rewrite E.
  - intros [= <-] _. by rewrite take_ge by (rewrite length_app; lia).
Qed.

Lemma append_output_full out bytes :
  append_output out bytes = None -> (length (default [] out) <= SUBAGENT_MAX_OUTPUT_LENGTH)%nat ->
  length (default [] out) = SUBAGENT_MAX_OUTPUT_LENGTH.
Proof.
  unfold append_output. set (old := default [] out). generalize SUBAGENT_MAX_OUTPUT_LENGTH. intros n.
  destruct (Nat.ltb_spec n (length old + length bytes)) as [H|H]; [|done]. destruct (n - length old)%nat eqn:E; [|done]. lia.
Qed.

Lemma take_take_app {A} n (l k : list A) : take n (take n l ++ k) = take n (l ++ k).
Proof.
  rewrite !take_app, take_take, Nat.min_id, length_take. f_equal. f_equal. lia.
Qed.

Lemma output_loop_take reads : forall out out' n ending,
  output_loop out reads = (out', n, ending) -> (length (default [] out) <= SUBAGENT_MAX_OUTPUT_LENGTH)%nat ->
  default [] out' = take SUBAGENT_MAX_OUTPUT_LENGTH (default [] out ++ received reads).
Proof.
  induction reads as [|[bytes| | |] reads IH]; intros out out' n ending; cbn [output_loop received];
    try (intros [= <- _ _] Hl; rewrite app_nil_r, take_ge; done).
  destruct (append_output out bytes) as [out1|] eqn:E.
  - destruct (output_loop (Some out1) reads) as [[o k] e] eqn:El. intros [= <- _ _] Hl.
    pose proof (append_output_take _ _ _ E Hl) as ->. rewrite (IH _ _ _ _ El).
    + cbn [default from_option]. unfold id. by rewrite take_take_app, app_assoc.
    + cbn [default from_option]. unfold id. rewrite length_take. lia.
  - intros [= <- _ _] Hl. pose proof (append_output_full _ _ E Hl) as Hf. rewrite take_app, <- Hf.
    by rewrite Nat.sub_diag, take_0, app_nil_r, take_ge.
Qed.

Lemma nonblocking_output reads sub :
  0 < sa_stdout sub -> (length (output_bytes sub) <= SUBAGENT_MAX_OUTPUT_LENGTH)%nat ->
  let sub' := (read_subagent_output_nonblocking reads sub).2 in
  output_bytes sub' = take SUBAGENT_MAX_OUTPUT_LENGTH (output_bytes sub ++ received reads) /\ sa_stdout sub' = sa_stdout sub.
Proof.
  intros Hf Hl. cbn zeta. unfold read_subagent_output_nonblocking. rewrite (proj2 (Z.leb_gt _ _)) by done.
  destruct (output_loop (sa_output sub) reads) as [[out n] ending] eqn:E. split; [|done]. cbn. by apply (output_loop_take _ _ _ _ _ E).
Qed.

Lemma blocking_output reads sub r :
  0 < sa_stdout sub -> (length (output_bytes sub) <= SUBAGENT_MAX_OUTPUT_LENGTH)%nat ->
  read_subagent_output reads sub = Some r ->
  output_bytes r.2 = take SUBAGENT_MAX_OUTPUT_LENGTH (output_bytes sub ++ received reads).
Proof.
  intros Hf Hl. unfold read_subagent_output. rewrite (proj2 (Z.leb_gt _ _)) by done.
  destruct (output_loop (sa_output sub) reads) as [[out n] ending] eqn:E. pose proof (output_loop_take _ _ _ _ _ E Hl) as Ht.
  destruct ending; intros H; try done; injection H as <-; exact Ht.
Qed.

(** ** What the parent is told *)

Section Told.
Context {R : Regex} {J : CJson} {JS : CJsonSpec J} {K : Rowids}.
Implicit Types (m : SubagentManager (R := R)) (sub : Subagent).

(** Looks that find the subagent running. *)
Fixpoint looks_at (lks : list Look) (i : nat) m : option SubagentManager :=
  match lks with
  | [] => Some m
  | lk :: lks' =>
      sub ← sm_subagents m !! i;
      match look lk i sub m with Some (m, false) => looks_at lks' i m | _ => None end
  end.

Lemma looks_output lks : forall i m m' sub,
  looks_at lks i m = Some m' -> sm_subagents m !! i = Some sub -> 0 < sa_stdout sub ->
  (length (output_bytes sub) <= SUBAGENT_MAX_OUTPUT_LENGTH)%nat ->
  sm_store m' = sm_store m /\ sm_agent_id m' = sm_agent_id m /\
  exists sub', sm_subagents m' !! i = Some sub' /\ same_identity sub sub' /\
    sa_status sub' = sa_status sub /\ sa_result sub' = sa_result sub /\ sa_error sub' = sa_error sub /\ 0 < sa_stdout sub' /\
    output_bytes sub' = take SUBAGENT_MAX_OUTPUT_LENGTH (output_bytes sub ++ flat_map (fun lk => received (lk_reads lk)) lks).
Proof using.
  induction lks as [|lk lks IH]; intros i m m' sub; cbn [looks_at flat_map].
  - intros [= <-] Hi Hf Hl. split; [done|]. split; [done|]. exists sub. rewrite app_nil_r, take_ge by done. done.
  - intros H Hi Hf Hl. rewrite Hi in H. cbn [mbind option_bind] in H.
    destruct (nonblocking_output (lk_reads lk) sub Hf Hl) as (Ho & Hf1).
    destruct (nonblocking_quiet (lk_reads lk) sub) as (Hid & Hs & Hr & He). unfold look in H.
    set (sub1 := (read_subagent_output_nonblocking (lk_reads lk) sub).2) in *. clearbody sub1.
    assert (looks_at lks i (set_subagent i sub1 m) = Some m') as H1.
    { destruct (lk_wait lk); try done. by destruct (subagent_handle_process_exit _ _ _). }
    assert (sm_subagents (set_subagent i sub1 m) !! i = Some sub1) as Hi1.
    { cbn. apply list_lookup_insert_eq. by eapply lookup_lt_Some. }
    destruct (IH i (set_subagent i sub1 m) m' sub1 H1 Hi1) as (E1 & E2 & sub2 & Hi2 & Hid2 & Hs2 & Hr2 & He2 & Hf2 & Ho2).
    { by rewrite Hf1. }
    { rewrite Ho, length_take. lia. }
    split; [done|]. split; [done|]. exists sub2. split; [done|].
    split. { destruct Hid as (? & ? & ? & ? & ?), Hid2 as (? & ? & ? & ? & ?). unfold same_identity. split_and!; congruence. }
    split; [congruence|]. split; [congruence|]. split; [congruence|]. split; [done|].
    by rewrite Ho2, Ho, take_take_app, app_assoc.
Qed.

Lemma completion_ok now sub : json_ok CJSON_NESTING_LIMIT (completion_json now sub).
Proof using.
  assert (forall n, json_ok (S n) (completion_json now sub)) as H; [|exact (H 999%nat)].
  intros n. cbn [json_ok completion_json]. rewrite !Forall_app. unfold string_member.
  assert (forall (k v : cstr), json_ok n (k, JString v).2) as Hs by (intros k v; by destruct n).
  split; [repeat (apply Forall_cons_2; [apply Hs|]); apply Forall_nil_2|].
  split; [destruct (sa_result sub); repeat (apply Forall_cons_2; [apply Hs|]); apply Forall_nil_2|].
  split; [destruct (sa_error sub); repeat (apply Forall_cons_2; [apply Hs|]); apply Forall_nil_2|].
  split; [repeat (apply Forall_cons_2; [apply Hs|]); apply Forall_nil_2|].
  destruct (0 <? sa_start_time sub); [|apply Forall_nil_2]. apply Forall_cons_2; [|apply Forall_nil_2].
  pose proof (wrap32_range (now - sa_start_time sub)). destruct n; cbn; lia.
Qed.

(** What a finished child has left behind. *)
Definition told_outcome (status : ProcStatus) (out : cstr) (members : list (cstr * cJSON)) : Prop :=
  if decide (status = Exited 0) then
    find_member_cs members (cs "status") = Some (JString (cs "completed")) /\
    (out <> [] -> find_member_cs members (cs "result") = Some (JString (c_string out))) /\
    find_member_cs members (cs "error") = None
  else
    find_member_cs members (cs "status") = Some (JString (cs "failed")) /\
    find_member_cs members (cs "result") = None /\
    find_member_cs members (cs "error") =
      Some (JString (c_string (exit_message status ++ match out with [] => [] | _ => cs ". Output: " ++ c_string out end))).

Lemma exit_outcome status final sub sub' now :
  subagent_handle_process_exit status final sub = Some sub' -> 0 < sa_stdout sub -> sa_result sub = None -> sa_error sub = None ->
  (length (output_bytes sub) <= SUBAGENT_MAX_OUTPUT_LENGTH)%nat ->
  sa_id sub' = sa_id sub /\
  told_outcome status (take SUBAGENT_MAX_OUTPUT_LENGTH (output_bytes sub ++ received final))
    match completion_json now sub' with JObject l => l | _ => [] end.
Proof using.
  intros H Hf Hres Herr Hl. unfold subagent_handle_process_exit in H.
  destruct (read_subagent_output final sub) as [r|] eqn:E; [|done]. cbn [mbind option_bind] in H.
  pose proof (blocking_output _ _ _ Hf Hl E) as Ho. apply blocking_quiet in E as ((Hid & _) & _ & Hr & He).
  rewrite <- Ho. clear Ho. unfold output_bytes in *. unfold told_outcome.
  assert (forall z : Z, status = Exited z -> z <> 0 -> status <> Exited 0) as Hz by (intros z -> Hn [= ?]; done).
  destruct (decide (status = Exited 0)) as [->|Hn].
  - injection H as <-. cbn. split; [done|]. unfold completion_json. cbn. rewrite He, Herr. unfold string_member.
    destruct (sa_output r.2) as [[|c out]|]; cbn; (split; [done|]); (split; [done|]);
      (destruct (0 <? sa_start_time r.2); reflexivity).
  - assert (Some (with_output None (ended SUBAGENT_STATUS_FAILED (sa_result r.2)
      (Some match sa_output r.2 with
            | Some (c :: out) => exit_message status ++ cs ". Output: " ++ c_string (c :: out)
            | _ => exit_message status end) r.2)) = Some sub') as H'.
    { destruct status as [[|z|z]|z|]; try exact H. done. }
    clear H. injection H' as <-. cbn [with_output ended sa_id sa_output]. split; [done|]. unfold completion_json.
    cbn [sa_status sa_id sa_result sa_error sa_task sa_start_time with_output ended]. rewrite Hr, Hres. unfold string_member.
    destruct (sa_output r.2) as [[|c out]|]; cbn [default from_option id app];
      (split; [reflexivity|]); (split; [by destruct (0 <? sa_start_time r.2)|]);
      rewrite ?app_nil_r; reflexivity.
Qed.

(** C23: what a child writes reaches its parent: whatever pieces its output is read in
    by how many looks, when it has ended the parent's inbox has one more message, from
    the subagent, unread and without expiry, that says how the child ended, with the
    first 131072 bytes of the output as its result or at the end of its error. *)
Theorem completion_delivered lks lk status i m m1 sub sub1 r db c agent u :
  sm_subagents m !! i = Some sub -> sa_status sub = SUBAGENT_STATUS_RUNNING -> 0 < sa_stdout sub ->
  sa_output sub = None -> sa_result sub = None -> sa_error sub = None ->
  sm_agent_id m = Some (c :: agent) -> sm_store m = Some db ->
  looks_at lks i m = Some m1 -> sm_subagents m1 !! i = Some sub1 ->
  lk_wait lk = Reaped status -> look lk i sub1 m1 = Some r ->
  te_stmt (lk_tell lk) = StmtOk -> te_uuid (lk_tell lk) = Some u -> u ∉ map dr_id (direct_messages db) ->
  (forall now s, is_Some (cJSON_PrintUnformatted (completion_json now s))) ->
  exists db' row members,
    sm_store r.1 = Some db' /\ direct_messages db' = direct_messages db ++ [row] /\
    dr_sender row = sa_id sub /\ dr_recipient row = c :: agent /\ dr_read_at row = None /\ dr_expires_at row = None /\
    cJSON_Parse (dr_content row) = Some (JObject members) /\
    find_member_cs members (cs "subagent_id") = Some (JString (sa_id sub)) /\
    told_outcome status
      (take SUBAGENT_MAX_OUTPUT_LENGTH (flat_map (fun lk => received (lk_reads lk)) lks ++ received (lk_reads lk) ++ received (lk_final lk)))
      members.
Proof using JS.
  intros Hi Hs Hf Hout Hres Herr Ha Hdb Hlooks Hi1 Hw Hlook Hst Hu Hfresh prints.
  assert (output_bytes sub = []) as Hob by (unfold output_bytes; by rewrite Hout).
  destruct (looks_output lks i m m1 sub Hlooks Hi Hf) as (Edb & Eid & s1 & Hs1 & Hid1 & _ & Hr1 & He1 & Hf1 & Ho1);
    [rewrite Hob; cbn; lia|]. rewrite Hi1 in Hs1. injection Hs1 as <-. rewrite Hob in Ho1. cbn [app] in Ho1.
  destruct (nonblocking_output (lk_reads lk) sub1 Hf1) as (Ho2 & Hf2); [rewrite Ho1, length_take; lia|].
  destruct (nonblocking_quiet (lk_reads lk) sub1) as (Hid2 & _ & Hr2 & He2). unfold look in Hlook. rewrite Hw in Hlook.
  set (sub2 := (read_subagent_output_nonblocking (lk_reads lk) sub1).2) in *. clearbody sub2.
  destruct (subagent_handle_process_exit status (lk_final lk) sub2) as [sub3|] eqn:E; [|done].
  cbn [mbind option_bind] in Hlook. injection Hlook as <-.
  destruct (exit_outcome _ _ _ _ (te_now (lk_tell lk)) E) as (Eid3 & Hout3); [by rewrite Hf2|congruence|congruence|rewrite Ho2, length_take; lia|].
  rewrite Ho2, Ho1, take_take_app, <- app_assoc, take_take_app in Hout3.
  assert (sa_id sub3 = sa_id sub) as Hid by (rewrite Eid3, (proj1 Hid2); apply Hid1).
  unfold finish_with, subagent_notify_parent. cbn [fst sm_agent_id sm_store set_subagent with_subagents logged]. rewrite Eid, Edb, Ha, Hdb.
  destruct (prints (te_now (lk_tell lk)) sub3) as [t Ht]. rewrite Ht. unfold message_send_direct. rewrite Hst, Hu.
  assert (forall row, dr_id row = u -> insert_row same_direct row (direct_messages db) = Some (direct_messages db ++ [row])) as Hins.
  { intros row Hrow. apply insert_row_Some. split; [|done]. intros r' Hr'. unfold same_direct. rewrite Hrow.
    apply streq_false. intros Heq. apply Hfresh. rewrite Heq. by apply list_elem_of_In, in_map, list_elem_of_In. }
  rewrite Hins by done.
  destruct (print_document _ _ (completion_ok (te_now (lk_tell lk)) sub3) Ht) as [Hp _].
  eexists _, _, (match completion_json (te_now (lk_tell lk)) sub3 with JObject l => l | _ => [] end).
  split; [reflexivity|]. split; [reflexivity|]. cbn [dr_sender dr_recipient dr_read_at dr_expires_at dr_content].
  split; [done|]. split; [done|]. split; [done|]. split; [done|]. split; [exact Hp|]. split; [|exact Hout3].
  rewrite <- Hid. reflexivity.
Qed.
End Told.

(** ** Waiting *)

Section Waiting.
Context {R : Regex} {J : CJson} {K : Rowids} (cb : ApprovalGateCallbacks) (out_of_range : Z -> Z).
Context (prints : forall now sub, is_Some (cJSON_PrintUnformatted (completion_json now sub))).
Implicit Types (m : SubagentManager (R := R)) (sub : Subagent).

(** The reads after the end of the child come to an end, and a request for approval
    is answered. *)
Definition turn_answers (t : Turn) : Prop :=
  (forall sub, is_Some (read_subagent_output (lk_final (tn_look t)) sub)) /\
  (forall config : ApprovalGateConfig R,
     is_Some (handle_subagent_approval_request cb out_of_range (ai_parent (tn_approval t)) config (ai_reads (tn_approval t))
                (ai_writes (tn_approval t)) (ai_input (tn_approval t)))).

Lemma wait_approvals_answered t sub m : turn_answers t -> is_Some (wait_approvals cb out_of_range (tn_approval t) sub m).
Proof using.
  intros [_ H]. unfold wait_approvals. destruct (sm_gate_config m) as [config|]; [|done]. destruct (2 <? _); [|done].
  destruct (subagent_poll_approval_requests _ m) as [idx|]; [|done]. unfold subagent_handle_approval_request.
  destruct (sm_subagents m !! idx) as [s|]; [|done]. destruct (decide _); [|done].
  destruct (H config) as [[[[rc config'] sent] input] ->]. cbn [mbind option_bind]. by destruct (rc <? 0).
Qed.

Lemma finish_at env i sub m s0 :
  sm_subagents m !! i = Some s0 -> sm_subagents (finish_with env i sub m) !! i = Some sub.
Proof using prints.
  intros Hi. unfold finish_with. rewrite (proj1 (proj2 (notify_parent prints env i sub _))). cbn.
  apply list_lookup_insert_eq. by eapply lookup_lt_Some.
Qed.

Definition has_ended m (i : nat) : Prop :=
  exists sub, sm_subagents m !! i = Some sub /\ sa_status sub <> SUBAGENT_STATUS_RUNNING.

Lemma interrupt_ends t i sub m :
  turn_answers t -> sm_subagents m !! i = Some sub ->
  exists m', interrupt_subagent (tn_look t) i sub m = Some m' /\ has_ended m' i.
Proof using prints.
  intros [H _] Hi. unfold interrupt_subagent.
  destruct (H (ended SUBAGENT_STATUS_FAILED (sa_result sub) (Some (cs "Interrupted by user")) sub)) as [r Hr]. rewrite Hr.
  eexists. split; [reflexivity|]. eexists. split; [by eapply finish_at|].
  apply blocking_quiet in Hr as (_ & Hs & _). by rewrite Hs.
Qed.

Lemma time_out_ends t i sub m :
  turn_answers t -> sm_subagents m !! i = Some sub -> exists m', time_out (tn_look t) i sub m = Some m' /\ has_ended m' i.
Proof using prints.
  intros [H _] Hi. unfold time_out. destruct (H sub) as [r Hr]. rewrite Hr. eexists. split; [reflexivity|].
  eexists. split; [by eapply finish_at|done].
Qed.

Lemma look_ends t i sub m :
  turn_answers t -> sm_subagents m !! i = Some sub -> sa_status sub = SUBAGENT_STATUS_RUNNING ->
  exists m' b, look (tn_look t) i sub m = Some (m', b) /\
    if b : bool then has_ended m' i
    else keeps m m' /\ exists sub', sm_subagents m' !! i = Some sub' /\ sa_status sub' = SUBAGENT_STATUS_RUNNING /\
                                    sa_start_time sub' = sa_start_time sub.
Proof using prints.
  intros [H _] Hi Hs. unfold look. destruct (nonblocking_quiet (lk_reads (tn_look t)) sub) as (Hid & Hst & _).
  set (sub1 := (read_subagent_output_nonblocking _ sub).2) in *. clearbody sub1.
  assert (sm_subagents (set_subagent i sub1 m) !! i = Some sub1) as Hput by (cbn; apply list_lookup_insert_eq; by eapply lookup_lt_Some).
  destruct (lk_wait (tn_look t)) as [|status| |].
  - eexists _, false. split; [reflexivity|]. split; [done|]. exists sub1. split; [done|]. split; [congruence|apply Hid].
  - destruct (H sub1) as [r Hr]. assert (exists sub2, subagent_handle_process_exit status (lk_final (tn_look t)) sub1 = Some sub2 /\
      sa_status sub2 <> SUBAGENT_STATUS_RUNNING) as (sub2 & -> & Hn).
    { destruct (subagent_handle_process_exit status (lk_final (tn_look t)) sub1) as [sub2|] eqn:E.
      - exists sub2. split; [done|]. apply process_exit in E as (_ & _ & Es). destruct (decide _); [by rewrite Es|by destruct Es as [-> _]].
      - unfold subagent_handle_process_exit in E. rewrite Hr in E. by destruct status as [[]| |]. }
    eexists _, true. split; [reflexivity|]. eexists. split; [by eapply finish_at|done].
  - eexists _, false. split; [reflexivity|]. split; [done|]. exists sub1. split; [done|]. split; [congruence|apply Hid].
  - eexists _, true. split; [reflexivity|]. eexists. split; [by eapply finish_at|done].
Qed.

(** C32: waiting for a subagent returns with the subagent ended as soon as the clock
    has passed its limit of time, whatever its child does until then, provided that
    the requests for approval are answered and the output of the killed child comes to
    an end; while it does not, because something else holds the pipe open, the agent
    blocks. *)
Theorem wait_returns turns i m sub :
  sm_subagents m !! i = Some sub -> sa_status sub = SUBAGENT_STATUS_RUNNING ->
  Forall turn_answers turns -> Exists (fun t => sm_timeout_seconds m < tn_now t - sa_start_time sub) turns ->
  (exists m', wait_loop cb out_of_range turns i m = WaitDone m' /\ has_ended m' i) /\
  (forall lk now, overdue now sub m = true -> 0 < sa_stdout sub ->
     (forall r, r ∈ lk_final lk -> exists c t, r = PipeData (c :: t)) ->
     (length (output_bytes sub ++ received (lk_final lk)) <= SUBAGENT_MAX_OUTPUT_LENGTH)%nat ->
     check_subagent now lk i sub m = None).
Proof using prints.
  intros Hi Hs Hall Hex. split.
  - revert m sub Hi Hs Hex. induction Hall as [|t turns Ht _ IH]; intros m sub Hi Hs Hex; [by inversion Hex|].
    cbn [wait_loop]. rewrite Hi, decide_True by done. destruct (tn_interrupt t).
    { destruct (interrupt_ends t i sub m Ht Hi) as (m' & -> & He). by exists m'. }
    destruct (overdue (tn_now t) sub m) eqn:Eo.
    { destruct (time_out_ends t i sub m Ht Hi) as (m' & -> & He). by exists m'. }
    destruct (wait_approvals_answered t sub m Ht) as [m1 E]. rewrite E.
    destruct (wait_approvals_running _ _ _ _ _ _ _ E Hi Hs) as (sub1 & Hi1 & Hs1). rewrite Hi1.
    apply wait_approvals_ticks in E. pose proof (ticks_keep _ _ E) as (_ & Et & _).
    destruct (ticks_stay _ _ _ _ E Hi) as (sub1' & Hi1' & (_ & _ & _ & _ & Estart) & _). simplify_eq.
    destruct (look_ends t i sub1 m1 Ht Hi1 Hs1) as (m2 & b & -> & Hb). destruct b; [by exists m2|].
    destruct Hb as ((_ & Et2 & _) & sub2 & Hi2 & Hs2 & Estart2). apply (IH m2 sub2); [done|done|].
    apply Exists_cons in Hex as [Hnow|Hex].
    + unfold overdue in Eo. apply Z.ltb_ge in Eo. lia.
    + rewrite Et2, Et, Estart2, Estart. done.
  - intros lk now Ho Hf Hdata Hlen. unfold check_subagent. rewrite Ho. unfold time_out, read_subagent_output.
    rewrite (proj2 (Z.leb_gt _ _)) by done.
    assert (forall reads out, (forall r, r ∈ reads -> exists c t, r = PipeData (c :: t)) ->
      (length (default [] out ++ received reads) <= SUBAGENT_MAX_OUTPUT_LENGTH)%nat -> (output_loop out reads).2 = NothingMore) as H.
    { clear. induction reads as [|r reads IH]; intros out Hd Hl; [done|].
      destruct (Hd r) as (c & t & ->); [left|]. cbn [output_loop received] in *. rewrite !length_app in Hl.
      assert (append_output out (c :: t) = Some (default [] out ++ c :: t)) as ->.
      { unfold append_output. destruct (Nat.ltb_spec SUBAGENT_MAX_OUTPUT_LENGTH (length (default [] out) + length (c :: t))); [lia|done]. }
      specialize (IH (Some (default [] out ++ c :: t))). destruct (output_loop (Some _) reads) as [[o n] e].
      cbn [snd] in *. apply IH; [intros r Hr; apply Hd; by right|].
      change (default [] (Some (default [] out ++ c :: t))) with (default [] out ++ c :: t). rewrite !length_app. lia. }
    specialize (H (lk_final lk) (sa_output sub) Hdata Hlen). destruct (output_loop (sa_output sub) (lk_final lk)) as [[o n] e].
    cbn [snd] in H. by subst e.
Qed.
End Waiting.

(** ** The text of a status *)

(** The answer of subagent_status is one JSON object with the status and the
    result, the error or the notice that belongs to it, whatever the child has written,
    and counts as a success exactly for a running or completed subagent. *)
Theorem status_reads_back {J : CJson} {JS : CJsonSpec J} result error result_b error_b :
  json_escape_string (Some result) = Some result_b -> json_escape_string (Some error) = Some error_b ->
  let answer status r e members (success : bool) :=
    reads_as (Some (status_response status r e).1) ((cs "status", RawString (subagent_status_to_string status)) :: members) /\
    (status_response status r e).2 = success in
  answer SUBAGENT_STATUS_RUNNING None None [(cs "message", RawString (cs "Subagent is still running"))] true /\
  answer SUBAGENT_STATUS_COMPLETED (Some result) None [(cs "result", RawString result_b)] true /\
  answer SUBAGENT_STATUS_COMPLETED None None [] true /\
  answer SUBAGENT_STATUS_FAILED None (Some error) [(cs "error", RawString error_b)] false /\
  answer SUBAGENT_STATUS_TIMEOUT None (Some error) [(cs "error", RawString error_b)] false.
Proof.
  intros Er Ee answer. subst answer. unfold status_response. cbn [mbind option_bind]. rewrite Er, Ee.
  apply json_escape_closed in Er, Ee. unfold member.
  split_and!; try reflexivity; (apply reads_as_text; [done|closed_solve|same_text]).
Qed.

(** ** The channel of a subagent *)

(** A channel that is set up has two descriptors that are none of the standard ones. *)
Lemma channel_descriptors request_fd_str response_fd_str pid channel ch :
  subagent_init_approval_channel request_fd_str response_fd_str pid channel = (0, Some ch) ->
  2 < ac_request_fd ch < 2 ^ 31 /\ 2 < ac_response_fd ch < 2 ^ 31.
Proof.
  assert (forall s z, descriptor s = Some z -> 2 < z < 2 ^ 31) as H.
  { intros s z. unfold descriptor. destruct (strtol s) as [[v []] [|c r]]; try done.
    destruct (_ || _) eqn:E; [done|]. intros [= <-]. apply orb_false_iff in E as [E1%Z.leb_gt E2%Z.ltb_ge]. lia. }
  unfold subagent_init_approval_channel.
  destruct request_fd_str as [a|]; [|done]. destruct response_fd_str as [b|]; [|by destruct (Some a ≫= descriptor)].
  cbn [mbind option_bind]. destruct (descriptor a) as [x|] eqn:Ex; [|done]. destruct (descriptor b) as [y|] eqn:Ey; [|done].
  intros [= <-]. cbn. eauto.
Qed.

(** Different random bytes give different ids. *)
Lemma subagent_id_injective a b : generate_subagent_id a = generate_subagent_id b -> a = b.
Proof.
  set (unhex := fun x y : ascii => ascii_of_N (hex_value x * 16 + hex_value y)).
  assert (forall c, unhex (hex_char (N_of_ascii c / 16)) (hex_char (N_of_ascii c mod 16)) = c) as H.
  { intros c. ascii_cases c; reflexivity. }
  revert b. induction a as [|x a IH]; intros [|y b]; cbn [generate_subagent_id flat_map app]; try done.
  intros [= E1 E2 E3]. f_equal; [|by apply IH]. by rewrite <- (H x), <- (H y), E1, E2.
Qed.

(** ** Witnesses *)

Module SubagentExamples.
#[local] Existing Instance RefRegex.
#[local] Existing Instance RefJson.
#[local] Existing Instance RefRowids.

Lemma ref_prints now sub : is_Some (cJSON_PrintUnformatted (completion_json now sub)).
Proof. apply (ref_value_total CJSON_NESTING_LIMIT), completion_ok. Qed.

Definition no_messages : MessageDb := mkMessageDb [] [] [] [].
Definition root : cstr := cs "root".
Definition spawn_env : SpawnEnv := mkSpawnEnv (cs "0123456789abcdef") true (Some (cs "/bin/agent")) (Some 77) 10 11 12 100.

(** A manager for one subagent, with it started, and after it has ended. *)
Definition M0 : SubagentManager (R := RefRegex) := subagent_manager_init_with_config 1 60 false None (Some no_messages) (Some root).
Definition M1 : SubagentManager := (subagent_spawn spawn_env (cs "count") None None M0).2.
Definition tell_env : TellEnv := mkTellEnv 103 StmtOk 103000 (Some (cs "m-1")).
Definition ends_well : Look := mkLook [PipeData (cs "he")] (Reaped (Exited 0)) [PipeData (cs "llo"); PipeEnd] tell_env.
Definition runs_on : Look := mkLook [PipeData (cs "1, ")] StillRunning [PipeEnd] tell_env.
Definition M2 : SubagentManager := (default (M1, 0) (subagent_poll_all 103 (fun _ => ends_well) M1)).1.

Definition sub1 : Subagent :=
  mkSubagent (cs "0123456789abcdef") 77 SUBAGENT_STATUS_RUNNING 10 11 12 (cs "count") None None None None 100.

Lemma M1_sub : sm_subagents M1 !! 0%nat = Some sub1.
Proof. reflexivity. Qed.

Lemma M1_step : rtc (op_step no_callbacks (fun z => z)) M0 M1.
Proof. apply rtc_once, op_spawn. Qed.

Lemma M2_step : rtc (op_step no_callbacks (fun z => z)) M0 M2.
Proof.
  eapply rtc_l; [apply (op_spawn _ _ _ spawn_env (cs "count") None None)|]. apply rtc_once.
  apply (op_poll _ _ _ 103 (fun _ => ends_well) (M2, 1)). vm_compute. reflexivity.
Qed.

Example M2_result : sa_result <$> (sm_subagents M2 !! 0%nat) = Some (Some (cs "hello")).
Proof. vm_compute. reflexivity. Qed.

(** A turn before the limit and one after it. *)
Definition parent_env : ParentEnv := mkParentEnv None false None memory_available true.
Definition quiet_io : ApprovalIO := mkApprovalIO parent_env (fun _ => false) [] [] [].
Definition turn (now : Z) : Turn := mkTurn false now quiet_io runs_on.

Lemma turn_ok now : turn_answers (R := RefRegex) (J := RefJson) no_callbacks (fun z => z) (turn now).
Proof.
  split.
  - intros sub. unfold read_subagent_output. destruct (_ <=? 0); cbn; eauto.
  - intros config. cbn. eauto.
Qed.
End SubagentExamples.
Import SubagentExamples.

Lemma subagent_lives_witness :
  rtc (op_step no_callbacks (fun z => z)) M0 M2 /\
  (forall i sub, sm_subagents M2 !! i = Some sub -> life M2 i sub) /\
  messages_sent (direct_rows M0) M2 /\ length (direct_rows M2) = 1%nat.
Proof.
  split; [exact M2_step|].
  destruct (@subagent_lives RefRegex RefJson RefRowids no_callbacks (fun z => z) ref_prints 1 60 false None (Some no_messages) (Some root)
           M2 M2_step) as (H1 & H2 & _).
  split; [exact H1|]. split; [exact H2|]. vm_compute. reflexivity.
Defined.

Lemma subagent_slots_spent_witness :
  Z.of_nat (length (sm_subagents M1)) = sm_max_subagents M1 /\
  subagent_spawn spawn_env (cs "again") None None M2 = (-1, [], M2).
Proof.
  split; [reflexivity|].
  apply (@subagent_slots_spent RefRegex RefJson RefRowids no_callbacks (fun z => z) ref_prints 1 60 None (Some no_messages) (Some root)
           M1 M2 spawn_env (cs "again") None None [] None M1_step); [reflexivity|].
  apply rtc_once, (op_poll _ _ _ 103 (fun _ => ends_well) (M2, 1)). vm_compute. reflexivity.
Defined.

Lemma completion_delivered_witness :
  look ends_well 0 (with_output (Some (cs "1, ")) sub1) (set_subagent 0 (with_output (Some (cs "1, ")) sub1) M1) <> None /\
  exists m1 sub r db' row members,
    looks_at [runs_on] 0 M1 = Some m1 /\ sm_subagents m1 !! 0%nat = Some sub /\ look ends_well 0 sub m1 = Some r /\
    sm_store r.1 = Some db' /\ direct_messages db' = [row] /\ dr_recipient row = root /\
    cJSON_Parse (dr_content row) = Some (JObject members) /\
    find_member_cs members (cs "result") = Some (JString (cs "1, hello")).
Proof.
  split; [vm_compute; discriminate|].
  set (m1 := set_subagent 0 (with_output (Some (cs "1, ")) sub1) M1).
  destruct (look ends_well 0 (with_output (Some (cs "1, ")) sub1) m1) as [r|] eqn:E; [|vm_compute in E; discriminate].
  destruct (@completion_delivered RefRegex RefJson _ RefRowids [runs_on] ends_well (Exited 0) 0 M1 m1 sub1
              (with_output (Some (cs "1, ")) sub1) r no_messages "r"%char (cs "oot") (cs "m-1"))
    as (db' & row & members & H1 & H2 & H3 & H4 & _ & _ & H5 & _ & H6); try reflexivity; try exact E.
  - apply not_elem_of_nil.
  - exact ref_prints.
  - exists m1, (with_output (Some (cs "1, ")) sub1), r, db', row, members.
    split; [reflexivity|]. split; [reflexivity|]. split; [exact E|]. split; [exact H1|]. split; [exact H2|]. split; [exact H4|].
    split; [exact H5|]. unfold told_outcome in H6. rewrite decide_True in H6 by reflexivity.
    apply (proj1 (proj2 H6)). discriminate.
Defined.

Lemma wait_returns_witness :
  Exists (fun t => sm_timeout_seconds M1 < tn_now t - sa_start_time sub1) [turn 110; turn 161] /\
  exists m', wait_loop no_callbacks (fun z => z) [turn 110; turn 161] 0 M1 = WaitDone m' /\ has_ended m' 0.
Proof.
  assert (Exists (fun t => sm_timeout_seconds M1 < tn_now t - sa_start_time sub1) [turn 110; turn 161]) as Hex.
  { apply Exists_cons_tl, Exists_cons_hd. reflexivity. }
  split; [exact Hex|].
  apply (@wait_returns RefRegex RefJson RefRowids no_callbacks (fun z => z) ref_prints [turn 110; turn 161] 0 M1 sub1);
    [reflexivity|reflexivity| |exact Hex].
  apply Forall_cons_2; [apply turn_ok|]. apply Forall_cons_2; [apply turn_ok|]. apply Forall_nil_2.
Defined.

Lemma status_reads_back_witness :
  json_escape_string (Some (cs "ok")) = Some (cs "ok") /\
  reads_as (Some (status_response SUBAGENT_STATUS_COMPLETED (Some (cs "ok")) None).1)
    [(cs "status", RawString (cs "completed")); (cs "result", RawString (cs "ok"))].
Proof.
  split; [reflexivity|].
  apply (@status_reads_back RefJson _ (cs "ok") (cs "bad") (cs "ok") (cs "bad")); reflexivity.
Defined.
