(* ===== verification/MessageFacts.v ===== *)
(** * What the message store promises

    The invariant of the four tables, and what each kind of delivery does:
    direct messages, channels one by one, all channels at once. *)

From S2P Require Import Prelude CString Sql WorkQueue MessageStore.
From stdpp Require Import sorting.
Local Open Scope bool_scope.
Local Open Scope Z_scope.

(** ** Lists ordered by a key *)

Definition increasing {A} (key : A -> Z) (l : list A) : Prop := StronglySorted (fun a b => key a < key b) l.

Lemma increasing_select {A} (key : A -> Z) p l : increasing key l -> increasing key (select_where p l).
Proof.
  unfold increasing, select_where. induction 1 as [|x l Hs IH Hx]; cbn; [constructor|].
  destruct (p x); [|done]. constructor; [done|]. rewrite Forall_forall in *. intros y Hy.
  apply Hx. apply list_elem_of_In in Hy. apply filter_In in Hy as [Hy _]. by apply list_elem_of_In.
Qed.

Lemma increasing_inj {A} (key : A -> Z) l x y : increasing key l -> x ∈ l -> y ∈ l -> key x = key y -> x = y.
Proof.
  unfold increasing. induction 1 as [|z l Hs IH Hz]; [intros H; by apply not_elem_of_nil in H|].
  rewrite Forall_forall in Hz. rewrite !elem_of_cons. intros [->|Hx] [->|Hy] E; auto; exfalso.
  - specialize (Hz _ Hy). lia.
  - specialize (Hz _ Hx). lia.
Qed.

Lemma order_by_increasing {DB : Sqlite} {DS : SqliteSpec DB} {A} (key : A -> Z) (l : list A) :
  increasing key l -> order_by key l = l.
Proof.
  intros Hl. apply (StronglySorted_unique_strong (le_on key)).
  - intros x y Hx Hy. rewrite (order_by_perm key l) in Hx. unfold le_on. intros H1 H2.
    apply (increasing_inj key l); [done..|lia].
  - apply Sorted_StronglySorted; [|apply order_by_sorted]. intros a b c. unfold le_on. lia.
  - unfold increasing in Hl. induction Hl as [|x l Hs IH Hx]; constructor; [done|].
    eapply Forall_impl; [exact Hx|]. unfold le_on. cbn. lia.
  - apply order_by_perm.
Qed.

Lemma elem_of_take_list {A} (x : A) n l : x ∈ take n l -> x ∈ l.
Proof. rewrite elem_of_take. intros (i & Hi & _). by eapply list_elem_of_lookup_2. Qed.

(** What follows the last of the first elements. *)
Lemma select_after {A} (key : A -> Z) l n x :
  increasing key l -> last (take n l) = Some x -> select_where (fun m => key x <? key m) l = drop n l.
Proof.
  unfold increasing. intros Hl. revert n. induction Hl as [|y l Hs IH Hy]; intros n Hx.
  - destruct n; done.
  - destruct n as [|n]; [done|]. cbn [take drop] in *. rewrite Forall_forall in Hy.
    destruct (take n l) as [|z t] eqn:Et.
    + cbn in Hx. injection Hx as <-. unfold select_where. cbn [List.filter]. rewrite Z.ltb_irrefl.
      assert (drop n l = l) as ->. { destruct n; [done|]. by destruct l. }
      clear IH Et. induction l as [|z l IHl]; [done|]. cbn [List.filter].
      assert (key y < key z) as Hz by (apply Hy; by left). apply Z.ltb_lt in Hz. rewrite Hz. f_equal.
      apply IHl; [by inversion Hs|]. intros w Hw. apply Hy. by right.
    + rewrite <- Et in Hx. assert (last (take n l) = Some x) as Hx'.
      { rewrite Et in *. cbn in Hx. by destruct t. }
      rewrite <- (IH n Hx'). unfold select_where. cbn [List.filter].
      assert (x ∈ l) as Hin by (eapply elem_of_take_list, last_Some_elem_of; exact Hx').
      specialize (Hy _ Hin). destruct (Z.ltb_spec (key x) (key y)); [lia|done].
Qed.

Lemma max_key_ge keys k : k ∈ keys -> k <= max_key keys.
Proof.
  induction keys as [|k' keys IH]; [intros H; by apply not_elem_of_nil in H|].
  rewrite elem_of_cons. cbn. intros [->|H]; [lia|]. specialize (IH H). unfold max_key in IH. lia.
Qed.

Lemma max_key_nonneg keys : 0 <= max_key keys.
Proof. induction keys as [|k keys IH]; cbn; [lia|]. unfold max_key in IH. lia. Qed.

Lemma max_key_le keys n : 0 <= n -> Forall (fun k => k <= n) keys -> max_key keys <= n.
Proof. intros Hn. induction 1 as [|k keys Hk _ IH]; cbn; [done|]. unfold max_key in IH. lia. Qed.

(** A new row goes to the end. *)
Lemma increasing_snoc {A} (key : A -> Z) l x :
  increasing key l -> max_key (key <$> l) < key x -> increasing key (l ++ [x]).
Proof.
  unfold increasing. intros Hl Hx. induction Hl as [|y l Hs IH Hy]; cbn in *; [repeat constructor|].
  constructor; [apply IH; unfold max_key in *; lia|]. apply Forall_app. split; [done|]. repeat constructor. lia.
Qed.

(** ** The invariant *)

Definition su_key (s : SubscriptionRow) : cstr * cstr := (su_channel s, su_agent s).

(** The tables whose keys are at most [n]: keys grow with the rows, identifiers
    are unique, every subscription and message belongs to a channel. *)
Record db_ok (n : Z) (d : MessageDb) : Prop := mkDbOk {
  direct_keys : increasing dr_rowid (direct_messages d);
  direct_bound : Forall (fun r => 1 <= dr_rowid r <= n) (direct_messages d);
  direct_ids : NoDup (map dr_id (direct_messages d));
  channel_ids : NoDup (map ch_id (channels d));
  sub_keys : NoDup (map su_key (channel_subscriptions d));
  sub_channels : Forall (fun s => channel_exists (su_channel s) d = true) (channel_subscriptions d);
  sub_cursors : Forall (fun s => 0 <= su_last_read_at s <= n) (channel_subscriptions d);
  msg_keys : increasing cm_rowid (channel_messages d);
  msg_bound : Forall (fun m => 1 <= cm_rowid m <= n) (channel_messages d);
  msg_ids : NoDup (map cm_id (channel_messages d));
  msg_short : Forall (fun m => (length (cm_id m) < 40)%nat) (channel_messages d);
  msg_channels : Forall (fun m => channel_exists (cm_channel m) d = true) (channel_messages d)
}.

Lemma db_ok_mono n n' d : n <= n' -> db_ok n d -> db_ok n' d.
Proof.
  intros Hn []. split; try done.
  - eapply Forall_impl; [exact direct_bound0|]. cbn. lia.
  - eapply Forall_impl; [exact sub_cursors0|]. cbn. lia.
  - eapply Forall_impl; [exact msg_bound0|]. cbn. lia.
Qed.

Lemma increasing_update {A} (key : A -> Z) p f l :
  (forall x, key (f x) = key x) -> increasing key l -> increasing key (update_where p f l).
Proof.
  intros Hf. unfold increasing, update_where. induction 1 as [|x l Hs IH Hx]; cbn; [constructor|].
  constructor; [done|]. rewrite Forall_forall in *. intros y Hy.
  apply list_elem_of_In, in_map_iff in Hy as (z & <- & Hz). apply list_elem_of_In in Hz. specialize (Hx _ Hz).
  destruct (p x), (p z); rewrite ?Hf; done.
Qed.

Lemma Forall_update {A} (P : A -> Prop) p f (l : list A) :
  (forall x, P x -> P (f x)) -> Forall P l -> Forall P (update_where p f l).
Proof.
  intros Hf Hl. rewrite Forall_forall in *. intros x (y & Hy & ->)%elem_of_update.
  destruct (p y); [apply Hf|]; by apply Hl.
Qed.

Lemma Forall_select {A} (P : A -> Prop) p (l : list A) : Forall P l -> Forall P (select_where p l).
Proof. rewrite !Forall_forall. intros H x [Hx _]%elem_of_select. auto. Qed.

Lemma Forall_delete {A} (P : A -> Prop) p (l : list A) : Forall P l -> Forall P (delete_where p l).
Proof. rewrite !Forall_forall. intros H x [Hx _]%elem_of_delete. auto. Qed.

Lemma increasing_delete {A} (key : A -> Z) p l : increasing key l -> increasing key (delete_where p l).
Proof. apply (increasing_select key (fun x => negb (p x))). Qed.

Section Preserved.
Context {DB : Sqlite} {K : Rowids} {KS : RowidsSpec K}.

Lemma direct_update_ok n p f d :
  (forall r, dr_rowid (f r) = dr_rowid r) -> (forall r, dr_id (f r) = dr_id r) ->
  db_ok n d -> db_ok n (with_direct (update_where p f (direct_messages d)) d).
Proof.
  intros Hk Hi []. split; cbn; try done.
  - by apply increasing_update.
  - apply Forall_update; [|done]. intros r. by rewrite Hk.
  - by rewrite update_where_column.
Qed.

Lemma direct_exec_ok n st p now d :
  db_ok n d -> db_ok n (with_direct (sqlite_dal_exec_p st p (set_read now) (direct_messages d)).2 d).
Proof. intros Hd. destruct st; cbn; [by destruct d..|]. by apply direct_update_ok. Qed.

Lemma delete_direct_ok n st p d : db_ok n d -> db_ok n (delete_direct st p d).2.
Proof.
  intros Hd. destruct st; cbn; try done. destruct Hd. split; cbn; try done.
  - by apply increasing_delete.
  - by apply Forall_delete.
  - by apply NoDup_delete.
Qed.

Lemma new_key n keys :
  n < 2 ^ 63 - 1 -> Forall (fun k => 1 <= k <= n) keys -> 0 <= n ->
  new_rowid keys = max_key keys + 1 /\ 1 <= new_rowid keys <= n + 1.
Proof.
  intros Hn Hk H0. pose proof (max_key_nonneg keys).
  assert (max_key keys <= n) by (apply max_key_le; [done|]; eapply Forall_impl; [exact Hk|]; cbn; lia).
  rewrite new_rowid_next by lia. lia.
Qed.

Lemma keys_bound {A} (key : A -> Z) n (l : list A) :
  Forall (fun x => 1 <= key x <= n) l -> Forall (fun k => 1 <= k <= n) (key <$> l).
Proof. intros H. by apply Forall_fmap. Qed.

Lemma send_direct_ok n st now uuid s r c ttl d :
  0 <= n < 2 ^ 63 - 1 -> db_ok n d -> db_ok (n + 1) (message_send_direct st now uuid s r c ttl d).2.
Proof.
  intros Hn Hd. apply (db_ok_mono _ (n + 1)) in Hd as Hd'; [|lia]. unfold message_send_direct.
  destruct uuid as [id|]; [|done]. destruct st; try done. destruct (insert_row _ _ _) as [rows|] eqn:E; [|done].
  apply insert_row_Some in E as [Hnew ->]. destruct Hd'.
  destruct (new_key n (dr_rowid <$> direct_messages d)) as [Ek Hk]; [lia|apply keys_bound, Hd|lia|].
  split; cbn; try done.
  - apply increasing_snoc; [done|]. cbn. lia.
  - apply Forall_app. split; [done|]. repeat constructor; cbn; lia.
  - rewrite map_app. apply NoDup_app. split; [done|]. split; [|apply NoDup_singleton].
    intros x Hx ->%list_elem_of_singleton. apply list_elem_of_In, in_map_iff in Hx as (y & Ey & Hy).
    apply list_elem_of_In, Hnew in Hy. unfold same_direct in Hy. cbn in *. apply streq_false in Hy. congruence.
Qed.

(** A channel added. *)
Lemma channel_exists_with c l d : channel_exists c (with_channels l d) = existsb (channel_named c) l.
Proof. done. Qed.

Lemma channel_create_ok n st now name desc creator pers d :
  db_ok n d -> db_ok n (channel_create st now name desc creator pers d).2.
Proof.
  intros Hd. unfold channel_create. destruct st; try done. destruct (insert_row _ _ _) as [rows|] eqn:E; [|done].
  apply insert_row_Some in E as [Hnew ->]. destruct Hd. split; cbn; try done.
  - rewrite map_app. apply NoDup_app. split; [done|]. split; [|apply NoDup_singleton].
    intros x Hx ->%list_elem_of_singleton. apply list_elem_of_In, in_map_iff in Hx as (y & Ey & Hy).
    apply list_elem_of_In, Hnew in Hy. unfold same_channel in Hy. cbn in *. apply streq_false in Hy. congruence.
  - eapply Forall_impl; [exact sub_channels0|]. intros s Hs. unfold channel_exists in *. cbn.
    rewrite existsb_app. by rewrite Hs.
  - eapply Forall_impl; [exact msg_channels0|]. intros s Hs. unfold channel_exists in *. cbn.
    rewrite existsb_app. by rewrite Hs.
Qed.

(** A channel that is not the deleted one is still there. *)
Lemma channel_kept name c l :
  streq c name = false -> existsb (channel_named c) l = true ->
  existsb (channel_named c) (delete_where (channel_named name) l) = true.
Proof.
  intros Hne. rewrite !existsb_true_iff. intros (x & Hx & Ex). exists x. split; [|done].
  apply elem_of_delete. split; [done|]. unfold channel_named in *. apply streq_true in Ex as <-. done.
Qed.

Lemma channel_delete_ok n st name d : db_ok n d -> db_ok n (channel_delete st name d).2.
Proof.
  intros Hd. unfold channel_delete. destruct st; try done. cbn. destruct (0 <? _); [|done].
  destruct Hd. split; cbn; try done.
  - by apply NoDup_delete.
  - by apply NoDup_delete.
  - rewrite Forall_forall in *. intros s [Hs Hne]%elem_of_delete. by apply channel_kept, sub_channels0.
  - by apply Forall_delete.
  - by apply increasing_delete.
  - by apply Forall_delete.
  - by apply NoDup_delete.
  - by apply Forall_delete.
  - rewrite Forall_forall in *. intros s [Hs Hne]%elem_of_delete. by apply channel_kept, msg_channels0.
Qed.

Lemma delete_subscriptions_ok n p d :
  db_ok n d -> db_ok n (with_subscriptions (delete_where p (channel_subscriptions d)) d).
Proof.
  intros []. split; cbn; try done; [by apply NoDup_delete|by apply Forall_delete|by apply Forall_delete].
Qed.

Lemma subscribe_ok n st now name agent d : 0 <= n -> db_ok n d -> db_ok n (channel_subscribe st now name agent d).2.
Proof.
  intros Hn Hd. unfold channel_subscribe. destruct st; try done. destruct (channel_exists name d) eqn:Ec; [|done].
  apply (delete_subscriptions_ok n (subscription_of name agent)) in Hd. destruct Hd. cbn in *.
  split; cbn; try done.
  - rewrite map_app. apply NoDup_app. split; [done|]. split; [|apply NoDup_singleton].
    intros x Hx ->%list_elem_of_singleton. apply list_elem_of_In, in_map_iff in Hx as (y & Ey & Hy).
    apply list_elem_of_In, elem_of_delete in Hy as [_ Hy]. unfold subscription_of in Hy. cbn in Ey. unfold su_key in Ey.
    injection Ey as E1 E2. by rewrite E1, E2, !streq_refl in Hy.
  - apply Forall_app. split; [done|]. by repeat constructor.
  - apply Forall_app. split; [done|]. repeat constructor; cbn; lia.
Qed.

Lemma publish_ok n st now uuid name sender content d :
  0 <= n < 2 ^ 63 - 1 -> (forall id, uuid = Some id -> (length id < 40)%nat) -> db_ok n d ->
  db_ok (n + 1) (channel_publish st now uuid name sender content d).2.
Proof.
  intros Hn Hu Hd. apply (db_ok_mono _ (n + 1)) in Hd as Hd'; [|lia]. unfold channel_publish.
  destruct uuid as [id|]; [|done]. destruct st; try done. destruct (channel_exists name d) eqn:Ec; [|done].
  destruct (insert_row _ _ _) as [rows|] eqn:E; [|done].
  apply insert_row_Some in E as [Hnew ->]. destruct Hd'.
  destruct (new_key n (cm_rowid <$> channel_messages d)) as [Ek Hk]; [lia|apply keys_bound, Hd|lia|].
  split; cbn; try done.
  - apply increasing_snoc; [done|]. cbn. lia.
  - apply Forall_app. split; [done|]. repeat constructor; cbn; lia.
  - rewrite map_app. apply NoDup_app. split; [done|]. split; [|apply NoDup_singleton].
    intros x Hx ->%list_elem_of_singleton. apply list_elem_of_In, in_map_iff in Hx as (y & Ey & Hy).
    apply list_elem_of_In, Hnew in Hy. unfold same_channel_message in Hy. cbn in *. apply streq_false in Hy. congruence.
  - apply Forall_app. split; [done|]. constructor; [by apply Hu|constructor].
  - apply Forall_app. split; [done|]. by repeat constructor.
Qed.

Lemma mark_read_ok n st st' p l d : db_ok n d -> db_ok n (mark_read st st' p l d).
Proof.
  intros Hd. unfold mark_read. destruct (Z.ltb_spec 0 (key_of_message st (cmsg_id l) d)) as [Hpos|_]; [|done].
  assert (key_of_message st (cmsg_id l) d <= n) as Hle.
  { unfold key_of_message, sqlite_dal_query_one_p in *.
    destruct (returned st _) as [|m ms] eqn:E; cbn in *; [lia|].
    apply returned_head in E as [ms' E].
    assert (m ∈ select_where (fun r => streq (cm_id r) (cmsg_id l)) (channel_messages d)) as Hm by (rewrite E; left).
    apply elem_of_select in Hm as [Hm _]. destruct Hd. rewrite Forall_forall in msg_bound0. specialize (msg_bound0 _ Hm).
    cbn in msg_bound0. lia. }
  destruct st'; cbn; try (by destruct d). destruct Hd. split; cbn; try done.
  - by rewrite update_where_column.
  - by apply Forall_update.
  - apply Forall_update; [|done]. intros s _. cbn. lia.
Qed.

Lemma cleanup_agent_ok n b st st' c agent d : db_ok n d -> db_ok n (message_cleanup_agent b st st' c agent d).2.
Proof.
  intros Hd. unfold message_cleanup_agent. destruct b; [|done]. cbn [negb].
  assert (forall d1, db_ok n d1 -> db_ok n match st' with
            | StmtOk => with_subscriptions (delete_where (of_agent agent) (channel_subscriptions d1)) d1 | _ => d1 end) as H.
  { intros d1 H1. destruct st'; try done. by apply delete_subscriptions_ok. }
  destruct c; [|done]. cbn [snd]. apply H. by apply delete_direct_ok.
Qed.

Lemma cleanup_channel_ok n st now age d : db_ok n d -> db_ok n (message_cleanup_channel_messages st now age d).2.
Proof.
  intros Hd. unfold message_cleanup_channel_messages. destruct st; try done. destruct Hd. split; cbn; try done.
  - by apply increasing_delete.
  - by apply Forall_delete.
  - by apply NoDup_delete.
  - by apply Forall_delete.
  - by apply Forall_delete.
Qed.
End Preserved.
