(* ===== verification/MessageTheorems.v ===== *)
(** * Messages between agents: theorems

    The tables stay well formed whatever processes do in whatever order; what a
    receive of direct messages gives and what it loses; what the channels
    deliver, redeliver and never deliver. *)

From S2P Require Import Prelude CString Sql WorkQueue MessageStore MessageFacts.
Local Open Scope bool_scope.
Local Open Scope Z_scope.

(** ** Any operations of any processes *)

(** An operation with the outcomes of its statements; the receives also carry
    what other processes do between their statements. *)
Inductive MsgOp :=
| OpSend (st : Stmt) (now : Z) (uuid : option cstr) (sender recipient text : cstr) (ttl : Z)
| OpReceive (st st' : Stmt) (others : list MsgOp) (now : Z) (agent : cstr) (max_count : Z)
| OpConsume (st : Stmt) (now : Z) (id : cstr)
| OpCreate (st : Stmt) (now : Z) (name : cstr) (description : option cstr) (creator : cstr) (persistent : bool)
| OpDelete (st : Stmt) (name : cstr)
| OpSubscribe (st : Stmt) (now : Z) (name agent : cstr)
| OpUnsubscribe (st : Stmt) (name agent : cstr)
| OpPublish (st : Stmt) (now : Z) (uuid : option cstr) (name sender text : cstr)
| OpChannelReceive (st st' st'' : Stmt) (others : list MsgOp) (name agent : cstr) (max_count : Z)
| OpReceiveAll (st st' st'' : Stmt) (others : list MsgOp) (agent : cstr) (max_count : Z)
| OpCleanupRead (st : Stmt) (now grace : Z)
| OpCleanupExpired (st : Stmt) (now : Z)
| OpCleanupAgent (begins : bool) (st st' : Stmt) (commits : bool) (agent : cstr)
| OpCleanupChannel (st : Stmt) (now age : Z).

Section Ops.
Context {DB : Sqlite} {K : Rowids}.

Fixpoint run_op (op : MsgOp) (d : MessageDb) : MessageDb :=
  match op with
  | OpSend st now uuid s r c ttl => (message_send_direct st now uuid s r c ttl d).2
  | OpReceive st st' others now agent n =>
      (message_receive_direct st st' (fun d => fold_left (fun d o => run_op o d) others d) now agent n d).2
  | OpConsume st now id => (message_consume st now id d).2
  | OpCreate st now name desc creator p => (channel_create st now name desc creator p d).2
  | OpDelete st name => (channel_delete st name d).2
  | OpSubscribe st now name agent => (channel_subscribe st now name agent d).2
  | OpUnsubscribe st name agent => (channel_unsubscribe st name agent d).2
  | OpPublish st now uuid name s c => (channel_publish st now uuid name s c d).2
  | OpChannelReceive st st' st'' others name agent n =>
      (channel_receive st st' st'' (fun d => fold_left (fun d o => run_op o d) others d) name agent n d).2
  | OpReceiveAll st st' st'' others agent n =>
      (channel_receive_all st st' st'' (fun d => fold_left (fun d o => run_op o d) others d) agent n d).2
  | OpCleanupRead st now g => (message_cleanup_read st now g d).2
  | OpCleanupExpired st now => (message_cleanup_expired st now d).2
  | OpCleanupAgent b st st' c agent => (message_cleanup_agent b st st' c agent d).2
  | OpCleanupChannel st now age => (message_cleanup_channel_messages st now age d).2
  end.

Definition run_ops (ops : list MsgOp) (d : MessageDb) : MessageDb := fold_left (fun d o => run_op o d) ops d.

(** The rows an operation can insert. *)
Fixpoint inserts (op : MsgOp) : Z :=
  match op with
  | OpSend _ _ _ _ _ _ _ | OpPublish _ _ _ _ _ _ => 1
  | OpReceive _ _ others _ _ _ | OpChannelReceive _ _ _ others _ _ _ | OpReceiveAll _ _ _ others _ _ =>
      foldr (fun o n => inserts o + n) 0 others
  | _ => 0
  end.

(** The identifiers generated fit the array of the struct. *)
Fixpoint ids_fit (op : MsgOp) : bool :=
  match op with
  | OpPublish _ _ (Some id) _ _ _ => (length id <? 40)%nat
  | OpReceive _ _ others _ _ _ | OpChannelReceive _ _ _ others _ _ _ | OpReceiveAll _ _ _ others _ _ =>
      forallb ids_fit others
  | _ => true
  end.

Definition all_inserts (ops : list MsgOp) : Z := foldr (fun o n => inserts o + n) 0 ops.

(** Induction over an operation and the operations inside it. *)
Definition is_simple (op : MsgOp) : bool :=
  match op with OpReceive _ _ _ _ _ _ | OpChannelReceive _ _ _ _ _ _ _ | OpReceiveAll _ _ _ _ _ _ => false | _ => true end.

Lemma op_induction (Q : MsgOp -> Prop) :
  (forall op, is_simple op = true -> Q op) ->
  (forall st st' others now agent n, Forall Q others -> Q (OpReceive st st' others now agent n)) ->
  (forall st st' st'' others name agent n, Forall Q others -> Q (OpChannelReceive st st' st'' others name agent n)) ->
  (forall st st' st'' others agent n, Forall Q others -> Q (OpReceiveAll st st' st'' others agent n)) ->
  forall op, Q op.
Proof.
  intros Hs Hr Hc Ha. fix IH 1.
  assert (forall l, Forall Q l) as Hl; [|intros []; first [apply Hs; reflexivity|apply Hr, Hl|apply Hc, Hl|apply Ha, Hl]].
  fix IHl 1. intros [|o l]; constructor; [apply IH|apply IHl].
Defined.
End Ops.

Section Invariant.
Context {DB : Sqlite} {K : Rowids} {KS : RowidsSpec K}.

Definition keeps (op : MsgOp) : Prop := forall n d,
  ids_fit op = true -> 0 <= n -> n + inserts op < 2 ^ 63 -> db_ok n d ->
  0 <= inserts op /\ db_ok (n + inserts op) (run_op op d).

Lemma keeps_all ops n d :
  Forall keeps ops -> forallb ids_fit ops = true -> 0 <= n -> n + all_inserts ops < 2 ^ 63 -> db_ok n d ->
  0 <= all_inserts ops /\ db_ok (n + all_inserts ops) (run_ops ops d).
Proof.
  intros Hk. revert n d. induction Hk as [|o ops Ho _ IH]; intros n d Hi Hn Hlt Hd.
  - cbn. rewrite Z.add_0_r. done.
  - cbn in Hi. apply andb_true_iff in Hi as [Hi1 Hi2]. cbn [all_inserts foldr] in *. fold (all_inserts ops) in *.
    unfold run_ops. cbn [fold_left].
    assert (0 <= all_inserts ops) as H0.
    { clear -Hi2 IH. (* the rest inserts nothing negative *)
      destruct (Z.le_gt_cases 0 (all_inserts ops)) as [|Hneg]; [done|].
      destruct (IH 0 (mkMessageDb [] [] [] [])); [done|lia|lia| |lia]. split; repeat constructor. }
    destruct (Ho n d Hi1 Hn ltac:(lia) Hd) as [H1 Hd1].
    destruct (IH (n + inserts o) (run_op o d)) as [_ Hd2]; [done|lia|lia|done|].
    split; [lia|]. by replace (n + (inserts o + all_inserts ops)) with (n + inserts o + all_inserts ops) by lia.
Qed.

Lemma simple_keeps op : is_simple op = true -> keeps op.
Proof.
  intros Hs n d Hi Hn Hlt Hd. destruct op; try done; cbn [inserts run_op] in *; (split; [lia|]); rewrite ?Z.add_0_r.
  - by apply send_direct_ok; [lia|].
  - unfold message_consume. destruct (sqlite_dal_exec_p _ _ _ _) as [c rows] eqn:E. cbn.
    pose proof (direct_exec_ok n st (unread_with_id id) now d Hd) as Ho. by rewrite E in Ho.
  - by apply channel_create_ok.
  - by apply channel_delete_ok.
  - by apply subscribe_ok.
  - unfold channel_unsubscribe. destruct st; try done. by apply delete_subscriptions_ok.
  - apply publish_ok; [lia| |done]. intros id ->. cbn in Hi. by apply Nat.ltb_lt.
  - by apply delete_direct_ok.
  - by apply delete_direct_ok.
  - by apply cleanup_agent_ok.
  - by apply cleanup_channel_ok.
Qed.

Lemma op_keeps op : keeps op.
Proof.
  apply op_induction; [apply simple_keeps|..].
  - intros st st' others now agent k Hall n d Hi Hn Hlt Hd. cbn [inserts ids_fit run_op] in *. fold (all_inserts others) in *.
    destruct (keeps_all others n d Hall Hi Hn Hlt Hd) as [H0 Hd']. split; [done|].
    unfold message_receive_direct.
    assert (db_ok (n + all_inserts others) d) by (by apply (db_ok_mono n); [lia|]).
    destruct (sqlite_dal_query_list_p _ _ _) as [[] [|i items]]; try done. cbn [snd]. by apply direct_exec_ok.
  - intros st st' st'' others name agent k Hall n d Hi Hn Hlt Hd. cbn [inserts ids_fit run_op] in *. fold (all_inserts others) in *.
    destruct (keeps_all others n d Hall Hi Hn Hlt Hd) as [H0 Hd']. split; [done|].
    unfold channel_receive.
    assert (db_ok (n + all_inserts others) d) by (by apply (db_ok_mono n); [lia|]).
    destruct (sqlite_dal_query_list_p _ _ _) as [[] items]; try done. destruct (last items); [|done].
    cbn [snd]. by apply mark_read_ok.
  - intros st st' st'' others agent k Hall n d Hi Hn Hlt Hd. cbn [inserts ids_fit run_op] in *. fold (all_inserts others) in *.
    destruct (keeps_all others n d Hall Hi Hn Hlt Hd) as [H0 Hd']. split; [done|].
    unfold channel_receive_all.
    assert (db_ok (n + all_inserts others) d) by (by apply (db_ok_mono n); [lia|]).
    destruct (sqlite_dal_query_list_p _ _ _) as [[] items]; try done. destruct (last items); [|done].
    cbn [snd]. by apply mark_read_ok.
Qed.
End Invariant.

(** ** Properties: the tables *)

Definition empty_db : MessageDb := mkMessageDb [] [] [] [].

Lemma empty_db_ok : db_ok 0 empty_db.
Proof. split; repeat constructor. Qed.

(** Whatever operations any processes run, in any order, with whatever
    statements failing and whatever happens between the statements of a
    receive: keys grow with the rows and stay within the number of insertions,
    identifiers and subscriptions are unique, cursors are keys that were given,
    and every subscription and every message belongs to an existing channel. *)
Theorem message_tables_well_formed {DB : Sqlite} {K : Rowids} {KS : RowidsSpec K} (ops : list MsgOp) :
  forallb ids_fit ops = true -> all_inserts ops < 2 ^ 63 ->
  db_ok (all_inserts ops) (run_ops ops empty_db).
Proof.
  intros Hi Hlt. apply (keeps_all ops 0 empty_db); [|done|lia|lia|apply empty_db_ok].
  apply Forall_forall. intros op _. apply op_keeps.
Qed.

Definition sample_ops : list MsgOp :=
  [OpCreate StmtOk 1 (cs "news") None (cs "a") true; OpSubscribe StmtOk 2 (cs "news") (cs "b");
   OpPublish StmtOk 3 (Some (cs "m1")) (cs "news") (cs "a") (cs "hi");
   OpReceiveAll StmtOk StmtOk StmtOk [OpPublish StmtOk 4 (Some (cs "m2")) (cs "news") (cs "a") (cs "ho")] (cs "b") 10;
   OpSend StmtOk 5 (Some (cs "d1")) (cs "a") (cs "b") (cs "psst") 60;
   OpReceive StmtOk (StepFails 0) [] 6 (cs "b") 10; OpDelete StmtOk (cs "news")].

Lemma message_tables_well_formed_witness :
  db_ok 3 (run_ops sample_ops empty_db) /\ channel_messages (run_ops sample_ops empty_db) = [] /\
  length (direct_messages (run_ops sample_ops empty_db)) = 1%nat.
Proof.
  split; [|split; vm_compute; reflexivity].
  apply (message_tables_well_formed sample_ops); vm_compute; reflexivity.
Defined.

(** ** Properties: direct messages *)

Section Direct.
Context {DB : Sqlite} {DS : SqliteSpec DB}.

(** Nothing is unread after the UPDATE. *)
Lemma all_marked now agent (rows : list DirectRow) :
  select_where (unread_for agent) (update_where (unread_for agent) (set_read now) rows) = [].
Proof.
  induction rows as [|r rows IH]; [done|]. unfold select_where, update_where in *. cbn [map List.filter].
  destruct (unread_for agent r) eqn:E; [|by rewrite E].
  assert (unread_for agent (set_read now r) = false) as ->; [|done].
  unfold unread_for. rewrite bool_decide_eq_false_2 by done. by rewrite andb_false_r.
Qed.

(** A receive of direct messages answers the oldest unread ones, up to the
    limit, and then marks every unread message of the agent: the ones beyond
    the limit and the ones that arrived meanwhile are read by nobody. When it
    answers nothing it marks nothing. *)
Theorem receive_direct_exact (between : MessageDb -> MessageDb) (now : Z) (agent : cstr) (max_count : Z) (d : MessageDb) :
  0 < max_count < 2 ^ 31 ->
  let '(items, d') := message_receive_direct StmtOk StmtOk between now agent max_count d in
  items = omap map_direct_message (take (Z.to_nat max_count) (unread agent d)) /\
  (items = [] -> d' = d) /\
  (items <> [] ->
     unread agent d' = [] /\
     map dr_id (direct_messages d') = map dr_id (direct_messages (between d)) /\
     (forall r, r ∈ direct_messages (between d) -> unread_for agent r = true -> set_read now r ∈ direct_messages d')).
Proof.
  intros Hmax. unfold message_receive_direct, sqlite_dal_query_list_p. cbn [returned].
  assert (limited (limit_of max_count) (unread agent d) = take (Z.to_nat max_count) (unread agent d)) as ->.
  { unfold limited, limit_of. destruct (Z.ltb_spec 0 max_count); [|lia]. rewrite wrap32_small by lia.
    destruct (Z.ltb_spec max_count 0); [lia|done]. }
  destruct (omap map_direct_message _) as [|i items] eqn:E; [done|].
  split; [done|]. split; [done|]. intros _. cbn. split; [|split].
  - unfold unread. cbn. rewrite all_marked. by apply order_by_nil.
  - by rewrite update_where_column.
  - intros r Hr Hu. apply elem_of_update. exists r. split; [done|]. by rewrite Hu.
Qed.
End Direct.

(** Three messages, a limit of two. *)
Definition three_messages : MessageDb :=
  run_ops [OpSend StmtOk 1 (Some (cs "1")) (cs "a") (cs "b") (cs "x") 0; OpSend StmtOk 2 (Some (cs "2")) (cs "a") (cs "b") (cs "y") 0;
           OpSend StmtOk 3 (Some (cs "3")) (cs "c") (cs "b") (cs "z") 0] empty_db.

Lemma receive_direct_exact_witness :
  let '(items, d') := message_receive_direct StmtOk StmtOk (fun d => d) 9 (cs "b") 2 three_messages in
  m_id <$> items = [cs "1"; cs "2"] /\ unread (cs "b") d' = [] /\
  (set_read 9 <$> direct_messages three_messages) = direct_messages d'.
Proof.
  assert (0 < 2 < 2 ^ 31) as H by lia.
  pose proof (receive_direct_exact (fun d => d) 9 (cs "b") 2 three_messages H) as E.
  destruct (message_receive_direct StmtOk StmtOk (fun d => d) 9 (cs "b") 2 three_messages) as [items d'] eqn:Er.
  destruct E as (E1 & _ & E2). vm_compute in Er. injection Er as <- <-.
  split; [reflexivity|]. split; [|vm_compute; reflexivity]. apply E2. discriminate.
Defined.
