(* ===== verification/ChannelTheorems.v ===== *)
(** * Channels: theorems

    What one subscription reads while others publish: every message once and in
    order; what makes a message be read twice or never. *)

From S2P Require Import Prelude CString Sql WorkQueue MessageStore MessageFacts MessageTheorems.
Local Open Scope bool_scope.
Local Open Scope Z_scope.

(** ** The pending messages of one subscription *)

Lemma select_and {A} (p q : A -> bool) l : select_where (fun x => p x && q x) l = select_where q (select_where p l).
Proof.
  unfold select_where. induction l as [|x l IH]; [done|]. cbn. destruct (p x); cbn; [|done]. by rewrite IH.
Qed.

Lemma select_unique {A B} (key : A -> B) p l x :
  NoDup (map key l) -> x ∈ l -> (forall y, p y = true <-> key y = key x) -> select_where p l = [x].
Proof.
  intros Hn Hx Hp. unfold select_where. induction l as [|y l IH]; [by apply not_elem_of_nil in Hx|].
  cbn in *. apply NoDup_cons in Hn as [Hy Hn]. apply elem_of_cons in Hx as [<-|Hx].
  - rewrite (proj2 (Hp x)) by done. f_equal. clear IH.
    induction l as [|z l IHl]; [done|]. cbn in *. apply not_elem_of_cons in Hy as [Hne Hy].
    apply NoDup_cons in Hn as [_ Hn]. destruct (p z) eqn:E; [apply Hp in E; congruence|]. by apply IHl.
  - destruct (p y) eqn:E; [|by apply IH]. apply Hp in E. exfalso. apply Hy. rewrite E.
    by apply list_elem_of_In, in_map, list_elem_of_In.
Qed.

Lemma subscription_of_key c a s : subscription_of c a s = true <-> su_key s = (c, a).
Proof.
  unfold subscription_of, su_key. rewrite andb_true_iff, !streq_true. split; [by intros [-> ->]|by intros [= -> ->]].
Qed.

(** A publication, and what a subscriber and the publishers do: a receive whose
    query may fail at any row, with the publications that other processes make
    between its statements. *)
Record Publication := mkPublication {
  pb_st : Stmt;
  pb_now : Z;
  pb_uuid : option cstr;
  pb_channel : cstr;
  pb_sender : cstr;
  pb_content : cstr
}.

Inductive Traffic :=
| Publishes (p : Publication)
| Receives (st : Stmt) (meanwhile : list Publication) (max_count : Z).

Definition id_fits (p : Publication) : bool := match pb_uuid p with Some id => (length id <? 40)%nat | None => true end.

Definition traffic_fits (e : Traffic) : bool :=
  match e with Publishes p => id_fits p | Receives _ ps _ => forallb id_fits ps end.

Definition event_size (e : Traffic) : Z := match e with Publishes _ => 1 | Receives _ ps _ => Z.of_nat (length ps) end.

Definition traffic_size (evs : list Traffic) : Z := foldr (fun e n => event_size e + n) 0 evs.

Lemma traffic_size_nonneg evs : 0 <= traffic_size evs.
Proof. induction evs as [|[p|st ps k] evs IH]; cbn; [done|unfold traffic_size in IH; lia..]. Qed.

Section Channels.
Context {DB : Sqlite} {DS : SqliteSpec DB} {K : Rowids} {KS : RowidsSpec K}.

(** The agent's subscription to a channel. *)
Definition subscribed (c a : cstr) (s : SubscriptionRow) (d : MessageDb) : Prop :=
  s ∈ channel_subscriptions d /\ su_key s = (c, a).

Lemma joined_one c a s n d :
  db_ok n d -> subscribed c a s d -> joined (subscription_of c a) d = select_where (unread_by s) (channel_messages d).
Proof.
  intros Hd [Hs Hk].
  assert (select_where (subscription_of c a) (channel_subscriptions d) = [s]) as E.
  { apply (select_unique su_key); [apply Hd|done|]. intros y. rewrite subscription_of_key, Hk. done. }
  unfold joined. induction (channel_messages d) as [|m ms IH]; [done|].
  unfold select_where at 2. cbn [flat_map List.filter]. rewrite select_and, E. unfold select_where at 1. cbn [List.filter].
  rewrite IH. by destruct (unread_by s m).
Qed.

Lemma pending_in_one c a s n d :
  db_ok n d -> subscribed c a s d -> pending_in c a d = select_where (unread_by s) (channel_messages d).
Proof.
  intros Hd Hs. unfold pending_in. rewrite (joined_one c a s n d Hd Hs).
  apply order_by_increasing, increasing_select, Hd.
Qed.

Lemma pending_in_increasing c a s n d : db_ok n d -> subscribed c a s d -> increasing cm_rowid (pending_in c a d).
Proof. intros Hd Hs. rewrite (pending_in_one c a s n d Hd Hs). apply increasing_select, Hd. Qed.

Lemma char_array_short (id : cstr) : (length id < 40)%nat -> char_array 40 (Some id) = id.
Proof. intros H. unfold char_array. cbn [default from_option]. apply take_ge. cbn. unfold Datatypes.id. lia. Qed.

Lemma key_of_message_exact n d m :
  db_ok n d -> m ∈ channel_messages d -> key_of_message StmtOk (char_array 40 (Some (cm_id m))) d = cm_rowid m.
Proof.
  intros Hd Hm. pose proof (msg_short _ _ Hd) as Hshort. rewrite Forall_forall in Hshort.
  rewrite char_array_short by auto. unfold key_of_message, sqlite_dal_query_one_p. cbn [returned].
  rewrite (select_unique cm_id _ _ m); [done|apply Hd|done|]. intros y. apply streq_true.
Qed.

(** The mappers read every row. *)
Lemma mapped_rows (rows : list ChannelMessageRow) :
  omap map_channel_message rows =
  (fun r => mkChannelMessage (char_array 40 (Some (cm_id r))) (char_array 64 (Some (cm_channel r)))
     (char_array 64 (Some (cm_sender r))) (Some (cm_content r)) (cm_created_at r)) <$> rows.
Proof. induction rows as [|r rows IH]; [done|]. cbn. by rewrite IH. Qed.

Lemma limited_take {A} max_count (l : list A) :
  0 < max_count < 2 ^ 31 -> limited (limit_of max_count) l = take (Z.to_nat max_count) l.
Proof.
  intros H. unfold limited, limit_of. destruct (Z.ltb_spec 0 max_count); [|lia]. rewrite wrap32_small by lia.
  destruct (Z.ltb_spec max_count 0); [lia|done].
Qed.

(** What a receive does to the tables, from the last row it answered. *)
Lemma mark_read_exact n d p m :
  db_ok n d -> m ∈ channel_messages d ->
  mark_read StmtOk StmtOk p (mkChannelMessage (char_array 40 (Some (cm_id m))) (char_array 64 (Some (cm_channel m)))
     (char_array 64 (Some (cm_sender m))) (Some (cm_content m)) (cm_created_at m)) d =
  with_subscriptions (update_where p (set_last_read (cm_rowid m)) (channel_subscriptions d)) d.
Proof.
  intros Hd Hm. unfold mark_read. cbn [cmsg_id]. rewrite (key_of_message_exact n d m Hd Hm).
  pose proof (msg_bound _ _ Hd) as Hb. rewrite Forall_forall in Hb. specialize (Hb _ Hm). cbn in Hb.
  destruct (Z.ltb_spec 0 (cm_rowid m)); [done|lia].
Qed.

(** The rows a receive reads. *)
Definition read_rows (st : Stmt) (max_count : Z) (rows : list ChannelMessageRow) : list ChannelMessageRow :=
  returned st (limited (limit_of max_count) rows).

Lemma query_rows st max_count (rows : list ChannelMessageRow) :
  (sqlite_dal_query_list_p st map_channel_message (limited (limit_of max_count) rows)).2 =
  omap map_channel_message (read_rows st max_count rows).
Proof. by destruct st. Qed.

Lemma read_rows_prefix st max_count rows : exists k, read_rows st max_count rows = take k rows.
Proof.
  unfold read_rows, limited. destruct (limit_of max_count <? 0); destruct st as [|k|]; cbn.
  - by exists 0%nat.
  - by exists k.
  - exists (length rows). by rewrite firstn_all.
  - by exists 0%nat.
  - rewrite take_take. eauto.
  - eauto.
Qed.

Lemma pending_in_sub c a d m : m ∈ pending_in c a d -> m ∈ channel_messages d.
Proof.
  unfold pending_in. rewrite elem_of_order_by. unfold joined.
  intros (x & Hx & E)%list_elem_of_In%in_flat_map. apply in_map_iff in E as (? & <- & _). by apply list_elem_of_In.
Qed.

(** A receive, with what others publish between its statements. *)
Lemma receive_cases st between c a max_count d n :
  (forall m, m ∈ channel_messages d -> m ∈ channel_messages (between d)) -> db_ok n (between d) ->
  let rows := read_rows st max_count (pending_in c a d) in
  channel_receive st StmtOk StmtOk between c a max_count d =
    match last rows with
    | Some m => (omap map_channel_message rows,
                 with_subscriptions (update_where (subscription_of c a) (set_last_read (cm_rowid m))
                                       (channel_subscriptions (between d))) (between d))
    | None => ([], d)
    end.
Proof.
  intros Hb Hd rows. unfold channel_receive.
  pose proof (query_rows st max_count (pending_in c a d)) as Eq. fold rows in Eq.
  destruct (read_rows_prefix st max_count (pending_in c a d)) as [k Ek]. fold rows in Ek.
  destruct st as [|j|].
  1: { assert (rows = []) as -> by done. done. }
  all: cbn [sqlite_dal_query_list_p] in *; cbn [snd] in Eq; rewrite Eq, mapped_rows, fmap_last.
  all: destruct (last rows) as [m|] eqn:E; [|done]; cbn [fmap option_fmap option_map]; f_equal.
  all: apply (mark_read_exact n); [done|]; apply Hb, (pending_in_sub c a).
  all: apply last_Some_elem_of in E; rewrite Ek in E; by eapply elem_of_take_list.
Qed.

(** ** A subscriber among publishers *)

(** The subscription and a cursor that no remaining message is behind. *)
Definition reading (n : Z) (c a : cstr) (s : SubscriptionRow) (d : MessageDb) : Prop :=
  db_ok n d /\ subscribed c a s d /\ su_last_read_at s <= max_key (cm_rowid <$> channel_messages d).

Definition run_publish (p : Publication) (d : MessageDb) : Z * option cstr * MessageDb :=
  channel_publish (pb_st p) (pb_now p) (pb_uuid p) (pb_channel p) (pb_sender p) (pb_content p) d.

Definition publish_all (ps : list Publication) (d : MessageDb) : MessageDb :=
  fold_left (fun d p => (run_publish p d).2) ps d.

(** The message of a publication in the channel that was accepted. *)
Definition accepted (c : cstr) (p : Publication) (d : MessageDb) : list ChannelMessage :=
  match run_publish p d with
  | (0, Some id, _) =>
      if streq (pb_channel p) c then
        [mkChannelMessage (char_array 40 (Some id)) (char_array 64 (Some (pb_channel p)))
           (char_array 64 (Some (pb_sender p))) (Some (pb_content p)) (pb_now p)]
      else []
  | _ => []
  end.

Fixpoint accepted_all (c : cstr) (ps : list Publication) (d : MessageDb) : list ChannelMessage :=
  match ps with
  | [] => []
  | p :: ps => accepted c p d ++ accepted_all c ps (run_publish p d).2
  end.

(** The messages delivered to the subscriber, the ones published in the channel,
    and the tables at the end. *)
Fixpoint traffic (c a : cstr) (evs : list Traffic) (d : MessageDb)
  : list ChannelMessage * list ChannelMessage * MessageDb :=
  match evs with
  | [] => ([], [], d)
  | Publishes p :: evs =>
      let '(got, sent, d') := traffic c a evs (run_publish p d).2 in (got, accepted c p d ++ sent, d')
  | Receives st meanwhile k :: evs =>
      let '(items, d1) := channel_receive st StmtOk StmtOk (publish_all meanwhile) c a k d in
      let new := match items with [] => [] | _ => accepted_all c meanwhile d end in
      let '(got, sent, d') := traffic c a evs d1 in (items ++ got, new ++ sent, d')
  end.

Lemma publish_cases p d n :
  db_ok n d -> 0 <= n < 2 ^ 63 - 1 ->
  ((run_publish p d).2 = d /\ accepted_all (pb_channel p) [p] d = [] /\ (run_publish p d).1.1 <> 0) \/
  exists id, pb_uuid p = Some id /\ (run_publish p d).1 = (0, Some id) /\
    (run_publish p d).2 = with_messages (channel_messages d ++
       [mkChannelMessageRow (max_key (cm_rowid <$> channel_messages d) + 1) id (pb_channel p) (pb_sender p)
          (pb_content p) (pb_now p)]) d.
Proof.
  intros Hd Hn. unfold accepted_all, accepted, run_publish, channel_publish.
  destruct (pb_uuid p) as [id|]; [|by left]. destruct (pb_st p); try by left.
  destruct (channel_exists (pb_channel p) d); [|by left].
  destruct (insert_row _ _ _) as [rows|] eqn:E; [|by left].
  right. exists id. split; [done|]. split; [done|]. apply insert_row_Some in E as [_ ->].
  destruct (new_key n (cm_rowid <$> channel_messages d)) as [-> _]; [lia|apply keys_bound, Hd|lia|done].
Qed.

Lemma max_key_snoc keys k : max_key (keys ++ [k]) = Z.max (max_key keys) k.
Proof.
  pose proof (max_key_nonneg keys). unfold max_key in *. induction keys as [|x keys IH]; cbn in *; [lia|].
  pose proof (max_key_nonneg keys) as H0. unfold max_key in H0. rewrite IH by done. lia.
Qed.

Lemma publish_step n c a s p d :
  reading n c a s d -> 0 <= n < 2 ^ 63 - 1 -> id_fits p = true ->
  let d' := (run_publish p d).2 in
  reading (n + 1) c a s d' /\
  (forall m, m ∈ channel_messages d -> m ∈ channel_messages d') /\
  exists new, pending_in c a d' = pending_in c a d ++ new /\ omap map_channel_message new = accepted c p d.
Proof.
  intros (Hd & Hs & Hc) Hn Hp d'.
  assert (db_ok (n + 1) d') as Hd'.
  { unfold d', run_publish. apply publish_ok; [lia| |done]. intros id E. unfold id_fits in Hp. rewrite E in Hp.
    by apply Nat.ltb_lt. }
  unfold reading. destruct (publish_cases p d n Hd Hn) as [(E & Ea & Ene)|(id & Eu & E1 & E2)].
  - unfold d' in *. rewrite E in *. split; [done|]. split; [done|]. exists []. rewrite app_nil_r. split; [done|].
    unfold accepted. destruct (run_publish p d) as [[rc uuid] d1]. cbn in Ene. by destruct rc.
  - unfold d' in *. rewrite E2 in *. assert (subscribed c a s (run_publish p d).2) as Hs' by by rewrite E2.
    rewrite E2 in Hs'. split; [|split].
    + split; [done|]. split; [done|]. cbn [channel_messages with_messages]. rewrite fmap_app. cbn [fmap list_fmap]. rewrite max_key_snoc. lia.
    + cbn. intros m Hm. apply elem_of_app. by left.
    + rewrite (pending_in_one c a s _ _ Hd' Hs'), (pending_in_one c a s _ _ Hd Hs).
      cbn [channel_messages with_messages]. unfold select_where. rewrite List.filter_app. eexists. split; [done|].
      unfold accepted. destruct (run_publish p d) as [[rc uuid] d1]. cbn in E1. injection E1 as -> ->.
      cbn [List.filter]. unfold unread_by at 1. cbn [cm_channel cm_rowid].
      destruct Hs as [_ Hk]. injection Hk as -> _.
      destruct (Z.ltb_spec (su_last_read_at s) (max_key (cm_rowid <$> channel_messages d) + 1)); [|lia].
      rewrite andb_true_r. by destruct (streq (pb_channel p) c).
Qed.

Lemma publishes_step n c a s ps d :
  reading n c a s d -> 0 <= n -> n + Z.of_nat (length ps) < 2 ^ 63 -> forallb id_fits ps = true ->
  let d' := publish_all ps d in
  reading (n + Z.of_nat (length ps)) c a s d' /\
  (forall m, m ∈ channel_messages d -> m ∈ channel_messages d') /\
  exists new, pending_in c a d' = pending_in c a d ++ new /\ omap map_channel_message new = accepted_all c ps d.
Proof.
  revert n d. induction ps as [|p ps IH]; intros n d Hr Hn Hlt Hf.
  - cbn. rewrite Z.add_0_r. split; [done|]. split; [done|]. exists []. by rewrite app_nil_r.
  - cbn [length forallb] in *. apply andb_true_iff in Hf as [Hp Hf].
    destruct (publish_step n c a s p d Hr) as (H1 & H2 & new & H3 & H4); [lia|done|].
    destruct (IH (n + 1) (run_publish p d).2) as (G1 & G2 & new' & G3 & G4); [done|lia|lia|done|].
    unfold publish_all in *. cbn [fold_left accepted_all].
    split; [by replace (n + Z.of_nat (S (length ps))) with (n + 1 + Z.of_nat (length ps)) by lia|].
    split; [auto|]. exists (new ++ new'). by rewrite G3, H3, omap_app, H4, G4, <- app_assoc.
Qed.

(** What one receive delivers and leaves. *)
Lemma receive_step n c a s st meanwhile k d :
  reading n c a s d -> 0 <= n -> n + Z.of_nat (length meanwhile) < 2 ^ 63 -> forallb id_fits meanwhile = true ->
  let '(items, d') := channel_receive st StmtOk StmtOk (publish_all meanwhile) c a k d in
  (exists s', reading (n + Z.of_nat (length meanwhile)) c a s' d') /\
  items ++ omap map_channel_message (pending_in c a d') =
  omap map_channel_message (pending_in c a d) ++ match items with [] => [] | _ => accepted_all c meanwhile d end.
Proof.
  intros Hr Hn Hlt Hf.
  destruct (publishes_step n c a s meanwhile d Hr Hn Hlt Hf) as (Hr' & Hsub & new & Hnew & Hacc).
  rewrite (receive_cases st (publish_all meanwhile) c a k d _ Hsub (proj1 Hr')).
  set (d1 := publish_all meanwhile d) in *.
  destruct (read_rows_prefix st k (pending_in c a d)) as [j Ej]. rewrite Ej.
  destruct (last _) as [m|] eqn:E.
  2: { split; [|by rewrite app_nil_r]. exists s. destruct Hr as (H1 & H2 & H3).
       split; [|done]. by apply (db_ok_mono n); [lia|]. }
  pose proof (last_Some_elem_of _ _ E) as Hm. apply elem_of_take_list in Hm.
  destruct Hr as (Hd & Hs & Hc), Hr' as (Hd1 & Hs1 & Hc1).
  set (d2 := with_subscriptions _ d1).
  assert (m ∈ channel_messages d1) as Hm1 by (by apply Hsub, (pending_in_sub c a)).
  assert (db_ok (n + Z.of_nat (length meanwhile)) d2) as Hd2.
  { unfold d2. rewrite <- (mark_read_exact (n + Z.of_nat (length meanwhile))) by done. by apply mark_read_ok. }
  assert (subscribed c a (set_last_read (cm_rowid m) s) d2) as Hs2.
  { destruct Hs1 as [Hin Hk]. split; [|done]. cbn. apply elem_of_update. exists s. split; [done|].
    by rewrite (proj2 (subscription_of_key c a s) Hk). }
  split.
  { exists (set_last_read (cm_rowid m) s). split; [done|]. split; [done|]. cbn.
    apply max_key_ge, list_elem_of_fmap. by exists m. }
  assert (pending_in c a d2 = drop (length (take j (pending_in c a d))) (pending_in c a d1)) as ->.
  { assert (last (take (length (take j (pending_in c a d))) (pending_in c a d1)) = Some m) as El.
    { rewrite Hnew, take_app_le by (rewrite length_take; lia). by rewrite <- E, length_take, <- take_take, firstn_all. }
    rewrite (pending_in_one c a _ _ d2 Hd2 Hs2), <- (select_after cm_rowid _ _ m (pending_in_increasing c a s _ d1 Hd1 Hs1) El).
    rewrite (pending_in_one c a s _ d1 Hd1 Hs1). cbn [d2 channel_messages with_subscriptions]. rewrite <- select_and.
    apply filter_ext_in. intros x _.
    rewrite (pending_in_one c a s _ d Hd Hs) in Hm. apply elem_of_select in Hm as [_ Hum].
    unfold unread_by in *. cbn. apply andb_true_iff in Hum as [_ Hum%Z.ltb_lt].
    destruct (streq _ _); [cbn|done].
    destruct (Z.ltb_spec (cm_rowid m) (cm_rowid x)), (Z.ltb_spec (su_last_read_at s) (cm_rowid x)); try done; lia. }
  rewrite <- omap_app. rewrite Hnew, drop_app_le by (rewrite length_take; lia).
  assert (take j (pending_in c a d) ++ drop (length (take j (pending_in c a d))) (pending_in c a d) = pending_in c a d) as Et.
  { rewrite <- (take_drop j (pending_in c a d)) at 3. by rewrite drop_app_length, take_drop. }
  rewrite app_assoc, Et, omap_app, Hacc.
  destruct (omap map_channel_message (take j _)) eqn:Eo; [|done].
  rewrite mapped_rows in Eo. apply fmap_nil_inv in Eo. by rewrite Eo in E.
Qed.

Lemma traffic_exact evs : forall n c a s d,
  reading n c a s d -> 0 <= n -> n + traffic_size evs < 2 ^ 63 -> forallb traffic_fits evs = true ->
  let '(got, sent, d') := traffic c a evs d in
  got ++ omap map_channel_message (pending_in c a d') = omap map_channel_message (pending_in c a d) ++ sent.
Proof.
  induction evs as [|[p|st meanwhile k] evs IH]; intros n c a s d Hr Hn Hlt Hf; cbn [traffic traffic_size foldr forallb] in *.
  - by rewrite app_nil_r.
  - apply andb_true_iff in Hf as [Hp Hf].
    pose proof (traffic_size_nonneg evs). cbn [event_size] in Hlt. fold (traffic_size evs) in Hlt.
    destruct (publish_step n c a s p d Hr) as (H1 & _ & new & H3 & H4); [lia|done|].
    specialize (IH (n + 1) c a s (run_publish p d).2 H1 ltac:(lia) ltac:(lia) Hf).
    destruct (traffic c a evs (run_publish p d).2) as [[got sent] d'].
    by rewrite IH, H3, omap_app, H4, <- app_assoc.
  - apply andb_true_iff in Hf as [Hp Hf].
    pose proof (traffic_size_nonneg evs). cbn [event_size] in Hlt. fold (traffic_size evs) in Hlt.
    pose proof (receive_step n c a s st meanwhile k d Hr ltac:(lia) ltac:(lia) Hp) as Hs.
    destruct (channel_receive st StmtOk StmtOk (publish_all meanwhile) c a k d) as [items d1].
    destruct Hs as [[s' Hr'] Hs].
    specialize (IH _ c a s' d1 Hr' ltac:(lia) ltac:(lia) Hf).
    destruct (traffic c a evs d1) as [[got sent] d']. rewrite <- app_assoc, IH, !app_assoc. by f_equal.
Qed.
End Channels.

(** ** All channels at once *)

Section AllChannels.
Context {DB : Sqlite} {DS : SqliteSpec DB}.

Lemma elem_of_joined p d m :
  m ∈ joined p d <-> m ∈ channel_messages d /\ exists s, s ∈ channel_subscriptions d /\ p s = true /\ unread_by s m = true.
Proof.
  unfold joined. rewrite list_elem_of_In, in_flat_map. split.
  - intros (x & Hx & (s & <- & Hs)%in_map_iff). apply list_elem_of_In in Hx, Hs. split; [done|].
    apply elem_of_select in Hs as [Hs [Hp Hu]%andb_true_iff]. eauto.
  - intros (Hm & s & Hs & Hp & Hu). exists m. split; [by apply list_elem_of_In|]. apply in_map_iff. exists s.
    split; [done|]. apply list_elem_of_In, elem_of_select. by rewrite Hp, Hu.
Qed.

Lemma elem_of_pending_all a d m :
  m ∈ pending_all a d <->
  m ∈ channel_messages d /\
  exists s, s ∈ channel_subscriptions d /\ su_agent s = a /\ su_channel s = cm_channel m /\ su_last_read_at s < cm_rowid m.
Proof.
  unfold pending_all. rewrite elem_of_order_by, elem_of_joined. unfold of_agent, unread_by.
  split; intros (Hm & s & Hs & H); (split; [done|]); exists s; (split; [done|]);
    revert H; rewrite andb_true_iff, !streq_true, Z.ltb_lt; naive_solver.
Qed.
End AllChannels.

(** ** Properties *)

(** C14: Whatever other processes publish, between the receives and between the two
    statements of a receive, and wherever the query of a receive fails: the
    messages a subscriber reads from its channel, followed by the ones still
    pending, are the ones pending at the start followed by the ones accepted in
    the channel, in that order, each exactly once. *)
Theorem channel_fifo {DB : Sqlite} {DS : SqliteSpec DB} {K : Rowids} {KS : RowidsSpec K} (n : Z) (c a : cstr)
    (s : SubscriptionRow) (d : MessageDb) (evs : list Traffic) :
  reading n c a s d -> 0 <= n -> n + traffic_size evs < 2 ^ 63 -> forallb traffic_fits evs = true ->
  let '(got, sent, d') := traffic c a evs d in
  got ++ omap map_channel_message (pending_in c a d') = omap map_channel_message (pending_in c a d) ++ sent.
Proof. intros Hr Hn Hlt Hf. by apply (traffic_exact evs n c a s d). Qed.

Lemma run_ops_ok {DB : Sqlite} {K : Rowids} {KS : RowidsSpec K} ops m n d :
  db_ok n d -> 0 <= n -> n + all_inserts ops = m -> m < 2 ^ 63 -> forallb ids_fit ops = true -> db_ok m (run_ops ops d).
Proof.
  intros Hd Hn <- Hlt Hi. apply keeps_all; try done. apply Forall_forall. intros op _. apply op_keeps.
Qed.

(** Agent b subscribed to the channel news. *)
Definition news_db : MessageDb :=
  run_ops [OpCreate StmtOk 1 (cs "news") None (cs "a") false; OpSubscribe StmtOk 2 (cs "news") (cs "b")] empty_db.

Definition news (id : cstr) (now : Z) : Publication := mkPublication StmtOk now (Some id) (cs "news") (cs "a") id.

Definition sample_traffic : list Traffic :=
  [Publishes (news (cs "1") 3); Publishes (news (cs "2") 4); Receives (StepFails 1) [news (cs "3") 5] 10;
   Publishes (news (cs "3") 6); Receives StmtOk [news (cs "4") 7] 10].

Lemma news_db_ok : db_ok 0 news_db.
Proof. by apply (run_ops_ok _ _ 0 _ empty_db_ok). Qed.

Lemma channel_fifo_witness :
  let '(got, sent, d') := traffic (cs "news") (cs "b") sample_traffic news_db in
  got ++ omap map_channel_message (pending_in (cs "news") (cs "b") d') =
    omap map_channel_message (pending_in (cs "news") (cs "b") news_db) ++ sent /\
  (cmsg_id <$> got) = [cs "1"; cs "2"; cs "3"] /\ (cmsg_id <$> sent) = [cs "1"; cs "2"; cs "3"; cs "4"].
Proof.
  assert (reading 0 (cs "news") (cs "b") (mkSubscriptionRow (cs "news") (cs "b") 2 0) news_db) as Hr.
  { split; [apply news_db_ok|]. split; [|vm_compute; discriminate]. split; [|reflexivity].
    apply list_elem_of_In. vm_compute. by left. }
  assert (0 <= 0) as H0 by lia.
  assert (0 + traffic_size sample_traffic < 2 ^ 63) as Hlt by (vm_compute; reflexivity).
  assert (forallb traffic_fits sample_traffic = true) as Hf by (vm_compute; reflexivity).
  pose proof (channel_fifo 0 (cs "news") (cs "b") (mkSubscriptionRow (cs "news") (cs "b") 2 0) news_db sample_traffic Hr H0 Hlt Hf) as E.
  destruct (traffic (cs "news") (cs "b") sample_traffic news_db) as [[got sent] d'] eqn:Et.
  split; [exact E|]. clear E. vm_compute in Et. injection Et as <- <- <-. split; vm_compute; reflexivity.
Defined.

(** A receive of all the channels of an agent answers its oldest pending
    messages, and moves the cursors of all its subscriptions to the last one
    answered, forwards or backwards: pending afterwards are exactly the messages
    of its channels with a larger key, the ones it had read before among them. *)
Theorem receive_all_exact {DB : Sqlite} {DS : SqliteSpec DB} (n : Z) (a : cstr) (max_count : Z) (d : MessageDb) :
  db_ok n d -> 0 < max_count < 2 ^ 31 ->
  let rows := take (Z.to_nat max_count) (pending_all a d) in
  let '(items, d') := channel_receive_all StmtOk StmtOk StmtOk (fun d => d) a max_count d in
  items = omap map_channel_message rows /\
  match last rows with
  | None => d' = d
  | Some l =>
      (forall s, s ∈ channel_subscriptions d' -> su_agent s = a -> su_last_read_at s = cm_rowid l) /\
      forall m, m ∈ pending_all a d' <->
        m ∈ channel_messages d /\ cm_rowid l < cm_rowid m /\
        exists s, s ∈ channel_subscriptions d /\ su_agent s = a /\ su_channel s = cm_channel m
  end.
Proof.
  intros Hd Hmax rows. unfold channel_receive_all. cbn [sqlite_dal_query_list_p returned].
  rewrite (limited_take max_count) by done. fold rows. rewrite mapped_rows, fmap_last.
  destruct (last rows) as [l|] eqn:E; cbn [fmap option_fmap option_map].
  2: { apply last_None in E. by rewrite E. }
  split; [done|]. apply last_Some_elem_of, elem_of_take_list, elem_of_pending_all in E as [Hl _].
  rewrite (mark_read_exact n) by done. cbn [channel_subscriptions with_subscriptions].
  split.
  - intros s (s0 & Hs & ->)%elem_of_update. destruct (of_agent a s0) eqn:Ea; [done|]. unfold of_agent in Ea.
    intros <-. by rewrite streq_refl in Ea.
  - intros m. rewrite elem_of_pending_all. cbn [channel_messages channel_subscriptions with_subscriptions]. split.
    + intros (Hm & s & (s0 & Hs & ->)%elem_of_update & Ha & Hc & Hlt). split; [done|].
      destruct (of_agent a s0) eqn:Ea.
      * split; [done|]. exists s0. done.
      * unfold of_agent in Ea. by rewrite Ha, streq_refl in Ea.
    + intros (Hm & Hlt & s & Hs & Ha & Hc). split; [done|]. exists (set_last_read (cm_rowid l) s).
      split; [|done]. apply elem_of_update. exists s. split; [done|]. unfold of_agent. by rewrite Ha, streq_refl.
Qed.

(** Agent b read the news; then it receives all with the oldest message of the
    other channel pending, and the news are pending again. *)
Definition two_channels : MessageDb :=
  run_ops [OpCreate StmtOk 1 (cs "old") None (cs "a") true; OpSubscribe StmtOk 1 (cs "old") (cs "b");
           OpPublish StmtOk 2 (Some (cs "o1")) (cs "old") (cs "a") (cs "x");
           OpPublish StmtOk 3 (Some (cs "n1")) (cs "news") (cs "a") (cs "y");
           OpChannelReceive StmtOk StmtOk StmtOk [] (cs "news") (cs "b") 10]
    (run_ops [OpPublish StmtOk 1 (Some (cs "n0")) (cs "news") (cs "a") (cs "z")] news_db).

Lemma two_channels_ok : db_ok 3 two_channels.
Proof.
  apply (run_ops_ok _ _ 1); try done. by apply (run_ops_ok _ _ 0 _ news_db_ok).
Qed.

Lemma receive_all_exact_witness :
  let '(items, d') := channel_receive_all StmtOk StmtOk StmtOk (fun d => d) (cs "b") 10 two_channels in
  (cmsg_id <$> items) = [cs "o1"] /\
  (cm_id <$> pending_all (cs "b") two_channels) = [cs "o1"] /\
  (cm_id <$> pending_all (cs "b") d') = [cs "n1"] /\
  (forall s, s ∈ channel_subscriptions d' -> su_agent s = cs "b" -> su_last_read_at s = 2).
Proof.
  assert (0 < 10 < 2 ^ 31) as H10 by lia.
  pose proof (receive_all_exact 3 (cs "b") 10 two_channels two_channels_ok H10) as E.
  destruct (channel_receive_all StmtOk StmtOk StmtOk (fun d => d) (cs "b") 10 two_channels) as [items d'] eqn:Er.
  cbv zeta in E. destruct E as [_ E].
  vm_compute in Er. injection Er as <- <-.
  split; [reflexivity|]. split; [vm_compute; reflexivity|]. split; [vm_compute; reflexivity|].
  exact (proj1 E).
Defined.

(** A published message is pending for a subscriber of the channel exactly when
    the subscriber's cursor is not behind every remaining message: when a cleanup
    deleted the newest ones, SQLite gives their keys again, the publication
    succeeds and the message is never delivered. *)
Theorem published_is_pending_iff {DB : Sqlite} {DS : SqliteSpec DB} {K : Rowids} {KS : RowidsSpec K} (n : Z) (c a : cstr)
    (s : SubscriptionRow) (p : Publication) (d : MessageDb) :
  db_ok n d -> 0 <= n < 2 ^ 63 - 1 -> id_fits p = true -> subscribed c a s d -> pb_channel p = c ->
  (run_publish p d).1.1 = 0 ->
  let d' := (run_publish p d).2 in
  length (channel_messages d') = S (length (channel_messages d)) /\
  ((exists m, m ∈ pending_in c a d' /\ Some (cm_id m) = pb_uuid p) <->
   su_last_read_at s <= max_key (cm_rowid <$> channel_messages d)).
Proof.
  intros Hd Hn Hp Hs Hc Hrc d'.
  destruct (publish_cases p d n Hd Hn) as [(_ & _ & Hne)|(id & Eu & E1 & E2)]; [done|].
  assert (db_ok (n + 1) d') as Hd'.
  { unfold d', run_publish. apply publish_ok; [lia| |done]. intros i E. unfold id_fits in Hp. rewrite E in Hp.
    by apply Nat.ltb_lt. }
  unfold d' in *. rewrite E2 in *. split; [cbn [channel_messages with_messages]; rewrite length_app; cbn [length]; lia|].
  rewrite (pending_in_one c a s _ _ Hd' Hs). cbn [channel_messages with_messages]. rewrite Eu.
  pose proof (msg_ids _ _ Hd') as Hids. cbn in Hids. rewrite map_app in Hids. apply NoDup_app in Hids as (_ & Hids & _).
  split.
  - intros (m & [Hm Hu]%elem_of_select & Hi). injection Hi as Hi. apply elem_of_app in Hm as [Hm| ->%list_elem_of_singleton].
    + exfalso. apply (Hids (cm_id m)); [by apply list_elem_of_In, in_map, list_elem_of_In|]. cbn. rewrite Hi. by left.
    + unfold unread_by in Hu. cbn in Hu. apply andb_true_iff in Hu as [_ Hu%Z.ltb_lt]. lia.
  - intros Hle.
    exists (mkChannelMessageRow (max_key (cm_rowid <$> channel_messages d) + 1) id (pb_channel p) (pb_sender p)
              (pb_content p) (pb_now p)). split; [|done]. apply elem_of_select. split; [apply elem_of_app; right; by left|].
    unfold unread_by. cbn. destruct Hs as [_ Hk]. injection Hk as -> _. rewrite Hc, streq_refl. apply Z.ltb_lt. lia.
Qed.

(** The channel after its only message was read and cleaned up. *)
Definition cleaned_db : MessageDb :=
  run_ops [OpPublish StmtOk 3 (Some (cs "1")) (cs "news") (cs "a") (cs "x");
           OpChannelReceive StmtOk StmtOk StmtOk [] (cs "news") (cs "b") 10; OpCleanupChannel StmtOk 100000 1] news_db.

Lemma published_is_pending_iff_witness :
  length (channel_messages (run_publish (news (cs "2") 100001) cleaned_db).2) = 1%nat /\
  ~ (exists m, m ∈ pending_in (cs "news") (cs "b") (run_publish (news (cs "2") 100001) cleaned_db).2 /\
       Some (cm_id m) = Some (cs "2")).
Proof.
  assert (db_ok 1 cleaned_db) as Hd.
  { by apply (run_ops_ok _ _ 0 _ news_db_ok). }
  assert (0 <= 1 < 2 ^ 63 - 1) as H1 by lia.
  assert (id_fits (news (cs "2") 100001) = true) as Hi by (vm_compute; reflexivity).
  assert (subscribed (cs "news") (cs "b") (mkSubscriptionRow (cs "news") (cs "b") 2 1) cleaned_db) as Hs.
  { split; [|reflexivity]. apply list_elem_of_In. vm_compute. by left. }
  assert ((run_publish (news (cs "2") 100001) cleaned_db).1.1 = 0) as Hrc by (vm_compute; reflexivity).
  destruct (published_is_pending_iff 1 (cs "news") (cs "b") _ (news (cs "2") 100001) cleaned_db Hd H1 Hi Hs eq_refl Hrc) as [E1 E2].
  split; [vm_compute; reflexivity|]. intros Hm. apply E2 in Hm. revert Hm. vm_compute. intros Hm. by apply Hm.
Defined.
