(* ===== verification/Worker.v ===== *)
(** * The worker process (lib/agent/agent.c, AGENT_MODE_WORKER)

    A worker claims items of its queue one after the other, lets the session
    process each as a message, and reports the outcome to the queue, until the
    queue answers that nothing is pending. What the session does with a message
    is a parameter: it may change the table itself (its tools and the other
    processes run meanwhile). *)

From S2P Require Import Prelude CString Json Sql WorkQueue.
Local Open Scope Z_scope.

(** A message of the conversation: role and content may be NULL. *)
Record ConversationMessage := mkMessage { cm_role : option cstr; cm_content : option cstr }.

(** What one iteration depends on: the flag cleared by the signal handler, the
    outcome of its statements and allocations, and the clock. *)
Record WorkerTick := mkTick {
  g_worker_running : bool;
  tick_claim : Stmt;
  tick_item_alloc : bool;
  tick_message_alloc : bool;
  tick_report1 : Stmt;
  tick_report2 : Stmt;
  tick_now : Z
}.

Section Worker.
Context {DB : Sqlite} {W : Type}.
(** The result code, the conversation and the table after one message. *)
Context (session_process_message : W -> list WorkItemRow -> cstr ->
           W * list WorkItemRow * (Z * list ConversationMessage)).
Context (queue : WorkQueue) (session_id : cstr).

Record WorkerState := mkWorkerState {
  wk_world : W;
  wk_rows : list WorkItemRow;
  items_processed : Z;
  errors : Z
}.

Definition worker_message (item : WorkItem) : cstr :=
  let task := default [] (wi_task_description item) in
  match wi_context item with
  | Some ((_ :: _) as context) => cs "Context: " ++ context ++ ["010"; "010"]%char ++ cs "Task: " ++ task
  | _ => task
  end.

(** The content of the last message of the assistant. *)
Fixpoint last_assistant (conv : list ConversationMessage) : option cstr :=
  match conv with
  | [] => None
  | m :: conv' =>
      match last_assistant conv' with
      | Some r => Some r
      | None => match cm_role m with
                | Some role => if streq role (cs "assistant") then cm_content m else None
                | None => None
                end
      end
  end.

Definition failure_message (result : Z) : cstr :=
  cs "Task processing failed with code " ++ int_text result.

(** The body of the loop for a claimed item. *)
Definition process_item (t : WorkerTick) (item : WorkItem) (s : WorkerState) : WorkerState :=
  if negb (tick_message_alloc t) then
    let rows := (work_queue_fail (tick_report1 t) (tick_report2 t) queue (wi_id item)
                   (Some (cs "Failed to allocate message")) (wk_rows s)).2 in
    mkWorkerState (wk_world s) rows (items_processed s) (errors s + 1)
  else
    let '(w, rows, (result, conv)) :=
      session_process_message (wk_world s) (wk_rows s) (worker_message item) in
    if result =? 0 then
      let worker_result := default (cs "Task completed successfully") (last_assistant conv) in
      let rows := (work_queue_complete (tick_report1 t) (tick_now t) queue (wi_id item)
                     (Some worker_result) rows).2 in
      mkWorkerState w rows (items_processed s + 1) (errors s)
    else if result =? -2 then
      let rows := (work_queue_complete (tick_report1 t) (tick_now t) queue (wi_id item)
                     (Some (cs "Task interrupted by user")) rows).2 in
      mkWorkerState w rows (items_processed s) (errors s)
    else
      let rows := (work_queue_fail (tick_report1 t) (tick_report2 t) queue (wi_id item)
                     (Some (failure_message result)) rows).2 in
      mkWorkerState w rows (items_processed s) (errors s + 1).

(** One test of the loop condition and one iteration; [None] leaves the loop. *)
Definition worker_iteration (t : WorkerTick) (s : WorkerState) : option WorkerState * WorkerState :=
  if negb (g_worker_running t) then (None, s)
  else
    let '(item, rows) := work_queue_claim (tick_claim t) (tick_item_alloc t) (tick_now t) queue
                           session_id (wk_rows s) in
    let s := mkWorkerState (wk_world s) rows (items_processed s) (errors s) in
    match item with
    | None => (None, s)
    | Some item => (Some (process_item t item s), s)
    end.

(** The loop; [None] when the fuel ends before it does. *)
Fixpoint worker_loop (ticks : nat -> WorkerTick) (fuel i : nat) (s : WorkerState) : option WorkerState :=
  match fuel with
  | O => None
  | S fuel' =>
      match worker_iteration (ticks i) s with
      | (Some s', _) => worker_loop ticks fuel' (S i) s'
      | (None, s') => Some s'
      end
  end.

(** The exit value of the worker. *)
Definition worker_exit (s : WorkerState) : Z := if 0 <? errors s then -1 else 0.
End Worker.
Arguments WorkerState : clear implicits.

(** ** The attempts left in a queue *)

Definition attempts_left (q : WorkQueue) (r : WorkItemRow) : Z :=
  if streq (row_queue_name r) q then row_max_attempts r - row_attempt_count r else 0.

Definition budget (q : WorkQueue) (rows : list WorkItemRow) : Z :=
  foldr (fun r acc => attempts_left q r + acc) 0 rows.

Lemma budget_nonneg q rows : items_ok rows -> 0 <= budget q rows.
Proof.
  intros [Hr _]. induction Hr as [|r rows Hr _ IH]; [done|].
  change (0 <= attempts_left q r + budget q rows).
  destruct Hr. unfold attempts_left. case_match; lia.
Qed.

Lemma budget_update q p f rows :
  (forall r, attempts_left q (f r) = attempts_left q r) -> budget q (update_where p f rows) = budget q rows.
Proof.
  intros H. induction rows as [|r rows IH]; [done|].
  change (attempts_left q (if p r then f r else r) + budget q (update_where p f rows) =
          attempts_left q r + budget q rows).
  rewrite IH. destruct (p r); [by rewrite H|done].
Qed.

Lemma budget_update_one q f rows r :
  NoDup (map row_id rows) -> r ∈ rows ->
  budget q (update_where (same_id r) f rows) = budget q rows - attempts_left q r + attempts_left q (f r).
Proof.
  induction rows as [|x rows IH]; [by intros _ ?%not_elem_of_nil|]. cbn [map]. rewrite NoDup_cons.
  intros [Hn Hd] Hr.
  change (attempts_left q (if same_id r x then f x else x) + budget q (update_where (same_id r) f rows) =
          attempts_left q x + budget q rows - attempts_left q r + attempts_left q (f r)).
  apply elem_of_cons in Hr as [-> | Hr].
  - rewrite (proj2 (same_id_true x x) eq_refl).
    rewrite update_where_none; [lia|]. intros y Hy. apply not_true_is_false. intros E%same_id_true.
    apply Hn. rewrite E. apply list_elem_of_In, in_map, list_elem_of_In, Hy.
  - assert (same_id r x = false) as ->.
    { apply not_true_is_false. intros E%same_id_true. apply Hn. rewrite <- E.
      apply list_elem_of_In, in_map, list_elem_of_In, Hr. }
    rewrite IH by done. lia.
Qed.

Section WorkerFacts.
Context {DB : Sqlite} {DBS : SqliteSpec DB} {W : Type}.
Context (process : W -> list WorkItemRow -> cstr -> W * list WorkItemRow * (Z * list ConversationMessage)).
Context (queue : WorkQueue) (session_id : cstr).

Lemma budget_complete st now id res rows :
  budget queue (work_queue_complete st now queue id res rows).2 = budget queue rows.
Proof. unfold work_queue_complete. destruct st; try done. by apply budget_update. Qed.

Lemma budget_fail st1 st2 id err rows :
  budget queue (work_queue_fail st1 st2 queue id err rows).2 = budget queue rows.
Proof.
  unfold work_queue_fail. destruct (fail_check _ _ _ _); [|done]. destruct st2; try done. by apply budget_update.
Qed.

Lemma budget_claim st alloc now w item rows rows' :
  items_ok rows -> work_queue_claim st alloc now queue w rows = (Some item, rows') ->
  budget queue rows' = budget queue rows - 1.
Proof.
  intros Hok. unfold work_queue_claim. destruct (oldest_pending queue rows) as [r|] eqn:E.
  2: { by destruct st as [|[]|]. }
  apply oldest_pending_Some in E as (Hr & [Hq _]%is_pending_true & _). intros Hc.
  assert (rows' = update_where (same_id r) (claim_row now w) rows) as ->
    by (destruct st as [|[]|], alloc; naive_solver).
  rewrite budget_update_one by (done || apply Hok). unfold attempts_left. cbn.
  rewrite Hq, streq_refl. lia.
Qed.

(** What the other processes may do while a message is processed: nothing that
    adds attempts to the queue. *)
Definition adds_no_attempts : Prop := forall w rows m,
  items_ok rows ->
  items_ok (process w rows m).1.2 /\ budget queue (process w rows m).1.2 <= budget queue rows.

Lemma process_item_budget t item (s : WorkerState W) :
  adds_no_attempts -> items_ok (wk_rows s) ->
  items_ok (wk_rows (process_item process queue t item s)) /\
  budget queue (wk_rows (process_item process queue t item s)) <= budget queue (wk_rows s).
Proof.
  intros Hp Hok. unfold process_item. destruct (negb (tick_message_alloc t)); cbn [wk_rows].
  - rewrite budget_fail. split; [auto with scaffold|lia].
  - specialize (Hp (wk_world s) (wk_rows s) (worker_message item) Hok).
    destruct (process _ _ _) as [[w rows] [result conv]]. cbn [fst snd] in Hp. destruct Hp.
    repeat case_match; cbn [wk_rows]; rewrite ?budget_fail, ?budget_complete;
      (split; [auto with scaffold|done]).
Qed.

Lemma worker_iteration_budget t (s s1 s2 : WorkerState W) :
  adds_no_attempts -> items_ok (wk_rows s) ->
  worker_iteration process queue session_id t s = (Some s1, s2) ->
  items_ok (wk_rows s1) /\ budget queue (wk_rows s1) <= budget queue (wk_rows s) - 1.
Proof.
  intros Hp Hok. unfold worker_iteration. destruct (negb _); [done|].
  destruct (work_queue_claim _ _ _ _ _ _) as [[item|] rows] eqn:E; [|done]. intros [= <- _].
  pose proof (claim_items_ok (tick_claim t) (tick_item_alloc t) (tick_now t) queue session_id (wk_rows s) Hok) as H.
  apply budget_claim in E as Hb; [|done]. rewrite E in H. cbn in H.
  apply process_item_budget with (t := t) (item := item)
    (s := mkWorkerState (wk_world s) rows (items_processed s) (errors s)) in Hp as [? ?]; [|done].
  split; [done|]. cbn [wk_rows] in *. lia.
Qed.

Lemma worker_loop_ends ticks fuel i (s : WorkerState W) :
  adds_no_attempts -> items_ok (wk_rows s) -> budget queue (wk_rows s) < Z.of_nat fuel ->
  exists s', worker_loop process queue session_id ticks fuel i s = Some s'.
Proof.
  intros Hp. revert i s. induction fuel as [|fuel IH]; intros i s Hok Hb.
  { pose proof (budget_nonneg queue _ Hok). lia. }
  cbn [worker_loop]. destruct (worker_iteration process queue session_id (ticks i) s) as [[s1|] s2] eqn:E; [|eauto].
  destruct (worker_iteration_budget _ _ _ _ Hp Hok E). apply IH; [done|lia].
Qed.
End WorkerFacts.

(** Termination: if nothing adds attempts to the queue meanwhile, the
    worker's loop ends, whichever statements and allocations fail and whatever
    the session answers: it runs at most once more than there are attempts left
    in the queue. *)
Theorem worker_terminates {DB : Sqlite} {DBS : SqliteSpec DB} {W} process queue session_id ticks
    (s : WorkerState W) :
  items_ok (wk_rows s) -> adds_no_attempts process queue ->
  exists s', worker_loop process queue session_id ticks
    (S (Z.to_nat (budget queue (wk_rows s)))) 0 s = Some s'.
Proof.
  intros Hok Hp. apply worker_loop_ends; [done..|]. pose proof (budget_nonneg queue _ Hok). lia.
Qed.

(** ** A worker alone on its queue *)

(** Everything the iteration needs works, and no signal arrives. *)
Definition tick_ok (t : WorkerTick) : Prop :=
  g_worker_running t = true /\ tick_claim t = StmtOk /\ tick_item_alloc t = true /\
  tick_report1 t = StmtOk /\ tick_report2 t = StmtOk.

Section Settling.
Context {DB : Sqlite} {DBS : SqliteSpec DB} {W : Type}.
Context (process : W -> list WorkItemRow -> cstr -> W * list WorkItemRow * (Z * list ConversationMessage)).
Context (queue : WorkQueue) (session_id : cstr).

(** The ids fit their array, and the only assigned items of the queue are those
    of the list. *)
Record settling (assigned : list cstr) (rows : list WorkItemRow) : Prop := {
  settling_ids : Forall (fun id => (length id <= 39)%nat) (map row_id rows);
  settling_rows r : r ∈ rows -> row_queue_name r = queue -> row_status r = 1 -> row_id r ∈ assigned
}.

(** What the report does to the rows of the item. *)
Definition reports (f : WorkItemRow -> WorkItemRow) : Prop :=
  forall r, row_id (f r) = row_id r /\ row_status (f r) <> 1.

Lemma settling_report assigned rows r f now :
  items_ok rows -> settling assigned rows -> r ∈ rows -> row_queue_name r = queue -> reports f ->
  settling assigned (update_where (is_item queue (row_id r)) f
                       (update_where (same_id r) (claim_row now session_id) rows)).
Proof using Type.
  intros Hok [Hids Hrows] Hr Hq Hf. split.
  { rewrite !update_where_column; try done. intros x. apply Hf. }
  intros x Hx Hxq Hxs. apply elem_of_update in Hx as (y & Hy & ->).
  destruct (is_item queue (row_id r) y) eqn:Ei; [by destruct (Hf y)|].
  apply elem_of_update in Hy as (z & Hz & ->).
  destruct (same_id r z) eqn:Es; [|by apply Hrows].
  apply same_id_true in Es. exfalso. revert Ei. apply not_false_iff_true, is_item_true.
  split; [by rewrite Es|]. rewrite <- (items_ok_unique rows r z Hok Hr Hz Es). exact Hq.
Qed.

(** The report made for a claimed item, as one update of its row. *)
Lemma report_update t (s : WorkerState W) item rows id :
  tick_ok t -> (forall w rows m, (process w rows m).1.2 = rows) ->
  wk_rows s = rows -> wi_id item = id ->
  exists f, reports f /\ wk_rows (process_item process queue t item s) = update_where (is_item queue id) f rows.
Proof using Type.
  intros (_ & _ & _ & E1 & E2) Hp <- <-. unfold process_item. rewrite E1, E2.
  assert (forall err, exists f, reports f /\
    (work_queue_fail StmtOk StmtOk queue (wi_id item) err (wk_rows s)).2 =
    update_where (is_item queue (wi_id item)) f (wk_rows s)) as Hfail.
  { intros err. unfold work_queue_fail, fail_check. cbn [returned].
    destruct (select_where _ _) as [|r l] eqn:E.
    - exists (fail_row 0 err). split; [done|]. symmetry. apply update_where_none.
      apply (count_where_zero (is_item queue (wi_id item))). unfold count_where. cbn [snd]. by rewrite E.
    - eexists. split; [|reflexivity]. intros x. split; [done|]. cbn. by case_match. }
  destruct (negb (tick_message_alloc t)); [apply Hfail|].
  specialize (Hp (wk_world s) (wk_rows s) (worker_message item)).
  destruct (process _ _ _) as [[w rows] [result conv]]. cbn [fst snd] in Hp. subst rows.
  repeat case_match; cbn [wk_rows]; try apply Hfail;
    (eexists; split; [|reflexivity]; intros x; done).
Qed.

Lemma iteration_settles assigned t (s s1 s2 : WorkerState W) :
  tick_ok t -> (forall w rows m, (process w rows m).1.2 = rows) ->
  items_ok (wk_rows s) -> settling assigned (wk_rows s) ->
  worker_iteration process queue session_id t s = (Some s1, s2) -> settling assigned (wk_rows s1).
Proof using DBS.
  intros Ht Hp Hok Hset. unfold worker_iteration. pose proof Ht as (-> & -> & -> & _). cbn [negb].
  unfold work_queue_claim. destruct (oldest_pending queue (wk_rows s)) as [r|] eqn:E; [|done].
  intros [= <- _]. apply oldest_pending_Some in E as (Hr & [Hq _]%is_pending_true & _).
  match goal with |- context [process_item process queue t ?item ?st] =>
    destruct (report_update t st item _ (row_id r) Ht Hp eq_refl) as (f & Hf & ->) end.
  - cbn. unfold char_array. cbn. apply firstn_all2.
    pose proof (settling_ids _ _ Hset) as Hids. rewrite List.Forall_forall in Hids.
    apply Hids, in_map, list_elem_of_In, Hr.
  - by apply settling_report.
Qed.

Lemma iteration_stops t (s s2 : WorkerState W) :
  tick_ok t -> worker_iteration process queue session_id t s = (None, s2) ->
  wk_rows s2 = wk_rows s /\ forall r, r ∈ wk_rows s -> is_pending queue r = false.
Proof using DBS.
  intros (E1 & E2 & E3 & _). unfold worker_iteration. rewrite E1, E2, E3. cbn [negb].
  unfold work_queue_claim. destruct (oldest_pending queue (wk_rows s)) as [r|] eqn:E; [done|].
  intros [= <-]. split; [done|]. by apply oldest_pending_None.
Qed.

Lemma quiet_adds_nothing :
  (forall w rows m, (process w rows m).1.2 = rows) -> adds_no_attempts process queue.
Proof using Type. intros Hp w rows m Hok. rewrite Hp. by split. Qed.

Lemma worker_loop_settles assigned ticks fuel i (s s' : WorkerState W) :
  (forall i, tick_ok (ticks i)) -> (forall w rows m, (process w rows m).1.2 = rows) ->
  items_ok (wk_rows s) -> settling assigned (wk_rows s) ->
  worker_loop process queue session_id ticks fuel i s = Some s' ->
  forall r, r ∈ wk_rows s' -> row_queue_name r = queue ->
    row_status r = 2 \/ row_status r = 3 \/ row_id r ∈ assigned.
Proof using DBS.
  intros Ht Hp. revert i s. induction fuel as [|fuel IH]; intros i s Hok Hset; [done|].
  cbn [worker_loop]. destruct (worker_iteration process queue session_id (ticks i) s) as [[s1|] s2] eqn:E.
  - apply IH; [|by eapply iteration_settles].
    by destruct (worker_iteration_budget _ _ _ _ _ _ _ (quiet_adds_nothing Hp) Hok E).
  - intros [= <-] r Hr Hq. destruct (iteration_stops _ _ _ (Ht i) E) as [Hrows Hnone].
    rewrite Hrows in Hr. specialize (Hnone r Hr). pose proof (row_ok_status r (items_ok_row _ _ Hok Hr)).
    assert (row_status r <> 0) by (intros H0; rewrite (proj2 (is_pending_true queue r) (conj Hq H0)) in Hnone; done).
    pose proof (settling_rows _ _ Hset r Hr Hq).
    destruct (decide (row_status r = 1)); [auto|]. assert (row_status r = 2 \/ row_status r = 3) by lia. tauto.
Qed.
End Settling.

(** C39: Liveness: a worker that is not interrupted, whose statements succeed
    and who is alone on the table leaves the loop after finitely many rounds
    with every item of its queue completed or failed, except those that another
    worker held from the start. *)
Theorem worker_drains_queue {DB : Sqlite} {DBS : SqliteSpec DB} {W} process queue session_id ticks
    (s : WorkerState W) :
  items_ok (wk_rows s) -> Forall (fun r => (length (row_id r) <= 39)%nat) (wk_rows s) ->
  (forall i, tick_ok (ticks i)) -> (forall w rows m, (process w rows m).1.2 = rows) ->
  exists fuel s', worker_loop process queue session_id ticks fuel 0 s = Some s' /\
    forall r', r' ∈ wk_rows s' -> row_queue_name r' = queue ->
      row_status r' = 2 \/ row_status r' = 3 \/
      exists r, r ∈ wk_rows s /\ row_id r = row_id r' /\ row_status r = 1.
Proof.
  intros Hok Hlen Ht Hp.
  assert (budget queue (wk_rows s) < Z.of_nat (S (Z.to_nat (budget queue (wk_rows s))))) as Hb
    by (pose proof (budget_nonneg queue _ Hok); lia).
  destruct (worker_loop_ends process queue session_id ticks _ 0 s (quiet_adds_nothing _ _ Hp) Hok Hb) as [s' Hs'].
  eexists _, s'. split; [exact Hs'|]. intros r' Hr' Hq.
  assert (settling queue (map row_id (select_where (fun r => row_status r =? 1) (wk_rows s))) (wk_rows s)) as Hset.
  { split; [by rewrite Forall_map|]. intros r Hr _ H1. apply list_elem_of_In, in_map, list_elem_of_In.
    apply elem_of_select. split; [done|]. by apply Z.eqb_eq. }
  destruct (worker_loop_settles process queue session_id _ ticks _ 0 s s' Ht Hp Hok Hset Hs' r' Hr' Hq)
    as [?|[?|Hin]]; auto.
  right. right. apply list_elem_of_In, in_map_iff in Hin as (r & Hid & Hin).
  apply list_elem_of_In, elem_of_select in Hin as [Hr H1]. exists r. split_and!; [done..|]. by apply Z.eqb_eq.
Qed.

(** ** Witnesses *)

Module WorkerExamples.
Import WorkQueueExamples.
(** A session that fails every task. *)
Definition session (w : unit) (rows : list WorkItemRow) (m : cstr)
  : unit * list WorkItemRow * (Z * list ConversationMessage) :=
  (w, rows, (-1, [mkMessage (Some (cs "assistant")) (Some (cs "done"))])).
Definition tick : WorkerTick := mkTick true StmtOk true true StmtOk StmtOk 50.
Definition start : WorkerState unit := mkWorkerState tt rows0 0 0.

(** Two items with two attempts each, all of them failing. *)
Example run : option_map (fun s => (map row_status (wk_rows s), errors s))
    (worker_loop session q (cs "w1") (fun _ => tick) 5 0 start) = Some ([3; 3], 4).
Proof. vm_compute. reflexivity. Qed.
End WorkerExamples.

Lemma worker_terminates_witness :
  exists s', worker_loop WorkerExamples.session WorkQueueExamples.q (cs "w1")
    (fun _ => WorkerExamples.tick)
    (S (Z.to_nat (budget WorkQueueExamples.q (wk_rows WorkerExamples.start)))) 0 WorkerExamples.start = Some s'.
Proof.
  apply (worker_terminates WorkerExamples.session WorkQueueExamples.q (cs "w1") (fun _ => WorkerExamples.tick)
           WorkerExamples.start WorkQueueExamples.rows0_ok).
  intros w rows m Hok. split; [exact Hok|apply Z.le_refl].
Defined.

Lemma worker_drains_queue_witness :
  exists fuel s', worker_loop WorkerExamples.session WorkQueueExamples.q (cs "w1")
    (fun _ => WorkerExamples.tick) fuel 0 WorkerExamples.start = Some s' /\
    forall r', r' ∈ wk_rows s' -> row_queue_name r' = WorkQueueExamples.q ->
      row_status r' = 2 \/ row_status r' = 3 \/
      exists r, r ∈ wk_rows WorkerExamples.start /\ row_id r = row_id r' /\ row_status r = 1.
Proof.
  apply (worker_drains_queue WorkerExamples.session WorkQueueExamples.q (cs "w1") (fun _ => WorkerExamples.tick)
           WorkerExamples.start WorkQueueExamples.rows0_ok).
  - repeat constructor; cbn; lia.
  - intros _. repeat split.
  - reflexivity.
Defined.
