(* ===== verification/GoapState.v ===== *)
(** * Goal and world states (lib/orchestrator/goap_state.c)

    Preconditions are a JSON array of keys, goal and world states are JSON
    objects; a key holds when the world state maps it to true. *)

From S2P Require Import Prelude CString Json.
Local Open Scope bool_scope.
Local Open Scope Z_scope.

Record GoapProgress := mkProgress { complete : bool; satisfied : Z; total : Z }.

Section GoapState.
Context {J : CJson}.

(** The loop over the preconditions: items that are not strings are skipped. *)
Fixpoint preconditions_loop (world_state : cJSON) (items : list (option cstr * cJSON)) : bool :=
  match items with
  | [] => true
  | (_, item) :: items' =>
      match cJSON_IsString (Some item) with
      | None => preconditions_loop world_state items'
      | Some key =>
          if cJSON_IsTrue (cJSON_GetObjectItemCaseSensitive world_state key)
          then preconditions_loop world_state items' else false
      end
  end.

Definition goap_preconditions_met (preconditions_json : option cstr) (world_state_json : cstr) : bool :=
  match preconditions_json with
  | None => true
  | Some text =>
      if streq text (cs "[]") then true
      else
        match cJSON_Parse text with
        | None => true
        | Some preconditions =>
            match cJSON_IsArray (Some preconditions) with
            | None => true
            | Some _ =>
                if cJSON_GetArraySize preconditions =? 0 then true
                else
                  match cJSON_Parse world_state_json with
                  | None => false
                  | Some world_state => preconditions_loop world_state (children preconditions)
                  end
            end
        end
  end.

(** Whether the world state, if it could be parsed, maps the key to true. *)
Definition world_true (world_state : option cJSON) (key : cstr) : bool :=
  match world_state with
  | Some ws => cJSON_IsTrue (cJSON_GetObjectItem ws key)
  | None => false
  end.

(** The loop over the members of the goal state, which reads their keys only. *)
Fixpoint progress_loop (world_state : option cJSON) (items : list (option cstr * cJSON))
    (satisfied total : Z) : Z * Z :=
  match items with
  | [] => (satisfied, total)
  | (key, _) :: items' =>
      let satisfied := if world_true world_state (default [] key) then satisfied + 1 else satisfied in
      progress_loop world_state items' satisfied (total + 1)
  end.

Definition goap_check_progress (goal_state_json world_state_json : option cstr) : GoapProgress :=
  match goal_state_json ≫= cJSON_Parse with
  | Some ((JObject _) as goal_state) =>
      let world_state := world_state_json ≫= cJSON_Parse in
      let '(satisfied, total) := progress_loop world_state (children goal_state) 0 0 in
      mkProgress ((0 <? total) && (satisfied =? total)) satisfied total
  | _ => mkProgress false 0 0
  end.

(** ** The loops *)

(** The keys of an object, in order. *)
Definition keys (l : list (cstr * cJSON)) : list cstr := map fst l.

Lemma progress_loop_spec ws l s t :
  progress_loop ws (children (JObject l)) s t =
  (s + Z.of_nat (length (List.filter (world_true ws) (keys l))), t + Z.of_nat (length l)).
Proof using Type.
  revert s t. induction l as [|[k v] l IH]; intros s t.
  - cbn. f_equal; lia.
  - change (progress_loop ws (children (JObject ((k, v) :: l))) s t) with
      (progress_loop ws (children (JObject l)) (if world_true ws k then s + 1 else s) (t + 1)).
    rewrite IH. cbn [keys map fst List.filter]. fold (keys l).
    destruct (world_true ws k); cbn [length]; f_equal; lia.
Qed.

Lemma filter_all {A} (f : A -> bool) l : length (List.filter f l) = length l <-> forall x, x ∈ l -> f x = true.
Proof using Type.
  induction l as [|x l IH]; cbn [List.filter]; [split; [|done]; intros _ x ?%not_elem_of_nil; done|].
  pose proof (filter_length_le f l). destruct (f x) eqn:E; cbn [length].
  - rewrite <- Nat.succ_inj_wd in IH. rewrite IH. split; intros H1 y; rewrite ?elem_of_cons; [intros [-> |]|]; auto.
    intros Hy. apply H1. by right.
  - split; [lia|]. intros H1. specialize (H1 x). rewrite E in H1. discriminate H1. left.
Qed.

(** The facts about a goal's progress that the callers use. *)
Lemma check_progress_spec goal world :
  let p := goap_check_progress goal world in
  0 <= satisfied p <= total p /\
  (complete p = true <->
   exists l, goal ≫= cJSON_Parse = Some (JObject l) /\ l <> [] /\
     forall k, k ∈ keys l -> world_true (world ≫= cJSON_Parse) k = true).
Proof using Type.
  unfold goap_check_progress. destruct (goal ≫= cJSON_Parse) as [[| | | | |l]|] eqn:E;
    try (split; [cbn; lia|]; split; [done|]; intros (l' & ? & _); congruence).
  rewrite progress_loop_spec. cbn. pose proof (filter_length_le (world_true (world ≫= cJSON_Parse)) (keys l)) as Hle.
  unfold keys in Hle. rewrite length_map in Hle. split; [unfold keys; lia|].
  rewrite andb_true_iff, Z.ltb_lt, Z.eqb_eq. split.
  - intros [H1 H2]. exists l. split; [done|]. split; [by intros ->|]. apply filter_all.
    unfold keys in *. rewrite length_map. lia.
  - intros (l' & [= <-] & Hne & Hall). apply filter_all in Hall. unfold keys in *. rewrite length_map in Hall.
    destruct l; [done|]. cbn in *. lia.
Qed.

Lemma preconditions_loop_spec ws l :
  preconditions_loop ws (children (JArray l)) = true <->
  forall k, JString k ∈ l -> cJSON_IsTrue (cJSON_GetObjectItemCaseSensitive ws k) = true.
Proof using Type.
  induction l as [|v l IH]; [split; [|done]; intros _ k ?%not_elem_of_nil; done|].
  assert (preconditions_loop ws (children (JArray (v :: l))) =
    match v with
    | JString k => if cJSON_IsTrue (cJSON_GetObjectItemCaseSensitive ws k)
                   then preconditions_loop ws (children (JArray l)) else false
    | _ => preconditions_loop ws (children (JArray l))
    end) as -> by by destruct v.
  destruct v; try (rewrite IH; split; intros H k; rewrite ?elem_of_cons; [intros [|]; [done|]; by apply H|
    intros Hk; apply H; by right]).
  destruct (cJSON_IsTrue _) eqn:E.
  - rewrite IH. split; intros H k; rewrite ?elem_of_cons; [intros [[= ->]|Hk]; auto|].
    intros Hk. apply H. by right.
  - split; [done|]. intros H. rewrite (H valuestring) in E; [done|left].
Qed.
End GoapState.

(** Progress is exact: a goal is reported complete exactly when its goal
    state is an object with at least one member and the world state maps the key
    of every member to true; the values in the goal state play no part, so an
    assertion required to be false counts as one required to be true. The number
    of satisfied assertions never exceeds their number. *)
Theorem goal_progress_exact {J : CJson} goal world :
  let p := goap_check_progress goal world in
  0 <= satisfied p <= total p /\
  (complete p = true <->
   exists l, goal ≫= cJSON_Parse = Some (JObject l) /\ l <> [] /\
     forall k, k ∈ keys l -> exists ws, world ≫= cJSON_Parse = Some ws /\
       cJSON_IsTrue (cJSON_GetObjectItem ws k) = true).
Proof.
  destruct (check_progress_spec goal world) as [H1 H2]. split; [done|]. rewrite H2. clear H1 H2.
  enough (forall k, world_true (world ≫= cJSON_Parse) k = true <->
    exists ws, world ≫= cJSON_Parse = Some ws /\ cJSON_IsTrue (cJSON_GetObjectItem ws k) = true) as Hk.
  { split; intros (l & Hl & Hne & Hall); exists l; split_and!; try done; intros k Hin; by apply Hk, Hall. }
  intros k. unfold world_true. destruct (world ≫= cJSON_Parse) as [ws|]; [|naive_solver].
  split; [by exists ws|by intros (? & [= <-] & ?)].
Qed.

(** Preconditions: a non-empty array holds exactly when the world state is
    valid JSON and maps every string of the array, compared with its case, to
    true; anything else, even text that is not JSON, holds always. *)
Theorem preconditions_exact {J : CJson} pre w :
  goap_preconditions_met (Some pre) w = true <->
  pre = cs "[]" \/ (forall l, cJSON_Parse pre <> Some (JArray l)) \/ cJSON_Parse pre = Some (JArray []) \/
  exists l ws, cJSON_Parse pre = Some (JArray l) /\ cJSON_Parse w = Some ws /\
    forall k, JString k ∈ l -> cJSON_IsTrue (cJSON_GetObjectItemCaseSensitive ws k) = true.
Proof.
  unfold goap_preconditions_met. destruct (streq_spec pre (cs "[]")) as [|Hne]; [by split; auto|].
  destruct (cJSON_Parse pre) as [[| | | |l|]|] eqn:E;
    try (split; [intros _; right; left; intros l ?; congruence|done]).
  cbn [cJSON_IsArray]. unfold cJSON_GetArraySize. destruct l as [|v l]; [by split; auto|].
  assert ((Z.of_nat (length (children (JArray (v :: l)))) =? 0) = false) as -> by reflexivity.
  destruct (cJSON_Parse w) as [ws|].
  - rewrite preconditions_loop_spec. split.
    + intros H. right. right. right. by exists (v :: l), ws.
    + intros [?|[H|[?|(l' & ws' & [= <-] & [= <-] & H)]]]; try done. by destruct (H (v :: l)).
  - split; [done|]. intros [?|[H|[?|(l' & ws' & _ & ? & _)]]]; try done. by destruct (H (v :: l)).
Qed.

(** A required value of false, in another case, counts as satisfied by true. *)
Example progress_ignores_values :
  complete (goap_check_progress (Some (ref_print (JObject [(cs "tests_pass", JBool false)])))
              (Some (ref_print (JObject [(cs "Tests_Pass", JBool true)])))) = true.
Proof. vm_compute. reflexivity. Qed.

(** The same key in another case does not meet a precondition. *)
Example precondition_case :
  goap_preconditions_met (Some (ref_print (JArray [JString (cs "tests_pass")])))
    (ref_print (JObject [(cs "Tests_Pass", JBool true)])) = false.
Proof. vm_compute. reflexivity. Qed.
