(* ===== verification/ActionStore.v ===== *)
(** * The actions of a plan (lib/db/action_store.c)

    The table actions of the database scaffold.db as the list of its rows, the
    struct [Action] that the program reads them into, and one function per
    operation of the store. *)

From S2P Require Import Prelude CString Json Sql WorkQueue GoapState.
Local Open Scope bool_scope.
Local Open Scope Z_scope.

(** ** Data *)

Inductive ActionStatus :=
| ACTION_STATUS_PENDING | ACTION_STATUS_RUNNING | ACTION_STATUS_COMPLETED
| ACTION_STATUS_FAILED | ACTION_STATUS_SKIPPED | ACTION_STATUS_OTHER (code : Z).

#[export] Instance ActionStatus_eq_dec : EqDecision ActionStatus.
Proof. solve_decision. Defined.

Definition action_status (n : Z) : ActionStatus :=
  if n =? 0 then ACTION_STATUS_PENDING
  else if n =? 1 then ACTION_STATUS_RUNNING
  else if n =? 2 then ACTION_STATUS_COMPLETED
  else if n =? 3 then ACTION_STATUS_FAILED
  else if n =? 4 then ACTION_STATUS_SKIPPED
  else ACTION_STATUS_OTHER n.

(** The value of the enumerator, bound as an integer. *)
Definition status_code (s : ActionStatus) : Z :=
  match s with
  | ACTION_STATUS_PENDING => 0 | ACTION_STATUS_RUNNING => 1 | ACTION_STATUS_COMPLETED => 2
  | ACTION_STATUS_FAILED => 3 | ACTION_STATUS_SKIPPED => 4 | ACTION_STATUS_OTHER n => n
  end.

Record ActionRow := mkActionRow {
  ar_id : cstr;
  ar_goal_id : cstr;
  ar_parent_action_id : option cstr;
  ar_work_item_id : option cstr;
  ar_description : cstr;
  ar_preconditions : option cstr;
  ar_effects : option cstr;
  ar_is_compound : Z;
  ar_status : Z;
  ar_role : option cstr;
  ar_result : option cstr;
  ar_attempt_count : Z;
  ar_created_at : Z;
  ar_updated_at : Z
}.

#[export] Instance ActionRow_eq_dec : EqDecision ActionRow.
Proof. solve_decision. Defined.

Record Action := mkAction {
  a_id : cstr;
  a_goal_id : cstr;
  a_parent_action_id : cstr;
  a_work_item_id : cstr;
  a_description : option cstr;
  a_preconditions : option cstr;
  a_effects : option cstr;
  a_is_compound : bool;
  a_status : ActionStatus;
  a_role : cstr;
  a_result : option cstr;
  a_attempt_count : Z;
  a_created_at : Z;
  a_updated_at : Z
}.

Definition map_action (r : ActionRow) : option Action :=
  Some (mkAction (char_array 40 (Some (ar_id r))) (char_array 40 (Some (ar_goal_id r)))
    (char_array 40 (ar_parent_action_id r)) (char_array 40 (ar_work_item_id r))
    (Some (ar_description r)) (ar_preconditions r) (ar_effects r)
    (negb (column_int (ar_is_compound r) =? 0)) (action_status (column_int (ar_status r)))
    (char_array 32 (ar_role r)) (ar_result r) (column_int (ar_attempt_count r))
    (ar_created_at r) (ar_updated_at r)).

Definition action_status_to_string (s : ActionStatus) : cstr :=
  match s with
  | ACTION_STATUS_PENDING => cs "pending"
  | ACTION_STATUS_RUNNING => cs "running"
  | ACTION_STATUS_COMPLETED => cs "completed"
  | ACTION_STATUS_FAILED => cs "failed"
  | ACTION_STATUS_SKIPPED => cs "skipped"
  | ACTION_STATUS_OTHER _ => cs "pending"
  end.

Definition action_status_from_string (s : option cstr) : ActionStatus :=
  match s with
  | None => ACTION_STATUS_PENDING
  | Some s =>
      if streq s (cs "running") then ACTION_STATUS_RUNNING
      else if streq s (cs "completed") then ACTION_STATUS_COMPLETED
      else if streq s (cs "failed") then ACTION_STATUS_FAILED
      else if streq s (cs "skipped") then ACTION_STATUS_SKIPPED
      else ACTION_STATUS_PENDING
  end.

(** ** Operations *)

Section Operations.
Context {DB : Sqlite}.
Implicit Types (st : Stmt) (rows : list ActionRow).

Definition same_action (a b : ActionRow) : bool := streq (ar_id a) (ar_id b).

(** The foreign key of parent_action_id: NULL, the new row itself or an
    existing row. *)
Definition parent_exists (parent : option cstr) (id : cstr) rows : bool :=
  match parent with
  | None => true
  | Some p => streq p id || existsb (fun r => streq (ar_id r) p) rows
  end.

Definition nonempty_text (s : option cstr) : option cstr :=
  match s with Some (_ :: _) => s | _ => None end.

Definition action_store_insert st (now : Z) (uuid : option cstr) (goal_id : cstr)
    (parent_action_id : option cstr) (description : cstr) (preconditions_json effects_json : option cstr)
    (is_compound : bool) (role : option cstr) rows : Z * option cstr * list ActionRow :=
  match uuid with
  | None => (-1, None, rows)
  | Some action_id =>
      match st with
      | StmtOk =>
          let parent := nonempty_text parent_action_id in
          let row := mkActionRow action_id goal_id parent None description
                       (Some (default (cs "[]") preconditions_json)) (Some (default (cs "[]") effects_json))
                       (if is_compound then 1 else 0) 0 (Some (default (cs "implementation") role))
                       None 0 now now in
          if parent_exists parent action_id rows then
            match insert_row same_action row rows with
            | Some rows' => (0, Some action_id, rows')
            | None => (-1, None, rows)
            end
          else (-1, None, rows)
      | _ => (-1, None, rows)
      end
  end.

Definition is_action (id : cstr) (r : ActionRow) : bool := streq (ar_id r) id.
Definition of_goal (goal_id : cstr) (r : ActionRow) : bool := streq (ar_goal_id r) goal_id.
Definition has_status (s : ActionStatus) (r : ActionRow) : bool := ar_status r =? status_code s.

Definition action_store_get st (id : cstr) rows : option Action :=
  sqlite_dal_query_one_p st map_action (select_where (is_action id) rows).

Definition set_status (s : ActionStatus) (now : Z) (result : option cstr) (r : ActionRow) : ActionRow :=
  mkActionRow (ar_id r) (ar_goal_id r) (ar_parent_action_id r) (ar_work_item_id r) (ar_description r)
    (ar_preconditions r) (ar_effects r) (ar_is_compound r) (status_code s) (ar_role r) result
    (ar_attempt_count r) (ar_created_at r) now.

Definition action_store_update_status st (now : Z) (id : cstr) (status : ActionStatus)
    (result : option cstr) rows : Z * list ActionRow :=
  let '(changes, rows') := sqlite_dal_exec_p st (is_action id) (set_status status now result) rows in
  (if 0 <? changes then 0 else -1, rows').

Definition set_work_item (work_item_id : cstr) (now : Z) (r : ActionRow) : ActionRow :=
  mkActionRow (ar_id r) (ar_goal_id r) (ar_parent_action_id r) (Some work_item_id) (ar_description r)
    (ar_preconditions r) (ar_effects r) (ar_is_compound r) (ar_status r) (ar_role r) (ar_result r)
    (ar_attempt_count r) (ar_created_at r) now.

(** The number of changed rows, or -1. *)
Definition action_store_update_work_item st (now : Z) (id work_item_id : cstr) rows : Z * list ActionRow :=
  sqlite_dal_exec_p st (is_action id) (set_work_item work_item_id now) rows.

(** The lists: NULL, with count 0, for an error or no row. *)
Definition list_actions st (p : ActionRow -> bool) rows : list Action :=
  (sqlite_dal_query_list_p st map_action (order_by ar_created_at (select_where p rows))).2.

Definition action_store_list_running st (goal_id : cstr) rows : list Action :=
  list_actions st (fun r => of_goal goal_id r && has_status ACTION_STATUS_RUNNING r) rows.

Definition action_store_list_by_goal st (goal_id : cstr) rows : list Action :=
  list_actions st (of_goal goal_id) rows.

Definition is_child (parent : cstr) (r : ActionRow) : bool :=
  match ar_parent_action_id r with Some p => streq p parent | None => false end.

Definition action_store_list_children st (parent_action_id : cstr) rows : list Action :=
  list_actions st (is_child parent_action_id) rows.

Definition action_store_list_ready {J : CJson} st (goal_id : cstr) (world_state_json : option cstr) rows
  : list Action :=
  let items := list_actions st (fun r => of_goal goal_id r && has_status ACTION_STATUS_PENDING r) rows in
  let ws := default (cs "{}") world_state_json in
  List.filter (fun a => goap_preconditions_met (a_preconditions a) ws) items.

Definition action_store_count_by_status st (goal_id : cstr) (status : ActionStatus) rows : Z :=
  match st with
  | PrepareFails | StepFails O => -1
  | _ => column_int (count_where (fun r => of_goal goal_id r && has_status status r) rows)
  end.

Definition skip_row (now : Z) (r : ActionRow) : ActionRow :=
  mkActionRow (ar_id r) (ar_goal_id r) (ar_parent_action_id r) (ar_work_item_id r) (ar_description r)
    (ar_preconditions r) (ar_effects r) (ar_is_compound r) (status_code ACTION_STATUS_SKIPPED) (ar_role r)
    (ar_result r) (ar_attempt_count r) (ar_created_at r) now.

Definition action_store_skip_pending st (now : Z) (goal_id : cstr) rows : Z * list ActionRow :=
  sqlite_dal_exec_p st (fun r => of_goal goal_id r && has_status ACTION_STATUS_PENDING r) (skip_row now) rows.
End Operations.

(** ** Well-typed tables *)

Record action_ok (rows : list ActionRow) (r : ActionRow) : Prop := {
  action_ok_status : 0 <= ar_status r <= 4;
  action_ok_compound : ar_is_compound r = 0 \/ ar_is_compound r = 1;
  action_ok_attempts : ar_attempt_count r = 0;
  action_ok_parent : forall p, ar_parent_action_id r = Some p -> exists r', r' ∈ rows /\ ar_id r' = p
}.

Record actions_ok (rows : list ActionRow) : Prop := {
  actions_rows : Forall (action_ok rows) rows;
  actions_ids : NoDup (map ar_id rows)
}.

Lemma actions_ok_nil : actions_ok [].
Proof. split; constructor. Qed.

Lemma actions_ok_row rows r : actions_ok rows -> r ∈ rows -> action_ok rows r.
Proof. intros [H _] Hr. by eapply Forall_forall in H. Qed.

Lemma is_action_true id r : is_action id r = true <-> ar_id r = id.
Proof. apply streq_true. Qed.
Lemma of_goal_true g r : of_goal g r = true <-> ar_goal_id r = g.
Proof. apply streq_true. Qed.
Lemma has_status_true s r : has_status s r = true <-> ar_status r = status_code s.
Proof. apply Z.eqb_eq. Qed.

(** A status that the program writes. *)
Definition known_status (s : ActionStatus) : Prop :=
  match s with ACTION_STATUS_OTHER _ => False | _ => True end.

Lemma known_status_code s : known_status s -> 0 <= status_code s <= 4.
Proof. destruct s; cbn; try done; lia. Qed.

Lemma status_code_action_status n : status_code (action_status n) = n.
Proof. unfold action_status. repeat case_match; cbn; lia. Qed.

Lemma action_status_code s : known_status s -> action_status (status_code s) = s.
Proof. by destruct s. Qed.

Lemma has_id_map (rows rows' : list ActionRow) p :
  map ar_id rows' = map ar_id rows ->
  (exists r, r ∈ rows /\ ar_id r = p) -> exists r, r ∈ rows' /\ ar_id r = p.
Proof.
  intros E (r & Hr & Hp). assert (p ∈ map ar_id rows') as H.
  { rewrite E. rewrite <- Hp. apply list_elem_of_In, in_map, list_elem_of_In, Hr. }
  apply list_elem_of_In, in_map_iff in H as (r' & Hid & Hin). exists r'. split; [by apply list_elem_of_In|done].
Qed.

(** Updates that keep the columns other than status, result, work item and time. *)
Lemma actions_ok_update rows p f :
  actions_ok rows -> (forall r, ar_id (f r) = ar_id r) ->
  (forall r, ar_parent_action_id (f r) = ar_parent_action_id r) ->
  (forall r, ar_is_compound (f r) = ar_is_compound r) ->
  (forall r, ar_attempt_count (f r) = ar_attempt_count r) ->
  (forall r, 0 <= ar_status r <= 4 -> 0 <= ar_status (f r) <= 4) ->
  actions_ok (update_where p f rows).
Proof.
  intros Hok Hid Hp Hc Ha Hs. destruct Hok as [Hr Hi].
  assert (map ar_id (update_where p f rows) = map ar_id rows) as E by by apply update_where_column.
  split; [|by rewrite E]. apply Forall_forall. intros r Hin. apply elem_of_update in Hin as (r0 & H0 & ->).
  eapply Forall_forall in Hr as []; [|exact H0].
  destruct (p r0); split; rewrite ?Hp, ?Hc, ?Ha; auto; intros q Hq; (eapply has_id_map; [exact E|]); auto.
Qed.

Section StoreFacts.
Context {DB : Sqlite} {DBS : SqliteSpec DB}.
Implicit Types (st : Stmt) (rows : list ActionRow).

Lemma insert_cases st now uuid goal parent desc pre eff comp role rows :
  let res := action_store_insert st now uuid goal parent desc pre eff comp role rows in
  (res.1.1 = -1 /\ res.1.2 = None /\ res.2 = rows) \/
  exists id row, uuid = Some id /\ res = (0, Some id, rows ++ [row]) /\ ar_id row = id /\
    ar_goal_id row = goal /\ ar_status row = 0 /\ ar_parent_action_id row = nonempty_text parent /\
    (ar_is_compound row = 0 \/ ar_is_compound row = 1) /\ ar_attempt_count row = 0 /\ ar_work_item_id row = None /\
    (forall r, r ∈ rows -> ar_id r <> id) /\ parent_exists (nonempty_text parent) id rows = true.
Proof using Type.
  unfold action_store_insert. destruct uuid as [id|]; [|by left]. destruct st; try by left.
  destruct (parent_exists _ _ _) eqn:Ep; [|by left].
  destruct (insert_row _ _ _) as [rows'|] eqn:E; [|by left].
  apply insert_row_Some in E as [Hnew ->]. right. eexists id, _. split_and!; try done; cbn.
  - destruct comp; auto.
  - intros r Hr Heq. apply Hnew in Hr. unfold same_action in Hr. apply streq_false in Hr. by cbn in Hr.
Qed.

Lemma insert_actions_ok st now uuid goal parent desc pre eff comp role rows :
  actions_ok rows -> actions_ok (action_store_insert st now uuid goal parent desc pre eff comp role rows).2.
Proof using Type.
  intros Hok. destruct (insert_cases st now uuid goal parent desc pre eff comp role rows)
    as [(_ & _ & ->)|(id & row & _ & -> & Hid & _ & Hs & Hp & Hc & Ha & _ & Hnew & Hpe)]; [done|].
  cbn [snd]. destruct Hok as [Hr Hi]. split.
  - apply Forall_app. split.
    + eapply Forall_impl; [exact Hr|]. intros r []. split; try done. intros p H.
      destruct (action_ok_parent0 p H) as (r' & ? & ?). exists r'. rewrite elem_of_app. auto.
    + apply Forall_singleton. split; try done; [lia|]. intros p H. rewrite Hp in H. rewrite H in Hpe. cbn in Hpe.
      apply orb_true_iff in Hpe as [He%streq_true|He].
      * exists row. rewrite elem_of_app, list_elem_of_singleton. split; [by right|congruence].
      * apply existsb_true_iff in He as (r' & Hr' & He%streq_true). exists r'. rewrite elem_of_app. auto.
  - rewrite map_app. apply NoDup_app. split_and!; [done| |apply NoDup_singleton].
    intros x Hx. cbn. rewrite list_elem_of_singleton. intros ->.
    apply list_elem_of_In, in_map_iff in Hx as (r & Heq & Hin). apply list_elem_of_In, Hnew in Hin. congruence.
Qed.

Lemma update_status_ok st now id s res rows :
  known_status s -> actions_ok rows -> actions_ok (action_store_update_status st now id s res rows).2.
Proof using Type.
  intros Hs Hok. unfold action_store_update_status. destruct st; try done. cbn.
  apply actions_ok_update; try done. intros r _. by apply known_status_code.
Qed.

Lemma update_work_item_ok st now id wi rows :
  actions_ok rows -> actions_ok (action_store_update_work_item st now id wi rows).2.
Proof using Type. intros Hok. destruct st; try done. cbn. by apply actions_ok_update. Qed.

Lemma skip_pending_ok st now g rows :
  actions_ok rows -> actions_ok (action_store_skip_pending st now g rows).2.
Proof using Type. intros Hok. destruct st; try done. cbn. by apply actions_ok_update. Qed.
End StoreFacts.

#[export] Hint Resolve actions_ok_nil insert_actions_ok update_status_ok update_work_item_ok skip_pending_ok
  : scaffold.

(** ** Sequences of operations *)

Inductive action_op :=
| OpInsert (st : Stmt) (now : Z) (uuid : option cstr) (goal_id : cstr) (parent : option cstr)
    (description : cstr) (pre eff : option cstr) (compound : bool) (role : option cstr)
| OpStatus (st : Stmt) (now : Z) (id : cstr) (s : ActionStatus) (result : option cstr)
| OpWorkItem (st : Stmt) (now : Z) (id work_item_id : cstr)
| OpSkip (st : Stmt) (now : Z) (goal_id : cstr).

Section Runs.
Context {DB : Sqlite} {DBS : SqliteSpec DB}.

Definition action_apply (op : action_op) (rows : list ActionRow) : list ActionRow :=
  match op with
  | OpInsert st now uuid g p d pre eff c role => (action_store_insert st now uuid g p d pre eff c role rows).2
  | OpStatus st now id s res => (action_store_update_status st now id s res rows).2
  | OpWorkItem st now id wi => (action_store_update_work_item st now id wi rows).2
  | OpSkip st now g => (action_store_skip_pending st now g rows).2
  end.

(** A status of the enumeration; a parent that is not the id being made. *)
Definition op_ok (op : action_op) : Prop :=
  match op with
  | OpStatus _ _ _ s _ => known_status s
  | OpInsert _ _ uuid _ p _ _ _ _ _ => forall id, uuid = Some id -> nonempty_text p <> Some id
  | _ => True
  end.

Lemma action_apply_ok op rows : op_ok op -> actions_ok rows -> actions_ok (action_apply op rows).
Proof using Type. destruct op; cbn; auto with scaffold. Qed.

(** Type soundness of the table: whatever operations are run on an empty
    table and whichever fail, every row keeps a status of the enumeration (so no
    struct read from it is out of range), ids stay unique, a parent is a row of
    the table, and the attempt counter is still 0. *)
Theorem action_table_well_typed ops r :
  Forall op_ok ops -> r ∈ foldl (fun rows op => action_apply op rows) [] ops ->
  let rows := foldl (fun rows op => action_apply op rows) [] ops in
  NoDup (map ar_id rows) /\ action_ok rows r /\
  (forall a, map_action r = Some a -> known_status (a_status a) /\ a_attempt_count a = 0).
Proof using Type.
  intros Hops Hr rows.
  assert (actions_ok rows) as Hok.
  { subst rows. clear Hr. assert (actions_ok []) as H0 by apply actions_ok_nil. revert H0.
    generalize (@nil ActionRow). induction Hops as [|op ops Hop _ IH]; intros rows H0; [done|].
    cbn [foldl]. apply IH. by apply action_apply_ok. }
  pose proof (actions_ok_row _ _ Hok Hr) as Hrow. split_and!; [apply Hok|done|].
  destruct Hrow. intros a [= <-]. cbn. unfold column_int. rewrite !wrap32_small by lia.
  split; [|done]. unfold action_status. repeat case_match; try done. lia.
Qed.

(** ** The plan is a forest *)

(** Every parent stands before its children. *)
Fixpoint parents_first (rev_rows : list ActionRow) : Prop :=
  match rev_rows with
  | [] => True
  | r :: earlier =>
      (forall p, ar_parent_action_id r = Some p -> exists r', r' ∈ earlier /\ ar_id r' = p) /\
      parents_first earlier
  end.

Lemma parents_first_update rows p f :
  (forall r, ar_id (f r) = ar_id r) -> (forall r, ar_parent_action_id (f r) = ar_parent_action_id r) ->
  parents_first (rev rows) -> parents_first (rev (update_where p f rows)).
Proof using Type.
  intros Hid Hp. unfold update_where. rewrite <- map_rev. induction (rev rows) as [|r l IH]; [done|].
  cbn. intros [H1 H2]. split; [|auto]. intros q Hq.
  assert (ar_parent_action_id r = Some q) as Hq' by (destruct (p r); [by rewrite Hp in Hq|done]).
  eapply has_id_map; [|by apply H1]. rewrite map_map. apply map_ext. intros x. by destruct (p x).
Qed.

Lemma action_apply_forest op rows :
  op_ok op -> parents_first (rev rows) -> parents_first (rev (action_apply op rows)).
Proof using Type.
  intros Hop H. destruct op as [st now uuid g p d pre eff c role|st now id s res|st now id wi|st now g]; cbn.
  - destruct (insert_cases st now uuid g p d pre eff c role rows)
      as [(_ & _ & ->)|(id & row & Hu & -> & Hid & _ & _ & Hp & _ & _ & _ & _ & Hpe)]; [done|].
    cbn. rewrite rev_app_distr. cbn. split; [|done]. intros q Hq. rewrite Hp in Hq.
    specialize (Hop id Hu). rewrite Hq in Hpe, Hop. cbn in Hpe.
    apply orb_true_iff in Hpe as [->%streq_true|He]; [done|].
    apply existsb_true_iff in He as (r' & Hr' & He%streq_true). exists r'. split; [|done].
    apply list_elem_of_In. rewrite <- in_rev. by apply list_elem_of_In.
  - unfold action_store_update_status. destruct st; try done. by apply parents_first_update.
  - destruct st; try done. by apply parents_first_update.
  - destruct st; try done. by apply parents_first_update.
Qed.

(** The chain of parents of a row, as ids. *)
Inductive ancestor (rows : list ActionRow) : cstr -> cstr -> Prop :=
| ancestor_parent r p : r ∈ rows -> ar_parent_action_id r = Some p -> ancestor rows (ar_id r) p
| ancestor_up r p q : r ∈ rows -> ar_parent_action_id r = Some p -> ancestor rows p q ->
    ancestor rows (ar_id r) q.

(** The position of an id, counted from the end of the table. *)
Fixpoint depth_of (l : list ActionRow) (id : cstr) : nat :=
  match l with
  | [] => O
  | r :: l' => if streq (ar_id r) id then S (length l') else depth_of l' id
  end.

Lemma depth_of_found l id r : r ∈ l -> ar_id r = id -> (0 < depth_of l id)%nat.
Proof using Type.
  induction l as [|x l IH]; [by intros ?%not_elem_of_nil|]. cbn.
  intros [-> | Hr]%elem_of_cons <-; [rewrite streq_refl; lia|]. case_match; [lia|auto].
Qed.

Lemma depth_of_bound l id : (depth_of l id <= length l)%nat.
Proof using Type. induction l as [|x l IH]; cbn; [done|]. case_match; lia. Qed.

Lemma parent_deeper l r p :
  NoDup (map ar_id l) -> parents_first l -> r ∈ l -> ar_parent_action_id r = Some p ->
  (depth_of l p < depth_of l (ar_id r))%nat.
Proof using Type.
  induction l as [|x l IH]; [by intros _ _ ?%not_elem_of_nil|]. cbn [map parents_first depth_of].
  rewrite NoDup_cons. intros [Hn Hd] [H1 H2] Hr Hp.
  assert (forall y, y ∈ l -> ar_id x <> ar_id y) as Hne.
  { intros y Hy E. apply Hn. rewrite E. apply list_elem_of_In, in_map, list_elem_of_In, Hy. }
  apply elem_of_cons in Hr as [-> | Hr].
  - rewrite streq_refl. destruct (H1 p Hp) as (y & Hy & <-).
    rewrite (proj2 (streq_false _ _) (Hne y Hy)). pose proof (depth_of_bound l (ar_id y)). lia.
  - rewrite (proj2 (streq_false _ _) (Hne r Hr)).
    assert (exists y, y ∈ l /\ ar_id y = p) as (y & Hy & <-).
    { clear -H2 Hr Hp. induction l as [|z l IH]; [by apply not_elem_of_nil in Hr|]. destruct H2 as [H1 H2].
      apply elem_of_cons in Hr as [-> | Hr].
      - destruct (H1 p Hp) as (y & Hy & ?). exists y. split; [by right|done].
      - destruct (IH H2 Hr) as (y & Hy & ?). exists y. split; [by right|done]. }
    rewrite (proj2 (streq_false _ _) (Hne y Hy)). by apply IH.
Qed.

(** The hierarchy is a forest: as long as no caller names the id that is
    about to be generated, no action is among its own ancestors, after any
    operations. *)
Theorem action_hierarchy_acyclic ops id :
  Forall op_ok ops -> ~ ancestor (foldl (fun rows op => action_apply op rows) [] ops) id id.
Proof using Type.
  intros Hops.
  assert (actions_ok (foldl (fun rows op => action_apply op rows) [] ops) /\
          parents_first (rev (foldl (fun rows op => action_apply op rows) [] ops))) as [[_ Hd] Hf].
  { assert (actions_ok [] /\ parents_first (rev [])) as H0 by (split; [apply actions_ok_nil|done]). revert H0.
    generalize (@nil ActionRow). induction Hops as [|op ops Hop _ IH]; intros rows [H1 H2]; [done|].
    cbn [foldl]. apply IH. split; [by apply action_apply_ok|by apply action_apply_forest]. }
  set (rows := foldl _ _ _) in *.
  assert (NoDup (map ar_id (rev rows))) as Hd'.
  { rewrite map_rev. by rewrite <- (Permutation_rev (map ar_id rows)). }
  assert (forall a b, ancestor rows a b -> (depth_of (rev rows) b < depth_of (rev rows) a)%nat) as Hlt.
  { induction 1 as [r p Hr Hp|r p q Hr Hp _ IH]; [|etransitivity; [exact IH|]];
      (apply parent_deeper; [done..| |done]; apply list_elem_of_In; rewrite <- in_rev; by apply list_elem_of_In). }
  intros H. apply Hlt in H. lia.
Qed.
End Runs.

(** ** Status texts, lists and counts *)

(** Round trip of the status texts: every status of the enumeration reads
    back from the text it is printed as, and a text is printed back unchanged
    exactly when it is one of the five names; the others read as pending. *)
Theorem status_text_roundtrip s t :
  (known_status s -> action_status_from_string (Some (action_status_to_string s)) = s) /\
  (action_status_to_string (action_status_from_string (Some t)) = t <->
   t ∈ [cs "pending"; cs "running"; cs "completed"; cs "failed"; cs "skipped"]) /\
  (t ∉ [cs "running"; cs "completed"; cs "failed"; cs "skipped"] ->
   action_status_from_string (Some t) = ACTION_STATUS_PENDING).
Proof.
  split; [by destruct s|]. unfold action_status_from_string.
  destruct (streq_spec t (cs "running")) as [->|H1]; [split; set_solver|].
  destruct (streq_spec t (cs "completed")) as [->|H2]; [split; set_solver|].
  destruct (streq_spec t (cs "failed")) as [->|H3]; [split; set_solver|].
  destruct (streq_spec t (cs "skipped")) as [->|H4]; [split; set_solver|].
  cbn [action_status_to_string]. split; [|done]. rewrite !elem_of_cons, elem_of_nil. naive_solver.
Qed.

Section Lists.
Context {DB : Sqlite} {DBS : SqliteSpec DB}.

Lemma omap_map_action l : exists as_, omap map_action l = as_ /\ Forall2 (fun r a => map_action r = Some a) l as_.
Proof using Type.
  induction l as [|r l (as_ & IH1 & IH2)]; [by exists []|]. eexists. split; [reflexivity|]. cbn.
  constructor; [done|]. by rewrite IH1.
Qed.

Lemma elem_of_list_actions p rows a :
  a ∈ list_actions StmtOk p rows <-> exists r, r ∈ rows /\ p r = true /\ map_action r = Some a.
Proof using DBS.
  unfold list_actions. cbn [sqlite_dal_query_list_p returned snd]. rewrite list_elem_of_omap.
  split; intros (r & H); exists r; revert H; rewrite elem_of_order_by, elem_of_select; naive_solver.
Qed.

Lemma elem_of_list_actions_any st p rows a :
  a ∈ list_actions st p rows -> exists r, r ∈ rows /\ p r = true /\ map_action r = Some a.
Proof using DBS.
  intros H. apply elem_of_list_actions. revert H. unfold list_actions. destruct st; cbn; try done.
  - by intros ?%not_elem_of_nil.
  - rewrite !list_elem_of_omap. intros (r & Hr%elem_of_take & Ha). destruct Hr as (i & Hi & _).
    exists r. split; [by eapply list_elem_of_lookup_2|done].
Qed.

Lemma list_actions_length p rows :
  Z.of_nat (length (list_actions StmtOk p rows)) = count_where p rows.
Proof using DBS.
  unfold list_actions. cbn [sqlite_dal_query_list_p returned snd].
  destruct (omap_map_action (order_by ar_created_at (select_where p rows))) as (l & -> & H).
  rewrite <- (Forall2_length _ _ _ H). by rewrite (order_by_perm ar_created_at (select_where p rows)).
Qed.

Lemma list_actions_sorted p rows :
  Sorted (le_on a_created_at) (list_actions StmtOk p rows).
Proof using DBS.
  unfold list_actions. cbn [sqlite_dal_query_list_p returned snd].
  destruct (omap_map_action (order_by ar_created_at (select_where p rows))) as (l & -> & H).
  pose proof (order_by_sorted ar_created_at (select_where p rows)) as Hs. revert Hs.
  induction H as [|r a l1 l2 Hra H IH]; [constructor|]. intros Hs. inversion_clear Hs as [|?? Hs' Hd].
  constructor; [auto|]. destruct H as [|r' a' l1 l2 Hra' H]; constructor.
  inversion_clear Hd as [|?? Hle]. unfold le_on in *. injection Hra as <-. injection Hra' as <-. done.
Qed.

(** Lists: a query that runs returns exactly the actions of the goal, of
    the parent, or running, as many as there are rows, oldest first; the actions
    ready are the pending ones of the goal whose preconditions hold. *)
Theorem action_lists_exact {J : CJson} rows g p ws :
  let by_goal := action_store_list_by_goal StmtOk g rows in
  (forall a, a ∈ by_goal <-> exists r, r ∈ rows /\ ar_goal_id r = g /\ map_action r = Some a) /\
  Sorted (le_on a_created_at) by_goal /\
  Z.of_nat (length by_goal) = count_where (of_goal g) rows /\
  (forall a, a ∈ action_store_list_children StmtOk p rows <->
     exists r, r ∈ rows /\ ar_parent_action_id r = Some p /\ map_action r = Some a) /\
  (forall a, a ∈ action_store_list_running StmtOk g rows <->
     exists r, r ∈ rows /\ ar_goal_id r = g /\ ar_status r = 1 /\ map_action r = Some a) /\
  (forall a, a ∈ action_store_list_ready StmtOk g (Some ws) rows <->
     exists r, r ∈ rows /\ ar_goal_id r = g /\ ar_status r = 0 /\ map_action r = Some a /\
       goap_preconditions_met (ar_preconditions r) ws = true).
Proof using DBS.
  split_and!; try apply list_actions_sorted; try apply list_actions_length; intros a.
  - unfold action_store_list_by_goal. rewrite elem_of_list_actions.
    split; intros (r & H); exists r; revert H; rewrite of_goal_true; naive_solver.
  - unfold action_store_list_children. rewrite elem_of_list_actions.
    assert (forall r, is_child p r = true <-> ar_parent_action_id r = Some p) as Hc.
    { intros r. unfold is_child. destruct (ar_parent_action_id r); [|done]. rewrite streq_true. naive_solver. }
    split; intros (r & H); exists r; revert H; rewrite Hc; naive_solver.
  - unfold action_store_list_running. rewrite elem_of_list_actions.
    split; intros (r & H); exists r; revert H; rewrite andb_true_iff, of_goal_true, has_status_true; naive_solver.
  - unfold action_store_list_ready. rewrite list_elem_of_In, filter_In, <- list_elem_of_In, elem_of_list_actions.
    split.
    + intros [(r & Hr & Hp & Ha) Hm]. apply andb_true_iff in Hp as [Hg%of_goal_true Hs%has_status_true].
      exists r. injection Ha as <-. by split_and!.
    + intros (r & Hr & Hg & Hs & Ha & Hm). split; [|by injection Ha as <-]. exists r. split_and!; try done.
      apply andb_true_iff. by rewrite of_goal_true, has_status_true.
Qed.

(** Skipping what is pending: the statement reports the number of pending
    actions of the goal and leaves none; every other action, and every other
    count of the goal except the skipped ones, is unchanged. *)
Theorem skip_pending_exact now g rows :
  let '(changes, rows') := action_store_skip_pending StmtOk now g rows in
  let count s rs := count_where (fun r => of_goal g r && has_status s r) rs in
  changes = count ACTION_STATUS_PENDING rows /\ count ACTION_STATUS_PENDING rows' = 0 /\
  count ACTION_STATUS_SKIPPED rows' = count ACTION_STATUS_SKIPPED rows + changes /\
  (forall s, s <> ACTION_STATUS_PENDING -> s <> ACTION_STATUS_SKIPPED -> known_status s ->
     count s rows' = count s rows) /\
  (forall r, r ∈ rows -> ar_goal_id r <> g \/ ar_status r <> 0 -> r ∈ rows').
Proof using Type.
  unfold action_store_skip_pending. cbn [sqlite_dal_exec_p].
  set (p := fun r => of_goal g r && has_status ACTION_STATUS_PENDING r).
  assert (forall s, known_status s ->
    count_where (fun r => of_goal g r && has_status s r) (update_where p (skip_row now) rows) =
    count_where (fun r => of_goal g r && has_status s r) rows +
    (if decide (s = ACTION_STATUS_PENDING) then - count_where p rows
     else if decide (s = ACTION_STATUS_SKIPPED) then count_where p rows else 0)) as Hcount.
  { intros s Hs. induction rows as [|r rows IH]; [by repeat case_decide|].
    cbn [update_where map]. fold (update_where p (skip_row now) rows). rewrite !count_where_cons, IH.
    destruct (p r) eqn:E; unfold p in E.
    - apply andb_true_iff in E as [E1 E2%has_status_true].
      change (of_goal g (skip_row now r)) with (of_goal g r). unfold has_status. rewrite E1, E2.
      cbn [ar_status skip_row status_code].
      destruct s; cbn [status_code andb Z.eqb Pos.eqb]; repeat case_decide; try done; lia.
    - repeat case_decide; lia. }
  split_and!; [done| |..].
  - pose proof (Hcount ACTION_STATUS_PENDING I) as H. rewrite decide_True in H by done. fold p in H. lia.
  - rewrite (Hcount ACTION_STATUS_SKIPPED I), decide_False, decide_True by done. done.
  - intros s H1 H2 H3. rewrite Hcount, !decide_False by done. lia.
  - intros r Hr Hne. apply elem_of_update. exists r. split; [done|].
    destruct (p r) eqn:E; [|done]. unfold p in E. apply andb_true_iff in E as [E1%of_goal_true E2%has_status_true].
    cbn in E2. naive_solver.
Qed.
End Lists.

(** ** Witnesses *)

Module ActionExamples.
Definition plan_ops : list action_op :=
  [OpInsert StmtOk 10 (Some (cs "a1")) (cs "g") None (cs "build") None None true None;
   OpInsert StmtOk 11 (Some (cs "a2")) (cs "g") (Some (cs "a1")) (cs "compile") None None false None;
   OpInsert StmtOk 12 (Some (cs "a3")) (cs "g") (Some (cs "zz")) (cs "link") None None false None;
   OpStatus StmtOk 13 (cs "a2") ACTION_STATUS_RUNNING None;
   OpSkip StmtOk 14 (cs "g")].
Definition plan : list ActionRow := foldl (fun rows op => action_apply op rows) [] plan_ops.

Lemma plan_ops_ok : Forall op_ok plan_ops.
Proof. repeat constructor; intros id [= <-]; discriminate. Qed.

(** The third insertion fails: its parent does not exist. *)
Example plan_rows : map (fun r => (ar_id r, ar_status r)) plan = [(cs "a1", 4); (cs "a2", 1)].
Proof. vm_compute. reflexivity. Qed.
End ActionExamples.

Lemma action_table_well_typed_witness :
  NoDup (map ar_id ActionExamples.plan) /\
  exists r, r ∈ ActionExamples.plan /\ action_ok ActionExamples.plan r.
Proof.
  assert (exists r, r ∈ ActionExamples.plan) as [r Hr] by (vm_compute; eexists; left).
  destruct (action_table_well_typed ActionExamples.plan_ops r ActionExamples.plan_ops_ok Hr) as (H1 & H2 & _).
  split; [exact H1|]. exists r. split; [exact Hr|exact H2].
Defined.

Lemma action_hierarchy_acyclic_witness : ~ ancestor ActionExamples.plan (cs "a2") (cs "a2").
Proof. exact (action_hierarchy_acyclic ActionExamples.plan_ops (cs "a2") ActionExamples.plan_ops_ok). Defined.
