(* ===== verification/GoalStore.v ===== *)
(** * The goals (lib/db/goal_store.c)

    The table goals of scaffold.db, the struct [Goal] and the operations of the
    store. *)

From S2P Require Import Prelude CString Sql WorkQueue.
Local Open Scope bool_scope.
Local Open Scope Z_scope.

(** ** Data *)

Inductive GoalStatus :=
| GOAL_STATUS_PLANNING | GOAL_STATUS_ACTIVE | GOAL_STATUS_PAUSED
| GOAL_STATUS_COMPLETED | GOAL_STATUS_FAILED | GOAL_STATUS_OTHER (code : Z).

#[export] Instance GoalStatus_eq_dec : EqDecision GoalStatus.
Proof. solve_decision. Defined.

Definition goal_status (n : Z) : GoalStatus :=
  if n =? 0 then GOAL_STATUS_PLANNING
  else if n =? 1 then GOAL_STATUS_ACTIVE
  else if n =? 2 then GOAL_STATUS_PAUSED
  else if n =? 3 then GOAL_STATUS_COMPLETED
  else if n =? 4 then GOAL_STATUS_FAILED
  else GOAL_STATUS_OTHER n.

Definition goal_status_code (s : GoalStatus) : Z :=
  match s with
  | GOAL_STATUS_PLANNING => 0 | GOAL_STATUS_ACTIVE => 1 | GOAL_STATUS_PAUSED => 2
  | GOAL_STATUS_COMPLETED => 3 | GOAL_STATUS_FAILED => 4 | GOAL_STATUS_OTHER n => n
  end.

Record GoalRow := mkGoalRow {
  gr_id : cstr;
  gr_name : cstr;
  gr_description : option cstr;
  gr_goal_state : option cstr;
  gr_world_state : option cstr;
  gr_summary : option cstr;
  gr_status : Z;
  gr_queue_name : cstr;
  gr_supervisor_pid : Z;
  gr_supervisor_started_at : Z;
  gr_created_at : Z;
  gr_updated_at : Z;
  gr_plan_document : option cstr
}.

#[export] Instance GoalRow_eq_dec : EqDecision GoalRow.
Proof. solve_decision. Defined.

Record Goal := mkGoal {
  g_id : cstr;
  g_name : cstr;
  g_description : option cstr;
  g_goal_state : option cstr;
  g_world_state : option cstr;
  g_summary : option cstr;
  g_plan_document : option cstr;
  g_status : GoalStatus;
  g_queue_name : cstr;
  g_supervisor_pid : Z;
  g_supervisor_started_at : Z;
  g_created_at : Z;
  g_updated_at : Z
}.

Definition map_goal (r : GoalRow) : option Goal :=
  Some (mkGoal (char_array 40 (Some (gr_id r))) (char_array 128 (Some (gr_name r)))
    (gr_description r) (gr_goal_state r) (gr_world_state r) (gr_summary r) (gr_plan_document r)
    (goal_status (column_int (gr_status r))) (char_array 64 (Some (gr_queue_name r)))
    (column_int (gr_supervisor_pid r)) (gr_supervisor_started_at r) (gr_created_at r) (gr_updated_at r)).

Definition goal_status_to_string (s : GoalStatus) : cstr :=
  match s with
  | GOAL_STATUS_PLANNING => cs "planning"
  | GOAL_STATUS_ACTIVE => cs "active"
  | GOAL_STATUS_PAUSED => cs "paused"
  | GOAL_STATUS_COMPLETED => cs "completed"
  | GOAL_STATUS_FAILED => cs "failed"
  | GOAL_STATUS_OTHER _ => cs "planning"
  end.

Definition goal_status_from_string (s : option cstr) : GoalStatus :=
  match s with
  | None => GOAL_STATUS_PLANNING
  | Some s =>
      if streq s (cs "active") then GOAL_STATUS_ACTIVE
      else if streq s (cs "paused") then GOAL_STATUS_PAUSED
      else if streq s (cs "completed") then GOAL_STATUS_COMPLETED
      else if streq s (cs "failed") then GOAL_STATUS_FAILED
      else GOAL_STATUS_PLANNING
  end.

(** ** Operations *)

Section Operations.
Context {DB : Sqlite}.
Implicit Types (st : Stmt) (rows : list GoalRow).

Definition same_goal (a b : GoalRow) : bool := streq (gr_id a) (gr_id b).

Definition goal_store_insert st (now : Z) (uuid : option cstr) (name : cstr) (description : option cstr)
    (goal_state_json : option cstr) (queue_name : cstr) rows : Z * option cstr * list GoalRow :=
  match uuid with
  | None => (-1, None, rows)
  | Some goal_id =>
      match st with
      | StmtOk =>
          let row := mkGoalRow goal_id name description (Some (default (cs "{}") goal_state_json))
                       (Some (cs "{}")) None 0 queue_name 0 0 now now None in
          match insert_row same_goal row rows with
          | Some rows' => (0, Some goal_id, rows')
          | None => (-1, None, rows)
          end
      | _ => (-1, None, rows)
      end
  end.

Definition is_goal (id : cstr) (r : GoalRow) : bool := streq (gr_id r) id.

Definition goal_store_get st (id : cstr) rows : option Goal :=
  sqlite_dal_query_one_p st map_goal (select_where (is_goal id) rows).

(** The UPDATE .. WHERE id = ? of the update operations. *)
Definition update_goal st (id : cstr) (f : GoalRow -> GoalRow) rows : Z * list GoalRow :=
  let '(changes, rows') := sqlite_dal_exec_p st (is_goal id) f rows in
  (if 0 <? changes then 0 else -1, rows').

Definition set_goal_status (s : GoalStatus) (now : Z) (r : GoalRow) : GoalRow :=
  mkGoalRow (gr_id r) (gr_name r) (gr_description r) (gr_goal_state r) (gr_world_state r) (gr_summary r)
    (goal_status_code s) (gr_queue_name r) (gr_supervisor_pid r) (gr_supervisor_started_at r)
    (gr_created_at r) now (gr_plan_document r).

Definition goal_store_update_status st (now : Z) (id : cstr) (status : GoalStatus) rows :=
  update_goal st id (set_goal_status status now) rows.

Definition set_world_state (world_state : cstr) (now : Z) (r : GoalRow) : GoalRow :=
  mkGoalRow (gr_id r) (gr_name r) (gr_description r) (gr_goal_state r) (Some world_state) (gr_summary r)
    (gr_status r) (gr_queue_name r) (gr_supervisor_pid r) (gr_supervisor_started_at r)
    (gr_created_at r) now (gr_plan_document r).

(** The JSON text may be NULL, when it could not be printed. *)
Definition goal_store_update_world_state st (now : Z) (id : cstr) (world_state_json : option cstr) rows :=
  match world_state_json with
  | None => (-1, rows)
  | Some ws => update_goal st id (set_world_state ws now) rows
  end.

Definition set_summary (summary : cstr) (now : Z) (r : GoalRow) : GoalRow :=
  mkGoalRow (gr_id r) (gr_name r) (gr_description r) (gr_goal_state r) (gr_world_state r) (Some summary)
    (gr_status r) (gr_queue_name r) (gr_supervisor_pid r) (gr_supervisor_started_at r)
    (gr_created_at r) now (gr_plan_document r).

Definition goal_store_update_summary st (now : Z) (id summary : cstr) rows :=
  update_goal st id (set_summary summary now) rows.

Definition set_plan_document (plan : cstr) (now : Z) (r : GoalRow) : GoalRow :=
  mkGoalRow (gr_id r) (gr_name r) (gr_description r) (gr_goal_state r) (gr_world_state r) (gr_summary r)
    (gr_status r) (gr_queue_name r) (gr_supervisor_pid r) (gr_supervisor_started_at r)
    (gr_created_at r) now (Some plan).

Definition goal_store_update_plan_document st (now : Z) (id plan_document : cstr) rows :=
  update_goal st id (set_plan_document plan_document now) rows.

Definition set_supervisor (pid started_at now : Z) (r : GoalRow) : GoalRow :=
  mkGoalRow (gr_id r) (gr_name r) (gr_description r) (gr_goal_state r) (gr_world_state r) (gr_summary r)
    (gr_status r) (gr_queue_name r) pid started_at (gr_created_at r) now (gr_plan_document r).

Definition goal_store_update_supervisor st (now : Z) (id : cstr) (pid started_at : Z) rows :=
  update_goal st id (set_supervisor pid started_at now) rows.

Definition goal_has_status (s : GoalStatus) (r : GoalRow) : bool := gr_status r =? goal_status_code s.

Definition goal_store_has_active_goals st rows : Z :=
  sqlite_dal_exists_p st (select_where (goal_has_status GOAL_STATUS_ACTIVE) rows).

Definition goal_store_list_all st rows : list Goal :=
  (sqlite_dal_query_list_p st map_goal (order_by gr_created_at rows)).2.

Definition goal_store_list_by_status st (s : GoalStatus) rows : list Goal :=
  (sqlite_dal_query_list_p st map_goal
     (order_by gr_created_at (select_where (goal_has_status s) rows))).2.
End Operations.

(** ** Facts *)

Record goals_ok (rows : list GoalRow) : Prop := {
  goals_rows : Forall (fun r => 0 <= gr_status r <= 4 /\ - 2 ^ 31 <= gr_supervisor_pid r < 2 ^ 31) rows;
  goals_ids : NoDup (map gr_id rows)
}.

Definition known_goal_status (s : GoalStatus) : Prop :=
  match s with GOAL_STATUS_OTHER _ => False | _ => True end.

Lemma is_goal_true id r : is_goal id r = true <-> gr_id r = id.
Proof. apply streq_true. Qed.

Lemma goal_has_status_true s r : goal_has_status s r = true <-> gr_status r = goal_status_code s.
Proof. apply Z.eqb_eq. Qed.

Lemma goals_ok_nil : goals_ok [].
Proof. split; constructor. Qed.

Lemma goals_ok_row rows r : goals_ok rows -> r ∈ rows ->
  0 <= gr_status r <= 4 /\ - 2 ^ 31 <= gr_supervisor_pid r < 2 ^ 31.
Proof. intros [H _] Hr. rewrite Forall_forall in H. by apply H. Qed.

Lemma goals_ok_unique rows r1 r2 :
  goals_ok rows -> r1 ∈ rows -> r2 ∈ rows -> gr_id r1 = gr_id r2 -> r1 = r2.
Proof. intros [_ H]. by apply NoDup_column_inj. Qed.

(** The row of a goal. *)
Lemma select_goal rows r :
  goals_ok rows -> r ∈ rows -> select_where (is_goal (gr_id r)) rows = [r].
Proof.
  intros [_ Hd] Hr. induction rows as [|x rows IH]; [by apply not_elem_of_nil in Hr|].
  cbn [map] in Hd. apply NoDup_cons in Hd as [Hn Hd].
  assert (forall y, y ∈ rows -> gr_id x <> gr_id y) as Hne.
  { intros y Hy E. apply Hn. rewrite E. apply list_elem_of_In, in_map, list_elem_of_In, Hy. }
  unfold select_where in *. cbn [List.filter]. apply elem_of_cons in Hr as [-> | Hr].
  - unfold is_goal at 1. rewrite streq_refl. f_equal.
    destruct (List.filter _ rows) as [|y l] eqn:E; [done|].
    assert (y ∈ List.filter (is_goal (gr_id x)) rows) as Hy by (rewrite E; left).
    apply list_elem_of_In, filter_In in Hy as [Hy Hg%is_goal_true]. apply list_elem_of_In in Hy.
    by destruct (Hne y Hy).
  - unfold is_goal at 1. by rewrite (proj2 (streq_false _ _) (Hne r Hr)), IH.
Qed.

Lemma goal_store_get_row rows r :
  goals_ok rows -> r ∈ rows -> goal_store_get StmtOk (gr_id r) rows = map_goal r.
Proof. intros Hok Hr. unfold goal_store_get. by rewrite select_goal. Qed.

Lemma goal_store_get_Some st id rows g :
  goal_store_get st id rows = Some g -> exists r, r ∈ rows /\ gr_id r = id /\ map_goal r = Some g.
Proof.
  unfold goal_store_get, sqlite_dal_query_one_p. destruct (returned _ _) as [|r l] eqn:E; [done|].
  apply returned_head in E as [l' E]. intros H. exists r.
  assert (r ∈ select_where (is_goal id) rows) as Hr by (rewrite E; left).
  apply elem_of_select in Hr as [Hr Hi%is_goal_true]. done.
Qed.

Lemma update_goal_ok st id f rows :
  goals_ok rows -> (forall r, gr_id (f r) = gr_id r) ->
  (forall r, 0 <= gr_status r <= 4 -> 0 <= gr_status (f r) <= 4) ->
  (forall r, - 2 ^ 31 <= gr_supervisor_pid r < 2 ^ 31 -> - 2 ^ 31 <= gr_supervisor_pid (f r) < 2 ^ 31) ->
  goals_ok (update_goal st id f rows).2.
Proof.
  intros [Hr Hi] Hid Hs Hp. unfold update_goal. destruct st; try by split.
  cbn. split; [|by rewrite update_where_column].
  rewrite Forall_forall in *. intros r (r0 & H0 & ->)%elem_of_update. specialize (Hr r0 H0) as [].
  case_match; auto.
Qed.

(** An update of one goal: its row becomes [f r], the others stay. *)
Lemma update_goal_row id f rows r :
  goals_ok rows -> r ∈ rows -> gr_id r = id ->
  update_goal StmtOk id f rows = (0, update_where (is_goal id) f rows) /\
  f r ∈ update_where (is_goal id) f rows.
Proof.
  intros Hok Hr Hid. unfold update_goal. cbn [sqlite_dal_exec_p].
  assert (0 < count_where (is_goal id) rows) as Hpos by (apply count_where_pos; exists r; by rewrite is_goal_true).
  apply Z.ltb_lt in Hpos. rewrite Hpos. split; [done|].
  apply elem_of_update. exists r. split; [done|]. by rewrite (proj2 (is_goal_true id r) Hid).
Qed.

(** A goal reads back as it was written: after an insertion the goal has
    the given name, state and queue, cut to their arrays, is in planning with an
    empty world state and no supervisor, and an update of one field is what the
    next read returns, in this field only. *)
Theorem goal_read_back now uuid name desc gs q rows s ws plan :
  goals_ok rows -> (length uuid <= 39)%nat -> (forall r, r ∈ rows -> gr_id r <> uuid) ->
  let '(rc, id, rows1) := goal_store_insert StmtOk now (Some uuid) name desc gs q rows in
  let g := mkGoal uuid (take 127 name) desc (Some (default (cs "{}") gs)) (Some (cs "{}")) None None
             GOAL_STATUS_PLANNING (take 63 q) 0 0 now now in
  rc = 0 /\ id = Some uuid /\ goal_store_get StmtOk uuid rows1 = Some g /\
  goal_store_get StmtOk uuid (goal_store_update_world_state StmtOk now uuid (Some ws) rows1).2 =
    Some (mkGoal uuid (g_name g) desc (g_goal_state g) (Some ws) None None
            GOAL_STATUS_PLANNING (g_queue_name g) 0 0 now now) /\
  goal_store_get StmtOk uuid (goal_store_update_plan_document StmtOk now uuid plan rows1).2 =
    Some (mkGoal uuid (g_name g) desc (g_goal_state g) (Some (cs "{}")) None (Some plan)
            GOAL_STATUS_PLANNING (g_queue_name g) 0 0 now now) /\
  (known_goal_status s ->
   goal_store_get StmtOk uuid (goal_store_update_status StmtOk now uuid s rows1).2 =
    Some (mkGoal uuid (g_name g) desc (g_goal_state g) (Some (cs "{}")) None None
            s (g_queue_name g) 0 0 now now)).
Proof.
  intros Hok Hlen Hnew. unfold goal_store_insert.
  match goal with |- context [insert_row same_goal ?r rows] => set (row := r) end.
  assert (insert_row same_goal row rows = Some (rows ++ [row])) as ->.
  { apply insert_row_Some. split; [|done]. intros r Hr. apply streq_false. intros E. by apply (Hnew r). }
  assert (forall f : GoalRow -> GoalRow, (forall r, gr_id (f r) = gr_id r) ->
    goal_store_get StmtOk uuid (update_where (is_goal uuid) f (rows ++ [row])) = map_goal (f row)) as Hget.
  { intros f Hf. unfold goal_store_get, select_where, update_where. rewrite map_app, List.filter_app.
    assert (List.filter (is_goal uuid) (map (fun r => if is_goal uuid r then f r else r) rows) = []) as ->.
    { clear -Hnew Hf. induction rows as [|r rows IH]; [done|]. cbn [map List.filter].
      assert (is_goal uuid r = false) as E by (apply streq_false, Hnew; left).
      rewrite E, E. apply IH. intros x Hx. apply Hnew. by right. }
    cbn [map List.filter app]. assert (is_goal uuid row = true) as -> by apply streq_refl.
    unfold is_goal. rewrite Hf. cbn [gr_id row]. by rewrite streq_refl. }
  assert (forall f : GoalRow -> GoalRow, (forall r, gr_id (f r) = gr_id r) ->
    goal_store_get StmtOk uuid (update_goal StmtOk uuid f (rows ++ [row])).2 = map_goal (f row)) as Hupd
    by (intros f Hf; apply (Hget f Hf)).
  split_and!; try done.
  - specialize (Hget (fun r => r) (fun r => eq_refl)). rewrite update_where_id in Hget.
    rewrite Hget. unfold map_goal, char_array; cbn. by rewrite (firstn_all2 uuid).
  - etransitivity; [by apply (Hupd (set_world_state ws now))|]. unfold map_goal, char_array; cbn. by rewrite (firstn_all2 uuid).
  - etransitivity; [by apply (Hupd (set_plan_document plan now))|]. unfold map_goal, char_array; cbn. by rewrite (firstn_all2 uuid).
  - intros Hs. etransitivity; [by apply (Hupd (set_goal_status s now))|]. unfold map_goal, char_array; cbn.
    rewrite (firstn_all2 uuid) by done. by destruct s.
Qed.

Lemma goal_read_back_witness :
  goals_ok [] /\
  goal_store_get StmtOk (cs "g1")
    (goal_store_insert StmtOk 7 (Some (cs "g1")) (cs "ship") None None (cs "goal_g1") []).2 =
  Some (mkGoal (cs "g1") (cs "ship") None (Some (cs "{}")) (Some (cs "{}")) None None
          GOAL_STATUS_PLANNING (cs "goal_g1") 0 0 7 7).
Proof.
  split; [exact goals_ok_nil|].
  refine (proj1 (proj2 (proj2 (goal_read_back 7 (cs "g1") (cs "ship") None None (cs "goal_g1") []
            GOAL_STATUS_ACTIVE [] [] goals_ok_nil _ _)))).
  - cbn. lia.
  - by intros r ?%not_elem_of_nil.
Defined.
