(* ===== verification/ParamExtract.v ===== *)
(** * Reading tool parameters from the argument text (lib/util/common_utils.c)

    Many tools read their string parameters without parsing the JSON text: they
    search it for the quoted name followed by a colon. [strip_ansi], of the same
    file, removes terminal control sequences. *)

From S2P Require Import Prelude CString Json.
Local Open Scope char_scope.
Local Open Scope bool_scope.

(** ** extract_string_param *)

(** [snprintf] into search_key, an array of 256 characters. *)
Definition search_key (param_name : cstr) : cstr := take 255 (JQ :: param_name ++ [JQ; ":"]).

Fixpoint skip_blanks (s : cstr) : cstr :=
  match s with
  | c :: t => if Ascii.eqb c " " || Ascii.eqb c "009" then skip_blanks t else s
  | [] => []
  end.

(** The text up to the closing quote; [None] when the quote is missing. *)
Fixpoint raw_string (s : cstr) : option cstr :=
  match s with
  | [] => None
  | c :: t =>
      if Ascii.eqb c JQ then Some []
      else if Ascii.eqb c "\" then
        match t with
        | d :: t' => (fun r => c :: d :: r) <$> raw_string t'
        | [] => None
        end
      else cons c <$> raw_string t
  end.

(** The loop that resolves the escapes it knows and keeps the others. *)
Fixpoint unescape (s : cstr) : cstr :=
  match s with
  | [] => []
  | c :: t =>
      if Ascii.eqb c "\" then
        match t with
        | d :: t' =>
            if Ascii.eqb d "n" then "010" :: unescape t'
            else if Ascii.eqb d "t" then "009" :: unescape t'
            else if Ascii.eqb d "r" then "013" :: unescape t'
            else if Ascii.eqb d JQ then JQ :: unescape t'
            else if Ascii.eqb d "\" then "\" :: unescape t'
            else c :: unescape t
        | [] => [c]
        end
      else c :: unescape t
  end.

Definition extract_string_param (json : option cstr) (param_name : cstr) : option cstr :=
  match json with
  | None => None
  | Some json =>
      let key := search_key param_name in
      match strstr json key with
      | None => None
      | Some start =>
          match skip_blanks (drop (length key) start) with
          | c :: start => if Ascii.eqb c JQ then unescape <$> raw_string start else None
          | [] => None
          end
      end
  end.

(** ** strip_ansi *)

Definition csi_parameter (c : ascii) : bool := ((48 <=? byte_of c) && (byte_of c <=? 63))%Z.
Definition csi_intermediate (c : ascii) : bool := ((32 <=? byte_of c) && (byte_of c <=? 47))%Z.
Definition csi_final (c : ascii) : bool := ((64 <=? byte_of c) && (byte_of c <=? 126))%Z.

Definition ESC : ascii := "027".

(** The state of the scan between two characters: copying, after ESC [ among the
    parameter bytes, or among the intermediate bytes. *)
Inductive AnsiState := Copying | Parameters | Intermediates.

Fixpoint strip_from (state : AnsiState) (s : cstr) : cstr :=
  match s with
  | [] => []
  | c :: t =>
      let copy :=
        if Ascii.eqb c ESC then
          match t with
          | d :: t' => if Ascii.eqb d "[" then strip_from Parameters t' else c :: strip_from Copying t
          | [] => [c]
          end
        else if Ascii.eqb c "013" then strip_from Copying t
        else c :: strip_from Copying t in
      match state with
      | Copying => copy
      | Parameters =>
          if csi_parameter c then strip_from Parameters t
          else if csi_intermediate c then strip_from Intermediates t
          else if csi_final c then strip_from Copying t
          else copy
      | Intermediates =>
          if csi_intermediate c then strip_from Intermediates t
          else if csi_final c then strip_from Copying t
          else copy
      end
  end.

Definition strip_ansi (s : cstr) : cstr := strip_from Copying s.

(** ** Facts *)

(** The text a JSON writer makes of a string with the short escapes. *)
Definition short_escape (c : ascii) : cstr :=
  if Ascii.eqb c "010" then ["\"; "n"]
  else if Ascii.eqb c "009" then ["\"; "t"]
  else if Ascii.eqb c "013" then ["\"; "r"]
  else if Ascii.eqb c JQ then ["\"; JQ]
  else if Ascii.eqb c "\" then ["\"; "\"]
  else [c].

Lemma raw_string_escaped s r : raw_string (flat_map short_escape s ++ JQ :: r) = Some (flat_map short_escape s).
Proof.
  induction s as [|c s IH]; [done|]. cbn [flat_map]. rewrite <- app_assoc.
  assert (forall u, raw_string (short_escape c ++ u) = app (short_escape c) <$> raw_string u) as E
    by (intros u; ascii_cases c; reflexivity).
  by rewrite E, IH.
Qed.

Lemma unescape_escaped s : unescape (flat_map short_escape s) = s.
Proof.
  induction s as [|c s IH]; [done|]. cbn [flat_map].
  assert (forall u, unescape (short_escape c ++ u) = c :: unescape u) as E
    by (intros u; ascii_cases c; reflexivity).
  by rewrite E, IH.
Qed.

Lemma skip_blanks_app b r :
  Forall (fun c => c = " " \/ c = "009") b -> skip_blanks (b ++ JQ :: r) = JQ :: r.
Proof. induction 1 as [|c b [-> | ->] _ IH]; done. Qed.

(** The first occurrence of a text that does not occur earlier. *)
Lemma strstr_first pre needle post :
  needle <> [] -> strstr (pre ++ removelast needle) needle = None ->
  strstr (pre ++ needle ++ post) needle = Some (needle ++ post).
Proof.
  intros Hne. induction pre as [|c pre IH]; intros H.
  - cbn [app]. destruct (needle ++ post) as [|x l] eqn:E; [by destruct needle|].
    cbn [strstr]. rewrite <- E. by rewrite has_prefix_app.
  - cbn [app strstr] in *. destruct (has_prefix needle (c :: pre ++ needle ++ post)) eqn:E.
    + exfalso. apply has_prefix_true in E as [r Hr].
      destruct (has_prefix needle (c :: pre ++ removelast needle)) eqn:E2; [done|].
      assert (has_prefix needle (c :: pre ++ removelast needle) = true); [|congruence].
      apply has_prefix_true. exists (drop (length needle) (c :: pre ++ removelast needle)).
      rewrite <- (take_drop (length needle) (c :: pre ++ removelast needle)) at 1. f_equal.
      pose proof (app_removelast_last "0" Hne) as Hl.
      assert (length needle = S (length (removelast needle))) as Hlen
        by (rewrite Hl at 1; rewrite length_app; simpl; lia).
      transitivity (take (length needle) (needle ++ r)); [|by rewrite take_app_length].
      rewrite <- Hr.
      assert (c :: pre ++ needle ++ post = (c :: pre ++ removelast needle) ++ List.last needle "0" :: post) as ->.
      { cbn [app]. f_equal. rewrite <- app_assoc. f_equal. rewrite Hl at 1. by rewrite <- app_assoc. }
      rewrite take_app_le; [done|]. cbn [length]. rewrite length_app. lia.
    + apply IH. by destruct (has_prefix needle (c :: pre ++ removelast needle)).
Qed.

(** Round trip of a string parameter: if a JSON text gives the parameter,
    written with the short escapes, and the quoted name with its colon does not
    occur earlier, the parameter is read back exactly, whatever stands before and
    after. *)
Theorem string_param_roundtrip pre name blanks s post :
  (length name <= 252)%nat -> Forall (fun c => c = " " \/ c = "009") blanks ->
  strstr (pre ++ removelast (search_key name)) (search_key name) = None ->
  extract_string_param
    (Some (pre ++ search_key name ++ blanks ++ JQ :: flat_map short_escape s ++ JQ :: post)) name = Some s.
Proof.
  intros Hlen Hb Hpre. unfold extract_string_param.
  rewrite strstr_first; [|done|done].
  rewrite drop_app_length, skip_blanks_app by done. rewrite (Ascii.eqb_refl JQ).
  rewrite raw_string_escaped. cbn [fmap option_fmap option_map]. by rewrite unescape_escaped.
Qed.

(** A nested member with the same name, earlier in the text, is taken instead. *)
Example nested_name_wins :
  extract_string_param
    (Some (ref_print (JObject [(cs "assertions", JObject [(cs "goal_id", JString (cs "inner"))]);
                               (cs "goal_id", JString (cs "outer"))]))) (cs "goal_id")
  = Some (cs "inner").
Proof. vm_compute. reflexivity. Qed.

(** Stripping is not idempotent: an escape character followed by a sequence
    joins what follows the sequence. *)
Example strip_ansi_once :
  strip_ansi (ESC :: ESC :: cs "[0m[31mred") = ESC :: cs "[31mred" /\
  strip_ansi (ESC :: cs "[31mred") = cs "red".
Proof. vm_compute. split; reflexivity. Qed.

Lemma string_param_roundtrip_witness :
  extract_string_param (Some (obj1 "goal_id" "g1")) (cs "goal_id") = Some (cs "g1").
Proof.
  change (obj1 "goal_id" "g1") with
    (["{"] ++ search_key (cs "goal_id") ++ [] ++ JQ :: flat_map short_escape (cs "g1") ++ JQ :: ["}"]).
  apply (string_param_roundtrip ["{"] (cs "goal_id") [] (cs "g1") ["}"]); [vm_compute; lia|constructor|reflexivity].
Defined.
