(* ===== verification/GoapTools.v ===== *)
(** * The planning tool (lib/tools/goap_tools.c)

    The operations of the tool "goap", which the planner, the supervisor and the
    workers call. The three tables and the sources of statement outcomes, ids and
    time are one world, threaded through the code by a state monad; the rest of
    the program that the tool reaches (services, configuration, role prompts,
    process creation) is the record [GoapEnv]. *)

From S2P Require Import Prelude CString Json ToolArgs Sql WorkQueue GoapState ActionStore GoalStore ParamExtract.
Local Open Scope bool_scope.
Local Open Scope Z_scope.

(** ** The world *)

(** [w_stmts] are the outcomes of the next statements, all fine when it is
    empty; [w_uuids] the next ids, with [None] for a failure. *)
Record World := mkWorld {
  w_goals : list GoalRow;
  w_actions : list ActionRow;
  w_items : list WorkItemRow;
  w_stmts : list Stmt;
  w_uuids : list (option cstr);
  w_now : Z
}.

Definition M (A : Type) : Type := World -> A * World.

#[export] Instance M_ret : MRet M := fun A x w => (x, w).
#[export] Instance M_bind : MBind M := fun A B k m w => let '(x, w') := m w in k x w'.

Definition next_stmt (w : World) : Stmt := match w_stmts w with st :: _ => st | [] => StmtOk end.

(** A statement on one of the tables, at the time of the world. *)
Definition on_goals {A} (f : Stmt -> Z -> list GoalRow -> A * list GoalRow) : M A := fun w =>
  let '(x, rows) := f (next_stmt w) (w_now w) (w_goals w) in
  (x, mkWorld rows (w_actions w) (w_items w) (tail (w_stmts w)) (w_uuids w) (w_now w)).
Definition on_actions {A} (f : Stmt -> Z -> list ActionRow -> A * list ActionRow) : M A := fun w =>
  let '(x, rows) := f (next_stmt w) (w_now w) (w_actions w) in
  (x, mkWorld (w_goals w) rows (w_items w) (tail (w_stmts w)) (w_uuids w) (w_now w)).
Definition on_items {A} (f : Stmt -> Z -> list WorkItemRow -> A * list WorkItemRow) : M A := fun w =>
  let '(x, rows) := f (next_stmt w) (w_now w) (w_items w) in
  (x, mkWorld (w_goals w) (w_actions w) rows (tail (w_stmts w)) (w_uuids w) (w_now w)).
Definition uuid_generate_v4 : M (option cstr) := fun w =>
  (match w_uuids w with u :: _ => u | [] => None end,
   mkWorld (w_goals w) (w_actions w) (w_items w) (w_stmts w) (tail (w_uuids w)) (w_now w)).

Record GoapEnv := mkGoapEnv {
  has_goal_store : bool;
  has_action_store : bool;
  has_subagent_manager : bool;
  queue_opens : bool;
  max_workers_per_goal : Z;
  role_prompt_load : cstr -> option cstr;
  write_prompt_file : cstr -> option cstr;
  executable_path : option cstr;
  subagent_spawn_with_args : list cstr -> cstr -> Z * cstr;
  uninitialized_uuid : cstr
}.

(** The text of the result, NULL when it cannot be printed, and its success flag. *)
Definition ToolOutput : Type := option cstr * bool.

Section Tools.
Context {DB : Sqlite} {J : CJson} (env : GoapEnv).

Definition set_error_text (msg : cstr) : ToolOutput :=
  (cJSON_PrintUnformatted (JObject [(cs "success", JBool false); (cs "error", JString msg)]), false).
Definition tool_result_set_error (msg : string) : ToolOutput := set_error_text (cs msg).
Definition tool_result_json (members : list (cstr * cJSON)) : ToolOutput :=
  (cJSON_PrintUnformatted (JObject ((cs "success", JBool true) :: members)), true).

(** A member that is only added when there is a value. *)
Definition opt_member (key : string) (v : option cJSON) : list (cstr * cJSON) :=
  match v with Some j => [(cs key, j)] | None => [] end.
Definition opt_string (key : string) (s : option cstr) : list (cstr * cJSON) :=
  opt_member key (JString <$> s).

Definition extract (tc : ToolCall) (name : string) : option cstr :=
  extract_string_param (tc_arguments tc) (cs name).
Definition parse_arguments (tc : ToolCall) : option cJSON :=
  match tc_arguments tc with Some a => cJSON_Parse a | None => None end.

(** ** Helpers *)

Definition MAX_RESULT_PREVIEW : Z := 4000.

(** A text cut for a preview. *)
Definition preview (s : cstr) : cstr :=
  if MAX_RESULT_PREVIEW <? Z.of_nat (length s)
  then take (Z.to_nat MAX_RESULT_PREVIEW) s ++ cs "...[truncated]" else s.

Definition is_valid_action_status (s : option cstr) : bool :=
  match s with
  | None => false
  | Some s => streq s (cs "pending") || streq s (cs "running") || streq s (cs "completed")
              || streq s (cs "failed") || streq s (cs "skipped")
  end.

Definition action_to_json (a : Action) : cJSON :=
  JObject ([(cs "id", JString (a_id a)); (cs "goal_id", JString (a_goal_id a))] ++
    opt_string "parent_action_id" (nonempty_text (Some (a_parent_action_id a))) ++
    opt_string "description" (a_description a) ++
    [(cs "status", JString (action_status_to_string (a_status a)));
     (cs "is_compound", JBool (a_is_compound a))] ++
    opt_string "role" (nonempty_text (Some (a_role a))) ++
    opt_member "preconditions" (a_preconditions a ≫= cJSON_Parse) ++
    opt_member "effects" (a_effects a ≫= cJSON_Parse) ++
    opt_string "result" (a_result a) ++
    [(cs "attempt_count", JNumber (a_attempt_count a))]).

(** A stored JSON text, under another key when it does not parse. *)
Definition state_member (key raw : string) (text : option cstr) : list (cstr * cJSON) :=
  match text with
  | None => []
  | Some t => match cJSON_Parse t with
              | Some j => [(cs key, j)]
              | None => [(cs raw, JString t)]
              end
  end.

(** ** get_goal and list_actions *)

Definition goal_to_json (g : Goal) : list (cstr * cJSON) :=
  [(cs "id", JString (g_id g)); (cs "name", JString (g_name g))] ++
  opt_string "description" (g_description g) ++
  [(cs "status", JString (goal_status_to_string (g_status g)))] ++
  opt_string "queue_name" (nonempty_text (Some (g_queue_name g))) ++
  opt_string "summary" (g_summary g) ++
  opt_string "plan_document" (g_plan_document g) ++
  state_member "goal_state" "goal_state_raw" (g_goal_state g) ++
  state_member "world_state" "world_state_raw" (g_world_state g) ++
  [(cs "supervisor_pid", JNumber (g_supervisor_pid g))].

Definition get_goal (id : cstr) : M (option Goal) :=
  on_goals (fun st _ rows => (goal_store_get st id rows, rows)).

Definition execute_goap_get_goal (tc : ToolCall) : M ToolOutput :=
  match extract tc "goal_id" with
  | None => mret (tool_result_set_error "Missing required parameter: goal_id")
  | Some goal_id =>
      if negb (has_goal_store env) then mret (tool_result_set_error "Goal store not available")
      else
        goal ← get_goal goal_id;
        match goal with
        | None => mret (tool_result_set_error "Goal not found")
        | Some goal => mret (tool_result_json (goal_to_json goal))
        end
  end.

(** The list and its length. *)
Definition json_array (key : string) (l : list cJSON) : list (cstr * cJSON) :=
  [(cs key, JArray l); (cs "count", JNumber (Z.of_nat (length l)))].

Definition execute_goap_list_actions (tc : ToolCall) : M ToolOutput :=
  match extract tc "goal_id" with
  | None => mret (tool_result_set_error "Missing required parameter: goal_id")
  | Some goal_id =>
      let status_str := extract tc "status" in
      let parent_id := extract tc "parent_action_id" in
      if match status_str with Some _ => negb (is_valid_action_status status_str) | None => false end
      then mret (tool_result_set_error
             "Invalid status filter (must be: pending, running, completed, failed, skipped)")
      else if negb (has_action_store env) then mret (tool_result_set_error "Action store not available")
      else
        actions ← on_actions (fun st _ rows =>
          (match parent_id with
           | Some parent_id => action_store_list_children st parent_id rows
           | None => action_store_list_by_goal st goal_id rows
           end, rows));
        let keep a := match status_str with
                      | None => true
                      | Some _ => bool_decide (a_status a = action_status_from_string status_str)
                      end in
        mret (tool_result_json (json_array "actions" (action_to_json <$> List.filter keep actions)))
  end.

(** ** create_goal *)

Definition get_string (args : cJSON) (key : string) : option cstr :=
  cJSON_GetStringValue (cJSON_GetObjectItem args (cs key)).

(** The goal state: an object is printed, a string taken as it is. *)
Definition goal_state_text (args : cJSON) : option cstr :=
  match cJSON_GetObjectItem args (cs "goal_state") with
  | Some ((JObject _) as gs) => cJSON_PrintUnformatted gs
  | Some (JString s) => Some s
  | _ => None
  end.

Definition execute_goap_create_goal (tc : ToolCall) : M ToolOutput :=
  match parse_arguments tc with
  | None => mret (tool_result_set_error "Invalid JSON arguments")
  | Some args =>
      match get_string args "name", get_string args "description" with
      | Some name, Some description =>
          let goal_state_str := goal_state_text args in
          queue_name ← match get_string args "queue_name" with
                       | Some q => mret q
                       | None =>
                           uuid ← uuid_generate_v4;
                           mret (cs "goal_" ++ take 32 (default (uninitialized_uuid env) uuid))
                       end;
          if negb (has_goal_store env) then mret (tool_result_set_error "Goal store not available")
          else
            uuid ← uuid_generate_v4;
            inserted ← on_goals (fun st now rows =>
              goal_store_insert st now uuid name (Some description) goal_state_str queue_name rows);
            match inserted with
            | (0, Some goal_id) =>
                let response status := tool_result_json
                  [(cs "goal_id", JString goal_id); (cs "queue_name", JString queue_name);
                   (cs "status", JString (cs status))] in
                if cJSON_IsTrue (cJSON_GetObjectItem args (cs "persistent")) then
                  rc ← on_goals (fun st now rows =>
                    goal_store_update_status st now goal_id GOAL_STATUS_ACTIVE rows);
                  if rc =? 0 then mret (response "active")
                  else mret (tool_result_set_error "Goal created but failed to set active status")
                else mret (response "planning")
            | _ => mret (tool_result_set_error "Failed to create goal")
            end
      | _, _ => mret (tool_result_set_error "Missing required parameters: name, description")
      end
  end.

(** ** create_actions *)

Definition array_text (item : option cJSON) : option cstr :=
  match item with
  | Some ((JArray _) as a) => cJSON_PrintUnformatted a
  | _ => Some (cs "[]")
  end.

Definition insert_action (goal_id : cstr) (action_obj : cJSON) : M (option cstr) :=
  match get_string action_obj "description" with
  | None => mret None
  | Some desc =>
      uuid ← uuid_generate_v4;
      res ← on_actions (fun st now rows =>
        action_store_insert st now uuid goal_id (get_string action_obj "parent_action_id") desc
          (array_text (cJSON_GetObjectItem action_obj (cs "preconditions")))
          (array_text (cJSON_GetObjectItem action_obj (cs "effects")))
          (cJSON_IsTrue (cJSON_GetObjectItem action_obj (cs "is_compound")))
          (get_string action_obj "role") rows);
      mret (match res with (0, Some id) => Some id | _ => None end)
  end.

(** The loop: the ids made and the number of failures. *)
Fixpoint insert_actions (goal_id : cstr) (items : list cJSON) : M (list cstr * Z) :=
  match items with
  | [] => mret ([], 0)
  | item :: items' =>
      id ← insert_action goal_id item;
      rest ← insert_actions goal_id items';
      mret (match id with
            | Some id => (id :: rest.1, rest.2)
            | None => (rest.1, rest.2 + 1)
            end)
  end.

Definition execute_goap_create_actions (tc : ToolCall) : M ToolOutput :=
  match parse_arguments tc with
  | None => mret (tool_result_set_error "Invalid JSON arguments")
  | Some args =>
      match get_string args "goal_id", cJSON_IsArray (cJSON_GetObjectItem args (cs "actions")) with
      | Some goal_id, Some actions =>
          if negb (has_action_store env) then mret (tool_result_set_error "Action store not available")
          else
            res ← insert_actions goal_id actions;
            let '(ids, failed) := res in
            let created := Z.of_nat (length ids) in
            let ok := (0 <? created) || (failed =? 0) in
            mret (cJSON_PrintUnformatted (JObject
              ([(cs "success", JBool ok); (cs "action_ids", JArray (JString <$> ids));
                (cs "created", JNumber created)] ++
               (if 0 <? failed then [(cs "failed", JNumber failed)] else []))), ok)
      | _, _ => mret (tool_result_set_error "Missing required parameters: goal_id, actions (array)")
      end
  end.

(** ** update_action *)

Definition execute_goap_update_action (tc : ToolCall) : M ToolOutput :=
  match extract tc "action_id", extract tc "status" with
  | Some action_id, Some status_str =>
      if negb (is_valid_action_status (Some status_str)) then
        mret (tool_result_set_error
          "Invalid status (must be: pending, running, completed, failed, skipped)")
      else if negb (has_action_store env) then mret (tool_result_set_error "Action store not available")
      else
        let status := action_status_from_string (Some status_str) in
        rc ← on_actions (fun st now rows =>
          action_store_update_status st now action_id status (extract tc "result") rows);
        if rc =? 0 then
          mret (tool_result_json [(cs "action_id", JString action_id);
                                  (cs "status", JString (action_status_to_string status))])
        else mret (tool_result_set_error "Failed to update action")
  | _, _ => mret (tool_result_set_error "Missing required parameters: action_id, status")
  end.

(** ** dispatch_action *)

Definition is_string (key : cstr) (item : cJSON) : bool :=
  match cJSON_IsString (Some item) with Some s => streq s key | None => false end.

(** Whether an effect of the action is one of the preconditions. *)
Definition effects_overlap (prereqs : list cJSON) (effects : list cJSON) : bool :=
  existsb (fun eff => match cJSON_IsString (Some eff) with
                      | Some key => existsb (is_string key) prereqs
                      | None => false
                      end) effects.

(** The result of a completed action that establishes a precondition. *)
Definition prerequisite_result (prereqs : list cJSON) (a : Action) : list (cstr * cJSON) :=
  match a_status a, a_result a, a_effects a with
  | ACTION_STATUS_COMPLETED, Some res, Some effects =>
      match cJSON_Parse effects with
      | Some (JArray effects) =>
          if effects_overlap prereqs effects then [(a_id a, JString (preview res))] else []
      | _ => []
      end
  | _, _, _ => []
  end.

Definition role_or_default (a : Action) : cstr :=
  match a_role a with [] => cs "implementation" | role => role end.

Definition build_work_context (goal : Goal) (action : Action) : M (option cstr) :=
  let base :=
    [(cs "goal", JString (default (g_name goal) (g_description goal)));
     (cs "action", JString (default [] (a_description action)));
     (cs "role", JString (role_or_default action))] ++
    opt_member "world_state" (g_world_state goal ≫= cJSON_Parse) ++
    opt_string "plan_guidance" (preview <$> g_plan_document goal) in
  extra ← match a_preconditions action ≫= cJSON_Parse with
          | Some (JArray ((_ :: _) as prereqs)) =>
              all_actions ← on_actions (fun st _ rows =>
                (action_store_list_by_goal st (a_goal_id action) rows, rows));
              mret (match flat_map (prerequisite_result prereqs) all_actions with
                    | [] => []
                    | results => [(cs "prerequisite_results", JObject results)]
                    end)
          | _ => mret []
          end;
  mret (cJSON_PrintUnformatted (JObject (base ++ extra))).

(** The file with the system prompt of the role, if it could be written. *)
Definition prompt_file (role : cstr) : option cstr :=
  match role_prompt_load env role with
  | Some ((_ :: _) as prompt) => nonempty_text (write_prompt_file env prompt)
  | _ => None
  end.

Definition worker_args (exe queue_name : cstr) (prompt : option cstr) : list cstr :=
  [exe; cs "--worker"; cs "--queue"; queue_name; cs "--yolo"] ++
  match prompt with Some file => [cs "--system-prompt-file"; file] | None => [] end.

Definition remove_item (queue item_id : cstr) : M Z :=
  on_items (fun st _ rows => work_queue_remove st queue item_id rows).

(** From the enqueued item on: start a worker, or take the item back. *)
Definition spawn_worker (action_id : cstr) (action : Action) (goal : Goal) (queue work_item_id : cstr)
  : M ToolOutput :=
  let prompt := prompt_file (role_or_default action) in
  match executable_path env with
  | None =>
      _ ← remove_item queue work_item_id;
      mret (tool_result_set_error "Failed to get executable path")
  | Some exe =>
      let '(spawn_rc, subagent_id) :=
        if has_subagent_manager env
        then subagent_spawn_with_args env (worker_args exe (g_queue_name goal) prompt)
               (default [] (a_description action))
        else (-1, []) in
      if negb (spawn_rc =? 0) then
        _ ← remove_item queue work_item_id;
        mret (tool_result_set_error "Failed to spawn worker")
      else
        _ ← on_actions (fun st now rows =>
              action_store_update_status st now action_id ACTION_STATUS_RUNNING None rows);
        _ ← on_actions (fun st now rows =>
              action_store_update_work_item st now action_id work_item_id rows);
        mret (tool_result_json [(cs "action_id", JString action_id);
                                (cs "subagent_id", JString subagent_id);
                                (cs "work_item_id", JString work_item_id)])
  end.

Definition execute_goap_dispatch_action (tc : ToolCall) : M ToolOutput :=
  match extract tc "action_id" with
  | None => mret (tool_result_set_error "Missing required parameter: action_id")
  | Some action_id =>
      if negb (has_action_store env && has_goal_store env) then
        mret (tool_result_set_error "Stores not available")
      else
        found ← on_actions (fun st _ rows => (action_store_get st action_id rows, rows));
        match found with
        | None => mret (tool_result_set_error "Action not found")
        | Some action =>
            if a_is_compound action then
              mret (tool_result_set_error "Cannot dispatch compound action - decompose it first")
            else if negb (bool_decide (a_status action = ACTION_STATUS_PENDING)) then
              mret (tool_result_set_error "Action is not pending")
            else
              running ← on_actions (fun st _ rows =>
                (action_store_count_by_status st (a_goal_id action) ACTION_STATUS_RUNNING rows, rows));
              if max_workers_per_goal env <=? running then
                mret (tool_result_set_error "Worker capacity reached for this goal")
              else
                goal ← get_goal (a_goal_id action);
                match goal with
                | None => mret (tool_result_set_error "Goal not found for action")
                | Some goal =>
                    context ← build_work_context goal action;
                    match work_queue_create (queue_opens env) (Some (g_queue_name goal)) with
                    | None => mret (tool_result_set_error "Failed to create work queue")
                    | Some queue =>
                        match a_description action with
                        | None => mret (tool_result_set_error "Failed to enqueue work item")
                        | Some description =>
                            uuid ← uuid_generate_v4;
                            enqueued ← on_items (fun st now rows =>
                              work_queue_enqueue st now uuid queue description context 3 rows);
                            match enqueued with
                            | (0, Some work_item_id) => spawn_worker action_id action goal queue work_item_id
                            | _ => mret (tool_result_set_error "Failed to enqueue work item")
                            end
                        end
                    end
                end
        end
  end.

(** ** update_world_state *)

(** One iteration: only boolean assertions count. *)
Definition assert_member (world_state : cJSON) (item : option cstr * cJSON) : cJSON :=
  match item with
  | (key, JBool b) =>
      let key := default [] key in
      cJSON_AddItemToObject (cJSON_DeleteItemFromObject world_state key) key (JBool b)
  | _ => world_state
  end.

(** The parsed world state, or a new object. *)
Definition current_world_state (goal : Goal) : cJSON :=
  match g_world_state goal with
  | Some text => default (JObject []) (cJSON_Parse text)
  | None => JObject []
  end.

(** What the loop makes of the goal that was read. *)
Definition assert_world_state (goal : Goal) (assertions : list (cstr * cJSON)) : cJSON :=
  foldl assert_member (current_world_state goal) (children (JObject assertions)).

(** The writing half of the operation, after the goal has been read; the lock of
    the store, which is local to the process, is held from the read to here. *)
Definition store_world_state (goal_id : cstr) (world_state : cJSON) (summary : option cstr) : M ToolOutput :=
  rc ← (match cJSON_PrintUnformatted world_state with
        | None => mret (-1)
        | Some new_ws => on_goals (fun st now rows =>
            goal_store_update_world_state st now goal_id (Some new_ws) rows)
        end);
  if negb (rc =? 0) then mret (tool_result_set_error "Failed to update world state")
  else
    summary_rc ← (match summary with
                  | None => mret 0
                  | Some summary => on_goals (fun st now rows =>
                      goal_store_update_summary st now goal_id summary rows)
                  end);
    if summary_rc =? 0 then mret (tool_result_json [(cs "world_state", world_state)])
    else mret (tool_result_set_error "World state updated but failed to save summary").

Definition execute_goap_update_world_state (tc : ToolCall) : M ToolOutput :=
  match extract tc "goal_id" with
  | None => mret (tool_result_set_error "Missing required parameter: goal_id")
  | Some goal_id =>
      match parse_arguments tc with
      | None => mret (tool_result_set_error "Invalid JSON arguments")
      | Some args =>
          match cJSON_IsObject (cJSON_GetObjectItem args (cs "assertions")) with
          | None => mret (tool_result_set_error "Missing required parameter: assertions (object)")
          | Some assertions =>
              if negb (has_goal_store env) then mret (tool_result_set_error "Goal store not available")
              else
                goal ← get_goal goal_id;
                match goal with
                | None => mret (tool_result_set_error "Goal not found")
                | Some goal =>
                    store_world_state goal_id (assert_world_state goal assertions) (get_string args "summary")
                end
          end
      end
  end.

(** ** check_complete *)

Definition missing_assertions (goal : Goal) : list cJSON :=
  match g_goal_state goal ≫= cJSON_Parse with
  | Some ((JObject _) as goal_state) =>
      let world_state := g_world_state goal ≫= cJSON_Parse in
      (fun item => JString (default [] item.1)) <$>
        List.filter (fun item : option cstr * cJSON => negb (world_true world_state (default [] item.1)))
          (children goal_state)
  | _ => []
  end.

Definition completion_report (goal : Goal) : list (cstr * cJSON) :=
  let progress := goap_check_progress (g_goal_state goal) (g_world_state goal) in
  [(cs "complete", JBool (complete progress)); (cs "satisfied", JNumber (satisfied progress));
   (cs "total", JNumber (total progress))] ++
  if complete progress then [] else [(cs "missing", JArray (missing_assertions goal))].

Definition execute_goap_check_complete (tc : ToolCall) : M ToolOutput :=
  match extract tc "goal_id" with
  | None => mret (tool_result_set_error "Missing required parameter: goal_id")
  | Some goal_id =>
      if negb (has_goal_store env) then mret (tool_result_set_error "Goal store not available")
      else
        goal ← get_goal goal_id;
        match goal with
        | None => mret (tool_result_set_error "Goal not found")
        | Some goal => mret (tool_result_json (completion_report goal))
        end
  end.

(** ** get_action_results *)

Definition result_wanted (filter_ids : option cJSON) (a : Action) : bool :=
  match cJSON_IsArray filter_ids with
  | Some ids => existsb (is_string (a_id a)) ids
  | None => true
  end.

Definition result_to_json (a : Action) (res : cstr) : cJSON :=
  JObject ([(cs "action_id", JString (a_id a))] ++ opt_string "description" (a_description a) ++
    opt_string "role" (nonempty_text (Some (a_role a))) ++ [(cs "result", JString (preview res))] ++
    if MAX_RESULT_PREVIEW <? Z.of_nat (length res) then [(cs "truncated", JBool true)] else []).

Definition action_result (filter_ids : option cJSON) (a : Action) : list cJSON :=
  match a_status a, a_result a with
  | ACTION_STATUS_COMPLETED, Some res =>
      if result_wanted filter_ids a then [result_to_json a res] else []
  | _, _ => []
  end.

Definition execute_goap_get_action_results (tc : ToolCall) : M ToolOutput :=
  match extract tc "goal_id" with
  | None => mret (tool_result_set_error "Missing required parameter: goal_id")
  | Some goal_id =>
      if negb (has_action_store env) then mret (tool_result_set_error "Action store not available")
      else
        let filter_ids := parse_arguments tc ≫= fun args => cJSON_GetObjectItem args (cs "action_ids") in
        actions ← on_actions (fun st _ rows => (action_store_list_by_goal st goal_id rows, rows));
        mret (tool_result_json (json_array "results" (flat_map (action_result filter_ids) actions)))
  end.

(** ** save_plan_document *)

Definition execute_goap_save_plan_document (tc : ToolCall) : M ToolOutput :=
  match extract tc "goal_id", extract tc "plan_document" with
  | Some goal_id, Some plan_doc =>
      if negb (has_goal_store env) then mret (tool_result_set_error "Goal store not available")
      else
        rc ← on_goals (fun st now rows => goal_store_update_plan_document st now goal_id plan_doc rows);
        if rc =? 0 then mret (tool_result_json [(cs "goal_id", JString goal_id)])
        else mret (tool_result_set_error "Failed to save plan document")
  | _, _ => mret (tool_result_set_error "Missing required parameters: goal_id, plan_document")
  end.

(** ** The dispatch table *)

Definition GOAP_DISPATCH : list (cstr * (ToolCall -> M ToolOutput)) :=
  [(cs "get_goal", execute_goap_get_goal); (cs "list_actions", execute_goap_list_actions);
   (cs "create_goal", execute_goap_create_goal); (cs "create_actions", execute_goap_create_actions);
   (cs "update_action", execute_goap_update_action); (cs "dispatch_action", execute_goap_dispatch_action);
   (cs "update_world_state", execute_goap_update_world_state);
   (cs "check_complete", execute_goap_check_complete);
   (cs "get_action_results", execute_goap_get_action_results);
   (cs "save_plan_document", execute_goap_save_plan_document)].

Fixpoint find_handler {H : Type} (table : list (cstr * H)) (operation : cstr) : option H :=
  match table with
  | [] => None
  | (name, handler) :: table' => if streq operation name then Some handler else find_handler table' operation
  end.

(** For the handlers of any tool, in the monad they run in. *)
Definition dispatch_by_operation {F : Type -> Type} {Ret : MRet F}
    (tc : ToolCall) (table : list (cstr * (ToolCall -> F ToolOutput))) : F ToolOutput :=
  match extract tc "operation" with
  | None => mret (tool_result_set_error "Missing required parameter: operation")
  | Some operation =>
      match find_handler table operation with
      | Some handler => handler tc
      | None =>
          let errbuf := take 255 (cs "Unknown operation: " ++ operation) in
          mret (set_error_text errbuf)
      end
  end.

Definition execute_goap_dispatch (tc : ToolCall) : M ToolOutput := dispatch_by_operation tc GOAP_DISPATCH.
End Tools.
