(* ===== verification/GoapFacts.v ===== *)
(** * What the planning tool does to the tables

    Invariants of every operation by a small program logic for the world monad,
    and the functional behaviour of dispatching actions and of asserting facts. *)

From S2P Require Import Prelude CString Json ToolArgs Sql WorkQueue GoapState ActionStore GoalStore ParamExtract GoapTools.
Local Open Scope bool_scope.
Local Open Scope Z_scope.

(** ** Invariants *)

Record world_ok (w : World) : Prop := {
  world_goals : goals_ok (w_goals w);
  world_actions : actions_ok (w_actions w);
  world_items : items_ok (w_items w)
}.

(** A computation that keeps a property of the world. *)
Definition keeps {A} (I : World -> Prop) (m : M A) : Prop := forall w, I w -> I (m w).2.

Section Keeps.
Context {I : World -> Prop}.

Lemma keeps_ret {A} (x : A) : keeps I (mret x).
Proof. by intros w H. Qed.

Lemma keeps_bind {A B} (m : M A) (k : A -> M B) :
  keeps I m -> (forall x, keeps I (k x)) -> keeps I (m ≫= k).
Proof.
  intros Hm Hk w H. unfold mbind, M_bind. specialize (Hm w H).
  destruct (m w) as [x w']. by apply Hk.
Qed.

End Keeps.

Lemma keeps_on_goals {A} (f : Stmt -> Z -> list GoalRow -> A * list GoalRow) :
  (forall st now rows, goals_ok rows -> goals_ok (f st now rows).2) -> keeps world_ok (on_goals f).
Proof.
  intros Hf w []. unfold on_goals. specialize (Hf (next_stmt w) (w_now w) (w_goals w)).
  destruct (f _ _ _) as [x rows]. split; cbn; auto.
Qed.

Lemma keeps_on_actions {A} (f : Stmt -> Z -> list ActionRow -> A * list ActionRow) :
  (forall st now rows, actions_ok rows -> actions_ok (f st now rows).2) -> keeps world_ok (on_actions f).
Proof.
  intros Hf w []. unfold on_actions. specialize (Hf (next_stmt w) (w_now w) (w_actions w)).
  destruct (f _ _ _) as [x rows]. split; cbn; auto.
Qed.

Lemma keeps_on_items {A} (f : Stmt -> Z -> list WorkItemRow -> A * list WorkItemRow) :
  (forall st now rows, items_ok rows -> items_ok (f st now rows).2) -> keeps world_ok (on_items f).
Proof.
  intros Hf w []. unfold on_items. specialize (Hf (next_stmt w) (w_now w) (w_items w)).
  destruct (f _ _ _) as [x rows]. split; cbn; auto.
Qed.

Lemma keeps_uuid : keeps world_ok uuid_generate_v4.
Proof. by intros w []. Qed.

Lemma goal_insert_ok st now uuid name desc gs q rows :
  goals_ok rows -> goals_ok (goal_store_insert st now uuid name desc gs q rows).2.
Proof.
  intros [Hr Hi]. unfold goal_store_insert. destruct uuid as [id|]; [|by split]. destruct st; try by split.
  destruct (insert_row _ _ _) as [rows'|] eqn:E; [|by split]. apply insert_row_Some in E as [Hnew ->].
  cbn. split.
  - apply Forall_app. split; [done|]. apply Forall_singleton. cbn. lia.
  - rewrite map_app. apply NoDup_app. split_and!; [done| |apply NoDup_singleton].
    intros x Hx. cbn. rewrite list_elem_of_singleton. intros ->.
    apply list_elem_of_In, in_map_iff in Hx as (r & Hid & Hin). apply list_elem_of_In, Hnew in Hin.
    unfold same_goal in Hin. cbn in Hin. apply streq_false in Hin. congruence.
Qed.

Lemma goal_status_ok st now id s rows :
  known_goal_status s -> goals_ok rows -> goals_ok (goal_store_update_status st now id s rows).2.
Proof. intros Hs Hok. apply update_goal_ok; try done. intros r _. destruct s; cbn; try done; lia. Qed.

Lemma goal_world_ok st now id ws rows :
  goals_ok rows -> goals_ok (goal_store_update_world_state st now id ws rows).2.
Proof. intros Hok. destruct ws; [|done]. by apply update_goal_ok. Qed.

Lemma goal_summary_ok st now id t rows :
  goals_ok rows -> goals_ok (goal_store_update_summary st now id t rows).2.
Proof. intros Hok. by apply update_goal_ok. Qed.

Lemma goal_plan_ok st now id t rows :
  goals_ok rows -> goals_ok (goal_store_update_plan_document st now id t rows).2.
Proof. intros Hok. by apply update_goal_ok. Qed.

Lemma goal_supervisor_ok st now id pid t rows :
  - 2 ^ 31 <= pid < 2 ^ 31 -> goals_ok rows -> goals_ok (goal_store_update_supervisor st now id pid t rows).2.
Proof. intros Hp Hok. by apply update_goal_ok. Qed.

#[export] Hint Resolve goal_insert_ok goal_status_ok goal_world_ok goal_summary_ok goal_plan_ok
  goal_supervisor_ok : scaffold.

Lemma status_from_string_known t : known_status (action_status_from_string t).
Proof. destruct t; [|done]. cbn. by repeat case_match. Qed.
#[export] Hint Resolve status_from_string_known : scaffold.

(** One step of a proof that a computation keeps the invariant. *)
Ltac keeps_step :=
  lazymatch goal with
  | |- keeps _ (mbind _ _) => apply keeps_bind; [|intros ?]
  | |- keeps _ (mret _) => apply keeps_ret
  | |- keeps _ (match ?x with _ => _ end) => destruct x
  | |- keeps _ (on_goals _) => apply keeps_on_goals; intros ?? ??; try done; auto with scaffold
  | |- keeps _ (on_actions _) => apply keeps_on_actions; intros ?? ??; try done; auto with scaffold
  | |- keeps _ (on_items _) => apply keeps_on_items; intros ?? ??; try done; auto with scaffold
  | |- keeps _ uuid_generate_v4 => apply keeps_uuid
  | |- keeps _ _ => progress cbv zeta
  end.

Section ToolsKeep.
Context {DB : Sqlite} {DBS : SqliteSpec DB} {J : CJson} (env : GoapEnv).

Lemma get_goal_keeps id : keeps world_ok (get_goal id).
Proof using Type. unfold get_goal. repeat keeps_step. Qed.

Lemma insert_action_keeps goal_id item : keeps world_ok (insert_action goal_id item).
Proof using Type. unfold insert_action. repeat keeps_step. Qed.

Lemma insert_actions_keeps goal_id items : keeps world_ok (insert_actions goal_id items).
Proof using Type.
  induction items as [|item items IH]; cbn [insert_actions]; [apply keeps_ret|].
  apply keeps_bind; [apply insert_action_keeps|]. intros id. apply keeps_bind; [done|]. intros. apply keeps_ret.
Qed.

Lemma remove_item_keeps q id : keeps world_ok (remove_item q id).
Proof using Type. unfold remove_item. repeat keeps_step. Qed.

Lemma build_work_context_keeps goal action : keeps world_ok (build_work_context goal action).
Proof using Type. unfold build_work_context. repeat keeps_step. Qed.

Lemma spawn_worker_keeps aid a goal q id : keeps world_ok (spawn_worker env aid a goal q id).
Proof using Type.
  unfold spawn_worker. cbv zeta. destruct (executable_path env).
  - destruct (if has_subagent_manager env then _ else _) as [rc sid].
    repeat keeps_step; apply remove_item_keeps || (apply update_status_ok; done) || auto with scaffold.
  - repeat keeps_step. apply remove_item_keeps.
Qed.

Lemma dispatch_action_keeps tc : keeps world_ok (execute_goap_dispatch_action env tc).
Proof using DBS.
  unfold execute_goap_dispatch_action. repeat (keeps_step || apply get_goal_keeps || apply build_work_context_keeps
    || apply spawn_worker_keeps). by apply enqueue_items_ok.
Qed.

Lemma create_goal_keeps tc : keeps world_ok (execute_goap_create_goal env tc).
Proof using Type.
  unfold execute_goap_create_goal. repeat keeps_step. by apply goal_status_ok.
Qed.

Lemma create_actions_keeps tc : keeps world_ok (execute_goap_create_actions env tc).
Proof using Type.
  unfold execute_goap_create_actions. repeat (keeps_step || apply insert_actions_keeps).
Qed.

Lemma update_action_keeps tc : keeps world_ok (execute_goap_update_action env tc).
Proof using Type.
  unfold execute_goap_update_action. repeat keeps_step.
Qed.

Lemma store_world_state_keeps id ws summary : keeps world_ok (store_world_state id ws summary).
Proof using Type. unfold store_world_state. repeat keeps_step. Qed.

Lemma update_world_state_keeps tc : keeps world_ok (execute_goap_update_world_state env tc).
Proof using Type.
  unfold execute_goap_update_world_state.
  repeat (keeps_step || apply get_goal_keeps || apply store_world_state_keeps).
Qed.
End ToolsKeep.

(** C37: Invariant: every call of the planning tool, whatever its arguments and
    whichever of its statements fail, leaves the goals, the actions and the work
    items well formed: unique ids, statuses of the enumerations, parents that
    exist, attempts within bounds. *)
Theorem goap_tool_keeps_tables {DB : Sqlite} {DBS : SqliteSpec DB} {J : CJson} env tc w :
  world_ok w -> world_ok (execute_goap_dispatch env tc w).2.
Proof.
  revert w. change (keeps world_ok (execute_goap_dispatch env tc)).
  unfold execute_goap_dispatch, dispatch_by_operation. destruct (extract tc "operation") as [op|]; [|apply keeps_ret].
  destruct (find_handler (GOAP_DISPATCH env) op) as [handler|] eqn:E; [|apply keeps_ret].
  assert (forall (table : list (cstr * (ToolCall -> M ToolOutput))) h,
    Forall (fun e => keeps world_ok (e.2 tc)) table ->
    find_handler table op = Some h -> keeps world_ok (h tc)) as Htable.
  { induction 1 as [|[name f] table Hf _ IH]; cbn; [done|]. case_match; [by intros [= <-]|done]. }
  apply Htable in E; [done|]. unfold GOAP_DISPATCH.
  repeat (apply Forall_cons_2; cbn [snd]); [..|by apply Forall_nil_2].
  - unfold execute_goap_get_goal. repeat (keeps_step || apply get_goal_keeps).
  - unfold execute_goap_list_actions. repeat keeps_step.
  - apply create_goal_keeps.
  - apply create_actions_keeps.
  - apply update_action_keeps.
  - apply dispatch_action_keeps.
  - apply update_world_state_keeps.
  - unfold execute_goap_check_complete. repeat (keeps_step || apply get_goal_keeps).
  - unfold execute_goap_get_action_results. repeat keeps_step.
  - unfold execute_goap_save_plan_document. repeat keeps_step.
Qed.

(** ** Worlds whose statements succeed *)

Definition calm (w : World) : Prop := w_stmts w = [].

(** A world with other tables. *)
Definition with_actions (w : World) rows := mkWorld (w_goals w) rows (w_items w) [] (w_uuids w) (w_now w).
Definition with_items (w : World) rows := mkWorld (w_goals w) (w_actions w) rows [] (w_uuids w) (w_now w).

Lemma bind_run {A B} (m : M A) (k : A -> M B) w x w' : m w = (x, w') -> (m ≫= k) w = k x w'.
Proof. intros E. unfold mbind, M_bind. by rewrite E. Qed.

(** Two worlds with the same tables, time and outcomes of statements. *)
Definition same_tables (w w' : World) : Prop :=
  w_goals w' = w_goals w /\ w_actions w' = w_actions w /\ w_items w' = w_items w /\
  w_now w' = w_now w /\ w_stmts w' = [].

Lemma same_tables_refl w : calm w -> same_tables w w.
Proof. intros H. by split_and!. Qed.

Lemma same_tables_trans w1 w2 w3 : same_tables w1 w2 -> same_tables w2 w3 -> same_tables w1 w3.
Proof. intros (E1 & E2 & E3 & E4 & _) (F1 & F2 & F3 & F4 & F5). split_and!; congruence. Qed.

(** Reading a table changes nothing. *)
Lemma read_actions_run {A} (f : Stmt -> list ActionRow -> A) w :
  calm w -> exists w', on_actions (fun st _ rows => (f st rows, rows)) w = (f StmtOk (w_actions w), w') /\
    same_tables w w' /\ w_uuids w' = w_uuids w.
Proof.
  intros Hc. unfold on_actions, next_stmt. rewrite Hc. eexists. split; [done|]. by split_and!.
Qed.

Lemma read_goals_run {A} (f : Stmt -> list GoalRow -> A) w :
  calm w -> exists w', on_goals (fun st _ rows => (f st rows, rows)) w = (f StmtOk (w_goals w), w') /\
    same_tables w w' /\ w_uuids w' = w_uuids w.
Proof.
  intros Hc. unfold on_goals, next_stmt. rewrite Hc. eexists. split; [done|]. by split_and!.
Qed.

Section Dispatch.
Context {DB : Sqlite} {DBS : SqliteSpec DB} {J : CJson} (env : GoapEnv).

(** Every generated id fits the buffers of 40 characters. *)
Definition uuids_fit (w : World) : Prop :=
  forall id, Some id ∈ w_uuids w -> (length id <= 39)%nat.

Definition running_row (now : Z) (item : cstr) (r : ActionRow) : ActionRow :=
  set_work_item item now (set_status ACTION_STATUS_RUNNING now None r).

Lemma build_work_context_run goal action w :
  calm w -> exists ctx w', build_work_context goal action w = (ctx, w') /\ same_tables w w' /\
    w_uuids w' = w_uuids w.
Proof using Type.
  intros Hc. unfold build_work_context.
  assert (forall (k : list (cstr * cJSON) -> M (option cstr)),
    (forall l w', exists ctx, k l w' = (ctx, w')) -> forall m : M (list (cstr * cJSON)),
    (exists l w', m w = (l, w') /\ same_tables w w' /\ w_uuids w' = w_uuids w) ->
    exists ctx w', (m ≫= k) w = (ctx, w') /\ same_tables w w' /\ w_uuids w' = w_uuids w) as Hk.
  { intros k Hk m (l & w' & E & H). rewrite (bind_run _ _ _ _ _ E). destruct (Hk l w') as [ctx ->]. eauto. }
  apply Hk; [intros l w'; by eexists|].
  destruct (a_preconditions action ≫= cJSON_Parse) as [[| | | |[|p ps]|]|];
    try (eexists _, _; split; [done|]; split; [by apply same_tables_refl|done]).
  destruct (read_actions_run (fun st rows => action_store_list_by_goal st (a_goal_id action) rows) w Hc)
    as (w' & E & H). eexists _, w'. by rewrite (bind_run _ _ _ _ _ E).
Qed.

(** The end of a dispatch: the worker runs, or the tables are as before the item
    was enqueued. *)
Lemma spawn_worker_run action_id action goal queue item rows row w :
  calm w -> w_items w = rows ++ [row] -> row_id row = item -> row_queue_name row = queue ->
  (forall r, r ∈ rows -> row_id r <> item) ->
  exists out w', spawn_worker env action_id action goal queue item w = (out, w') /\ w_goals w' = w_goals w /\
    if out.2 : bool
    then w_items w' = rows ++ [row] /\
         w_actions w' = update_where (is_action action_id) (running_row (w_now w) item) (w_actions w)
    else w_items w' = rows /\ w_actions w' = w_actions w.
Proof using Type.
  intros Hc Hi Hid Hq Hnew.
  assert (delete_where (is_item queue item) (rows ++ [row]) = rows) as Hdel.
  { unfold delete_where. rewrite List.filter_app. cbn.
    assert (is_item queue item row = true) as -> by (by apply is_item_true).
    rewrite app_nil_r. apply delete_where_none. intros r Hr. apply not_true_is_false.
    intros [E _]%is_item_true. by apply (Hnew r). }
  assert (exists w', remove_item queue item w = (0, w') /\ w_goals w' = w_goals w /\
            w_items w' = rows /\ w_actions w' = w_actions w) as (wr & Er & Hr1 & Hr2 & Hr3).
  { unfold remove_item, on_items, next_stmt. rewrite Hc, Hi. cbn [work_queue_remove].
    rewrite Hdel.
    assert (0 < count_where (is_item queue item) (rows ++ [row])) as Hpos.
    { apply count_where_pos. exists row. rewrite elem_of_app, list_elem_of_singleton, is_item_true. auto. }
    apply Z.ltb_lt in Hpos. rewrite Hpos. eexists. split; [reflexivity|done]. }
  unfold spawn_worker. destruct (executable_path env) as [exe|].
  2: { eexists _, wr. rewrite (bind_run _ _ _ _ _ Er). by split_and!. }
  destruct (if has_subagent_manager env then _ else _) as [rc sid].
  destruct (negb (rc =? 0)); [eexists _, wr; rewrite (bind_run _ _ _ _ _ Er); by split_and!|].
  unfold mbind, M_bind, on_actions, next_stmt. rewrite Hc. cbn [tail w_stmts].
  eexists _, _. split; [reflexivity|]. cbn. split_and!; [done|done|].
  exact (update_where_twice (is_action action_id) (set_status ACTION_STATUS_RUNNING (w_now w) None)
           (set_work_item item (w_now w)) (w_actions w) (fun r => eq_refl)).
Qed.

(** The states a dispatch can end in. *)
Record dispatched (tc : ToolCall) (w w' : World) (id item : cstr) (r : ActionRow) (g : Goal) (row : WorkItemRow)
  : Prop := {
  dispatched_id : extract tc "action_id" = Some id;
  dispatched_row : r ∈ w_actions w /\ ar_id r = id;
  dispatched_ready : ar_status r = 0 /\ ar_is_compound r = 0;
  dispatched_goal : goal_store_get StmtOk (take 39 (ar_goal_id r)) (w_goals w) = Some g;
  dispatched_capacity :
    count_where (fun r' => of_goal (take 39 (ar_goal_id r)) r' && has_status ACTION_STATUS_RUNNING r')
      (w_actions w) < max_workers_per_goal env;
  dispatched_item : row_id row = item /\ row_queue_name row = g_queue_name g /\ row_status row = 0 /\
    row_attempt_count row = 0 /\ row_max_attempts row = 3 /\ row_task_description row = ar_description r;
  dispatched_items : w_items w' = w_items w ++ [row];
  dispatched_actions : w_actions w' = update_where (is_action id) (running_row (w_now w) item) (w_actions w)
}.

Lemma work_queue_create_name opens n q : work_queue_create opens (Some n) = Some q -> q = n.
Proof using Type.
  unfold work_queue_create. destruct (Nat.eqb_spec (length n) 0); [done|].
  destruct (Nat.leb_spec 64 (length n)); [done|]. cbn. destruct opens; [|done]. intros [= <-].
  apply firstn_all2. lia.
Qed.

Lemma row_get st id rows a :
  action_store_get st id rows = Some a -> exists r, r ∈ rows /\ ar_id r = id /\ map_action r = Some a.
Proof using Type.
  unfold action_store_get, sqlite_dal_query_one_p. destruct (returned _ _) as [|r l] eqn:E; [done|].
  apply returned_head in E as [l' E]. intros H. exists r.
  assert (r ∈ select_where (is_action id) rows) as Hr by (rewrite E; left).
  apply elem_of_select in Hr as [Hr Hi%is_action_true]. done.
Qed.

(** The enqueueing of the item. *)
Lemma enqueue_run q desc ctx w :
  calm w -> uuids_fit w ->
  exists w1, uuid_generate_v4 w = (match w_uuids w with u :: _ => u | [] => None end, w1) /\ same_tables w w1 /\
  exists res w', on_items (fun st now rows =>
      work_queue_enqueue st now (match w_uuids w with u :: _ => u | [] => None end) q desc ctx 3 rows) w1 = (res, w') /\
    w_goals w' = w_goals w /\ w_actions w' = w_actions w /\ w_now w' = w_now w /\ calm w' /\
    ((res.1 = -1 /\ w_items w' = w_items w) \/
     exists row, res = (0, Some (row_id row)) /\ w_items w' = w_items w ++ [row] /\
       (forall r, r ∈ w_items w -> row_id r <> row_id row) /\
       row_queue_name row = q /\ row_status row = 0 /\ row_attempt_count row = 0 /\ row_max_attempts row = 3 /\
       row_task_description row = desc).
Proof using Type.
  intros Hc Hfit. unfold uuid_generate_v4. eexists. split; [reflexivity|]. split; [by split_and!|].
  unfold on_items, next_stmt. cbn [w_stmts w_now w_items w_goals w_actions w_uuids]. rewrite Hc.
  destruct (w_uuids w) as [|[id|] us] eqn:Eu;
    try (eexists _, _; split; [reflexivity|]; split_and!; try done; by left).
  cbn [work_queue_enqueue]. destruct (insert_row _ _ _) as [rows'|] eqn:E.
  - apply insert_row_Some in E as [Hnew ->]. eexists _, _. split; [reflexivity|]. split_and!; try done.
    right. eexists. split; [|split; [reflexivity|]].
    + cbn. f_equal. f_equal. apply firstn_all2, Hfit. rewrite Eu. left.
    + cbn. split_and!; try done. intros r Hr Eq. apply Hnew in Hr. unfold same_id in Hr. cbn in Hr.
      apply streq_false in Hr. congruence.
  - eexists _, _. split; [reflexivity|]. split_and!; try done. by left.
Qed.

(** What a dispatch leaves. *)
Definition dispatch_post (tc : ToolCall) (w : World) (res : ToolOutput * World) : Prop :=
  w_goals res.2 = w_goals w /\
  if res.1.2 then exists id item r g row, dispatched tc w res.2 id item r g row
  else w_actions res.2 = w_actions w /\ w_items res.2 = w_items w.

Lemma failed_dispatch tc msg w w0 :
  same_tables w0 w -> dispatch_post tc w0 ((mret (tool_result_set_error msg) : M ToolOutput) w).
Proof using Type. by intros (E1 & E2 & E3 & _). Qed.

(** From the moment the queue is open. *)
Lemma dispatch_enqueue tc w0 w id r g action ctx :
  same_tables w0 w -> w_uuids w = w_uuids w0 -> uuids_fit w0 ->
  extract tc "action_id" = Some id -> r ∈ w_actions w0 -> ar_id r = id -> map_action r = Some action ->
  ar_status r = 0 -> ar_is_compound r = 0 ->
  goal_store_get StmtOk (take 39 (ar_goal_id r)) (w_goals w0) = Some g ->
  count_where (fun r' => of_goal (take 39 (ar_goal_id r)) r' && has_status ACTION_STATUS_RUNNING r')
      (w_actions w0) < max_workers_per_goal env ->
  dispatch_post tc w0
    ((uuid ← uuid_generate_v4;
      enqueued ← on_items (fun st now rows =>
        work_queue_enqueue st now uuid (g_queue_name g) (ar_description r) ctx 3 rows);
      match enqueued with
      | (0, Some work_item_id) => spawn_worker env id action g (g_queue_name g) work_item_id
      | _ => mret (tool_result_set_error "Failed to enqueue work item")
      end) w).
Proof using DBS.
  intros (S1 & S2 & S3 & S4 & Hc) Hu Hfit Hid Hr Hrid Ha Hs Hcomp Hg Hcap.
  destruct (enqueue_run (g_queue_name g) (ar_description r) ctx w Hc) as (w1 & E1 & _ & res & w2 & E2 & G2 & A2 & N2 & C2 & Hres).
  { intros x Hx. apply Hfit. by rewrite <- Hu. }
  rewrite (bind_run _ _ _ _ _ E1), (bind_run _ _ _ _ _ E2).
  destruct Hres as [[Hrc Hi]|(row & -> & Hi & Hnew & Hq & Hst & Hat & Hmax & Hd)].
  - destruct res as [rc [item|]]; cbn in Hrc; subst rc; (split; [cbn; congruence|]); split; cbn; congruence.
  - destruct (spawn_worker_run id action g (g_queue_name g) (row_id row) (w_items w) row w2 C2 Hi eq_refl Hq Hnew)
      as (out & w3 & -> & G3 & Hpost).
    split; [cbn; congruence|]. destruct out as [txt [|]]; cbn [fst snd] in *; destruct Hpost as [P1 P2].
    + exists id, (row_id row), r, g, row. rewrite N2, S4, A2, S2 in P2. rewrite S3 in P1.
      by split.
    + split; congruence.
Qed.

Lemma dispatch_run tc w :
  calm w -> uuids_fit w -> Z.of_nat (length (w_actions w)) < 2 ^ 31 ->
  Forall (fun r => 0 <= ar_status r <= 4 /\ (ar_is_compound r = 0 \/ ar_is_compound r = 1)) (w_actions w) ->
  dispatch_post tc w (execute_goap_dispatch_action env tc w).
Proof using DBS.
  intros Hc Hfit Hlen Hok. pose proof (same_tables_refl w Hc) as Hsame.
  unfold execute_goap_dispatch_action. destruct (extract tc "action_id") as [id|] eqn:Hid; [|by apply failed_dispatch].
  destruct (negb _); [by apply failed_dispatch|].
  destruct (read_actions_run (fun st rows => action_store_get st id rows) w Hc) as (w1 & E1 & S1 & U1).
  rewrite (bind_run _ _ _ _ _ E1).
  destruct (action_store_get StmtOk id (w_actions w)) as [action|] eqn:Ea; [|by apply failed_dispatch].
  apply row_get in Ea as (r & Hr & Hrid & Ha). rewrite Forall_forall in Hok. specialize (Hok r Hr) as [Hst Hcomp].
  injection Ha as Ha. destruct (a_is_compound action) eqn:Ec; [by apply failed_dispatch|].
  destruct (negb (bool_decide _)) eqn:Ep; [by apply failed_dispatch|].
  apply negb_false_iff, bool_decide_eq_true in Ep.
  assert (ar_is_compound r = 0) as Hcomp0.
  { subst action. cbn in Ec. apply negb_false_iff, Z.eqb_eq in Ec. unfold column_int in Ec.
    rewrite wrap32_small in Ec by lia. done. }
  assert (ar_status r = 0) as Hst0.
  { subst action. cbn in Ep. unfold column_int in Ep. rewrite wrap32_small in Ep by lia.
    rewrite <- (status_code_action_status (ar_status r)), Ep. done. }
  assert (a_goal_id action = take 39 (ar_goal_id r)) as Hgid by by subst action.
  assert (calm w1) as C1 by apply S1.
  destruct (read_actions_run (fun st rows => action_store_count_by_status st (a_goal_id action) ACTION_STATUS_RUNNING rows)
    w1 C1) as (w2 & E2 & S2 & U2). rewrite (bind_run _ _ _ _ _ E2).
  destruct (Z.leb_spec (max_workers_per_goal env)
    (action_store_count_by_status StmtOk (a_goal_id action) ACTION_STATUS_RUNNING (w_actions w1))) as [|Hcap];
    [apply failed_dispatch; by eapply same_tables_trans|].
  pose proof S1 as (G1 & A1 & _). rewrite A1 in Hcap. cbn [action_store_count_by_status] in Hcap.
  pose proof (same_tables_trans _ _ _ S1 S2) as S02. assert (calm w2) as C2 by apply S02.
  destruct (read_goals_run (fun st rows => goal_store_get st (a_goal_id action) rows) w2 C2) as (w3 & E3 & S3 & U3).
  unfold get_goal. rewrite (bind_run _ _ _ _ _ E3). pose proof (same_tables_trans _ _ _ S02 S3) as S03.
  destruct (goal_store_get StmtOk (a_goal_id action) (w_goals w2)) as [g|] eqn:Eg; [|by apply failed_dispatch].
  assert (calm w3) as C3 by apply S03.
  destruct (build_work_context_run g action w3 C3) as (ctx & w4 & E4 & S4 & U4). rewrite (bind_run _ _ _ _ _ E4).
  pose proof (same_tables_trans _ _ _ S03 S4) as S04.
  destruct (work_queue_create _ _) as [q|] eqn:Eq; [|by apply failed_dispatch].
  apply work_queue_create_name in Eq as ->.
  assert (a_description action = Some (ar_description r)) as -> by by subst action.
  apply dispatch_enqueue with (r := r); try done; [congruence|by rewrite <- Ha| |].
  - pose proof S02 as (G2 & _). by rewrite <- Hgid, <- G2.
  - rewrite <- Hgid. eapply Z.le_lt_trans; [|exact Hcap]. unfold column_int.
    rewrite wrap32_small; [done|]. unfold count_where.
    pose proof (filter_length_le (fun r' => of_goal (a_goal_id action) r' && has_status ACTION_STATUS_RUNNING r') (w_actions w)).
    unfold select_where. lia.
Qed.
End Dispatch.

(** C17: A dispatch happens completely or not at all: when the statements
    succeed, a refused or failed dispatch (unknown, compound or non-pending
    action, no capacity, no queue, no executable, no worker) leaves the tables as
    they were, the item already enqueued being taken back; a successful one adds
    exactly one fresh item with the action's description to the goal's queue and
    marks exactly this action as running with that item. *)
Theorem dispatch_all_or_nothing {DB : Sqlite} {DBS : SqliteSpec DB} {J : CJson} env tc w :
  calm w -> uuids_fit w -> world_ok w -> Z.of_nat (length (w_actions w)) < 2 ^ 31 ->
  let '(out, w') := execute_goap_dispatch_action env tc w in
  w_goals w' = w_goals w /\
  if out.2 then exists id item r g row, dispatched env tc w w' id item r g row
  else w_actions w' = w_actions w /\ w_items w' = w_items w.
Proof.
  intros Hc Hf Hok Hlen.
  assert (dispatch_post env tc w (execute_goap_dispatch_action env tc w)) as [H1 H2].
  { apply dispatch_run; try done. eapply Forall_impl; [apply Hok|]. by intros r []. }
  by destruct (execute_goap_dispatch_action env tc w) as [out w'].
Qed.

Lemma running_count_after (rows : list ActionRow) gid gid' id item now r :
  NoDup (map ar_id rows) -> r ∈ rows -> ar_id r = id -> ar_goal_id r = gid -> ar_status r = 0 ->
  count_where (fun r => of_goal gid' r && has_status ACTION_STATUS_RUNNING r)
    (update_where (is_action id) (running_row now item) rows) =
  count_where (fun r => of_goal gid' r && has_status ACTION_STATUS_RUNNING r) rows +
  (if streq gid gid' then 1 else 0).
Proof.
  intros Hd Hr Hid Hg Hs. set (p := fun r => of_goal gid' r && has_status ACTION_STATUS_RUNNING r).
  induction rows as [|x rows IH]; [by apply not_elem_of_nil in Hr|].
  cbn [map] in Hd. apply NoDup_cons in Hd as [Hn Hd].
  cbn [update_where map]. fold (update_where (is_action id) (running_row now item) rows).
  rewrite !count_where_cons. apply elem_of_cons in Hr as [<- | Hr].
  - rewrite (proj2 (is_action_true id r) Hid).
    rewrite update_where_none.
    + unfold p, of_goal, has_status. cbn [ar_goal_id running_row set_work_item set_status ar_status status_code].
      rewrite Hg, Hs. destruct (streq gid gid'); cbn [andb Z.eqb Pos.eqb]; lia.
    + intros y Hy. apply not_true_is_false. intros E%is_action_true. apply Hn. rewrite Hid, <- E.
      apply list_elem_of_In, in_map, list_elem_of_In, Hy.
  - rewrite (IH Hd Hr). assert (is_action id x = false) as ->; [|lia].
    apply not_true_is_false. intros E%is_action_true. apply Hn. rewrite E, <- Hid.
    apply list_elem_of_In, in_map, list_elem_of_In, Hr.
Qed.

(** The capacity of a goal: a dispatch never takes the number of running
    actions of any goal beyond the configured maximum (nor raises a number that
    is already beyond it), and it raises the number only for the goal of the
    dispatched action. *)
Theorem dispatch_respects_capacity {DB : Sqlite} {DBS : SqliteSpec DB} {J : CJson} env tc w gid :
  calm w -> uuids_fit w -> world_ok w -> Z.of_nat (length (w_actions w)) < 2 ^ 31 ->
  Forall (fun r => (length (ar_goal_id r) <= 39)%nat) (w_actions w) ->
  let running w := count_where (fun r => of_goal gid r && has_status ACTION_STATUS_RUNNING r) (w_actions w) in
  let w' := (execute_goap_dispatch_action env tc w).2 in
  running w' <= Z.max (running w) (max_workers_per_goal env).
Proof.
  intros Hc Hf Hok Hlen Hids running w'.
  assert (dispatch_post env tc w (execute_goap_dispatch_action env tc w)) as [_ H2].
  { apply dispatch_run; try done. eapply Forall_impl; [apply Hok|]. by intros r []. }
  subst w'. destruct (execute_goap_dispatch_action env tc w) as [[txt [|]] w']; cbn [fst snd] in *.
  - destruct H2 as (id & item & r & g & row & [_ [Hr Hrid] [Hs _] _ Hcap _ _ Ha]). subst running. cbn beta.
    rewrite Ha, (running_count_after _ (ar_goal_id r) gid id item _ r); try done; [|apply Hok].
    destruct (streq_spec (ar_goal_id r) gid) as [<-|]; [|lia].
    rewrite firstn_all2 in Hcap by (rewrite Forall_forall in Hids; by apply Hids). lia.
  - destruct H2 as [E _]. subst running. cbn beta. rewrite E. lia.
Qed.

(** ** Asserting facts *)

Section Assertions.
Context {J : CJson} {JS : CJsonSpec J}.

Lemma find_remove_member l k k' :
  strcaseeq k k' = false -> find_member (remove_member l k) k' = find_member l k'.
Proof using Type.
  intros H. induction l as [|[k0 v] l IH]; [done|]. cbn [remove_member find_member].
  destruct (strcaseeq k0 k) eqn:E; [|cbn [find_member]; by rewrite IH].
  assert (strcaseeq k0 k' = false) as ->; [|done].
  apply not_true_is_false. intros E2. apply strcaseeq_true in E, E2.
  assert (strcaseeq k k' = true); [|congruence]. apply strcaseeq_true. congruence.
Qed.

Lemma find_member_app l l' k :
  find_member (l ++ l') k = match find_member l k with Some v => Some v | None => find_member l' k end.
Proof using Type. induction l as [|[k0 v] l IH]; cbn [app find_member]; [done|]. by destruct (strcaseeq k0 k). Qed.

(** At most one member per key, case ignored: what keeps "remove the first and
    append" an assignment. *)
Definition unique_keys (l : list (cstr * cJSON)) : Prop := NoDup (map (fun m => lower m.1) l).

Lemma remove_member_In l k m : m ∈ remove_member l k -> m ∈ l.
Proof using Type.
  induction l as [|[k0 v] l IH]; [done|]. cbn [remove_member]. case_match; rewrite ?elem_of_cons; naive_solver.
Qed.

Lemma find_removed l k : unique_keys l -> find_member (remove_member l k) k = None.
Proof using Type.
  unfold unique_keys. induction l as [|[k0 v] l IH]; [done|]. cbn [map fst]. rewrite NoDup_cons. intros [Hn Hd].
  cbn [remove_member]. destruct (strcaseeq k0 k) eqn:E; [|cbn [find_member]; rewrite E; auto].
  apply strcaseeq_true in E. clear IH Hd. induction l as [|[k1 v1] l IH]; [done|]. cbn [find_member].
  destruct (strcaseeq k1 k) eqn:E1; [|apply IH; cbn [map fst] in Hn; by rewrite elem_of_cons in Hn; auto].
  apply strcaseeq_true in E1. exfalso. apply Hn. cbn [map fst]. rewrite E, E1. left.
Qed.

Lemma unique_keys_assert l k v : unique_keys l -> unique_keys (remove_member l k ++ [(k, v)]).
Proof using Type.
  intros H. unfold unique_keys. rewrite map_app. apply NoDup_app. split_and!; [|..|apply NoDup_singleton].
  - unfold unique_keys in H. induction l as [|[k0 v0] l IH]; [done|]. cbn [map fst] in H.
    apply NoDup_cons in H as [Hn Hd]. cbn [remove_member]. case_match; [done|]. cbn [map fst].
    apply NoDup_cons. split; [|auto]. intros Hin. apply Hn.
    apply list_elem_of_In, in_map_iff in Hin as (m & E & Hm). rewrite <- E. apply list_elem_of_In, (in_map (fun m => lower m.1)).
    apply list_elem_of_In. eapply remove_member_In. by apply list_elem_of_In.
  - intros x Hx Hs. cbn in Hs. apply list_elem_of_singleton in Hs as ->.
    apply list_elem_of_In, in_map_iff in Hx as ([k1 v1] & E & Hm). cbn in E.
    apply list_elem_of_In in Hm. pose proof (find_removed l k H) as Hf. revert Hm Hf.
    generalize (remove_member l k). intros l'. induction l' as [|[k2 v2] l' IH]; [by intros ?%not_elem_of_nil|].
    cbn [find_member]. destruct (strcaseeq k2 k) eqn:E2; [done|]. intros [[= -> ->]|Hm]%elem_of_cons; [|auto].
    assert (strcaseeq k2 k = true); [|congruence]. by apply strcaseeq_true.
Qed.

(** The value that the assertions give a key: that of the last boolean member
    with this key, case ignored. *)
Fixpoint asserted (l : list (cstr * cJSON)) (k : cstr) : option bool :=
  match l with
  | [] => None
  | (k', v) :: l' =>
      match asserted l' k with
      | Some b => Some b
      | None => match v with JBool b => if strcaseeq k' k then Some b else None | _ => None end
      end
  end.

Lemma assert_members_spec l ws :
  unique_keys ws ->
  exists ws', foldl assert_member (JObject ws) (children (JObject l)) = JObject ws' /\ unique_keys ws' /\
    (forall n, Forall (fun m : cstr * cJSON => json_ok n m.2) ws -> Forall (fun m : cstr * cJSON => json_ok n m.2) ws') /\
    forall k, find_member ws' k =
      match asserted l k with Some b => Some (JBool b) | None => find_member ws k end.
Proof using JS.
  revert ws. induction l as [|[k v] l IH]; intros ws Hu; [by exists ws|].
  change (children (JObject ((k, v) :: l))) with ((Some k, v) :: children (JObject l)). cbn [foldl].
  assert (exists ws1, assert_member (JObject ws) (Some k, v) = JObject ws1 /\ unique_keys ws1 /\
    (forall n, Forall (fun m : cstr * cJSON => json_ok n m.2) ws -> Forall (fun m : cstr * cJSON => json_ok n m.2) ws1) /\
    forall k', find_member ws1 k' =
      match v with JBool b => if strcaseeq k k' then Some (JBool b) else find_member ws k' | _ => find_member ws k' end)
    as (ws1 & -> & Hu1 & Hok1 & Hf1).
  { destruct v as [|b| | | |]; try (by exists ws). cbn [assert_member default from_option]. change (id k) with k.
    rewrite delete_member, add_member. eexists. split; [reflexivity|]. split; [by apply unique_keys_assert|]. split.
    - intros n Hn. apply Forall_app. split; [|apply Forall_singleton; by destruct n].
      rewrite Forall_forall in *. intros m Hm. apply Hn. by eapply remove_member_In.
    - intros k'. rewrite find_member_app. cbn [find_member]. destruct (strcaseeq k k') eqn:E.
      + assert (find_member (remove_member ws k) k' = None) as ->; [|done].
        rewrite <- (find_removed ws k Hu). apply strcaseeq_true in E. generalize (remove_member ws k).
        intros l0. induction l0 as [|[k0 v0] l0 IH0]; [done|]. cbn [find_member]. rewrite IH0.
        assert (strcaseeq k0 k' = strcaseeq k0 k) as ->; [|done]. unfold strcaseeq. by rewrite E.
      + rewrite find_remove_member by done. by destruct (find_member ws k'). }
  destruct (IH ws1 Hu1) as (ws' & -> & Hu' & Hok' & Hf'). exists ws'. split_and!; try done; [by auto|].
  intros k'. rewrite Hf'. cbn [asserted]. destruct (asserted l k'); [done|]. rewrite Hf1. destruct v; try done.
  by case_match.
Qed.
End Assertions.

(** The update of a goal with a parsed world state, when nothing fails. *)
Section UpdateWorldState.
Context {DB : Sqlite} {J : CJson} {JS : CJsonSpec J} (env : GoapEnv).
Hypothesis print_total : forall j, json_ok CJSON_NESTING_LIMIT j -> is_Some (cJSON_PrintUnformatted j).

Lemma on_goals_run {A} (f : Stmt -> Z -> list GoalRow -> A * list GoalRow) w x rows :
  calm w -> f StmtOk (w_now w) (w_goals w) = (x, rows) ->
  exists w', on_goals f w = (x, w') /\ w_goals w' = rows /\ w_actions w' = w_actions w /\
    w_items w' = w_items w /\ w_now w' = w_now w /\ calm w'.
Proof using Type.
  intros Hc E. unfold on_goals, next_stmt. rewrite Hc, E. eexists. split; [reflexivity|]. by split_and!.
Qed.

(** The writing half. *)
Lemma store_world_state_run goal_id ws summary r w :
  goals_ok (w_goals w) -> calm w -> r ∈ w_goals w -> gr_id r = goal_id ->
  json_ok CJSON_NESTING_LIMIT (JObject ws) ->
  exists out w' r' t,
    store_world_state goal_id (JObject ws) summary w = (out, w') /\ out.2 = true /\
    w_actions w' = w_actions w /\ w_items w' = w_items w /\ calm w' /\ goals_ok (w_goals w') /\
    r' ∈ w_goals w' /\ gr_id r' = goal_id /\ gr_goal_state r' = gr_goal_state r /\
    gr_status r' = gr_status r /\ gr_world_state r' = Some t /\ cJSON_Parse t = Some (JObject ws) /\
    forall x, x ∈ w_goals w -> gr_id x <> goal_id -> x ∈ w_goals w'.
Proof using JS print_total.
  intros Hok Hc Hr Hrid Hws. destruct (print_total _ Hws) as [t Ht].
  destruct (print_document _ _ Hws Ht) as [Hback _].
  destruct (update_goal_row goal_id (set_world_state t (w_now w)) (w_goals w) r Hok Hr Hrid) as [Hupd Hin].
  set (r1 := set_world_state t (w_now w) r) in *.
  set (rows1 := update_where (is_goal goal_id) (set_world_state t (w_now w)) (w_goals w)) in *.
  destruct (on_goals_run (fun st now rows => goal_store_update_world_state st now goal_id (Some t) rows)
    w 0 rows1 Hc Hupd) as (w2 & E2 & G2 & A2 & I2 & N2 & C2).
  assert (goals_ok rows1) as Hok1.
  { pose proof (goal_world_ok StmtOk (w_now w) goal_id (Some t) (w_goals w) Hok) as H.
    unfold goal_store_update_world_state in H. by rewrite Hupd in H. }
  assert (forall f rows x, x ∈ rows -> gr_id x <> goal_id -> x ∈ update_where (is_goal goal_id) f rows) as Hothers.
  { intros f rows x Hx Hne. apply elem_of_update. exists x. split; [done|].
    assert (is_goal goal_id x = false) as ->; [|done]. by apply streq_false. }
  unfold store_world_state. rewrite Ht, (bind_run _ _ _ _ _ E2). cbn [Z.eqb negb].
  destruct summary as [summary|].
  - destruct (update_goal_row goal_id (set_summary summary (w_now w)) rows1 r1 Hok1 Hin Hrid) as [Hupd2 Hin2].
    destruct (on_goals_run (fun st now rows => goal_store_update_summary st now goal_id summary rows) w2 0
      (update_where (is_goal goal_id) (set_summary summary (w_now w)) rows1) C2)
      as (w3 & E3 & G3 & A3 & I3 & _ & C3); [rewrite G2, N2; exact Hupd2|].
    rewrite (bind_run _ _ _ _ _ E3). cbn [Z.eqb].
    eexists _, w3, (set_summary summary (w_now w) r1), t. split; [reflexivity|].
    rewrite G3. split_and!; try done; try congruence; [|intros x Hx Hne; apply Hothers; [by apply Hothers|done]].
    pose proof (goal_summary_ok StmtOk (w_now w) goal_id summary rows1 Hok1) as H.
    unfold goal_store_update_summary in H. by rewrite Hupd2 in H.
  - eexists _, w2, r1, t. split; [reflexivity|]. rewrite G2.
    split_and!; try done; try congruence. intros x Hx Hne. by apply Hothers.
Qed.

Lemma update_world_state_run tc w goal_id args l r text ws :
  goals_ok (w_goals w) -> calm w -> has_goal_store env = true ->
  extract tc "goal_id" = Some goal_id -> parse_arguments tc = Some args ->
  cJSON_GetObjectItem args (cs "assertions") = Some (JObject l) ->
  r ∈ w_goals w -> gr_id r = goal_id -> gr_world_state r = Some text ->
  cJSON_Parse text = Some (JObject ws) -> unique_keys ws ->
  Forall (fun m : cstr * cJSON => json_ok (pred CJSON_NESTING_LIMIT) m.2) ws ->
  exists out w' r' t ws',
    execute_goap_update_world_state env tc w = (out, w') /\ out.2 = true /\
    w_actions w' = w_actions w /\ w_items w' = w_items w /\ calm w' /\ goals_ok (w_goals w') /\
    r' ∈ w_goals w' /\ gr_id r' = goal_id /\ gr_goal_state r' = gr_goal_state r /\
    gr_status r' = gr_status r /\ gr_world_state r' = Some t /\ cJSON_Parse t = Some (JObject ws') /\
    (forall k, find_member ws' k = match asserted l k with Some b => Some (JBool b) | None => find_member ws k end) /\
    forall x, x ∈ w_goals w -> gr_id x <> goal_id -> x ∈ w_goals w'.
Proof using JS print_total.
  intros Hok Hc Hgs Hid Hargs Has Hr Hrid Htext Hparse Huniq Hj.
  destruct (assert_members_spec l ws Huniq) as (ws' & Hfold & _ & Hj' & Hfind).
  assert (json_ok CJSON_NESTING_LIMIT (JObject ws')) as Hws' by (apply object_ok; [apply Nat.lt_0_succ|by apply Hj']).
  assert (exists g, map_goal r = Some g /\ g_world_state g = Some text) as (g & Hg & Hgw) by (eexists; split; [reflexivity|done]).
  destruct (read_goals_run (fun st rows => goal_store_get st goal_id rows) w Hc) as (w1 & E1 & (G1 & A1 & I1 & N1 & C1) & _).
  rewrite <- Hrid, (goal_store_get_row _ r Hok Hr), Hrid, Hg in E1.
  unfold execute_goap_update_world_state. rewrite Hid, Hargs, Has, Hgs. cbn [cJSON_IsObject negb].
  unfold get_goal. rewrite (bind_run _ _ _ _ _ E1). cbn iota.
  unfold assert_world_state, current_world_state. rewrite Hgw, Hparse. cbn [default from_option].
  change (id (JObject ws)) with (JObject ws). rewrite Hfold.
  destruct (store_world_state_run goal_id ws' (get_string args "summary") r w1)
    as (out & w' & r' & t & E & H1 & H2 & H3 & H4 & H5 & H6 & H7 & H8 & H9 & H10 & H11 & H12);
    [by rewrite G1|done|by rewrite G1|done|done|].
  exists out, w', r', t, ws'. rewrite E. rewrite G1 in H12. split_and!; congruence || done.
Qed.
End UpdateWorldState.

(** Assertions take effect: when its statements succeed, a call of
    update_world_state on a goal whose world state is an object (with no two keys
    that differ in case only, and within the nesting limit) succeeds; the stored
    world state then maps every key asserted with a boolean to the last value
    asserted for it and every other key to its old value, and no other goal,
    action or item changes. *)
Theorem assertions_take_effect {DB : Sqlite} {J : CJson} {JS : CJsonSpec J} env tc w goal_id args l r text ws :
  (forall j, json_ok CJSON_NESTING_LIMIT j -> is_Some (cJSON_PrintUnformatted j)) ->
  goals_ok (w_goals w) -> calm w -> has_goal_store env = true ->
  extract tc "goal_id" = Some goal_id -> parse_arguments tc = Some args ->
  cJSON_GetObjectItem args (cs "assertions") = Some (JObject l) ->
  r ∈ w_goals w -> gr_id r = goal_id -> gr_world_state r = Some text ->
  cJSON_Parse text = Some (JObject ws) -> unique_keys ws ->
  Forall (fun m : cstr * cJSON => json_ok (pred CJSON_NESTING_LIMIT) m.2) ws ->
  exists out w' r' t ws',
    execute_goap_update_world_state env tc w = (out, w') /\ out.2 = true /\
    w_actions w' = w_actions w /\ w_items w' = w_items w /\
    r' ∈ w_goals w' /\ gr_id r' = goal_id /\ gr_world_state r' = Some t /\
    cJSON_Parse t = Some (JObject ws') /\
    (forall k, find_member ws' k = match asserted l k with Some b => Some (JBool b) | None => find_member ws k end) /\
    forall x, x ∈ w_goals w -> gr_id x <> goal_id -> x ∈ w_goals w'.
Proof.
  intros Hp Hok Hc Hgs Hid Hargs Has Hr Hrid Htext Hparse Huniq Hj.
  destruct (update_world_state_run env Hp tc w goal_id args l r text ws Hok Hc Hgs Hid Hargs Has Hr Hrid Htext
    Hparse Huniq Hj) as (out & w' & r' & t & ws' & H).
  exists out, w', r', t, ws'. destruct H as (H1 & H2 & H3 & H4 & _ & _ & H5 & H6 & _ & _ & H7 & H8 & H9 & H10). by split_and!.
Qed.

(** Asserting completes: if a call of update_world_state asserts every key
    of the goal state as true, the next check_complete reports the goal complete
    with all assertions satisfied. *)
Theorem asserted_goal_is_complete {DB : Sqlite} {J : CJson} {JS : CJsonSpec J} env tc tc' w goal_id args l r
    text ws gtext gl :
  (forall j, json_ok CJSON_NESTING_LIMIT j -> is_Some (cJSON_PrintUnformatted j)) ->
  goals_ok (w_goals w) -> calm w -> has_goal_store env = true ->
  extract tc "goal_id" = Some goal_id -> extract tc' "goal_id" = Some goal_id ->
  parse_arguments tc = Some args -> cJSON_GetObjectItem args (cs "assertions") = Some (JObject l) ->
  r ∈ w_goals w -> gr_id r = goal_id -> gr_world_state r = Some text ->
  cJSON_Parse text = Some (JObject ws) -> unique_keys ws ->
  Forall (fun m : cstr * cJSON => json_ok (pred CJSON_NESTING_LIMIT) m.2) ws ->
  gr_goal_state r = Some gtext -> cJSON_Parse gtext = Some (JObject gl) -> gl <> [] ->
  (forall k, k ∈ keys gl -> asserted l k = Some true) ->
  let w' := (execute_goap_update_world_state env tc w).2 in
  let n := JNumber (Z.of_nat (length gl)) in
  (execute_goap_check_complete env tc' w').1 =
    tool_result_json [(cs "complete", JBool true); (cs "satisfied", n); (cs "total", n)].
Proof.
  intros Hp Hok Hc Hgs Hid Hid' Hargs Has Hr Hrid Htext Hparse Huniq Hj Hgt Hgp Hne Hall.
  destruct (update_world_state_run env Hp tc w goal_id args l r text ws Hok Hc Hgs Hid Hargs Has Hr Hrid Htext
    Hparse Huniq Hj) as (out & w' & r' & t & ws' & -> & _ & _ & _ & Hc' & Hok' & Hr' & Hrid' & Hgs' & _ & Hws & Hp' & Hf & _).
  cbn [snd]. unfold execute_goap_check_complete. rewrite Hid', Hgs. cbn [negb].
  destruct (read_goals_run (fun st rows => goal_store_get st goal_id rows) w' Hc') as (w1 & E1 & _).
  rewrite <- Hrid', (goal_store_get_row _ r' Hok' Hr'), Hrid' in E1.
  assert (exists g, map_goal r' = Some g /\ g_world_state g = Some t /\ g_goal_state g = Some gtext) as (g & Hg & Hgw & Hgg)
    by (eexists; split; [reflexivity|]; split; [done|cbn; congruence]).
  rewrite Hg in E1. unfold get_goal. rewrite (bind_run _ _ _ _ _ E1).
  assert (goap_check_progress (g_goal_state g) (g_world_state g) =
          mkProgress true (Z.of_nat (length gl)) (Z.of_nat (length gl))) as Hprog.
  { rewrite Hgw, Hgg. unfold goap_check_progress. cbn [mbind option_bind]. rewrite Hgp, Hp', progress_loop_spec.
    assert (length (List.filter (world_true (Some (JObject ws'))) (keys gl)) = length gl) as ->.
    { transitivity (length (keys gl)); [|by unfold keys; rewrite length_map]. apply filter_all. intros k Hk.
      unfold world_true. by rewrite get_member, Hf, (Hall k Hk). }
    destruct gl; [done|]. cbn [length]. f_equal; [|lia..]. rewrite andb_true_iff, Z.ltb_lt, Z.eqb_eq. lia. }
  cbn. unfold completion_report. by rewrite Hprog.
Qed.

(** Lost updates between processes: the lock that the operation holds is
    local to its process. When two processes read the same goal before either
    writes, both calls succeed, and the stored world state is the old one with
    the assertions of the second writer only: those of the first are gone. *)
Theorem concurrent_assertions_lost {DB : Sqlite} {J : CJson} {JS : CJsonSpec J} w r g text ws l1 l2 :
  (forall j, json_ok CJSON_NESTING_LIMIT j -> is_Some (cJSON_PrintUnformatted j)) ->
  goals_ok (w_goals w) -> calm w -> r ∈ w_goals w -> map_goal r = Some g ->
  gr_world_state r = Some text -> cJSON_Parse text = Some (JObject ws) -> unique_keys ws ->
  Forall (fun m : cstr * cJSON => json_ok (pred CJSON_NESTING_LIMIT) m.2) ws ->
  let write l := store_world_state (gr_id r) (assert_world_state g l) None in
  let '(out1, w1) := write l1 w in
  let '(out2, w2) := write l2 w1 in
  out1.2 = true /\ out2.2 = true /\
  exists r2 t ws', r2 ∈ w_goals w2 /\ gr_id r2 = gr_id r /\ gr_world_state r2 = Some t /\
    cJSON_Parse t = Some (JObject ws') /\
    forall k, find_member ws' k =
      match asserted l2 k with Some b => Some (JBool b) | None => find_member ws k end.
Proof.
  intros Hp Hok Hc Hr Hg Htext Hparse Huniq Hj write.
  assert (forall l, exists ws', assert_world_state g l = JObject ws' /\ json_ok CJSON_NESTING_LIMIT (JObject ws') /\
    forall k, find_member ws' k = match asserted l k with Some b => Some (JBool b) | None => find_member ws k end) as Hassert.
  { intros l. destruct (assert_members_spec l ws Huniq) as (ws' & Hfold & _ & Hj' & Hfind). exists ws'.
    split_and!; [|apply object_ok; [apply Nat.lt_0_succ|by apply Hj']|done].
    injection Hg as <-. unfold assert_world_state, current_world_state. cbn [g_world_state].
    rewrite Htext, Hparse. exact Hfold. }
  destruct (Hassert l1) as (ws1 & E1 & J1 & _). destruct (Hassert l2) as (ws2 & E2 & J2 & F2).
  unfold write. rewrite E1, E2.
  destruct (store_world_state_run Hp (gr_id r) ws1 None r w Hok Hc Hr eq_refl J1)
    as (out1 & w1 & r1 & t1 & -> & H1 & _ & _ & Hc1 & Hok1 & Hr1 & Hid1 & _).
  destruct (store_world_state_run Hp (gr_id r) ws2 None r1 w1 Hok1 Hc1 Hr1 Hid1 J2)
    as (out2 & w2 & r2 & t2 & -> & H2 & _ & _ & _ & _ & Hr2 & Hid2 & _ & _ & Ht2 & Hp2 & _).
  split_and!; [done|done|]. by exists r2, t2, ws2.
Qed.

(** ** Creating actions *)

Section CreateActions.
Context {DB : Sqlite} {J : CJson}.

(** Creating actions: the ids reported are those of rows that were added,
    in order, every new row is pending, belongs to the goal and has a fresh id;
    every item of the request is counted either as created or as failed; nothing
    else changes. *)
Theorem insert_actions_exact goal_id items w :
  let '((ids, failed), w') := insert_actions goal_id items w in
  exists added, w_actions w' = w_actions w ++ added /\ map ar_id added = ids /\
    Forall (fun r => ar_goal_id r = goal_id /\ ar_status r = 0) added /\
    (forall r r', r ∈ added -> r' ∈ w_actions w -> ar_id r <> ar_id r') /\
    Z.of_nat (length ids) + failed = Z.of_nat (length items) /\ 0 <= failed /\
    w_goals w' = w_goals w /\ w_items w' = w_items w.
Proof using Type.
  revert w. induction items as [|item items IH]; intros w; cbn [insert_actions].
  { exists []. rewrite app_nil_r. split_and!; try done; by intros r r' ?%not_elem_of_nil. }
  assert (exists id w1 added, insert_action goal_id item w = (id, w1) /\
    w_actions w1 = w_actions w ++ added /\ w_goals w1 = w_goals w /\ w_items w1 = w_items w /\
    match id with
    | Some id => exists r, added = [r] /\ ar_id r = id /\ ar_goal_id r = goal_id /\ ar_status r = 0 /\
        forall r', r' ∈ w_actions w -> ar_id r' <> id
    | None => added = []
    end) as (id & w1 & added1 & E1 & A1 & G1 & I1 & Hid).
  { unfold insert_action. destruct (get_string item "description") as [desc|].
    2: { exists None, w, []. by rewrite app_nil_r. }
    unfold mbind, M_bind, uuid_generate_v4, on_actions. cbn [w_actions w_goals w_items w_stmts w_uuids w_now].
    match goal with |- context [action_store_insert ?st ?now ?u ?g ?p ?d ?pre ?eff ?c ?role ?rows] =>
      destruct (insert_cases st now u g p d pre eff c role rows)
        as [(H1 & H2 & H3)|(id & row & Hu & H & H1 & H2 & H3 & _ & _ & _ & _ & H4 & _)];
      [destruct (action_store_insert st now u g p d pre eff c role rows) as [[rc oid] rows']; cbn in H1, H2, H3; subst
      |rewrite H] end.
    - eexists None, _, []. split; [reflexivity|]. cbn. by rewrite app_nil_r.
    - eexists (Some id), _, [row]. split; [reflexivity|]. cbn. split_and!; try done. exists row. by split_and!. }
  rewrite (bind_run _ _ _ _ _ E1). specialize (IH w1).
  destruct (insert_actions goal_id items w1) as [[ids failed] w2] eqn:E2.
  rewrite (bind_run _ _ _ _ _ E2).
  destruct IH as (added & Ha & Hm & Hg & Hnew & Hlen & Hf & HG & HI).
  destruct id as [id|]; cbn [fst snd mret M_ret].
  - destruct Hid as (r & -> & Hrid & Hrg & Hrs & Hfresh). exists (r :: added).
    rewrite Ha, A1, <- app_assoc. split_and!; try congruence; try done.
    + cbn [map]. congruence.
    + by constructor.
    + intros x y [-> | Hx]%elem_of_cons Hy; [intros Eq; apply (Hfresh y Hy); congruence|].
      apply Hnew; [done|]. rewrite A1, elem_of_app. by left.
    + cbn [length]. lia.
  - subst added1. rewrite app_nil_r in A1. exists added. rewrite Ha, A1 in *. split_and!; try congruence; try done; cbn [length]; lia.
Qed.
End CreateActions.

(** ** Witnesses *)

Module GoapExamples.
Definition env : GoapEnv :=
  mkGoapEnv true true true true 1 (fun _ => None) (fun _ => None) (Some (cs "/usr/bin/scaffold"))
    (fun _ _ => (0, cs "sub1")) [].
Definition goal_row : GoalRow :=
  mkGoalRow (cs "g1") (cs "ship") (Some (cs "Ship it")) (Some (obj1 "tests_pass" "yes")) (Some (cs "{}")) None 1
    (cs "goal_q") 0 0 5 5 None.
Definition action_row : ActionRow :=
  mkActionRow (cs "a1") (cs "g1") None None (cs "run the tests") (Some (cs "[]")) (Some (cs "[]")) 0 0
    (Some (cs "testing")) None 0 6 6.
Definition world : World := mkWorld [goal_row] [action_row] [] [] [Some (cs "wi-1")] 9.
Definition call (args : list (cstr * cJSON)) : ToolCall :=
  mkToolCall (cs "c1") (Some (cs "goap")) (Some (ref_print (JObject args))).
Definition dispatch : ToolCall :=
  call [(cs "operation", JString (cs "dispatch_action")); (cs "action_id", JString (cs "a1"))].
Definition assertions : list (cstr * cJSON) := [(cs "tests_pass", JBool true)].
Definition update : ToolCall :=
  call [(cs "operation", JString (cs "update_world_state")); (cs "goal_id", JString (cs "g1"));
        (cs "assertions", JObject assertions)].

Lemma goals_fine : goals_ok (w_goals world).
Proof. split; [repeat constructor; cbn; lia|by apply (bool_decide_eq_true_1 (NoDup _)); vm_compute]. Qed.

Lemma world_fine : world_ok world.
Proof.
  split; [exact goals_fine| |apply items_ok_nil].
  split; [|by apply (bool_decide_eq_true_1 (NoDup _)); vm_compute].
  repeat constructor; cbn; try lia; by left || done.
Qed.

Lemma world_fits : uuids_fit world.
Proof. intros id [[= ->]|H%not_elem_of_nil]%elem_of_cons; [cbn; lia|done]. Qed.

(** The dispatch succeeds, and a second one finds no capacity. *)
Example dispatch_twice :
  (execute_goap_dispatch env dispatch world).1.2 = true /\
  map ar_status (w_actions (execute_goap_dispatch env dispatch world).2) = [1] /\
  (execute_goap_dispatch env dispatch (execute_goap_dispatch env dispatch world).2).1.2 = false.
Proof. vm_compute. done. Qed.
End GoapExamples.

Lemma goap_tool_keeps_tables_witness :
  world_ok (execute_goap_dispatch GoapExamples.env GoapExamples.dispatch GoapExamples.world).2.
Proof. exact (goap_tool_keeps_tables _ _ _ GoapExamples.world_fine). Defined.

Lemma dispatch_all_or_nothing_witness :
  exists w' id item r g row,
    dispatched GoapExamples.env GoapExamples.dispatch GoapExamples.world w' id item r g row.
Proof.
  pose proof (dispatch_all_or_nothing GoapExamples.env GoapExamples.dispatch GoapExamples.world eq_refl
    GoapExamples.world_fits GoapExamples.world_fine eq_refl) as H.
  destruct (execute_goap_dispatch_action _ _ _) as [out w'] eqn:E.
  assert (out.2 = true) as Ho by (rewrite <- (f_equal (fun p => p.1) E : _ = out); vm_compute; reflexivity).
  rewrite Ho in H. exists w'. exact (proj2 H).
Defined.

Lemma dispatch_respects_capacity_witness :
  count_where (fun r => of_goal (cs "g1") r && has_status ACTION_STATUS_RUNNING r)
    (w_actions (execute_goap_dispatch_action GoapExamples.env GoapExamples.dispatch GoapExamples.world).2)
  <= Z.max 0 1.
Proof.
  refine (dispatch_respects_capacity GoapExamples.env GoapExamples.dispatch GoapExamples.world (cs "g1") eq_refl
    GoapExamples.world_fits GoapExamples.world_fine eq_refl _).
  repeat constructor.
Defined.

Lemma assertions_take_effect_witness :
  exists out w' r' t ws',
    execute_goap_update_world_state GoapExamples.env GoapExamples.update GoapExamples.world = (out, w') /\
    out.2 = true /\ r' ∈ w_goals w' /\ gr_world_state r' = Some t /\ cJSON_Parse t = Some (JObject ws') /\
    find_member ws' (cs "tests_pass") = Some (JBool true).
Proof.
  destruct (assertions_take_effect GoapExamples.env GoapExamples.update GoapExamples.world (cs "g1")
    (JObject [(cs "operation", JString (cs "update_world_state")); (cs "goal_id", JString (cs "g1"));
              (cs "assertions", JObject GoapExamples.assertions)])
    GoapExamples.assertions GoapExamples.goal_row (cs "{}") [] ref_print_total GoapExamples.goals_fine)
    as (out & w' & r' & t & ws' & H1 & H2 & _ & _ & H3 & _ & H4 & H5 & H6 & _);
    first [exact (List.Forall_nil _) | exact NoDup_nil_2 | exact (list_elem_of_here _ _) | vm_compute; reflexivity | idtac].
  exists out, w', r', t, ws'. split_and!; try done; by rewrite H6.
Defined.

Lemma asserted_goal_is_complete_witness :
  (execute_goap_check_complete GoapExamples.env GoapExamples.update
    (execute_goap_update_world_state GoapExamples.env GoapExamples.update GoapExamples.world).2).1 =
  tool_result_json [(cs "complete", JBool true); (cs "satisfied", JNumber 1); (cs "total", JNumber 1)].
Proof.
  apply (asserted_goal_is_complete GoapExamples.env GoapExamples.update GoapExamples.update GoapExamples.world (cs "g1")
    (JObject [(cs "operation", JString (cs "update_world_state")); (cs "goal_id", JString (cs "g1"));
              (cs "assertions", JObject GoapExamples.assertions)])
    GoapExamples.assertions GoapExamples.goal_row (cs "{}") [] (obj1 "tests_pass" "yes")
    [(cs "tests_pass", JString (cs "yes"))] ref_print_total GoapExamples.goals_fine);
    first [exact (List.Forall_nil _) | exact NoDup_nil_2 | exact (list_elem_of_here _ _) | vm_compute; reflexivity | done | idtac].
  intros k Hk. apply list_elem_of_singleton in Hk as ->. reflexivity.
Defined.

Lemma concurrent_assertions_lost_witness :
  exists g, map_goal GoapExamples.goal_row = Some g /\
  let write l := store_world_state (gr_id GoapExamples.goal_row) (assert_world_state g l) None in
  let w1 := (write [(cs "a", JBool true)] GoapExamples.world).2 in
  let '(out2, w2) := write [(cs "b", JBool true)] w1 in
  out2.2 = true /\
  exists r2 t ws', r2 ∈ w_goals w2 /\ gr_world_state r2 = Some t /\ cJSON_Parse t = Some (JObject ws') /\
    find_member ws' (cs "a") = None /\ find_member ws' (cs "b") = Some (JBool true).
Proof.
  eexists. split; [reflexivity|]. intros write w1.
  pose proof (concurrent_assertions_lost GoapExamples.world GoapExamples.goal_row _ (cs "{}") []
    [(cs "a", JBool true)] [(cs "b", JBool true)] ref_print_total GoapExamples.goals_fine eq_refl
    (list_elem_of_here _ _) eq_refl eq_refl eq_refl (NoDup_nil_2) (List.Forall_nil _)) as H.
  subst w1 write. cbv beta zeta in *. destruct (store_world_state _ _ None GoapExamples.world) as [out1 w1].
  cbn [snd]. destruct (store_world_state _ _ None w1) as [out2 w2].
  destruct H as (_ & H2 & r2 & t & ws' & Hr & _ & Ht & Hp & Hf). split; [done|].
  exists r2, t, ws'. split_and!; try done; by rewrite Hf.
Defined.
