(* ===== verification/Supervisor.v ===== *)
(** * Supervisors (lib/orchestrator/supervisor.c)

    A supervisor drives one goal, first to a plan, then to completion: it
    recovers what an earlier supervisor left running, lets the session work on a
    first message, and then waits for notifications until the phase is complete.
    What the session does is a parameter that acts on the world through the tools
    (any computation of the world monad); one iteration of the event loop is given
    by a record of what select and the flag set by the signal handler answer. *)

From S2P Require Import Prelude CString Json Compactor Sql WorkQueue GoapState ActionStore GoalStore GoapTools.
Local Open Scope bool_scope.
Local Open Scope Z_scope.

Inductive SupervisorPhase := SUPERVISOR_PHASE_PLAN | SUPERVISOR_PHASE_EXECUTE.

Definition SUPERVISOR_EXIT_COMPLETE : Z := 0.
Definition SUPERVISOR_EXIT_ERROR : Z := -1.
Definition SUPERVISOR_EXIT_CONTEXT : Z := -3.

(** ** Messages *)

Definition NL : cstr := ["010"%char].
Definition quoted (s : cstr) : cstr := JQ :: s ++ [JQ].
Definition operation (name : string) : cstr := cs "goap(operation=" ++ quoted (cs name).

Definition opt_length (s : option cstr) : nat := length (default [] s).

(** [snprintf] into a buffer of [size] characters. *)
Definition fit (size : nat) (s : cstr) : cstr := take (size - 1) s.

Definition planner_text (goal : Goal) (goal_id : cstr) : cstr :=
  cs "You are the PLANNER for goal " ++ quoted (g_name goal) ++ cs " (ID: " ++ goal_id ++ cs ")." ++ NL ++ NL ++
  cs "Description: " ++ default (cs "(none)") (g_description goal) ++ NL ++ NL ++
  cs "Goal state (acceptance criteria):" ++ NL ++ default (cs "{}") (g_goal_state goal) ++ NL ++ NL ++
  cs "Your job is to research and plan how to achieve this goal, then:" ++ NL ++
  cs "1. Decompose it into actions using " ++ operation "create_actions" ++ cs ")" ++ NL ++
  cs "2. Save your research findings and execution strategy using " ++ operation "save_plan_document" ++ cs ")" ++
  NL ++ NL ++
  cs "Do NOT dispatch actions or update world state. Focus only on planning." ++ NL ++
  cs "When you have created actions and saved a plan document, your work is done.".

Definition planner_size (goal : Goal) (goal_id : cstr) : nat :=
  2048 + length (g_name goal) + length goal_id + opt_length (g_description goal) + opt_length (g_goal_state goal).

Definition executor_head (goal : Goal) (goal_id : cstr) : cstr :=
  cs "You are the EXECUTOR for goal " ++ quoted (g_name goal) ++ cs " (ID: " ++ goal_id ++ cs ")." ++ NL ++ NL ++
  cs "Description: " ++ default (cs "(none)") (g_description goal) ++ NL ++ NL.

Definition titled (title : string) (text : option cstr) : cstr :=
  match text with Some t => cs title ++ NL ++ t ++ NL ++ NL | None => [] end.

(** The statuses of the goal's actions, counted. *)
Definition count_status (s : ActionStatus) (l : list Action) : Z :=
  Z.of_nat (length (List.filter (fun a => bool_decide (a_status a = s)) l)).

Definition executor_tail (goal : Goal) (progress : GoapProgress) (actions : list Action) : cstr :=
  cs "Goal state (acceptance criteria):" ++ NL ++ default (cs "{}") (g_goal_state goal) ++ NL ++ NL ++
  cs "Current world state:" ++ NL ++ default (cs "{}") (g_world_state goal) ++ NL ++ NL ++
  cs "Progress: " ++ int_text (satisfied progress) ++ cs "/" ++ int_text (total progress) ++
  cs " assertions satisfied." ++ NL ++
  cs "Actions: " ++ int_text (count_status ACTION_STATUS_PENDING actions) ++ cs " pending, " ++
  int_text (count_status ACTION_STATUS_RUNNING actions) ++ cs " running, " ++
  int_text (count_status ACTION_STATUS_COMPLETED actions) ++ cs " completed, " ++
  int_text (count_status ACTION_STATUS_FAILED actions) ++ cs " failed (total: " ++
  int_text (Z.of_nat (length actions)) ++ cs ")." ++ NL ++ NL ++
  cs "Use the goap tool to progress this goal to completion:" ++ NL ++
  cs "1. Check for ready actions with " ++ operation "list_actions" ++ cs ", status=" ++ quoted (cs "pending") ++
  cs ")" ++ NL ++
  cs "2. Decompose ready compound actions into children with " ++ operation "create_actions" ++ cs ")" ++ NL ++
  cs "3. Dispatch ready primitive actions to workers with " ++ operation "dispatch_action" ++ cs ")" ++ NL ++
  cs "4. When workers complete, verify their effects with " ++ operation "get_action_results" ++ cs ")" ++ NL ++
  cs "5. Update world state with " ++ operation "update_world_state" ++ cs ") for verified effects" ++ NL ++
  cs "6. Check goal completion with " ++ operation "check_complete" ++ cs ")" ++ NL ++ NL ++
  cs "Begin by examining the current state and taking the next appropriate action.".

Definition executor_size (goal : Goal) (goal_id : cstr) : nat :=
  2048 + length (g_name goal) + length goal_id + opt_length (g_description goal) + opt_length (g_goal_state goal)
  + opt_length (g_world_state goal) + opt_length (g_plan_document goal) + opt_length (g_summary goal).

(** Appending with [snprintf] at the length the text would have had. *)
Definition append_fit (size : nat) (msg : cstr) (written : nat) (text : cstr) : cstr * nat :=
  (take written msg ++ fit (size - written) text, written + length text)%nat.

(** The text the parts are assembled into; [None] when the code gives up. *)
Definition executor_text {J : CJson} (goal : Goal) (goal_id : cstr) (actions : list Action) : option cstr :=
  let size := executor_size goal goal_id in
  let progress := goap_check_progress (g_goal_state goal) (g_world_state goal) in
  let head := executor_head goal goal_id in
  if (size <=? length head)%nat then None
  else
    let '(msg, written) := append_fit size (fit size head) (length head)
      (titled "Plan document (from planning phase):" (g_plan_document goal)) in
    let '(msg, written) := append_fit size msg written
      (titled "Previous progress summary:" (g_summary goal)) in
    if (size <=? written)%nat then None
    else Some (append_fit size msg written (executor_tail goal progress actions)).1.

(** ** Recovery and completion *)

Section Supervisor.
Context {DB : Sqlite} {J : CJson} (env : GoapEnv).

Definition list_by_goal (goal_id : cstr) : M (list Action) :=
  on_actions (fun st _ rows => (action_store_list_by_goal st goal_id rows, rows)).

Definition build_planner_message (goal_id : cstr) : M (option cstr) :=
  if negb (has_goal_store env) then mret None
  else
    goal ← get_goal goal_id;
    mret ((fun goal => fit (planner_size goal goal_id) (planner_text goal goal_id)) <$> goal).

Definition build_executor_message (goal_id : cstr) : M (option cstr) :=
  if negb (has_goal_store env && has_action_store env) then mret None
  else
    goal ← get_goal goal_id;
    match goal with
    | None => mret None
    | Some goal =>
        actions ← list_by_goal goal_id;
        mret (executor_text goal goal_id actions)
    end.

Definition update_status (id : cstr) (s : ActionStatus) (result : option cstr) : M Z :=
  on_actions (fun st now rows => action_store_update_status st now id s result rows).

(** The status and result that the work item of a running action gives it;
    [None] leaves it running. *)
Definition recovered_status (item : option WorkItem) : option (ActionStatus * option cstr) :=
  match item with
  | None => Some (ACTION_STATUS_PENDING, None)
  | Some wi =>
      match wi_status wi with
      | WORK_ITEM_COMPLETED => Some (ACTION_STATUS_COMPLETED, wi_result wi)
      | WORK_ITEM_FAILED => Some (ACTION_STATUS_FAILED, wi_error wi)
      | WORK_ITEM_ASSIGNED => None
      | _ => Some (ACTION_STATUS_PENDING, None)
      end
  end.

(** One running action: the number of actions recovered. *)
Definition recover_action (queue : WorkQueue) (a : Action) : M Z :=
  item ← (match a_work_item_id a with
          | [] => mret None
          | id => on_items (fun st _ rows => (work_queue_get_item st true queue id rows, rows))
          end);
  match recovered_status item with
  | None => mret 0
  | Some (s, result) =>
      _ ← update_status (a_id a) s result;
      mret 1
  end.

Fixpoint recover_loop (queue : WorkQueue) (running : list Action) : M Z :=
  match running with
  | [] => mret 0
  | a :: running' =>
      n ← recover_action queue a;
      rest ← recover_loop queue running';
      mret (n + rest)
  end.

Definition supervisor_recover_orphaned_actions (goal_id : cstr) : M Z :=
  if negb (has_action_store env && has_goal_store env) then mret (-1)
  else
    goal ← get_goal goal_id;
    match goal with
    | None => mret (-1)
    | Some goal =>
        running ← on_actions (fun st _ rows => (action_store_list_running st goal_id rows, rows));
        match running with
        | [] => mret 0
        | _ =>
            match work_queue_create (queue_opens env) (Some (g_queue_name goal)) with
            | None => mret (-1)
            | Some queue => recover_loop queue running
            end
        end
    end.

Definition handle_context_full_exit (goal_id : cstr) (phase : SupervisorPhase) : M Z :=
  let phase_name := match phase with
                    | SUPERVISOR_PHASE_PLAN => cs "planning"
                    | SUPERVISOR_PHASE_EXECUTE => cs "execution"
                    end in
  _ ← (if has_goal_store env
       then on_goals (fun st now rows => goal_store_update_summary st now goal_id
              (fit 128 (cs "Context full during " ++ phase_name ++ cs ", respawn needed")) rows)
       else mret 0);
  mret SUPERVISOR_EXIT_CONTEXT.

Definition plan_is_complete (goal_id : cstr) : M bool :=
  if negb (has_goal_store env && has_action_store env) then mret false
  else
    goal ← get_goal goal_id;
    match goal with
    | None => mret false
    | Some goal =>
        match g_plan_document goal with
        | Some (_ :: _) =>
            actions ← list_by_goal goal_id;
            mret (0 <? Z.of_nat (length actions))
        | _ => mret false
        end
    end.

Definition goal_is_complete (goal_id : cstr) : M bool :=
  if negb (has_goal_store env) then mret false
  else
    goal ← get_goal goal_id;
    mret (match goal with
          | None => false
          | Some goal =>
              if bool_decide (g_status goal = GOAL_STATUS_COMPLETED) then true
              else complete (goap_check_progress (g_goal_state goal) (g_world_state goal))
          end).

Definition set_goal (goal_id : cstr) (s : GoalStatus) : M Z :=
  if has_goal_store env
  then on_goals (fun st now rows => goal_store_update_status st now goal_id s rows)
  else mret 0.

(** Whether the phase is complete, in which case the goal moves on. *)
Definition check_phase_completion (goal_id : cstr) (phase : SupervisorPhase) : M Z :=
  match phase with
  | SUPERVISOR_PHASE_PLAN =>
      done ← plan_is_complete goal_id;
      if done : bool then
        _ ← set_goal goal_id GOAL_STATUS_ACTIVE; mret SUPERVISOR_EXIT_COMPLETE
      else mret (-1)
  | SUPERVISOR_PHASE_EXECUTE =>
      done ← goal_is_complete goal_id;
      if done : bool then
        _ ← set_goal goal_id GOAL_STATUS_COMPLETED; mret SUPERVISOR_EXIT_COMPLETE
      else mret (-1)
  end.

(** ** The event loop *)

(** The notifications waiting (their number and text, if they could be
    collected and formatted), given to the session. *)
Definition process_notifications (bundle : option (Z * option cstr)) (session_continue : cstr -> M Z) : M Z :=
  match bundle with
  | Some (total_count, Some text) =>
      if 0 <? total_count then
        rc ← session_continue text;
        mret (if rc =? SESSION_CONTEXT_FULL then SUPERVISOR_EXIT_CONTEXT
              else if negb (rc =? 0) then SUPERVISOR_EXIT_ERROR else 0)
      else mret 0
  | _ => mret 0
  end.

(** One iteration: the flag at the test of the loop and after a failed select,
    the answer of select, the subagents that changed, whether the poller's
    descriptor is readable, the approval requests handled, and the notifications
    found by each of the two possible collections. *)
Record SupervisorTick := mkSupervisorTick {
  tick_running : bool;
  tick_ready : Z;
  tick_running_after : bool;
  tick_changes : Z;
  tick_readable : bool;
  tick_approvals : M unit;
  tick_bundle : option (Z * option cstr)
}.

Context (session_process_message : cstr -> M Z) (session_continue : cstr -> M Z).

Inductive LoopStep := Exit (rc : Z) | Continue (consecutive_errors : Z).

Definition max_consecutive_errors : Z := 3.

Definition supervisor_iteration (goal_id : cstr) (phase : SupervisorPhase) (t : SupervisorTick)
    (consecutive_errors : Z) : M LoopStep :=
  if negb (tick_running t) then mret (Exit SUPERVISOR_EXIT_ERROR)
  else if tick_ready t <? 0 then
    mret (if tick_running_after t then Continue consecutive_errors else Exit SUPERVISOR_EXIT_ERROR)
  else
    _ ← tick_approvals t;
    let notified := tick_readable t && (0 <? tick_ready t) in
    rc ← (if notified || (0 <? tick_changes t)
          then process_notifications (tick_bundle t) session_continue else mret 0);
    if rc =? SUPERVISOR_EXIT_CONTEXT then
      rc ← handle_context_full_exit goal_id phase; mret (Exit rc)
    else
      let consecutive_errors := if negb (rc =? 0) then consecutive_errors + 1 else 0 in
      if max_consecutive_errors <=? consecutive_errors then mret (Exit SUPERVISOR_EXIT_ERROR)
      else
        completion ← check_phase_completion goal_id phase;
        mret (if completion =? SUPERVISOR_EXIT_COMPLETE then Exit SUPERVISOR_EXIT_COMPLETE
              else Continue consecutive_errors).

(** The loop; [None] while it still runs when the fuel ends. *)
Fixpoint supervisor_loop (fuel : nat) (goal_id : cstr) (phase : SupervisorPhase)
    (ticks : nat -> SupervisorTick) (i : nat) (consecutive_errors : Z) : M (option Z) :=
  match fuel with
  | O => mret None
  | S fuel' =>
      step ← supervisor_iteration goal_id phase (ticks i) consecutive_errors;
      match step with
      | Exit rc => mret (Some rc)
      | Continue errors => supervisor_loop fuel' goal_id phase ticks (S i) errors
      end
  end.

Definition supervisor_run (fuel : nat) (goal_id : cstr) (phase : SupervisorPhase)
    (ticks : nat -> SupervisorTick) : M (option Z) :=
  _ ← (match phase with
       | SUPERVISOR_PHASE_EXECUTE => supervisor_recover_orphaned_actions goal_id
       | SUPERVISOR_PHASE_PLAN => mret 0
       end);
  initial_msg ← (match phase with
                 | SUPERVISOR_PHASE_PLAN => build_planner_message goal_id
                 | SUPERVISOR_PHASE_EXECUTE => build_executor_message goal_id
                 end);
  match initial_msg with
  | None => mret (Some SUPERVISOR_EXIT_ERROR)
  | Some msg =>
      rc ← session_process_message msg;
      if rc =? SESSION_CONTEXT_FULL then
        rc ← handle_context_full_exit goal_id phase; mret (Some rc)
      else if negb (rc =? 0) then mret (Some SUPERVISOR_EXIT_ERROR)
      else
        completion ← check_phase_completion goal_id phase;
        if completion =? SUPERVISOR_EXIT_COMPLETE then mret (Some SUPERVISOR_EXIT_COMPLETE)
        else supervisor_loop fuel goal_id phase ticks 0 0
  end.
End Supervisor.
