(* ===== verification/SupervisorFacts.v ===== *)
(** * What supervisors guarantee

    The messages fit their buffers, recovery is exact and idempotent, a supervisor
    reports completion only when its phase is complete, and errors end it. *)

From S2P Require Import Prelude CString Json Compactor Sql WorkQueue GoapState ActionStore GoalStore GoapTools GoapFacts Supervisor.
Local Open Scope bool_scope.
Local Open Scope Z_scope.

(** ** Messages *)

(** Replace the length of every literal by its value. *)
Ltac literal_lengths :=
  repeat match goal with
  | |- context [length (cs ?s)] =>
      let n := eval vm_compute in (length (cs s)) in change (length (cs s)) with n
  end.

Lemma digits_length fuel n acc : (length (digits fuel n acc) <= fuel + length acc)%nat.
Proof.
  revert n acc. induction fuel as [|fuel IH]; intros n acc; cbn [digits]; [done|].
  case_match; cbn [length]; [lia|]. specialize (IH (n / 10)%N (ascii_of_N (48 + n mod 10) :: acc)).
  cbn [length] in IH. lia.
Qed.

Lemma int_text_length n : (length (int_text n) <= 11)%nat.
Proof.
  unfold int_text. case_match; cbn [length].
  - pose proof (digits_length 10 (Z.to_N (- n)) []). cbn [length] in *. lia.
  - pose proof (digits_length 10 (Z.to_N n) []). cbn [length] in *. lia.
Qed.

Lemma default_length (d : cstr) s : (length (default d s) <= length d + opt_length s)%nat.
Proof. destruct s; unfold opt_length; cbn; lia. Qed.

Lemma titled_length title text : (length (titled title text) <= length (cs title) + 3 + opt_length text)%nat.
Proof. destruct text; unfold titled, opt_length; cbn [default from_option]; rewrite ?length_app; cbn; lia. Qed.

Lemma planner_text_length goal id : (length (planner_text goal id) < planner_size goal id)%nat.
Proof.
  unfold planner_text, planner_size, quoted, operation, NL.
  repeat (rewrite length_app || cbn [length]). unfold quoted. repeat (rewrite length_app || cbn [length]).
  pose proof (default_length (cs "(none)") (g_description goal)).
  pose proof (default_length (cs "{}") (g_goal_state goal)). literal_lengths. cbn [length cs String.list_ascii_of_string] in *. lia.
Qed.

Lemma executor_head_length goal id :
  (length (executor_head goal id) <= 80 + length (g_name goal) + length id + opt_length (g_description goal))%nat.
Proof.
  unfold executor_head, quoted, NL. repeat (rewrite length_app || cbn [length]).
  pose proof (default_length (cs "(none)") (g_description goal)). literal_lengths.
  cbn [length cs String.list_ascii_of_string] in *. lia.
Qed.

Lemma executor_tail_length goal progress actions :
  (length (executor_tail goal progress actions) <=
   1200 + opt_length (g_goal_state goal) + opt_length (g_world_state goal))%nat.
Proof.
  unfold executor_tail, operation, quoted, NL. repeat (rewrite length_app || cbn [length]).
  pose proof (default_length (cs "{}") (g_goal_state goal)).
  pose proof (default_length (cs "{}") (g_world_state goal)).
  pose proof (int_text_length (satisfied progress)). pose proof (int_text_length (total progress)).
  pose proof (int_text_length (count_status ACTION_STATUS_PENDING actions)).
  pose proof (int_text_length (count_status ACTION_STATUS_RUNNING actions)).
  pose proof (int_text_length (count_status ACTION_STATUS_COMPLETED actions)).
  pose proof (int_text_length (count_status ACTION_STATUS_FAILED actions)).
  pose proof (int_text_length (Z.of_nat (length actions))).
  literal_lengths. cbn [length cs String.list_ascii_of_string] in *. lia.
Qed.

Lemma fit_all size s : (length s < size)%nat -> fit size s = s.
Proof. intros H. apply firstn_all2. lia. Qed.

Lemma append_fit_all size msg text :
  (length msg + length text < size)%nat ->
  append_fit size msg (length msg) text = (msg ++ text, length (msg ++ text)).
Proof.
  intros H. unfold append_fit. rewrite firstn_all2 by done. rewrite fit_all by lia. by rewrite length_app.
Qed.

(** Bounds: the first message of a supervisor is never cut. The buffer of
    the planner's message is larger than the message, and the offset into the
    executor's buffer stays below its size at each of the four steps, for goals
    and plans of any length. *)
Theorem supervisor_messages_fit {J : CJson} goal goal_id actions :
  fit (planner_size goal goal_id) (planner_text goal goal_id) = planner_text goal goal_id /\
  executor_text goal goal_id actions =
    Some (executor_head goal goal_id ++
          titled "Plan document (from planning phase):" (g_plan_document goal) ++
          titled "Previous progress summary:" (g_summary goal) ++
          executor_tail goal (goap_check_progress (g_goal_state goal) (g_world_state goal)) actions).
Proof.
  split; [apply fit_all, planner_text_length|]. unfold executor_text.
  pose proof (executor_head_length goal goal_id) as H1.
  pose proof (titled_length "Plan document (from planning phase):" (g_plan_document goal)) as H2.
  pose proof (titled_length "Previous progress summary:" (g_summary goal)) as H3.
  pose proof (executor_tail_length goal (goap_check_progress (g_goal_state goal) (g_world_state goal)) actions) as H4.
  set (head := executor_head goal goal_id) in *. set (plan := titled _ (g_plan_document goal)) in *.
  set (summary := titled _ (g_summary goal)) in *. set (tl := executor_tail _ _ _) in *.
  revert H2 H3. literal_lengths. intros H2 H3.
  assert (length head + length plan + length summary + length tl < executor_size goal goal_id)%nat as Hsize
    by (unfold executor_size; lia).
  set (size := executor_size goal goal_id) in *. clearbody head plan summary tl size.
  destruct (Nat.leb_spec size (length head)); [lia|].
  rewrite (fit_all size head) by lia. rewrite append_fit_all by lia.
  rewrite append_fit_all by (rewrite length_app; lia).
  destruct (Nat.leb_spec size (length ((head ++ plan) ++ summary))) as [Hle|_]; [rewrite !length_app in Hle; lia|].
  rewrite append_fit_all by (rewrite !length_app; lia). cbn [fst]. by rewrite <- !app_assoc.
Qed.

(** ** Recovery *)

Section Recovery.
Context {DB : Sqlite} {DBS : SqliteSpec DB} (env : GoapEnv).

(** The item a running action points to, as the recovery reads it. *)
Definition item_of (queue : WorkQueue) (items : list WorkItemRow) (work_item_id : cstr) : option WorkItem :=
  match work_item_id with
  | [] => None
  | id => work_queue_get_item StmtOk true queue id items
  end.

(** What recovery makes of a row. *)
Definition recover_as (queue : WorkQueue) (items : list WorkItemRow) (now : Z) (wid : cstr) (r : ActionRow)
  : ActionRow :=
  match recovered_status (item_of queue items wid) with
  | Some (s, result) => set_status s now result r
  | None => r
  end.

Definition recovers (queue : WorkQueue) (items : list WorkItemRow) (wid : cstr) : bool :=
  match recovered_status (item_of queue items wid) with Some _ => true | None => false end.

Lemma update_status_run id s result w :
  calm w -> exists rc w', update_status id s result w = (rc, w') /\ w_goals w' = w_goals w /\
    w_items w' = w_items w /\ w_now w' = w_now w /\ calm w' /\
    w_actions w' = update_where (is_action id) (set_status s (w_now w) result) (w_actions w).
Proof using Type.
  intros Hc. unfold update_status, on_actions, next_stmt. rewrite Hc. eexists _, _. split; [reflexivity|]. by split_and!.
Qed.

Lemma recover_action_run queue a w :
  calm w -> exists w', recover_action queue a w =
      ((if recovers queue (w_items w) (a_work_item_id a) then 1 else 0), w') /\
    w_goals w' = w_goals w /\ w_items w' = w_items w /\ w_now w' = w_now w /\ calm w' /\
    w_actions w' = update_where (is_action (a_id a))
                     (recover_as queue (w_items w) (w_now w) (a_work_item_id a)) (w_actions w).
Proof using Type.
  intros Hc. unfold recover_action.
  assert (exists w1, (match a_work_item_id a with
      | [] => mret None
      | id => on_items (fun st _ rows => (work_queue_get_item st true queue id rows, rows))
      end : M (option WorkItem)) w = (item_of queue (w_items w) (a_work_item_id a), w1) /\ same_tables w w1)
    as (w1 & E1 & G1 & A1 & I1 & N1 & C1).
  { destruct (a_work_item_id a) as [|c id]; [exists w; split; [done|by apply same_tables_refl]|].
    unfold on_items, next_stmt. rewrite Hc. eexists. split; [reflexivity|by split_and!]. }
  rewrite (bind_run _ _ _ _ _ E1). unfold recovers, recover_as.
  destruct (recovered_status _) as [[s result]|].
  - destruct (update_status_run (a_id a) s result w1 C1) as (rc & w2 & E2 & G2 & I2 & N2 & C2 & A2).
    rewrite (bind_run _ _ _ _ _ E2). exists w2. rewrite A2, N1, A1. split_and!; try done; congruence.
  - exists w1. split; [done|]. rewrite update_where_id. split_and!; congruence || done.
Qed.

Lemma recover_loop_run queue running w :
  calm w -> exists w', recover_loop queue running w =
      (count_where (fun a => recovers queue (w_items w) (a_work_item_id a)) running, w') /\
    w_goals w' = w_goals w /\ w_items w' = w_items w /\ w_now w' = w_now w /\ calm w' /\
    w_actions w' = foldl (fun rows a => update_where (is_action (a_id a))
                            (recover_as queue (w_items w) (w_now w) (a_work_item_id a)) rows)
                         (w_actions w) running.
Proof using Type.
  revert w. induction running as [|a running IH]; intros w Hc; cbn [recover_loop foldl].
  { exists w. by split_and!. }
  destruct (recover_action_run queue a w Hc) as (w1 & E1 & G1 & I1 & N1 & C1 & A1).
  destruct (IH w1 C1) as (w2 & E2 & G2 & I2 & N2 & C2 & A2).
  rewrite (bind_run _ _ _ _ _ E1), (bind_run _ _ _ _ _ E2). exists w2.
  rewrite count_where_cons. rewrite A2, A1, I1, N1. split_and!; congruence || done.
Qed.

(** The columns that are read through arrays of 40 characters fit them. *)
Definition ids_fit (rows : list ActionRow) : Prop :=
  Forall (fun r => (length (ar_id r) <= 39)%nat) rows.

Definition is_running (goal_id : cstr) (r : ActionRow) : bool :=
  of_goal goal_id r && has_status ACTION_STATUS_RUNNING r.

Lemma find_running goal_id rows r :
  actions_ok rows -> ids_fit rows -> r ∈ rows ->
  List.find (fun a => streq (a_id a) (ar_id r)) (action_store_list_running StmtOk goal_id rows) =
  if is_running goal_id r then map_action r else None.
Proof using DBS.
  intros Hok Hfit Hr. unfold action_store_list_running. fold (is_running goal_id).
  assert (forall r' a, r' ∈ rows -> map_action r' = Some a -> a_id a = ar_id r') as Hid.
  { intros r' a Hr' [= <-]. cbn. unfold ids_fit in Hfit. rewrite Forall_forall in Hfit. by apply firstn_all2, Hfit. }
  destruct (List.find _ _) as [a|] eqn:E.
  - apply find_some in E as [Hin Heq%streq_true]. apply list_elem_of_In, elem_of_list_actions in Hin as (r' & Hr' & Hp & Ha).
    assert (r' = r) as -> by (eapply NoDup_column_inj; [apply Hok|done..|]; rewrite <- Heq; symmetry; by apply Hid).
    by rewrite Hp, Ha.
  - destruct (is_running goal_id r) eqn:Ep; [|done]. exfalso.
    assert (exists a, map_action r = Some a) as [a Ha] by (by eexists).
    eapply find_none in E; [|apply list_elem_of_In, elem_of_list_actions; exists r; eauto].
    cbn in E. rewrite (Hid r a Hr Ha), streq_refl in E. done.
Qed.

Lemma running_ids_NoDup goal_id rows :
  actions_ok rows -> ids_fit rows -> NoDup (map a_id (action_store_list_running StmtOk goal_id rows)).
Proof using DBS.
  intros Hok Hfit. unfold action_store_list_running, list_actions. cbn [sqlite_dal_query_list_p returned snd].
  fold (is_running goal_id).
  assert (forall l, Forall (fun r => (length (ar_id r) <= 39)%nat) l -> map a_id (omap map_action l) = map ar_id l) as E.
  { induction 1 as [|r l Hr _ IH]; [done|]. cbn. f_equal; [by apply firstn_all2|exact IH]. }
  rewrite E.
  - rewrite (Permutation_map ar_id (order_by_perm ar_created_at (select_where (is_running goal_id) rows))).
    apply NoDup_column_select, Hok.
  - unfold ids_fit in Hfit. rewrite Forall_forall in *. intros r [Hr _]%elem_of_order_by%elem_of_select. by apply Hfit.
Qed.

(** Recovery as a function of the table. *)
Definition recovered_row (goal_id : cstr) (queue : WorkQueue) (items : list WorkItemRow) (now : Z) (r : ActionRow)
  : ActionRow :=
  if is_running goal_id r
  then recover_as queue items now (char_array 40 (ar_work_item_id r)) r else r.

Lemma recover_as_id q items now wid r : ar_id (recover_as q items now wid r) = ar_id r.
Proof using Type. unfold recover_as. by repeat case_match. Qed.

Lemma recover_fold goal_id q items now rows :
  actions_ok rows -> ids_fit rows ->
  foldl (fun rows a => update_where (is_action (a_id a)) (recover_as q items now (a_work_item_id a)) rows)
    rows (action_store_list_running StmtOk goal_id rows) =
  recovered_row goal_id q items now <$> rows.
Proof using DBS.
  intros Hok Hfit.
  change (is_action) with (fun id r => streq (ar_id r) id). cbv beta.
  rewrite (fold_updates ar_id a_id (fun a => recover_as q items now (a_work_item_id a))); [..|by apply running_ids_NoDup].
  - apply map_ext_in. intros r Hr%list_elem_of_In. rewrite (find_running goal_id rows r Hok Hfit Hr).
    unfold recovered_row. by destruct (is_running goal_id r).
  - intros b r. apply recover_as_id.
Qed.

Lemma recover_count goal_id q items rows :
  count_where (fun a => recovers q items (a_work_item_id a)) (action_store_list_running StmtOk goal_id rows) =
  count_where (fun r => is_running goal_id r && recovers q items (char_array 40 (ar_work_item_id r))) rows.
Proof using DBS.
  unfold action_store_list_running, list_actions. cbn [sqlite_dal_query_list_p returned snd].
  fold (is_running goal_id). set (p := fun r => recovers q items (char_array 40 (ar_work_item_id r))).
  assert (forall l, count_where (fun a => recovers q items (a_work_item_id a)) (omap map_action l) = count_where p l) as ->.
  { induction l as [|r l IH]; [done|]. change (omap map_action (r :: l)) with (match map_action r with Some a => a :: omap map_action l | None => omap map_action l end).
    cbn [map_action]. rewrite !count_where_cons, IH. done. }
  transitivity (count_where p (select_where (is_running goal_id) rows)).
  - unfold count_where. f_equal. apply Permutation_length. unfold select_where at 1 3.
    generalize (order_by_perm ar_created_at (select_where (is_running goal_id) rows)). clear.
    generalize (order_by ar_created_at (select_where (is_running goal_id) rows)) (select_where (is_running goal_id) rows).
    intros l1 l2 H. induction H as [|x k1 k2 _ IH|x y k|k1 k2 k3 _ IH1 _ IH2]; cbn [List.filter];
      [done| | |by etransitivity]; repeat case_match; auto using Permutation_cons, perm_swap.
  - unfold p. clear. induction rows as [|r rows IH]; [done|]. unfold select_where in *. cbn [List.filter].
    rewrite count_where_cons. destruct (is_running goal_id r) eqn:E; cbn [andb]; [|lia].
    rewrite count_where_cons. lia.
Qed.

(** The row of the goal, and the queue that its name opens. *)
Record recovers_with (goal_id : cstr) (queue : WorkQueue) (w : World) : Prop := {
  rw_stores : has_action_store env = true /\ has_goal_store env = true;
  rw_calm : calm w;
  rw_goals : goals_ok (w_goals w);
  rw_actions : actions_ok (w_actions w);
  rw_ids : ids_fit (w_actions w);
  rw_goal : exists r, r ∈ w_goals w /\ gr_id r = goal_id /\
    work_queue_create (queue_opens env) (Some (char_array 64 (Some (gr_queue_name r)))) = Some queue
}.

Lemma recover_run goal_id queue w :
  recovers_with goal_id queue w ->
  exists w', supervisor_recover_orphaned_actions env goal_id w =
      (count_where (fun r => is_running goal_id r && recovers queue (w_items w) (char_array 40 (ar_work_item_id r)))
         (w_actions w), w') /\
    w_goals w' = w_goals w /\ w_items w' = w_items w /\ w_now w' = w_now w /\ calm w' /\
    w_actions w' = recovered_row goal_id queue (w_items w) (w_now w) <$> w_actions w.
Proof using DBS.
  intros [[Ha Hg] Hc Hgs Has Hids (r & Hr & Hid & Hq)].
  assert (goal_store_get StmtOk goal_id (w_goals w) = map_goal r) as Eg by (rewrite <- Hid; by apply goal_store_get_row).
  unfold supervisor_recover_orphaned_actions.
  rewrite Ha, Hg. cbn [negb andb]. unfold get_goal at 1.
  destruct (read_goals_run (fun st rows => goal_store_get st goal_id rows) w Hc) as (w1 & E1 & (G1 & A1 & I1 & N1 & C1) & _).
  rewrite (bind_run _ _ _ _ _ E1). rewrite Eg. cbn [map_goal].
  destruct (read_actions_run (fun st rows => action_store_list_running st goal_id rows) w1 C1) as (w2 & E2 & (G2 & A2 & I2 & N2 & C2) & _).
  rewrite A1 in E2. rewrite (bind_run _ _ _ _ _ E2). cbn [g_queue_name]. rewrite Hq.
  rewrite <- (recover_count goal_id queue (w_items w)), <- (recover_fold goal_id queue (w_items w)) by done.
  destruct (action_store_list_running _ _ _) as [|a l].
  - exists w2. cbn [foldl]. split_and!; congruence || done.
  - destruct (recover_loop_run queue (a :: l) w2 C2) as (w3 & E3 & G3 & I3 & N3 & C3 & A3).
    exists w3. rewrite E3, A3, I2, I1, N2, N1, A2, A1. split_and!; congruence || done.
Qed.

Lemma recovered_running goal_id queue items now r :
  is_running goal_id (recovered_row goal_id queue items now r) = true ->
  recovered_row goal_id queue items now r = r /\
  exists wi, item_of queue items (char_array 40 (ar_work_item_id r)) = Some wi /\ wi_status wi = WORK_ITEM_ASSIGNED.
Proof using Type.
  unfold recovered_row. destruct (is_running goal_id r) eqn:E; [|congruence]. unfold recover_as, recovered_status.
  destruct (item_of _ _ _) as [wi|]; [|unfold is_running; by rewrite andb_comm].
  destruct (wi_status wi) eqn:Ew; try (unfold is_running; by rewrite andb_comm). intros _. split; [done|]. by exists wi.
Qed.

Lemma recovered_row_fixed goal_id queue items now now' r :
  recovered_row goal_id queue items now' (recovered_row goal_id queue items now r) =
  recovered_row goal_id queue items now r.
Proof using Type.
  destruct (is_running goal_id (recovered_row goal_id queue items now r)) eqn:E.
  - destruct (recovered_running _ _ _ _ _ E) as [Hr (wi & Hwi & Hs)]. rewrite Hr in *. unfold recovered_row.
    rewrite E. unfold recover_as, recovered_status. by rewrite Hwi, Hs.
  - unfold recovered_row at 1. by rewrite E.
Qed.

Lemma recovered_with goal_id queue w w' :
  recovers_with goal_id queue w -> w_goals w' = w_goals w -> w_items w' = w_items w -> calm w' ->
  w_actions w' = recovered_row goal_id queue (w_items w) (w_now w) <$> w_actions w ->
  recovers_with goal_id queue w'.
Proof using Type.
  intros [Hst Hc Hg Ha Hids Hr] Eg Ei Hc' Ea. split; rewrite ?Eg; try done.
  - rewrite Ea. assert (recovered_row goal_id queue (w_items w) (w_now w) <$> w_actions w =
      update_where (is_running goal_id) (fun r => recover_as queue (w_items w) (w_now w)
                                          (char_array 40 (ar_work_item_id r)) r) (w_actions w)) as -> by done.
    apply actions_ok_update; [done|..]; intros r; unfold recover_as, recovered_status; repeat case_match; cbn; try done;
      simplify_eq; cbn; lia.
  - rewrite Ea. unfold ids_fit in *. rewrite Forall_fmap. eapply Forall_impl; [exact Hids|]. intros r Hl. cbn.
    unfold recovered_row. case_match; [|done]. by rewrite recover_as_id.
Qed.

(** *** Recovery by the rows *)

(** The work item a running action names: its id is read through 40 characters. *)
Definition named_item (queue : WorkQueue) (items : list WorkItemRow) (r : ActionRow) : option WorkItemRow :=
  match take 39 (default [] (ar_work_item_id r)) with
  | [] => None
  | wid => List.find (fun i => bool_decide (row_id i = wid /\ row_queue_name i = queue)) items
  end.

(** A running action of the goal (status 1). *)
Definition runs_for (goal_id : cstr) (r : ActionRow) : Prop := ar_goal_id r = goal_id /\ ar_status r = 1.

(** A worker holds the item (status 1). *)
Definition held (queue : WorkQueue) (items : list WorkItemRow) (r : ActionRow) : Prop :=
  exists i, named_item queue items r = Some i /\ column_int (row_status i) = 1.

(** The row with a new status and result, updated now. *)
Definition rewritten (now status : Z) (result : option cstr) (r : ActionRow) : ActionRow :=
  mkActionRow (ar_id r) (ar_goal_id r) (ar_parent_action_id r) (ar_work_item_id r) (ar_description r)
    (ar_preconditions r) (ar_effects r) (ar_is_compound r) status (ar_role r) result
    (ar_attempt_count r) (ar_created_at r) now.

(** What becomes of a running action: pending (0) without a result when its item is
    gone or waits, left when a worker holds it, completed (2) with the result of the
    item or failed (3) with its error when that has ended so. *)
Inductive row_recovered (queue : WorkQueue) (items : list WorkItemRow) (now : Z) (r : ActionRow) : ActionRow -> Prop :=
| item_gone : named_item queue items r = None -> row_recovered queue items now r (rewritten now 0 None r)
| item_waits i : named_item queue items r = Some i -> column_int (row_status i) = 0 ->
    row_recovered queue items now r (rewritten now 0 None r)
| item_held i : named_item queue items r = Some i -> column_int (row_status i) = 1 -> row_recovered queue items now r r
| item_completed i : named_item queue items r = Some i -> column_int (row_status i) = 2 ->
    row_recovered queue items now r (rewritten now 2 (row_result i) r)
| item_failed i : named_item queue items r = Some i -> column_int (row_status i) = 3 ->
    row_recovered queue items now r (rewritten now 3 (row_error i) r)
| item_unknown i : named_item queue items r = Some i -> ~ 0 <= column_int (row_status i) <= 3 ->
    row_recovered queue items now r (rewritten now 0 None r).

Lemma is_running_spec goal_id r : is_running goal_id r = true <-> runs_for goal_id r.
Proof using Type. unfold is_running, runs_for, of_goal, has_status. rewrite andb_true_iff, streq_true, Z.eqb_eq. done. Qed.

Lemma item_of_named queue items r :
  item_of queue items (char_array 40 (ar_work_item_id r)) = full_item <$> named_item queue items r.
Proof using Type.
  unfold item_of, named_item, char_array. change (40 - 1)%nat with 39%nat.
  destruct (take 39 _) as [|c w]; [done|]. unfold work_queue_get_item. cbn [returned].
  induction items as [|i items IH]; [done|]. unfold select_where in *. cbn [List.filter List.find].
  assert (is_item queue (c :: w) i = bool_decide (row_id i = c :: w /\ row_queue_name i = queue)) as ->.
  { unfold is_item. destruct (streq_spec (row_id i) (c :: w)), (streq_spec (row_queue_name i) queue); cbn [andb];
      case_bool_decide; tauto. }
  by destruct (bool_decide _).
Qed.

Lemma recover_as_recovered queue items now r :
  row_recovered queue items now r (recover_as queue items now (char_array 40 (ar_work_item_id r)) r) /\
  (recovers queue items (char_array 40 (ar_work_item_id r)) = true <-> ~ held queue items r).
Proof using Type.
  unfold recover_as, recovers, held. rewrite item_of_named. destruct (named_item queue items r) as [i|] eqn:E.
  2: { split; [by apply item_gone|]. split; [by intros _ (? & ? & _)|done]. }
  cbn [fmap option_fmap option_map recovered_status]. unfold full_item. cbn [wi_status wi_result wi_error].
  unfold work_item_status.
  destruct (Z.eqb_spec (column_int (row_status i)) 0) as [H0|H0]; [split; [by eapply item_waits|split; [intros _ (? & [= <-] & ?); lia|done]]|].
  destruct (Z.eqb_spec (column_int (row_status i)) 1) as [H1|H1]; [split; [by eapply item_held|split; [done|intros Hn; by destruct Hn; exists i]]|].
  destruct (Z.eqb_spec (column_int (row_status i)) 2) as [H2|H2]; [split; [by eapply (item_completed _ _ _ _ i)|split; [intros _ (? & [= <-] & ?); lia|done]]|].
  destruct (Z.eqb_spec (column_int (row_status i)) 3) as [H3|H3]; [split; [by eapply (item_failed _ _ _ _ i)|split; [intros _ (? & [= <-] & ?); lia|done]]|].
  split; [eapply item_unknown; [done|lia]|]. split; [intros _ (? & [= <-] & ?); lia|done].
Qed.

#[local] Instance runs_for_dec goal_id r : Decision (runs_for goal_id r).
Proof using Type. unfold runs_for. solve_decision. Defined.

#[local] Instance held_dec queue items r : Decision (held queue items r).
Proof using Type.
  unfold held. destruct (named_item queue items r) as [i|].
  - destruct (decide (column_int (row_status i) = 1)) as [H|H]; [left; by exists i|right; intros (? & [= <-] & ?); done].
  - right. by intros (? & ? & _).
Defined.

(** C20: Recovery is exact and idempotent, when the stores and the queue open and every
    statement succeeds. Each running action of the goal gets the status and result that
    the row of its work item prescribes: pending again without a result when there is no
    such item or it waits, completed with the item's result, failed with the item's error,
    and as it was when a worker holds the item. The other rows, the goals and the items are
    untouched; the result counts the changed actions; every action of the goal that runs
    afterwards has an item held by a worker; and a second recovery changes nothing. *)
Theorem recovery_exact goal_id queue w :
  recovers_with goal_id queue w ->
  exists w', supervisor_recover_orphaned_actions env goal_id w =
      (Z.of_nat (length (filter (fun r => runs_for goal_id r /\ ~ held queue (w_items w) r) (w_actions w))), w') /\
    w_goals w' = w_goals w /\ w_items w' = w_items w /\
    Forall2 (fun r r' => (runs_for goal_id r -> row_recovered queue (w_items w) (w_now w) r r') /\
                         (~ runs_for goal_id r -> r' = r)) (w_actions w) (w_actions w') /\
    (forall r, r ∈ w_actions w' -> runs_for goal_id r -> held queue (w_items w) r) /\
    exists w'', supervisor_recover_orphaned_actions env goal_id w' = (0, w'') /\ w_actions w'' = w_actions w'.
Proof using DBS.
  intros H. destruct (recover_run _ _ _ H) as (w1 & E1 & G1 & I1 & N1 & C1 & A1). exists w1. split.
  { rewrite E1. f_equal. unfold count_where, select_where. f_equal. clear. induction (w_actions w) as [|r rows IH]; [done|].
    cbn [List.filter]. rewrite filter_cons. pose proof (is_running_spec goal_id r) as Hrun.
    pose proof (proj2 (recover_as_recovered queue (w_items w) 0 r)) as Hrec.
    assert (is_running goal_id r && recovers queue (w_items w) (char_array 40 (ar_work_item_id r)) = true <->
      runs_for goal_id r /\ ~ held queue (w_items w) r) as Hboth by (rewrite andb_true_iff; tauto).
    destruct (_ && _); case_decide; cbn [length]; [f_equal; exact IH| | |exact IH]; exfalso; intuition congruence. }
  split; [done|]. split; [done|]. split; [|split].
  - rewrite A1. clear. induction (w_actions w) as [|r rows IH]; [constructor|]. cbn. constructor; [|done].
    unfold recovered_row. pose proof (is_running_spec goal_id r) as Hrun. destruct (is_running goal_id r).
    + split; [intros _; apply recover_as_recovered|tauto].
    + split; [intros Hr; by apply Hrun in Hr|done].
  - rewrite A1. intros r (r0 & -> & _)%list_elem_of_fmap Hrun%is_running_spec. destruct (recovered_running _ _ _ _ _ Hrun) as [-> (wi & Hwi & Hs)].
    unfold held. rewrite item_of_named in Hwi. destruct (named_item _ _ r0) as [i|]; [|done]. exists i. split; [done|].
    injection Hwi as <-. cbn in Hs. unfold work_item_status in Hs.
    destruct (Z.eqb_spec (column_int (row_status i)) 0); [done|]. by destruct (Z.eqb_spec (column_int (row_status i)) 1); [|repeat case_match].
  - destruct (recover_run _ _ _ (recovered_with _ _ _ _ H G1 I1 C1 A1)) as (w2 & E2 & _ & _ & _ & _ & A2).
    exists w2. rewrite E2, A2, I1, A1. split.
    + f_equal. apply count_where_zero. intros r (r0 & -> & _)%list_elem_of_fmap.
      destruct (is_running _ _) eqn:Hrun; [|done]. destruct (recovered_running _ _ _ _ _ Hrun) as [Er (wi & Hwi & Hs)].
      rewrite Er. unfold recovers, recovered_status. by rewrite Hwi, Hs.
    + rewrite <- list_fmap_compose. apply list_fmap_ext. intros i r _. cbn. apply recovered_row_fixed.
Qed.
End Recovery.

(** ** Completion *)

Section Completion.
Context {DB : Sqlite} {DBS : SqliteSpec DB} {J : CJson} (env : GoapEnv).

(** The goal state is an object with members and the world state maps the key of each to
    true. *)
Definition assertions_hold (goal_state world_state : option cstr) : Prop :=
  exists l ws, goal_state ≫= cJSON_Parse = Some (JObject l) /\ l <> [] /\ world_state ≫= cJSON_Parse = Some ws /\
    forall k, k ∈ keys l -> cJSON_IsTrue (cJSON_GetObjectItem ws k) = true.

(** The tables say that the phase of the goal is complete. *)
Definition row_complete (phase : SupervisorPhase) (actions : list ActionRow) (r : GoalRow) : Prop :=
  match phase with
  | SUPERVISOR_PHASE_PLAN =>
      (exists c text, gr_plan_document r = Some (c :: text)) /\ exists a, a ∈ actions /\ ar_goal_id a = gr_id r
  | SUPERVISOR_PHASE_EXECUTE =>
      goal_status (column_int (gr_status r)) = GOAL_STATUS_COMPLETED \/ assertions_hold (gr_goal_state r) (gr_world_state r)
  end.

Definition phase_complete (goal_id : cstr) (phase : SupervisorPhase) (w : World) : Prop :=
  exists r, r ∈ w_goals w /\ gr_id r = goal_id /\ row_complete phase (w_actions w) r.

Lemma complete_assertions goal_state world_state :
  complete (goap_check_progress goal_state world_state) = true -> assertions_hold goal_state world_state.
Proof using Type.
  intros (l & Hl & Hne & Hall)%check_progress_spec. destruct l as [|[k v] l]; [done|].
  assert (forall k', k' ∈ keys ((k, v) :: l) -> exists ws, world_state ≫= cJSON_Parse = Some ws /\
    cJSON_IsTrue (cJSON_GetObjectItem ws k') = true) as Hk.
  { intros k' Hk'. specialize (Hall k' Hk'). unfold world_true in Hall.
    destruct (world_state ≫= cJSON_Parse) as [ws|]; [by exists ws|done]. }
  destruct (Hk k) as (ws & Hws & _); [left|]. exists ((k, v) :: l), ws. split_and!; try done.
  intros k' Hk'. destruct (Hk k' Hk') as (ws' & Hws' & ?). by simplify_eq.
Qed.

(** The status a complete phase leaves. *)
Definition completed_status (phase : SupervisorPhase) : GoalStatus :=
  match phase with
  | SUPERVISOR_PHASE_PLAN => GOAL_STATUS_ACTIVE
  | SUPERVISOR_PHASE_EXECUTE => GOAL_STATUS_COMPLETED
  end.

(** A computation that answers from the tables and leaves them as they are. *)
Definition reads {A} (m : M A) (P : A -> list GoalRow -> list ActionRow -> Prop) : Prop :=
  forall w, let '(x, w') := m w in
    P x (w_goals w) (w_actions w) /\ w_goals w' = w_goals w /\ w_actions w' = w_actions w /\
    w_items w' = w_items w /\ (calm w -> calm w').

Lemma reads_ret {A} (x : A) (P : A -> list GoalRow -> list ActionRow -> Prop) :
  (forall goals actions, P x goals actions) -> reads (mret x) P.
Proof using Type. intros H w. by split_and!. Qed.

Lemma reads_bind {A B} (m : M A) (k : A -> M B) P Q :
  reads m P -> (forall x, reads (k x) (fun y goals actions => P x goals actions -> Q y goals actions)) ->
  reads (m ≫= k) Q.
Proof using Type.
  intros Hm Hk w. unfold mbind, M_bind. specialize (Hm w). destruct (m w) as [x w1].
  destruct Hm as (Hx & G1 & A1 & I1 & C1). specialize (Hk x w1). destruct (k x w1) as [y w2].
  destruct Hk as (Hy & G2 & A2 & I2 & C2). rewrite G1, A1 in Hy. split_and!; try congruence; tauto.
Qed.

Lemma tail_calm w : calm w -> tail (w_stmts w) = [].
Proof using Type. unfold calm. by intros ->. Qed.

Lemma get_goal_reads goal_id :
  reads (get_goal goal_id) (fun goal goals _ => forall g, goal = Some g ->
    exists r, r ∈ goals /\ gr_id r = goal_id /\ map_goal r = Some g).
Proof using Type.
  intros w. unfold get_goal, on_goals. split_and!; try done; [|apply tail_calm].
  intros g Hg. by apply goal_store_get_Some in Hg.
Qed.

Lemma list_by_goal_reads goal_id :
  reads (list_by_goal goal_id) (fun l _ actions => l <> [] -> exists a, a ∈ actions /\ ar_goal_id a = goal_id).
Proof using DBS.
  intros w. unfold list_by_goal, on_actions. split_and!; try done; [|apply tail_calm].
  intros Hl. destruct (action_store_list_by_goal _ _ _) as [|a l] eqn:E; [done|].
  assert (a ∈ action_store_list_by_goal (next_stmt w) goal_id (w_actions w)) as Ha by (rewrite E; left).
  apply elem_of_list_actions_any in Ha as (r & Hr & Hp & _).
  exists r. split; [done|]. by apply streq_true.
Qed.

Lemma plan_is_complete_reads goal_id :
  reads (plan_is_complete env goal_id) (fun done goals actions => done = true ->
    exists r, r ∈ goals /\ gr_id r = goal_id /\ row_complete SUPERVISOR_PHASE_PLAN actions r).
Proof using DBS.
  unfold plan_is_complete. destruct (negb _); [by apply reads_ret|].
  eapply reads_bind; [apply get_goal_reads|]. intros [g|]; [|by apply reads_ret].
  destruct (g_plan_document g) as [[|c t]|] eqn:Ed; try by apply reads_ret.
  eapply reads_bind; [apply list_by_goal_reads|]. intros l. apply reads_ret. intros goals actions Hl Hg Hlen.
  destruct (Hg g eq_refl) as (r & Hr & Hid & [= Hmap]). exists r. split_and!; try done.
  subst g. cbn in Ed |- *. rewrite Ed, Hid. split; [by eexists _, _|]. apply Hl. by intros ->.
Qed.

Lemma goal_is_complete_reads goal_id :
  reads (goal_is_complete env goal_id) (fun done goals actions => done = true ->
    exists r, r ∈ goals /\ gr_id r = goal_id /\ row_complete SUPERVISOR_PHASE_EXECUTE actions r).
Proof using Type.
  unfold goal_is_complete. destruct (negb _); [by apply reads_ret|].
  eapply reads_bind; [apply get_goal_reads|]. intros [g|]; [|by apply reads_ret]. apply reads_ret.
  intros goals actions Hg Hd. destruct (Hg g eq_refl) as (r & Hr & Hid & [= Hmap]). exists r. split_and!; try done.
  subst g. cbn in Hd |- *. case_bool_decide; [by left|right]. by apply complete_assertions.
Qed.

(** The world a completion check leaves when it finds the phase complete. *)
Definition completed_from (goal_id : cstr) (phase : SupervisorPhase) (w0 w' : World) : Prop :=
  phase_complete goal_id phase w0 /\ w_actions w' = w_actions w0 /\ w_items w' = w_items w0 /\
  (calm w0 -> exists now, w_goals w' =
     update_where (is_goal goal_id) (set_goal_status (completed_status phase) now) (w_goals w0)).

Lemma set_goal_completes goal_id phase w0 w1 :
  has_goal_store env = true -> phase_complete goal_id phase w0 ->
  w_goals w1 = w_goals w0 -> w_actions w1 = w_actions w0 -> w_items w1 = w_items w0 -> (calm w0 -> calm w1) ->
  completed_from goal_id phase w0 (set_goal env goal_id (completed_status phase) w1).2.
Proof using Type.
  intros Hst Hp G A I C. unfold completed_from, set_goal, on_goals. rewrite Hst.
  destruct (goal_store_update_status _ _ _ _ _) as [rc rows] eqn:E. cbn. split_and!; try done.
  intros Hc%C. exists (w_now w1). unfold next_stmt in E. rewrite Hc in E.
  unfold goal_store_update_status, update_goal in E. cbn [sqlite_dal_exec_p] in E. injection E as _ <-. by rewrite G.
Qed.

Lemma check_phase_complete goal_id phase w w' :
  check_phase_completion env goal_id phase w = (SUPERVISOR_EXIT_COMPLETE, w') -> completed_from goal_id phase w w'.
Proof using DBS.
  intros H. destruct (has_goal_store env) eqn:Hst;
    [|destruct phase; unfold check_phase_completion, plan_is_complete, goal_is_complete in H; by rewrite Hst in H].
  destruct phase; unfold check_phase_completion, mbind, M_bind in H.
  - pose proof (plan_is_complete_reads goal_id w) as Hp. destruct (plan_is_complete env goal_id w) as [b w1].
    destruct Hp as (Hd & G & A & I & C). destruct b; [|done].
    pose proof (set_goal_completes goal_id SUPERVISOR_PHASE_PLAN w w1 Hst (Hd eq_refl) G A I C) as Hc.
    cbn [completed_status] in Hc. destruct (set_goal _ _ _ w1) as [rc w2]. by injection H as <-.
  - pose proof (goal_is_complete_reads goal_id w) as Hp. destruct (goal_is_complete env goal_id w) as [b w1].
    destruct Hp as (Hd & G & A & I & C). destruct b; [|done].
    pose proof (set_goal_completes goal_id SUPERVISOR_PHASE_EXECUTE w w1 Hst (Hd eq_refl) G A I C) as Hc.
    cbn [completed_status] in Hc. destruct (set_goal _ _ _ w1) as [rc w2]. by injection H as <-.
Qed.

(** *** The loop *)

(** Run the first computation of a sequence. *)
Ltac bind_step x w :=
  unfold mbind at 1, M_bind at 1;
  lazymatch goal with |- context [match ?m with (_, _) => _ end] => destruct m as [x w] end.

(** The same in a hypothesis, with the equation. *)
Ltac bind_step_in H x w E :=
  unfold mbind at 1, M_bind at 1 in H;
  lazymatch type of H with context [match ?m with (_, _) => _ end] => destruct m as [x w] eqn:E end.

Section Run.
Context (session_process_message session_continue : cstr -> M Z).

Lemma context_exit goal_id phase w : (handle_context_full_exit env goal_id phase w).1 = SUPERVISOR_EXIT_CONTEXT.
Proof using Type.
  unfold handle_context_full_exit. bind_step x w1. done.
Qed.

(** *** The worlds of a run in which the phase is checked *)

(** A computation answers [x] and leaves [w']. *)
Definition gives {A} (m : M A) (w : World) (x : A) (w' : World) : Prop := m w = (x, w').

(** What happens before the first check: recovery when executing, the first message, and
    the session working on it without an error. *)
Definition first_check (goal_id : cstr) (phase : SupervisorPhase) (w w0 : World) : Prop :=
  exists n w1 msg w2,
    match phase with
    | SUPERVISOR_PHASE_EXECUTE => gives (supervisor_recover_orphaned_actions env goal_id) w n w1
    | SUPERVISOR_PHASE_PLAN => w1 = w
    end /\
    gives (match phase with
           | SUPERVISOR_PHASE_PLAN => build_planner_message env goal_id
           | SUPERVISOR_PHASE_EXECUTE => build_executor_message env goal_id
           end) w1 (Some msg) w2 /\
    gives (session_process_message msg) w2 0 w0.

(** What happens in an iteration before its check: the approvals are handled, and the
    session is given the notifications when the poller's descriptor can be read or a
    subagent has changed. *)
Definition later_check (t : SupervisorTick) (w w0 : World) : Prop :=
  tick_running t = true /\ 0 <= tick_ready t /\
  exists w1, gives (tick_approvals t) w tt w1 /\
    if decide ((tick_readable t = true /\ 0 < tick_ready t) \/ 0 < tick_changes t)
    then exists rc, gives (process_notifications (tick_bundle t) session_continue) w1 rc w0 /\ rc <> SUPERVISOR_EXIT_CONTEXT
    else w0 = w1.

(** The worlds before the iterations, and those that are checked: an incomplete check is
    followed by the next iteration. *)
Inductive run_reaches (goal_id : cstr) (phase : SupervisorPhase) (ticks : nat -> SupervisorTick) (w : World) : nat -> World -> Prop :=
| reaches_loop w0 c w1 : first_check goal_id phase w w0 ->
    gives (check_phase_completion env goal_id phase) w0 c w1 -> c <> SUPERVISOR_EXIT_COMPLETE ->
    run_reaches goal_id phase ticks w 0 w1
| reaches_skip i w1 : run_reaches goal_id phase ticks w i w1 -> tick_ready (ticks i) < 0 ->
    run_reaches goal_id phase ticks w (S i) w1
| reaches_next i w1 w0 c w2 : run_reaches goal_id phase ticks w i w1 -> later_check (ticks i) w1 w0 ->
    gives (check_phase_completion env goal_id phase) w0 c w2 -> c <> SUPERVISOR_EXIT_COMPLETE ->
    run_reaches goal_id phase ticks w (S i) w2.

Definition run_checks (goal_id : cstr) (phase : SupervisorPhase) (ticks : nat -> SupervisorTick) (w w0 : World) : Prop :=
  first_check goal_id phase w w0 \/ exists i w1, run_reaches goal_id phase ticks w i w1 /\ later_check (ticks i) w1 w0.

(** An iteration ends in one of five ways. *)
Inductive iterated (goal_id : cstr) (phase : SupervisorPhase) (t : SupervisorTick) (e : Z) (w : World) : LoopStep * World -> Prop :=
| iterated_gives_up w' : iterated goal_id phase t e w (Exit SUPERVISOR_EXIT_ERROR, w')
| iterated_context w' : iterated goal_id phase t e w (Exit SUPERVISOR_EXIT_CONTEXT, w')
| iterated_complete w0 w' : later_check t w w0 -> completed_from goal_id phase w0 w' ->
    iterated goal_id phase t e w (Exit SUPERVISOR_EXIT_COMPLETE, w')
| iterated_skipped : tick_ready t < 0 -> iterated goal_id phase t e w (Continue e, w)
| iterated_continue w0 c e' w' : later_check t w w0 -> gives (check_phase_completion env goal_id phase) w0 c w' ->
    c <> SUPERVISOR_EXIT_COMPLETE -> 0 <= e' <= e + 1 -> e' < max_consecutive_errors ->
    iterated goal_id phase t e w (Continue e', w').

Lemma iteration_cases goal_id phase t e w :
  0 <= e -> iterated goal_id phase t e w (supervisor_iteration env session_continue goal_id phase t e w).
Proof using DBS.
  intros He. unfold supervisor_iteration. destruct (tick_running t) eqn:Hrun; cbn [negb]; [|constructor].
  destruct (Z.ltb_spec (tick_ready t) 0) as [Hready|Hready]; [destruct (tick_running_after t); by constructor|].
  unfold mbind at 1, M_bind at 1. destruct (tick_approvals t w) as [[] w1] eqn:Ea.
  unfold mbind at 1, M_bind at 1.
  match goal with |- context [match ?m with (_, _) => _ end] => destruct m as [rc w2] eqn:Er end.
  assert (rc <> SUPERVISOR_EXIT_CONTEXT -> later_check t w w2) as Hlater.
  { intros Hrc. split; [done|]. split; [done|]. exists w1. split; [done|].
    assert (tick_readable t && (0 <? tick_ready t) || (0 <? tick_changes t) =
      bool_decide ((tick_readable t = true /\ 0 < tick_ready t) \/ 0 < tick_changes t)) as Eb.
    { apply eq_true_iff_eq. rewrite bool_decide_eq_true, orb_true_iff, andb_true_iff, !Z.ltb_lt. done. }
    rewrite Eb in Er. case_bool_decide as Hd; [rewrite decide_True by done; by exists rc|rewrite decide_False by done].
    by injection Er as _ <-. }
  destruct (Z.eqb_spec rc SUPERVISOR_EXIT_CONTEXT) as [->|Hrc].
  - pose proof (context_exit goal_id phase w2) as Hx. unfold mbind, M_bind.
    destruct (handle_context_full_exit _ _ _ w2) as [rc' w3]. cbn in Hx. subst rc'. constructor.
  - specialize (Hlater Hrc).
    set (e' := if negb (rc =? 0) then e + 1 else 0). assert (0 <= e' <= e + 1) as He' by (subst e'; destruct (negb (rc =? 0)); lia).
    destruct (Z.leb_spec max_consecutive_errors e') as [_|Hlt]; [constructor|].
    unfold mbind, M_bind. destruct (check_phase_completion _ _ _ w2) as [c w3] eqn:Ec.
    destruct (Z.eqb_spec c SUPERVISOR_EXIT_COMPLETE) as [->|Hc].
    + eapply iterated_complete; [exact Hlater|]. by eapply check_phase_complete.
    + by eapply iterated_continue.
Qed.

Lemma loop_complete fuel goal_id phase ticks i e w0 w w' :
  0 <= e -> run_reaches goal_id phase ticks w0 i w ->
  supervisor_loop env session_continue fuel goal_id phase ticks i e w = (Some SUPERVISOR_EXIT_COMPLETE, w') ->
  exists w1, run_checks goal_id phase ticks w0 w1 /\ completed_from goal_id phase w1 w'.
Proof using DBS.
  revert i e w. induction fuel as [|fuel IH]; intros i e w He Hr H; cbn [supervisor_loop] in H; [done|].
  unfold mbind, M_bind in H. pose proof (iteration_cases goal_id phase (ticks i) e w He) as Hi.
  destruct Hi as [w1|w1|w1 w2 Hl Hc|Hready|w1 c e' w2 Hl Hg Hc He' _]; [done..| | |].
  - injection H as <-. exists w1. split; [|done]. right. by exists i, w.
  - eapply IH; [exact He| |exact H]. by apply reaches_skip.
  - eapply IH; [|by eapply reaches_next|exact H]. lia.
Qed.

(** C16: A supervisor reports completion only for a complete phase: whatever the
    session, the tools and the notifications do, an exit with success comes from a
    world of this run in which the phase was checked ([run_checks]: after the first
    message, or in an iteration after its approvals and notifications, all earlier
    checks having found the phase incomplete). In that world the tables have a plan
    with actions (planning), or the goal marked completed or the key of every
    assertion mapped to true by the world state (execution); and the goal is then
    marked active or completed (if that statement succeeds), and nothing else is
    changed. *)
Theorem completion_sound fuel goal_id phase ticks w w' :
  supervisor_run env session_process_message session_continue fuel goal_id phase ticks w =
    (Some SUPERVISOR_EXIT_COMPLETE, w') ->
  exists w0, run_checks goal_id phase ticks w w0 /\
    phase_complete goal_id phase w0 /\ w_actions w' = w_actions w0 /\ w_items w' = w_items w0 /\
    (calm w0 -> exists now, w_goals w' =
       update_where (is_goal goal_id) (set_goal_status (completed_status phase) now) (w_goals w0)).
Proof using DBS.
  intros H. fold (completed_from goal_id phase). unfold supervisor_run in H.
  bind_step_in H n w1 E1. bind_step_in H msg w2 E2. destruct msg as [msg|]; [|done]. bind_step_in H rc w3 E3.
  destruct (rc =? SESSION_CONTEXT_FULL).
  - pose proof (context_exit goal_id phase w3) as Hx. unfold mbind, M_bind in H.
    destruct (handle_context_full_exit _ _ _ w3) as [rc' w4]. cbn in Hx. by subst rc'.
  - destruct (Z.eqb_spec rc 0) as [->|]; [|done]. cbn [negb] in H. unfold mbind, M_bind in H.
    assert (first_check goal_id phase w w3) as Hfirst.
    { exists n, w1, msg, w2. split; [|by split]. destruct phase; [by injection E1 as _ <-|done]. }
    destruct (check_phase_completion _ _ _ w3) as [c w4] eqn:Ec.
    destruct (Z.eqb_spec c SUPERVISOR_EXIT_COMPLETE) as [->|Hc].
    + injection H as <-. exists w3. split; [by left|]. by apply check_phase_complete.
    + eapply loop_complete; [|by eapply reaches_loop|exact H]. lia.
Qed.

(** A tick whose notifications the session fails on. *)
Definition tick_fails (t : SupervisorTick) : Prop :=
  0 < tick_ready t /\ tick_readable t = true /\
  exists n text, tick_bundle t = Some (n, Some text) /\ 0 < n /\ forall w, (session_continue text w).1 <> 0.

Definition loop_ends (ticks : nat -> SupervisorTick) (n : nat) : Prop :=
  tick_running (ticks n) = false \/ forall k, (n <= k < n + 3)%nat -> tick_fails (ticks k).

Lemma failing_iteration goal_id phase t e w :
  tick_fails t ->
  match (supervisor_iteration env session_continue goal_id phase t e w).1 with
  | Exit _ => True
  | Continue e' => e' = e + 1 /\ e' < max_consecutive_errors
  end.
Proof using Type.
  intros (Hr & Hread & n & text & Hb & Hn & Hfail). unfold supervisor_iteration.
  destruct (tick_running t); cbn [negb]; [|done]. destruct (Z.ltb_spec (tick_ready t) 0); [lia|].
  bind_step u w1. rewrite Hread, (proj2 (Z.ltb_lt _ _) Hr). cbn [andb orb].
  unfold process_notifications. rewrite Hb, (proj2 (Z.ltb_lt _ _) Hn).
  specialize (Hfail w1). unfold mbind, M_bind. destruct (session_continue text w1) as [rc w2]. cbn [fst] in Hfail.
  cbn [mret M_ret].
  assert (forall c, (if c =? SUPERVISOR_EXIT_CONTEXT then True else c <> 0) ->
    match ((if c =? SUPERVISOR_EXIT_CONTEXT
            then (fun w => let '(x, w') := handle_context_full_exit env goal_id phase w in (Exit x, w'))
            else if max_consecutive_errors <=? (if negb (c =? 0) then e + 1 else 0)
                 then (fun w => (Exit SUPERVISOR_EXIT_ERROR, w))
                 else (fun w => let '(x, w') := check_phase_completion env goal_id phase w in
                         ((if x =? SUPERVISOR_EXIT_COMPLETE then Exit SUPERVISOR_EXIT_COMPLETE
                           else Continue (if negb (c =? 0) then e + 1 else 0)), w'))) w2).1
    with Exit _ => True | Continue e' => e' = e + 1 /\ e' < max_consecutive_errors end) as Hend.
  { intros c Hc. destruct (c =? SUPERVISOR_EXIT_CONTEXT); [by destruct (handle_context_full_exit _ _ _ w2)|].
    rewrite (proj2 (Z.eqb_neq _ _) Hc). cbn [negb]. destruct (Z.leb_spec max_consecutive_errors (e + 1)); [done|].
    destruct (check_phase_completion _ _ _ w2) as [c' w3]. cbn. by destruct (c' =? _). }
  apply Hend. destruct (rc =? SESSION_CONTEXT_FULL); [done|].
  by rewrite (proj2 (Z.eqb_neq _ _) Hfail).
Qed.

(** Errors on every tick from [i] to [m] end the loop by the third. *)
Lemma failing_loop_ends fuel goal_id phase ticks i e w (m : nat) :
  0 <= e -> (3 - Z.to_nat e <= fuel)%nat -> (3 - Z.to_nat e <= m - i)%nat ->
  (forall k, (i <= k < m)%nat -> tick_fails (ticks k)) ->
  e < 3 ->
  exists rc w', supervisor_loop env session_continue fuel goal_id phase ticks i e w = (Some rc, w').
Proof using Type.
  revert i e w. induction fuel as [|fuel IH]; intros i e w He Hf Hm Hk Hlt; [lia|]. cbn [supervisor_loop].
  pose proof (failing_iteration goal_id phase (ticks i) e w (Hk i ltac:(lia))) as Hi.
  bind_step step w1. cbn [fst] in Hi. destruct step as [rc|e']; [by eexists _, _|]. destruct Hi as [-> Hmax].
  unfold max_consecutive_errors in Hmax. apply IH; try lia. intros k Hk'. apply Hk. lia.
Qed.

Lemma loop_terminates fuel goal_id phase ticks n i e w :
  loop_ends ticks n -> (i <= n)%nat -> (n + 3 <= i + fuel)%nat -> 0 <= e < 3 ->
  exists rc w', supervisor_loop env session_continue fuel goal_id phase ticks i e w = (Some rc, w').
Proof using DBS.
  revert i e w. induction fuel as [|fuel IH]; intros i e w Hend Hi Hf He; [lia|].
  destruct (decide (i = n)) as [->|Hne].
  - destruct Hend as [Hoff|Hfails].
    + cbn [supervisor_loop]. unfold supervisor_iteration. rewrite Hoff. cbn. by eexists _, _.
    + apply (failing_loop_ends _ _ _ _ _ _ _ (n + 3)); auto; lia.
  - cbn [supervisor_loop]. pose proof (iteration_cases goal_id phase (ticks i) e w ltac:(lia)) as Hc.
    bind_step step w1. inversion Hc as [| | |Hready|w0 c e' ? _ _ _ He' Hmax]; subst; try by eexists _, _.
    + apply IH; auto; lia.
    + unfold max_consecutive_errors in Hmax. apply IH; auto; lia.
Qed.

(** Termination: a supervisor stops. Whatever the session does, when the
    handler of a termination signal has cleared the flag by some iteration, or
    the session fails on the notifications of three iterations in a row, the run
    has ended with an exit code three iterations later. *)
Theorem supervisor_terminates fuel goal_id phase ticks n w :
  loop_ends ticks n -> (n + 3 <= fuel)%nat ->
  exists rc w', supervisor_run env session_process_message session_continue fuel goal_id phase ticks w =
    (Some rc, w').
Proof using DBS.
  intros Hend Hf. unfold supervisor_run.
  bind_step k w1. bind_step msg w2. destruct msg as [msg|]; [|by eexists _, _].
  bind_step rc w3. destruct (rc =? SESSION_CONTEXT_FULL); [bind_step rc' w4; by eexists _, _|].
  destruct (negb (rc =? 0)); [by eexists _, _|].
  bind_step c w4. destruct (c =? SUPERVISOR_EXIT_COMPLETE); [by eexists _, _|].
  apply (loop_terminates _ _ _ _ n); auto; lia.
Qed.
End Run.
End Completion.

(** ** A goal with three running actions *)

Module SupervisorExamples.
Definition running (id item : string) : ActionRow :=
  mkActionRow (cs id) (cs "g1") None (Some (cs item)) (cs "work") (Some (cs "[]")) (Some (cs "[]")) 0 1
    (Some (cs "testing")) None 0 6 6.
Definition item (id : string) (status : Z) : WorkItemRow :=
  mkWorkItemRow (cs id) (cs "goal_q") (cs "work") None (Some (cs "w")) status 1 3 6 (Some 6) None
    (Some (cs "all green")) (Some (cs "broken")).

(** One item is done, one is still with a worker, one does not exist. *)
Definition world : World :=
  mkWorld [GoapExamples.goal_row] [running "a1" "i1"; running "a2" "i2"; running "a3" "i3"]
    [item "i1" 2; item "i2" 1] [] [] 9.

Example recovered :
  let '(n, w') := supervisor_recover_orphaned_actions GoapExamples.env (cs "g1") world in
  n = 2 /\ map ar_status (w_actions w') = [2; 1; 0] /\ map ar_result (w_actions w') = [Some (cs "all green"); None; None].
Proof. vm_compute. done. Qed.

(** A session that asserts what the goal asks for when it first runs. *)
Definition session (msg : cstr) : M Z :=
  _ ← execute_goap_update_world_state GoapExamples.env GoapExamples.update; mret 0.
Definition idle_tick (i : nat) : SupervisorTick :=
  mkSupervisorTick (i <? 4)%nat 0 true 0 false (mret tt) None.
Definition failing_tick (i : nat) : SupervisorTick :=
  mkSupervisorTick true 1 true 0 true (mret tt) (Some (1, Some (cs "worker failed"))).

Definition run (session_process session_continue : cstr -> M Z) (ticks : nat -> SupervisorTick) :=
  supervisor_run GoapExamples.env session_process session_continue 8 (cs "g1") SUPERVISOR_PHASE_EXECUTE ticks.

Lemma world_recovers : recovers_with GoapExamples.env (cs "g1") (cs "goal_q") world.
Proof.
  split; [done|done|exact GoapExamples.goals_fine| | |].
  - split; [|by apply (bool_decide_eq_true_1 (NoDup _)); vm_compute].
    repeat constructor; cbn; try lia; by left || done.
  - repeat constructor; cbn; lia.
  - exists GoapExamples.goal_row. split_and!; [left|reflexivity|reflexivity].
Qed.
End SupervisorExamples.

Lemma recovery_exact_witness :
  exists w', (supervisor_recover_orphaned_actions GoapExamples.env (cs "g1") SupervisorExamples.world).2 = w' /\
    Forall2 (fun r r' => runs_for (cs "g1") r ->
               row_recovered (cs "goal_q") (w_items SupervisorExamples.world) 9 r r')
      (w_actions SupervisorExamples.world) (w_actions w').
Proof.
  destruct (recovery_exact _ _ _ _ SupervisorExamples.world_recovers) as (w' & E & _ & _ & A & _).
  exists w'. split; [by rewrite E|]. eapply Forall2_impl; [exact A|]. intros r r' [H _]. exact H.
Defined.

Lemma completion_sound_witness :
  exists w0, phase_complete (cs "g1") SUPERVISOR_PHASE_EXECUTE w0 /\
    w_actions (SupervisorExamples.run SupervisorExamples.session SupervisorExamples.session
                 SupervisorExamples.idle_tick SupervisorExamples.world).2 = w_actions w0.
Proof.
  destruct (completion_sound GoapExamples.env SupervisorExamples.session SupervisorExamples.session 8 (cs "g1")
              SUPERVISOR_PHASE_EXECUTE SupervisorExamples.idle_tick SupervisorExamples.world
              (SupervisorExamples.run SupervisorExamples.session SupervisorExamples.session
                 SupervisorExamples.idle_tick SupervisorExamples.world).2) as (w0 & _ & Hp & A & _);
    [vm_compute; reflexivity|].
  exists w0. split; [exact Hp|exact A].
Defined.

Lemma supervisor_terminates_witness :
  (exists rc w', SupervisorExamples.run (fun _ => mret 0) (fun _ => mret 0) SupervisorExamples.idle_tick
                   GoapExamples.world = (Some rc, w')) /\
  (exists rc w', SupervisorExamples.run (fun _ => mret 0) (fun _ => mret (-1)) SupervisorExamples.failing_tick
                   GoapExamples.world = (Some rc, w')).
Proof.
  split.
  - apply (supervisor_terminates _ _ _ _ _ _ _ 4); [by left|lia].
  - apply (supervisor_terminates _ _ _ _ _ _ _ 0); [right|lia].
    intros k _. split_and!; [done|done|]. exists 1, (cs "worker failed"). by split_and!.
Defined.
