(* ===== verification/Orchestrator.v ===== *)
(** * Supervisor processes (lib/orchestrator/orchestrator.c)

    Starting, probing, reaping and stopping the supervisor of a goal. The
    processes of the operating system are a parameter: the class [Processes] with
    the calls the code makes, and [ProcessesSpec] with what the code relies on.
    The functions run over the tables and the processes together. *)

From S2P Require Import Prelude CString Json Sql WorkQueue GoapState ActionStore GoalStore GoapTools.
Local Open Scope bool_scope.
Local Open Scope Z_scope.

(** ** Processes *)

(** The answer of [kill]: 0, -1 with ESRCH, or -1 with another error. *)
Inductive KillAnswer := KillDone | KillNoProcess | KillRefused.

(** The answer of [waitpid]: the pid asked for, 0 (nothing to report yet), or -1. *)
Inductive WaitAnswer := WaitReaped | WaitRunning | WaitFailed.

#[export] Instance KillAnswer_eq_dec : EqDecision KillAnswer.
Proof. solve_decision. Defined.

Definition SIGKILL : Z := 9.
Definition SIGTERM : Z := 15.

Class Processes (PS : Type) := {
  process_spawn_devnull : list cstr -> PS -> option Z * PS;
  kill : Z -> Z -> PS -> KillAnswer * PS;
  waitpid : Z -> bool -> PS -> WaitAnswer * PS;
  usleep : Z -> PS -> PS;
  now_millis : PS -> Z * PS
}.

(** [running] are the children of the program that run, with their arguments. A
    child may end at any time, so every call may lose some; only a spawn adds one.
    A probe of a running child finds it, what waitpid reaps has ended, and a
    killed and awaited child has ended. *)
Class ProcessesSpec (PS : Type) {OS : Processes PS} := {
  running : PS -> gmap Z (list cstr);
  spawn_running : forall args ps pid ps', process_spawn_devnull args ps = (Some pid, ps') ->
    0 < pid < 2 ^ 31 /\ running ps' ⊆ <[pid := args]> (running ps);
  spawn_fails : forall args ps ps', process_spawn_devnull args ps = (None, ps') -> running ps' ⊆ running ps;
  kill_running : forall pid sig ps, running (kill pid sig ps).2 ⊆ running ps;
  kill_finds : forall pid sig ps, pid ∈ dom (running (kill pid sig ps).2) -> (kill pid sig ps).1 = KillDone;
  wait_running : forall pid hang ps, running (waitpid pid hang ps).2 ⊆ running ps;
  wait_reaps : forall pid hang ps, pid ∈ dom (running (waitpid pid hang ps).2) ->
    (waitpid pid hang ps).1 = WaitRunning;
  wait_killed : forall pid ps, pid ∉ dom (running (waitpid pid true (kill pid SIGKILL ps).2).2);
  usleep_running : forall us ps, running (usleep us ps) ⊆ running ps;
  now_running : forall ps, running (now_millis ps).2 ⊆ running ps
}.

(** ** The operations *)

(** A computation over the tables and the processes. *)
Definition P (PS A : Type) : Type := World * PS -> A * (World * PS).

#[export] Instance P_ret {PS} : MRet (P PS) := fun A x s => (x, s).
#[export] Instance P_bind {PS} : MBind (P PS) := fun A B k m s => let '(x, s') := m s in k x s'.

Definition db {PS A} (m : M A) : P PS A := fun s => let '(x, w) := m s.1 in (x, (w, s.2)).
Definition os {PS A} (f : PS -> A * PS) : P PS A := fun s => let '(x, ps) := f s.2 in (x, (s.1, ps)).

Section Orchestrator.
Context {DB : Sqlite} {PS : Type} {OS : Processes PS} (env : GoapEnv).

Definition update_supervisor (goal_id : cstr) (pid started_at : Z) : P PS Z :=
  db (on_goals (fun st now rows => goal_store_update_supervisor st now goal_id pid started_at rows)).

Definition update_goal_status (goal_id : cstr) (s : GoalStatus) : P PS Z :=
  db (on_goals (fun st now rows => goal_store_update_status st now goal_id s rows)).

Definition supervisor_args (exe_path goal_id phase_str : cstr) : list cstr :=
  [exe_path; cs "--supervisor"; cs "--goal"; goal_id; cs "--phase"; phase_str; cs "--yolo"].

Definition orchestrator_spawn_supervisor (goal_id : cstr) : P PS Z :=
  goal ← db (get_goal goal_id);
  match goal with
  | None => mret (-1)
  | Some goal =>
      let phase_str := if bool_decide (g_status goal = GOAL_STATUS_PLANNING) then cs "plan" else cs "execute" in
      match executable_path env with
      | None => mret (-1)
      | Some exe_path =>
          spawned ← os (process_spawn_devnull (supervisor_args exe_path goal_id phase_str));
          match spawned with
          | None => mret (-1)
          | Some pid =>
              started_at ← os now_millis;
              rc ← update_supervisor goal_id pid started_at;
              if negb (rc =? 0) then
                _ ← os (kill pid SIGKILL);
                _ ← os (waitpid pid true);
                mret (-1)
              else mret 0
          end
      end
  end.

Definition orchestrator_supervisor_alive (goal_id : cstr) : P PS bool :=
  goal ← db (get_goal goal_id);
  match goal with
  | None => mret false
  | Some goal =>
      let pid := g_supervisor_pid goal in
      if pid <=? 0 then mret false
      else
        r ← os (kill pid 0);
        match r with
        | KillDone => mret true
        | KillNoProcess => _ ← update_supervisor goal_id 0 0; mret false
        | KillRefused => mret false
        end
  end.

Definition list_all : P PS (list Goal) := db (on_goals (fun st _ rows => (goal_store_list_all st rows, rows))).

(** The loop over a list of goals. *)
Fixpoint for_each (body : Goal -> P PS unit) (goals : list Goal) : P PS unit :=
  match goals with
  | [] => mret tt
  | g :: goals' => _ ← body g; for_each body goals'
  end.

(** A probe that clears the pid when there is no such process. *)
Definition clear_if_dead (g : Goal) : P PS unit :=
  r ← os (kill (g_supervisor_pid g) 0);
  match r with
  | KillNoProcess => _ ← update_supervisor (g_id g) 0 0; mret tt
  | _ => mret tt
  end.

Definition reap_supervisor (g : Goal) : P PS unit :=
  let pid := g_supervisor_pid g in
  if pid <=? 0 then mret tt
  else
    result ← os (waitpid pid false);
    match result with
    | WaitReaped => _ ← update_supervisor (g_id g) 0 0; mret tt
    | WaitFailed => clear_if_dead g
    | WaitRunning => mret tt
    end.

Definition orchestrator_reap_supervisors : P PS unit :=
  goals ← list_all; for_each reap_supervisor goals.

Definition orchestrator_kill_supervisor (goal_id : cstr) : P PS Z :=
  goal ← db (get_goal goal_id);
  match goal with
  | None => mret (-1)
  | Some goal =>
      let pid := g_supervisor_pid goal in
      if pid <=? 0 then mret (-1)
      else
        r ← os (kill pid SIGTERM);
        match r with
        | KillNoProcess => _ ← update_supervisor goal_id 0 0; mret 0
        | KillRefused => mret (-1)
        | KillDone =>
            _ ← os (fun ps => (tt, usleep 100000 ps));
            result ← os (waitpid pid false);
            _ ← (match result with
                 | WaitRunning => _ ← os (kill pid SIGKILL); _ ← os (waitpid pid true); mret tt
                 | _ => mret tt
                 end);
            _ ← update_supervisor goal_id 0 0;
            _ ← update_goal_status goal_id GOAL_STATUS_PAUSED;
            mret 0
        end
  end.

Definition check_stale_goal (g : Goal) : P PS unit :=
  if g_supervisor_pid g <=? 0 then mret tt else clear_if_dead g.

Definition orchestrator_check_stale : P PS unit :=
  goals ← list_all; for_each check_stale_goal goals.

Definition list_by_status (s : GoalStatus) : P PS (list Goal) :=
  db (on_goals (fun st _ rows => (goal_store_list_by_status st s rows, rows))).

Fixpoint respawn_loop (goals : list Goal) (respawned : Z) : P PS Z :=
  match goals with
  | [] => mret respawned
  | g :: goals' =>
      if negb (g_supervisor_pid g =? 0) then respawn_loop goals' respawned
      else
        rc ← orchestrator_spawn_supervisor (g_id g);
        respawn_loop goals' (if rc =? 0 then respawned + 1 else respawned)
  end.

Definition orchestrator_respawn_dead : P PS Z :=
  planning ← list_by_status GOAL_STATUS_PLANNING;
  respawned ← respawn_loop planning 0;
  active ← list_by_status GOAL_STATUS_ACTIVE;
  respawn_loop active respawned.
End Orchestrator.

(** ** A concrete process table *)

(** The children that run, and the next pid; a process ends when it gets a
    termination signal, or when it is waited for. *)
Record Children := mkChildren {
  children : gmap Z (list cstr);
  next_pid : Z
}.

Definition without (pid : Z) (ps : Children) : Children := mkChildren (delete pid (children ps)) (next_pid ps).

#[export] Instance RefProcesses : Processes Children := {
  process_spawn_devnull args ps :=
    if (0 <? next_pid ps) && (next_pid ps <? 2 ^ 31)
    then (Some (next_pid ps), mkChildren (<[next_pid ps := args]> (children ps)) (next_pid ps + 1))
    else (None, ps);
  kill pid sig ps :=
    match children ps !! pid with
    | Some _ => (KillDone, if sig =? 0 then ps else without pid ps)
    | None => (KillNoProcess, ps)
    end;
  waitpid pid hang ps :=
    match children ps !! pid with
    | Some _ => if hang : bool then (WaitReaped, without pid ps) else (WaitRunning, ps)
    | None => (WaitFailed, ps)
    end;
  usleep _ ps := ps;
  now_millis ps := (1000 * next_pid ps, ps)
}.

#[export] Instance RefProcessesSpec : ProcessesSpec Children.
Proof.
  refine {| running := children |}.
  - intros args ps pid ps'. cbn. destruct (_ && _) eqn:E; [|done]. intros [= <- <-].
    apply andb_true_iff in E as [E1%Z.ltb_lt E2%Z.ltb_lt]. done.
  - intros args ps ps'. cbn. destruct (_ && _); [done|]. by intros [= <-].
  - intros pid sig ps. cbn. destruct (children ps !! pid); [|done]. destruct (sig =? 0); [done|]. apply delete_subseteq.
  - intros pid sig ps. cbn. destruct (children ps !! pid) eqn:E; [done|]. cbn. intros [x H]%elem_of_dom. congruence.
  - intros pid hang ps. cbn. destruct (children ps !! pid); [|done]. destruct hang; [apply delete_subseteq|done].
  - intros pid hang ps. cbn. destruct (children ps !! pid) eqn:E; [destruct hang|]; cbn; try done.
    + rewrite dom_delete. set_solver.
    + intros [x H]%elem_of_dom. congruence.
  - intros pid ps. cbn. destruct (children ps !! pid) eqn:E; cbn.
    + rewrite lookup_delete_eq. cbn. rewrite dom_delete. set_solver.
    + rewrite E. cbn. by apply not_elem_of_dom.
  - done.
  - done.
Defined.
