(* ===== verification/OrchestratorTool.v ===== *)
(** * The orchestrator tool (lib/tools/orchestrator_tool.c)

    The operations that start, pause, cancel and report goals, over the tables
    and the supervisor processes. *)

From S2P Require Import Prelude CString Json ToolArgs Sql WorkQueue GoapState ActionStore GoalStore ParamExtract GoapTools Supervisor Orchestrator.
Local Open Scope bool_scope.
Local Open Scope Z_scope.

(** The type constants of cJSON.h, and cJSON_AddBoolToObject, whose last
    parameter is an integer. *)
Definition cJSON_False : Z := 1.
Definition cJSON_True : Z := 2.
Definition bool_member (key : string) (boolean : Z) : cstr * cJSON := (cs key, JBool (negb (boolean =? 0))).

Definition DECOMPOSITION_INSTRUCTION : cstr :=
  cs "You are now in DECOMPOSITION MODE. Your task is to break down the plan below " ++
  cs "into GOAP goals and actions." ++ NL ++ NL ++
  cs "For each major objective in the plan:" ++ NL ++
  cs "1. Create a goal using " ++ operation "create_goal" ++ cs ") with:" ++ NL ++
  cs "   - A short descriptive name" ++ NL ++
  cs "   - A description of what the goal achieves" ++ NL ++
  cs "   - goal_state: JSON object with boolean assertion keys that define completion" ++ NL ++
  cs "2. Create initial compound actions for each goal using " ++ operation "create_actions" ++ cs "):" ++ NL ++
  cs "   - 3-5 high-level phases as compound actions (is_compound: true)" ++ NL ++
  cs "   - Each with preconditions (what must be true first) and effects (what becomes true)" ++ NL ++
  cs "   - Include verification phases (code_review, testing) alongside implementation" ++ NL ++
  cs "   - Preconditions create ordering: an action waits until its preconditions are in world_state" ++ NL ++
  cs "3. After creating each goal and its initial actions, call orchestrator(operation=" ++ quoted (cs "start_goal") ++
  cs ") to begin execution." ++ NL ++ NL ++
  cs "PLAN TO DECOMPOSE:" ++ NL.

Section Tool.
Context {DB : Sqlite} {J : CJson} {PS : Type} {OS : Processes PS} (env : GoapEnv).

Definition tool_json (members : list (cstr * cJSON)) : ToolOutput :=
  (cJSON_PrintUnformatted (JObject (bool_member "success" cJSON_True :: members)), true).

(** ** Reports *)

Definition execute_execute_plan (tc : ToolCall) : P PS ToolOutput :=
  match extract tc "plan_text" with
  | None => mret (tool_result_set_error "Missing required parameter: plan_text")
  | Some plan_text =>
      mret (tool_json [(cs "instruction", JString (DECOMPOSITION_INSTRUCTION ++ plan_text))])
  end.

Definition list_goals_entry (g : Goal) : cJSON :=
  let gp := goap_check_progress (g_goal_state g) (g_world_state g) in
  JObject ([(cs "id", JString (g_id g)); (cs "name", JString (g_name g));
            (cs "status", JString (goal_status_to_string (g_status g)));
            (cs "progress", JString (fit 32 (int_text (satisfied gp) ++ cs "/" ++ int_text (total gp))))] ++
           opt_string "summary" (g_summary g) ++
           [bool_member "supervisor_running"
              (if 0 <? g_supervisor_pid g then cJSON_True else cJSON_False)]).

Definition execute_list_goals (tc : ToolCall) : P PS ToolOutput :=
  if negb (has_goal_store env) then mret (tool_result_set_error "Goal store not available")
  else
    goals ← list_all;
    mret (tool_json (json_array "goals" (list_goals_entry <$> goals))).

Definition build_action_summary (a : Action) : list (cstr * cJSON) :=
  [(cs "id", JString (a_id a))] ++ opt_string "description" (a_description a) ++
  [(cs "status", JString (action_status_to_string (a_status a))); (cs "is_compound", JBool (a_is_compound a))] ++
  opt_string "role" (nonempty_text (Some (a_role a))) ++
  opt_member "effects" (a_effects a ≫= cJSON_Parse) ++
  match a_result a with
  | Some r =>
      [(cs "result_preview",
        JString (if 200 <? Z.of_nat (length r) then fit 220 (take 200 r ++ cs "...") else r))]
  | None => []
  end.

Definition is_child_of (parent_id : cstr) (a : Action) : bool :=
  match parent_id with
  | [] => match a_parent_action_id a with [] => true | _ => false end
  | _ => streq (a_parent_action_id a) parent_id
  end.

(** The loop over the actions, with the recursive call for the children. *)
Fixpoint tree_nodes (children_of : cstr -> option (list cJSON)) (parent_id : cstr) (l : list Action)
  : option (list cJSON) :=
  match l with
  | [] => Some []
  | a :: l' =>
      if negb (is_child_of parent_id a) then tree_nodes children_of parent_id l'
      else
        children ← (if a_is_compound a then children_of (a_id a) else Some []);
        rest ← tree_nodes children_of parent_id l';
        Some (JObject (build_action_summary a ++
                       match children with [] => [] | _ => [(cs "children", JArray children)] end) :: rest)
  end.

(** The recursion by fuel; [None] when the fuel is not enough. *)
Fixpoint build_action_tree (fuel : nat) (all_actions : list Action) (parent_id : cstr) : option (list cJSON) :=
  match fuel with
  | O => None
  | S fuel' => tree_nodes (build_action_tree fuel' all_actions) parent_id all_actions
  end.

Definition count_member (goal_id : cstr) (key : string) (s : ActionStatus) : P PS (cstr * cJSON) :=
  n ← db (on_actions (fun st _ rows => (action_store_count_by_status st goal_id s rows, rows)));
  mret (cs key, JNumber n).

Definition goal_status_members (goal : Goal) : list (cstr * cJSON) :=
  let gp := goap_check_progress (g_goal_state goal) (g_world_state goal) in
  [(cs "id", JString (g_id goal)); (cs "name", JString (g_name goal))] ++
  opt_string "description" (g_description goal) ++
  [(cs "status", JString (goal_status_to_string (g_status goal)))] ++
  opt_member "goal_state" (g_goal_state goal ≫= cJSON_Parse) ++
  opt_member "world_state" (g_world_state goal ≫= cJSON_Parse) ++
  [(cs "assertions_satisfied", JNumber (satisfied gp)); (cs "assertions_total", JNumber (total gp))] ++
  opt_string "summary" (g_summary goal) ++
  [(cs "supervisor_pid", JNumber (g_supervisor_pid goal))].

(** The result; [None] when the recursion of the tree does not end. *)
Definition execute_goal_status (fuel : nat) (tc : ToolCall) : P PS (option ToolOutput) :=
  match extract tc "goal_id" with
  | None => mret (Some (tool_result_set_error "Missing required parameter: goal_id"))
  | Some goal_id =>
      if negb (has_goal_store env && has_action_store env)
      then mret (Some (tool_result_set_error "Stores not available"))
      else
        goal ← db (get_goal goal_id);
        match goal with
        | None => mret (Some (tool_result_set_error "Goal not found"))
        | Some goal =>
            pending ← count_member goal_id "pending" ACTION_STATUS_PENDING;
            running ← count_member goal_id "running" ACTION_STATUS_RUNNING;
            completed ← count_member goal_id "completed" ACTION_STATUS_COMPLETED;
            failed ← count_member goal_id "failed" ACTION_STATUS_FAILED;
            skipped ← count_member goal_id "skipped" ACTION_STATUS_SKIPPED;
            actions ← db (list_by_goal goal_id);
            mret ((fun tree => tool_json (goal_status_members goal ++
                     [(cs "action_counts", JObject [pending; running; completed; failed; skipped]);
                      (cs "action_tree", JArray tree)])) <$> build_action_tree fuel actions [])
        end
  end.

(** ** Starting, pausing and cancelling *)

(** The error for a goal in the wrong status, cut to its buffer. *)
Definition status_error (before after : string) (s : GoalStatus) : ToolOutput :=
  set_error_text (fit 128 (cs before ++ goal_status_to_string s ++ cs after)).

(** The common beginning: the goal named by the arguments. *)
Definition with_goal (tc : ToolCall) (k : cstr -> Goal -> P PS ToolOutput) : P PS ToolOutput :=
  match extract tc "goal_id" with
  | None => mret (tool_result_set_error "Missing required parameter: goal_id")
  | Some goal_id =>
      if negb (has_goal_store env) then mret (tool_result_set_error "Goal store not available")
      else
        goal ← db (get_goal goal_id);
        match goal with
        | None => mret (tool_result_set_error "Goal not found")
        | Some goal => k goal_id goal
        end
  end.

Definition start_goal (goal_id : cstr) (goal : Goal) : P PS ToolOutput :=
  let original_status := g_status goal in
  if negb (bool_decide (original_status = GOAL_STATUS_PLANNING) || bool_decide (original_status = GOAL_STATUS_PAUSED))
  then mret (status_error "Cannot start goal in " " status (must be planning or paused)" original_status)
  else
    alive ← (if 0 <? g_supervisor_pid goal then orchestrator_supervisor_alive goal_id else mret false);
    if alive : bool then mret (tool_result_set_error "Supervisor already running for this goal")
    else
      rc ← (if bool_decide (original_status = GOAL_STATUS_PAUSED)
            then update_goal_status goal_id GOAL_STATUS_ACTIVE else mret 0);
      if negb (rc =? 0) then mret (tool_result_set_error "Failed to activate goal")
      else
        rc ← orchestrator_spawn_supervisor env goal_id;
        if negb (rc =? 0) then
          _ ← (if bool_decide (original_status = GOAL_STATUS_PAUSED)
               then update_goal_status goal_id original_status else mret 0);
          mret (tool_result_set_error "Failed to spawn supervisor")
        else
          goal ← db (get_goal goal_id);
          mret (tool_json ([(cs "goal_id", JString goal_id);
                            (cs "status", JString (match goal with
                                                   | Some g => goal_status_to_string (g_status g)
                                                   | None => cs "unknown"
                                                   end))] ++
                           opt_member "supervisor_pid" ((fun g => JNumber (g_supervisor_pid g)) <$> goal))).

Definition execute_start_goal (tc : ToolCall) : P PS ToolOutput := with_goal tc start_goal.

Definition pause_goal (goal_id : cstr) (goal : Goal) : P PS ToolOutput :=
  if negb (bool_decide (g_status goal = GOAL_STATUS_ACTIVE))
  then mret (status_error "Cannot pause goal in " " status (must be active)" (g_status goal))
  else
    rc ← orchestrator_kill_supervisor goal_id;
    if rc =? 0
    then mret (tool_json [(cs "goal_id", JString goal_id); (cs "status", JString (cs "paused"))])
    else mret (tool_result_set_error "Failed to pause goal (no supervisor running?)").

Definition execute_pause_goal (tc : ToolCall) : P PS ToolOutput := with_goal tc pause_goal.

Definition cancel_goal (goal_id : cstr) (goal : Goal) : P PS ToolOutput :=
  if bool_decide (g_status goal = GOAL_STATUS_COMPLETED) || bool_decide (g_status goal = GOAL_STATUS_FAILED)
  then mret (status_error "Goal already in terminal state: " "" (g_status goal))
  else
    _ ← (if 0 <? g_supervisor_pid goal then orchestrator_kill_supervisor goal_id else mret 0);
    _ ← update_goal_status goal_id GOAL_STATUS_FAILED;
    mret (tool_json [(cs "goal_id", JString goal_id); (cs "status", JString (cs "failed"))]).

Definition execute_cancel_goal (tc : ToolCall) : P PS ToolOutput := with_goal tc cancel_goal.

(** ** The dispatch *)

(** A handler whose recursion may not end. *)
Definition F (A : Type) : Type := P PS (option A).
#[local] Instance F_ret : MRet F := fun A x => mret (Some x).
Definition ending (h : ToolCall -> P PS ToolOutput) (tc : ToolCall) : F ToolOutput := r ← h tc; mret (Some r).

Definition ORCHESTRATOR_DISPATCH (fuel : nat) : list (cstr * (ToolCall -> F ToolOutput)) :=
  [(cs "execute_plan", ending execute_execute_plan); (cs "list_goals", ending execute_list_goals);
   (cs "goal_status", execute_goal_status fuel); (cs "start_goal", ending execute_start_goal);
   (cs "pause_goal", ending execute_pause_goal); (cs "cancel_goal", ending execute_cancel_goal)].

Definition execute_orchestrator_dispatch (fuel : nat) (tc : ToolCall) : F ToolOutput :=
  dispatch_by_operation tc (ORCHESTRATOR_DISPATCH fuel).
End Tool.
