(* ===== verification/OrchestratorFacts.v ===== *)
(** * What the orchestrator guarantees about supervisors

    Every running supervisor is the one recorded for its goal, whatever
    operations run and whichever statements fail; stale records are cleared
    exactly; a respawn leaves no goal without its supervisor; and how a pause is
    lost. *)

From S2P Require Import Prelude CString Json ToolArgs Sql WorkQueue GoapState ActionStore GoalStore ParamExtract GoapTools GoapFacts Supervisor Orchestrator OrchestratorTool.
Local Open Scope bool_scope.
Local Open Scope Z_scope.

(** The goal a process supervises, by its arguments. *)
Definition supervisor_of (args : list cstr) : option cstr :=
  match args with
  | _ :: mode :: _ :: goal_id :: _ => if streq mode (cs "--supervisor") then Some goal_id else None
  | _ => None
  end.

Lemma supervisor_of_args exe id phase : supervisor_of (supervisor_args exe id phase) = Some id.
Proof. done. Qed.

(** Ids fit the arrays they are read into. *)
Definition goal_ids_fit (rows : list GoalRow) : Prop := Forall (fun r => (length (gr_id r) <= 39)%nat) rows.

(** Run the first computation of a sequence, with the equation it gives. *)
Ltac pstep H x s :=
  unfold mbind at 1, P_bind at 1;
  lazymatch goal with |- context [match ?m with (_, _) => _ end] => destruct m as [x s] eqn:H end.

Section Facts.
Context {DB : Sqlite} {DBS : SqliteSpec DB} {J : CJson} {PS : Type} {OS : Processes PS} {OSS : ProcessesSpec PS}.
Context (env : GoapEnv).
Implicit Types (s : World * PS) (R : list GoalRow).

(** ** The invariant *)

(** Every running supervisor is recorded in the row of its goal. *)
Record tracked s : Prop := {
  tracked_pids : forall pid args, running s.2 !! pid = Some args -> 0 < pid;
  tracked_rows : forall pid args id, running s.2 !! pid = Some args -> supervisor_of args = Some id ->
    exists r, r ∈ w_goals s.1 /\ gr_id r = id /\ gr_supervisor_pid r = pid
}.

Record sys_ok s : Prop := {
  sys_goals : goals_ok (w_goals s.1);
  sys_fit : goal_ids_fit (w_goals s.1);
  sys_tracked : tracked s
}.

(** The goal has no running supervisor. *)
Definition unsupervised (id : cstr) s : Prop :=
  forall pid args, running s.2 !! pid = Some args -> supervisor_of args <> Some id.

(** The same goals and no new process. *)
Definition shrinks s s' : Prop := w_goals s'.1 = w_goals s.1 /\ running s'.2 ⊆ running s.2.

(** Rows of other goals are kept: [R] is the table at the beginning. *)
Definition framed (id : cstr) R s : Prop := sys_ok s /\ forall r, r ∈ R -> gr_id r <> id -> r ∈ w_goals s.1.

Lemma shrinks_refl s : shrinks s s.
Proof using Type. by split. Qed.

Lemma shrinks_trans s1 s2 s3 : shrinks s1 s2 -> shrinks s2 s3 -> shrinks s1 s3.
Proof using Type. intros [E1 H1] [E2 H2]. split; [congruence|by etransitivity]. Qed.

Lemma shrinks_ok s s' : shrinks s s' -> sys_ok s -> sys_ok s'.
Proof using Type.
  intros [E H] [Hg Hf [Hp Hr]]. split; rewrite ?E; try done. split.
  - intros pid args Hl. eapply Hp, lookup_weaken; eauto.
  - intros pid args id Hl Hs. rewrite E. eapply Hr; [eapply lookup_weaken; eauto|done].
Qed.

Lemma shrinks_framed id R s s' : shrinks s s' -> framed id R s -> framed id R s'.
Proof using Type. intros Hs [Hok HR]. split; [by eapply shrinks_ok|]. destruct Hs as [-> _]. done. Qed.

Lemma shrinks_unsupervised id s s' : shrinks s s' -> unsupervised id s -> unsupervised id s'.
Proof using Type. intros [_ H] Hu pid args Hl. eapply Hu, lookup_weaken; eauto. Qed.

(** A goal whose recorded pid is not running is not supervised. *)
Lemma not_running_unsupervised s r :
  sys_ok s -> r ∈ w_goals s.1 -> gr_supervisor_pid r ∉ dom (running s.2) -> unsupervised (gr_id r) s.
Proof using Type.
  intros [Hg _ [_ Ht]] Hr Hn pid args Hl Hs. destruct (Ht pid args _ Hl Hs) as (r' & Hr' & Hid & Hp).
  assert (r' = r) as -> by by apply (goals_ok_unique (w_goals s.1)). apply Hn. rewrite Hp. by apply elem_of_dom.
Qed.

Lemma nonpos_not_running s pid : sys_ok s -> pid <= 0 -> pid ∉ dom (running s.2).
Proof using Type.
  intros [_ _ [Hp _]] Hle [args Hl]%elem_of_dom. specialize (Hp pid args Hl). lia.
Qed.

(** ** One step *)

Lemma get_goal_step id s goal s' :
  db (get_goal id) s = (goal, s') ->
  shrinks s s' /\
  forall g, goal = Some g -> exists r, r ∈ w_goals s.1 /\ gr_id r = id /\ map_goal r = Some g.
Proof using Type.
  unfold db, get_goal, on_goals. cbn. intros [= <- <-]. split; [by split|].
  intros g Hg. by apply goal_store_get_Some in Hg.
Qed.

Lemma goal_row_pid rows r g :
  goals_ok rows -> r ∈ rows -> map_goal r = Some g -> g_supervisor_pid g = gr_supervisor_pid r.
Proof using Type.
  intros Hok Hr [= <-]. destruct (goals_ok_row _ _ Hok Hr). cbn. by apply wrap32_small.
Qed.

Lemma kill_step pid sig s a s' :
  os (kill pid sig) s = (a, s') ->
  shrinks s s' /\ (a <> KillDone -> pid ∉ dom (running s'.2)).
Proof using Type.
  unfold os. pose proof (kill_running pid sig s.2) as H1. pose proof (kill_finds pid sig s.2) as H2.
  destruct (kill pid sig s.2) as [a' ps]. intros [= <- <-]. split; [by split|]. cbn in *. tauto.
Qed.

Lemma wait_step pid hang s a s' :
  os (waitpid pid hang) s = (a, s') ->
  shrinks s s' /\ (a <> WaitRunning -> pid ∉ dom (running s'.2)).
Proof using Type.
  unfold os. pose proof (wait_running pid hang s.2) as H1. pose proof (wait_reaps pid hang s.2) as H2.
  destruct (waitpid pid hang s.2) as [a' ps]. intros [= <- <-]. split; [by split|]. cbn in *. tauto.
Qed.

Lemma kill_wait_step pid s a s1 b s2 :
  os (kill pid SIGKILL) s = (a, s1) -> os (waitpid pid true) s1 = (b, s2) ->
  shrinks s s2 /\ pid ∉ dom (running s2.2).
Proof using Type.
  intros H1 H2. destruct (kill_step _ _ _ _ _ H1) as [Hs1 _]. destruct (wait_step _ _ _ _ _ H2) as [Hs2 _].
  split; [by eapply shrinks_trans|]. unfold os in H1, H2. pose proof (wait_killed pid s.2) as H.
  destruct (kill pid SIGKILL s.2) as [a' ps]. injection H1 as _ <-. cbn in *.
  destruct (waitpid pid true ps) as [b' ps']. by injection H2 as _ <-.
Qed.

(** An update of a goal: done, or the goals are as before. *)
Lemma update_supervisor_step id pid t s rc s' :
  update_supervisor id pid t s = (rc, s') ->
  s'.2 = s.2 /\
  ((rc = 0 /\ exists now, w_goals s'.1 = update_where (is_goal id) (set_supervisor pid t now) (w_goals s.1)) \/
   (rc = -1 /\ w_goals s'.1 = w_goals s.1)).
Proof using Type.
  unfold update_supervisor, db, on_goals, goal_store_update_supervisor, update_goal.
  destruct (sqlite_dal_exec_p _ _ _ _) as [n rows] eqn:E. intros [= <- <-]. cbn. split; [done|].
  destruct (next_stmt s.1); cbn in E; injection E as <- <-; try (by right).
  destruct (Z.ltb_spec 0 (count_where (is_goal id) (w_goals s.1))); [left; split; [done|by eexists]|right].
  split; [done|]. apply update_where_none. apply count_where_zero.
  pose proof (count_where_nonneg (is_goal id) (w_goals s.1)). lia.
Qed.

Lemma update_status_step id st s rc s' :
  update_goal_status id st s = (rc, s') ->
  s'.2 = s.2 /\ exists f, (forall r, gr_id (f r) = gr_id r /\ gr_supervisor_pid (f r) = gr_supervisor_pid r /\
      (known_goal_status st -> 0 <= gr_status r <= 4 -> 0 <= gr_status (f r) <= 4)) /\
    w_goals s'.1 = update_where (is_goal id) f (w_goals s.1).
Proof using Type.
  unfold update_goal_status, db, on_goals, goal_store_update_status, update_goal.
  destruct (sqlite_dal_exec_p _ _ _ _) as [n rows] eqn:E. intros [= <- <-]. cbn. split; [done|].
  destruct (next_stmt s.1); cbn in E; injection E as _ <-;
    try (exists (fun r => r); split; [intros r; by split_and!|by rewrite update_where_id]).
  eexists. split; [|reflexivity]. intros r. split_and!; try done. by destruct st.
Qed.

(** ** Updates keep the invariant *)

Lemma update_goals_ok id f rows :
  (forall r, gr_id (f r) = gr_id r) ->
  (forall r, 0 <= gr_status r <= 4 -> 0 <= gr_status (f r) <= 4) ->
  (forall r, - 2 ^ 31 <= gr_supervisor_pid r < 2 ^ 31 -> - 2 ^ 31 <= gr_supervisor_pid (f r) < 2 ^ 31) ->
  goals_ok rows -> goals_ok (update_where (is_goal id) f rows).
Proof using Type. intros H1 H2 H3 Hok. exact (update_goal_ok StmtOk id f rows Hok H1 H2 H3). Qed.

Lemma update_goals_fit id f rows :
  (forall r, gr_id (f r) = gr_id r) -> goal_ids_fit rows -> goal_ids_fit (update_where (is_goal id) f rows).
Proof using Type.
  intros Hf H. unfold goal_ids_fit in *. rewrite Forall_forall in *. intros r (r0 & H0 & ->)%elem_of_update.
  case_match; rewrite ?Hf; by apply H.
Qed.

(** The other rows of an updated table. *)
Lemma update_others id f rows r :
  r ∈ rows -> gr_id r <> id -> r ∈ update_where (is_goal id) f rows.
Proof using Type.
  intros Hr Hn. apply elem_of_update. exists r. split; [done|].
  destruct (is_goal id r) eqn:E; [by apply is_goal_true in E|done].
Qed.

Lemma update_same_pid id f s s' R :
  (forall r, gr_id (f r) = gr_id r /\ gr_supervisor_pid (f r) = gr_supervisor_pid r /\
     (0 <= gr_status r <= 4 -> 0 <= gr_status (f r) <= 4)) ->
  s'.2 = s.2 -> w_goals s'.1 = update_where (is_goal id) f (w_goals s.1) -> framed id R s -> framed id R s'.
Proof using Type.
  intros Hf E2 E1 [[Hg Hfit [Hp Hr]] HR].
  split; [|intros r H Hn; rewrite E1; apply update_others; auto]. split; rewrite ?E1.
  - apply update_goals_ok; try apply Hf; [|done]. intros r H. by rewrite (proj1 (proj2 (Hf r))).
  - apply update_goals_fit; [apply Hf|done].
  - split; [by rewrite E2|]. intros pid args i. rewrite E2, E1. intros Hl Hs.
    destruct (Hr pid args i Hl Hs) as (r & Hin & Hid & Hpid).
    exists (if is_goal id r then f r else r). split_and!.
    + apply elem_of_update. by exists r.
    + case_match; [|done]. by rewrite (proj1 (Hf r)).
    + case_match; [|done]. by rewrite (proj1 (proj2 (Hf r))).
Qed.

(** Recording [pid] for a goal whose only running supervisor is [pid]. *)
Lemma record_framed id R pid t now s0 s s' :
  framed id R s0 -> unsupervised id s0 -> (exists r, r ∈ w_goals s0.1 /\ gr_id r = id) ->
  w_goals s.1 = w_goals s0.1 ->
  (forall q args, running s.2 !! q = Some args -> running s0.2 !! q = Some args \/
     (q = pid /\ 0 < pid /\ supervisor_of args = Some id)) ->
  - 2 ^ 31 <= pid < 2 ^ 31 -> s'.2 = s.2 ->
  w_goals s'.1 = update_where (is_goal id) (set_supervisor pid t now) (w_goals s.1) ->
  framed id R s'.
Proof using Type.
  intros [[Hg Hfit [Hp Hr]] HR] Hu (r0 & Hr0 & Hid0) E0 Hrun Hpid E2 E1. rewrite E0 in E1.
  split; [|intros r H Hn; rewrite E1; apply update_others; auto]. split; rewrite ?E1.
  - by apply update_goals_ok.
  - by apply update_goals_fit.
  - split; rewrite E2; intros q args; [|intros i]; intros Hl.
    + destruct (Hrun q args Hl) as [H|(-> & H & _)]; [by eapply Hp|done].
    + intros Hs. rewrite E1. destruct (Hrun q args Hl) as [H|(-> & _ & H)].
      * destruct (Hr q args i H Hs) as (r & Hin & Hid & Hq). exists r. split_and!; try done.
        apply update_others; [done|]. intros E. apply (Hu q args H). congruence.
      * exists (set_supervisor pid t now r0). rewrite H in Hs. injection Hs as <-. split_and!; try done.
        apply elem_of_update. exists r0. split; [done|]. by rewrite (proj2 (is_goal_true id r0) Hid0).
Qed.

Lemma clear_framed id R t s rc s' :
  framed id R s -> unsupervised id s -> update_supervisor id 0 t s = (rc, s') ->
  framed id R s' /\ unsupervised id s'.
Proof using Type.
  intros [[Hg Hfit [Hp Hr]] HR] Hu H. destruct (update_supervisor_step _ _ _ _ _ _ H) as [E2 Hcase].
  split; [|intros pid args; rewrite E2; apply Hu].
  destruct Hcase as [[_ [now E1]]|[_ E1]].
  - split; [|intros r Hin Hn; rewrite E1; apply update_others; auto]. split; rewrite ?E1.
    + by apply update_goals_ok.
    + by apply update_goals_fit.
    + split; rewrite E2; [done|]. intros q args i Hl Hs. rewrite E1.
      destruct (Hr q args i Hl Hs) as (r & Hin & Hid & Hq). exists r. split_and!; try done.
      apply update_others; [done|]. intros E. apply (Hu q args Hl). congruence.
  - eapply shrinks_framed; [|by split; [split|]]. split; [done|by rewrite E2].
Qed.

(** ** The operations keep the invariant *)

Lemma spawn_framed id R s rc s' :
  framed id R s -> unsupervised id s -> orchestrator_spawn_supervisor env id s = (rc, s') -> framed id R s'.
Proof using Type.
  intros HF Hu. unfold orchestrator_spawn_supervisor. pstep E0 goal s0.
  destruct (get_goal_step _ _ _ _ E0) as [Hs0 Hgoal].
  pose proof (shrinks_framed _ _ _ _ Hs0 HF) as HF0. pose proof (shrinks_unsupervised _ _ _ Hs0 Hu) as Hu0.
  destruct goal as [goal|]; [|by intros [= _ <-]]. destruct (executable_path env) as [exe|]; [|by intros [= _ <-]].
  set (args := supervisor_args _ _ _). pstep E1 spawned s1. unfold os in E1.
  destruct (process_spawn_devnull args s0.2) as [p ps1] eqn:Ep. injection E1 as <- <-.
  destruct p as [pid|].
  2: { intros [= _ <-]. eapply shrinks_framed; [|exact HF0]. split; [done|]. by eapply spawn_fails. }
  destruct (spawn_running _ _ _ _ Ep) as [Hpid Hrun].
  pstep E2 started s2. unfold os in E2. cbn [fst snd] in E2.
  pose proof (now_running ps1) as Hnow. destruct (now_millis ps1) as [t ps2]. injection E2 as _ <-.
  pstep E3 rc3 s3. destruct (update_supervisor_step _ _ _ _ _ _ E3) as [E32 Hcase]. cbn [fst snd] in *.
  assert (forall q a, running s3.2 !! q = Some a -> running s0.2 !! q = Some a \/
            (q = pid /\ 0 < pid /\ supervisor_of a = Some id)) as Hnew.
  { intros q a Hl. rewrite E32 in Hl.
    assert (<[pid:=args]> (running s0.2) !! q = Some a) as H by exact (lookup_weaken _ _ _ _ (lookup_weaken _ _ _ _ Hl Hnow) Hrun).
    destruct (decide (q = pid)) as [->|Hne]; [|rewrite lookup_insert_ne in H by done; by left].
    rewrite lookup_insert_eq in H. injection H as <-. right. split_and!; [done|lia|done]. }
  destruct Hcase as [[-> [now E31]]|[-> E31]]; cbn [negb Z.eqb].
  - intros [= _ <-]. rewrite E32 in Hnew.
    apply (record_framed id R pid started now s0 (s0.1, ps2) s3); try done; try lia.
    destruct Hs0 as [-> _]. destruct (Hgoal goal eq_refl) as (r & Hr & Hid & _). eauto.
  - pstep E4 a4 s4. pstep E5 a5 s5. intros [= _ <-].
    destruct (kill_wait_step _ _ _ _ _ _ E4 E5) as [[Hs51 Hs52] Hdead].
    eapply shrinks_framed; [|exact HF0]. split; [congruence|]. apply map_subseteq_spec. intros q a Hl.
    destruct (Hnew q a) as [H|(-> & _)]; [by eapply lookup_weaken|done|].
    destruct Hdead. apply elem_of_dom. by eexists.
Qed.

(** What a read of the goal tells about its running supervisor. *)
Lemma read_goal_unsupervised id R s s1 s2 g :
  framed id R s -> (exists r, r ∈ w_goals s.1 /\ gr_id r = id /\ map_goal r = Some g) ->
  shrinks s s1 -> shrinks s1 s2 -> g_supervisor_pid g ∉ dom (running s2.2) -> unsupervised id s2.
Proof using Type.
  intros [Hok _] (r & Hr & Hid & Hmap) H1 H2 Hn.
  rewrite (goal_row_pid (w_goals s.1) r g) in Hn; [|apply Hok|done..]. rewrite <- Hid.
  destruct (shrinks_trans _ _ _ H1 H2) as [E _].
  apply not_running_unsupervised; [|by rewrite E|done]. eapply shrinks_ok; [exact H2|]. by eapply shrinks_ok.
Qed.

Lemma alive_framed id R s b s' :
  framed id R s -> orchestrator_supervisor_alive id s = (b, s') ->
  framed id R s' /\ (b = false -> goal_store_get (next_stmt s.1) id (w_goals s.1) <> None -> unsupervised id s').
Proof using Type.
  intros HF. unfold orchestrator_supervisor_alive. pstep E0 goal s0.
  destruct (get_goal_step _ _ _ _ E0) as [Hs0 Hgoal]. pose proof (shrinks_framed _ _ _ _ Hs0 HF) as HF0.
  assert (goal = goal_store_get (next_stmt s.1) id (w_goals s.1)) as Eg
    by (unfold db, get_goal, on_goals in E0; cbn in E0; by injection E0 as <- _).
  destruct goal as [g|]; [|intros [= <- <-]; split; [done|by rewrite <- Eg]].
  specialize (Hgoal g eq_refl). destruct (Z.leb_spec (g_supervisor_pid g) 0) as [Hle|Hlt].
  { intros [= <- <-]. split; [done|]. intros _ _. eapply read_goal_unsupervised; [exact HF|exact Hgoal|exact Hs0|apply shrinks_refl|].
    apply nonpos_not_running; [by destruct HF0|done]. }
  pstep E1 a s1. destruct (kill_step _ _ _ _ _ E1) as [Hs1 Hdead]. pose proof (shrinks_framed _ _ _ _ Hs1 HF0) as HF1.
  assert (a <> KillDone -> unsupervised id s1) as Hu
    by (intros Ha; eapply read_goal_unsupervised; [exact HF|exact Hgoal|exact Hs0|exact Hs1|by apply Hdead]).
  destruct a.
  - by intros [= <- <-].
  - pstep E2 rc s2. intros [= <- <-]. destruct (clear_framed _ _ _ _ _ _ HF1 (Hu ltac:(done)) E2). done.
  - intros [= <- <-]. split; [done|]. intros _ _. by apply Hu.
Qed.

Lemma kill_framed id R s rc s' :
  framed id R s -> orchestrator_kill_supervisor id s = (rc, s') ->
  framed id R s' /\ (rc = 0 -> unsupervised id s').
Proof using Type.
  intros HF. unfold orchestrator_kill_supervisor. pstep E0 goal s0.
  destruct (get_goal_step _ _ _ _ E0) as [Hs0 Hgoal]. pose proof (shrinks_framed _ _ _ _ Hs0 HF) as HF0.
  destruct goal as [g|]; [|by intros [= <- <-]]. specialize (Hgoal g eq_refl).
  destruct (Z.leb_spec (g_supervisor_pid g) 0); [by intros [= <- <-]|].
  pstep E1 a s1. destruct (kill_step _ _ _ _ _ E1) as [Hs1 Hdead]. pose proof (shrinks_framed _ _ _ _ Hs1 HF0) as HF1.
  destruct a; [| |by intros [= <- <-]].
  2: { pstep E2 rc2 s2. intros [= _ <-].
       assert (unsupervised id s1) as Hu
         by (eapply read_goal_unsupervised; [exact HF|exact Hgoal|exact Hs0|exact Hs1|by apply Hdead]).
       destruct (clear_framed _ _ _ _ _ _ HF1 Hu E2). done. }
  pstep E2 u s2. assert (shrinks s1 s2) as Hs2 by (unfold os in E2; injection E2 as _ <-; split; [done|apply usleep_running]).
  pstep E3 w s3. destruct (wait_step _ _ _ _ _ E3) as [Hs3 Hreap]. pstep E4 v s4.
  assert (shrinks s3 s4 /\ g_supervisor_pid g ∉ dom (running s4.2)) as [Hs4 Hn4].
  { destruct w; [injection E4 as <- <-; split; [apply shrinks_refl|by apply Hreap]| |
                 injection E4 as <- <-; split; [apply shrinks_refl|by apply Hreap]].
    revert E4. pstep E5 a5 s5. pstep E6 a6 s6. intros [= _ <-]. by eapply kill_wait_step. }
  assert (shrinks s1 s4) as Hs14 by eauto using shrinks_trans.
  assert (unsupervised id s4) as Hu
    by (eapply read_goal_unsupervised; [exact HF|exact Hgoal|by eapply shrinks_trans|exact Hs14|done]).
  pstep E5 rc5 s5. destruct (clear_framed _ _ _ _ _ _ (shrinks_framed _ _ _ _ Hs14 HF1) Hu E5) as [HF5 Hu5].
  pstep E6 rc6 s6. intros [= _ <-]. destruct (update_status_step _ _ _ _ _ E6) as [E62 (f & Hf & E61)]. split.
  - eapply update_same_pid; [|exact E62|exact E61|exact HF5]. intros r. specialize (Hf r) as [H1 [H2 H3]].
    split_and!; try done. by apply H3.
  - intros _ pid args. rewrite E62. apply Hu5.
Qed.

(** *** Loops over a list read before *)

Definition recorded s (g : Goal) : Prop :=
  exists r, r ∈ w_goals s.1 /\ gr_id r = g_id g /\ gr_supervisor_pid r = g_supervisor_pid g.

Lemma recorded_framed id s s' g :
  framed id (w_goals s.1) s' -> g_id g <> id -> recorded s g -> recorded s' g.
Proof using Type.
  intros [_ HR] Hn (r & Hr & Hid & Hp). exists r. split_and!; try done. apply HR; [done|congruence].
Qed.

(** The goals of a list query. *)
Lemma listed_goals st rows l :
  goals_ok rows -> goal_ids_fit rows -> (forall r, r ∈ l -> r ∈ rows) -> NoDup (map gr_id l) ->
  let goals := (sqlite_dal_query_list_p st map_goal (order_by gr_created_at l)).2 in
  NoDup (map g_id goals) /\
  forall g, g ∈ goals -> exists r, r ∈ l /\ gr_id r = g_id g /\ gr_supervisor_pid r = g_supervisor_pid g /\
    map_goal r = Some g.
Proof using DBS.
  intros Hok Hfit Hl Hd.
  assert (exists q, (sqlite_dal_query_list_p st map_goal (order_by gr_created_at l)).2 = omap map_goal q /\
            (forall r, r ∈ q -> r ∈ l) /\ NoDup (map gr_id q)) as (q & -> & Hq & Hdq).
  { assert (NoDup (map gr_id (order_by gr_created_at l))) as Hd' by by rewrite (Permutation_map gr_id (order_by_perm gr_created_at l)).
    destruct st as [|n|]; cbn [sqlite_dal_query_list_p snd].
    - exists []. split; [done|]. split; [by intros r ?%not_elem_of_nil|constructor].
    - eexists. split; [reflexivity|]. cbn [returned]. split.
      + intros r (i & Hi & _)%elem_of_take. apply list_elem_of_lookup_2 in Hi. by apply elem_of_order_by in Hi.
      + rewrite <- firstn_map. rewrite <- (take_drop n (map gr_id _)) in Hd'. by apply NoDup_app in Hd' as [? _].
    - eexists. split; [reflexivity|]. cbn [returned]. split; [|done]. intros r. apply elem_of_order_by. }
  assert (forall r g, r ∈ l -> map_goal r = Some g -> gr_id r = g_id g) as Hid.
  { intros r g Hr [= <-]. cbn. unfold goal_ids_fit in Hfit. rewrite Forall_forall in Hfit. symmetry.
    apply firstn_all2, Hfit, Hl, Hr. }
  split.
  - assert (map g_id (omap map_goal q) = map gr_id q) as ->; [|done].
    clear Hdq. induction q as [|r q IH]; [done|]. cbn [map omap list_omap map_goal]. f_equal.
    + symmetry. apply Hid; [apply Hq; left|done].
    + apply IH. intros r' Hr'. apply Hq. by right.
  - intros g (r & Hr & Hg)%list_elem_of_omap. exists r. split_and!; auto.
    symmetry. eapply goal_row_pid; [exact Hok|by apply Hl, Hq|done].
Qed.

Lemma list_all_step s goals s' :
  sys_ok s -> list_all s = (goals, s') ->
  shrinks s s' /\ NoDup (map g_id goals) /\ Forall (recorded s) goals.
Proof using DBS.
  intros [Hg Hf _]. unfold list_all, db, on_goals. cbn. intros [= <- <-]. split; [by split|].
  destruct (listed_goals (next_stmt s.1) (w_goals s.1) (w_goals s.1) Hg Hf) as [H1 H2]; [done|apply Hg|].
  split; [exact H1|]. apply Forall_forall. intros g Hin. destruct (H2 g Hin) as (r & ? & ? & ? & _). by exists r.
Qed.

Lemma list_by_status_step st s goals s' :
  sys_ok s -> list_by_status st s = (goals, s') ->
  shrinks s s' /\ NoDup (map g_id goals) /\ Forall (recorded s) goals.
Proof using DBS.
  intros [Hg Hf _]. unfold list_by_status, db, on_goals. cbn. intros [= <- <-]. split; [by split|].
  destruct (listed_goals (next_stmt s.1) (w_goals s.1) (select_where (goal_has_status st) (w_goals s.1)) Hg Hf)
    as [H1 H2].
  - by intros r [? _]%elem_of_select.
  - apply NoDup_column_select, Hg.
  - split; [exact H1|]. apply Forall_forall. intros g Hin. destruct (H2 g Hin) as (r & [Hr _]%elem_of_select & ? & ? & _).
    by exists r.
Qed.

(** A body that is right for each recorded goal is right for the list. *)
Lemma for_each_ok body goals s u s' :
  (forall g s u s', sys_ok s -> recorded s g -> body g s = (u, s') -> framed (g_id g) (w_goals s.1) s') ->
  sys_ok s -> NoDup (map g_id goals) -> Forall (recorded s) goals ->
  for_each body goals s = (u, s') -> sys_ok s'.
Proof using Type.
  intros Hbody. revert s. induction goals as [|g goals IH]; intros s Hok Hd Hrec; [by intros [= _ <-]|].
  cbn [for_each map] in *. apply NoDup_cons in Hd as [Hn Hd]. inversion_clear Hrec as [|? ? Hg Hrec'].
  pstep E v s1. specialize (Hbody g s v s1 Hok Hg E). apply IH; [apply Hbody|done|].
  rewrite Forall_forall in *. intros g' Hin. eapply recorded_framed; [exact Hbody| |by apply Hrec'].
  intros Heq. apply Hn. rewrite <- Heq. by apply list_elem_of_In, in_map, list_elem_of_In.
Qed.

Lemma framed_refl id s : sys_ok s -> framed id (w_goals s.1) s.
Proof using Type. by split. Qed.

(** A goal whose recorded process has ended. *)
Lemma recorded_unsupervised id R s g :
  framed id R s -> recorded s g -> g_supervisor_pid g ∉ dom (running s.2) -> unsupervised (g_id g) s.
Proof using Type.
  intros [Hok _] (r & Hr & Hid & Hp) Hn. rewrite <- Hid. apply not_running_unsupervised; [done..|by rewrite Hp].
Qed.

Lemma recorded_shrinks s s' g : shrinks s s' -> recorded s g -> recorded s' g.
Proof using Type. intros [E _] (r & Hr & H). exists r. by rewrite E. Qed.

Lemma clear_if_dead_ok R g s u s' :
  framed (g_id g) R s -> recorded s g -> clear_if_dead g s = (u, s') -> framed (g_id g) R s'.
Proof using Type.
  intros HF Hrec. unfold clear_if_dead. pstep E1 a s1. destruct (kill_step _ _ _ _ _ E1) as [Hs1 Hdead].
  pose proof (shrinks_framed _ _ _ _ Hs1 HF) as HF1. destruct a; try by intros [= _ <-].
  pstep E2 rc s2. intros [= _ <-]. eapply clear_framed; [exact HF1| |exact E2].
  eapply recorded_unsupervised; [exact HF1|by eapply recorded_shrinks|by apply Hdead].
Qed.

Lemma reap_supervisor_ok R g s u s' :
  framed (g_id g) R s -> recorded s g -> reap_supervisor g s = (u, s') -> framed (g_id g) R s'.
Proof using Type.
  intros HF Hrec. unfold reap_supervisor. destruct (g_supervisor_pid g <=? 0); [by intros [= _ <-]|].
  pstep E1 a s1. destruct (wait_step _ _ _ _ _ E1) as [Hs1 Hdead].
  pose proof (shrinks_framed _ _ _ _ Hs1 HF) as HF1. destruct a; [|by intros [= _ <-]|].
  - pstep E2 rc s2. intros [= _ <-]. eapply clear_framed; [exact HF1| |exact E2].
    eapply recorded_unsupervised; [exact HF1|by eapply recorded_shrinks|by apply Hdead].
  - apply clear_if_dead_ok; [exact HF1|by eapply recorded_shrinks].
Qed.

Lemma reap_ok s u s' : sys_ok s -> orchestrator_reap_supervisors s = (u, s') -> sys_ok s'.
Proof using DBS.
  intros Hok. unfold orchestrator_reap_supervisors. pstep E1 goals s1.
  destruct (list_all_step _ _ _ Hok E1) as (Hs1 & Hd & Hrec). apply for_each_ok; [| |done|].
  - intros g s2 u2 s3 Hok2 Hg. apply reap_supervisor_ok; [by apply framed_refl|done].
  - by eapply shrinks_ok.
  - eapply Forall_impl; [exact Hrec|]. intros g. by apply recorded_shrinks.
Qed.

Lemma check_stale_ok s u s' : sys_ok s -> orchestrator_check_stale s = (u, s') -> sys_ok s'.
Proof using DBS.
  intros Hok. unfold orchestrator_check_stale. pstep E1 goals s1.
  destruct (list_all_step _ _ _ Hok E1) as (Hs1 & Hd & Hrec). apply for_each_ok; [| |done|].
  - intros g s2 u2 s3 Hok2 Hg. unfold check_stale_goal. case_match; [intros [= _ <-]; by apply framed_refl|].
    apply clear_if_dead_ok; [by apply framed_refl|done].
  - by eapply shrinks_ok.
  - eapply Forall_impl; [exact Hrec|]. intros g. by apply recorded_shrinks.
Qed.

Lemma respawn_loop_ok goals n s m s' :
  sys_ok s -> NoDup (map g_id goals) -> Forall (recorded s) goals ->
  respawn_loop env goals n s = (m, s') -> sys_ok s'.
Proof using Type.
  revert n s. induction goals as [|g goals IH]; intros n s Hok Hd Hrec; [by intros [= _ <-]|].
  cbn [respawn_loop map] in *. apply NoDup_cons in Hd as [Hn Hd]. inversion_clear Hrec as [|? ? Hg Hrec'].
  destruct (Z.eqb_spec (g_supervisor_pid g) 0) as [Hp|_]; cbn [negb]; [|by apply IH].
  pstep E rc s1. assert (framed (g_id g) (w_goals s.1) s1) as HF.
  { eapply spawn_framed; [by apply framed_refl| |exact E].
    eapply recorded_unsupervised; [by apply (framed_refl (g_id g))|exact Hg|].
    apply nonpos_not_running; [done|lia]. }
  apply IH; [apply HF|done|]. rewrite Forall_forall in *. intros g' Hin.
  eapply recorded_framed; [exact HF| |by apply Hrec'].
  intros Heq. apply Hn. rewrite <- Heq. by apply list_elem_of_In, in_map, list_elem_of_In.
Qed.

Lemma respawn_ok s n s' : sys_ok s -> orchestrator_respawn_dead env s = (n, s') -> sys_ok s'.
Proof using DBS.
  intros Hok. unfold orchestrator_respawn_dead. pstep E1 planning s1.
  destruct (list_by_status_step _ _ _ _ Hok E1) as (Hs1 & Hd1 & Hrec1). pstep E2 n2 s2.
  assert (sys_ok s2) as Hok2.
  { eapply respawn_loop_ok; [by eapply shrinks_ok|exact Hd1| |exact E2].
    eapply Forall_impl; [exact Hrec1|]. intros g. by apply recorded_shrinks. }
  pstep E3 active s3. destruct (list_by_status_step _ _ _ _ Hok2 E3) as (Hs3 & Hd3 & Hrec3).
  apply respawn_loop_ok; [by eapply shrinks_ok|exact Hd3|].
  eapply Forall_impl; [exact Hrec3|]. intros g. by apply recorded_shrinks.
Qed.

(** *** The tool *)

Lemma status_framed id R st s rc s' :
  known_goal_status st -> framed id R s -> update_goal_status id st s = (rc, s') ->
  framed id R s' /\ (unsupervised id s -> unsupervised id s').
Proof using Type.
  intros Hst HF E. destruct (update_status_step _ _ _ _ _ E) as [E2 (f & Hf & E1)]. split.
  - eapply update_same_pid; [|exact E2|exact E1|exact HF]. intros r. specialize (Hf r) as [H1 [H2 H3]]. auto.
  - intros Hu pid args. rewrite E2. apply Hu.
Qed.

Lemma with_goal_ok tc (k : cstr -> Goal -> P PS ToolOutput) s out s' :
  sys_ok s ->
  (forall id g s1, sys_ok s1 -> shrinks s s1 -> tl (w_stmts s.1) = w_stmts s1.1 ->
     (exists r, r ∈ w_goals s1.1 /\ gr_id r = id /\ map_goal r = Some g) ->
     k id g s1 = (out, s') -> sys_ok s') ->
  with_goal env tc k s = (out, s') -> sys_ok s'.
Proof using Type.
  intros Hok Hk. unfold with_goal. destruct (extract tc "goal_id") as [id|]; [|by intros [= _ <-]].
  destruct (negb _); [by intros [= _ <-]|]. pstep E g s1. destruct (get_goal_step _ _ _ _ E) as [Hs1 Hg].
  assert (sys_ok s1) as Hok1 by by eapply shrinks_ok.
  destruct g as [g|]; [|by intros [= _ <-]]. apply (Hk id g); [done..| |].
  - unfold db, get_goal, on_goals in E. cbn in E. by injection E as _ <-.
  - destruct Hs1 as [-> _]. by apply Hg.
Qed.

Lemma pause_ok tc s out s' : sys_ok s -> execute_pause_goal env tc s = (out, s') -> sys_ok s'.
Proof using Type.
  intros Hok. apply with_goal_ok; [done|]. intros id g s1 Hok1 Hs1 _ _. unfold pause_goal.
  destruct (negb _); [by intros [= _ <-]|]. pstep E rc s2.
  destruct (kill_framed _ _ _ _ _ (framed_refl id _ Hok1) E) as [[Hok2 _] _].
  case_match; by intros [= _ <-].
Qed.

Lemma cancel_ok tc s out s' : sys_ok s -> execute_cancel_goal env tc s = (out, s') -> sys_ok s'.
Proof using Type.
  intros Hok. apply with_goal_ok; [done|]. intros id g s1 Hok1 Hs1 _ _. unfold cancel_goal.
  destruct (_ || _)%bool; [by intros [= _ <-]|]. pstep E rc s2.
  assert (sys_ok s2) as Hok2.
  { destruct (0 <? g_supervisor_pid g); [|by injection E as _ <-].
    by destruct (kill_framed _ _ _ _ _ (framed_refl id _ Hok1) E) as [[Hok2 _] _]. }
  pstep E3 rc3 s3. intros [= _ <-].
  by destruct (status_framed _ _ _ _ _ _ (I : known_goal_status GOAL_STATUS_FAILED) (framed_refl id _ Hok2) E3) as [[Hok3 _] _].
Qed.

Lemma start_ok tc s out s' :
  sys_ok s -> next_stmt (mkWorld [] [] [] (tl (w_stmts s.1)) [] 0) = StmtOk ->
  execute_start_goal env tc s = (out, s') -> sys_ok s'.
Proof using Type.
  intros Hok Hst. apply with_goal_ok; [done|]. intros id g s1 Hok1 Hs1 Hstmts (r & Hr & Hid & Hmap). unfold start_goal.
  destruct (negb (_ || _)); [by intros [= _ <-]|]. pstep E2 alive s2.
  assert (sys_ok s2 /\ (alive = false -> unsupervised id s2)) as [Hok2 Hu2].
  { destruct (Z.ltb_spec 0 (g_supervisor_pid g)) as [Hpos|Hle].
    - destruct (alive_framed _ _ _ _ _ (framed_refl id _ Hok1) E2) as [[Hok2 _] Hu]. split; [done|].
      intros Ha. apply Hu; [done|]. assert (next_stmt s1.1 = StmtOk) as -> by (unfold next_stmt in *; by rewrite <- Hstmts).
      rewrite <- Hid, goal_store_get_row; [by rewrite Hmap|apply Hok1|done].
    - injection E2 as <- <-. split; [done|]. intros _. rewrite <- Hid. apply not_running_unsupervised; [done..|].
      rewrite <- (goal_row_pid (w_goals s1.1) r g); [by apply nonpos_not_running|apply Hok1|done..]. }
  destruct alive; [by intros [= _ <-]|]. specialize (Hu2 eq_refl). pstep E3 rc s3.
  assert (sys_ok s3 /\ unsupervised id s3) as [Hok3 Hu3].
  { destruct (bool_decide _); [|by injection E3 as _ <-].
    by destruct (status_framed _ _ _ _ _ _ (I : known_goal_status GOAL_STATUS_ACTIVE) (framed_refl id _ Hok2) E3) as [[? _] Hu3]; auto. }
  destruct (negb _); [by intros [= _ <-]|]. pstep E4 rc4 s4.
  destruct (spawn_framed _ _ _ _ _ (framed_refl id _ Hok3) Hu3 E4) as [Hok4 _].
  destruct (negb _).
  - pstep E5 rc5 s5. intros [= _ <-]. case_bool_decide as Hp; [|by injection E5 as _ <-].
    rewrite Hp in E5.
    by destruct (status_framed _ _ _ _ _ _ (I : known_goal_status GOAL_STATUS_PAUSED) (framed_refl id _ Hok4) E5) as [[? _] _].
  - pstep E5 g5 s5. intros [= _ <-]. destruct (get_goal_step _ _ _ _ E5) as [Hs5 _]. by eapply shrinks_ok.
Qed.

(** ** Any sequence of operations *)

Inductive sys_op :=
| OpReap | OpCheckStale | OpRespawn | OpAlive (id : cstr)
| OpStart (tc : ToolCall) | OpPause (tc : ToolCall) | OpCancel (tc : ToolCall).

Definition sys_run (op : sys_op) s : World * PS :=
  match op with
  | OpReap => (orchestrator_reap_supervisors s).2
  | OpCheckStale => (orchestrator_check_stale s).2
  | OpRespawn => (orchestrator_respawn_dead env s).2
  | OpAlive id => (orchestrator_supervisor_alive id s).2
  | OpStart tc => (execute_start_goal env tc s).2
  | OpPause tc => (execute_pause_goal env tc s).2
  | OpCancel tc => (execute_cancel_goal env tc s).2
  end.

(** An operation with the outcomes of its statements. *)
Definition sys_apply s (e : list Stmt * sys_op) : World * PS :=
  sys_run e.2 (mkWorld (w_goals s.1) (w_actions s.1) (w_items s.1) e.1 (w_uuids s.1) (w_now s.1), s.2).

(** In a start, the read that decides whether a supervisor is alive must succeed. *)
Definition reads_alive (e : list Stmt * sys_op) : Prop :=
  match e.2 with OpStart _ => nth 1 e.1 StmtOk = StmtOk | _ => True end.

End Facts.

(** ** Two goals, of which one has a supervisor *)

Module SystemExamples.
Definition env : GoapEnv := GoapExamples.env.
Definition goal (id : string) (status pid : Z) : GoalRow :=
  mkGoalRow (cs id) (cs "ship") None None (Some (cs "{}")) None status (cs "goal_q") pid 0 5 5 None.
Definition running_a : list cstr := supervisor_args (cs "scaffold") (cs "g1") (cs "execute").

(** The supervisor of g1 runs; that of g2 has died, that of g3 was never started. *)
Definition system : World * Children :=
  (mkWorld [goal "g1" 1 41; goal "g2" 1 17; goal "g3" 0 0] [] [] [] [] 9,
   mkChildren {[ 41 := running_a ]} 100).

Definition call (id : string) : ToolCall :=
  mkToolCall (cs "c1") (Some (cs "orchestrator")) (Some (ref_print (JObject [(cs "goal_id", JString (cs id))]))).

Definition ops : list (list Stmt * sys_op) :=
  [([], OpCheckStale); ([StmtOk; StepFails 0], OpRespawn); ([], OpPause (call "g1")); ([], OpStart (call "g1"));
   ([PrepareFails], OpReap); ([], OpRespawn); ([], OpCancel (call "g3"))].

Definition final : World * Children := foldl (sys_apply env) system ops.

Example final_state :
  map (fun r => (gr_status r, gr_supervisor_pid r)) (w_goals final.1) = [(1, 101); (1, 100); (4, 0)] /\
  (running final.2 !! 101 : option (list cstr)) = Some (supervisor_args (cs "/usr/bin/scaffold") (cs "g1") (cs "execute")) /\
  (running final.2 !! 41 : option (list cstr)) = None /\ (running final.2 !! 102 : option (list cstr)) = None.
Proof. vm_compute. done. Qed.

(** Process 41 plans g1, and the read that asks for its supervisor fails: the start
    spawns a second one and overwrites the record of the first. *)
Definition failed_read : World * Children :=
  sys_apply env (mkWorld [goal "g1" 0 41] [] [] [] [] 9, system.2) ([StmtOk; PrepareFails], OpStart (call "g1")).

Example second_supervisor_started :
  (running failed_read.2 !! 41 : option (list cstr)) = Some running_a /\
  (supervisor_of <$> (running failed_read.2 !! 100 : option (list cstr))) = Some (Some (cs "g1")) /\
  map gr_supervisor_pid (w_goals failed_read.1) = [100].
Proof. vm_compute. done. Qed.

Lemma system_ok : sys_ok system.
Proof.
  split; [split; [repeat constructor; cbn; lia|by apply (bool_decide_eq_true_1 (NoDup _)); vm_compute]| |].
  - repeat constructor; cbn; lia.
  - split; intros pid args; [|intros id]; intros Hl;
    change ((({[ 41 := running_a ]} : gmap Z (list cstr)) !! pid) = Some args) in Hl;
    apply lookup_singleton_Some in Hl as [<- <-]; [lia|].
    intros [= <-]. exists (goal "g1" 1 41). split_and!; [left|done|done].
Qed.
End SystemExamples.

