(* ===== verification/SupervisionFacts.v ===== *)
(** * Stale supervisors, respawns and lost pauses

    When nothing fails, the startup scan clears exactly the records of dead
    processes, and a respawn gives every goal in planning or in execution its
    supervisor, once. A pause of a goal whose supervisor has just died is reported
    and lost. Reports: the tree of a goal's actions is finite. *)

From S2P Require Import Prelude CString Json ToolArgs Sql WorkQueue GoapState ActionStore GoalStore ParamExtract GoapTools GoapFacts Supervisor SupervisorFacts Orchestrator OrchestratorTool OrchestratorFacts.
Local Open Scope bool_scope.
Local Open Scope Z_scope.

Lemma Forall2_map_l {A B C} (f : A -> B) (Q : B -> C -> Prop) l k :
  Forall2 Q (map f l) k -> Forall2 (fun x y => Q (f x) y) l k.
Proof. revert k. induction l; intros k H; inversion_clear H; constructor; auto. Qed.

Section Facts.
Context {DB : Sqlite} {DBS : SqliteSpec DB} {J : CJson} {PS : Type} {OS : Processes PS} {OSS : ProcessesSpec PS}.
Context (env : GoapEnv).
Implicit Types (s : World * PS).

(** Tables as the program keeps them, and no statement fails. *)
Record settled s : Prop := {
  settled_calm : calm s.1;
  settled_goals : goals_ok (w_goals s.1);
  settled_fit : goal_ids_fit (w_goals s.1)
}.

Lemma update_supervisor_run id pid t s :
  calm s.1 -> exists rc w', update_supervisor id pid t s = (rc, (w', s.2)) /\ calm w' /\ w_now w' = w_now s.1 /\
    w_goals w' = update_where (is_goal id) (set_supervisor pid t (w_now s.1)) (w_goals s.1) /\
    ((exists r, r ∈ w_goals s.1 /\ gr_id r = id) -> rc = 0).
Proof using Type.
  intros Hc. unfold update_supervisor, db, on_goals, next_stmt. rewrite Hc.
  unfold goal_store_update_supervisor, update_goal. cbn [sqlite_dal_exec_p]. eexists _, _. split; [reflexivity|].
  split_and!; try done. intros (r & Hr & Hid).
  assert (0 < count_where (is_goal id) (w_goals s.1)) as H by (apply count_where_pos; exists r; by rewrite is_goal_true).
  by apply Z.ltb_lt in H as ->.
Qed.

Lemma get_goal_run id s r :
  settled s -> r ∈ w_goals s.1 -> gr_id r = id ->
  exists w', db (PS:=PS) (get_goal id) s = (map_goal r, (w', s.2)) /\ w_goals w' = w_goals s.1 /\ calm w' /\
    w_now w' = w_now s.1.
Proof using Type.
  intros [Hc Hg _] Hr Hid. unfold db, get_goal.
  destruct (read_goals_run (fun st rows => goal_store_get st id rows) s.1 Hc) as (w' & E & (G & _ & _ & N & C) & _).
  rewrite E, <- Hid, goal_store_get_row by done. by exists w'.
Qed.

Lemma settled_update s w' id f :
  settled s -> calm w' -> w_goals w' = update_where (is_goal id) f (w_goals s.1) ->
  (forall r, gr_id (f r) = gr_id r /\ gr_status (f r) = gr_status r) ->
  (forall r, - 2 ^ 31 <= gr_supervisor_pid r < 2 ^ 31 -> - 2 ^ 31 <= gr_supervisor_pid (f r) < 2 ^ 31) ->
  settled (w', s.2).
Proof using Type.
  intros [_ Hg Hf] Hc E H1 H2. split; [done| |]; cbn [fst]; rewrite E.
  - apply update_goals_ok; try done; [apply H1|]. intros r. by rewrite (proj2 (H1 r)).
  - apply update_goals_fit; [apply H1|done].
Qed.

(** ** The scan for stale supervisors *)

Definition stale (probe : Z -> KillAnswer) (pid : Z) : bool := (0 <? pid) && bool_decide (probe pid = KillNoProcess).

Definition clear_stale (probe : Z -> KillAnswer) (now pid : Z) (r : GoalRow) : GoalRow :=
  if stale probe pid then set_supervisor 0 0 now r else r.

Lemma check_stale_loop probe goals s :
  calm s.1 -> (forall pid, kill pid 0 s.2 = (probe pid, s.2)) ->
  exists w', for_each check_stale_goal goals s = (tt, (w', s.2)) /\ calm w' /\
    w_goals w' = foldl (fun rows g => update_where (is_goal (g_id g))
                          (clear_stale probe (w_now s.1) (g_supervisor_pid g)) rows) (w_goals s.1) goals.
Proof using Type.
  revert s. induction goals as [|g goals IH]; intros [w ps] Hc Hprobe; [by exists w|]. cbn [for_each foldl].
  assert (exists w', check_stale_goal g (w, ps) = (tt, (w', ps)) /\ calm w' /\ w_now w' = w_now w /\
    w_goals w' = update_where (is_goal (g_id g)) (clear_stale probe (w_now w) (g_supervisor_pid g)) (w_goals w))
    as (w1 & E1 & C1 & N1 & G1).
  { unfold check_stale_goal, clear_stale, stale. rewrite Z.ltb_antisym.
    destruct (g_supervisor_pid g <=? 0); cbn [negb andb]; [exists w; by rewrite update_where_id|].
    unfold clear_if_dead, mbind, P_bind. unfold os at 1. cbn [snd]. rewrite Hprobe. cbn [fst].
    case_bool_decide as Hd.
    - rewrite Hd. cbv beta iota. destruct (update_supervisor_run (g_id g) 0 0 (w, ps) Hc) as (rc & w' & E & C & N & G & _).
      cbn [snd] in *. rewrite E. by exists w'.
    - exists w. rewrite update_where_id. split_and!; try done. by destruct (probe _). }
  destruct (IH (w1, ps) C1 Hprobe) as (w2 & E2 & C2 & G2). cbn [fst snd] in *.
  exists w2. unfold mbind, P_bind. rewrite E1. rewrite E2, G2, N1, G1. done.
Qed.

(** The startup scan is exact: while no process ends during it, it clears
    the supervisor of the goals whose recorded process does not exist, and of no
    other; a process that exists, even of another user, keeps its record. *)
Theorem check_stale_exact probe s :
  settled s -> (forall pid, kill pid 0 s.2 = (probe pid, s.2)) ->
  exists w', orchestrator_check_stale s = (tt, (w', s.2)) /\
    w_goals w' = map (fun r => if stale probe (gr_supervisor_pid r) then set_supervisor 0 0 (w_now s.1) r else r)
                   (w_goals s.1).
Proof using DBS.
  intros [Hc Hg Hf] Hprobe. unfold orchestrator_check_stale, list_all.
  destruct (read_goals_run goal_store_list_all s.1 Hc) as (w0 & E0 & (G0 & _ & _ & N0 & C0) & _).
  unfold mbind, P_bind. unfold db at 1. rewrite E0.
  destruct (check_stale_loop probe (goal_store_list_all StmtOk (w_goals s.1)) (w0, s.2) C0 Hprobe) as (w1 & E1 & C1 & G1).
  rewrite E1. exists w1. split; [done|]. rewrite G1. cbn [fst]. rewrite G0, N0.
  destruct (listed_goals StmtOk (w_goals s.1) (w_goals s.1) Hg Hf) as [Hd Hl]; [done|apply Hg|].
  change is_goal with (fun id r => streq (gr_id r) id). cbv beta.
  rewrite (fold_updates gr_id g_id (fun g => clear_stale probe (w_now s.1) (g_supervisor_pid g))); [|by intros; unfold clear_stale; case_match|exact Hd].
  apply map_ext_in. intros r Hr%list_elem_of_In.
  destruct (List.find _ _) as [g|] eqn:E.
  - apply find_some in E as [Hin%list_elem_of_In Heq%streq_true].
    destruct (Hl g Hin) as (r' & Hr' & Hid & Hp & _).
    assert (r' = r) as -> by (apply (goals_ok_unique (w_goals s.1)); congruence || done). by rewrite <- Hp.
  - exfalso. destruct (map_goal r) as [g|] eqn:Hm; [|done].
    assert (g ∈ goal_store_list_all StmtOk (w_goals s.1)) as Hin.
    { unfold goal_store_list_all. cbn [sqlite_dal_query_list_p returned snd]. apply list_elem_of_omap. exists r.
      by rewrite elem_of_order_by. }
    eapply find_none in E; [|by apply list_elem_of_In]. cbn in E. apply streq_false in E. apply E.
    injection Hm as <-. cbn. unfold goal_ids_fit in Hf. rewrite Forall_forall in Hf. by apply firstn_all2, Hf.
Qed.

(** ** Respawning *)

Definition respawnable (r : GoalRow) : bool :=
  (goal_has_status GOAL_STATUS_PLANNING r || goal_has_status GOAL_STATUS_ACTIVE r) && (gr_supervisor_pid r =? 0).

(** A row after the goals in [ids] were given a supervisor. *)
Definition respawned (ids : list cstr) (r r' : GoalRow) : Prop :=
  if bool_decide (gr_id r ∈ ids)
  then exists pid t now, 0 < pid < 2 ^ 31 /\ r' = set_supervisor pid t now r
  else r' = r.

Section Respawn.
Hypothesis executable : executable_path env <> None.
Hypothesis spawns : forall args ps, exists pid ps', process_spawn_devnull args ps = (Some pid, ps').

Lemma spawn_run id s r :
  settled s -> r ∈ w_goals s.1 -> gr_id r = id ->
  exists s', orchestrator_spawn_supervisor env id s = (0, s') /\ settled s' /\
    exists pid t now, 0 < pid < 2 ^ 31 /\
      w_goals s'.1 = update_where (is_goal id) (set_supervisor pid t now) (w_goals s.1).
Proof using OSS executable spawns.
  intros Hs Hr Hid. destruct (get_goal_run id s r Hs Hr Hid) as (w0 & E0 & G0 & C0 & N0).
  unfold orchestrator_spawn_supervisor. unfold mbind at 1, P_bind at 1. rewrite E0. cbn [map_goal].
  destruct (executable_path env) as [exe|]; [|done]. cbv zeta. set (args := supervisor_args _ _ _).
  unfold mbind at 1, P_bind at 1. unfold os at 1. cbn [fst snd].
  destruct (spawns args s.2) as (pid & ps1 & Ep). rewrite Ep. destruct (spawn_running _ _ _ _ Ep) as [Hpid _].
  unfold mbind at 1, P_bind at 1. unfold os at 1. cbn [fst snd]. destruct (now_millis ps1) as [t ps2].
  destruct (update_supervisor_run id pid t (w0, ps2) C0) as (rc & w1 & E1 & C1 & N1 & G1 & Hrc). cbn [fst snd] in *.
  unfold mbind at 1, P_bind at 1. rewrite E1. rewrite Hrc by (rewrite G0; by exists r). cbn [negb Z.eqb].
  exists (w1, ps2). split; [done|]. rewrite G0 in G1. split.
  - destruct (settled_update s w1 id (set_supervisor pid t (w_now w0)) Hs C1 G1) as [? ? ?]; try done. intros; cbn; lia.
  - by exists pid, t, (w_now w0).
Qed.

Definition ids_with_pid_0 (goals : list Goal) : list cstr :=
  map g_id (List.filter (fun g => g_supervisor_pid g =? 0) goals).

Lemma respawn_loop_run goals n s :
  settled s -> NoDup (map g_id goals) -> (forall g, g ∈ goals -> exists r, r ∈ w_goals s.1 /\ gr_id r = g_id g) ->
  exists s', respawn_loop env goals n s = (n + Z.of_nat (length (ids_with_pid_0 goals)), s') /\ settled s' /\
    Forall2 (respawned (ids_with_pid_0 goals)) (w_goals s.1) (w_goals s'.1).
Proof using OSS executable spawns.
  revert n s. induction goals as [|g goals IH]; intros n s Hs Hd Hrow.
  { exists s. cbn. rewrite Z.add_0_r. split_and!; try done. apply Forall_Forall2_diag, Forall_forall. intros r _.
    unfold respawned. case_bool_decide as H; [by apply not_elem_of_nil in H|done]. }
  cbn [map] in Hd. apply NoDup_cons in Hd as [Hn Hd]. cbn [respawn_loop]. unfold ids_with_pid_0 in *. cbn [List.filter].
  destruct (g_supervisor_pid g =? 0); cbn [negb]; [|by apply IH; [| |intros; apply Hrow; right]].
  destruct (Hrow g ltac:(left)) as (r & Hr & Hid).
  destruct (spawn_run (g_id g) s r Hs Hr Hid) as (s1 & E1 & Hs1 & pid & t & now & Hpid & G1).
  unfold mbind at 1, P_bind at 1. rewrite E1. cbn [Z.eqb].
  destruct (IH (n + 1) s1 Hs1 Hd) as (s2 & E2 & Hs2 & H2).
  { intros g' Hg'. destruct (Hrow g' ltac:(by right)) as (r' & Hr' & Hid'). rewrite G1.
    exists (if is_goal (g_id g) r' then set_supervisor pid t now r' else r'). split; [|by case_match].
    apply elem_of_update. by exists r'. }
  exists s2. rewrite E2. cbn [map length]. split; [f_equal; lia|]. split; [done|].
  rewrite G1 in H2. unfold update_where in H2. apply Forall2_map_l in H2. eapply Forall2_impl; [exact H2|].
  intros x y Hxy. unfold respawned in *. cbn beta in Hxy.
  assert (gr_id (if is_goal (g_id g) x then set_supervisor pid t now x else x) = gr_id x) as Eid by by destruct (is_goal (g_id g) x).
  rewrite Eid in Hxy. destruct (is_goal (g_id g) x) eqn:Eg.
  - apply is_goal_true in Eg. rewrite bool_decide_eq_true_2 by (rewrite Eg; left).
    rewrite bool_decide_eq_false_2 in Hxy; [subst y; eauto|].
    rewrite Eg. intros Hin. apply Hn. apply list_elem_of_In, in_map_iff in Hin as (g' & <- & Hin).
    apply filter_In in Hin as [Hin _]. by apply list_elem_of_In, in_map.
  - assert (gr_id x <> g_id g) as Hne by (intros E; apply (is_goal_true (g_id g)) in E; congruence).
    case_bool_decide as H; [rewrite bool_decide_eq_true_2 by (by right); done|].
    rewrite bool_decide_eq_false_2; [done|]. rewrite elem_of_cons. tauto.
Qed.

(** The goals of one status: read, and given a supervisor when they have none. *)
Lemma respawn_status_run st n s :
  settled s ->
  exists goals s0 s', list_by_status st s = (goals, s0) /\
    respawn_loop env goals n s0 = (n + count_where (fun r => goal_has_status st r && (gr_supervisor_pid r =? 0)) (w_goals s.1), s') /\
    settled s' /\
    Forall2 (fun r r' => if goal_has_status st r && (gr_supervisor_pid r =? 0)
                         then exists pid t now, 0 < pid < 2 ^ 31 /\ r' = set_supervisor pid t now r else r' = r)
      (w_goals s.1) (w_goals s'.1).
Proof using DBS OSS executable spawns.
  intros Hs. pose proof Hs as [Hc Hg Hf]. unfold list_by_status, db.
  destruct (read_goals_run (fun x rows => goal_store_list_by_status x st rows) s.1 Hc) as (w0 & E0 & (G0 & _ & _ & N0 & C0) & _).
  rewrite E0. set (goals := goal_store_list_by_status StmtOk st (w_goals s.1)).
  destruct (listed_goals StmtOk (w_goals s.1) (select_where (goal_has_status st) (w_goals s.1)) Hg Hf) as [Hd Hl].
  { by intros r [? _]%elem_of_select. } { apply NoDup_column_select, Hg. }
  fold goals in Hd, Hl.
  assert (settled (w0, s.2)) as Hs0 by (split; cbn [fst]; rewrite ?G0; done).
  destruct (respawn_loop_run goals n (w0, s.2) Hs0 Hd) as (s' & E & Hs' & H).
  { intros g Hin. destruct (Hl g Hin) as (r & [Hr _]%elem_of_select & Hid & _). cbn [fst]. rewrite G0. by exists r. }
  exists goals, (w0, s.2), s'. split; [done|].
  assert (forall r, r ∈ w_goals s.1 ->
    (gr_id r ∈ ids_with_pid_0 goals <-> goal_has_status st r && (gr_supervisor_pid r =? 0) = true)) as Hids.
  { intros r Hr. unfold ids_with_pid_0. rewrite list_elem_of_In, in_map_iff. split.
    - intros (g & Hid & [Hin Hp]%filter_In). destruct (Hl g) as (r' & [Hr' Hst]%elem_of_select & Hid' & Hp' & _);
        [by apply list_elem_of_In|]. assert (r' = r) as -> by (apply (goals_ok_unique (w_goals s.1)); congruence || done).
      rewrite Hst, Hp'. done.
    - intros [Hst Hp]%andb_true_iff. destruct (map_goal r) as [g|] eqn:Hm; [|done].
      assert (g ∈ goals) as Hin.
      { unfold goals, goal_store_list_by_status. cbn [sqlite_dal_query_list_p returned snd]. apply list_elem_of_omap.
        exists r. by rewrite elem_of_order_by, elem_of_select. }
      exists g. destruct (Hl g Hin) as (r' & [Hr' _]%elem_of_select & Hid' & Hp' & Hm').
      rewrite filter_In, <- list_elem_of_In, (goal_row_pid _ _ _ Hg Hr Hm). split_and!; try done.
      injection Hm as <-. cbn. unfold goal_ids_fit in Hf. rewrite Forall_forall in Hf. by apply firstn_all2, Hf. }
  split_and!; [|done|].
  - rewrite E. f_equal. f_equal. unfold count_where. f_equal. rewrite <- (length_map gr_id).
    apply Permutation_length, NoDup_Permutation.
    + unfold ids_with_pid_0. by apply (NoDup_column_select g_id).
    + apply NoDup_column_select, Hg.
    + intros id. split.
      * intros Hin. assert (exists r, r ∈ w_goals s.1 /\ gr_id r = id) as (r & Hr & <-).
        { unfold ids_with_pid_0 in Hin. apply list_elem_of_In, in_map_iff in Hin as (g & <- & [Hg' _]%filter_In).
          destruct (Hl g) as (r & [Hr _]%elem_of_select & Hid & _); [by apply list_elem_of_In|]. eauto. }
        apply list_elem_of_In, in_map, list_elem_of_In, elem_of_select. split; [done|]. by apply Hids.
      * intros (r & <- & [Hr Hp]%list_elem_of_In%elem_of_select)%list_elem_of_In%in_map_iff. by apply Hids.
  - cbn [fst] in H. rewrite G0 in H. clear -H Hids. revert H. generalize (w_goals s'.1). intros rows'.
    revert Hids. induction (w_goals s.1) as [|r rows IH] in rows' |- *; intros Hids H; inversion_clear H; constructor.
    + unfold respawned in *. destruct (goal_has_status st r && (gr_supervisor_pid r =? 0)) eqn:Ep.
      * rewrite bool_decide_eq_true_2 in *; [done|apply Hids; [left|done]].
      * rewrite bool_decide_eq_false_2 in *; [done|]. intros Hin. apply Hids in Hin; [congruence|left].
    + apply IH; [|done]. intros r' Hr'. apply Hids. by right.
Qed.

(** A row that got a supervisor when [p] holds of it. *)
Definition supervised_when (p : GoalRow -> bool) (r r' : GoalRow) : Prop :=
  if p r then exists pid t now, 0 < pid < 2 ^ 31 /\ r' = set_supervisor pid t now r else r' = r.

Definition waiting (st : GoalStatus) (r : GoalRow) : bool := goal_has_status st r && (gr_supervisor_pid r =? 0).

Lemma respawnable_cases r : respawnable r = waiting GOAL_STATUS_PLANNING r || waiting GOAL_STATUS_ACTIVE r.
Proof using Type. unfold respawnable, waiting. by rewrite andb_orb_distrib_l. Qed.

Lemma waiting_one r : waiting GOAL_STATUS_PLANNING r && waiting GOAL_STATUS_ACTIVE r = false.
Proof using Type.
  unfold waiting, goal_has_status. cbn [goal_status_code].
  destruct (Z.eqb_spec (gr_status r) 0), (Z.eqb_spec (gr_status r) 1), (gr_supervisor_pid r =? 0); cbn; try done; lia.
Qed.

Lemma waiting_set st pid t now r : 0 < pid -> waiting st (set_supervisor pid t now r) = false.
Proof using Type. intros H. unfold waiting. cbn. destruct (Z.eqb_spec pid 0); [lia|]. by rewrite andb_false_r. Qed.

Lemma waiting_count rows :
  count_where (waiting GOAL_STATUS_PLANNING) rows + count_where (waiting GOAL_STATUS_ACTIVE) rows =
  count_where respawnable rows.
Proof using Type.
  induction rows as [|r rows IH]; [done|]. rewrite !count_where_cons, respawnable_cases. pose proof (waiting_one r).
  destruct (waiting GOAL_STATUS_PLANNING r), (waiting GOAL_STATUS_ACTIVE r); cbn [orb andb] in *; try done; lia.
Qed.

(** One status after the other. *)
Lemma supervised_compose rows rows1 rows2 :
  Forall2 (supervised_when (waiting GOAL_STATUS_PLANNING)) rows rows1 ->
  Forall2 (supervised_when (waiting GOAL_STATUS_ACTIVE)) rows1 rows2 ->
  Forall2 (supervised_when respawnable) rows rows2 /\
  count_where (waiting GOAL_STATUS_ACTIVE) rows1 = count_where (waiting GOAL_STATUS_ACTIVE) rows.
Proof using Type.
  intros H1. revert rows2. induction H1 as [|r r1 rows rows1 H _ IH]; intros rows2 H2; inversion H2 as [|? r2 ? rows2' Hr H2']; subst.
  { by split. }
  destruct (IH _ H2') as [Hf Hc]. pose proof (waiting_one r) as Hone.
  unfold supervised_when in H. destruct (waiting GOAL_STATUS_PLANNING r) eqn:Ep.
  - destruct H as (pid & t & now & Hpid & ->). unfold supervised_when in Hr. rewrite waiting_set in Hr by lia. subst r2.
    cbn [andb] in Hone. rewrite !count_where_cons, waiting_set, Hone by lia. split; [|lia]. constructor; [|done].
    unfold supervised_when. rewrite respawnable_cases, Ep. cbn [orb]. eauto.
  - subst r1. rewrite !count_where_cons. split; [|lia]. constructor; [|done].
    unfold supervised_when in *. by rewrite respawnable_cases, Ep.
Qed.

Lemma respawn_dead_run s :
  settled s ->
  exists s', orchestrator_respawn_dead env s = (count_where respawnable (w_goals s.1), s') /\ settled s' /\
    Forall2 (supervised_when respawnable) (w_goals s.1) (w_goals s'.1).
Proof using DBS OSS executable spawns.
  intros Hs. unfold orchestrator_respawn_dead.
  destruct (respawn_status_run GOAL_STATUS_PLANNING 0 s Hs) as (l1 & s0 & s1 & E1 & E2 & Hs1 & H1).
  unfold mbind at 1, P_bind at 1. rewrite E1. unfold mbind at 1, P_bind at 1. rewrite E2.
  destruct (respawn_status_run GOAL_STATUS_ACTIVE
    (0 + count_where (waiting GOAL_STATUS_PLANNING) (w_goals s.1)) s1 Hs1) as (l2 & s2 & s3 & E3 & E4 & Hs3 & H3).
  unfold mbind at 1, P_bind at 1. rewrite E3. fold (waiting GOAL_STATUS_PLANNING). rewrite E4.
  destruct (supervised_compose _ _ _ H1 H3) as [H Hc]. exists s3. split_and!; try done.
  f_equal. rewrite <- waiting_count, <- Hc. unfold waiting. lia.
Qed.

Lemma nothing_respawnable rows rows' :
  Forall2 (supervised_when respawnable) rows rows' -> forall r, r ∈ rows' -> respawnable r = false.
Proof using Type.
  induction 1 as [|r r' rows rows' H _ IH]; [by intros r ?%not_elem_of_nil|].
  intros x [->|Hx]%elem_of_cons; [|by apply IH]. unfold supervised_when in H.
  destruct (respawnable r) eqn:E; [|congruence]. destruct H as (pid & t & now & Hpid & ->).
  by rewrite respawnable_cases, !waiting_set by lia.
Qed.

(** A respawn restores every goal, once: when processes can be started, the
    result is the number of goals in planning or execution without a supervisor;
    exactly these rows get a new process and nothing else in the table changes;
    none is left without one, and a second respawn starts nothing. *)
Theorem respawn_restores s :
  settled s ->
  exists s', orchestrator_respawn_dead env s = (count_where respawnable (w_goals s.1), s') /\
    Forall2 (supervised_when respawnable) (w_goals s.1) (w_goals s'.1) /\
    (forall r, r ∈ w_goals s'.1 -> respawnable r = false) /\
    exists s'', orchestrator_respawn_dead env s' = (0, s'') /\ w_goals s''.1 = w_goals s'.1.
Proof using DBS OSS executable spawns.
  intros Hs. destruct (respawn_dead_run s Hs) as (s1 & E1 & Hs1 & H1). exists s1.
  pose proof (nothing_respawnable _ _ H1) as Hnone. split_and!; try done.
  destruct (respawn_dead_run s1 Hs1) as (s2 & E2 & _ & H2). exists s2.
  rewrite (proj2 (count_where_zero _ _) Hnone) in E2. split; [done|].
  clear -H2 Hnone. revert Hnone. induction H2 as [|r r' rows rows' H _ IH]; intros Hnone; [done|].
  f_equal; [|apply IH; intros x Hx; apply Hnone; by right].
  unfold supervised_when in H. by rewrite (Hnone r ltac:(left)) in H.
Qed.

(** A lost pause: when the supervisor of an active goal has died since it
    was last looked at, pausing the goal answers success with the status paused
    and does not pause it: the goal stays active without a supervisor, and the
    next respawn starts one for it. *)
Theorem pause_of_dead_supervisor_lost tc s r ps1 :
  settled s -> has_goal_store env = true -> r ∈ w_goals s.1 -> extract tc "goal_id" = Some (gr_id r) ->
  gr_status r = goal_status_code GOAL_STATUS_ACTIVE -> 0 < gr_supervisor_pid r ->
  kill (gr_supervisor_pid r) SIGTERM s.2 = (KillNoProcess, ps1) ->
  exists s1, execute_pause_goal env tc s =
      (tool_json [(cs "goal_id", JString (gr_id r)); (cs "status", JString (cs "paused"))], s1) /\
    exists r1, r1 ∈ w_goals s1.1 /\ gr_id r1 = gr_id r /\ goal_has_status GOAL_STATUS_ACTIVE r1 = true /\
      exists n s2 r2 pid, orchestrator_respawn_dead env s1 = (n, s2) /\ r2 ∈ w_goals s2.1 /\ gr_id r2 = gr_id r /\
        gr_supervisor_pid r2 = pid /\ 0 < pid.
Proof using DBS OSS executable spawns.
  intros Hs Hst Hr Hid Hact Hpos Hkill. unfold execute_pause_goal, with_goal. rewrite Hid, Hst. cbn [negb].
  destruct (get_goal_run (gr_id r) s r Hs Hr eq_refl) as (w1 & E1 & G1 & C1 & N1).
  unfold mbind at 1, P_bind at 1. rewrite E1. destruct (map_goal r) as [g|] eqn:Hm; [|done].
  assert (settled (w1, s.2)) as Hs1 by (destruct Hs; split; cbn [fst]; rewrite ?G1; done).
  pose proof (goal_row_pid _ _ _ (settled_goals _ Hs) Hr Hm) as Hpid.
  assert (g_status g = GOAL_STATUS_ACTIVE) as Hgs by (injection Hm as <-; cbn; by rewrite Hact).
  unfold pause_goal. rewrite Hgs. cbn [bool_decide decide decide_rel negb].
  rewrite bool_decide_eq_true_2 by done. cbn [negb]. unfold orchestrator_kill_supervisor.
  destruct (get_goal_run (gr_id r) (w1, s.2) r Hs1 ltac:(cbn [fst]; by rewrite G1) eq_refl) as (w2 & E2 & G2 & C2 & N2).
  unfold mbind at 1 2, P_bind at 1 2. rewrite E2, Hm. cbn [snd] in *. rewrite Hpid.
  destruct (Z.leb_spec (gr_supervisor_pid r) 0); [lia|]. unfold mbind at 1, P_bind at 1. unfold os at 1. cbn [snd].
  rewrite Hkill. cbn [fst]. unfold mbind at 1, P_bind at 1.
  destruct (update_supervisor_run (gr_id r) 0 0 (w2, ps1) C2) as (rc & w3 & E3 & C3 & N3 & G3 & _). cbn [fst snd] in *.
  rewrite E3. eexists. split; [reflexivity|]. cbn [fst].
  assert (settled (w3, ps1)) as Hs3.
  { destruct Hs1 as [_ Hg Hf]. destruct (settled_update (w2, ps1) w3 (gr_id r) (set_supervisor 0 0 (w_now w2))) as [? ? ?]; try done.
    split; cbn [fst] in *; by rewrite ?G2. }
  assert (set_supervisor 0 0 (w_now w2) r ∈ w_goals w3) as Hr3.
  { rewrite G3, G2, G1. apply elem_of_update. exists r. split; [done|]. by rewrite (proj2 (is_goal_true _ r) eq_refl). }
  eexists. split; [exact Hr3|]. split; [done|]. split; [unfold goal_has_status; cbn; by rewrite Hact|].
  destruct (respawn_dead_run (w3, ps1) Hs3) as (s4 & E4 & _ & H4). cbn [fst] in H4.
  apply list_elem_of_lookup in Hr3 as [i Hi]. destruct (Forall2_lookup_l _ _ _ _ _ H4 Hi) as (r4 & Hi4 & Hr4).
  unfold supervised_when in Hr4. rewrite respawnable_cases in Hr4. unfold waiting, goal_has_status in Hr4.
  cbn [gr_status set_supervisor gr_supervisor_pid] in Hr4. rewrite Hact in Hr4. cbn in Hr4.
  destruct Hr4 as (pid & t & now & Hpid4 & ->).
  eexists _, s4, _, pid. split; [exact E4|]. split; [by eapply list_elem_of_lookup_2|]. split_and!; try done. lia.
Qed.
End Respawn.
End Facts.

(** ** Reports *)

(** The flag supervisor_running of a listed goal is always true: the constant
    cJSON_False is 1, and cJSON_AddBoolToObject takes any integer but 0 for true. *)
Lemma supervisor_running_always_true g :
  exists members, list_goals_entry (J:=RefJson) g = JObject members /\
    find_member_cs members (cs "supervisor_running") = Some (JBool true).
Proof.
  eexists. split; [reflexivity|]. unfold bool_member. destruct (g_summary g); cbn [opt_string opt_member fmap option_fmap option_map app];
    by destruct (0 <? g_supervisor_pid g).
Qed.

Section Tree.
Context {DB : Sqlite} {DBS : SqliteSpec DB} {J : CJson} {PS : Type} {OS : Processes PS} (env : GoapEnv).

Lemma tree_nodes_Some (children_of : cstr -> option (list cJSON)) parent_id l :
  (forall a, a ∈ l -> is_child_of parent_id a = true -> is_Some (children_of (a_id a))) ->
  is_Some (tree_nodes children_of parent_id l).
Proof using Type.
  induction l as [|a l IH]; intros H; [done|]. cbn [tree_nodes].
  assert (is_Some (tree_nodes children_of parent_id l)) as [rest Hrest] by (apply IH; intros; apply H; [by right|done]).
  destruct (is_child_of parent_id a) eqn:E; cbn [negb]; [|by rewrite Hrest].
  destruct (H a ltac:(left) E) as [children Hc]. rewrite Hrest. destruct (a_is_compound a); [rewrite Hc|]; done.
Qed.

Lemma build_action_tree_Some (m : cstr -> nat) N all :
  (forall a, a ∈ all -> a_id a <> []) ->
  (forall a, a ∈ all -> a_parent_action_id a <> [] -> (m (a_parent_action_id a) < m (a_id a))%nat) ->
  (forall id, (m id <= N)%nat) ->
  forall fuel parent_id, parent_id <> [] -> (N - m parent_id < fuel)%nat ->
  is_Some (build_action_tree fuel all parent_id).
Proof using Type.
  intros Hne Hm HN. induction fuel as [|fuel IH]; intros parent_id Hp Hf; [lia|]. cbn [build_action_tree].
  apply tree_nodes_Some. intros a Ha Hc. apply IH; [by apply Hne|].
  destruct parent_id as [|c p]; [done|]. cbn [is_child_of] in Hc. apply streq_true in Hc.
  specialize (Hm a Ha). rewrite Hc in Hm. specialize (Hm ltac:(done)). specialize (HN (a_id a)). lia.
Qed.

(** Termination of the report: the recursion that builds the tree of a
    goal's actions ends for every table whose parents stand before their children
    (as the operations of the store keep it), so goal_status answers, whichever
    statements fail, with at most two more nested calls than actions. *)
Theorem goal_status_returns tc s fuel :
  actions_ok (w_actions s.1) -> ids_fit (w_actions s.1) -> parents_first (rev (w_actions s.1)) ->
  Forall (fun r => ar_id r <> []) (w_actions s.1) -> (length (w_actions s.1) + 2 <= fuel)%nat ->
  exists out s', execute_goal_status (PS:=PS) env fuel tc s = (Some out, s').
Proof using DBS.
  intros Hok Hfit Hfirst Hne Hfuel. unfold execute_goal_status.
  destruct (extract tc "goal_id") as [id|]; [|by eexists _, _]. destruct (negb _); [by eexists _, _|].
  pstep E0 goal s0. destruct goal as [g|]; [|by eexists _, _].
  assert (w_actions s0.1 = w_actions s.1) as A0 by (unfold db, get_goal, on_goals in E0; cbn in E0; by injection E0 as _ <-).
  assert (forall key st s1 s2 p, count_member (PS:=PS) id key st s1 = (p, s2) -> w_actions s2.1 = w_actions s1.1) as Hcount.
  { intros key st s1 s2 p E. unfold count_member, mbind, P_bind, db, on_actions in E. cbn in E. by injection E as _ <-. }
  pstep E1 m1 s1. pstep E2 m2 s2. pstep E3 m3 s3. pstep E4 m4 s4. pstep E5 m5 s5.
  assert (w_actions s5.1 = w_actions s.1) as A5
    by (rewrite (Hcount _ _ _ _ _ E5), (Hcount _ _ _ _ _ E4), (Hcount _ _ _ _ _ E3), (Hcount _ _ _ _ _ E2), (Hcount _ _ _ _ _ E1); done).
  pstep E6 actions s6.
  assert (forall a, a ∈ actions -> exists r, r ∈ w_actions s.1 /\ map_action r = Some a) as Hin.
  { unfold db, list_by_goal, on_actions in E6. cbn in E6. injection E6 as <- _. intros a Ha.
    apply elem_of_list_actions_any in Ha as (r & Hr & _ & Hmap). rewrite A5 in Hr. by exists r. }
  unfold ids_fit in Hfit. rewrite Forall_forall in Hfit, Hne.
  assert (is_Some (build_action_tree fuel actions [])) as [tree Htree]; [|rewrite Htree; by eexists _, _].
  destruct fuel as [|fuel]; [lia|]. cbn [build_action_tree]. apply tree_nodes_Some. intros a Ha _.
  set (l := rev (w_actions s.1)) in *.
  assert (NoDup (map ar_id l)) as Hd.
  { subst l. rewrite map_rev. rewrite <- (Permutation_rev (map ar_id (w_actions s.1))). apply Hok. }
  assert (forall r, r ∈ w_actions s.1 -> r ∈ l) as Hl
    by (intros r Hr; apply list_elem_of_In; subst l; rewrite <- in_rev; by apply list_elem_of_In).
  assert (forall r a, r ∈ w_actions s.1 -> map_action r = Some a -> a_id a = ar_id r) as Hid
    by (intros r b Hr [= <-]; by apply firstn_all2, Hfit).
  assert (forall b, b ∈ actions -> a_id b <> []) as Hids
    by (intros b Hb; destruct (Hin b Hb) as (r & Hr & Hmap); rewrite (Hid r b Hr Hmap); by apply Hne).
  apply (build_action_tree_Some (depth_of l) (length l)); [done| | |by apply Hids|subst l; rewrite length_rev; lia].
  - intros b Hb Hp. destruct (Hin b Hb) as (r & Hr & Hmap). rewrite (Hid r b Hr Hmap).
    injection Hmap as <-. cbn [a_parent_action_id] in *. destruct (ar_parent_action_id r) as [p|] eqn:Ep; [|done].
    destruct (action_ok_parent _ _ (actions_ok_row _ _ Hok Hr) p Ep) as (r' & Hr' & Hp'). cbn in Hp |- *.
    assert (take 39 p = p) as Hfp by (rewrite <- Hp'; by apply firstn_all2, Hfit).
    change (char_array 40 (Some p)) with (take 39 p). rewrite Hfp. by apply parent_deeper; auto.
  - intros b. apply depth_of_bound.
Qed.
End Tree.

(** ** The witnesses *)

Module SupervisionExamples.
Import SystemExamples.
Definition probe (pid : Z) : KillAnswer := match running system.2 !! pid with Some _ => KillDone | None => KillNoProcess end.

Lemma system_settled : settled system.
Proof. split; [done|apply system_ok|apply system_ok]. Qed.

(** Goals that wait for a supervisor; a goal whose supervisor has died. *)
Definition waiting_goals : World * Children :=
  (mkWorld [goal "g1" 1 41; goal "g2" 1 0; goal "g3" 0 0; goal "g4" 2 0] [] [] [] [] 9,
   mkChildren {[ 41 := running_a ]} 100).
Definition crashed : World * Children := (mkWorld [goal "g2" 1 17] [] [] [] [] 9, mkChildren ∅ 100).

Lemma crashed_settled : settled crashed.
Proof.
  split; [done| |repeat constructor; cbn; lia].
  split; [repeat constructor; cbn; lia|by apply (bool_decide_eq_true_1 (NoDup _)); vm_compute].
Qed.

Lemma waiting_settled : settled waiting_goals.
Proof.
  split; [done| |repeat constructor; cbn; lia].
  split; [repeat constructor; cbn; lia|by apply (bool_decide_eq_true_1 (NoDup _)); vm_compute].
Qed.

(** In this process table a start succeeds while pids last; an endless supply. *)
#[local] Instance EndlessProcesses : Processes Children := {
  process_spawn_devnull args ps :=
    let pid := Z.max 1 (Z.min (2 ^ 31 - 1) (next_pid ps)) in
    (Some pid, mkChildren (<[pid := args]> (children ps)) (next_pid ps + 1));
  kill := @kill Children RefProcesses;
  waitpid := @waitpid Children RefProcesses;
  usleep := @usleep Children RefProcesses;
  now_millis := @now_millis Children RefProcesses
}.

#[local] Instance EndlessProcessesSpec : ProcessesSpec Children.
Proof.
  refine (@Build_ProcessesSpec Children EndlessProcesses children _ _
            (@kill_running Children _ RefProcessesSpec) (@kill_finds Children _ RefProcessesSpec)
            (@wait_running Children _ RefProcessesSpec) (@wait_reaps Children _ RefProcessesSpec)
            (@wait_killed Children _ RefProcessesSpec) _ _); try done.
  intros args ps pid ps'. cbn [process_spawn_devnull EndlessProcesses]. intros [= <- <-]. split; [lia|done].
Defined.

Lemma spawns args ps : exists pid ps', process_spawn_devnull args ps = (Some pid, ps').
Proof. cbn [process_spawn_devnull EndlessProcesses]. eauto. Qed.
End SupervisionExamples.

Lemma check_stale_exact_witness :
  exists w', orchestrator_check_stale SystemExamples.system = (tt, (w', SystemExamples.system.2)) /\
    map gr_supervisor_pid (w_goals w') = [41; 0; 0].
Proof.
  destruct (check_stale_exact SupervisionExamples.probe SystemExamples.system SupervisionExamples.system_settled)
    as (w' & E & G).
  - intros pid. unfold SupervisionExamples.probe. cbn [kill RefProcesses running RefProcessesSpec].
    by destruct (children SystemExamples.system.2 !! pid).
  - exists w'. split; [exact E|]. rewrite G. vm_compute. reflexivity.
Defined.

Lemma respawn_restores_witness :
  exists n s', orchestrator_respawn_dead (OS:=SupervisionExamples.EndlessProcesses) SystemExamples.env
      SupervisionExamples.waiting_goals = (n, s') /\ n = 2 /\
    forall r, r ∈ w_goals s'.1 -> respawnable r = false.
Proof.
  destruct (respawn_restores (OSS:=SupervisionExamples.EndlessProcessesSpec) SystemExamples.env ltac:(discriminate)
    SupervisionExamples.spawns SupervisionExamples.waiting_goals SupervisionExamples.waiting_settled)
    as (s' & E & _ & H & _). exists 2, s'. split_and!; [exact E|done|exact H].
Defined.

Lemma pause_of_dead_supervisor_lost_witness :
  exists s1 r1, (execute_pause_goal (OS:=SupervisionExamples.EndlessProcesses) SystemExamples.env
                   (SystemExamples.call "g2") SupervisionExamples.crashed).2 = s1 /\
    r1 ∈ w_goals s1.1 /\ goal_has_status GOAL_STATUS_ACTIVE r1 = true.
Proof.
  destruct (pause_of_dead_supervisor_lost (OSS:=SupervisionExamples.EndlessProcessesSpec) SystemExamples.env
    ltac:(discriminate) SupervisionExamples.spawns (SystemExamples.call "g2") SupervisionExamples.crashed
    (SystemExamples.goal "g2" 1 17) (mkChildren ∅ 100) SupervisionExamples.crashed_settled)
    as (s1 & E & r1 & Hr & _ & Ha & _);
    [reflexivity|left|vm_compute; reflexivity|reflexivity|cbn; lia|vm_compute; reflexivity|].
  exists s1, r1. split; [by rewrite E|]. split; [exact Hr|exact Ha].
Defined.

Lemma goal_status_returns_witness :
  exists out s', execute_goal_status SystemExamples.env 4 (SystemExamples.call "g1")
    (mkWorld [SystemExamples.goal "g1" 1 41]
       [mkActionRow (cs "a1") (cs "g1") None None (cs "phase") None None 1 0 None None 0 6 6;
        mkActionRow (cs "a2") (cs "g1") (Some (cs "a1")) None (cs "step") None None 0 0 None None 0 7 7]
       [] [] [] 9, SystemExamples.system.2) = (Some out, s').
Proof.
  apply goal_status_returns.
  - split; [|by apply (bool_decide_eq_true_1 (NoDup _)); vm_compute].
    apply Forall_cons_2; [|apply Forall_singleton]; split; cbn; try lia; try done.
    intros p [= <-]. eexists. split; [left|done].
  - repeat constructor; cbn; lia.
  - cbn. split_and!; try done. intros p [= <-]. eexists. split; [left|done].
  - by repeat constructor.
  - cbn. lia.
Defined.
